(* ===== verification/_CoqProject ===== *)
-Q . S2P
Prelude.v
Ring.v
Wire.v
Session.v
OrderBookPublication.v
OrderBookSession.v
EventPublication.v
EventSession.v
EventGenerations.v
Programs.v
Projection.v
MarketRuntime.v
RuntimeInvariants.v
RuntimeBehaviour.v
Text.v
Config.v
Recovery.v
RecoveryProtocol.v
RecoveryBehaviour.v
Json.v
SpotProtocol.v
UsdmProtocol.v
Network.v
Routes.v
Transport.v
TransportBehaviour.v
TransportThreads.v
TransportEnding.v
Registry.v
Metadata.v
GrpcRequests.v
GrpcStreams.v
DaemonConfig.v
GatewayStatus.v
GrpcService.v
Products.v
Assembly.v
GatewayLifecycle.v
Diagnostics.v
Daemon.v
Acceptance.v
StreamClient.v
Raising.v
ChildProcess.v
AcceptanceClient.v
Drivers.v
TwoMarketDriver.v
IntegrationDriver.v
DriverSafety.v
DriverProgress.v
Performance.v
Synthetic.v
