(* ===== verification/Prelude.v ===== *)
(** * The Binance market data gateway

    The gateway turns the public market data of Binance (Spot and USD-M perpetual
    contracts) into gRPC streams.  For each of one to eight configured products it owns
    a network transport, a recovery coordinator, a runtime that keeps a local order book
    (the _projection_), and two publications; one RPC service serves them all.

<<
    frames --> Spot/UsdmProtocol --> transport --> MarketRuntime --> SubscriberChannel --+
                                       |  ^            ^                                 |
                                       |  |            | reset, observe                  v
                                       |  +--- Recovery (coordinator)            GrpcStreams
                                       v               | open, quiesce, close            ^
                                   EventPublication <--+--> EventSubscriberChannel ------+
    Daemon: configuration -> metadata -> Products -> GatewayLifecycle -> exit code
    Registry: product key -> its services        GrpcService, GatewayStatus: whole service
>>

    ** Files

    This file is the root: machine integers, early return, record update,
    reachability and the automation.  Sources are under [src/src/] unless a longer path
    is given.  A class method is the definition of the same name; its mutable fields are
    the record of its Module; a method that runs under one lock is one function on that
    record; a thread that takes the lock several times is a [prog] ([Programs.v]), one
    [Step] per critical section, between which other threads act.

    - [Wire.v], [Projection.v], [Json.v]: what the repository imports.  The Protobuf
      enumerators, the order-book projection library and the JSON decoder are parameters
      (classes [WireEnums], [ProjectionLibrary], [JsonLibrary]); what is assumed of them
      is in [WireEnumsOk] and [ProjectionLibraryOk], and concrete instances serve the
      witnesses.
    - [Programs.v]: threads, running alone ([run], [triple]) and among others
      ([safe], a rely-guarantee judgement; [every], [zoom], [within]).
    - [Session.v]: the contract between a subscriber channel and the RPC handler that
      drains it; [Ring.v] the ring buffer inside both channels.
    - [OrderBookPublication.v], [OrderBookSession.v]: g7/order_book_publication.
    - [EventPublication.v], [EventSession.v], [EventGenerations.v]:
      g9/event_publication: one channel, then the publication over its whole life.
    - [MarketRuntime.v], [RuntimeInvariants.v], [RuntimeBehaviour.v]: g3/market_runtime,
      the owner of one product, in any interleaving of its callers.
    - [Recovery.v], [RecoveryProtocol.v], [RecoveryBehaviour.v]: g5/spot_recovery,
      g5/recovery_coordinator and g6/planned_rotation.
    - [Text.v], [Config.v]: src/config.cpp and src/lifecycle.cpp.
    - [SpotProtocol.v], [UsdmProtocol.v]: g4/spot_protocol and g11/usdm_protocol.
    - [Registry.v]: g11/market_key and g11/market_registry.
    - [GrpcRequests.v], [GrpcStreams.v], [GrpcService.v]: g7/grpc_service, in turn its
      pure part, one streaming call, and all calls with the shutdown.
    - [GatewayStatus.v]: g10/gateway_status.
    - [Network.v], [Routes.v], [Transport.v], [TransportBehaviour.v],
      [TransportThreads.v], [TransportEnding.v]: g4/spot_transport and
      g11/usdm_transport: the operations of Asio and Beast as a tree of pending handlers,
      the two configurations of a transport, its handlers, and the network thread among
      start, stop and the answers of Asio.
    - [DaemonConfig.v], [Metadata.v], [Products.v], [Assembly.v], [GatewayLifecycle.v],
      [Diagnostics.v], [Daemon.v]: the process, from production/daemon_config,
      production/production_metadata and g11/multi_market_runtime (the construction of
      the products, then their coordinators wired to their publications) to
      production/production_gateway, production/daemon_runtime,
      production/termination_signals and [src/app/gatewayd/main.cpp].
    - [Performance.v]: performance/performance_baseline; [Synthetic.v]:
      g2/synthetic_spot_host and [src/app/g2_synthetic].
    - The acceptance programs under [src/app/].  [StreamClient.v]: how they read the
      streams of the service.  [Acceptance.v], [ChildProcess.v], [AcceptanceClient.v]:
      production_daemon_acceptance, which runs the daemon as a child (its texts, the child,
      the run); [Raising.v] is the monad of its exceptions and of its loops.  [Drivers.v]
      (g4, g5, g6, g7 and g9), [TwoMarketDriver.v] (g11), [IntegrationDriver.v] (g8): the
      mains that run a gateway in their own process; [DriverSafety.v] and
      [DriverProgress.v] prove all seven at once.  The operating system, the RPC library and
      the gateway of these programs are the classes [ChildOs], [RpcClient] and [Gateway].

    ** Theorems

    - Delivery: [session_delivery_is_contiguous], [ring_refines_fifo],
      [event_session_single_generation], [order_book_handler_contract],
      [event_handler_contract], [terminated_stream_is_drained].  A client sees sequence
      numbers 1..n without gap or repetition whatever the producer does, of one source
      generation, and then the terminal notice.
    - The product owner: [ingress_is_bounded_and_ordered],
      [recovery_states_refuse_input], [subscriptions_bounded_and_unique] are invariants
      under every interleaving; [gap_resynchronizes], [applied_update_is_published],
      [stale_generation_is_never_applied] say what the owner does in each case,
      [owner_loop_terminates] that it ends.
    - Source generations: [active_subscriptions_are_current],
      [source_lifecycle_is_monotone] for the publication;
      [recovery_follows_the_source_protocol], [recovery_shutdown_wins],
      [coordinator_gives_up] for the coordinator; [coordinator_and_publication_agree] for
      the two wired together.
    - The network: [frames_are_forwarded_in_order], [first_failure_is_reported_once],
      [stopped_transport_is_quiet], [released_network_thread_ends],
      [exchange_info_fetch_ends].  A transport forwards what the exchange sent in order,
      reports one failure, and its threads end.
    - Texts: [valid_symbol_is_utf8], [parse_listen_endpoint_spec],
      [combined_frame_spec], [usdm_depth_frame_spec], [exchange_info_spec],
      [load_daemon_config_spec], [acquire_production_metadata_spec] characterise the
      accepted inputs, [write_escaped_roundtrip] what is printed.
    - The service: [registry_spec], [shutdown_cancels_only_live_calls],
      [shutdown_misses_no_call], [finalization_is_never_blocked],
      [status_of_products_is_valid].
    - The process: [resolved_daemon_is_constructed], [gateway_drives_the_graph_in_order],
      [gateway_start_is_all_or_nothing], [gateway_start_ends],
      [daemon_leaves_nothing_running].  A configuration that is accepted leads to a
      gateway; its start ends, with everything running or nothing; and when the process
      exits nothing is left running.
    - Measurements: [evidence_accounts_for_every_call].
    - The acceptance programs: what the service writes passes their checks
      ([order_book_stream_passes_the_drivers], [driver_requests_are_accepted],
      [serving_line_is_read], [shutdown_report_is_read]); they succeed only on the evidence
      ([exit_success_has_the_evidence]) and leave nothing behind
      ([child_calls_are_disciplined], [cleanup_reaps_the_child], [acceptance_leaves_no_child],
      [drivers_end_and_leave_nothing]).  [retry_after_forges_the_evidence] and
      [transport_count_is_not_checked] are two checks that do less than they mean to.

    ** Bounds and fuel

    Machine integers are [Z] with [u64_wrap] wherever the source does not guard an
    increment.  Recursion is structural except for the loops that follow.
    [MarketRuntime.replay_bootstrap] takes the number of buffered updates, which each
    round decreases by one.  The owner loop, [Recovery.coordinator_loop] and
    [GrpcStreams.serve] answer [false] or [None] when the fuel does not suffice:
    [owner_loop_terminates] and [coordinator_gives_up] give a fuel that suffices, and
    [terminated_stream_is_drained] bounds the rounds of a stream that has been closed; a
    healthy stream or product has no bound, and the invariants hold for every fuel.  The
    loops of the acceptance programs answer [Unfinished]: a thousand rounds and one for each
    message of a stream suffice the drivers ([DriverProgress]), 1501 the clean-up of the
    child.

    ** Not modelled

    - The Projection library, gRPC, Protobuf, nlohmann::json, Boost: not in the
      repository; parameters, as above.
    - The order in which Asio runs the handlers, and what the network answers: any order
      and any answer ([Network.v], [Transport.transport_step]).  The coordinator sees a transport through start,
      stop and observe ([RecoveryWorld]); the runtime and the publication see its calls as
      steps of other threads, in any order.  So the theorems on the transport and those
      on the coordinator meet at an interface, and not in one run.
    - Condition variables, wake-ups and timeouts: a wait ends at any time.  Memory
      exhaustion is modelled where a failed allocation changes what the component does
      (the channels, the publication, the admissions), not in the parsers.
    - The calls into the performance baseline (all code under
      BMD_GATEWAY_PERFORMANCE_BASELINE_ENABLED outside performance/): compiled out by
      default.
    - The mains of the acceptance programs run over an abstract gateway, not over the models
      of its components, with which they share their types.
    - Tests and scripts.

    ** Plan

    What is left: the transport as the attempt of [Recovery], in one run with the
    coordinator; the hooks of the performance baseline.
*)

From stdpp Require Export base tactics numbers list strings gmap pretty.
From Stdlib Require Export ZArith Lia.

(** ** Machine integers

    [std::uint64_t] and [std::uint32_t] values are integers in
    [0, 2^64) and [0, 2^32); arithmetic that the source performs without a
    guard wraps explicitly. *)

Definition u64_max : Z := 18446744073709551615.
Definition u32_max : Z := 4294967295.
Definition u16_max : Z := 65535.
Definition i64_max : Z := 9223372036854775807.

Definition u64_wrap (z : Z) : Z := (z mod 18446744073709551616)%Z.

(** [++x] on a [std::uint64_t]. *)
Definition u64_succ (z : Z) : Z := u64_wrap (z + 1).

Definition is_u64 (z : Z) : Prop := (0 <= z <= u64_max)%Z.

Coercion Z.of_nat : nat >-> Z.

(** ** Shared pointers

    A [std::shared_ptr] that is not null: the address of the allocation it
    designates (pointer comparison compares addresses) and the immutable object
    stored there.  A nullable pointer is an [option]. *)

Record shared_ptr (A : Type) : Type := SharedPtr {
  sp_addr : Z;
  sp_obj : A
}.
Arguments SharedPtr {A} _ _.
Arguments sp_addr {A} _.
Arguments sp_obj {A} _.

(** The outcome of a call that can throw: [Threw] stands for any exception. *)

Inductive outcome (A : Type) : Type :=
| Returned (a : A)
| Threw.
Arguments Returned {A} _.
Arguments Threw {A}.

(** ** Notation: early return

    [let? x := e in k] continues with the value of a successful [sum] and
    returns the error otherwise, as [if (failure) return *failure;] does. *)

Declare Scope gateway_scope.
Delimit Scope gateway_scope with gateway.

Definition sum_bind {A B E : Type} (r : A + E) (k : A → B + E) : B + E :=
  match r with inl a => k a | inr e => inr e end.

Notation "'let?' x ':=' e 'in' k" := (sum_bind e (fun x => k))
  (at level 10, x name, e at level 100, k at level 200) : gateway_scope.

(** [if (b) return Error;] *)
Notation "'fail_if' b 'with' e ';;' k" := (if b then inr e else k)
  (at level 10, b at level 99, e at level 99, k at level 200)
  : gateway_scope.

Lemma fail_if_inl {A E : Type} (b : bool) (e : E) (k : A + E) (a : A) :
  (if b then inr e else k) = inl a ↔ b = false ∧ k = inl a.
Proof. by destruct b; split; [|intros []| |intros []]. Qed.

Lemma sum_bind_inl {A B E : Type} (r : A + E) (k : A → B + E) (b : B) :
  sum_bind r k = inl b ↔ ∃ a, r = inl a ∧ k a = inl b.
Proof. destruct r as [a|e]; simpl; [|by split; [|intros (? & ? & ?)]]. naive_solver. Qed.

(** ** Record update

    [x <| field := v |>] and [x <| field ::= f |>] for the records that declare
    how they are rebuilt field by field ([Eta]); the update function of a field is
    derived from that term. *)

Class Eta (R : Type) := eta : R → R.
Class Update {R T : Type} (field : R → T) := update : (T → T) → R → R.
Arguments update {R T} field {Update} _ _ /.

Ltac derive_update field :=
  match type of field with
  | ?R → _ =>
      let rebuild := constr:(_ : Eta R) in
      let body := eval red in rebuild in
      let abstracted := eval pattern field in body in
      match abstracted with
      | ?g _ =>
          let u := eval cbv beta in (λ f, g (λ r, f (field r))) in
          exact u
      end
  end.

#[export] Hint Extern 1 (Update ?field) => derive_update field : typeclass_instances.

#[warnings="-postfix-notation-not-level-1"]
Notation "x '<|' field '::=' f '|>'" := (update field f x)
  (at level 12, f at next level, left associativity) : gateway_scope.
#[warnings="-postfix-notation-not-level-1"]
Notation "x '<|' field ':=' v '|>'" := (update field (λ _, v) x)
  (at level 12, v at level 200, left associativity) : gateway_scope.

(** ** Reachability *)

Section Star.
Context {S : Type} (step : S → S → Prop).

Inductive star : S → S → Prop :=
| star_refl s : star s s
| star_step s1 s2 s3 : step s1 s2 → star s2 s3 → star s1 s3.

Lemma star_trans s1 s2 s3 : star s1 s2 → star s2 s3 → star s1 s3.
Proof. induction 1; eauto using star. Qed.

Lemma star_one s1 s2 : step s1 s2 → star s1 s2.
Proof. eauto using star. Qed.

(** Rule induction for an invariant. *)
Lemma star_invariant (I : S → Prop) :
  (∀ s s', I s → step s s' → I s') →
  ∀ s s', star s s' → I s → I s'.
Proof. intros Hstep s s' Hstar. induction Hstar; eauto. Qed.

(** Every run from here reaches [P], whatever is chosen; no run gets stuck before. *)
Inductive inevitably (P : S → Prop) (s : S) : Prop :=
| inevitably_now : P s → inevitably P s
| inevitably_later :
    (∃ s', step s s') → (∀ s', step s s' → inevitably P s') → inevitably P s.

(** From an invariant and a measure that every step decreases. *)
Lemma inevitably_measure (I P : S → Prop) (measure : S → nat) :
  (∀ s s', I s → step s s' → I s' ∧ measure s' < measure s) →
  (∀ s, I s → P s ∨ ∃ s', step s s') →
  ∀ s, I s → inevitably P s.
Proof.
  intros Hstep Hlive s.
  remember (measure s) as n eqn:Hn. revert s Hn.
  induction n as [n IH] using lt_wf_ind. intros s -> Hi.
  destruct (Hlive s Hi) as [HP|Hex]; [by apply inevitably_now|].
  apply inevitably_later; [done|]. intros s' Hs. destruct (Hstep s s' Hi Hs) as [Hi' Hlt].
  by eapply IH.
Qed.

(** An invariant that relates the two ends of a run. *)
Lemma star_preorder (R : S → S → Prop) :
  (∀ s, R s s) → (∀ a b c, R a b → R b c → R a c) →
  (∀ s s', step s s' → R s s') →
  ∀ s s', star s s' → R s s'.
Proof. intros Hr Ht Hs s s' Hstar. induction Hstar; eauto. Qed.
End Star.

(** ** Automation *)

Create HintDb gateway.
#[export] Hint Constructors star : gateway.
#[export] Hint Resolve star_one : gateway.

(** [break] splits one conditional or match of the goal or a hypothesis and
    discards the contradictory branches; [break_all] repeats it. *)

Ltac break :=
  match goal with
  | H : context [ if decide ?P then _ else _ ] |- _ => destruct (decide P)
  | |- context [ if decide ?P then _ else _ ] => destruct (decide P)
  | H : context [ match ?x with _ => _ end ] |- _ =>
      lazymatch x with context [ match _ with _ => _ end ] => fail | _ =>
        destruct x eqn:? end
  | |- context [ match ?x with _ => _ end ] =>
      lazymatch x with context [ match _ with _ => _ end ] => fail | _ =>
        destruct x eqn:? end
  end; try discriminate; simplify_eq/=.

Ltac break_all := repeat break.

Ltac split_all := repeat match goal with |- _ ∧ _ => split end.

Create Rewrite HintDb len.
#[export] Hint Rewrite @length_app @length_insert @length_replicate @length_fmap
  @length_reverse @length_take @length_drop @length_nil @length_cons : len.
Ltac len := autorewrite with len in *; simpl in *; try lia.

(** Membership in a list written out. *)
Ltac in_list := apply list_elem_of_In; simpl; tauto.

(** ** Integers *)

Lemma u64_succ_small z : (0 <= z < u64_max)%Z → u64_succ z = (z + 1)%Z.
Proof. unfold u64_succ, u64_wrap, u64_max. intros. apply Z.mod_small. lia. Qed.

Lemma u64_succ_range z : is_u64 (u64_succ z).
Proof.
  unfold is_u64, u64_succ, u64_wrap, u64_max.
  pose proof (Z.mod_pos_bound (z + 1) 18446744073709551616). lia.
Qed.

#[export] Hint Resolve u64_succ_range : gateway.

(** ** Circular indices *)

Lemma circular_index_inj h i j c :
  i < c → j < c → (h + i) `mod` c = (h + j) `mod` c → i = j.
Proof.
  intros Hi Hj Heq.
  assert (Hc : c ≠ 0) by lia.
  pose proof (Nat.div_mod (h + i) c Hc) as H1.
  pose proof (Nat.div_mod (h + j) c Hc) as H2.
  rewrite Heq in H1. revert H1 H2.
  generalize ((h + i) `div` c) ((h + j) `div` c) ((h + j) `mod` c).
  intros a b r H1 H2.
  assert (a = b) by nia. subst. lia.
Qed.

Lemma circular_index_succ h i c :
  c ≠ 0 → ((h + 1) `mod` c + i) `mod` c = (h + S i) `mod` c.
Proof.
  intros Hc. rewrite Nat.Div0.add_mod_idemp_l. f_equal. lia.
Qed.

(** ** Lists *)

Lemma last_cons_app {A} (x : A) (l : list A) : last (l ++ [x]) = Some x.
Proof. apply last_snoc. Qed.

Lemma Forall_snoc {A} (P : A → Prop) l x : Forall P l → P x → Forall P (l ++ [x]).
Proof. intros. apply Forall_app; auto. Qed.
#[export] Hint Resolve Forall_snoc : gateway.
