(* ===== verification/Ring.v ===== *)
(** * Ring: the fixed-capacity ring of shared records

    Both subscriber channels ([src/src/g7/order_book_publication.cpp] and
    [src/src/g9/event_publication.cpp]) keep their records in a vector of
    nullable shared pointers used as a ring: [ordinary_capacity_],
    [ordinary_ring_], [head_] and [size_], with the private members
    [ring_push_locked], [ring_pop_locked] and [clear_from_writer_locked].  This
    file models that part once, for any record type, and proves that it refines
    a bounded first-in-first-out list. *)

From S2P Require Import Prelude.

Record Ring (A : Type) : Type := MkRing {
  ordinary_capacity : nat;
  ordinary_ring : list (option A);
  head : nat;
  size : nat
}.
Arguments MkRing {A} _ _ _ _.
Arguments ordinary_capacity {A} _.
Arguments ordinary_ring {A} _.
Arguments head {A} _.
Arguments size {A} _.

Section Operations.
Context {A : Type}.
Implicit Types r : Ring A.

(** [ordinary_ring_(ordinary_capacity)], [head_{0U}], [size_{0U}]. *)
Definition ring_make (capacity : nat) : Ring A :=
  MkRing capacity (replicate capacity None) 0 0.

(** [ring_push_locked]: [None] is [return false]. *)
Definition ring_push (record : option A) (r : Ring A) : option (Ring A) :=
  match record with
  | None => None
  | Some a =>
      if decide (size r = ordinary_capacity r) then None
      else
        let tail := (head r + size r) `mod` ordinary_capacity r in
        Some (MkRing (ordinary_capacity r)
                     (<[tail := Some a]> (ordinary_ring r))
                     (head r) (size r + 1))
  end.

(** [ring_pop_locked]: resets the head slot, advances and shrinks. *)
Definition ring_pop (r : Ring A) : Ring A :=
  MkRing (ordinary_capacity r)
         (<[head r := None]> (ordinary_ring r))
         ((head r + 1) `mod` ordinary_capacity r)
         (size r - 1).

(** [ordinary_ring_[head_]]: the nullable pointer in the head slot. *)
Definition ring_front (r : Ring A) : option A := mjoin (ordinary_ring r !! head r).

(** [while (size_ != 0U) ring_pop_locked();]: each turn shrinks [size_] by one,
    so [size_] turns suffice. *)
Fixpoint ring_pop_while (fuel : nat) (r : Ring A) : Ring A :=
  match fuel with
  | O => r
  | S fuel' => if decide (size r = 0) then r else ring_pop_while fuel' (ring_pop r)
  end.

Definition ring_clear (r : Ring A) : Ring A := ring_pop_while (size r) r.

(** ** The abstract queue *)

(** The slot of the [i]-th queued record. *)
Definition ring_slot (r : Ring A) (i : nat) : nat :=
  (head r + i) `mod` ordinary_capacity r.

(** The queued records, oldest first. *)
Definition ring_contents (r : Ring A) : list (option A) :=
  (λ i, mjoin (ordinary_ring r !! ring_slot r i)) <$> seq 0 (size r).

(** [ring_repr r q]: the ring [r] stores exactly the queue [q]. *)
Definition ring_repr (r : Ring A) (q : list A) : Prop :=
  0 < ordinary_capacity r ∧
  length (ordinary_ring r) = ordinary_capacity r ∧
  head r < ordinary_capacity r ∧
  size r <= ordinary_capacity r ∧
  ring_contents r = Some <$> q ∧
  (∀ k, k < ordinary_capacity r →
        (∀ i, i < size r → ring_slot r i ≠ k) → ordinary_ring r !! k = Some None).

(** The specification: a bounded list. *)
Definition fifo_push (capacity : nat) (a : A) (q : list A) : option (list A) :=
  if decide (length q = capacity) then None else Some (q ++ [a]).

(** A client of the ring: what the channel methods do to it, with what each
    operation answers.  The channels pop only a nonempty ring. *)
Inductive ring_op : Type :=
| OpPush (a : A)
| OpPop
| OpFront
| OpSize
| OpClear.

Inductive ring_answer : Type :=
| AnswerBool (b : bool)
| AnswerFront (a : option A)
| AnswerSize (n : nat)
| AnswerUnit.

Definition ring_exec (op : ring_op) (r : Ring A) : Ring A * ring_answer :=
  match op with
  | OpPush a => match ring_push (Some a) r with
                | Some r' => (r', AnswerBool true)
                | None => (r, AnswerBool false)
                end
  | OpPop => if decide (size r = 0) then (r, AnswerUnit) else (ring_pop r, AnswerUnit)
  | OpFront => (r, AnswerFront (if decide (size r = 0) then None else ring_front r))
  | OpSize => (r, AnswerSize (size r))
  | OpClear => (ring_clear r, AnswerUnit)
  end.

Definition fifo_exec (capacity : nat) (op : ring_op) (q : list A) : list A * ring_answer :=
  match op with
  | OpPush a => match fifo_push capacity a q with
                | Some q' => (q', AnswerBool true)
                | None => (q, AnswerBool false)
                end
  | OpPop => (tail q, AnswerUnit)
  | OpFront => (q, AnswerFront (q !! 0))
  | OpSize => (q, AnswerSize (length q))
  | OpClear => ([], AnswerUnit)
  end.

Fixpoint run_ops {S : Type} (exec : ring_op → S → S * ring_answer) (ops : list ring_op) (s : S)
  : list ring_answer :=
  match ops with
  | [] => []
  | op :: ops' => let '(s', a) := exec op s in a :: run_ops exec ops' s'
  end.

End Operations.

#[global] Arguments ring_push : simpl never.
#[global] Arguments ring_pop : simpl never.
#[global] Arguments ring_clear : simpl never.
#[global] Arguments ring_front : simpl never.

(** ** Representation lemmas *)

Section Lemmas.
Context {A : Type}.
Implicit Types (r : Ring A) (q : list A).

Lemma ring_repr_size r q : ring_repr r q → size r = length q.
Proof.
  intros (_ & _ & _ & _ & Hc & _). apply (f_equal length) in Hc.
  unfold ring_contents in Hc. rewrite !length_fmap, length_seq in Hc. done.
Qed.

Lemma ring_slot_lt r i : 0 < ordinary_capacity r → ring_slot r i < ordinary_capacity r.
Proof. intros. apply Nat.mod_upper_bound. lia. Qed.

Lemma ring_slot_0 r : head r < ordinary_capacity r → ring_slot r 0 = head r.
Proof. intros. unfold ring_slot. rewrite Nat.add_0_r. by apply Nat.mod_small. Qed.

Lemma ring_contents_lookup r i :
  i < size r → ring_contents r !! i = Some (mjoin (ordinary_ring r !! ring_slot r i)).
Proof.
  intros. unfold ring_contents. rewrite list_lookup_fmap, lookup_seq_lt by done. done.
Qed.

Lemma ring_repr_lookup r q i a :
  ring_repr r q → q !! i = Some a → ordinary_ring r !! ring_slot r i = Some (Some a).
Proof.
  intros Hr Hi. pose proof (ring_repr_size _ _ Hr) as Hsz.
  destruct Hr as (Hc0 & Hlen & Hh & Hs & Hc & _).
  pose proof (lookup_lt_Some _ _ _ Hi) as Hlt.
  assert (Hx : ring_contents r !! i = Some (Some a))
    by (rewrite Hc, list_lookup_fmap, Hi; done).
  rewrite ring_contents_lookup in Hx by lia.
  destruct (ordinary_ring r !! ring_slot r i) as [[b|]|] eqn:E; naive_solver.
Qed.

(** Reading a queue back from a pointwise description. *)
Lemma ring_contents_intro r q :
  size r = length q →
  (∀ i a, q !! i = Some a → ordinary_ring r !! ring_slot r i = Some (Some a)) →
  ring_contents r = Some <$> q.
Proof.
  intros Hs Hi. apply list_eq. intros i.
  destruct (q !! i) as [a|] eqn:E.
  - pose proof (lookup_lt_Some _ _ _ E).
    rewrite ring_contents_lookup by lia. rewrite (Hi _ _ E), list_lookup_fmap, E. done.
  - pose proof (lookup_ge_None_1 _ _ E) as Hge.
    rewrite list_lookup_fmap, E. apply lookup_ge_None_2.
    unfold ring_contents. rewrite length_fmap, length_seq. lia.
Qed.

Lemma ring_make_repr capacity : 0 < capacity → ring_repr (@ring_make A capacity) [].
Proof.
  intros Hc. unfold ring_make. repeat split; simpl; try lia.
  - by rewrite length_replicate.
  - intros k Hk _. by rewrite lookup_replicate_2.
Qed.

(** A push succeeds exactly when the bounded queue has room, and appends. *)
Lemma ring_push_repr r q a :
  ring_repr r q →
  match ring_push (Some a) r with
  | Some r' => fifo_push (ordinary_capacity r) a q = Some (q ++ [a]) ∧
               ring_repr r' (q ++ [a])
  | None => fifo_push (ordinary_capacity r) a q = None
  end.
Proof.
  intros Hr. pose proof (ring_repr_size _ _ Hr) as Hsz.
  unfold ring_push, fifo_push. rewrite Hsz. case_decide as Hfull; [done|].
  split; [done|]. pose proof Hr as (Hc0 & Hlen & Hh & Hs & Hc & Hempty).
  rewrite <- Hsz.
  repeat split; simpl; try lia.
  - by rewrite length_insert.
  - apply ring_contents_intro; simpl.
    + rewrite length_app; simpl. lia.
    + intros i b Hi. unfold ring_slot; simpl.
      destruct (decide (i = length q)) as [->|Hne].
      * rewrite lookup_app_r, Nat.sub_diag in Hi by lia. simplify_eq/=.
        rewrite <- Hsz. apply list_lookup_insert_eq.
        rewrite Hlen. apply Nat.mod_upper_bound. lia.
      * pose proof (lookup_lt_Some _ _ _ Hi) as Hlt. rewrite length_app in Hlt; simpl in Hlt.
        rewrite lookup_app_l in Hi by lia.
        rewrite list_lookup_insert_ne.
        { exact (ring_repr_lookup _ _ _ _ Hr Hi). }
        intros Heq. apply circular_index_inj in Heq; lia.
  - intros k Hk Hfree. rewrite list_lookup_insert_ne.
    + apply Hempty; [done|]. intros i Hi. apply (Hfree i). lia.
    + intros <-. by apply (Hfree (size r)); [lia|].
Qed.

Lemma ring_push_null r : ring_push (None : option A) r = None.
Proof. done. Qed.

(** A pop removes the oldest record. *)
Lemma ring_pop_repr r q a : ring_repr r (a :: q) → ring_repr (ring_pop r) q.
Proof.
  intros Hr. pose proof (ring_repr_size _ _ Hr) as Hsz. simpl in Hsz.
  pose proof Hr as (Hc0 & Hlen & Hh & Hs & Hc & Hempty).
  assert (Hslot : ∀ i, ring_slot (ring_pop r) i = ring_slot r (S i)).
  { intros i. unfold ring_slot; simpl. apply circular_index_succ. lia. }
  repeat split; simpl; try lia.
  - by rewrite length_insert.
  - apply Nat.mod_upper_bound. lia.
  - apply ring_contents_intro; simpl; [lia|].
    intros i b Hi. rewrite Hslot.
    pose proof (lookup_lt_Some _ _ _ Hi).
    rewrite list_lookup_insert_ne.
    + apply (ring_repr_lookup _ _ (S i) b Hr). done.
    + rewrite <- (ring_slot_0 r) at 1 by done.
      intros Heq. apply circular_index_inj in Heq; lia.
  - intros k Hk Hfree. destruct (decide (k = head r)) as [->|Hne].
    + apply list_lookup_insert_eq. lia.
    + rewrite list_lookup_insert_ne by done. apply Hempty; [done|].
      intros [|i] Hi; [rewrite ring_slot_0 by done; done|].
      rewrite <- Hslot. apply Hfree. lia.
Qed.

Lemma ring_front_repr r q : ring_repr r q → size r ≠ 0 → ring_front r = q !! 0.
Proof.
  intros Hr Hs. pose proof (ring_repr_size _ _ Hr) as Hsz.
  destruct q as [|a q]; simpl in *; [lia|].
  pose proof (ring_repr_lookup _ _ 0 a Hr eq_refl) as Hl.
  destruct Hr as (_ & _ & Hh & _). rewrite ring_slot_0 in Hl by done.
  unfold ring_front. by rewrite Hl.
Qed.

Lemma ring_pop_while_repr q r :
  ring_repr r q → ring_repr (ring_pop_while (length q) r) [].
Proof.
  revert r. induction q as [|a q IH]; intros r Hr; [done|].
  pose proof (ring_repr_size _ _ Hr) as Hsz. simpl in *.
  case_decide; [lia|]. apply IH. by eapply ring_pop_repr.
Qed.

Lemma ring_clear_repr r q : ring_repr r q → ring_repr (ring_clear r) [].
Proof.
  intros Hr. unfold ring_clear. rewrite (ring_repr_size _ _ Hr).
  by apply ring_pop_while_repr.
Qed.

Lemma ring_pop_while_capacity fuel r :
  ordinary_capacity (ring_pop_while fuel r) = ordinary_capacity r.
Proof. revert r. induction fuel; intros; simpl; [done|]. case_decide; [done|]. by rewrite IHfuel. Qed.

Lemma ring_clear_capacity r : ordinary_capacity (ring_clear r) = ordinary_capacity r.
Proof. apply ring_pop_while_capacity. Qed.

Lemma ring_push_capacity o r r' :
  ring_push o r = Some r' → ordinary_capacity r' = ordinary_capacity r.
Proof. unfold ring_push. intros. break_all. done. Qed.

Lemma ring_exec_simulates capacity op r q :
  ring_repr r q → ordinary_capacity r = capacity →
  let '(r', a) := ring_exec op r in
  let '(q', b) := fifo_exec capacity op q in
  a = b ∧ ring_repr r' q' ∧ ordinary_capacity r' = capacity.
Proof.
  intros Hr <-. pose proof (ring_repr_size _ _ Hr) as Hsz.
  destruct op as [a| | | |]; simpl.
  - pose proof (ring_push_repr r q a Hr) as Hp.
    destruct (ring_push (Some a) r) as [r'|] eqn:E.
    + destruct Hp as [-> Hp]. eauto using ring_push_capacity.
    + rewrite Hp. auto.
  - case_decide as Hz; destruct q as [|b q]; simpl in *; try lia; [auto|].
    eauto using ring_pop_repr.
  - case_decide as Hz; destruct q as [|b q]; simpl in *; try lia; [auto|].
    rewrite (ring_front_repr _ _ Hr) by lia. auto.
  - rewrite Hsz. auto.
  - eauto using ring_clear_repr, ring_clear_capacity.
Qed.

Lemma run_ops_simulates capacity ops r q :
  ring_repr r q → ordinary_capacity r = capacity →
  run_ops ring_exec ops r = run_ops (fifo_exec capacity) ops q.
Proof.
  revert r q. induction ops as [|op ops IH]; intros r q Hr Hc; [done|].
  pose proof (ring_exec_simulates capacity op r q Hr Hc) as Hsim. simpl.
  destruct (ring_exec op r), (fifo_exec capacity op q).
  destruct Hsim as (-> & ? & ?). f_equal. eauto.
Qed.

(** C6: the circular buffer is a bounded queue.  Any sequence of pushes, pops,
    reads of the head, size queries and clears answers exactly as the same
    sequence on a list of at most [capacity] elements. *)
Theorem ring_refines_fifo capacity (ops : list (@ring_op A)) :
  0 < capacity →
  run_ops ring_exec ops (ring_make capacity) = run_ops (fifo_exec capacity) ops [].
Proof. intros Hc. apply run_ops_simulates; [by apply ring_make_repr|done]. Qed.
End Lemmas.

Definition ring_sample_ops : list (@ring_op nat) :=
  [OpPush 7; OpPush 8; OpPush 9; OpFront; OpPop; OpPush 5; OpSize; OpPop; OpFront; OpClear; OpSize].

Lemma ring_refines_fifo_witness :
  0 < 2 ∧ run_ops ring_exec ring_sample_ops (ring_make 2)
          = run_ops (fifo_exec 2) ring_sample_ops [].
Proof. split; [lia|]. apply (ring_refines_fifo 2 ring_sample_ops). lia. Defined.

#[export] Hint Resolve ring_make_repr ring_pop_repr ring_clear_repr : gateway.
