(* ===== verification/Wire.v ===== *)
(** * Wire: the messages and enumerators the gateway exchanges

    The Protobuf messages and enumerations are generated from the Contracts
    repository, which is not part of [src/].  Their enumerators are therefore
    parameters of the model (class [WireEnums]): an open Protobuf enumeration is
    an integer, and what the code relies on is only that enumerators of one
    enumeration are distinct ([WireEnumsOk]).  The messages are records of the
    fields the sources set or read, with [option] for explicit presence. *)

From S2P Require Import Prelude.

Class WireEnums : Type := {
  VENUE_UNSPECIFIED : Z;
  VENUE_BINANCE : Z;
  MARKET_UNSPECIFIED : Z;
  MARKET_SPOT : Z;
  MARKET_USD_M_PERPETUAL : Z;
  STREAM_UNSPECIFIED : Z;
  STREAM_DIFF_DEPTH : Z;
  STREAM_AGG_TRADE : Z;
  STREAM_BOOK_TICKER : Z;
  STREAM_DEPTH_SNAPSHOT : Z;
  CONSUMER_GAP_REASON_UNSPECIFIED : Z;
  CONSUMER_GAP_REASON_SLOW_CONSUMER : Z;
  CONSUMER_GAP_REASON_UPSTREAM_SEQUENCE_GAP : Z;
  CONSUMER_GAP_REASON_RESUME_NOT_AVAILABLE : Z;
  CONSUMER_GAP_REASON_CONNECTION_GENERATION_CHANGED : Z;
  RECOVERY_ACTION_UNSPECIFIED : Z;
  RECOVERY_ACTION_RESUBSCRIBE : Z;
  RECOVERY_ACTION_REQUEST_NEW_SNAPSHOT : Z;
  INITIAL_SNAPSHOT_MODE_REQUIRED : Z;
  DELIVERY_MODE_CONTIGUOUS_EVENTS : Z;
  STREAM_LIFECYCLE_STATE_ACCEPTED : Z;
  STREAM_LIFECYCLE_STATE_SNAPSHOT_PENDING : Z;
  STREAM_LIFECYCLE_STATE_LIVE : Z;
  STREAM_LIFECYCLE_STATE_RESYNC_IN_PROGRESS : Z;
  STREAM_LIFECYCLE_STATE_DEGRADED : Z;
  STREAM_LIFECYCLE_STATE_CLOSING : Z;
  STREAM_LIFECYCLE_STATE_CLOSED : Z
}.

(** Enumerators of one enumeration are pairwise distinct. *)
Class WireEnumsOk (W : WireEnums) : Prop := {
  markets_distinct :
    NoDup [MARKET_UNSPECIFIED; MARKET_SPOT; MARKET_USD_M_PERPETUAL];
  streams_distinct :
    NoDup [STREAM_UNSPECIFIED; STREAM_DIFF_DEPTH; STREAM_AGG_TRADE;
           STREAM_BOOK_TICKER; STREAM_DEPTH_SNAPSHOT];
  gap_reasons_distinct :
    NoDup [CONSUMER_GAP_REASON_UNSPECIFIED; CONSUMER_GAP_REASON_SLOW_CONSUMER;
           CONSUMER_GAP_REASON_UPSTREAM_SEQUENCE_GAP;
           CONSUMER_GAP_REASON_RESUME_NOT_AVAILABLE;
           CONSUMER_GAP_REASON_CONNECTION_GENERATION_CHANGED];
  lifecycle_states_distinct :
    NoDup [STREAM_LIFECYCLE_STATE_ACCEPTED;
           STREAM_LIFECYCLE_STATE_SNAPSHOT_PENDING;
           STREAM_LIFECYCLE_STATE_LIVE;
           STREAM_LIFECYCLE_STATE_RESYNC_IN_PROGRESS;
           STREAM_LIFECYCLE_STATE_DEGRADED;
           STREAM_LIFECYCLE_STATE_CLOSING;
           STREAM_LIFECYCLE_STATE_CLOSED]
}.

(** One concrete assignment, used by the witnesses. *)
Definition sample_enums : WireEnums := {|
  VENUE_UNSPECIFIED := 0; VENUE_BINANCE := 1;
  MARKET_UNSPECIFIED := 0; MARKET_SPOT := 1; MARKET_USD_M_PERPETUAL := 2;
  STREAM_UNSPECIFIED := 0; STREAM_DIFF_DEPTH := 1; STREAM_AGG_TRADE := 2;
  STREAM_BOOK_TICKER := 3; STREAM_DEPTH_SNAPSHOT := 4;
  CONSUMER_GAP_REASON_UNSPECIFIED := 0; CONSUMER_GAP_REASON_SLOW_CONSUMER := 1;
  CONSUMER_GAP_REASON_UPSTREAM_SEQUENCE_GAP := 2;
  CONSUMER_GAP_REASON_RESUME_NOT_AVAILABLE := 3;
  CONSUMER_GAP_REASON_CONNECTION_GENERATION_CHANGED := 4;
  RECOVERY_ACTION_UNSPECIFIED := 0; RECOVERY_ACTION_RESUBSCRIBE := 1;
  RECOVERY_ACTION_REQUEST_NEW_SNAPSHOT := 2;
  INITIAL_SNAPSHOT_MODE_REQUIRED := 1; DELIVERY_MODE_CONTIGUOUS_EVENTS := 1;
  STREAM_LIFECYCLE_STATE_ACCEPTED := 1;
  STREAM_LIFECYCLE_STATE_SNAPSHOT_PENDING := 2;
  STREAM_LIFECYCLE_STATE_LIVE := 3;
  STREAM_LIFECYCLE_STATE_RESYNC_IN_PROGRESS := 4;
  STREAM_LIFECYCLE_STATE_DEGRADED := 5;
  STREAM_LIFECYCLE_STATE_CLOSING := 6;
  STREAM_LIFECYCLE_STATE_CLOSED := 7
|}%Z.

Lemma sample_enums_ok : WireEnumsOk sample_enums.
Proof. split; simpl; apply (bool_decide_unpack _); by vm_compute. Qed.

(** ** Market events *)

Record EventMetadata : Type := MkEventMetadata {
  md_venue : Z;
  md_market : Z;
  md_symbol : string;
  md_producer : string;
  md_producer_version : string;
  md_connection_id : string;
  md_stream : Z;
  md_schema_version : string;
  exchange_event_time_ms : option Z;
  exchange_trade_time_ms : option Z;
  exchange_transaction_time_ms : option Z;
  receive_time_utc_ns : option Z;
  receive_monotonic_ns : option Z
}.

Record PriceLevel : Type := MkPriceLevel {
  level_price : string;
  level_quantity : string
}.

Record DepthUpdate : Type := MkDepthUpdate {
  du_metadata : EventMetadata;
  first_update_id : Z;
  final_update_id : Z;
  previous_final_update_id : option Z;
  du_bids : list PriceLevel;
  du_asks : list PriceLevel
}.

Record AggTrade : Type := MkAggTrade {
  at_metadata : EventMetadata;
  aggregate_trade_id : Z;
  at_price : string;
  at_quantity : string;
  first_trade_id : Z;
  last_trade_id : Z;
  trade_time_ms : Z;
  buyer_is_maker : bool
}.

Record BookTicker : Type := MkBookTicker {
  bt_metadata : EventMetadata;
  update_id : Z;
  best_bid_price : string;
  best_bid_quantity : string;
  best_ask_price : string;
  best_ask_quantity : string
}.

Record ExchangeDepthSnapshot : Type := MkExchangeDepthSnapshot {
  ds_venue : Z;
  ds_market : Z;
  ds_symbol : string;
  ds_schema_version : string;
  ds_producer : string;
  ds_producer_version : string;
  ds_request_id : string;
  ds_last_update_id : Z;
  ds_exchange_transaction_time_ms : option Z;
  ds_receive_time_utc_ns : Z;
  ds_receive_monotonic_ns : Z;
  ds_bids : list PriceLevel;
  ds_asks : list PriceLevel
}.

(** ** Delivery messages *)

Record SubscriptionAccepted : Type := MkSubscriptionAccepted {
  acc_request_id : string;
  acc_subscription_id : string;
  acc_schema_version : string;
  acc_gateway_instance_id : string;
  accepted_time_utc_ns : Z;
  negotiated_payload_schema_versions : list string
}.

Record DeliveryMetadata : Type := MkDeliveryMetadata {
  dm_protocol_version : string;
  dm_gateway_instance_id : string;
  dm_subscription_id : string;
  dm_connection_generation : option Z;
  dm_session_sequence : Z;
  dm_publish_time_utc_ns : Z;
  dm_publish_monotonic_ns : option Z
}.

Record ConsumerGapNotice : Type := MkConsumerGapNotice {
  gap_schema_version : string;
  gap_subscription_id : string;
  gap_detected_time_utc_ns : Z;
  gap_reason : Z;
  gap_recovery_action : Z;
  gap_market : Z;
  gap_symbol : string;
  gap_stream : Z
}.

#[export] Instance EventMetadata_eq_dec : EqDecision EventMetadata.
Proof. solve_decision. Defined.
#[export] Instance PriceLevel_eq_dec : EqDecision PriceLevel.
Proof. solve_decision. Defined.
#[export] Instance DepthUpdate_eq_dec : EqDecision DepthUpdate.
Proof. solve_decision. Defined.

(** A depth update with the given update ids and receive time, for the
    witnesses and the concrete runs. *)
Definition sample_metadata (utc : Z) : EventMetadata :=
  MkEventMetadata 1 1 "BTCUSDT" "gateway-g4-spot" "1.0.0" "c" 1 "depth-update.v1"
    (Some 1%Z) None None (Some utc) (Some utc).
Definition sample_depth (first final utc : Z) : DepthUpdate :=
  MkDepthUpdate (sample_metadata utc) first final None [] [].
