(* ===== verification/Session.v ===== *)
(** * Session: what a subscriber channel promises to the RPC writer

    The order-book channel and the event channel have the same contract with the
    handler that drains them: items are numbered consecutively, the handler peeks
    the oldest item, writes it, and acknowledges it later, while the producer
    admits, terminalizes or closes in between.  The contract is a class; the two
    channel files discharge its laws and the streaming loop
    ([SubscribeOrderBook], [SubscribeEvents] in [src/src/g7/grpc_service.cpp]) is
    proved against it. *)

From S2P Require Import Prelude.

(** [AcknowledgeResult] and [EventAcknowledgeResult] have the same cases. *)
Inductive AcknowledgeResult : Type :=
| AckAcknowledged
| AckClosed
| AckMismatch.

#[export] Instance AcknowledgeResult_eq_dec : EqDecision AcknowledgeResult.
Proof. solve_decision. Defined.

(** The operations: [sc_peek] is [None] when the peeked publication has no value;
    [sc_producer] relates a channel to what one producer-side call makes of it. *)
Class SessionChannel (C P : Type) : Type := {
  sc_sequence : P → Z;
  sc_peek : C → option P;
  sc_acknowledge : P → C → C * AcknowledgeResult;
  sc_close_from_writer : C → C;
  sc_producer : C → C → Prop
}.

(** The laws: [sc_inv base c items] says that the items still to be delivered are
    [items], numbered from [base]. *)
Class SessionChannelOk (C P : Type) `{SessionChannel C P} : Type := {
  sc_inv : Z → C → list P → Prop;
  sc_inv_sequence base c items :
    sc_inv base c items → sc_sequence <$> items = seqZ base (length items);
  sc_inv_producer base c items c' :
    sc_inv base c items → sc_producer c c' →
    ∃ items', sc_inv base c' items' ∧ items `prefix_of` items';
  sc_inv_peek base c items p :
    sc_inv base c items → sc_peek c = Some p → items !! 0 = Some p;
  sc_inv_acknowledge base c p items c' r :
    sc_inv base c (p :: items) → sc_acknowledge p c = (c', r) →
    r ≠ AckMismatch ∧ (r = AckAcknowledged → sc_inv (base + 1) c' items) ∧
    ∃ base' items', sc_inv base' c' items';
  sc_inv_close base c items :
    sc_inv base c items → ∃ base' items', sc_inv base' (sc_close_from_writer c) items'
}.

Section Session.
Context {C P : Type} `{Ops : SessionChannel C P}.

Inductive WriterState : Type :=
| WriterIdle
| WriterInFlight (p : P)
| WriterDone (last : option AcknowledgeResult).

(** [delivered] is the list of session sequences written so far. *)
Record SessionState : Type := MkSessionState {
  channel : C;
  writer : WriterState;
  delivered : list Z
}.

(** One step of the producer or of the writer; the last rule is the handler
    leaving (client cancelled, write failed, nothing left on a closed channel). *)
Inductive session_step : SessionState → SessionState → Prop :=
| producer_acts c c' w d :
    sc_producer c c' →
    session_step (MkSessionState c w d) (MkSessionState c' w d)
| writer_peeks c p d :
    sc_peek c = Some p →
    session_step (MkSessionState c WriterIdle d) (MkSessionState c (WriterInFlight p) d)
| writer_acknowledges c p d c' r :
    sc_acknowledge p c = (c', r) →
    session_step (MkSessionState c (WriterInFlight p) d)
      (MkSessionState c'
         (if bool_decide (r = AckAcknowledged) then WriterIdle else WriterDone (Some r))
         (d ++ [sc_sequence p]))
| writer_leaves c w d :
    session_step (MkSessionState c w d)
      (MkSessionState (sc_close_from_writer c) (WriterDone None) d).

Definition session_start (c : C) : SessionState := MkSessionState c WriterIdle [].
End Session.
Arguments WriterState : clear implicits.
Arguments SessionState : clear implicits.

Lemma seqZ_snoc base n : (0 <= n)%Z → seqZ base (n + 1) = seqZ base n ++ [(base + n)%Z].
Proof. intros. rewrite seqZ_app by lia. done. Qed.

Lemma seqZ_delivered (d : list Z) m :
  d = seqZ 1 (length d) → m = (1 + length d)%Z → d ++ [m] = seqZ 1 (length (d ++ [m])).
Proof.
  intros Hd ->. rewrite length_app. simpl.
  replace (Z.of_nat (length d + 1)) with (length d + 1)%Z by lia.
  rewrite seqZ_snoc by lia. by rewrite <- Hd.
Qed.

(** ** The session invariant *)

Section Invariant.
Context {C P : Type} `{Ok : SessionChannelOk C P}.
Implicit Types (s : SessionState C P) (c : C) (p : P).

Definition session_inv s : Prop :=
  ∃ base items, sc_inv base (channel s) items ∧
    delivered s = seqZ 1 (length (delivered s)) ∧
    match writer s with
    | WriterIdle => base = (1 + length (delivered s))%Z
    | WriterInFlight p =>
        base = (1 + length (delivered s))%Z ∧ items !! 0 = Some p
    | WriterDone r => r ≠ Some AckMismatch
    end.

Lemma in_flight_acknowledges c p d c' r :
  session_inv (MkSessionState c (WriterInFlight p) d) → sc_acknowledge p c = (c', r) →
  r ≠ AckMismatch ∧ sc_sequence p = (1 + length d)%Z ∧
  session_inv (MkSessionState c'
    (if bool_decide (r = AckAcknowledged) then WriterIdle else WriterDone (Some r))
    (d ++ [sc_sequence p])).
Proof.
  intros (base & items & Hi & Hd & Hb & Hp) Hack. simpl in *.
  destruct items as [|p' items]; simplify_eq/=.
  pose proof (sc_inv_sequence _ _ _ Hi) as Hs. simpl in Hs.
  rewrite seqZ_cons in Hs by lia. injection Hs as Hseq _.
  destruct (sc_inv_acknowledge _ _ _ _ _ _ Hi Hack) as (Hm & Hok & Hany).
  split; [done|]. split; [done|].
  pose proof (seqZ_delivered d _ Hd Hseq) as Hd'.
  case_bool_decide as Hr.
  - exists (1 + length d + 1)%Z, items. split; [by apply Hok|]. split; [done|].
    simpl. rewrite length_app. simpl. lia.
  - destruct Hany as (b' & l' & Hi'). exists b', l'. split; [done|]. split; [done|].
    simpl. congruence.
Qed.

Lemma session_step_inv s s' : session_inv s → session_step s s' → session_inv s'.
Proof.
  intros Hs Hstep. destruct Hstep.
  - destruct Hs as (base & items & Hi & Hd & Hw). simpl in *.
    destruct (sc_inv_producer _ _ _ _ Hi H0) as (items' & Hi' & Hpre).
    exists base, items'. split; [done|]. split; [done|]. simpl.
    destruct w; auto. destruct Hw. split; [done|]. by eapply prefix_lookup_Some.
  - destruct Hs as (base & items & Hi & Hd & Hw). simpl in *.
    exists base, items. simpl. split_all; auto. by eapply sc_inv_peek.
  - by eapply in_flight_acknowledges.
  - destruct Hs as (base & items & Hi & Hd & _).
    destruct (sc_inv_close _ _ _ Hi) as (b' & l' & Hi').
    exists b', l'. split; [done|]. split; done.
Qed.

Lemma session_reachable_inv c items s :
  sc_inv 1 c items → star session_step (session_start c) s → session_inv s.
Proof.
  intros Hi Hstar. eapply star_invariant; [|exact Hstar|].
  - intros; eapply session_step_inv; eauto.
  - exists 1%Z, items. done.
Qed.

Lemma session_delivered_contiguous c items s :
  sc_inv 1 c items → star session_step (session_start c) s →
  delivered s = seqZ 1 (length (delivered s)).
Proof. intros Hi Hs. by destruct (session_reachable_inv _ _ _ Hi Hs) as (? & ? & _ & ? & _). Qed.

Lemma session_never_mismatches c items s p :
  sc_inv 1 c items → star session_step (session_start c) s →
  writer s = WriterInFlight p → snd (sc_acknowledge p (channel s)) ≠ AckMismatch.
Proof.
  intros Hi Hs Hw. pose proof (session_reachable_inv _ _ _ Hi Hs) as Hinv.
  destruct s as [ch w d]; simpl in *; subst w.
  destruct (sc_acknowledge p ch) as [c' r] eqn:E.
  by destruct (in_flight_acknowledges _ _ _ _ _ Hinv E) as (? & _).
Qed.

Lemma session_channel_inv c items s :
  sc_inv 1 c items → star session_step (session_start c) s →
  ∃ base items', sc_inv base (channel s) items'.
Proof. intros Hi Hs. destruct (session_reachable_inv _ _ _ Hi Hs) as (b & l & Hb & _). eauto. Qed.
End Invariant.
