(* ===== verification/OrderBookPublication.v ===== *)
(** * OrderBookPublication: the order-book subscriber channel

    Models [src/src/g7/order_book_publication.hpp] and [.cpp]: the publication
    records, the bounded per-subscriber channel [SubscriberChannel] with its
    terminal slot, and the two record builders.  Every method runs under the
    channel mutex, so one method is one atomic step.  Wake-ups
    ([condition_.notify_*], [wait_for_change]) carry no state and are not
    modelled; the instrumentation compiled only with
    [BMD_GATEWAY_PERFORMANCE_BASELINE_ENABLED] is left out.

    The type of local snapshots belongs to the Projection library and is a
    parameter.  [std::make_shared] receives the address of the new allocation as
    an argument; [None] is an allocation that throws. *)

From S2P Require Import Prelude Ring Wire Session.

Definition kMaximumActiveSubscriptions : nat := 8.
Definition kOrdinaryQueueCapacity : nat := 64.
Definition kPendingAdmissionCapacity : nat := 8.
Definition kProtocolVersion : string := "gateway-stream.v1".
Definition kOrderBookRequestSchema : string := "order-book-subscription-request.v1".
Definition kSubscriptionAcceptedSchema : string := "subscription-accepted.v1".
Definition kSnapshotSchema : string := "local-order-book-snapshot.v1".
Definition kUpdateSchema : string := "depth-update.v1".
Definition kConsumerGapSchema : string := "consumer-gap-notice.v1".

Record PublicationLimits : Type := MkPublicationLimits {
  maximum_active_subscriptions : nat;
  ordinary_queue_capacity : nat;
  pending_admission_capacity : nat
}.

Record PublicationTime : Type := MkPublicationTime {
  utc_ns : Z;
  monotonic_ns : option Z
}.

#[export] Instance PublicationTime_eq_dec : EqDecision PublicationTime.
Proof. solve_decision. Defined.

Record ValidatedOrderBookSubscription : Type := MkValidatedOrderBookSubscription {
  sub_request_id : string;
  sub_gateway_instance_id : string;
  sub_depth_limit : option Z
}.

Inductive PublicationPayloadKind : Type :=
| KindSubscriptionAccepted
| KindSnapshot
| KindDepthUpdate.

#[export] Instance PublicationPayloadKind_eq_dec : EqDecision PublicationPayloadKind.
Proof. solve_decision. Defined.

Record TerminalDescriptor : Type := MkTerminalDescriptor {
  td_session_sequence : Z;
  td_connection_generation : option Z;
  td_published_at : PublicationTime;
  td_reason : Z;
  td_recovery_action : Z
}.

#[export] Instance TerminalDescriptor_eq_dec : EqDecision TerminalDescriptor.
Proof. solve_decision. Defined.

Inductive SubscriberState : Type :=
| SubActive
| SubTerminalGap
| SubClosed.

#[export] Instance SubscriberState_eq_dec : EqDecision SubscriberState.
Proof. solve_decision. Defined.

Inductive OrdinaryAdmissionResult : Type :=
| OaAdmitted
| OaTerminalized
| OaInactive
| OaAllocationFailure.

#[export] Instance OrdinaryAdmissionResult_eq_dec : EqDecision OrdinaryAdmissionResult.
Proof. solve_decision. Defined.

Module SubscriberChannel.
Section Channel.
Context `{W : WireEnums} {Snapshot : Type}.

Inductive OrdinaryPayload : Type :=
| PayloadAccepted (accepted : SubscriptionAccepted)
| PayloadSnapshot (snapshot : Snapshot)
| PayloadDepthUpdate (update : option (shared_ptr DepthUpdate)).

Record PublicationRecord : Type := MkPublicationRecord {
  session_sequence : Z;
  connection_generation : option Z;
  published_at : PublicationTime;
  payload : OrdinaryPayload
}.

(** [PublicationRecord::kind] *)
Definition kind (record : PublicationRecord) : PublicationPayloadKind :=
  match payload record with
  | PayloadAccepted _ => KindSubscriptionAccepted
  | PayloadSnapshot _ => KindSnapshot
  | PayloadDepthUpdate _ => KindDepthUpdate
  end.

Record PeekedPublication : Type := MkPeekedPublication {
  peeked_ordinary : option (shared_ptr PublicationRecord);
  peeked_terminal : option TerminalDescriptor
}.

Definition has_value (p : PeekedPublication) : bool :=
  bool_decide (is_Some (peeked_ordinary p)) || bool_decide (is_Some (peeked_terminal p)).

Definition is_terminal (p : PeekedPublication) : bool :=
  bool_decide (is_Some (peeked_terminal p)).

Record Channel : Type := MkChannel {
  subscription_id : string;
  gateway_instance_id : string;
  ring : Ring (shared_ptr PublicationRecord);
  terminal : option TerminalDescriptor;
  state : SubscriberState;
  next_session_sequence : Z
}.

(** The constructor: a zero capacity throws [std::invalid_argument]. *)
Definition make (subscription_id gateway_instance_id : string) (ordinary_capacity : nat)
  : option Channel :=
  if decide (ordinary_capacity = 0) then None
  else Some (MkChannel subscription_id gateway_instance_id
                       (ring_make ordinary_capacity) None SubActive 1).

Definition set_ring (r : Ring (shared_ptr PublicationRecord)) (c : Channel) : Channel :=
  MkChannel (subscription_id c) (gateway_instance_id c) r (terminal c) (state c)
            (next_session_sequence c).

Definition set_state (s : SubscriberState) (c : Channel) : Channel :=
  MkChannel (subscription_id c) (gateway_instance_id c) (ring c) (terminal c) s
            (next_session_sequence c).

Definition set_next (n : Z) (c : Channel) : Channel :=
  MkChannel (subscription_id c) (gateway_instance_id c) (ring c) (terminal c) (state c) n.

Definition set_terminal (t : option TerminalDescriptor) (c : Channel) : Channel :=
  MkChannel (subscription_id c) (gateway_instance_id c) (ring c) t (state c)
            (next_session_sequence c).

(** [ring_push_locked]: [None] is [return false]. *)
Definition ring_push_locked (record : option (shared_ptr PublicationRecord)) (c : Channel)
  : option Channel :=
  (λ r, set_ring r c) <$> ring_push record (ring c).

Definition ring_pop_locked (c : Channel) : Channel := set_ring (ring_pop (ring c)) c.

(** [clear_from_writer_locked] *)
Definition clear_from_writer_locked (c : Channel) : Channel :=
  set_terminal None (set_ring (ring_clear (ring c)) c).

(** [stage_initial]: both mandatory records commit together or neither. *)
Definition stage_initial (accepted snapshot : option (shared_ptr PublicationRecord))
  (c : Channel) : Channel * bool :=
  match accepted, snapshot with
  | Some a, Some s =>
      if negb (session_sequence (sp_obj a) =? 1)%Z
         || negb (session_sequence (sp_obj s) =? 2)%Z
         || negb (bool_decide (kind (sp_obj a) = KindSubscriptionAccepted))
         || negb (bool_decide (kind (sp_obj s) = KindSnapshot))
      then (c, false)
      else if negb (bool_decide (state c = SubActive))
              || negb (bool_decide (size (ring c) = 0))
              || bool_decide (ordinary_capacity (ring c) < 2)
      then (c, false)
      else
        match ring_push_locked accepted c with
        | None => (set_next 1 (set_state SubActive (clear_from_writer_locked c)), false)
        | Some c1 =>
            match ring_push_locked snapshot c1 with
            | None =>
                (set_next 1 (set_state SubActive (clear_from_writer_locked c1)), false)
            | Some c2 => (set_next 3 c2, true)
            end
        end
  | _, _ => (c, false)
  end.

(** The saturating increment that follows a terminal descriptor. *)
Definition bump_after_terminal (n : Z) : Z :=
  if (n =? u64_max)%Z then n else u64_succ n.

(** [admit_update] *)
Definition admit_update (update : option (shared_ptr DepthUpdate))
  (generation : option Z) (at_time : PublicationTime) (alloc : option Z) (c : Channel)
  : Channel * OrdinaryAdmissionResult :=
  if negb (bool_decide (state c = SubActive)) then (c, OaInactive)
  else if decide (size (ring c) = ordinary_capacity (ring c)) then
    let t := MkTerminalDescriptor (next_session_sequence c) None at_time
               CONSUMER_GAP_REASON_SLOW_CONSUMER RECOVERY_ACTION_RESUBSCRIBE in
    (set_state SubTerminalGap
       (set_next (bump_after_terminal (next_session_sequence c)) (set_terminal (Some t) c)),
     OaTerminalized)
  else if (next_session_sequence c =? u64_max)%Z then (c, OaAllocationFailure)
  else
    match alloc with
    | None => (c, OaAllocationFailure)
    | Some addr =>
        let record := SharedPtr addr
          (MkPublicationRecord (next_session_sequence c) generation at_time
                               (PayloadDepthUpdate update)) in
        match ring_push_locked (Some record) c with
        | None => (c, OaAllocationFailure)
        | Some c' => (set_next (u64_succ (next_session_sequence c)) c', OaAdmitted)
        end
    end.

(** [terminalize]: the first terminal reason wins. *)
Definition terminalize (reason recovery_action : Z) (generation : option Z)
  (at_time : PublicationTime) (c : Channel) : Channel * bool :=
  if negb (bool_decide (state c = SubActive)) || bool_decide (is_Some (terminal c))
  then (c, false)
  else
    let t := MkTerminalDescriptor (next_session_sequence c) generation at_time
               reason recovery_action in
    (set_state SubTerminalGap
       (set_next (bump_after_terminal (next_session_sequence c)) (set_terminal (Some t) c)),
     true).

(** [peek] *)
Definition peek (c : Channel) : PeekedPublication :=
  if bool_decide (state c = SubClosed) then MkPeekedPublication None None
  else if negb (bool_decide (size (ring c) = 0))
  then MkPeekedPublication (ring_front (ring c)) None
  else if bool_decide (is_Some (terminal c))
  then MkPeekedPublication None (terminal c)
  else MkPeekedPublication None None.

(** [acknowledge]: the ring's head pointer is compared by address. *)
Definition acknowledge (publication : PeekedPublication) (c : Channel)
  : Channel * AcknowledgeResult :=
  if bool_decide (state c = SubClosed) then (c, AckClosed)
  else
    match peeked_ordinary publication with
    | Some ordinary =>
        if bool_decide (size (ring c) = 0)
           || negb (bool_decide (sp_addr <$> ring_front (ring c) = Some (sp_addr ordinary)))
        then (c, AckMismatch)
        else (ring_pop_locked c, AckAcknowledged)
    | None =>
        if bool_decide (is_Some (peeked_terminal publication))
           && bool_decide (size (ring c) = 0)
           && bool_decide (is_Some (terminal c))
           && bool_decide (terminal c = peeked_terminal publication)
        then (set_state SubClosed (set_terminal None c), AckClosed)
        else (c, AckMismatch)
    end.

(** [close_from_owner]: keeps the ring and the terminal descriptor. *)
Definition close_from_owner (c : Channel) : Channel := set_state SubClosed c.

(** [close_from_writer] *)
Definition close_from_writer (c : Channel) : Channel :=
  clear_from_writer_locked (set_state SubClosed c).

Definition ordinary_size (c : Channel) : nat := size (ring c).
Definition terminal_reserved (c : Channel) : bool := bool_decide (is_Some (terminal c)).

(** [make_accepted_record] *)
Definition make_accepted_record (request_id subscription_id gateway_instance_id : string)
  (at_time : PublicationTime) (addr : Z) : shared_ptr PublicationRecord :=
  SharedPtr addr (MkPublicationRecord 1 None at_time
    (PayloadAccepted
       (MkSubscriptionAccepted request_id subscription_id kSubscriptionAcceptedSchema
          gateway_instance_id (utc_ns at_time) [kSnapshotSchema; kUpdateSchema]))).

(** [make_snapshot_record] *)
Definition make_snapshot_record (snapshot : Snapshot) (generation : option Z)
  (at_time : PublicationTime) (addr : Z) : shared_ptr PublicationRecord :=
  SharedPtr addr (MkPublicationRecord 2 generation at_time (PayloadSnapshot snapshot)).

End Channel.

Arguments OrdinaryPayload : clear implicits.
Arguments PublicationRecord : clear implicits.
Arguments PeekedPublication : clear implicits.
Arguments Channel : clear implicits.
End SubscriberChannel.
