(* ===== verification/OrderBookSession.v ===== *)
(** * OrderBookSession: one order-book subscription from admission to close

    The channel invariant of [SubscriberChannel], its preservation by every
    method, and the [SessionChannel] laws: the owner thread admits updates,
    terminalizes or closes while the RPC handler peeks, writes and acknowledges.
    The theorems hold for every interleaving of the two. *)

From S2P Require Import Prelude Ring Wire Session OrderBookPublication.
Import SubscriberChannel.

Section ChannelInvariant.
Context `{W : WireEnums} {Snapshot : Type}.
Abbreviation Channel := (Channel Snapshot).
Abbreviation PublicationRecord := (PublicationRecord Snapshot).
Abbreviation PeekedPublication := (PeekedPublication Snapshot).
Implicit Types (c : Channel) (q : list (shared_ptr PublicationRecord)).

(** The session sequence of a queued record. *)
Definition seq_of (p : shared_ptr PublicationRecord) : Z := session_sequence (sp_obj p).

(** [channel_inv base c q]: the channel stores the queue [q], whose records are
    numbered [base, base+1, ...]; the terminal descriptor, when reserved, comes
    right after them. *)
Record channel_inv (base : Z) c q : Prop := {
  ci_repr : ring_repr (ring c) q;
  ci_base : (1 <= base)%Z;
  ci_seq : seq_of <$> q = seqZ base (length q);
  ci_terminal : ∀ t, terminal c = Some t →
      td_session_sequence t = (base + length q)%Z;
  ci_active : state c = SubActive →
      terminal c = None ∧ next_session_sequence c = (base + length q)%Z;
  ci_gap : state c = SubTerminalGap → is_Some (terminal c);
  ci_next : (next_session_sequence c <= u64_max)%Z;
  ci_payload : Forall (λ r, payload (sp_obj r) ≠ PayloadDepthUpdate None) q
}.

(** What is still to be delivered: the queue, then the terminal notice. *)
Definition channel_items c q : list PeekedPublication :=
  ((λ r, MkPeekedPublication (Some r) None) <$> q)
  ++ option_list ((λ t, MkPeekedPublication None (Some t)) <$> terminal c).

(** The sequence number carried by a peeked publication. *)
Definition peeked_sequence (p : PeekedPublication) : Z :=
  match peeked_ordinary p with
  | Some r => seq_of r
  | None => default 0%Z (td_session_sequence <$> peeked_terminal p)
  end.

(** The calls the owner thread makes on a published channel; the pointer it offers is
    not null. *)
Inductive owner_call : Channel → Channel → Prop :=
| owner_admits c update generation time alloc :
    owner_call c (fst (admit_update (Some update) generation time alloc c))
| owner_terminalizes c reason action generation time :
    owner_call c (fst (terminalize reason action generation time c))
| owner_closes c : owner_call c (close_from_owner c).

#[export] Instance order_book_session : SessionChannel Channel PeekedPublication := {|
  sc_sequence := peeked_sequence;
  sc_peek c := if has_value (peek c) then Some (peek c) else None;
  sc_acknowledge := acknowledge;
  sc_close_from_writer := close_from_writer;
  sc_producer := owner_call
|}.

(** The channel a successful admission publishes. *)
Definition staged (c : Channel) : Prop :=
  ∃ sid gid cap c0 accepted snapshot,
    make sid gid cap = Some c0 ∧
    stage_initial (Some accepted) (Some snapshot) c0 = (c, true).
End ChannelInvariant.

(** ** The invariant is kept by every channel method *)

Section Preservation.
Context `{W : WireEnums} {Snapshot : Type}.
Abbreviation Channel := (Channel Snapshot).
Implicit Types (c : Channel).

Lemma stage_initial_inv c : staged c → ∃ q, channel_inv 1 c q ∧ state c = SubActive.
Proof.
  intros (sid & gid & cap & c0 & a & s & Hmake & Hst).
  unfold make in Hmake. case_decide as Hcap; simplify_eq.
  pose proof (ring_make_repr (A := shared_ptr (PublicationRecord Snapshot)) cap) as Hr.
  unfold stage_initial, ring_push_locked in Hst. simpl in Hst.
  destruct (_ || _ || _ || _) eqn:Hkinds; [done|].
  rewrite !orb_false_iff, !negb_false_iff in Hkinds.
  destruct Hkinds as (((Ha & Hs) & Hka) & Hks).
  rewrite Z.eqb_eq in Ha, Hs. rewrite bool_decide_eq_true in Hka, Hks.
  destruct (bool_decide (cap < 2)) eqn:Hc2; simpl in Hst; [done|].
  pose proof (ring_push_repr _ _ a (Hr ltac:(lia))) as H1.
  destruct (ring_push (Some a) (ring_make cap)) as [r1|] eqn:E1; simpl in Hst; [|done].
  destruct H1 as [_ H1]. pose proof (ring_push_repr _ _ s H1) as H2.
  destruct (ring_push (Some s) r1) as [r2|] eqn:E2; simpl in Hst; [|done].
  destruct H2 as [_ H2]. simplify_eq. exists [a; s]. split; [|done].
  split; simpl; auto; try done.
  - unfold seq_of; simpl. by rewrite Ha, Hs.
  - unfold kind in Hka, Hks.
    repeat constructor; intros Hp; rewrite Hp in *; discriminate.
Qed.

(** Reserving the terminal notice on an active channel. *)
Lemma reserve_terminal_inv base c q t :
  channel_inv base c q → state c = SubActive →
  td_session_sequence t = next_session_sequence c →
  let c' := set_state SubTerminalGap
              (set_next (bump_after_terminal (next_session_sequence c))
                 (set_terminal (Some t) c)) in
  channel_inv base c' q ∧ channel_items c q `prefix_of` channel_items c' q.
Proof.
  intros [Hr Hb Hs Ht Ha Hg Hn Hpl] Hact Hseq. destruct (Ha Hact) as [HtN Hnx]. split.
  - split; simpl; auto; try done.
    + intros t' [= <-]. congruence.
    + unfold bump_after_terminal.
      destruct (Z.eqb_spec (next_session_sequence c) u64_max); [lia|].
      unfold u64_succ, u64_wrap, u64_max in *.
      pose proof (Z.mod_pos_bound (next_session_sequence c + 1) 18446744073709551616). lia.
  - unfold channel_items. simpl. rewrite HtN. simpl. rewrite app_nil_r. by apply prefix_app_r.
Qed.

Lemma admit_update_inv base c q u g t al :
  channel_inv base c q →
  ∃ q', channel_inv base (fst (admit_update (Some u) g t al c)) q' ∧
        channel_items c q `prefix_of` channel_items (fst (admit_update (Some u) g t al c)) q'.
Proof.
  intros Hi. unfold admit_update.
  destruct (bool_decide (state c = SubActive)) eqn:Hact; simpl; [|by eauto].
  apply bool_decide_eq_true in Hact.
  case_decide as Hfull; simpl; [exists q; by apply reserve_terminal_inv|].
  destruct (Z.eqb_spec (next_session_sequence c) u64_max); simpl; [by eauto|].
  destruct al as [addr|]; simpl; [|by eauto].
  pose proof Hi as [Hr Hb Hs Ht Ha Hg Hn Hpl]. destruct (Ha Hact) as [HtN Hnx].
  unfold ring_push_locked. set (rec := SharedPtr addr _).
  pose proof (ring_push_repr _ _ rec Hr) as Hp.
  destruct (ring_push (Some rec) (ring c)) as [r'|] eqn:E; simpl; [|by eauto].
  destruct Hp as [_ Hp]. exists (q ++ [rec]).
  assert (Hlen : Z.of_nat (length (q ++ [rec])) = (length q + 1)%Z)
    by (rewrite length_app; simpl; lia).
  split.
  - split; simpl; auto.
    + rewrite fmap_app, Hs, Hlen. simpl. rewrite seqZ_snoc by lia.
      unfold seq_of at 1; simpl. by rewrite Hnx.
    + intros t'. rewrite HtN. done.
    + intros _. split; [done|]. rewrite u64_succ_small by lia. lia.
    + rewrite u64_succ_small by lia. lia.
    + by apply Forall_snoc.
  - unfold channel_items. simpl. rewrite HtN, fmap_app. simpl. rewrite !app_nil_r.
    by apply prefix_app_r.
Qed.

Lemma terminalize_inv base c q re ac g t :
  channel_inv base c q →
  channel_inv base (fst (terminalize re ac g t c)) q ∧
  channel_items c q `prefix_of` channel_items (fst (terminalize re ac g t c)) q.
Proof.
  intros Hi. unfold terminalize.
  destruct (bool_decide (state c = SubActive)) eqn:Hact; simpl; [|done].
  apply bool_decide_eq_true in Hact.
  destruct (bool_decide (is_Some (terminal c))); simpl; [done|].
  by apply reserve_terminal_inv.
Qed.

Lemma close_from_owner_inv base c q :
  channel_inv base c q → channel_inv base (close_from_owner c) q.
Proof. intros []. split; simpl; auto; done. Qed.

Lemma close_from_writer_inv base c q :
  channel_inv base c q → channel_inv base (close_from_writer c) [].
Proof.
  intros []. split; simpl; auto; try done. by eapply ring_clear_repr.
Qed.

Lemma acknowledge_ordinary_inv base c q r :
  channel_inv base c q → q !! 0 = Some r → state c ≠ SubClosed →
  ∃ q', acknowledge (MkPeekedPublication (Some r) None) c
          = (ring_pop_locked c, AckAcknowledged) ∧
        q = r :: q' ∧ channel_inv (base + 1) (ring_pop_locked c) q'.
Proof.
  intros Hi Hq Hcl. destruct q as [|r0 q']; simplify_eq/=.
  pose proof Hi as [Hr Hb Hs Ht Ha Hg Hn Hpl].
  pose proof (ring_repr_size _ _ Hr) as Hsz. simpl in Hsz.
  exists q'. unfold acknowledge; simpl.
  rewrite bool_decide_eq_false_2 by done.
  rewrite (bool_decide_eq_false_2 (size _ = 0)) by lia.
  rewrite (ring_front_repr _ _ Hr) by lia. simpl.
  rewrite bool_decide_eq_true_2 by done. simpl.
  split_all; auto.
  rewrite seqZ_cons in Hs by (simpl; lia).
  replace (Z.pred (length (r :: q'))) with (Z.of_nat (length q')) in Hs by (simpl; lia).
  simpl in Hs. injection Hs as Hs0 Hs.
  split; simpl; auto; try lia.
  - by eapply ring_pop_repr.
  - intros t Hx. rewrite (Ht _ Hx). simpl. lia.
  - intros Hx. destruct (Ha Hx). simpl in *. split; [done|]. lia.
  - by inversion Hpl.
Qed.

Lemma peek_item base c q p :
  channel_inv base c q → has_value (peek c) = true → peek c = p →
  channel_items c q !! 0 = Some p.
Proof.
  intros [Hr Hb Hs Ht Ha Hg Hn Hpl] Hv <-. pose proof (ring_repr_size _ _ Hr) as Hsz.
  unfold has_value, peek, channel_items in *.
  destruct (bool_decide (state c = SubClosed)); [done|].
  destruct (bool_decide (size (ring c) = 0)) eqn:Hz; simpl in *.
  - apply bool_decide_eq_true in Hz. destruct q; simpl in *; [|lia].
    by destruct (terminal c) as [t|].
  - apply bool_decide_eq_false in Hz. rewrite (ring_front_repr _ _ Hr) in * by done.
    destruct q; simpl in *; [lia|done].
Qed.

Lemma owner_call_inv base c q c' :
  channel_inv base c q → owner_call c c' →
  ∃ q', channel_inv base c' q' ∧ channel_items c q `prefix_of` channel_items c' q'.
Proof.
  intros Hi Hcall. destruct Hcall as [c u g t al|c re ac g t|c].
  - by apply admit_update_inv.
  - exists q. by apply terminalize_inv.
  - exists q. split; [by apply close_from_owner_inv|done].
Qed.

Lemma channel_items_sequence base c q :
  channel_inv base c q →
  peeked_sequence <$> channel_items c q = seqZ base (length (channel_items c q)).
Proof.
  intros Hi. unfold channel_items. rewrite fmap_app, <- list_fmap_compose.
  change (peeked_sequence ∘ (λ r, MkPeekedPublication (Some r) None)) with
    (seq_of (Snapshot := Snapshot)).
  rewrite (ci_seq _ _ _ Hi), length_app, length_fmap.
  destruct (terminal c) as [t|] eqn:Et; simpl.
  - unfold peeked_sequence; simpl. rewrite (ci_terminal _ _ _ Hi _ Et).
    rewrite Nat2Z.inj_add. simpl. by rewrite seqZ_snoc by lia.
  - by rewrite app_nil_r, Nat.add_0_r.
Qed.

Lemma acknowledge_item_inv base c q p items c' r :
  channel_inv base c q → channel_items c q = p :: items → acknowledge p c = (c', r) →
  r ≠ AckMismatch ∧
  (r = AckAcknowledged → ∃ q', channel_inv (base + 1) c' q' ∧ channel_items c' q' = items) ∧
  ∃ base' q', channel_inv base' c' q'.
Proof.
  intros Hi Hitems Hack. destruct (decide (state c = SubClosed)) as [Hcl|Hcl].
  { unfold acknowledge in Hack. rewrite bool_decide_eq_true_2 in Hack by done.
    simplify_eq. split_all; [done|done|eauto]. }
  unfold channel_items in Hitems. destruct q as [|rec q]; simpl in Hitems.
  - destruct (terminal c) as [t|] eqn:Et; simplify_eq/=.
    pose proof (ring_repr_size _ _ (ci_repr _ _ _ Hi)) as Hsz. simpl in Hsz.
    unfold acknowledge in Hack. simpl in Hack.
    rewrite bool_decide_eq_false_2, Hsz, Et in Hack by done.
    rewrite !bool_decide_eq_true_2 in Hack by done. simpl in Hack. simplify_eq.
    split_all; [done|done|]. exists base, []. destruct Hi. split; simpl; auto; done.
  - injection Hitems as <- <-.
    destruct (acknowledge_ordinary_inv base c (rec :: q) rec Hi eq_refl Hcl)
      as (q' & He & [= <-] & Hi').
    rewrite He in Hack. simplify_eq. split_all; [done| |eauto]. eauto.
Qed.

#[export] Instance order_book_session_ok :
  SessionChannelOk Channel (PeekedPublication Snapshot).
Proof.
  refine {| sc_inv base c items := ∃ q, channel_inv base c q ∧ channel_items c q = items |}.
  - intros base c items (q & Hi & <-). by apply channel_items_sequence.
  - intros base c items c' (q & Hi & <-) Hp.
    destruct (owner_call_inv _ _ _ _ Hi Hp) as (q' & ? & ?). eauto.
  - intros base c items p (q & Hi & <-) Hp. simpl in Hp.
    destruct (has_value (peek c)) eqn:Hv; simplify_eq. by eapply peek_item.
  - intros base c p items c' r (q & Hi & Hq) Hack.
    destruct (acknowledge_item_inv _ _ _ _ _ _ _ Hi Hq Hack) as (? & ? & b' & q' & ?).
    eauto 10.
  - intros base c items (q & Hi & <-). eexists base, _, []. split; [|done].
    by eapply close_from_writer_inv.
Defined.

Lemma staged_inv c : staged c → ∃ items, sc_inv 1 c items.
Proof. intros Hs. destruct (stage_initial_inv c Hs) as (q & Hi & _). simpl. eauto. Qed.
End Preservation.

Section SessionTheorems.
Context `{W : WireEnums} {Snapshot : Type}.
Abbreviation Channel := (Channel Snapshot).
Abbreviation PeekedPublication := (PeekedPublication Snapshot).
Implicit Types (c : Channel) (s : SessionState Channel PeekedPublication).

(** ** Theorems *)

(** C1: whatever the interleaving of the owner and of the writer, the session
    sequences a subscriber has been sent are exactly [1, 2, ..., n]: nothing is
    skipped, repeated or reordered, the terminal notice included. *)
Theorem session_delivery_is_contiguous c s :
  staged c → star session_step (session_start c) s →
  delivered s = seqZ 1 (length (delivered s)).
Proof. intros Hc Hs. destruct (staged_inv c Hc). by eapply session_delivered_contiguous. Qed.

(** The writer's acknowledgement of the item it holds in flight can never
    mismatch, so the handler's [peek/ack invariant failed] branch is dead. *)
Theorem session_acknowledge_never_mismatches c s p :
  staged c → star session_step (session_start c) s →
  writer s = WriterInFlight p → snd (acknowledge p (channel s)) ≠ AckMismatch.
Proof.
  intros Hc Hs. destruct (staged_inv c Hc) as [items Hi].
  exact (session_never_mismatches c items s p Hi Hs).
Qed.

(** The channel never stores more than its capacity of ordinary records, and
    a gap state always has its terminal descriptor reserved, numbered right after
    the last queued record. *)
Theorem session_channel_bounded c s :
  staged c → star session_step (session_start c) s →
  ordinary_size (channel s) ≤ ordinary_capacity (ring (channel s)) ∧
  (state (channel s) = SubTerminalGap → terminal_reserved (channel s) = true) ∧
  (state (channel s) = SubActive → terminal_reserved (channel s) = false ∧
   next_session_sequence (channel s) ≤ u64_max)%Z.
Proof.
  intros Hc Hs. destruct (staged_inv c Hc) as [items Hi0].
  destruct (session_channel_inv _ _ _ Hi0 Hs) as (base & ? & q & [Hr Hb Hq Ht Ha Hg Hn _] & _).
  unfold ordinary_size, terminal_reserved. split_all.
  - by destruct Hr as (_ & _ & _ & ? & _).
  - intros Hx. apply bool_decide_eq_true_2. auto.
  - intros Hx. destruct (Ha Hx) as [-> _]. split; [|done]. by apply bool_decide_eq_false_2.
Qed.

(** An update offered to a full active channel does not enter the ring; it
    reserves the slow-consumer notice with the next session sequence, the records
    already queued stay deliverable, and every later update or terminal reason is
    refused without any effect. *)
Theorem slow_consumer_is_terminal c q base u g t al :
  channel_inv base c q → state c = SubActive →
  length q = ordinary_capacity (ring c) →
  let '(c1, r1) := admit_update u g t al c in
  r1 = OaTerminalized ∧ ring c1 = ring c ∧
  terminal c1 = Some (MkTerminalDescriptor (base + length q) None t
                        CONSUMER_GAP_REASON_SLOW_CONSUMER RECOVERY_ACTION_RESUBSCRIBE) ∧
  (∀ u' g' t' al', admit_update u' g' t' al' c1 = (c1, OaInactive)) ∧
  (∀ re ac g' t', terminalize re ac g' t' c1 = (c1, false)).
Proof.
  intros [Hr _ _ _ Ha _ _ _] Hact Hfull. destruct (Ha Hact) as [_ Hn].
  unfold admit_update at 1. rewrite bool_decide_eq_true_2 by done. simpl.
  rewrite decide_True by (rewrite (ring_repr_size _ _ Hr); done).
  rewrite Hn. split_all; try done.
Qed.
End SessionTheorems.

(** ** Witnesses: a session of capacity two *)

Definition sample_time : PublicationTime := MkPublicationTime 5 (Some 5%Z).
Definition sample_update : shared_ptr DepthUpdate := SharedPtr 100 (sample_depth 1 2 5).
Definition sample_accepted : shared_ptr (PublicationRecord unit) :=
  make_accepted_record "r" "ob-1" "gw" sample_time 1.
Definition sample_snapshot : shared_ptr (PublicationRecord unit) :=
  make_snapshot_record tt (Some 1%Z) sample_time 2.
Definition sample_channel : Channel unit :=
  match make "ob-1" "gw" 2 with
  | Some c => fst (stage_initial (Some sample_accepted) (Some sample_snapshot) c)
  | None => MkChannel "" "" (ring_make 0) None SubClosed 0
  end.

Lemma sample_channel_staged : staged sample_channel.
Proof.
  exists "ob-1", "gw", 2. eexists. exists sample_accepted, sample_snapshot.
  split; reflexivity.
Qed.

(** The writer takes the accepted record; meanwhile the owner finds the ring full
    and reserves the slow-consumer notice; the writer then drains everything. *)
Lemma sample_session_run :
  ∃ s, star (session_step (Ops := order_book_session (W := sample_enums)))
            (session_start sample_channel) s ∧
       delivered s = [1; 2; 3]%Z.
Proof.
  eexists. split.
  - eapply star_step; [eapply writer_peeks; reflexivity|].
    eapply star_step.
    { apply producer_acts. eapply (owner_admits _ sample_update (Some 1%Z) sample_time (Some 3%Z)). }
    eapply star_step; [eapply writer_acknowledges; reflexivity|].
    eapply star_step; [eapply writer_peeks; reflexivity|].
    eapply star_step; [eapply writer_acknowledges; reflexivity|].
    eapply star_step; [eapply writer_peeks; reflexivity|].
    eapply star_step; [eapply writer_acknowledges; reflexivity|].
    apply star_refl.
  - reflexivity.
Qed.

Lemma session_delivery_is_contiguous_witness :
  ∃ s, star (session_step (Ops := order_book_session (W := sample_enums))) (session_start sample_channel) s ∧
       delivered s = [1; 2; 3]%Z ∧ delivered s = seqZ 1 (length (delivered s)).
Proof.
  destruct sample_session_run as (s & Hs & Hd). exists s. split; [done|]. split; [done|].
  apply (session_delivery_is_contiguous sample_channel s sample_channel_staged Hs).
Defined.

Lemma session_acknowledge_never_mismatches_witness :
  let s := MkSessionState sample_channel (WriterInFlight (peek sample_channel)) [] in
  star (session_step (Ops := order_book_session (W := sample_enums))) (session_start sample_channel) s ∧
  snd (acknowledge (peek sample_channel) sample_channel) ≠ AckMismatch.
Proof.
  assert (Hs : star (session_step (Ops := order_book_session (W := sample_enums))) (session_start sample_channel)
            (MkSessionState sample_channel (WriterInFlight (peek sample_channel)) [])).
  { apply star_one. apply writer_peeks. reflexivity. }
  split; [exact Hs|].
  exact (session_acknowledge_never_mismatches sample_channel _ _
           sample_channel_staged Hs eq_refl).
Defined.

Lemma session_channel_bounded_witness :
  ordinary_size sample_channel ≤ ordinary_capacity (ring sample_channel).
Proof.
  exact (proj1 (session_channel_bounded (W := sample_enums) sample_channel
                  (session_start sample_channel) sample_channel_staged (star_refl _ _))).
Defined.

Lemma slow_consumer_is_terminal_witness :
  snd (admit_update (W := sample_enums) (Some sample_update) (Some 1%Z) sample_time (Some 3%Z)
         sample_channel) = OaTerminalized.
Proof.
  destruct (stage_initial_inv sample_channel sample_channel_staged)
    as (q & Hi & Hact).
  pose proof (slow_consumer_is_terminal (W := sample_enums) sample_channel q 1 (Some sample_update)
                (Some 1%Z) sample_time (Some 3%Z) Hi Hact) as H.
  assert (Hl : length q = ordinary_capacity (ring sample_channel)).
  { rewrite <- (ring_repr_size _ _ (ci_repr _ _ _ Hi)). reflexivity. }
  specialize (H Hl).
  destruct (admit_update (Some sample_update) (Some 1%Z) sample_time (Some 3%Z) sample_channel)
    as [c r]. exact (proj1 H).
Defined.
