(* ===== verification/EventPublication.v ===== *)
(** * EventPublication: raw event streaming of one product

    Models [src/src/g9/event_publication.hpp] and [.cpp]: the event channel
    ([Module EventSubscriberChannel]) and the publication that owns the source
    generation and the list of channels ([Module EventPublication]).

    A channel is shared between the publication and the RPC handler that drains
    it, so channels live in a store keyed by address and the publication holds
    addresses; a method of the publication updates the store.  The injected clock
    is sampled at most once per method: the sample ([None] when the clock throws)
    is an argument.  So is the address of each allocation ([None] when it
    throws).  Every method runs under its mutex and is one atomic step. *)

From S2P Require Import Prelude Ring Wire Session OrderBookPublication.

Definition kMaximumActiveEventSubscriptions : nat := 8.
Definition kEventOrdinaryQueueCapacity : nat := 64.
Definition kEventRequestSchema : string := "event-subscription-request.v1".
Definition kEventSubscriptionAcceptedSchema : string := "subscription-accepted.v1".
Definition kDepthEventSchema : string := "depth-update.v1".
Definition kAggTradeEventSchema : string := "agg-trade.v1".
Definition kBookTickerEventSchema : string := "book-ticker.v1".

(** [g4::NormalizedMarketEvent] *)
Inductive NormalizedMarketEvent : Type :=
| EvDepthUpdate (update : DepthUpdate)
| EvAggTrade (trade : AggTrade)
| EvBookTicker (ticker : BookTicker).

Record EventPublicationLimits : Type := MkEventPublicationLimits {
  ev_maximum_active_subscriptions : nat;
  ev_ordinary_queue_capacity : nat
}.

Record ValidatedEventSubscription : Type := MkValidatedEventSubscription {
  ev_request_id : string;
  ev_stream : Z;
  negotiated_payload_schema_version : string
}.

(** [EventPublicationTime] has the fields of [g7::PublicationTime]. *)
Abbreviation EventPublicationTime := PublicationTime.

Record EventTerminalDescriptor : Type := MkEventTerminalDescriptor {
  et_session_sequence : Z;
  et_connection_generation : Z;
  et_published_at : EventPublicationTime;
  et_reason : Z;
  et_recovery_action : Z
}.

#[export] Instance EventTerminalDescriptor_eq_dec : EqDecision EventTerminalDescriptor.
Proof. solve_decision. Defined.

Inductive EventChannelState : Type :=
| EcActive
| EcTerminalGap
| EcTerminalUnavailable
| EcClosed.

#[export] Instance EventChannelState_eq_dec : EqDecision EventChannelState.
Proof. solve_decision. Defined.

Inductive EventAdmissionResult : Type :=
| EaAdmitted
| EaTerminalized
| EaInactive
| EaAllocationFailure.

#[export] Instance EventAdmissionResult_eq_dec : EqDecision EventAdmissionResult.
Proof. solve_decision. Defined.

Inductive EventOrdinaryPayload : Type :=
| EvPayloadAccepted (accepted : SubscriptionAccepted)
| EvPayloadEvent (event : option (shared_ptr NormalizedMarketEvent)).

Record EventPublicationRecord : Type := MkEventPublicationRecord {
  ev_session_sequence : Z;
  ev_connection_generation : option Z;
  ev_published_at : EventPublicationTime;
  ev_payload : EventOrdinaryPayload
}.

Record PeekedEventPublication : Type := MkPeekedEventPublication {
  ev_peeked_ordinary : option (shared_ptr EventPublicationRecord);
  ev_peeked_terminal : option EventTerminalDescriptor
}.

Section Streams.
Context `{W : WireEnums}.

(** [normalized_event_stream] *)
Definition normalized_event_stream (event : NormalizedMarketEvent) : Z :=
  match event with
  | EvDepthUpdate _ => STREAM_DIFF_DEPTH
  | EvAggTrade _ => STREAM_AGG_TRADE
  | EvBookTicker _ => STREAM_BOOK_TICKER
  end.
End Streams.

Module EventSubscriberChannel.
Section Channel.
Context `{W : WireEnums}.

Definition has_value (p : PeekedEventPublication) : bool :=
  bool_decide (is_Some (ev_peeked_ordinary p)) || bool_decide (is_Some (ev_peeked_terminal p)).

Definition is_terminal (p : PeekedEventPublication) : bool :=
  bool_decide (is_Some (ev_peeked_terminal p)).

Record Channel : Type := MkChannel {
  subscription_id : string;
  gateway_instance_id : string;
  stream : Z;
  source_generation : Z;
  ring : Ring (shared_ptr EventPublicationRecord);
  terminal : option EventTerminalDescriptor;
  state : EventChannelState;
  next_session_sequence : Z
}.

(** The constructor: [None] is [std::invalid_argument]. *)
Definition make (subscription_id gateway_instance_id : string) (stream source_generation : Z)
  (ordinary_capacity : nat) : option Channel :=
  if bool_decide (ordinary_capacity = 0) || (source_generation =? 0)%Z
     || (stream =? STREAM_UNSPECIFIED)%Z
  then None
  else Some (MkChannel subscription_id gateway_instance_id stream source_generation
                       (ring_make ordinary_capacity) None EcActive 1).

Definition set_ring (r : Ring (shared_ptr EventPublicationRecord)) (c : Channel) : Channel :=
  MkChannel (subscription_id c) (gateway_instance_id c) (stream c) (source_generation c)
            r (terminal c) (state c) (next_session_sequence c).

Definition set_state (s : EventChannelState) (c : Channel) : Channel :=
  MkChannel (subscription_id c) (gateway_instance_id c) (stream c) (source_generation c)
            (ring c) (terminal c) s (next_session_sequence c).

Definition set_next (n : Z) (c : Channel) : Channel :=
  MkChannel (subscription_id c) (gateway_instance_id c) (stream c) (source_generation c)
            (ring c) (terminal c) (state c) n.

Definition set_terminal (t : option EventTerminalDescriptor) (c : Channel) : Channel :=
  MkChannel (subscription_id c) (gateway_instance_id c) (stream c) (source_generation c)
            (ring c) t (state c) (next_session_sequence c).

(** [ring_push_locked], [ring_pop_locked], [clear_from_writer_locked] *)
Definition ring_push_locked (record : option (shared_ptr EventPublicationRecord)) (c : Channel)
  : option Channel :=
  (λ r, set_ring r c) <$> ring_push record (ring c).

Definition ring_pop_locked (c : Channel) : Channel := set_ring (ring_pop (ring c)) c.

Definition clear_from_writer_locked (c : Channel) : Channel :=
  set_terminal None (set_ring (ring_clear (ring c)) c).

(** [stage_accepted] *)
Definition stage_accepted (accepted : option (shared_ptr EventPublicationRecord)) (c : Channel)
  : Channel * bool :=
  match accepted with
  | None => (c, false)
  | Some a =>
      if negb (ev_session_sequence (sp_obj a) =? 1)%Z
         || bool_decide (is_Some (ev_connection_generation (sp_obj a)))
         || match ev_payload (sp_obj a) with EvPayloadAccepted _ => false | _ => true end
      then (c, false)
      else if negb (bool_decide (state c = EcActive))
              || negb (bool_decide (size (ring c) = 0))
      then (c, false)
      else
        match ring_push_locked accepted c with
        | None => (c, false)
        | Some c' => (set_next 2 c', true)
        end
  end.

Definition bump_after_terminal (n : Z) : Z :=
  if (n =? u64_max)%Z then n else u64_succ n.

(** Reserves the terminal notice: the common tail of [admit_event]'s full branch
    and of [terminalize_replacement]. *)
Definition reserve_terminal (reason recovery_action : Z) (at_time : EventPublicationTime)
  (c : Channel) : Channel :=
  set_state EcTerminalGap
    (set_next (bump_after_terminal (next_session_sequence c))
       (set_terminal
          (Some (MkEventTerminalDescriptor (next_session_sequence c) (source_generation c)
                   at_time reason recovery_action)) c)).

(** [admit_event] *)
Definition admit_event (event : option (shared_ptr NormalizedMarketEvent))
  (at_time : EventPublicationTime) (alloc : option Z) (c : Channel)
  : Channel * EventAdmissionResult :=
  if negb (bool_decide (state c = EcActive)) then (c, EaInactive)
  else
    match event with
    | None => (c, EaAllocationFailure)
    | Some e =>
        if negb (normalized_event_stream (sp_obj e) =? stream c)%Z
        then (c, EaAllocationFailure)
        else if decide (size (ring c) = ordinary_capacity (ring c)) then
          (reserve_terminal CONSUMER_GAP_REASON_SLOW_CONSUMER RECOVERY_ACTION_RESUBSCRIBE
             at_time c, EaTerminalized)
        else if (next_session_sequence c =? u64_max)%Z then (c, EaAllocationFailure)
        else
          match alloc with
          | None => (c, EaAllocationFailure)
          | Some addr =>
              let record := SharedPtr addr
                (MkEventPublicationRecord (next_session_sequence c)
                   (Some (source_generation c)) at_time (EvPayloadEvent event)) in
              match ring_push_locked (Some record) c with
              | None => (c, EaAllocationFailure)
              | Some c' => (set_next (u64_succ (next_session_sequence c)) c', EaAdmitted)
              end
          end
    end.

(** [terminalize_replacement] *)
Definition terminalize_replacement (at_time : EventPublicationTime) (c : Channel)
  : Channel * bool :=
  if negb (bool_decide (state c = EcActive)) || bool_decide (is_Some (terminal c))
  then (c, false)
  else (reserve_terminal CONSUMER_GAP_REASON_CONNECTION_GENERATION_CHANGED
          RECOVERY_ACTION_RESUBSCRIBE at_time c, true).

(** [close_unavailable] *)
Definition close_unavailable (c : Channel) : Channel * bool :=
  if negb (bool_decide (state c = EcActive)) then (c, false)
  else (set_state EcTerminalUnavailable c, true).

(** [peek] *)
Definition peek (c : Channel) : PeekedEventPublication :=
  if bool_decide (state c = EcClosed) then MkPeekedEventPublication None None
  else if negb (bool_decide (size (ring c) = 0))
  then MkPeekedEventPublication (ring_front (ring c)) None
  else if bool_decide (is_Some (terminal c))
  then MkPeekedEventPublication None (terminal c)
  else MkPeekedEventPublication None None.

(** [acknowledge] *)
Definition acknowledge (publication : PeekedEventPublication) (c : Channel)
  : Channel * AcknowledgeResult :=
  if bool_decide (state c = EcClosed) then (c, AckClosed)
  else
    match ev_peeked_ordinary publication with
    | Some ordinary =>
        if bool_decide (size (ring c) = 0)
           || negb (bool_decide (sp_addr <$> ring_front (ring c) = Some (sp_addr ordinary)))
        then (c, AckMismatch)
        else (ring_pop_locked c, AckAcknowledged)
    | None =>
        if bool_decide (is_Some (ev_peeked_terminal publication))
           && bool_decide (size (ring c) = 0)
           && bool_decide (is_Some (terminal c))
           && bool_decide (terminal c = ev_peeked_terminal publication)
        then (set_state EcClosed (set_terminal None c), AckClosed)
        else (c, AckMismatch)
    end.

Definition close_from_owner (c : Channel) : Channel := set_state EcClosed c.

Definition close_from_writer (c : Channel) : Channel :=
  clear_from_writer_locked (set_state EcClosed c).

(** [make_accepted_record] of this file *)
Definition make_accepted_record (subscription : ValidatedEventSubscription)
  (subscription_id gateway_instance_id : string) (at_time : EventPublicationTime) (addr : Z)
  : shared_ptr EventPublicationRecord :=
  SharedPtr addr (MkEventPublicationRecord 1 None at_time
    (EvPayloadAccepted
       (MkSubscriptionAccepted (ev_request_id subscription) subscription_id
          kEventSubscriptionAcceptedSchema gateway_instance_id (utc_ns at_time)
          [negotiated_payload_schema_version subscription]))).
End Channel.
End EventSubscriberChannel.

Import EventSubscriberChannel.

Inductive EventSourceState : Type :=
| EsClosed
| EsOpen
| EsQuiesced
| EsPermanentlyClosed
| EsShutdown.

#[export] Instance EventSourceState_eq_dec : EqDecision EventSourceState.
Proof. solve_decision. Defined.

Inductive EventSubscriptionAdmissionError : Type :=
| EeSourceUnavailable
| EeActiveLimit
| EeClockError
| EeIdExhausted
| EeInternalError
| EeShuttingDown.

#[export] Instance EventSubscriptionAdmissionError_eq_dec :
  EqDecision EventSubscriptionAdmissionError.
Proof. solve_decision. Defined.

Inductive EventPublishResult : Type :=
| EpPublished
| EpIgnoredBeforeOpen
| EpInvariantFailure.

#[export] Instance EventPublishResult_eq_dec : EqDecision EventPublishResult.
Proof. solve_decision. Defined.

Record EventPublicationObservation : Type := MkEventPublicationObservation {
  obs_source_state : EventSourceState;
  obs_source_generation : option Z;
  obs_active_subscriptions : nat
}.

Module EventPublication.

Record Publication : Type := MkPublication {
  pub_gateway_instance_id : string;
  limits : EventPublicationLimits;
  source_state : EventSourceState;
  source_generation : option Z;
  next_subscription_id : Z;
  channels : list Z
}.

(** The shared channel objects, by address. *)
Abbreviation Store := (gmap Z EventSubscriberChannel.Channel).

Section Publication.
Context `{W : WireEnums}.

(** The constructor: [None] is [std::invalid_argument].  [has_clock] is the
    callable's truth value. *)
Definition make (gateway_instance_id : string) (has_clock : bool)
  (limits : EventPublicationLimits) : option Publication :=
  if bool_decide (gateway_instance_id = "") || negb has_clock
     || bool_decide (ev_maximum_active_subscriptions limits = 0)
     || bool_decide (kMaximumActiveEventSubscriptions < ev_maximum_active_subscriptions limits)
     || bool_decide (ev_ordinary_queue_capacity limits = 0)
     || bool_decide (kEventOrdinaryQueueCapacity < ev_ordinary_queue_capacity limits)
  then None
  else Some (MkPublication gateway_instance_id limits EsClosed None 1 []).

Definition set_source (s : EventSourceState) (p : Publication) : Publication :=
  MkPublication (pub_gateway_instance_id p) (limits p) s (source_generation p)
                (next_subscription_id p) (channels p).

Definition set_generation (g : option Z) (p : Publication) : Publication :=
  MkPublication (pub_gateway_instance_id p) (limits p) (source_state p) g
                (next_subscription_id p) (channels p).

Definition set_channels (n : Z) (cs : list Z) (p : Publication) : Publication :=
  MkPublication (pub_gateway_instance_id p) (limits p) (source_state p)
                (source_generation p) n cs.

(** [open_generation] *)
Definition open_generation (generation : Z) (p : Publication) : Publication * bool :=
  if (generation =? 0)%Z
     || bool_decide (source_state p = EsShutdown)
     || bool_decide (source_state p = EsPermanentlyClosed)
     || bool_decide (source_state p = EsOpen)
     || bool_decide (source_state p = EsQuiesced)
     || match source_generation p with Some g => (generation <=? g)%Z | None => false end
  then (p, false)
  else (set_source EsOpen (set_generation (Some generation) p), true).

(** [quiesce_generation] *)
Definition quiesce_generation (generation : Z) (p : Publication) : Publication * bool :=
  if negb (bool_decide (source_state p = EsOpen))
     || negb (bool_decide (source_generation p = Some generation))
  then (p, false)
  else (set_source EsQuiesced p, true).

(** [channel->f()] on a stored channel. *)
Definition on_channel (f : EventSubscriberChannel.Channel → EventSubscriberChannel.Channel)
  (a : Z) (store : Store) : Store := alter f a store.

(** The loop of [terminalize_replaced_locked] and [close_generation_permanently]:
    [f] on every listed channel of this generation. *)
Fixpoint on_generation (f : EventSubscriberChannel.Channel → EventSubscriberChannel.Channel)
  (generation : Z) (addresses : list Z) (store : Store) : Store :=
  match addresses with
  | [] => store
  | a :: rest =>
      on_generation f generation rest
        (match store !! a with
         | Some c => if (EventSubscriberChannel.source_generation c =? generation)%Z
                     then on_channel f a store else store
         | None => store
         end)
  end.

(** [close_generation_replaced] *)
Definition close_generation_replaced (sampled : option EventPublicationTime) (generation : Z)
  (p : Publication) (store : Store) : Publication * Store * bool :=
  match sampled with
  | None => (p, store, false)
  | Some at_time =>
      if negb (bool_decide (source_state p = EsQuiesced))
         || negb (bool_decide (source_generation p = Some generation))
      then (p, store, false)
      else (set_source EsClosed p,
            on_generation (λ c, fst (terminalize_replacement at_time c)) generation
                          (channels p) store, true)
  end.

(** [close_generation_permanently] *)
Definition close_generation_permanently (generation : Z) (p : Publication) (store : Store)
  : Publication * Store * bool :=
  if negb (bool_decide (source_state p = EsQuiesced))
     || negb (bool_decide (source_generation p = Some generation))
  then (p, store, false)
  else (set_source EsPermanentlyClosed p,
        on_generation (λ c, fst (close_unavailable c)) generation (channels p) store, true).

(** ["ev-" + std::to_string(next_subscription_id_)] *)
Definition event_subscription_id (n : Z) : string := "ev-" +:+ pretty (Z.to_N n).

(** [admit]: on success the address of the new shared channel.  [alloc_channel]
    and [alloc_record] are the two allocations in the [try] block. *)
Definition admit_subscription (sampled : option EventPublicationTime)
  (alloc_channel alloc_record : option Z) (subscription : ValidatedEventSubscription)
  (p : Publication) (store : Store)
  : Publication * Store * (Z + EventSubscriptionAdmissionError) :=
  match sampled with
  | None => (p, store, inr EeClockError)
  | Some at_time =>
      if bool_decide (source_state p = EsShutdown) then (p, store, inr EeShuttingDown)
      else
        match source_state p, source_generation p with
        | EsOpen, Some generation =>
            if decide (length (channels p) = ev_maximum_active_subscriptions (limits p))
            then (p, store, inr EeActiveLimit)
            else if (next_subscription_id p =? u64_max)%Z
            then (p, store, inr EeIdExhausted)
            else
              let id := event_subscription_id (next_subscription_id p) in
              match alloc_channel,
                    EventSubscriberChannel.make id (pub_gateway_instance_id p)
                      (ev_stream subscription) generation
                      (ev_ordinary_queue_capacity (limits p)),
                    alloc_record with
              | Some a, Some c, Some r =>
                  let accepted := make_accepted_record subscription id
                                    (pub_gateway_instance_id p) at_time r in
                  let '(c', staged) := stage_accepted (Some accepted) c in
                  if staged
                  then (set_channels (u64_succ (next_subscription_id p)) (channels p ++ [a]) p,
                        <[a := c']> store, inl a)
                  else (p, store, inr EeInternalError)
              | _, _, _ => (p, store, inr EeInternalError)
              end
        | _, _ => (p, store, inr EeSourceUnavailable)
        end
  end.

(** The loop of [publish]: it stops at the first [AllocationFailure].  [allocs]
    gives the outcome of the allocation made for each channel. *)
Fixpoint publish_to (event : shared_ptr NormalizedMarketEvent) (generation : Z)
  (at_time : EventPublicationTime) (allocs : Z → option Z) (addresses : list Z) (store : Store)
  : Store * EventPublishResult :=
  match addresses with
  | [] => (store, EpPublished)
  | a :: rest =>
      match store !! a with
      | None => publish_to event generation at_time allocs rest store
      | Some c =>
          if negb (EventSubscriberChannel.stream c =? normalized_event_stream (sp_obj event))%Z
             || negb (EventSubscriberChannel.source_generation c =? generation)%Z
          then publish_to event generation at_time allocs rest store
          else
            let '(c', r) := admit_event (Some event) at_time (allocs a) c in
            if bool_decide (r = EaAllocationFailure)
            then (<[a := c']> store, EpInvariantFailure)
            else publish_to event generation at_time allocs rest (<[a := c']> store)
      end
  end.

(** [publish] *)
Definition publish (sampled : option EventPublicationTime) (allocs : Z → option Z)
  (event : option (shared_ptr NormalizedMarketEvent)) (generation : Z)
  (p : Publication) (store : Store) : Store * EventPublishResult :=
  match event, sampled with
  | None, _ => (store, EpInvariantFailure)
  | Some _, None => (store, EpInvariantFailure)
  | Some e, Some at_time =>
      if bool_decide (source_state p = EsShutdown)
         || (bool_decide (source_state p = EsClosed)
             && match source_generation p with
                | None => true
                | Some g => (g <? generation)%Z
                end)
      then (store, EpIgnoredBeforeOpen)
      else if negb (bool_decide (source_state p = EsOpen))
              || negb (bool_decide (source_generation p = Some generation))
      then (store, EpInvariantFailure)
      else publish_to e generation at_time allocs (channels p) store
  end.

(** [std::find] then [erase]: removes the first occurrence. *)
Fixpoint erase_first (a : Z) (l : list Z) : list Z :=
  match l with
  | [] => []
  | x :: rest => if (x =? a)%Z then rest else x :: erase_first a rest
  end.

(** [remove] *)
Definition remove (channel : option Z) (p : Publication) : Publication :=
  match channel with
  | None => p
  | Some a => set_channels (next_subscription_id p) (erase_first a (channels p)) p
  end.

(** [shutdown] *)
Definition shutdown (p : Publication) (store : Store) : Publication * Store :=
  if bool_decide (source_state p = EsShutdown) then (p, store)
  else (set_source EsShutdown p,
        foldl (λ st a, on_channel close_from_owner a st) store (channels p)).

(** [observe] *)
Definition observe (p : Publication) : EventPublicationObservation :=
  MkEventPublicationObservation (source_state p) (source_generation p)
                                (length (channels p)).
End Publication.
End EventPublication.
