(* ===== verification/EventSession.v ===== *)
(** * EventSession: one event subscription from admission to close

    The same contract as the order-book channel, discharged for
    [EventSubscriberChannel]: its invariant, the preservation by every method and
    the [SessionChannel] laws. *)

From S2P Require Import Prelude Ring Wire Session OrderBookPublication EventPublication.
Import EventSubscriberChannel.

Section EventChannelInvariant.
Context `{W : WireEnums}.
Implicit Types (c : Channel) (q : list (shared_ptr EventPublicationRecord)).

(** The session sequence of a queued record. *)
Definition ev_seq_of (p : shared_ptr EventPublicationRecord) : Z := ev_session_sequence (sp_obj p).

(** [ev_channel_inv base c q]: the channel stores the queue [q], whose records are
    numbered [base, base+1, ...]; the terminal descriptor, when reserved, comes
    right after them. *)
Record ev_channel_inv (base : Z) c q : Prop := {
  ec_repr : ring_repr (ring c) q;
  ec_base : (1 <= base)%Z;
  ec_seq : ev_seq_of <$> q = seqZ base (length q);
  ec_terminal : ∀ t, terminal c = Some t →
      et_session_sequence t = (base + length q)%Z;
  ec_active : state c = EcActive →
      terminal c = None ∧ next_session_sequence c = (base + length q)%Z;
  ec_gap : state c = EcTerminalGap → is_Some (terminal c);
  ec_next : (next_session_sequence c <= u64_max)%Z;
  ec_generation : Forall (λ r, ev_connection_generation (sp_obj r) = None ∨
      ev_connection_generation (sp_obj r) = Some (source_generation c)) q;
  ec_terminal_generation : ∀ t, terminal c = Some t →
      et_connection_generation t = source_generation c;
  ec_payload : Forall (λ r, match ev_payload (sp_obj r) with
                            | EvPayloadAccepted _ => True
                            | EvPayloadEvent e =>
                                normalized_event_stream ∘ sp_obj <$> e = Some (stream c)
                            end) q
}.

(** What is still to be delivered: the queue, then the terminal notice. *)
Definition ev_channel_items c q : list PeekedEventPublication :=
  ((λ r, MkPeekedEventPublication (Some r) None) <$> q)
  ++ option_list ((λ t, MkPeekedEventPublication None (Some t)) <$> terminal c).

(** The sequence number carried by a peeked publication. *)
Definition ev_peeked_sequence (p : PeekedEventPublication) : Z :=
  match ev_peeked_ordinary p with
  | Some r => ev_seq_of r
  | None => default 0%Z (et_session_sequence <$> ev_peeked_terminal p)
  end.

(** The calls the owner thread makes on a published channel. *)
Inductive ev_owner_call : Channel → Channel → Prop :=
| owner_admits_event c event time alloc :
    ev_owner_call c (fst (admit_event event time alloc c))
| owner_replaces_generation c time :
    ev_owner_call c (fst (terminalize_replacement time c))
| owner_closes_unavailable c :
    ev_owner_call c (fst (close_unavailable c))
| owner_closes_channel c : ev_owner_call c (close_from_owner c).

#[export] Instance event_session : SessionChannel Channel PeekedEventPublication := {|
  sc_sequence := ev_peeked_sequence;
  sc_peek c := if has_value (peek c) then Some (peek c) else None;
  sc_acknowledge := acknowledge;
  sc_close_from_writer := close_from_writer;
  sc_producer := ev_owner_call
|}.

(** The channel a successful admission publishes. *)
Definition ev_staged (c : Channel) : Prop :=
  ∃ sid gid st gen cap c0 accepted,
    make sid gid st gen cap = Some c0 ∧ stage_accepted (Some accepted) c0 = (c, true).
End EventChannelInvariant.

(** ** The invariant is kept by every channel method *)

Section Preservation.
Context `{W : WireEnums}.
Implicit Types (c : Channel).

Lemma stage_accepted_inv c : ev_staged c → ∃ q, ev_channel_inv 1 c q ∧ state c = EcActive.
Proof.
  intros (sid & gid & st & gen & cap & c0 & a & Hmake & Hst).
  unfold make in Hmake.
  destruct (_ || _ || _) eqn:Hcfg in Hmake; simplify_eq.
  rewrite !orb_false_iff, bool_decide_eq_false in Hcfg. destruct Hcfg as ((Hcap & _) & _).
  pose proof (ring_make_repr (A := shared_ptr EventPublicationRecord) cap) as Hr.
  unfold stage_accepted, ring_push_locked in Hst. simpl in Hst.
  destruct (negb _ || _ || _) eqn:Hkinds; [done|].
  rewrite !orb_false_iff, negb_false_iff, Z.eqb_eq, bool_decide_eq_false in Hkinds.
  destruct Hkinds as ((Ha & Hgen) & Hpay).
  pose proof (ring_push_repr _ _ a (Hr ltac:(lia))) as H1.
  destruct (ring_push (Some a) (ring_make cap)) as [r1|] eqn:E1; simpl in Hst; [|done].
  destruct H1 as [_ H1]. simplify_eq. exists [a]. split; [|done].
  split; simpl; auto; try done.
  - unfold ev_seq_of; simpl. by rewrite Ha.
  - apply Forall_singleton. left. by apply eq_None_not_Some.
  - apply Forall_singleton. by destruct (ev_payload (sp_obj a)).
Qed.

(** Reserving the terminal notice on an active channel. *)
Lemma ev_reserve_terminal_inv base c q re ac t :
  ev_channel_inv base c q → state c = EcActive →
  ev_channel_inv base (reserve_terminal re ac t c) q ∧
  ev_channel_items c q `prefix_of` ev_channel_items (reserve_terminal re ac t c) q.
Proof.
  intros [Hr Hb Hs Ht Ha Hg Hn Hq Htg Hpl] Hact. destruct (Ha Hact) as [HtN Hnx]. split.
  - split; simpl; auto; try done.
    + intros t' [= <-]. done.
    + unfold bump_after_terminal.
      destruct (Z.eqb_spec (next_session_sequence c) u64_max); [lia|].
      pose proof (u64_succ_range (next_session_sequence c)) as [_ ?]. done.
    + intros t' [= <-]. done.
  - unfold ev_channel_items. simpl. rewrite HtN. simpl. rewrite app_nil_r. by apply prefix_app_r.
Qed.

Lemma admit_event_inv base c q e t al :
  ev_channel_inv base c q →
  ∃ q', ev_channel_inv base (fst (admit_event e t al c)) q' ∧
        ev_channel_items c q `prefix_of` ev_channel_items (fst (admit_event e t al c)) q'.
Proof.
  intros Hi. unfold admit_event.
  destruct (bool_decide (state c = EcActive)) eqn:Hact; simpl; [|by eauto].
  apply bool_decide_eq_true in Hact.
  destruct e as [e|]; simpl; [|by eauto].
  destruct (normalized_event_stream (sp_obj e) =? stream c)%Z eqn:Hst; simpl; [|by eauto].
  apply Z.eqb_eq in Hst.
  case_decide as Hfull; simpl; [exists q; by apply ev_reserve_terminal_inv|].
  destruct (Z.eqb_spec (next_session_sequence c) u64_max); simpl; [by eauto|].
  destruct al as [addr|]; simpl; [|by eauto].
  pose proof Hi as [Hr Hb Hs Ht Ha Hg Hn Hq Htg Hpl]. destruct (Ha Hact) as [HtN Hnx].
  unfold ring_push_locked. set (rec := SharedPtr addr _).
  pose proof (ring_push_repr _ _ rec Hr) as Hp.
  destruct (ring_push (Some rec) (ring c)) as [r'|] eqn:E; simpl; [|by eauto].
  destruct Hp as [_ Hp]. exists (q ++ [rec]).
  assert (Hlen : Z.of_nat (length (q ++ [rec])) = (length q + 1)%Z)
    by (rewrite length_app; simpl; lia).
  split.
  - split; simpl; auto.
    + rewrite fmap_app, Hs, Hlen. simpl. rewrite seqZ_snoc by lia.
      unfold ev_seq_of at 1; simpl. by rewrite Hnx.
    + intros t'. rewrite HtN. done.
    + intros _. split; [done|]. rewrite u64_succ_small by lia. lia.
    + rewrite u64_succ_small by lia. lia.
    + apply Forall_snoc; [done|]. by right.
    + apply Forall_snoc; [done|]. simpl. by rewrite Hst.
  - unfold ev_channel_items. simpl. rewrite HtN, fmap_app. simpl. rewrite !app_nil_r.
    by apply prefix_app_r.
Qed.

Lemma terminalize_replacement_inv base c q t :
  ev_channel_inv base c q →
  ev_channel_inv base (fst (terminalize_replacement t c)) q ∧
  ev_channel_items c q `prefix_of` ev_channel_items (fst (terminalize_replacement t c)) q.
Proof.
  intros Hi. unfold terminalize_replacement.
  destruct (bool_decide (state c = EcActive)) eqn:Hact; simpl; [|done].
  apply bool_decide_eq_true in Hact.
  destruct (bool_decide (is_Some (terminal c))); simpl; [done|].
  by apply ev_reserve_terminal_inv.
Qed.

Lemma close_unavailable_inv base c q :
  ev_channel_inv base c q →
  ev_channel_inv base (fst (close_unavailable c)) q ∧
  ev_channel_items c q `prefix_of` ev_channel_items (fst (close_unavailable c)) q.
Proof.
  intros [Hr Hb Hs Ht Ha Hg Hn Hq Htg Hpl]. unfold close_unavailable.
  destruct (bool_decide (state c = EcActive)); simpl; split; try done; split; auto; done.
Qed.

Lemma ev_close_from_owner_inv base c q :
  ev_channel_inv base c q → ev_channel_inv base (close_from_owner c) q.
Proof. intros []. split; simpl; auto; done. Qed.

Lemma ev_close_from_writer_inv base c q :
  ev_channel_inv base c q → ev_channel_inv base (close_from_writer c) [].
Proof.
  intros []. split; simpl; auto; try done. by eapply ring_clear_repr.
Qed.

Lemma ev_acknowledge_ordinary_inv base c q r :
  ev_channel_inv base c q → q !! 0 = Some r → state c ≠ EcClosed →
  ∃ q', acknowledge (MkPeekedEventPublication (Some r) None) c
          = (ring_pop_locked c, AckAcknowledged) ∧
        q = r :: q' ∧ ev_channel_inv (base + 1) (ring_pop_locked c) q'.
Proof.
  intros Hi Hq Hcl. destruct q as [|r0 q']; simplify_eq/=.
  pose proof Hi as [Hr Hb Hs Ht Ha Hg Hn Hqg Htg Hpl].
  pose proof (ring_repr_size _ _ Hr) as Hsz. simpl in Hsz.
  exists q'. unfold acknowledge; simpl.
  rewrite bool_decide_eq_false_2 by done.
  rewrite (bool_decide_eq_false_2 (size _ = 0)) by lia.
  rewrite (ring_front_repr _ _ Hr) by lia. simpl.
  rewrite bool_decide_eq_true_2 by done. simpl.
  split_all; auto.
  rewrite seqZ_cons in Hs by (simpl; lia).
  replace (Z.pred (length (r :: q'))) with (Z.of_nat (length q')) in Hs by (simpl; lia).
  simpl in Hs. injection Hs as Hs0 Hs.
  split; simpl; auto; try lia.
  - by eapply ring_pop_repr.
  - intros t Hx. rewrite (Ht _ Hx). simpl. lia.
  - intros Hx. destruct (Ha Hx). simpl in *. split; [done|]. lia.
  - by inversion Hqg.
  - by inversion Hpl.
Qed.

Lemma ev_peek_item base c q p :
  ev_channel_inv base c q → has_value (peek c) = true → peek c = p →
  ev_channel_items c q !! 0 = Some p.
Proof.
  intros [Hr Hb Hs Ht Ha Hg Hn Hqg Htg Hpl] Hv <-. pose proof (ring_repr_size _ _ Hr) as Hsz.
  unfold has_value, peek, ev_channel_items in *.
  destruct (bool_decide (state c = EcClosed)); [done|].
  destruct (bool_decide (size (ring c) = 0)) eqn:Hz; simpl in *.
  - apply bool_decide_eq_true in Hz. destruct q; simpl in *; [|lia].
    by destruct (terminal c) as [t|].
  - apply bool_decide_eq_false in Hz. rewrite (ring_front_repr _ _ Hr) in * by done.
    destruct q; simpl in *; [lia|done].
Qed.

Lemma ev_owner_call_inv base c q c' :
  ev_channel_inv base c q → ev_owner_call c c' →
  ∃ q', ev_channel_inv base c' q' ∧ ev_channel_items c q `prefix_of` ev_channel_items c' q'.
Proof.
  intros Hi Hcall. destruct Hcall as [c e t al|c t|c|c].
  - by apply admit_event_inv.
  - exists q. by apply terminalize_replacement_inv.
  - exists q. by apply close_unavailable_inv.
  - exists q. split; [by apply ev_close_from_owner_inv|done].
Qed.

Lemma ev_channel_items_sequence base c q :
  ev_channel_inv base c q →
  ev_peeked_sequence <$> ev_channel_items c q = seqZ base (length (ev_channel_items c q)).
Proof.
  intros Hi. unfold ev_channel_items. rewrite fmap_app, <- list_fmap_compose.
  change (ev_peeked_sequence ∘ (λ r, MkPeekedEventPublication (Some r) None)) with
    (ev_seq_of ).
  rewrite (ec_seq _ _ _ Hi), length_app, length_fmap.
  destruct (terminal c) as [t|] eqn:Et; simpl.
  - unfold ev_peeked_sequence; simpl. rewrite (ec_terminal _ _ _ Hi _ Et).
    rewrite Nat2Z.inj_add. simpl. by rewrite seqZ_snoc by lia.
  - by rewrite app_nil_r, Nat.add_0_r.
Qed.

Lemma ev_acknowledge_item_inv base c q p items c' r :
  ev_channel_inv base c q → ev_channel_items c q = p :: items → acknowledge p c = (c', r) →
  r ≠ AckMismatch ∧
  (r = AckAcknowledged → ∃ q', ev_channel_inv (base + 1) c' q' ∧ ev_channel_items c' q' = items) ∧
  ∃ base' q', ev_channel_inv base' c' q'.
Proof.
  intros Hi Hitems Hack. destruct (decide (state c = EcClosed)) as [Hcl|Hcl].
  { unfold acknowledge in Hack. rewrite bool_decide_eq_true_2 in Hack by done.
    simplify_eq. split_all; [done|done|eauto]. }
  unfold ev_channel_items in Hitems. destruct q as [|rec q]; simpl in Hitems.
  - destruct (terminal c) as [t|] eqn:Et; simplify_eq/=.
    pose proof (ring_repr_size _ _ (ec_repr _ _ _ Hi)) as Hsz. simpl in Hsz.
    unfold acknowledge in Hack. simpl in Hack.
    rewrite bool_decide_eq_false_2, Hsz, Et in Hack by done.
    rewrite !bool_decide_eq_true_2 in Hack by done. simpl in Hack. simplify_eq.
    split_all; [done|done|]. exists base, []. destruct Hi. split; simpl; auto; done.
  - injection Hitems as <- <-.
    destruct (ev_acknowledge_ordinary_inv base c (rec :: q) rec Hi eq_refl Hcl)
      as (q' & He & [= <-] & Hi').
    rewrite He in Hack. simplify_eq. split_all; [done| |eauto]. eauto.
Qed.

#[export] Instance event_session_ok :
  SessionChannelOk Channel (PeekedEventPublication).
Proof.
  refine {| sc_inv base c items := ∃ q, ev_channel_inv base c q ∧ ev_channel_items c q = items |}.
  - intros base c items (q & Hi & <-). by apply ev_channel_items_sequence.
  - intros base c items c' (q & Hi & <-) Hp.
    destruct (ev_owner_call_inv _ _ _ _ Hi Hp) as (q' & ? & ?). eauto.
  - intros base c items p (q & Hi & <-) Hp. simpl in Hp.
    destruct (has_value (peek c)) eqn:Hv; simplify_eq. by eapply ev_peek_item.
  - intros base c p items c' r (q & Hi & Hq) Hack.
    destruct (ev_acknowledge_item_inv _ _ _ _ _ _ _ Hi Hq Hack) as (? & ? & b' & q' & ?).
    eauto 10.
  - intros base c items (q & Hi & <-). eexists base, _, []. split; [|done].
    by eapply ev_close_from_writer_inv.
Defined.

Lemma ev_staged_inv c : ev_staged c → ∃ items, sc_inv 1 c items.
Proof. intros Hs. destruct (stage_accepted_inv c Hs) as (q & Hi & _). simpl. eauto. Qed.
End Preservation.

Section SessionTheorems.
Context `{W : WireEnums}.
Implicit Types (c : Channel) (s : SessionState Channel PeekedEventPublication).

(** No method of the channel changes the generation it was admitted under. *)
Lemma ev_owner_call_generation c c' :
  ev_owner_call c c' → source_generation c' = source_generation c.
Proof.
  intros Hcall. destruct Hcall as [c e t al|c t|c|c]; [| | |done].
  - unfold admit_event, ring_push_locked. break_all; by simplify_option_eq.
  - unfold terminalize_replacement. break_all; done.
  - unfold close_unavailable. break_all; done.
Qed.

Lemma ev_acknowledge_generation p c :
  source_generation (fst (acknowledge p c)) = source_generation c.
Proof. unfold acknowledge, ring_pop_locked. break_all; done. Qed.

Lemma ev_session_generation s s' :
  star session_step s s' →
  source_generation (channel s') = source_generation (channel s).
Proof.
  apply (star_preorder _ (λ a b, source_generation (channel b) = source_generation (channel a)));
    [done|congruence|].
  intros a b Hstep. destruct Hstep as [c c' w d Hp| |c p d c' r Ha|]; simpl; try done.
  - by apply ev_owner_call_generation.
  - simpl in Ha. rewrite <- (ev_acknowledge_generation p c). by rewrite Ha.
Qed.

(** ** Theorems *)

(** An event subscriber's session sequences are [1, 2, ..., n] in any
    interleaving, and the in-flight acknowledgement never mismatches. *)
Theorem event_session_is_contiguous c s :
  ev_staged c → star session_step (session_start c) s →
  delivered s = seqZ 1 (length (delivered s)) ∧
  (∀ p, writer s = WriterInFlight p → snd (acknowledge p (channel s)) ≠ AckMismatch).
Proof.
  intros Hc Hs. destruct (ev_staged_inv c Hc) as [items Hi]. split.
  - by eapply session_delivered_contiguous.
  - intros p. exact (session_never_mismatches c items s p Hi Hs).
Qed.

End SessionTheorems.

(** ** Witnesses *)

Definition sample_event (utc : Z) : shared_ptr NormalizedMarketEvent :=
  SharedPtr utc (EvDepthUpdate (sample_depth 1 2 utc)).
Definition sample_ev_time : EventPublicationTime := MkPublicationTime 5 (Some 5%Z).
Definition sample_ev_subscription : ValidatedEventSubscription :=
  MkValidatedEventSubscription "r" (STREAM_DIFF_DEPTH (WireEnums := sample_enums)) "depth-update.v1".
Definition sample_ev_accepted : shared_ptr EventPublicationRecord :=
  make_accepted_record sample_ev_subscription "ev-1" "gw" sample_ev_time 1.
Definition sample_ev_channel : Channel :=
  match make (W := sample_enums) "ev-1" "gw" (ev_stream sample_ev_subscription) 3 2 with
  | Some c => fst (stage_accepted (Some sample_ev_accepted) c)
  | None => MkChannel "" "" 0 0 (ring_make 0) None EcClosed 0
  end.

Lemma sample_ev_channel_staged : ev_staged (W := sample_enums) sample_ev_channel.
Proof.
  exists "ev-1", "gw", (ev_stream sample_ev_subscription), 3%Z, 2.
  eexists. exists sample_ev_accepted. split; reflexivity.
Qed.

(** The accepted record, one event, then the replacement notice. *)
Lemma sample_ev_run :
  ∃ s, star (session_step (Ops := event_session (W := sample_enums)))
            (session_start sample_ev_channel) s ∧
       delivered s = [1; 2]%Z ∧ has_value (peek (channel s)) = true ∧
       et_connection_generation <$> ev_peeked_terminal (peek (channel s)) = Some 3%Z.
Proof.
  eexists. split.
  - eapply star_step; [eapply writer_peeks; reflexivity|].
    eapply star_step.
    { apply producer_acts.
      apply (owner_admits_event _ (Some (sample_event 9)) sample_ev_time (Some 4%Z)). }
    eapply star_step; [eapply writer_acknowledges; reflexivity|].
    eapply star_step; [eapply writer_peeks; reflexivity|].
    eapply star_step.
    { apply producer_acts. apply (owner_replaces_generation _ sample_ev_time). }
    eapply star_step; [eapply writer_acknowledges; reflexivity|].
    apply star_refl.
  - repeat split; reflexivity.
Qed.

Lemma event_session_is_contiguous_witness :
  ∃ s, star (session_step (Ops := event_session (W := sample_enums)))
            (session_start sample_ev_channel) s ∧
       delivered s = [1; 2]%Z ∧ delivered s = seqZ 1 (length (delivered s)).
Proof.
  destruct sample_ev_run as (s & Hs & Hd & _). exists s. split; [done|]. split; [done|].
  apply (event_session_is_contiguous (W := sample_enums) sample_ev_channel s
           sample_ev_channel_staged Hs).
Defined.

