(* ===== verification/EventGenerations.v ===== *)
(** * EventGenerations: the publication over its whole life

    The world of one product's event streaming: the publication and the store of
    the channels it shares with the RPC handlers.  [world_step] interleaves the
    publication's methods with the handlers' calls on their channels; the theorems
    state what holds after any such interleaving. *)

From S2P Require Import Prelude Ring Wire Session OrderBookPublication EventPublication EventSession.
Import EventSubscriberChannel EventPublication.

Section Evolution.
Context `{W : WireEnums}.
Implicit Types (c : Channel) (st : Store).

(** What no channel method does: change the channel's identity or revive it. *)
Record same_channel c c' : Prop := {
  same_id : subscription_id c' = subscription_id c;
  same_stream : stream c' = stream c;
  same_generation : EventSubscriberChannel.source_generation c'
                    = EventSubscriberChannel.source_generation c;
  no_revival : state c' = EcActive → state c = EcActive ∧ terminal c' = terminal c
}.

#[export] Instance same_channel_preorder : PreOrder same_channel.
Proof.
  split; [by split|]. intros x y z [? ? ? H1] [? ? ? H2].
  split; try congruence. intros H. destruct (H2 H). destruct (H1 ltac:(done)). split; congruence.
Qed.

(** The handlers' calls on a channel they hold. *)
Inductive handler_call : Channel → Channel → Prop :=
| handler_acknowledges c p : handler_call c (fst (acknowledge p c))
| handler_closes c : handler_call c (close_from_writer c).

Lemma owner_call_same c c' : ev_owner_call c c' → same_channel c c'.
Proof.
  intros Hcall. destruct Hcall as [c e t al|c t|c|c].
  - unfold admit_event, ring_push_locked, reserve_terminal.
    break_all; try (by split); simplify_option_eq; by split.
  - unfold terminalize_replacement, reserve_terminal. break_all; by split.
  - unfold close_unavailable. break_all; by split.
  - by split.
Qed.

Lemma handler_call_same c c' : handler_call c c' → same_channel c c'.
Proof.
  intros Hcall. destruct Hcall as [c p|c].
  - unfold acknowledge, ring_pop_locked. break_all; by split.
  - by split.
Qed.

(** Stores related channel by channel. *)
Definition evolves st st' : Prop := ∀ a, option_Forall2 same_channel (st !! a) (st' !! a).

#[export] Instance evolves_preorder : PreOrder evolves.
Proof.
  split; [intros st a; destruct (st !! a); constructor; done|].
  intros s1 s2 s3 H1 H2 a. specialize (H1 a). specialize (H2 a).
  destruct H1; inversion H2; constructor. etrans; eauto.
Qed.

Lemma evolves_insert st a c c' :
  st !! a = Some c → same_channel c c' → evolves st (<[a := c']> st).
Proof.
  intros Ha Hs b. destruct (decide (a = b)) as [<-|].
  - rewrite lookup_insert_eq, Ha. by constructor.
  - rewrite lookup_insert_ne by done. destruct (st !! b); by constructor.
Qed.

Lemma evolves_alter st a f :
  (∀ c, same_channel c (f c)) → evolves st (alter f a st).
Proof.
  intros Hf b. destruct (decide (a = b)) as [<-|].
  - rewrite lookup_alter_eq. destruct (st !! a); by constructor.
  - rewrite lookup_alter_ne by done. destruct (st !! b); by constructor.
Qed.

Lemma on_generation_evolves f g l st :
  (∀ c, same_channel c (f c)) → evolves st (on_generation f g l st).
Proof.
  intros Hf. revert st. induction l as [|a l IH]; intros st; simpl; [done|].
  etrans; [|apply IH]. destruct (st !! a); [|done].
  case_match; [|done]. by apply evolves_alter.
Qed.

Lemma elem_of_cons_ne {A} (a b : Z) l (x y : A) :
  a ≠ b →
  (if decide (a ∈ l) then x else y) = (if decide (a ∈ b :: l) then x else y).
Proof.
  intros Hne. apply decide_ext. rewrite elem_of_cons. split; [by right|].
  intros [->|]; done.
Qed.

(** [on_generation] applies [f] to exactly the listed channels of that generation. *)
Lemma on_generation_lookup f g l st a :
  NoDup l →
  on_generation f g l st !! a =
    if decide (a ∈ l)
    then (λ c, if (EventSubscriberChannel.source_generation c =? g)%Z then f c else c)
           <$> st !! a
    else st !! a.
Proof.
  intros Hnd. revert st. induction Hnd as [|b l Hb Hnd IH]; intros st; simpl.
  { done. }
  rewrite IH. destruct (decide (b = a)) as [->|Hne].
  - rewrite decide_False by done. rewrite decide_True by set_solver.
    destruct (st !! a) as [c|] eqn:E; simpl; [|exact E].
    destruct (_ =? g)%Z; [|exact E]. unfold on_channel. by rewrite lookup_alter_eq, E.
  - assert (Hst : (match st !! b with
                   | Some c => if (EventSubscriberChannel.source_generation c =? g)%Z
                               then on_channel f b st else st
                   | None => st end) !! a = st !! a).
    { destruct (st !! b) as [cb|]; [|done]. destruct (_ =? g)%Z; [|done].
      by apply lookup_alter_ne. }
    rewrite Hst. by apply elem_of_cons_ne.
Qed.

Lemma publish_to_evolves e g t al l st :
  evolves st (fst (publish_to e g t al l st)).
Proof.
  revert st. induction l as [|a l IH]; intros st; simpl; [done|].
  destruct (st !! a) as [c|] eqn:E; [|done].
  case_match; [done|].
  destruct (admit_event (Some e) t (al a) c) as [c' r] eqn:Ead.
  assert (same_channel c c').
  { apply owner_call_same. rewrite <- (f_equal fst Ead : _ = c'). constructor. }
  case_match; [by eapply evolves_insert|].
  etrans; [by eapply evolves_insert|]. apply IH.
Qed.

Lemma close_all_evolves l st :
  evolves st (foldl (λ st a, on_channel close_from_owner a st) st l).
Proof.
  revert st. induction l as [|a l IH]; intros st; simpl; [done|].
  etrans; [|apply IH]. apply evolves_alter. by split.
Qed.

(** [shutdown]'s loop leaves every listed channel closed. *)
Lemma close_all_lookup l st a c :
  foldl (λ st a, on_channel close_from_owner a st) st l !! a = Some c →
  (∃ c0, st !! a = Some c0 ∧ (c = c0 ∨ c = close_from_owner c0)) ∧
  (a ∈ l → state c = EcClosed).
Proof.
  revert st c. induction l as [|b l IH] using rev_ind; intros st c; simpl.
  - intros ->. split; [eauto|set_solver].
  - rewrite foldl_app. simpl. unfold on_channel at 1. intros H.
    destruct (decide (b = a)) as [->|Hne].
    + rewrite lookup_alter_eq in H. apply fmap_Some in H as (c1 & H & ->).
      destruct (IH _ _ H) as [(c0 & Hc0 & Hor) _]. split; [|done].
      exists c0. split; [done|]. right. by destruct Hor as [-> | ->].
    + rewrite lookup_alter_ne in H by done.
      destruct (IH _ _ H) as [Hex Hcl]. split; [done|].
      intros [Ha | Ha%list_elem_of_singleton]%elem_of_app; [auto|congruence].
Qed.
End Evolution.

Section World.
Context `{W : WireEnums}.

Record World : Type := MkWorld {
  w_pub : Publication;
  w_store : Store
}.
Implicit Types (w : World) (p : Publication) (st : Store) (c : Channel).

(** One call on the publication, by the runtime's owner thread, by the recovery
    coordinator or by a handler; or one handler call on a channel.  The channel
    allocated by an admission is a fresh object. *)
Inductive world_step : World → World → Prop :=
| step_open g p st :
    world_step (MkWorld p st) (MkWorld (fst (open_generation g p)) st)
| step_quiesce g p st :
    world_step (MkWorld p st) (MkWorld (fst (quiesce_generation g p)) st)
| step_replaced sampled g p st p' st' r :
    close_generation_replaced sampled g p st = (p', st', r) →
    world_step (MkWorld p st) (MkWorld p' st')
| step_permanent g p st p' st' r :
    close_generation_permanently g p st = (p', st', r) →
    world_step (MkWorld p st) (MkWorld p' st')
| step_admit sampled ac ar sub p st p' st' r :
    (∀ a, ac = Some a → st !! a = None) →
    admit_subscription sampled ac ar sub p st = (p', st', r) →
    world_step (MkWorld p st) (MkWorld p' st')
| step_publish sampled allocs e g p st :
    world_step (MkWorld p st) (MkWorld p (fst (publish sampled allocs e g p st)))
| step_remove ch p st :
    world_step (MkWorld p st) (MkWorld (remove ch p) st)
| step_shutdown p st :
    world_step (MkWorld p st) (MkWorld (fst (shutdown p st)) (snd (shutdown p st)))
| step_handler a c c' p st :
    st !! a = Some c → handler_call c c' →
    world_step (MkWorld p st) (MkWorld p (<[a := c']> st)).

(** The world the constructor makes. *)
Definition world_start w : Prop :=
  ∃ gid lim, EventPublication.make gid true lim = Some (w_pub w) ∧ w_store w = ∅.

Record world_inv w : Prop := {
  wi_nodup : NoDup (channels (w_pub w));
  wi_limit : length (channels (w_pub w)) ≤ ev_maximum_active_subscriptions (limits (w_pub w));
  wi_stored : ∀ a, a ∈ channels (w_pub w) → is_Some (w_store w !! a);
  wi_current : ∀ a c, a ∈ channels (w_pub w) → w_store w !! a = Some c →
      state c = EcActive →
      (source_state (w_pub w) = EsOpen ∨ source_state (w_pub w) = EsQuiesced) ∧
      source_generation (w_pub w) = Some (EventSubscriberChannel.source_generation c);
  wi_terminal : ∀ a c, w_store w !! a = Some c → state c = EcActive → terminal c = None;
  wi_next : (1 <= next_subscription_id (w_pub w) <= u64_max)%Z;
  wi_id : ∀ a c, w_store w !! a = Some c →
      ∃ k, (1 <= k < next_subscription_id (w_pub w))%Z ∧
           subscription_id c = event_subscription_id k;
  wi_unique : ∀ a b c d, w_store w !! a = Some c → w_store w !! b = Some d →
      subscription_id c = subscription_id d → a = b
}.

Lemma event_subscription_id_inj j k :
  (0 <= j)%Z → (0 <= k)%Z → event_subscription_id j = event_subscription_id k → j = k.
Proof.
  unfold event_subscription_id. intros Hj Hk [=H].
  change (pretty (Z.to_N j) = pretty (Z.to_N k)) in H. apply (inj pretty) in H. lia.
Qed.

(** Evolving channels keep every clause that is about channels alone. *)
Lemma evolves_lookup st st' a c' :
  evolves st st' → st' !! a = Some c' → ∃ c, st !! a = Some c ∧ same_channel c c'.
Proof. intros H Ha. specialize (H a). rewrite Ha in H. inversion H; eauto. Qed.

Lemma evolves_inv p st st' :
  evolves st st' → world_inv (MkWorld p st) → world_inv (MkWorld p st').
Proof.
  intros Hev [Hnd Hlim Hst Hcur Hterm Hnext Hid Hun]. split; simpl in *; auto.
  - intros a Ha. destruct (Hst a Ha) as [c Hc]. specialize (Hev a). rewrite Hc in Hev.
    inversion Hev. eauto.
  - intros a c' Ha Hc' Hact. destruct (evolves_lookup _ _ _ _ Hev Hc') as (c & Hc & Hs).
    rewrite (same_generation _ _ Hs). apply (Hcur a c); auto. by apply Hs.
  - intros a c' Hc' Hact. destruct (evolves_lookup _ _ _ _ Hev Hc') as (c & Hc & Hs).
    destruct (no_revival _ _ Hs Hact) as [? ->]. eauto.
  - intros a c' Hc'. destruct (evolves_lookup _ _ _ _ Hev Hc') as (c & Hc & Hs).
    rewrite (same_id _ _ Hs). eauto.
  - intros a b c d Hc Hd. destruct (evolves_lookup _ _ _ _ Hev Hc) as (c0 & Hc0 & Hs).
    destruct (evolves_lookup _ _ _ _ Hev Hd) as (d0 & Hd0 & Hs').
    rewrite (same_id _ _ Hs), (same_id _ _ Hs'). eauto.
Qed.

(** Changing the source state is sound as long as no listed channel is active or
    the new state still admits the current generation. *)
Lemma source_inv p p' st :
  world_inv (MkWorld p st) →
  limits p' = limits p → channels p' = channels p →
  next_subscription_id p' = next_subscription_id p →
  (∀ a c, a ∈ channels p → st !! a = Some c → state c = EcActive →
     (source_state p' = EsOpen ∨ source_state p' = EsQuiesced) ∧
     source_generation p' = source_generation p) →
  world_inv (MkWorld p' st).
Proof.
  intros [Hnd Hlim Hst Hcur Hterm Hnext Hid Hun] El Ec En Hs.
  split; simpl in *; rewrite ?El, ?Ec, ?En; auto.
  intros a c Ha Hc Hact. destruct (Hs _ _ Ha Hc Hact) as [? ->].
  split; [done|]. eapply Hcur; eauto.
Qed.

Lemma open_generation_inv g p st :
  world_inv (MkWorld p st) → world_inv (MkWorld (fst (open_generation g p)) st).
Proof.
  intros Hi. unfold open_generation. case_match eqn:E; [done|].
  rewrite !orb_false_iff, !bool_decide_eq_false in E.
  destruct E as (((((_ & H1) & H2) & H3) & H4) & _).
  apply (source_inv p); try done. intros a c Ha Hc Hact.
  destruct (wi_current _ Hi _ _ Ha Hc Hact) as [[?|?] _]; done.
Qed.

Lemma quiesce_generation_inv g p st :
  world_inv (MkWorld p st) → world_inv (MkWorld (fst (quiesce_generation g p)) st).
Proof.
  intros Hi. unfold quiesce_generation. case_match; [done|].
  apply (source_inv p); try done. intros. split; [by right|done].
Qed.

(** The two closing methods: every active listed channel belongs to the current
    generation, so [f], which deactivates, reaches all of them. *)
Lemma close_generation_inv s f g p st :
  (∀ c, same_channel c (f c)) → (∀ c, terminal c = None → state (f c) ≠ EcActive) →
  source_generation p = Some g → world_inv (MkWorld p st) →
  world_inv (MkWorld (set_source s p) (on_generation f g (channels p) st)).
Proof.
  intros Hf Hdead Hg Hi. apply (source_inv p); try done.
  - apply (evolves_inv p st); [|done]. by apply on_generation_evolves.
  - intros a c Ha Hc Hact. exfalso. revert Hc.
    rewrite on_generation_lookup by apply Hi. rewrite decide_True by done.
    intros (c0 & Hc0 & ->)%fmap_Some.
    destruct (EventSubscriberChannel.source_generation c0 =? g)%Z eqn:Eg; rewrite ?Eg in Hact.
    + apply (Hdead c0); [|done]. apply (wi_terminal _ Hi a); [done|].
      by apply (Hf c0).
    + apply Z.eqb_neq in Eg.
      destruct (wi_current _ Hi _ _ Ha Hc0 Hact) as [_ Hcur]. simpl in Hcur. congruence.
Qed.

Lemma close_generation_replaced_inv sampled g p st p' st' r :
  close_generation_replaced sampled g p st = (p', st', r) →
  world_inv (MkWorld p st) → world_inv (MkWorld p' st').
Proof.
  unfold close_generation_replaced. intros H Hi.
  destruct sampled as [t|]; simplify_eq; [|done].
  destruct (_ || _) eqn:E; simplify_eq; [done|].
  rewrite orb_false_iff, !negb_false_iff, !bool_decide_eq_true in E. destruct E.
  apply close_generation_inv; try done.
  - intros c. apply owner_call_same. constructor.
  - intros c Hc. unfold terminalize_replacement. rewrite Hc.
    destruct (bool_decide (state c = EcActive)) eqn:Ea; simpl; [done|].
    by apply bool_decide_eq_false in Ea.
Qed.

Lemma close_generation_permanently_inv g p st p' st' r :
  close_generation_permanently g p st = (p', st', r) →
  world_inv (MkWorld p st) → world_inv (MkWorld p' st').
Proof.
  unfold close_generation_permanently. intros H Hi.
  destruct (_ || _) eqn:E; simplify_eq; [done|].
  rewrite orb_false_iff, !negb_false_iff, !bool_decide_eq_true in E. destruct E.
  apply close_generation_inv; try done.
  - intros c. apply owner_call_same. constructor.
  - intros c Hc. unfold close_unavailable.
    destruct (bool_decide (state c = EcActive)) eqn:Ea; simpl; [done|].
    by apply bool_decide_eq_false in Ea.
Qed.

Lemma erase_first_sublist a l : erase_first a l `sublist_of` l.
Proof.
  induction l as [|x l IH]; simpl; [done|]. case_match; [by constructor|by constructor].
Qed.

Lemma remove_inv ch p st :
  world_inv (MkWorld p st) → world_inv (MkWorld (remove ch p) st).
Proof.
  intros [Hnd Hlim Hst Hcur Hterm Hnext Hid Hun]. destruct ch as [a|]; [|done].
  pose proof (erase_first_sublist a (channels p)) as Hsub.
  assert (Hin : ∀ x, x ∈ erase_first a (channels p) → x ∈ channels p).
  { intros x Hx. eapply elem_of_submseteq; [exact Hx|by apply sublist_submseteq]. }
  split; simpl in *; auto.
  - by eapply sublist_NoDup.
  - apply sublist_length in Hsub. lia.
  - eauto.
Qed.

Lemma shutdown_inv p st :
  world_inv (MkWorld p st) →
  world_inv (MkWorld (fst (shutdown p st)) (snd (shutdown p st))).
Proof.
  intros Hi. unfold shutdown. case_match; [done|]. simpl.
  apply (source_inv p); try done.
  - apply (evolves_inv p st); [|done]. apply close_all_evolves.
  - intros a c Ha Hc Hact. destruct (close_all_lookup _ _ _ _ Hc) as [_ Hcl].
    specialize (Hcl Ha). congruence.
Qed.

Lemma publish_evolves sampled allocs e g p st :
  evolves st (fst (publish sampled allocs e g p st)).
Proof.
  unfold publish. destruct e, sampled; simpl; try reflexivity.
  destruct (_ || _); simpl; [reflexivity|]. destruct (_ || _); simpl; [reflexivity|].
  apply publish_to_evolves.
Qed.

(** What a successful admission does. *)
Lemma admit_cases sampled ac ar sub p st p' st' r :
  admit_subscription sampled ac ar sub p st = (p', st', r) →
  (p' = p ∧ st' = st ∧ ∃ e, r = inr e) ∨
  ∃ a c g, ac = Some a ∧ r = inl a ∧
    source_state p = EsOpen ∧ source_generation p = Some g ∧
    length (channels p) ≠ ev_maximum_active_subscriptions (limits p) ∧
    next_subscription_id p ≠ u64_max ∧
    p' = set_channels (u64_succ (next_subscription_id p)) (channels p ++ [a]) p ∧
    st' = <[a := c]> st ∧
    subscription_id c = event_subscription_id (next_subscription_id p) ∧
    EventSubscriberChannel.source_generation c = g ∧ terminal c = None ∧
    state c = EcActive ∧ ev_staged c.
Proof.
  unfold admit_subscription. intros H.
  destruct sampled as [t|]; simplify_eq; [|left; eauto].
  case_match; simplify_eq; [left; eauto|].
  destruct (source_state p) eqn:Es; simplify_eq; try (left; eauto; fail).
  destruct (source_generation p) as [g|]; simplify_eq; [|left; eauto].
  case_decide; simplify_eq; [left; eauto|].
  destruct (next_subscription_id p =? u64_max)%Z eqn:En; simplify_eq; [left; eauto|].
  apply Z.eqb_neq in En.
  destruct ac as [a|]; simplify_eq; [|left; eauto].
  destruct (EventSubscriberChannel.make _ _ _ _ _) as [c|] eqn:Em; simplify_eq; [|left; eauto].
  destruct ar as [ra|]; simplify_eq; [|left; eauto].
  destruct (stage_accepted _ c) as [c' ok] eqn:Est. destruct ok; simplify_eq; [|left; eauto].
  right. exists a, c', g.
  assert (Hstaged : ev_staged c') by (eexists _, _, _, _, _, c, _; eauto).
  unfold EventSubscriberChannel.make in Em. destruct (_ || _ || _) in Em; simplify_eq.
  unfold stage_accepted, ring_push_locked in Est. simpl in Est.
  destruct (ring_push _ _) in Est; simplify_eq/=. split_all; done.
Qed.

Lemma admit_inv sampled ac ar sub p st p' st' r :
  (∀ a, ac = Some a → st !! a = None) →
  admit_subscription sampled ac ar sub p st = (p', st', r) →
  world_inv (MkWorld p st) → world_inv (MkWorld p' st').
Proof.
  intros Hfresh Hadm [Hnd Hlim Hst Hcur Hterm Hnext Hid Hun]. simpl in *.
  destruct (admit_cases _ _ _ _ _ _ _ _ _ Hadm) as
    [(-> & -> & _)|(a & c & g & -> & _ & Hs & Hg & Hl & Hn & -> & -> & Hcid & Hcg & Hct & _)];
    [by split|].
  specialize (Hfresh a eq_refl).
  assert (Hnew : a ∉ channels p).
  { intros Ha. destruct (Hst a Ha). congruence. }
  assert (Hsucc : u64_succ (next_subscription_id p) = (next_subscription_id p + 1)%Z)
    by (apply u64_succ_small; lia).
  split; simpl; rewrite ?Hsucc.
  - apply NoDup_app. split_all; [done| |apply NoDup_singleton]. intros x Hx ->%list_elem_of_singleton. done.
  - len.
  - intros b [Hb | ->%list_elem_of_singleton]%elem_of_app.
    + destruct (Hst b Hb) as [cb Hcb]. exists cb. rewrite lookup_insert_ne; [done|congruence].
    + rewrite lookup_insert_eq. eauto.
  - intros b cb [Hb | ->%list_elem_of_singleton]%elem_of_app Hcb Hact.
    + rewrite lookup_insert_ne in Hcb by congruence. eauto.
    + rewrite lookup_insert_eq in Hcb. simplify_eq. eauto.
  - intros b cb [[-> <-]|[? ?]]%lookup_insert_Some; eauto.
  - lia.
  - intros b cb [[-> <-]|[? Hb]]%lookup_insert_Some.
    + exists (next_subscription_id p). split; [lia|done].
    + destruct (Hid _ _ Hb) as (k & ? & ?). exists k. split; [lia|done].
  - assert (Hold : ∀ b cb, st !! b = Some cb → subscription_id cb ≠ subscription_id c).
    { intros b cb Hb Heq. destruct (Hid _ _ Hb) as (k & Hk & Hkid).
      rewrite Hkid, Hcid in Heq. apply event_subscription_id_inj in Heq; lia. }
    intros b d cb cd [[-> <-]|[? Hb]]%lookup_insert_Some [[-> <-]|[? Hd]]%lookup_insert_Some Heq;
      [done| | |eauto]; exfalso; eapply Hold; eauto.
Qed.

Lemma world_step_inv w w' : world_step w w' → world_inv w → world_inv w'.
Proof.
  intros Hstep Hi. destruct Hstep.
  - by apply open_generation_inv.
  - by apply quiesce_generation_inv.
  - by eapply close_generation_replaced_inv.
  - by eapply close_generation_permanently_inv.
  - by eapply admit_inv.
  - eapply evolves_inv; [|done]. apply publish_evolves.
  - by apply remove_inv.
  - by apply shutdown_inv.
  - eapply evolves_inv; [|done]. eapply evolves_insert; eauto using handler_call_same.
Qed.

Lemma world_start_inv w : world_start w → world_inv w.
Proof.
  destruct w as [p st]. intros (gid & lim & Hm & Hst). simpl in *. subst st.
  unfold EventPublication.make in Hm. break_all. unfold u64_max.
  split; simpl; try done; try lia; [constructor|set_solver..].
Qed.

Lemma world_reachable_inv w w' : world_start w → star world_step w w' → world_inv w'.
Proof.
  intros Hs Hr. eapply (star_invariant _ world_inv); eauto using world_step_inv, world_start_inv.
Qed.
End World.

Section Theorems.
Context `{W : WireEnums}.
Implicit Types (w : World) (p : Publication) (st : Store) (c : Channel).

(** The order of the publication's life: the generation and the id counter only
    grow, and the two final states are left only towards shutdown. *)
Definition generation_le (g g' : option Z) : Prop :=
  match g, g' with
  | None, _ => True
  | Some x, Some y => (x <= y)%Z
  | Some _, None => False
  end.

Definition pub_advances p p' : Prop :=
  generation_le (source_generation p) (source_generation p') ∧
  (source_state p = EsShutdown → source_state p' = EsShutdown) ∧
  (source_state p = EsPermanentlyClosed →
   (source_state p' = EsPermanentlyClosed ∨ source_state p' = EsShutdown) ∧
   source_generation p' = source_generation p) ∧
  (source_state p = EsShutdown → source_generation p' = source_generation p).

Lemma generation_le_refl g : generation_le g g.
Proof. destruct g; simpl; lia || done. Qed.

Lemma generation_le_trans g1 g2 g3 :
  generation_le g1 g2 → generation_le g2 g3 → generation_le g1 g3.
Proof. destruct g1, g2, g3; simpl; lia || done. Qed.

#[export] Instance pub_advances_preorder : PreOrder pub_advances.
Proof.
  split.
  - intros p. unfold pub_advances. split; [apply generation_le_refl|naive_solver].
  - intros x y z (G1 & S1 & P1 & Q1) (G2 & S2 & P2 & Q2). unfold pub_advances.
    split; [by eapply generation_le_trans|]. split_all; intros; intuition congruence.
Qed.

(** Every method but [open_generation] keeps the generation. *)
Lemma pub_advances_same p p' :
  source_generation p' = source_generation p →
  (source_state p = EsShutdown → source_state p' = EsShutdown) →
  (source_state p = EsPermanentlyClosed →
   source_state p' = EsPermanentlyClosed ∨ source_state p' = EsShutdown) →
  pub_advances p p'.
Proof. intros Hg Hs Hp. unfold pub_advances. rewrite Hg. split; [apply generation_le_refl|naive_solver]. Qed.

(** A method that requires [s] to act, where [s] is not final. *)
Lemma pub_advances_from s p p' :
  source_state p = s → s ≠ EsShutdown → s ≠ EsPermanentlyClosed →
  source_generation p' = source_generation p → pub_advances p p'.
Proof. intros Hs H1 H2 Hg. apply pub_advances_same; congruence. Qed.

Lemma open_generation_advances g p : pub_advances p (fst (open_generation g p)).
Proof.
  unfold open_generation. destruct (_ || _) eqn:E; [reflexivity|]. simpl.
  rewrite !orb_false_iff, !bool_decide_eq_false in E.
  destruct E as (((((_ & ?) & ?) & _) & _) & E).
  unfold pub_advances, generation_le. simpl. split_all; try done.
  destruct (source_generation p); [lia|done].
Qed.

Lemma world_step_advances w w' :
  world_step w w' → pub_advances (w_pub w) (w_pub w').
Proof.
  intros Hstep. destruct Hstep as [g p st|g p st|t g p st p' st' r H|g p st p' st' r H
    |t ac ar sub p st p' st' r _ H|t al e g p st|ch p st|p st|a c c' p st _ _]; simpl;
    try reflexivity.
  - apply open_generation_advances.
  - unfold quiesce_generation. destruct (_ || _) eqn:E; [reflexivity|].
    rewrite orb_false_iff, negb_false_iff, bool_decide_eq_true in E. destruct E.
    by apply (pub_advances_from EsOpen).
  - unfold close_generation_replaced in H. destruct t; simplify_eq; try reflexivity.
    destruct (_ || _) eqn:E; simplify_eq; try reflexivity.
    rewrite orb_false_iff, negb_false_iff, bool_decide_eq_true in E. destruct E.
    by apply (pub_advances_from EsQuiesced).
  - unfold close_generation_permanently in H.
    destruct (_ || _) eqn:E; simplify_eq; try reflexivity.
    rewrite orb_false_iff, negb_false_iff, bool_decide_eq_true in E. destruct E.
    by apply (pub_advances_from EsQuiesced).
  - destruct (admit_cases _ _ _ _ _ _ _ _ _ H) as
      [(-> & _)|(a & c & g & _ & _ & _ & _ & _ & _ & -> & _)]; [reflexivity|].
    apply pub_advances_same; auto.
  - destruct ch; [|reflexivity]. apply pub_advances_same; auto.
  - unfold shutdown. destruct (bool_decide _); [reflexivity|].
    apply pub_advances_same; auto.
Qed.

(** [publish]'s loop on distinct addresses, when no allocation failed. *)
Lemma publish_to_lookup e g t al l st st' a :
  NoDup l → publish_to e g t al l st = (st', EpPublished) →
  st' !! a =
    if decide (a ∈ l)
    then (λ c, if (stream c =? normalized_event_stream (sp_obj e))%Z
                  && (EventSubscriberChannel.source_generation c =? g)%Z
               then fst (admit_event (Some e) t (al a) c) else c) <$> st !! a
    else st !! a.
Proof.
  intros Hnd. revert st. induction Hnd as [|b l Hb Hnd IH]; intros st H; simpl in H; simplify_eq/=.
  { done. }
  assert (Hskip : publish_to e g t al l st = (st', EpPublished) → a ≠ b →
    st' !! a = if decide (a ∈ b :: l)
      then (λ c, if (stream c =? normalized_event_stream (sp_obj e))%Z
                  && (EventSubscriberChannel.source_generation c =? g)%Z
               then fst (admit_event (Some e) t (al a) c) else c) <$> st !! a
      else st !! a).
  { intros H' Hne. rewrite (IH _ H'). by apply elem_of_cons_ne. }
  destruct (decide (a = b)) as [->|Hne].
  - rewrite decide_True by (left; done). destruct (st !! b) as [c|] eqn:E; simpl.
    + rewrite <- negb_andb in H. destruct (_ && _); simpl in H.
      * destruct (admit_event _ _ _ _) as [c' r] in *. simpl.
        case_bool_decide; simplify_eq.
        rewrite (IH _ H), decide_False by done. apply lookup_insert_eq.
      * rewrite (IH _ H), decide_False by done. done.
    + rewrite (IH _ H), decide_False by done. done.
  - destruct (st !! b) as [c|] eqn:E; [|auto]. destruct (negb _ || negb _) in H; [auto|].
    destruct (admit_event _ _ _ _) as [c' r] in H. case_bool_decide; simplify_eq.
    rewrite (IH _ H), lookup_insert_ne by done.
    apply elem_of_cons_ne. congruence.
Qed.

(** ** Theorems *)

(** C4: at every moment, every subscription that is still listed and active
    belongs to the generation the source is currently in, and the source is open
    or quiesced: a replaced, permanently closed or shut down source leaves no live
    subscriber behind. *)
Theorem active_subscriptions_are_current w w' a c :
  world_start w → star world_step w w' →
  a ∈ channels (w_pub w') → w_store w' !! a = Some c → state c = EcActive →
  (source_state (w_pub w') = EsOpen ∨ source_state (w_pub w') = EsQuiesced) ∧
  source_generation (w_pub w') = Some (EventSubscriberChannel.source_generation c).
Proof. intros Hs Hr. apply (wi_current _ (world_reachable_inv _ _ Hs Hr)). Qed.

(** The admission limit holds at every moment, no channel is listed twice,
    and no subscription id is ever given to two channels. *)
Theorem admissions_bounded_and_unique w w' a b c d :
  world_start w → star world_step w w' →
  (NoDup (channels (w_pub w')) ∧
   length (channels (w_pub w')) ≤ ev_maximum_active_subscriptions (limits (w_pub w'))) ∧
  (w_store w' !! a = Some c → w_store w' !! b = Some d →
   subscription_id c = subscription_id d → a = b).
Proof.
  intros Hs Hr. pose proof (world_reachable_inv _ _ Hs Hr) as []. eauto.
Qed.

(** Whatever is called, the source generation never decreases, a permanently
    closed source only ever becomes shut down, shutdown is final, and neither
    changes the generation. *)
Theorem source_lifecycle_is_monotone w w' :
  star world_step w w' → pub_advances (w_pub w) (w_pub w').
Proof.
  apply (star_preorder world_step (λ a b, pub_advances (w_pub a) (w_pub b))).
  - reflexivity.
  - intros. by etrans.
  - intros. by apply world_step_advances.
Qed.

(** Publishing into an open source touches exactly the listed channels that
    subscribed to the event's stream under the event's generation, each once; an
    event of any other generation is reported as an invariant failure and changes
    nothing. *)
Theorem publish_is_selective w w' t al e g g' :
  world_start w → star world_step w w' →
  source_state (w_pub w') = EsOpen → source_generation (w_pub w') = Some g →
  let '(st', r) := publish (Some t) al (Some e) g' (w_pub w') (w_store w') in
  (g' ≠ g → st' = w_store w' ∧ r = EpInvariantFailure) ∧
  (g' = g → r = EpPublished → ∀ a, st' !! a =
     if decide (a ∈ channels (w_pub w'))
     then (λ c, if (stream c =? normalized_event_stream (sp_obj e))%Z
                   && (EventSubscriberChannel.source_generation c =? g)%Z
                then fst (admit_event (Some e) t (al a) c) else c) <$> w_store w' !! a
     else w_store w' !! a).
Proof.
  intros Hs Hr Ho Hg. pose proof (world_reachable_inv _ _ Hs Hr) as Hi.
  destruct (publish _ _ _ _ _ _) as [st' r] eqn:Ep. unfold publish in Ep.
  rewrite Ho, Hg in Ep. simpl in Ep. split.
  - intros Hne. rewrite bool_decide_eq_false_2 in Ep by congruence. by simplify_eq/=.
  - intros -> ->. rewrite bool_decide_eq_true_2 in Ep by done. simpl in Ep. intros a.
    apply publish_to_lookup; [apply Hi|done].
Qed.
End Theorems.

(** ** Witnesses: one product, one subscription of generation 3 *)

Definition sample_limits : EventPublicationLimits := MkEventPublicationLimits 8 2.
Definition sample_world0 : World :=
  MkWorld (MkPublication "gw" sample_limits EsClosed None 1 []) ∅.
Definition sample_world : World :=
  let p1 := fst (open_generation 3 (w_pub sample_world0)) in
  let '(p2, st2, _) := admit_subscription (W := sample_enums) (Some sample_ev_time) (Some 10%Z) (Some 11%Z)
                         sample_ev_subscription p1 ∅ in
  MkWorld p2 st2.

Lemma sample_world_start : world_start sample_world0.
Proof. by exists "gw", sample_limits. Qed.

Lemma sample_world_run :
  star (world_step (W := sample_enums)) sample_world0 sample_world.
Proof.
  eapply star_step; [apply (step_open 3)|]. apply star_one.
  eapply (step_admit (Some sample_ev_time) (Some 10%Z) (Some 11%Z) sample_ev_subscription);
    [done|reflexivity].
Qed.

Lemma active_subscriptions_are_current_witness :
  ∃ c, w_store sample_world !! 10%Z = Some c ∧ state c = EcActive ∧
       source_generation (w_pub sample_world) = Some (EventSubscriberChannel.source_generation c).
Proof.
  eexists. split; [reflexivity|]. split; [reflexivity|].
  refine (proj2 (active_subscriptions_are_current sample_world0 sample_world 10 _
            sample_world_start sample_world_run _ eq_refl eq_refl)).
  by left.
Defined.

Lemma admissions_bounded_and_unique_witness :
  NoDup (channels (w_pub sample_world)) ∧ length (channels (w_pub sample_world)) ≤ 8.
Proof.
  exact (proj1 (admissions_bounded_and_unique sample_world0 sample_world 0 0
           sample_ev_channel sample_ev_channel sample_world_start sample_world_run)).
Defined.

Lemma source_lifecycle_is_monotone_witness :
  generation_le (Some 3%Z) (source_generation (fst (shutdown (w_pub sample_world) ∅))).
Proof.
  exact (proj1 (source_lifecycle_is_monotone _ _
           (star_one _ _ _ (step_shutdown (W := sample_enums) (w_pub sample_world) ∅)))).
Defined.

Lemma publish_is_selective_witness :
  let '(st', r) := publish (W := sample_enums) (Some sample_ev_time) (λ _, Some 20%Z)
                     (Some (sample_event 9)) 3 (w_pub sample_world) (w_store sample_world) in
  r = EpPublished ∧ st' !! 11%Z = None.
Proof.
  pose proof (publish_is_selective sample_world0 sample_world sample_ev_time (λ _, Some 20%Z)
    (sample_event 9) 3 3 sample_world_start sample_world_run eq_refl eq_refl) as H.
  destruct (publish _ _ _ _ _ _) as [st' r] eqn:E. destruct H as [_ H].
  assert (Hr : r = EpPublished) by (vm_compute in E; by injection E).
  split; [done|]. rewrite (H eq_refl Hr 11%Z). reflexivity.
Defined.
