(* ===== verification/Programs.v ===== *)
(** * Programs: a thread as a sequence of critical sections

    [prog S A] is the code of one thread over the shared state [S]: a tree of
    atomic sections ([Step]) that ends with a result.  Other threads run between
    two sections.  [run] executes a program alone; [safe] is the rely-guarantee
    judgement used to prove invariants under interference. *)

From S2P Require Import Prelude.

Section Programs.
Context {S : Type}.

(** [Step f k]: one atomic section updates the state by [f]; the rest of the
    program may depend on the state the section read. *)
Inductive prog (A : Type) : Type :=
| Done (a : A)
| Step (f : S → S) (k : S → prog A).
Arguments Done {A} _.
Arguments Step {A} _ _.

#[export] Instance prog_ret : MRet prog := @Done.

#[export] Instance prog_bind : MBind prog :=
  fix bind {A B} (k : A → prog B) (p : prog A) : prog B :=
    match p with
    | Done a => k a
    | Step f q => Step f (λ s, bind k (q s))
    end.

#[export] Instance prog_fmap : FMap prog := λ A B f p, p ≫= λ a, Done (f a).

(** A section that returns a value read in the section. *)
Definition atomically {A} (f : S → S * A) : prog A :=
  Step (λ s, fst (f s)) (λ s, Done (snd (f s))).

Definition modify (f : S → S) : prog () := Step f (λ _, Done ()).
Definition read {A} (f : S → A) : prog A := Step id (λ s, Done (f s)).

(** Exceptions: [let! x := p in k] propagates a throw, [try_catch p h] handles it. *)
Definition bind_throw {A B} (p : prog (outcome A)) (k : A → prog (outcome B))
  : prog (outcome B) :=
  p ≫= λ r, match r with Returned a => k a | Threw => mret Threw end.

Definition try_catch {A} (p : prog (outcome A)) (h : prog A) : prog A :=
  p ≫= λ r, match r with Returned a => mret a | Threw => h end.

(** A range-for over a vector the body does not change. *)
Fixpoint for_each {T} (l : list T) (body : T → prog ()) : prog () :=
  match l with
  | [] => mret ()
  | x :: rest => body x ;; for_each rest body
  end.

(** The same with an early [return]: the body answers [false] to stop. *)
Fixpoint for_each_while {T} (l : list T) (body : T → prog bool) : prog bool :=
  match l with
  | [] => mret true
  | x :: rest => b ← body x; if b : bool then for_each_while rest body else mret false
  end.

(** ** Running alone *)

Fixpoint run {A} (p : prog A) (s : S) : S * A :=
  match p with
  | Done a => (s, a)
  | Step f k => run (k s) (f s)
  end.

Lemma run_bind {A B} (p : prog A) (k : A → prog B) s :
  run (p ≫= k) s = run (k (snd (run p s))) (fst (run p s)).
Proof. revert s. induction p as [a|f q IH]; intros s; simpl; [done|apply IH]. Qed.

Lemma run_atomically {A} (f : S → S * A) s : run (atomically f) s = (fst (f s), snd (f s)).
Proof. done. Qed.

Lemma run_modify (f : S → S) s : run (modify f) s = (f s, ()).
Proof. done. Qed.

Lemma run_read {A} (f : S → A) s : run (read f) s = (s, f s).
Proof. done. Qed.

Lemma run_ret {A} (a : A) s : run (mret a) s = (s, a).
Proof. done. Qed.

(** ** What every section does

    [every G p]: every section of [p], in whatever state it runs, relates that state to
    its own by [G]. *)

Section Every.
Context (G : S → S → Prop).

Fixpoint every {A} (p : prog A) : Prop :=
  match p with
  | Done _ => True
  | Step f k => ∀ s, G s (f s) ∧ every (k s)
  end.

Lemma every_bind {A B} (p : prog A) (k : A → prog B) :
  every p → (∀ a, every (k a)) → every (p ≫= k).
Proof.
  intros Hp Hk. induction p as [a|f q IH]; [apply Hk|]. intros s.
  destruct (Hp s). split; [done|by apply IH].
Qed.

Lemma every_atomically {A} (f : S → S * A) : (∀ s, G s (fst (f s))) → every (atomically f).
Proof. intros H s. by split. Qed.

Lemma every_modify (f : S → S) : (∀ s, G s (f s)) → every (modify f).
Proof. intros H s. by split. Qed.

Lemma every_read {A} (f : S → A) : Reflexive G → every (read f).
Proof. intros H s. by split. Qed.

Lemma every_for_each {T} (l : list T) body : (∀ x, every (body x)) → every (for_each l body).
Proof.
  intros H. induction l as [|x l IH]; cbn [for_each]; [done|]. by apply every_bind.
Qed.
End Every.

(** ** Rely and guarantee *)

Section Safe.
Context (I : S → Prop) (R : S → S → Prop).

(** From a state reached by [s] and steps of the environment ([R]), every section
    of [p] keeps the invariant [I], and the result satisfies [Q]. *)
Fixpoint safe {A} (p : prog A) (Q : A → S → Prop) (s : S) : Prop :=
  match p with
  | Done a => Q a s
  | Step f k => ∀ s', R s s' → I s' → I (f s') ∧ safe (k s') Q (f s')
  end.

Lemma safe_mono {A} (p : prog A) (Q Q' : A → S → Prop) s :
  (∀ a s', Q a s' → Q' a s') → safe p Q s → safe p Q' s.
Proof.
  intros HQ. revert s. induction p as [a|f k IH]; intros s; simpl; [apply HQ|].
  intros H s' HR HI. destruct (H s' HR HI). auto.
Qed.

Lemma safe_bind {A B} (p : prog A) (k : A → prog B) Q Q' s :
  safe p Q s → (∀ a s', Q a s' → safe (k a) Q' s') → safe (p ≫= k) Q' s.
Proof.
  intros Hp Hk. revert s Hp. induction p as [a|f q IH]; intros s; simpl; [apply Hk|].
  intros H s' HR HI. destruct (H s' HR HI). auto.
Qed.

Lemma safe_modify (f : S → S) (Q : () → S → Prop) s :
  (∀ s', R s s' → I s' → I (f s') ∧ Q () (f s')) → safe (modify f) Q s.
Proof. intros H s' HR HI. simpl. auto. Qed.

Lemma safe_read {A} (f : S → A) (Q : A → S → Prop) s :
  (∀ s', R s s' → I s' → Q (f s') s') → safe (read f) Q s.
Proof. intros H s' HR HI. simpl. auto. Qed.

Lemma safe_atomically {A} (f : S → S * A) (Q : A → S → Prop) s :
  (∀ s', R s s' → I s' → I (fst (f s')) ∧ Q (snd (f s')) (fst (f s'))) →
  safe (atomically f) Q s.
Proof. intros H s' HR HI. simpl. auto. Qed.

(** A loop whose body keeps [Q]. *)
Lemma safe_for_each {T} (l : list T) body (Q : S → Prop) s :
  (∀ x s', Q s' → safe (body x) (λ _, Q) s') → Q s → safe (for_each l body) (λ _, Q) s.
Proof.
  intros Hb. revert s. induction l as [|x l IH]; intros s HQ; simpl; [done|].
  eapply safe_bind; [by apply Hb|]. intros [] s' Hs'. by apply IH.
Qed.

Lemma safe_for_each_while {T} (l : list T) body (Q : S → Prop) s :
  (∀ x s', Q s' → safe (body x) (λ _, Q) s') → Q s → safe (for_each_while l body) (λ _, Q) s.
Proof.
  intros Hb. revert s. induction l as [|x l IH]; intros s HQ; simpl; [done|].
  eapply safe_bind; [by apply Hb|]. intros [] s' Hs'; [by apply IH|done].
Qed.

(** *** Triples

    [triple P p Q]: from a state of [I] and [P] every section of [p] keeps [I] under
    interference, and the result satisfies [Q]; [P] is [stable] when interference keeps
    it. *)

Definition stable (P : S → Prop) : Prop :=
  ∀ s s', I s → I s' → P s → R s s' → P s'.

Definition triple {A} (P : S → Prop) (p : prog A) (Q : A → S → Prop) : Prop :=
  ∀ s, I s → P s → safe p (λ a s', I s' ∧ Q a s') s.

(** The postcondition of a program that may throw. *)
Definition either {A} (Q : A → S → Prop) (E : S → Prop) (r : outcome A) s : Prop :=
  match r with Returned a => Q a s | Threw => E s end.

Lemma triple_bind {A B} P (p : prog A) Q (q : A → prog B) Q' :
  triple P p Q → (∀ a, triple (Q a) (q a) Q') → triple P (p ≫= q) Q'.
Proof.
  intros Hp Hq s Hi HP. eapply safe_bind; [by apply Hp|].
  intros a s' [Hi' HQ]. by apply Hq.
Qed.

Lemma triple_throw {A B} P (p : prog (outcome A)) Q E (q : A → prog (outcome B)) Q' :
  triple P p (either Q E) → (∀ a, triple (Q a) (q a) (either Q' E)) →
  triple P (bind_throw p q) (either Q' E).
Proof.
  intros Hp Hq. eapply triple_bind; [exact Hp|]. intros [a|]; [apply Hq|].
  intros s Hi HE. by split.
Qed.

Lemma triple_ret {A} P (a : A) (Q : A → S → Prop) :
  (∀ s, I s → P s → Q a s) → triple P (mret a) Q.
Proof. intros H s Hi HP. split; auto. Qed.

Lemma triple_conseq {A} (P P' : S → Prop) (p : prog A) (Q Q' : A → S → Prop) :
  triple P' p Q' → (∀ s, I s → P s → P' s) → (∀ a s, I s → Q' a s → Q a s) →
  triple P p Q.
Proof.
  intros Hp HP HQ s Hi Hs. eapply safe_mono; [|by apply Hp; auto].
  intros a s' [Hi' Ha]. split; auto.
Qed.

Lemma triple_atomically {A} P (f : S → S * A) (Q : A → S → Prop) :
  stable P →
  (∀ s, I s → P s → I (fst (f s)) ∧ Q (snd (f s)) (fst (f s))) →
  triple P (atomically f) Q.
Proof.
  intros Hst Hf s Hi HP s' HR Hi'. destruct (Hf s' Hi' (Hst _ _ Hi Hi' HP HR)). done.
Qed.

Lemma triple_modify P (f : S → S) (Q : () → S → Prop) :
  stable P → (∀ s, I s → P s → I (f s) ∧ Q () (f s)) →
  triple P (modify f) Q.
Proof. intros Hst Hf. exact (triple_atomically P (λ s, (f s, ())) Q Hst Hf). Qed.

Lemma triple_read {A} P (f : S → A) (Q : A → S → Prop) :
  stable P → (∀ s, I s → P s → Q (f s) s) → triple P (read f) Q.
Proof.
  intros Hst Hf. apply (triple_atomically P (λ s, (s, f s)) Q Hst).
  intros s Hi HP. split; [exact Hi|by apply Hf].
Qed.

Lemma stable_and P Q : stable P → stable Q → stable (λ s, P s ∧ Q s).
Proof. intros HP HQ s s' Hi Hi' [? ?] Hr. split; eauto. Qed.

(** *** A thread among others

    [interleave] runs one section of the thread or lets the others act; what [safe]
    promises holds in every state reached. *)

Inductive interleave {A} : S * prog A → S * prog A → Prop :=
| own_section s f k : interleave (s, Step f k) (f s, k s)
| others_act s s' p : R s s' → interleave (s, p) (s', p).

(** The thread running alone. *)
Lemma run_interleaved {A} (p : prog A) s :
  star interleave (s, p) (fst (run p s), Done (snd (run p s))).
Proof.
  revert s. induction p as [a|f k IH]; intros s; [constructor|].
  eapply star_step; [apply own_section|apply IH].
Qed.

(** Its first sections. *)
Fixpoint run_sections {A} (n : nat) (w : S * prog A) : S * prog A :=
  match n, w with
  | Datatypes.S n, (s, Step f k) => run_sections n (f s, k s)
  | _, _ => w
  end.

Lemma sections_interleaved {A} n (w : S * prog A) : star interleave w (run_sections n w).
Proof.
  revert w. induction n as [|n IH]; intros [s [a|f k]]; simpl; try constructor.
  eapply star_step; [apply own_section|apply IH].
Qed.

Lemma safe_interleaved {A} (p p' : prog A) (Q : A → S → Prop) s s' :
  Reflexive R → Transitive R → (∀ s s', R s s' → I s → I s') →
  I s → safe p Q s → star interleave (s, p) (s', p') →
  I s' ∧ ∃ s0, R s0 s' ∧ safe p' Q s0.
Proof.
  intros Hrefl Htrans Hkeep HI Hs Hstar.
  apply (star_invariant interleave (λ w, I (fst w) ∧ ∃ s0, R s0 (fst w) ∧ safe (snd w) Q s0))
    in Hstar; [done| |by split; [|exists s]].
  intros w w' [Hi (s0 & Hr & Hsafe)] Hstep. destruct Hstep as [s1 f k|s1 s2 q Hr']; simpl in *.
  - destruct (Hsafe s1 Hr Hi) as [Hi' Hk]. split; [done|]. by exists (f s1).
  - split; [by eapply Hkeep|]. exists s0. split; [by etrans|done].
Qed.
End Safe.
End Programs.
Arguments prog : clear implicits.
Arguments Done {S A} _.
Arguments Step {S A} _ _.
Arguments every_bind {S G A B} p k _ _.
Arguments triple_bind {S I R A B} P p Q q Q' _ _.
Arguments triple_throw {S I R A B} P p Q E q Q' _ _.
Arguments triple_ret {S I R A} P a Q _.
Arguments triple_conseq {S I R A} P P' p Q Q' _ _ _.
Arguments triple_atomically {S I R A} P f Q _ _.
Arguments triple_modify {S I R} P f Q _ _.
Arguments triple_read {S I R A} P f Q _ _.
Arguments stable_and {S I R} P Q _ _.

(** *** Putting triples together *)

Section Together.
Context {S : Type}.
Implicit Types (I P Z : S → Prop) (R G : S → S → Prop).

(** What every section and the others keep. *)
Lemma triple_kept {A} R Z G (p : prog S A) :
  (∀ s s', R s s' → Z s → Z s') → (∀ s s', G s s' → Z s → Z s') → every G p →
  triple (λ _, True) R Z p (λ _, Z).
Proof.
  intros HR HG. induction p as [a|f k IH]; intros Hp s _ Hz; [by split|].
  intros s' Hr _. destruct (Hp s') as [Hf Hk]. split; [done|].
  apply IH; [done|done|]. eauto.
Qed.

(** Two triples of one program. *)
Lemma triple_conj {A} I R R1 R2 P1 P2 (p : prog S A) Q1 Q2 :
  (∀ s s', R s s' → R1 s s' ∧ R2 s s') →
  triple I R1 P1 p Q1 → triple (λ _, True) R2 P2 p Q2 →
  triple I R (λ s, P1 s ∧ P2 s) p (λ a s, Q1 a s ∧ Q2 a s).
Proof.
  intros HR Hp1 Hp2 s Hi [H1 H2]. specialize (Hp1 s Hi H1). specialize (Hp2 s Logic.I H2).
  clear Hi H1 H2. revert s Hp1 Hp2.
  induction p as [a|f k IH]; intros s Hp1 Hp2; [by destruct Hp1, Hp2|].
  intros s' Hr Hi. destruct (HR _ _ Hr) as [Hr1 Hr2].
  destruct (Hp1 s' Hr1 Hi) as [Hf H1]. destruct (Hp2 s' Hr2 (Logic.I)) as [_ H2].
  split; [done|by apply IH].
Qed.
End Together.

(** ** A thread over one component of a larger state

    [zoom get put p dead]: every section of [p] acts on the component; [dead] is the
    answer when there is no such component. *)

Section Zoom.
Context {S T : Type} (get : S → option T) (put : T → S → S).

Fixpoint zoom {A} (p : prog T A) (dead : A) : prog S A :=
  match p with
  | Done a => Done a
  | Step f k =>
      Step (λ s, match get s with Some t => put (f t) s | None => s end)
           (λ s, match get s with Some t => zoom (k t) dead | None => Done dead end)
  end.

(** Whatever the component undergoes between two sections, as long as it satisfies [It]:
    the sections keep [It] and the result satisfies [V]. *)
Fixpoint promises {A} (It : T → Prop) (p : prog T A) (V : A → Prop) : Prop :=
  match p with
  | Done a => V a
  | Step f k => ∀ t, It t → It (f t) ∧ promises It (k t) V
  end.

Lemma promises_bind {A B} It (p : prog T A) (k : A → prog T B) V V' :
  promises It p V → (∀ a, V a → promises It (k a) V') → promises It (p ≫= k) V'.
Proof.
  intros Hp Hk. induction p as [a|f q IH]; simpl in *; [by apply Hk|].
  intros t Ht. destruct (Hp t Ht). split; [done|by apply IH].
Qed.

Lemma promises_atomically {A} It (f : T → T * A) (V : A → Prop) :
  (∀ t, It t → It (fst (f t)) ∧ V (snd (f t))) → promises It (atomically f) V.
Proof. intros H t Ht. simpl. auto. Qed.

Lemma promises_read {A} It (f : T → A) (V : A → Prop) :
  (∀ t, It t → V (f t)) → promises It (read f) V.
Proof. intros H t Ht. simpl. auto. Qed.

Lemma triple_zoom {A} (It : T → Prop) (I : S → Prop) (R : S → S → Prop) (p : prog T A) dead
  (V : A → Prop) P :
  (∀ s t, I s → get s = Some t → It t) →
  (∀ s t t', I s → get s = Some t → It t' → I (put t' s)) →
  V dead → promises It p V →
  triple I R P (zoom p dead) (λ a _, V a).
Proof.
  intros Hget Hput Hdead Hp s Hi _. revert s Hi.
  induction p as [a|f k IH]; intros s Hi; simpl in *; [done|].
  intros s' HR Hi'. destruct (get s') as [t|] eqn:Hg; [|by split].
  destruct (Hp t (Hget _ _ Hi' Hg)) as [Ht Hk]. split; [by eapply Hput|].
  apply IH; [done|by eapply Hput].
Qed.
End Zoom.

(** *** The same for a component that is always there

    A triple of the component is one of the whole state, for whatever the sections of the
    component leave alone ([F]). *)

Section Within.
Context {S T : Type} (get : S → T) (put : T → S → S).

Fixpoint within {A} (p : prog T A) : prog S A :=
  match p with
  | Done a => Done a
  | Step f k => Step (λ s, put (f (get s)) s) (λ s, within (k (get s)))
  end.

Lemma triple_within {A} (It : T → Prop) Rt (I : S → Prop) (R : S → S → Prop) (F : S → Prop)
  (P : T → Prop) (p : prog T A) (Q : A → T → Prop) :
  (∀ s, I s → It (get s)) →
  (∀ s s', R s s' → Rt (get s) (get s')) →
  (∀ s t, I s → F s → It t → I (put t s) ∧ F (put t s) ∧ get (put t s) = t) →
  stable I R F →
  triple It Rt P p Q → triple I R (λ s, P (get s) ∧ F s) (within p) (λ a s, Q a (get s) ∧ F s).
Proof.
  intros Hget HR Hput HF Hp s Hi [HP Hf].
  specialize (Hp (get s) (Hget _ Hi) HP). clear HP. revert s Hi Hf Hp.
  induction p as [a|f k IH]; intros s Hi Hf Hp; [by destruct Hp|].
  intros s' Hr Hi'. destruct (Hp (get s') (HR _ _ Hr) (Hget _ Hi')) as [Ht Hk].
  destruct (Hput s' (f (get s')) Hi' (HF _ _ Hi Hi' Hf Hr) Ht) as (Hi2 & Hf2 & Hg).
  split; [done|]. apply IH; [done|done|]. by rewrite Hg.
Qed.
End Within.

Notation "'let!' x ':=' p 'in' k" := (bind_throw p (fun x => k))
  (at level 10, x name, p at level 100, k at level 200) : gateway_scope.

(** [run_step] executes the first sections of a program. *)
Ltac run_step :=
  rewrite ?run_bind, ?run_atomically, ?run_modify, ?run_read, ?run_ret; cbn [fst snd].
