(* ===== verification/Projection.v ===== *)
(** * Projection: the interface of the order-book projection library

    The projection core and its Protobuf adapter
    ([binance_market_data/projection...]) are not part of the repository.  The
    gateway uses the operations gathered in [ProjectionLibrary]; everything the
    runtime does with them goes through this class.  The enumerators are those the
    gateway's own switch statements name.  An operation that may throw returns an
    [outcome]; one that may throw after it has changed the projection returns the
    new projection as well.  [ProjectionLibraryOk] states the documented behaviour
    that some theorems rely on; [SampleProjection] is a small concrete instance. *)

From S2P Require Import Prelude Ring Wire.

Inductive ProjectionStatus : Type :=
| AwaitingBaseline
| PsAwaitingBridge
| Synchronized
| PsNeedsResync.

#[export] Instance ProjectionStatus_eq_dec : EqDecision ProjectionStatus.
Proof. solve_decision. Defined.

Inductive ApplyDisposition : Type :=
| Applied
| IgnoredStale
| IgnoredDuplicate
| GapDetected
| RejectedWrongState.

#[export] Instance ApplyDisposition_eq_dec : EqDecision ApplyDisposition.
Proof. solve_decision. Defined.

Inductive SequencePolicyKind : Type :=
| SpkSpot
| SpkUsdMPerpetual.

Record SnapshotContext : Type := MkSnapshotContext {
  ctx_producer : string;
  ctx_producer_version : string;
  ctx_generated_utc_ns : Z;
  ctx_generated_monotonic_ns : option Z
}.

Class ProjectionLibrary : Type := {
  BookProjection : Type;
  ExpectedIdentity : Type;
  AdapterError : Type;
  GapInfo : Type;
  InstallResult : Type;
  ApplyResult : Type;
  AdaptedDepthBatch : Type;
  AdaptedBookBaseline : Type;
  LocalOrderBookSnapshot : Type;
  DepthLimit : Type;
  identity_symbol : ExpectedIdentity → string;
  (** [projection.status()], [.last_update_id()], [.last_gap()], [.reset()] *)
  status : BookProjection → ProjectionStatus;
  last_update_id : BookProjection → option Z;
  last_gap : BookProjection → option GapInfo;
  reset : BookProjection → BookProjection * outcome ();
  (** the fields read from the results *)
  apply_disposition : ApplyResult → ApplyDisposition;
  install_installed : InstallResult → bool;
  is_invalid_depth_limit : AdapterError → bool;
  (** the adapter *)
  adapt_depth_update : DepthUpdate → BookProjection → ExpectedIdentity →
    outcome (AdaptedDepthBatch + AdapterError);
  apply_to : AdaptedDepthBatch → BookProjection →
    BookProjection * outcome (ApplyResult + AdapterError);
  adapt_exchange_depth_snapshot : ExchangeDepthSnapshot → BookProjection →
    ExpectedIdentity → outcome (AdaptedBookBaseline + AdapterError);
  install_into : AdaptedBookBaseline → BookProjection →
    BookProjection * outcome (InstallResult + AdapterError);
  make_local_order_book_snapshot : BookProjection → ExpectedIdentity →
    SnapshotContext → option DepthLimit → outcome (LocalOrderBookSnapshot + AdapterError);
  depth_limit_create : Z → DepthLimit + AdapterError
}.

Class ProjectionLibraryOk (L : ProjectionLibrary) : Prop := {
  (** a detected gap leaves the projection in need of a resync *)
  gap_needs_resync b p p' r :
    apply_to b p = (p', Returned (inl r)) → apply_disposition r = GapDetected →
    status p' = PsNeedsResync;
  (** a reset projection waits for a baseline *)
  reset_awaits_baseline p p' :
    reset p = (p', Returned ()) → status p' = AwaitingBaseline
}.

(** ** A concrete instance: a book reduced to its update id *)

Module SampleProjection.

Record Book : Type := MkBook {
  book_status : ProjectionStatus;
  book_id : option Z
}.

Definition apply (u : DepthUpdate) (b : Book) : Book * ApplyDisposition :=
  match book_status b, book_id b with
  | AwaitingBaseline, _ | PsNeedsResync, _ => (b, RejectedWrongState)
  | _, None => (b, RejectedWrongState)
  | _, Some last =>
      if (final_update_id u <=? last)%Z then (b, IgnoredStale)
      else if (first_update_id u <=? last + 1)%Z
      then (MkBook Synchronized (Some (final_update_id u)), Applied)
      else (MkBook PsNeedsResync (Some last), GapDetected)
  end.

#[export] Instance library : ProjectionLibrary := {|
  BookProjection := Book;
  ExpectedIdentity := string;
  AdapterError := bool;
  GapInfo := ();
  InstallResult := bool;
  ApplyResult := ApplyDisposition;
  AdaptedDepthBatch := DepthUpdate;
  AdaptedBookBaseline := ExchangeDepthSnapshot;
  LocalOrderBookSnapshot := option Z;
  DepthLimit := Z;
  identity_symbol i := i;
  status := book_status;
  last_update_id := book_id;
  last_gap b := if bool_decide (book_status b = PsNeedsResync) then Some () else None;
  reset b := (MkBook AwaitingBaseline None, Returned ());
  apply_disposition r := r;
  install_installed r := r;
  is_invalid_depth_limit e := e;
  adapt_depth_update u b i :=
    Returned (if bool_decide (md_symbol (du_metadata u) = i) then inl u else inr false);
  apply_to u b := let '(b', r) := apply u b in (b', Returned (inl r));
  adapt_exchange_depth_snapshot d b i :=
    Returned (if bool_decide (ds_symbol d = i) then inl d else inr false);
  install_into d b :=
    (MkBook PsAwaitingBridge (Some (ds_last_update_id d)), Returned (inl true));
  make_local_order_book_snapshot b i c l := Returned (inl (book_id b));
  depth_limit_create n := if (0 <? n)%Z then inl n else inr true
|}.

Lemma library_ok : ProjectionLibraryOk library.
Proof.
  split.
  - intros u b b' r. simpl. destruct (apply u b) as [b1 r1] eqn:E. intros [= <- <-] ->.
    unfold apply in E. by break_all.
  - intros b b' [= <-]. done.
Qed.
End SampleProjection.
