(* ===== verification/MarketRuntime.v ===== *)
(** * MarketRuntime: one product's serialized owner

    Models [src/src/g3/market_runtime.hpp] and [.cpp]: the bounded ingress, the
    owner thread that applies inputs to the projection, the publication of applied
    updates to the subscribers, and the mailboxes through which callers ask the
    owner for a subscription, a snapshot, a reset or a shutdown.

    [Module Impl] follows [class MarketRuntime::Impl].  One [Runtime] record holds
    its fields, and the objects it shares by pointer: the subscriber channels
    ([store]) and the admission requests ([requests]), by address.  A caller's
    operation is a function on the state for each of its critical sections; the
    owner's code is a [prog], one [Step] per critical section or owner-only action,
    so callers and handlers interleave with it.  The injected clock and the
    allocator are oracles read through a counter ([None] and [false] are calls that
    throw); an allocation's address is its serial number.  Blocking waits appear as
    the predicate waited for.  The code compiled only with
    [BMD_GATEWAY_PERFORMANCE_BASELINE_ENABLED] and the callbacks of
    [RuntimeTestOptions], empty in production, are left out; [owner_paused] is
    kept. *)

From S2P Require Import Prelude Ring Wire Session OrderBookPublication Programs Projection.

Open Scope gateway_scope.

Record RuntimeLimits : Type := MkRuntimeLimits {
  ingress_capacity : nat;
  bootstrap_capacity : nat;
  publication : PublicationLimits
}.

Record ClockSample : Type := MkClockSample {
  sample_utc_ns : Z;
  sample_monotonic_ns : Z
}.

Inductive RuntimeState : Type :=
| RsConstructed
| RsBuffering
| RsAwaitingBridge
| RsLive
| RsNeedsResync
| RsFaulted
| RsStopping
| RsStopped.

#[export] Instance RuntimeState_eq_dec : EqDecision RuntimeState.
Proof. solve_decision. Defined.

Inductive FaultReason : Type :=
| IngressOverflow
| BootstrapBufferOverflow
| FrAdapterError
| TransportFailure
| SnapshotFailure
| ProjectionRejected
| FrClockError
| FrInternalError.

#[export] Instance FaultReason_eq_dec : EqDecision FaultReason.
Proof. solve_decision. Defined.

Inductive StartResult : Type :=
| SrStarted
| SrAlreadyStarted
| SrStopped.

Inductive AdmissionResult : Type :=
| ArAccepted
| ArFull
| ArNotStarted
| ArStopping
| ArStopped
| ArFaulted.

#[export] Instance AdmissionResult_eq_dec : EqDecision AdmissionResult.
Proof. solve_decision. Defined.

Record AppliedDepthObservation : Type := MkAppliedDepthObservation {
  applied_receive_time_utc_ns : option Z;
  applied_receive_monotonic_ns : option Z;
  applied_connection_generation : option Z
}.

(** [RebootstrapResetResult] and [PlannedRebootstrapResetResult] have the same
    enumerators. *)
Inductive RebootstrapResetResult : Type :=
| RrReset
| RrNotStarted
| RrInvalidState
| RrBusy
| RrStopping
| RrStopped
| RrInternalError.

#[export] Instance RebootstrapResetResult_eq_dec : EqDecision RebootstrapResetResult.
Proof. solve_decision. Defined.

Inductive PlannedRebootstrapResetResult : Type :=
| PrReset
| PrNotStarted
| PrInvalidState
| PrBusy
| PrStopping
| PrStopped
| PrInternalError.

#[export] Instance PlannedRebootstrapResetResult_eq_dec :
  EqDecision PlannedRebootstrapResetResult.
Proof. solve_decision. Defined.

Inductive TimedRecoveryWaitResult : Type :=
| TwRecoveryRequired
| TwDeadlineReached
| TwStopped.

#[export] Instance TimedRecoveryWaitResult_eq_dec : EqDecision TimedRecoveryWaitResult.
Proof. solve_decision. Defined.

Inductive SnapshotRequestError : Type :=
| SeNotStarted
| SeNotLive
| SeBusy
| SeFaulted
| SeStopping
| SeStopped
| SeClockError
| SeInternalError.

Inductive SubscriptionAdmissionError : Type :=
| SaNotStarted
| SaNotLive
| SaPendingLimit
| SaActiveLimit
| SaInvalidDepthLimit
| SaShuttingDown
| SaClockError
| SaIdExhausted
| SaInternalError
| SaStopped.

#[export] Instance SubscriptionAdmissionError_eq_dec : EqDecision SubscriptionAdmissionError.
Proof. solve_decision. Defined.

Inductive PublicationShutdownResult : Type :=
| PsdShutDown
| PsdAlreadyShutDown
| PsdNotStarted
| PsdStopped.

Inductive InjectedFailure : Type :=
| InjectedTransport
| InjectedSnapshot.

(** [SourceProvenance]: the optional connection generation. *)
Abbreviation SourceProvenance := (option Z).

Inductive RuntimeInput : Type :=
| DepthUpdateInput (update : DepthUpdate) (provenance : SourceProvenance)
| SnapshotInput (snapshot : ExchangeDepthSnapshot) (provenance : SourceProvenance)
| FailureInput (failure : InjectedFailure).

Record IngressItem : Type := MkIngressItem {
  ticket : Z;
  input : RuntimeInput
}.

Inductive ResetKind : Type :=
| ResetRecovery
| ResetPlanned.

#[export] Instance ResetKind_eq_dec : EqDecision ResetKind.
Proof. solve_decision. Defined.

Record ResetRequest : Type := MkResetRequest {
  reset_target : Z;
  reset_kind : ResetKind;
  reset_result : option RebootstrapResetResult
}.
#[export] Instance eta_ResetRequest : Eta ResetRequest :=
  λ r, MkResetRequest (reset_target r) (reset_kind r) (reset_result r).

(** [state_for_projection] *)
Definition state_for_projection (status : ProjectionStatus) : RuntimeState :=
  match status with
  | AwaitingBaseline => RsBuffering
  | PsAwaitingBridge => RsAwaitingBridge
  | Synchronized => RsLive
  | PsNeedsResync => RsNeedsResync
  end.

(** [to_planned_reset_result] *)
Definition to_planned_reset_result (result : RebootstrapResetResult)
  : PlannedRebootstrapResetResult :=
  match result with
  | RrReset => PrReset
  | RrNotStarted => PrNotStarted
  | RrInvalidState => PrInvalidState
  | RrBusy => PrBusy
  | RrStopping => PrStopping
  | RrStopped => PrStopped
  | RrInternalError => PrInternalError
  end.

(** [std::thread::id{}] and the owner's id. *)
Definition no_thread : Z := 0.
Definition owner_thread : Z := 1.

Section Types.
Context `{L : ProjectionLibrary}.

Record RuntimeObservation : Type := MkRuntimeObservation {
  obs_state : RuntimeState;
  obs_projection_status : ProjectionStatus;
  obs_last_update_id : option Z;
  obs_last_gap : option GapInfo;
  obs_last_install : option InstallResult;
  obs_last_apply : option ApplyResult;
  obs_last_applied_depth : option AppliedDepthObservation;
  obs_adapter_error : option AdapterError;
  obs_fault_reason : option FaultReason;
  obs_ingress_occupancy : nat;
  obs_ingress_capacity : nat;
  obs_bootstrap_occupancy : nat;
  obs_bootstrap_capacity : nat;
  obs_owner_thread_id : Z;
  obs_last_publication_thread_id : Z;
  obs_last_reset_thread_id : Z;
  obs_reset_count : Z;
  obs_last_admitted_ticket : Z;
  obs_processed_ticket : Z;
  obs_current_projection_generation : option Z;
  obs_resident_subscription_count : nat;
  obs_pending_admission_count : nat;
  obs_publication_admission_open : bool;
  obs_publication_shutdown : bool;
  obs_owner_joined : bool
}.

Record CapturedSnapshot : Type := MkCapturedSnapshot {
  captured_snapshot : LocalOrderBookSnapshot;
  generated_at : ClockSample;
  captured_on_thread : Z
}.

Inductive SnapshotResult : Type :=
| SnapCaptured (snapshot : CapturedSnapshot)
| SnapAdapterError (error : AdapterError)
| SnapError (error : SnapshotRequestError).

Record SnapshotRequest : Type := MkSnapshotRequest {
  snapshot_target : Z;
  snapshot_result : option SnapshotResult
}.

(** [SubscriptionAdmissionResult]: the accepted channel's address and the thread
    that admitted it, or the error. *)
Inductive SubscriptionAdmissionResult : Type :=
| AcceptedSubscription (channel : Z) (admitted_on_thread : Z)
| AdmissionRefused (error : SubscriptionAdmissionError).

Record AdmissionRequest : Type := MkAdmissionRequest {
  admission_target : Z;
  subscription : ValidatedOrderBookSubscription;
  admission_result : option SubscriptionAdmissionResult
}.
End Types.

#[export] Instance eta_RuntimeObservation `{L : ProjectionLibrary} : Eta RuntimeObservation :=
  λ o, MkRuntimeObservation (obs_state o) (obs_projection_status o) (obs_last_update_id o)
    (obs_last_gap o) (obs_last_install o) (obs_last_apply o) (obs_last_applied_depth o)
    (obs_adapter_error o) (obs_fault_reason o) (obs_ingress_occupancy o)
    (obs_ingress_capacity o) (obs_bootstrap_occupancy o) (obs_bootstrap_capacity o)
    (obs_owner_thread_id o) (obs_last_publication_thread_id o) (obs_last_reset_thread_id o)
    (obs_reset_count o) (obs_last_admitted_ticket o) (obs_processed_ticket o)
    (obs_current_projection_generation o) (obs_resident_subscription_count o)
    (obs_pending_admission_count o) (obs_publication_admission_open o)
    (obs_publication_shutdown o) (obs_owner_joined o).
#[export] Instance eta_SnapshotRequest `{L : ProjectionLibrary} : Eta SnapshotRequest :=
  λ r, MkSnapshotRequest (snapshot_target r) (snapshot_result r).
#[export] Instance eta_AdmissionRequest `{L : ProjectionLibrary} : Eta AdmissionRequest :=
  λ r, MkAdmissionRequest (admission_target r) (subscription r) (admission_result r).

Module Impl.

Section State.
Context `{L : ProjectionLibrary}.

Record Runtime : Type := MkRuntime {
  limits : RuntimeLimits;
  expected_identity : ExpectedIdentity;
  projection : BookProjection;
  bootstrap : list (DepthUpdate * SourceProvenance);
  current_projection_generation : option Z;
  subscribers : list Z;
  next_subscription_id : Z;
  ingress : list IngressItem;
  admission_requests : list Z;
  pending_fault : option FaultReason;
  snapshot_request : option SnapshotRequest;
  reset_request : option ResetRequest;
  observation : RuntimeObservation;
  last_admitted_ticket : Z;
  processed_ticket : Z;
  pending_admission_count : nat;
  started : bool;
  accepting : bool;
  publication_admission_open : bool;
  publication_shutdown_requested : bool;
  publication_shutdown_completed : bool;
  publication_removal_pending : bool;
  stop_requested : bool;
  stopped : bool;
  owner_ready : bool;
  owner_paused : bool;
  store : gmap Z (SubscriberChannel.Channel LocalOrderBookSnapshot);
  requests : gmap Z AdmissionRequest;
  clock_reads : nat;
  allocations : nat
}.

#[export] Instance eta_Runtime : Eta Runtime :=
  λ s, MkRuntime (limits s) (expected_identity s) (projection s) (bootstrap s)
    (current_projection_generation s) (subscribers s) (next_subscription_id s) (ingress s)
    (admission_requests s) (pending_fault s) (snapshot_request s) (reset_request s)
    (observation s) (last_admitted_ticket s) (processed_ticket s) (pending_admission_count s)
    (started s) (accepting s) (publication_admission_open s)
    (publication_shutdown_requested s) (publication_shutdown_completed s)
    (publication_removal_pending s) (stop_requested s) (stopped s) (owner_ready s)
    (owner_paused s) (store s) (requests s) (clock_reads s) (allocations s).

(** [observation_ = RuntimeObservation{}] with the two capacities. *)
Definition initial_observation (limits : RuntimeLimits) : RuntimeObservation :=
  MkRuntimeObservation RsConstructed AwaitingBaseline None None None None None None None
    0 (ingress_capacity limits) 0 (bootstrap_capacity limits)
    no_thread no_thread no_thread 0 0 0 None 0 0 false false false.

(** The constructor: [None] is [std::invalid_argument].  [fresh] is the projection
    the library constructs. *)
Definition make (lim : RuntimeLimits) (has_clock : bool) (identity : ExpectedIdentity)
  (fresh : BookProjection) (paused : bool) : option Runtime :=
  if bool_decide (ingress_capacity lim = 0) || bool_decide (bootstrap_capacity lim = 0)
     || negb has_clock || bool_decide (identity_symbol identity = "")
     || bool_decide (maximum_active_subscriptions (publication lim) = 0)
     || bool_decide (ordinary_queue_capacity (publication lim) = 0)
     || bool_decide (pending_admission_capacity (publication lim) = 0)
  then None
  else Some (MkRuntime lim identity fresh [] None [] 1 [] [] None None None
               (initial_observation lim) 0 0 0 false false false false false false false
               false false paused ∅ ∅ 0 0).
End State.

(** ** Lifecycle: [start], [stop] *)

Section Lifecycle.
Context `{L : ProjectionLibrary}.
Implicit Types (s : Runtime).

Definition set_state (st : RuntimeState) s : Runtime :=
  s <| observation ::= λ o, o <| obs_state := st |> |>.

Definition state s : RuntimeState := obs_state (observation s).

(** [publication_admission_open_ = b; observation_.publication_admission_open = b] *)
Definition set_admission_open (b : bool) s : Runtime :=
  s <| publication_admission_open := b |>
    <| observation ::= λ o, o <| obs_publication_admission_open := b |> |>.

(** [start], up to the wait for [owner_ready_].  [created] tells whether
    [std::thread]'s constructor succeeded. *)
Definition start (created : bool) s : Runtime * outcome StartResult :=
  if stopped s then (s, Returned SrStopped)
  else if started s then (s, Returned SrAlreadyStarted)
  else if negb created then (s, Threw)
  else (set_admission_open (negb (publication_shutdown_completed s))
          (s <| started := true |> <| accepting := true |>), Returned SrStarted).

(** [complete_all_admissions_locked] *)
Definition complete_request (r : SubscriptionAdmissionResult) (q : AdmissionRequest)
  : AdmissionRequest :=
  match admission_result q with
  | None => q <| admission_result := Some r |>
  | Some _ => q
  end.

Definition complete_all_admissions_locked (error : SubscriptionAdmissionError) s : Runtime :=
  s <| requests := foldl (λ m a, alter (complete_request (AdmissionRefused error)) a m)
                         (requests s) (admission_requests s) |>
    <| admission_requests := [] |>
    <| pending_admission_count := 0 |>
    <| observation ::= λ o, o <| obs_pending_admission_count := 0 |> |>.

(** [stop], first section: whether the owner must be joined. *)
Definition stop_begin s : Runtime * bool :=
  if stopped s then (s, false)
  else if negb (started s) then
    (s <| accepting := false |> <| stopped := true |>
       <| observation ::= λ o, o <| obs_state := RsStopped |> <| obs_owner_joined := true |> |>,
     false)
  else
    let s := set_admission_open false (s <| accepting := false |>)
               <| publication_shutdown_requested := true |> <| stop_requested := true |>
               <| owner_paused := false |> in
    (if bool_decide (state s = RsFaulted) || bool_decide (state s = RsNeedsResync)
     then s else set_state RsStopping s, true).

(** [snapshot_request_->result = r] when a request without a result exists. *)
Definition fail_snapshot_request (r : SnapshotRequestError) s : Runtime :=
  match snapshot_request s with
  | Some q =>
      match snapshot_result q with
      | None => s <| snapshot_request := Some (q <| snapshot_result := Some (SnapError r) |>) |>
      | Some _ => s
      end
  | None => s
  end.

(** [stop], last section, after the join. *)
Definition stop_end s : Runtime :=
  complete_all_admissions_locked SaStopped
    (fail_snapshot_request SeStopped
       (s <| stopped := true |>
          <| observation ::= λ o, o <| obs_state := RsStopped |> <| obs_owner_joined := true |> |>)).
End Lifecycle.

(** ** Callers *)

Section Callers.
Context `{L : ProjectionLibrary}.
Implicit Types (s : Runtime).

(** [submit]; [pushed] tells whether [ingress_.push_back] succeeded. *)
Definition submit (pushed : bool) (i : RuntimeInput) s : Runtime * outcome AdmissionResult :=
  if stopped s then (s, Returned ArStopped)
  else if negb (started s) then (s, Returned ArNotStarted)
  else if stop_requested s then (s, Returned ArStopping)
  else if negb (accepting s) then (s, Returned ArFaulted)
  else if bool_decide (length (ingress s) = ingress_capacity (limits s))
  then (s <| accepting := false |> <| pending_fault := Some IngressOverflow |>, Returned ArFull)
  else
    let s := s <| last_admitted_ticket ::= u64_succ |> in
    if pushed
    then
      let q := ingress s ++ [MkIngressItem (last_admitted_ticket s) i] in
      (s <| ingress := q |> <| observation ::= λ o, o <| obs_ingress_occupancy := length q |> |>,
       Returned ArAccepted)
    else (s, Threw).

(** [publish_tickets_locked] *)
Definition publish_tickets_locked s : Runtime :=
  s <| observation ::= λ o, o <| obs_last_admitted_ticket := last_admitted_ticket s |>
                              <| obs_processed_ticket := processed_ticket s |> |>.

(** [observe_until]: the target captured on entry, the predicate waited for and
    the section that returns; [ready] is false at the deadline and [cancelled] is
    the stop token. *)
Definition observe_target s : option Z :=
  if started s && negb (stopped s) then Some (last_admitted_ticket s) else None.

Definition observe_ready (target : option Z) s : bool :=
  match target with
  | Some t => (t <=? processed_ticket s)%Z || stopped s
  | None => true
  end.

Definition observe_finish (target : option Z) (ready cancelled : bool) s
  : Runtime * option RuntimeObservation :=
  if match target with Some _ => negb ready || cancelled | None => cancelled end
  then (s, None)
  else
    let s := publish_tickets_locked
      (s <| observation ::= λ o, o <| obs_ingress_occupancy := length (ingress s) |> |>) in
    (s, Some (observation s)).

(** The Live gate shared by the planned reset and the admissions. *)
Definition live_gate s : bool :=
  bool_decide (state s = RsLive)
  && bool_decide (obs_projection_status (observation s) = Synchronized)
  && bool_decide (obs_fault_reason (observation s) = None).

(** [recovery_required_locked] *)
Definition recovery_required_locked s : bool :=
  bool_decide (state s = RsFaulted) || bool_decide (state s = RsNeedsResync)
  || bool_decide (state s = RsStopping) || bool_decide (state s = RsStopped).

(** [reset_for_rebootstrap] up to the wait: [None] when the request was queued. *)
Definition reset_for_rebootstrap s : Runtime * option RebootstrapResetResult :=
  if stopped s then (s, Some RrStopped)
  else if negb (started s) then (s, Some RrNotStarted)
  else if stop_requested s then (s, Some RrStopping)
  else if negb (bool_decide (state s = RsFaulted)) && negb (bool_decide (state s = RsNeedsResync))
  then (s, Some RrInvalidState)
  else if bool_decide (is_Some (reset_request s)) then (s, Some RrBusy)
  else (s <| reset_request := Some (MkResetRequest (last_admitted_ticket s) ResetRecovery None) |>,
        None).

(** The wait and the end of both resets: [None] while blocked. *)
Definition reset_take s : option (Runtime * RebootstrapResetResult) :=
  match reset_request s with
  | Some q =>
      match reset_result q with
      | Some r => Some (s <| reset_request := None |>, r)
      | None => if stopped s then Some (s <| reset_request := None |>, RrStopped) else None
      end
  | None => None
  end.

(** [reset_live_for_planned_rebootstrap] up to the wait. *)
Definition reset_live_for_planned_rebootstrap s
  : Runtime * option PlannedRebootstrapResetResult :=
  if stopped s then (s, Some PrStopped)
  else if negb (started s) then (s, Some PrNotStarted)
  else if stop_requested s then (s, Some PrStopping)
  else if negb (live_gate s) then (s, Some PrInvalidState)
  else if bool_decide (is_Some (reset_request s)) then (s, Some PrBusy)
  else (s <| reset_request := Some (MkResetRequest (last_admitted_ticket s) ResetPlanned None) |>,
        None).

Definition planned_reset_take s : option (Runtime * PlannedRebootstrapResetResult) :=
  (λ '(s', r), (s', to_planned_reset_result r)) <$> reset_take s.

(** The predicates of [wait_until_live_or_recovery_required] and
    [wait_until_recovery_required], and the section that returns. *)
Definition live_or_recovery_required s : bool :=
  bool_decide (state s = RsLive) || recovery_required_locked s || stop_requested s || stopped s.

Definition recovery_required s : bool :=
  recovery_required_locked s || stop_requested s || stopped s.

Definition wait_finish (ready cancelled : bool) s : Runtime * option RuntimeObservation :=
  if negb ready || cancelled then (s, None)
  else let s := publish_tickets_locked s in (s, Some (observation s)).

(** [wait_until_recovery_required_for] *)
Definition wait_until_recovery_required_for (ready cancelled : bool) s
  : TimedRecoveryWaitResult :=
  if cancelled || stop_requested s || stopped s then TwStopped
  else if ready then TwRecoveryRequired else TwDeadlineReached.

(** [capture_snapshot] up to the wait, and its end. *)
Definition capture_snapshot s : Runtime * option SnapshotRequestError :=
  if stopped s then (s, Some SeStopped)
  else if negb (started s) then (s, Some SeNotStarted)
  else if stop_requested s then (s, Some SeStopping)
  else if bool_decide (state s = RsFaulted) || bool_decide (state s = RsNeedsResync)
  then (s, Some SeFaulted)
  else if bool_decide (is_Some (snapshot_request s)) then (s, Some SeBusy)
  else (s <| snapshot_request := Some (MkSnapshotRequest (last_admitted_ticket s) None) |>, None).

Definition snapshot_take s : option (Runtime * SnapshotResult) :=
  match snapshot_request s with
  | Some q =>
      match snapshot_result q with
      | Some r => Some (s <| snapshot_request := None |>, r)
      | None => if stopped s
                then Some (s <| snapshot_request := None |>, SnapError SeStopped) else None
      end
  | None => None
  end.

(** [admit_order_book_subscription] up to the wait: the address of the queued
    request, or the error.  [alloc] is [None] when the [try] block throws. *)
Definition admit_order_book_subscription (alloc : option Z)
  (sub : ValidatedOrderBookSubscription) s : Runtime * (Z + SubscriptionAdmissionError) :=
  if stopped s then (s, inr SaStopped)
  else if negb (started s) then (s, inr SaNotStarted)
  else if negb (publication_admission_open s) || publication_shutdown_requested s
          || publication_shutdown_completed s || stop_requested s
  then (s, inr SaShuttingDown)
  else if negb (live_gate s) then (s, inr SaNotLive)
  else if bool_decide (pending_admission_count s
                       = pending_admission_capacity (publication (limits s)))
  then (s, inr SaPendingLimit)
  else
    match alloc with
    | None => (s, inr SaInternalError)
    | Some a =>
        let count := S (pending_admission_count s) in
        (s <| requests := <[a := MkAdmissionRequest (last_admitted_ticket s) sub None]> (requests s) |>
           <| admission_requests ::= λ q, q ++ [a] |>
           <| pending_admission_count := count |>
           <| observation ::= λ o, o <| obs_pending_admission_count := count |> |>, inl a)
    end.

(** The end of the admission: [None] while blocked. *)
Definition admission_take (a : Z) s : option SubscriptionAdmissionResult :=
  match requests s !! a with
  | Some q =>
      match admission_result q with
      | Some r => Some r
      | None => if stopped s then Some (AdmissionRefused SaStopped) else None
      end
  | None => None
  end.

Definition notify_subscriber_closed s : Runtime := s <| publication_removal_pending := true |>.

Definition close_publication_admission s : Runtime := set_admission_open false s.

(** [shutdown_publication] up to the wait, and its end. *)
Definition shutdown_publication s : Runtime * option PublicationShutdownResult :=
  let s := set_admission_open false s in
  if publication_shutdown_completed s then (s, Some PsdAlreadyShutDown)
  else if stopped s then (s, Some PsdStopped)
  else if negb (started s) then
    (s <| publication_shutdown_requested := true |> <| publication_shutdown_completed := true |>
       <| observation ::= λ o, o <| obs_publication_shutdown := true |> |>, Some PsdNotStarted)
  else (s <| publication_shutdown_requested := true |>, None).

Definition shutdown_take s : option PublicationShutdownResult :=
  if publication_shutdown_completed s then Some PsdShutDown
  else if stopped s then Some PsdStopped else None.

Definition ingress_observation s : nat * nat :=
  (length (ingress s), ingress_capacity (limits s)).

Definition release_owner_for_testing s : Runtime := s <| owner_paused := false |>.

Definition pause_owner_for_testing s : Runtime :=
  if started s && negb (stop_requested s) && negb (stopped s)
  then s <| owner_paused := true |> else s.
End Callers.

(** ** The owner thread *)

Section Owner.
Context `{W : WireEnums} `{L : ProjectionLibrary}.
Context (clock : nat → option ClockSample) (alloc_ok : nat → bool).
Implicit Types (s : Runtime).
Abbreviation Owner := (prog Runtime).

(** [clock_()] and an allocation. *)
Definition read_clock : Owner (option ClockSample) :=
  atomically (λ s, (s <| clock_reads ::= Nat.succ |>, clock (clock_reads s))).

Definition allocate : Owner (option Z) :=
  atomically (λ s, (s <| allocations ::= Nat.succ |>,
                    if alloc_ok (allocations s) then Some (Z.of_nat (allocations s)) else None)).

(** [sample_publication_time] *)
Definition sample_publication_time : Owner (option PublicationTime) :=
  sample ← read_clock;
  mret ((λ c, MkPublicationTime (sample_utc_ns c) (Some (sample_monotonic_ns c)))
        <$> (sample : option ClockSample)).

(** A call on a shared channel. *)
Definition on_channel
  (f : SubscriberChannel.Channel LocalOrderBookSnapshot →
       SubscriberChannel.Channel LocalOrderBookSnapshot) (a : Z) s : Runtime :=
  s <| store ::= alter f a |>.

(** [refresh_projection_observation_locked] *)
Definition refresh_projection_observation_locked s : Runtime :=
  s <| observation ::= λ o,
         o <| obs_projection_status := status (projection s) |>
           <| obs_last_update_id := last_update_id (projection s) |>
           <| obs_last_gap := last_gap (projection s) |>
           <| obs_current_projection_generation := current_projection_generation s |> |>.

(** [discard_ingress_locked] *)
Definition discard_ingress_locked s : Runtime :=
  match list.last (ingress s) with
  | None => s
  | Some i =>
      s <| processed_ticket ::= λ p, Z.max p (ticket i) |> <| ingress := [] |>
        <| observation ::= λ o, o <| obs_ingress_occupancy := 0 |> |>
  end.

(** [sweep_closed_subscribers]: each channel's state is read under its own lock. *)
Definition subscriber_closed (a : Z) s : bool :=
  match store s !! a with
  | Some c => bool_decide (SubscriberChannel.state c = SubClosed)
  | None => false
  end.

Fixpoint live_subscribers (addresses : list Z) : Owner (list Z) :=
  match addresses with
  | [] => mret []
  | a :: rest =>
      closed ← read (subscriber_closed a);
      kept ← live_subscribers rest;
      mret (if closed : bool then kept else a :: kept)
  end.

Definition sweep_closed_subscribers : Owner () :=
  addresses ← read subscribers;
  kept ← live_subscribers addresses;
  modify (λ s, s <| subscribers := kept |>) ;;
  modify (λ s, s <| observation ::= λ o,
                 o <| obs_resident_subscription_count := length (subscribers s) |> |>).

(** [close_all_subscribers_for_shutdown] *)
Definition close_all_subscribers_for_shutdown : Owner () :=
  addresses ← read subscribers;
  for_each addresses (λ a, modify (on_channel SubscriberChannel.close_from_owner a)) ;;
  modify (λ s, s <| subscribers := [] |>) ;;
  modify (λ s, s <| observation ::= λ o, o <| obs_resident_subscription_count := 0 |> |>).

(** [perform_publication_shutdown_control] *)
Definition shutdown_commit s : Runtime :=
  complete_all_admissions_locked SaShuttingDown (s <| publication_admission_open := false |>)
    <| publication_shutdown_completed := true |>
    <| observation ::= λ o, o <| obs_publication_admission_open := false |>
                              <| obs_publication_shutdown := true |> |>.

Definition perform_publication_shutdown_control : Owner () :=
  close_all_subscribers_for_shutdown ;; modify shutdown_commit.

(** [terminalize_active_subscribers] *)
Definition terminalize_active_subscribers (reason recovery_action : Z) (generation : option Z)
  : Owner () :=
  sweep_closed_subscribers ;;
  sampled ← sample_publication_time;
  modify (λ s, s <| observation ::= λ o,
                 o <| obs_last_publication_thread_id := owner_thread |> |>) ;;
  addresses ← read subscribers;
  for_each addresses (λ a, modify (on_channel (λ c,
    fst (SubscriberChannel.terminalize reason recovery_action generation
           (default (MkPublicationTime 0 None) sampled) c)) a)).

(** [transition_to_fault] *)
Definition fault_commit (reason : FaultReason) (error : option AdapterError) s : Runtime :=
  let s := s <| accepting := false |> <| bootstrap := [] |>
             <| observation ::= λ o, o <| obs_bootstrap_occupancy := 0 |>
                                       <| obs_fault_reason := Some reason |>
                                       <| obs_adapter_error := error |> |> in
  fail_snapshot_request SeFaulted
    (discard_ingress_locked (set_state RsFaulted (refresh_projection_observation_locked s))).

Definition transition_to_fault (reason : FaultReason) (error : option AdapterError) : Owner () :=
  generation ← read current_projection_generation;
  terminalize_active_subscribers CONSUMER_GAP_REASON_RESUME_NOT_AVAILABLE
    RECOVERY_ACTION_REQUEST_NEW_SNAPSHOT generation ;;
  modify (fault_commit reason error).

(** [publish_projection_state] *)
Definition publish_state_commit (st : ProjectionStatus) s : Runtime :=
  let s := refresh_projection_observation_locked s
             <| observation ::= λ o, o <| obs_bootstrap_occupancy := length (bootstrap s) |> |> in
  let s := if bool_decide (state s = RsFaulted) || bool_decide (state s = RsStopping)
              || bool_decide (state s = RsStopped)
           then s else set_state (state_for_projection st) s in
  if bool_decide (st = PsNeedsResync)
  then discard_ingress_locked (s <| accepting := false |>) else s.

Definition publish_projection_state : Owner () :=
  modify (λ s, publish_state_commit (status (projection s)) s).

(** [publish_applied_update]; the loop stops at the first allocation failure. *)
Definition admit_to (update : shared_ptr DepthUpdate) (generation : option Z)
  (at_time : PublicationTime) (a : Z) : Owner bool :=
  alloc ← allocate;
  atomically (λ s,
    match store s !! a with
    | Some c =>
        let '(c', r) := SubscriberChannel.admit_update (Some update) generation at_time alloc c in
        (s <| store ::= <[a := c']> |>, negb (bool_decide (r = OaAllocationFailure)))
    | None => (s, true)
    end).

Definition publish_applied_update (update : DepthUpdate) (provenance : SourceProvenance)
  : Owner () :=
  completed ← read publication_shutdown_completed;
  if completed : bool then mret () else
  sweep_closed_subscribers ;;
  addresses ← read subscribers;
  if bool_decide (addresses = []) then mret () else
  published_at ← sample_publication_time;
  match published_at with
  | None => transition_to_fault FrClockError None
  | Some at_time =>
      shared ← allocate;
      match shared with
      | None => transition_to_fault FrInternalError None
      | Some address =>
          modify (λ s, s <| observation ::= λ o,
                         o <| obs_last_publication_thread_id := owner_thread |> |>) ;;
          admitted ← for_each_while addresses
                       (admit_to (SharedPtr address update) provenance at_time);
          if admitted : bool then mret () else transition_to_fault FrInternalError None
      end
  end.

(** [apply_update] *)
Definition generation_mismatch (current provenance : option Z) : bool :=
  bool_decide (is_Some current) && bool_decide (is_Some provenance)
  && negb (bool_decide (current = provenance)).

Definition record_apply (update : DepthUpdate) (provenance : SourceProvenance)
  (result : ApplyResult) s : Runtime :=
  let s := s <| observation ::= λ o, o <| obs_last_apply := Some result |> |> in
  if bool_decide (apply_disposition result = Applied)
  then s <| observation ::= λ o, o <| obs_last_applied_depth :=
              Some (MkAppliedDepthObservation (receive_time_utc_ns (du_metadata update))
                      (receive_monotonic_ns (du_metadata update)) provenance) |> |>
  else s.

Definition apply_update (update : DepthUpdate) (provenance : SourceProvenance)
  : Owner (outcome ()) :=
  generation ← read current_projection_generation;
  if generation_mismatch generation provenance
  then transition_to_fault FrInternalError None ;; mret (Returned ()) else
  adapted ← read (λ s, adapt_depth_update update (projection s) (expected_identity s));
  match adapted with
  | Threw => mret Threw
  | Returned (inr error) => transition_to_fault FrAdapterError (Some error) ;; mret (Returned ())
  | Returned (inl batch) =>
      applied ← atomically (λ s, let '(p, r) := apply_to batch (projection s) in
                                 (s <| projection := p |>, r));
      match applied with
      | Threw => mret Threw
      | Returned (inr error) =>
          transition_to_fault FrAdapterError (Some error) ;; mret (Returned ())
      | Returned (inl result) =>
          modify (record_apply update provenance result) ;;
          match apply_disposition result with
          | Applied => publish_applied_update update provenance
          | GapDetected =>
              terminalize_active_subscribers CONSUMER_GAP_REASON_UPSTREAM_SEQUENCE_GAP
                RECOVERY_ACTION_REQUEST_NEW_SNAPSHOT provenance
          | _ => mret ()
          end ;;
          publish_projection_state ;; mret (Returned ())
      end
  end.

(** [process_depth_update] *)
Definition process_depth_update (update : DepthUpdate) (provenance : SourceProvenance)
  : Owner (outcome ()) :=
  st ← read (λ s, status (projection s));
  if bool_decide (st = AwaitingBaseline) then
    full ← read (λ s, bool_decide (length (bootstrap s) = bootstrap_capacity (limits s)));
    if full : bool
    then transition_to_fault BootstrapBufferOverflow None ;; mret (Returned ()) else
    pushed ← allocate;
    match pushed with
    | None => mret Threw
    | Some _ =>
        modify (λ s, s <| bootstrap ::= λ b, b ++ [(update, provenance)] |>) ;;
        publish_projection_state ;; mret (Returned ())
    end
  else apply_update update provenance.

(** The loop of [process_snapshot] over the buffered updates; [fuel] is the number
    of updates buffered when it starts, and the owner alone fills the buffer. *)
Fixpoint replay_bootstrap (fuel : nat) : Owner (outcome ()) :=
  match fuel with
  | O => mret (Returned ())
  | S fuel =>
      next ← atomically (λ s, match bootstrap s with
                              | [] => (s, None)
                              | u :: rest => (s <| bootstrap := rest |>, Some u)
                              end);
      match next with
      | None => mret (Returned ())
      | Some (update, provenance) =>
          let! _ := apply_update update provenance in
          halt ← read (λ s, bool_decide (status (projection s) = PsNeedsResync)
                            || bool_decide (state s = RsFaulted));
          if halt : bool
          then modify (λ s, s <| bootstrap := [] |>) ;; mret (Returned ())
          else replay_bootstrap fuel
      end
  end.

(** [process_snapshot] *)
Definition process_snapshot (snapshot : ExchangeDepthSnapshot) (provenance : SourceProvenance)
  : Owner (outcome ()) :=
  adapted ← read (λ s, adapt_exchange_depth_snapshot snapshot (projection s)
                         (expected_identity s));
  match adapted with
  | Threw => mret Threw
  | Returned (inr error) => transition_to_fault FrAdapterError (Some error) ;; mret (Returned ())
  | Returned (inl baseline) =>
      installed ← atomically (λ s, let '(p, r) := install_into baseline (projection s) in
                                   (s <| projection := p |>, r));
      match installed with
      | Threw => mret Threw
      | Returned (inr error) =>
          transition_to_fault FrAdapterError (Some error) ;; mret (Returned ())
      | Returned (inl result) =>
          modify (λ s, s <| observation ::= λ o, o <| obs_last_install := Some result |> |>) ;;
          if negb (install_installed result)
          then transition_to_fault ProjectionRejected None ;; mret (Returned ()) else
          modify (λ s, s <| current_projection_generation := provenance |>) ;;
          modify (λ s, s <| observation ::= λ o, o <| obs_current_projection_generation :=
                                               current_projection_generation s |> |>) ;;
          fuel ← read (λ s, length (bootstrap s));
          let! _ := replay_bootstrap fuel in
          publish_projection_state ;; mret (Returned ())
      end
  end.

(** [process_input] *)
Definition process_input (i : RuntimeInput) : Owner (outcome ()) :=
  match i with
  | DepthUpdateInput update provenance => process_depth_update update provenance
  | SnapshotInput snapshot provenance => process_snapshot snapshot provenance
  | FailureInput failure =>
      transition_to_fault (match failure with
                           | InjectedTransport => TransportFailure
                           | InjectedSnapshot => SnapshotFailure
                           end) None ;; mret (Returned ())
  end.

(** [finish_ticket] *)
Definition finish_ticket (t : Z) s : Runtime :=
  s <| processed_ticket ::= λ p, Z.max p t |>
    <| observation ::= λ o, o <| obs_bootstrap_occupancy := length (bootstrap s) |> |>.

(** The owner's handling of one ingress item. *)
Definition process_item (item : IngressItem) : Owner () :=
  try_catch (process_input (input item)) (transition_to_fault FrInternalError None) ;;
  modify (finish_ticket (ticket item)).

(** [complete_admission_request] and [complete_admission_request_unlocked] *)
Definition complete_admission_request (a : Z) (r : SubscriptionAdmissionResult) s : Runtime :=
  match requests s !! a with
  | Some q =>
      match admission_result q with
      | Some _ => s
      | None =>
          let count := Nat.pred (pending_admission_count s) in
          s <| requests := <[a := q <| admission_result := Some r |>]> (requests s) |>
            <| pending_admission_count := count |>
            <| observation ::= λ o, o <| obs_pending_admission_count := count |> |>
      end
  | None => s
  end.

Definition refuse (a : Z) (e : SubscriptionAdmissionError) : Owner () :=
  modify (complete_admission_request a (AdmissionRefused e)).

(** The check made twice by [perform_admission_request], under the lock. *)
Definition admission_gate s : option SubscriptionAdmissionError :=
  if negb (publication_admission_open s) || publication_shutdown_requested s
     || stop_requested s || stopped s then Some SaShuttingDown
  else if negb (live_gate s) then Some SaNotLive else None.

(** ["ob-" + std::to_string(next_subscription_id_)] *)
Definition order_book_subscription_id (n : Z) : string := "ob-" +:+ pretty (Z.to_N n).

(** The last section of [perform_admission_request]: the gate again, then the
    commit. *)
Definition commit_admission (a address : Z)
  (c : SubscriberChannel.Channel LocalOrderBookSnapshot) s : Runtime :=
  match admission_gate s with
  | Some e => complete_admission_request a (AdmissionRefused e) s
  | None =>
      let s := s <| store ::= <[address := c]> |> <| subscribers ::= λ l, l ++ [address] |>
                 <| next_subscription_id ::= u64_succ |> in
      complete_admission_request a (AcceptedSubscription address owner_thread)
        (s <| observation ::= λ o,
                o <| obs_resident_subscription_count := length (subscribers s) |>
                  <| obs_last_publication_thread_id := owner_thread |> |>)
  end.

(** The channel of a new subscription with its two initial records; the error is
    the value of [catch (...)] or of the failed [stage_initial]. *)
Definition build_channel (sub : ValidatedOrderBookSubscription) (number : Z)
  (capacity : nat) (generation : option Z) (at_time : PublicationTime)
  (snapshot : LocalOrderBookSnapshot) (accepted_at snapshot_at : option Z)
  : SubscriberChannel.Channel LocalOrderBookSnapshot + SubscriptionAdmissionError :=
  let id := order_book_subscription_id number in
  match SubscriberChannel.make id (sub_gateway_instance_id sub) capacity, accepted_at, snapshot_at with
  | Some c, Some a1, Some a2 =>
      let '(c', staged) :=
        SubscriberChannel.stage_initial
          (Some (SubscriberChannel.make_accepted_record (sub_request_id sub) id
                   (sub_gateway_instance_id sub) at_time a1))
          (Some (SubscriberChannel.make_snapshot_record snapshot generation at_time a2)) c in
      if staged then inl c' else inr SaActiveLimit
  | _, _, _ => inr SaInternalError
  end.

Definition requested_depth_limit (sub : ValidatedOrderBookSubscription)
  : option DepthLimit + SubscriptionAdmissionError :=
  match sub_depth_limit sub with
  | None => inl None
  | Some n =>
      match depth_limit_create n with
      | inl l => inl (Some l)
      | inr _ => inr SaInvalidDepthLimit
      end
  end.

(** The [try] block of [perform_admission_request]. *)
Definition admit_with_snapshot (a : Z) (sub : ValidatedOrderBookSubscription)
  (limit : option DepthLimit) (at_time : PublicationTime) : Owner () :=
  snapshot ← read (λ s, make_local_order_book_snapshot (projection s) (expected_identity s)
                     (MkSnapshotContext "gateway-g7-publication" "1.0.0" (utc_ns at_time)
                        (monotonic_ns at_time)) limit);
  match snapshot with
  | Threw => refuse a SaInternalError
  | Returned (inr failure) =>
      refuse a (if is_invalid_depth_limit failure then SaInvalidDepthLimit else SaInternalError)
  | Returned (inl snap) =>
      channel_at ← allocate;
      accepted_at ← allocate;
      snapshot_at ← allocate;
      built ← read (λ s, build_channel sub (next_subscription_id s)
                       (ordinary_queue_capacity (publication (limits s)))
                       (current_projection_generation s) at_time snap accepted_at snapshot_at);
      match channel_at, built with
      | None, _ => refuse a SaInternalError
      | Some _, inr e => refuse a e
      | Some address, inl c => modify (commit_admission a address c)
      end
  end.

(** [perform_admission_request] *)
Definition perform_admission_request (a : Z) (sub : ValidatedOrderBookSubscription)
  : Owner () :=
  sweep_closed_subscribers ;;
  refused ← atomically (λ s,
    match admission_gate s with
    | Some e => (complete_admission_request a (AdmissionRefused e) s, true)
    | None => (s, false)
    end);
  if refused : bool then mret () else
  full ← read (λ s, maximum_active_subscriptions (publication (limits s)) <=? length (subscribers s));
  if full : bool then refuse a SaActiveLimit else
  match requested_depth_limit sub with
  | inr e => refuse a e
  | inl limit =>
      published_at ← sample_publication_time;
      match published_at with
      | None => refuse a SaClockError
      | Some at_time =>
          exhausted ← read (λ s, (next_subscription_id s =? u64_max)%Z);
          if exhausted : bool then refuse a SaIdExhausted
          else admit_with_snapshot a sub limit at_time
      end
  end.

(** [perform_reset_request] *)
Definition finish_reset (r : RebootstrapResetResult) s : Runtime :=
  match reset_request s with
  | Some q => s <| reset_request := Some (q <| reset_result := Some r |>) |>
  | None => s
  end.

(** The first section: the kind, when the request is still valid. *)
Definition accept_reset s : Runtime * option ResetKind :=
  match reset_request s with
  | None => (s, None)
  | Some q =>
      let valid :=
        match reset_kind q with
        | ResetRecovery => bool_decide (state s = RsFaulted) || bool_decide (state s = RsNeedsResync)
        | ResetPlanned => live_gate s
        end in
      if valid then (s, Some (reset_kind q)) else (finish_reset RrInvalidState s, None)
  end.

Definition reset_commit s : Runtime :=
  let s := s <| observation ::= λ o,
        o <| obs_last_gap := None |> <| obs_last_install := None |> <| obs_last_apply := None |>
          <| obs_last_applied_depth := None |> <| obs_adapter_error := None |>
          <| obs_fault_reason := None |> <| obs_last_update_id := None |>
          <| obs_current_projection_generation := None |> <| obs_bootstrap_occupancy := 0 |>
          <| obs_last_reset_thread_id := owner_thread |> <| obs_reset_count ::= u64_succ |> |> in
  publish_tickets_locked
    (set_state RsBuffering (refresh_projection_observation_locked s) <| accepting := true |>).

Definition reset_failed s : Runtime :=
  set_state RsFaulted
    (s <| accepting := false |>
       <| observation ::= λ o, o <| obs_fault_reason := Some FrInternalError |> |>).

Definition perform_reset_request : Owner () :=
  accepted ← atomically accept_reset;
  match accepted with
  | None => mret ()
  | Some kind =>
      generation ← read current_projection_generation;
      match kind with
      | ResetPlanned =>
          terminalize_active_subscribers CONSUMER_GAP_REASON_CONNECTION_GENERATION_CHANGED
            RECOVERY_ACTION_RESUBSCRIBE generation
      | ResetRecovery =>
          terminalize_active_subscribers CONSUMER_GAP_REASON_RESUME_NOT_AVAILABLE
            RECOVERY_ACTION_REQUEST_NEW_SNAPSHOT generation
      end ;;
      cleared ← atomically (λ s, let '(p, r) := reset (projection s) in
                                 (s <| projection := p |>, r));
      match cleared with
      | Threw => modify reset_failed ;; modify (finish_reset RrInternalError)
      | Returned _ =>
          modify (λ s, s <| bootstrap := [] |> <| current_projection_generation := None |>) ;;
          modify reset_commit ;; modify (finish_reset RrReset)
      end
  end.

(** [complete_snapshot_request] and [perform_snapshot_request] *)
Definition complete_snapshot_request (r : SnapshotResult) s : Runtime :=
  match snapshot_request s with
  | Some q => s <| snapshot_request := Some (q <| snapshot_result := Some r |>) |>
  | None => s
  end.

Definition perform_snapshot_request : Owner () :=
  live ← read (λ s, bool_decide (state s = RsLive));
  if negb live then modify (complete_snapshot_request (SnapError SeNotLive)) else
  sample ← read_clock;
  match sample with
  | None => modify (complete_snapshot_request (SnapError SeClockError))
  | Some c =>
      snapshot ← read (λ s, make_local_order_book_snapshot (projection s) (expected_identity s)
                         (MkSnapshotContext "gateway-g3-runtime" "1.0.0" (sample_utc_ns c)
                            (Some (sample_monotonic_ns c))) None);
      modify (complete_snapshot_request
        (match snapshot with
         | Threw => SnapError SeInternalError
         | Returned (inr e) => SnapAdapterError e
         | Returned (inl snap) => SnapCaptured (MkCapturedSnapshot snap c owner_thread)
         end))
  end.

(** ** The loop *)

Definition snapshot_ready_locked s : bool :=
  match snapshot_request s with
  | Some q => negb (bool_decide (is_Some (snapshot_result q)))
              && (snapshot_target q <=? processed_ticket s)%Z
  | None => false
  end.

Definition reset_ready_locked s : bool :=
  match reset_request s with
  | Some q => negb (bool_decide (is_Some (reset_result q)))
              && (reset_target q <=? processed_ticket s)%Z
  | None => false
  end.

Definition admission_ready_locked s : bool :=
  match admission_requests s with
  | a :: _ =>
      match requests s !! a with
      | Some q => (admission_target q <=? processed_ticket s)%Z
      | None => false
      end
  | [] => false
  end.

(** What the owner took from the shared state in one section. *)
Inductive OwnerTask : Type :=
| TaskBlocked
| TaskPublicationShutdown
| TaskFault (reason : FaultReason)
| TaskReset
| TaskAdmission (request : Z) (sub : ValidatedOrderBookSubscription)
| TaskSnapshot
| TaskSweep
| TaskItem (item : IngressItem)
| TaskExit.

Definition shutdown_pending s : bool :=
  publication_shutdown_requested s && negb (publication_shutdown_completed s).

(** The predicate of the owner's wait, and the [continue] of a paused owner. *)
Definition owner_awake s : bool :=
  stop_requested s || shutdown_pending s ||
  (negb (owner_paused s) &&
   (bool_decide (is_Some (pending_fault s)) || reset_ready_locked s || admission_ready_locked s
    || snapshot_ready_locked s || publication_removal_pending s
    || negb (bool_decide (ingress s = [])))).

Definition owner_take s : Runtime * OwnerTask :=
  if negb (owner_awake s) then (s, TaskBlocked)
  else if shutdown_pending s then (s, TaskPublicationShutdown)
  else
    match pending_fault s with
    | Some reason => (s <| pending_fault := None |>, TaskFault reason)
    | None =>
        if reset_ready_locked s then (s, TaskReset)
        else if admission_ready_locked s then
          match admission_requests s with
          | a :: rest =>
              match requests s !! a with
              | Some q => (s <| admission_requests := rest |>, TaskAdmission a (subscription q))
              | None => (s, TaskBlocked)
              end
          | [] => (s, TaskBlocked)
          end
        else if snapshot_ready_locked s then (s, TaskSnapshot)
        else if publication_removal_pending s
        then (s <| publication_removal_pending := false |>, TaskSweep)
        else
          match ingress s with
          | item :: rest =>
              (s <| ingress := rest |>
                 <| observation ::= λ o, o <| obs_ingress_occupancy := length rest |> |>,
               TaskItem item)
          | [] => if stop_requested s then (s, TaskExit) else (s, TaskBlocked)
          end
    end.

Definition run_task (task : OwnerTask) : Owner () :=
  match task with
  | TaskBlocked | TaskExit => mret ()
  | TaskPublicationShutdown => perform_publication_shutdown_control
  | TaskFault reason => transition_to_fault reason None
  | TaskReset => perform_reset_request
  | TaskAdmission a sub => perform_admission_request a sub
  | TaskSnapshot => perform_snapshot_request
  | TaskSweep => sweep_closed_subscribers
  | TaskItem item => process_item item
  end.

(** [owner_loop]: the prologue, one iteration (the answer is [false] at [break])
    and the epilogue. *)
Definition owner_prologue : Owner () :=
  modify (λ s,
    refresh_projection_observation_locked
      (set_state RsBuffering
         (s <| observation ::= λ o, o <| obs_owner_thread_id := owner_thread |> |>))
      <| owner_ready := true |>).

Definition owner_iteration : Owner bool :=
  task ← atomically owner_take;
  match task with
  | TaskExit => mret false
  | _ => run_task task ;; mret true
  end.

Definition fail_reset_request s : Runtime :=
  match reset_request s with
  | Some q =>
      match reset_result q with
      | None => finish_reset RrStopped s
      | Some _ => s
      end
  | None => s
  end.

Definition owner_epilogue : Owner () :=
  modify (λ s,
    complete_all_admissions_locked SaStopped
      (fail_reset_request
         (fail_snapshot_request SeStopped
            (set_state RsStopped (refresh_projection_observation_locked s))))) ;;
  close_all_subscribers_for_shutdown.

(** The loop for a bounded number of iterations, run alone. *)
Fixpoint owner_iterations (n : nat) : Owner bool :=
  match n with
  | O => mret true
  | S n => continue ← owner_iteration; if continue : bool then owner_iterations n else mret false
  end.
End Owner.
End Impl.
