(* ===== verification/RuntimeInvariants.v ===== *)
(** * RuntimeInvariants: what holds while callers, handlers and the owner interleave

    [runtime_step] runs the owner's program section by section and lets any caller
    or handler act between two sections.  [env_rely] states what those may do to
    the fields the owner relies on, [runtime_inv] is the invariant, and
    [Programs.safe] carries it through the owner's code. *)

From stdpp Require Import sorting.
From S2P Require Import Prelude Ring Wire Session OrderBookPublication.
From S2P Require Import OrderBookSession Programs Projection MarketRuntime.
Import Impl.

Open Scope gateway_scope.

Section Model.
Context `{W : WireEnums} `{L : ProjectionLibrary}.
Context (clock : nat → option ClockSample) (alloc_ok : nat → bool).
Abbreviation Channel := (SubscriberChannel.Channel LocalOrderBookSnapshot).
Implicit Types (s : Runtime) (c : Channel).

(** ** The environment of the owner *)

(** A handler's call on a channel it holds. *)
Inductive subscriber_call : Channel → Channel → Prop :=
| subscriber_acknowledges c p :
    subscriber_call c (fst (SubscriberChannel.acknowledge p c))
| subscriber_closes c : subscriber_call c (SubscriberChannel.close_from_writer c).

(** One critical section of a caller.  Ticket numbers are taken not to wrap:
    fewer than [2^64] inputs are submitted. *)
Inductive caller_step : Runtime → Runtime → Prop :=
| call_submit pushed i s :
    (last_admitted_ticket s < u64_max)%Z → caller_step s (fst (submit pushed i s))
| call_observe target ready cancelled s :
    caller_step s (fst (observe_finish target ready cancelled s))
| call_wait ready cancelled s : caller_step s (fst (wait_finish ready cancelled s))
| call_reset s : caller_step s (fst (reset_for_rebootstrap s))
| call_planned_reset s : caller_step s (fst (reset_live_for_planned_rebootstrap s))
| call_reset_take s s' r : reset_take s = Some (s', r) → caller_step s s'
| call_capture s : caller_step s (fst (capture_snapshot s))
| call_snapshot_take s s' r : snapshot_take s = Some (s', r) → caller_step s s'
| call_admit a sub s :
    (∀ x, a = Some x → requests s !! x = None) →
    caller_step s (fst (admit_order_book_subscription a sub s))
| call_notify s : caller_step s (notify_subscriber_closed s)
| call_close_admission s : caller_step s (close_publication_admission s)
| call_shutdown s : caller_step s (fst (shutdown_publication s))
| call_stop s : caller_step s (fst (stop_begin s))
| call_pause s : caller_step s (pause_owner_for_testing s)
| call_release s : caller_step s (release_owner_for_testing s)
| call_channel a c c' s :
    store s !! a = Some c → subscriber_call c c' →
    caller_step s (s <| store ::= <[a := c']> |>).

(** The owner thread: not created, somewhere in its loop, past its loop, or
    finished. *)
Inductive OwnerThread : Type :=
| OwnerNone
| OwnerRunning (p : prog Runtime bool)
| OwnerLeaving (p : prog Runtime ())
| OwnerExited.

Record RuntimeWorld : Type := MkRuntimeWorld {
  rt : Runtime;
  owner : OwnerThread
}.

Definition owner_start : prog Runtime bool := owner_prologue ;; mret true.

Inductive runtime_step : RuntimeWorld → RuntimeWorld → Prop :=
| step_caller s s' o :
    caller_step s s' → runtime_step (MkRuntimeWorld s o) (MkRuntimeWorld s' o)
| step_start created s s' o :
    start created s = (s', Returned SrStarted) →
    runtime_step (MkRuntimeWorld s o) (MkRuntimeWorld s' (OwnerRunning owner_start))
| step_stop_joined s :
    stop_requested s = true →
    runtime_step (MkRuntimeWorld s OwnerExited) (MkRuntimeWorld (stop_end s) OwnerExited)
| step_owner s f k :
    runtime_step (MkRuntimeWorld s (OwnerRunning (Step f k)))
                 (MkRuntimeWorld (f s) (OwnerRunning (k s)))
| step_owner_loops s :
    runtime_step (MkRuntimeWorld s (OwnerRunning (Done true)))
                 (MkRuntimeWorld s (OwnerRunning (owner_iteration clock alloc_ok)))
| step_owner_breaks s :
    runtime_step (MkRuntimeWorld s (OwnerRunning (Done false)))
                 (MkRuntimeWorld s (OwnerLeaving owner_epilogue))
| step_owner_leaves s f k :
    runtime_step (MkRuntimeWorld s (OwnerLeaving (Step f k)))
                 (MkRuntimeWorld (f s) (OwnerLeaving (k s)))
| step_owner_exits s u :
    runtime_step (MkRuntimeWorld s (OwnerLeaving (Done u)))
                 (MkRuntimeWorld s OwnerExited).

Definition runtime_start (w : RuntimeWorld) : Prop :=
  ∃ lim identity fresh paused,
    make lim true identity fresh paused = Some (rt w) ∧ owner w = OwnerNone.

(** ** The invariant *)

(** [t] is a ticket already handed out and older than every queued one. *)
Definition ticket_below (t : Z) s : Prop :=
  (t <= last_admitted_ticket s)%Z ∧ Forall (λ i, (t < ticket i)%Z) (ingress s).

(** A faulted or out-of-sync runtime refuses inputs, and has thrown away what was
    queued; only a reset that failed inside the library leaves the queue alone. *)
Definition fault_closed s : Prop :=
  (state s = RsFaulted ∨ state s = RsNeedsResync → accepting s = false) ∧
  (state s = RsNeedsResync ∨
   (state s = RsFaulted ∧ obs_fault_reason (observation s) ≠ Some FrInternalError) →
   ingress s = []).

Record runtime_inv s : Prop := {
  ri_started : started s = true;
  ri_ingress : length (ingress s) ≤ ingress_capacity (limits s);
  ri_bootstrap : length (bootstrap s) ≤ bootstrap_capacity (limits s);
  ri_sorted : StronglySorted (λ i j, (ticket i < ticket j)%Z) (ingress s);
  ri_last : Forall (λ i, (ticket i <= last_admitted_ticket s)%Z) (ingress s);
  ri_processed : ticket_below (processed_ticket s) s;
  ri_range : (0 <= last_admitted_ticket s <= u64_max)%Z;
  ri_fault : fault_closed s;
  ri_reason : obs_fault_reason (observation s) = None ∨ state s = RsFaulted ∨
      state s = RsStopping ∨ state s = RsStopped;
  ri_live : state s = RsLive → obs_projection_status (observation s) = Synchronized;
  ri_pending : length (admission_requests s) ≤ pending_admission_count s
      ≤ pending_admission_capacity (publication (limits s));
  ri_nodup : NoDup (subscribers s);
  ri_limit : length (subscribers s) ≤ maximum_active_subscriptions (publication (limits s));
  ri_resident : obs_resident_subscription_count (observation s)
      ≤ maximum_active_subscriptions (publication (limits s));
  ri_stored : ∀ a, a ∈ subscribers s → is_Some (store s !! a);
  ri_address : ∀ a c, store s !! a = Some c → (a < allocations s)%Z;
  ri_next : (1 <= next_subscription_id s <= u64_max)%Z;
  ri_id : ∀ a c, store s !! a = Some c → ∃ k, (1 <= k < next_subscription_id s)%Z ∧
      SubscriberChannel.subscription_id c = order_book_subscription_id k;
  ri_unique : ∀ a b c d, store s !! a = Some c → store s !! b = Some d →
      SubscriberChannel.subscription_id c = SubscriberChannel.subscription_id d → a = b
}.

(** Before [start]: nothing queued, nothing published. *)
Record fresh_inv s : Prop := {
  fi_started : started s = false;
  fi_ingress : ingress s = [];
  fi_bootstrap : bootstrap s = [];
  fi_tickets : last_admitted_ticket s = 0%Z ∧ processed_ticket s = 0%Z;
  fi_state : state s = RsConstructed ∨ (state s = RsStopped ∧ stopped s = true);
  fi_reason : obs_fault_reason (observation s) = None;
  fi_resident : obs_resident_subscription_count (observation s) = 0;
  fi_admissions : admission_requests s = [] ∧ pending_admission_count s = 0;
  fi_subscribers : subscribers s = [] ∧ store s = ∅ ∧ next_subscription_id s = 1%Z
}.

(** Stores whose channels keep their identity. *)
Definition same_ids (st st' : gmap Z Channel) : Prop :=
  ∀ a, option_Forall2 (λ c c', SubscriberChannel.subscription_id c'
                               = SubscriberChannel.subscription_id c) (st !! a) (st' !! a).

(** What callers and handlers leave alone. *)
Record env_rely s s' : Prop := {
  er_limits : limits s' = limits s;
  er_identity : expected_identity s' = expected_identity s;
  er_projection : projection s' = projection s;
  er_bootstrap : bootstrap s' = bootstrap s;
  er_generation : current_projection_generation s' = current_projection_generation s;
  er_subscribers : subscribers s' = subscribers s;
  er_next : next_subscription_id s' = next_subscription_id s;
  er_allocations : allocations s' = allocations s;
  er_store : same_ids (store s) (store s');
  er_reason : obs_fault_reason (observation s') = obs_fault_reason (observation s);
  er_pending : pending_admission_count s + length (admission_requests s')
               ≤ pending_admission_count s' + length (admission_requests s);
  er_tickets : ∀ t, ticket_below t s → ticket_below t s'
}.

(** ** The environment keeps the invariant and its promise *)

#[export] Instance same_ids_preorder : PreOrder same_ids.
Proof.
  split; [intros st a; destruct (st !! a); by constructor|].
  intros x y z H1 H2 a. specialize (H1 a). specialize (H2 a).
  destruct H1; inversion H2; constructor. congruence.
Qed.

#[export] Instance env_rely_preorder : PreOrder env_rely.
Proof.
  split.
  - intros s. split; done.
  - intros x y z [] []. split; try congruence; [by etrans|lia|auto].
Qed.

(** States that agree on everything the invariant and the rely talk about. *)
Record same_core s s' : Prop := {
  sc_limits : limits s' = limits s;
  sc_identity : expected_identity s' = expected_identity s;
  sc_projection : projection s' = projection s;
  sc_bootstrap : bootstrap s' = bootstrap s;
  sc_generation : current_projection_generation s' = current_projection_generation s;
  sc_subscribers : subscribers s' = subscribers s;
  sc_next : next_subscription_id s' = next_subscription_id s;
  sc_allocations : allocations s' = allocations s;
  sc_store : store s' = store s;
  sc_ingress : ingress s' = ingress s;
  sc_last : last_admitted_ticket s' = last_admitted_ticket s;
  sc_processed : processed_ticket s' = processed_ticket s;
  sc_accepting : accepting s' = true → accepting s = true;
  sc_started : started s' = started s;
  sc_state : state s' = state s;
  sc_reason : obs_fault_reason (observation s') = obs_fault_reason (observation s);
  sc_status : obs_projection_status (observation s') = obs_projection_status (observation s);
  sc_resident : obs_resident_subscription_count (observation s')
                = obs_resident_subscription_count (observation s);
  sc_pending : pending_admission_count s' = pending_admission_count s;
  sc_requests : admission_requests s' = admission_requests s
}.

Lemma not_true_false (b c : bool) : (b = true → c = true) → c = false → b = false.
Proof. destruct b, c; naive_solver. Qed.

Lemma same_core_inv s s' : same_core s s' → runtime_inv s → runtime_inv s'.
Proof.
  intros [] [].
  assert (Hb : ∀ t, ticket_below t s → ticket_below t s').
  { intros t. unfold ticket_below. congruence. }
  split; try congruence.
  - by rewrite sc_ingress0, sc_last0.
  - rewrite sc_processed0. auto.
  - unfold fault_closed. rewrite sc_state0, sc_ingress0, sc_reason0. destruct ri_fault0 as [Hfa Hfb].
    split; [|done]. intros H. eapply not_true_false; eauto.
  - rewrite sc_state0, sc_status0. done.
  - by rewrite sc_subscribers0, sc_store0.
  - by rewrite sc_store0, sc_allocations0.
  - by rewrite sc_store0, sc_next0.
  - by rewrite sc_store0.
Qed.

Lemma same_core_rely s s' : same_core s s' → env_rely s s'.
Proof.
  intros []. split; try congruence.
  - by rewrite sc_store0.
  - rewrite sc_pending0, sc_requests0. lia.
  - unfold ticket_below. congruence.
Qed.

Lemma submit_inv pushed i s :
  (last_admitted_ticket s < u64_max)%Z → runtime_inv s →
  runtime_inv (fst (submit pushed i s)) ∧ env_rely s (fst (submit pushed i s)).
Proof.
  intros Hw Hi. unfold submit.
  destruct (stopped s); [by split|]. destruct (negb (started s)); [by split|].
  destruct (stop_requested s); [by split|].
  destruct (accepting s) eqn:Hacc; simpl; [|by split].
  destruct (bool_decide (length (ingress s) = _)) eqn:Hfull; simpl.
  { pose proof (λ H, same_core_inv s (s <| accepting := false |>
      <| pending_fault := Some IngressOverflow |>) H Hi) as H1.
    split; [apply H1; by split|]. apply same_core_rely. by split. }
  apply bool_decide_eq_false in Hfull.
  assert (Hnf : ¬ (state s = RsFaulted ∨ state s = RsNeedsResync)).
  { intros H. destruct (ri_fault _ Hi) as [Ha _]. specialize (Ha H). congruence. }
  destruct Hi. unfold ticket_below in *. destruct ri_processed0 as [Hp1 Hp2].
  assert (Hs : u64_succ (last_admitted_ticket s) = (last_admitted_ticket s + 1)%Z)
    by (apply u64_succ_small; lia).
  assert (Hl : Forall (λ j, (ticket j <= last_admitted_ticket s + 1)%Z) (ingress s))
    by (eapply Forall_impl; [exact ri_last0|]; simpl; intros; lia).
  assert (Hbelow : ∀ t, ticket_below t s →
    (t <= last_admitted_ticket s + 1)%Z ∧ Forall (λ j, (t < ticket j)%Z) (ingress s)
    ∧ (t < last_admitted_ticket s + 1)%Z) by (intros t [? ?]; split; [lia|split; [done|lia]]).
  destruct pushed; simpl; (split; [split|split]); unfold ticket_below; simpl; rewrite ?Hs; auto;
    try lia; try done.
  - len.
  - apply StronglySorted_app_2; [|done|by repeat constructor].
    intros x y Hx ->%list_elem_of_singleton. simpl.
    rewrite Forall_forall in ri_last0. specialize (ri_last0 x Hx). lia.
  - apply Forall_snoc; [done|]. simpl. lia.
  - split; [lia|]. apply Forall_snoc; [done|]. simpl. lia.
  - split; [intros H; by destruct Hnf|].
    intros [H|[H _]]; destruct Hnf; [by right|by left].
  - intros t Ht. destruct (Hbelow t Ht) as (? & ? & ?). split; [done|].
    apply Forall_snoc; [done|]. simpl. lia.
  - split; [lia|done].
  - intros t Ht. by destruct (Hbelow t Ht) as (? & ? & ?).
Qed.

Lemma same_ids_insert st a c c' :
  st !! a = Some c →
  SubscriberChannel.subscription_id c' = SubscriberChannel.subscription_id c →
  same_ids st (<[a := c']> st).
Proof.
  intros Ha Hs b. destruct (decide (a = b)) as [<-|].
  - rewrite lookup_insert_eq, Ha. by constructor.
  - rewrite lookup_insert_ne by done. destruct (st !! b); by constructor.
Qed.

Lemma same_ids_alter st a f :
  (∀ c, SubscriberChannel.subscription_id (f c) = SubscriberChannel.subscription_id c) →
  same_ids st (alter f a st).
Proof.
  intros Hf b. destruct (decide (a = b)) as [<-|].
  - rewrite lookup_alter_eq. destruct (st !! a); by constructor.
  - rewrite lookup_alter_ne by done. destruct (st !! b); by constructor.
Qed.

Lemma same_ids_lookup st st' a c' :
  same_ids st st' → st' !! a = Some c' →
  ∃ c, st !! a = Some c ∧ SubscriberChannel.subscription_id c' = SubscriberChannel.subscription_id c.
Proof. intros H Ha. specialize (H a). rewrite Ha in H. inversion H; eauto. Qed.

(** Replacing channels by channels of the same identity. *)
Lemma store_inv st' s :
  same_ids (store s) st' → runtime_inv s → runtime_inv (s <| store := st' |>).
Proof.
  intros Hst []. split; simpl; auto.
  - intros a Ha. destruct (ri_stored0 a Ha) as [c Hc]. specialize (Hst a). rewrite Hc in Hst.
    inversion Hst. eauto.
  - intros a c' Hc'. destruct (same_ids_lookup _ _ _ _ Hst Hc') as (c & Hc & _). eauto.
  - intros a c' Hc'. destruct (same_ids_lookup _ _ _ _ Hst Hc') as (c & Hc & ->). eauto.
  - intros a b c d Hc Hd.
    destruct (same_ids_lookup _ _ _ _ Hst Hc) as (c0 & Hc0 & ->).
    destruct (same_ids_lookup _ _ _ _ Hst Hd) as (d0 & Hd0 & ->). eauto.
Qed.

Lemma subscriber_call_id c c' :
  subscriber_call c c' →
  SubscriberChannel.subscription_id c' = SubscriberChannel.subscription_id c.
Proof.
  intros Hcall. destruct Hcall; [|done].
  unfold SubscriberChannel.acknowledge, SubscriberChannel.ring_pop_locked. break_all; done.
Qed.

Lemma stop_begin_inv s :
  runtime_inv s → runtime_inv (fst (stop_begin s)) ∧ env_rely s (fst (stop_begin s)).
Proof.
  intros Hi. unfold stop_begin. destruct (stopped s); [by split|].
  rewrite (ri_started _ Hi). simpl. split.
  - destruct Hi. unfold ticket_below, state, set_state in *. case_match eqn:E; simpl in *.
    + rewrite orb_true_iff, !bool_decide_eq_true in E.
      split; simpl; auto; try done. destruct ri_fault0. by split.
    + split; simpl; auto; try done.
      split; [by intros [|]|by intros [|[? _]]].
  - unfold set_state. case_match; by split.
Qed.

Lemma admit_request_inv a sub s :
  runtime_inv s → runtime_inv (fst (admit_order_book_subscription a sub s))
               ∧ env_rely s (fst (admit_order_book_subscription a sub s)).
Proof.
  intros Hi. unfold admit_order_book_subscription. repeat (case_match; [by split|]).
  case_match; [|by split]. apply bool_decide_eq_false in H3.
  destruct Hi. simpl. split; split; simpl; auto; try done; len.
Qed.

Lemma caller_step_inv s s' :
  runtime_inv s → caller_step s s' → runtime_inv s' ∧ env_rely s s'.
Proof.
  intros Hi Hstep.
  assert (Hcore : same_core s s' → runtime_inv s' ∧ env_rely s s').
  { intros H. split; [by eapply same_core_inv|by apply same_core_rely]. }
  destruct Hstep; try (apply Hcore; by split).
  - by apply submit_inv.
  - apply Hcore. unfold observe_finish. repeat case_match; by split.
  - apply Hcore. unfold wait_finish. case_match; by split.
  - apply Hcore. unfold reset_for_rebootstrap. repeat case_match; by split.
  - apply Hcore. unfold reset_live_for_planned_rebootstrap. repeat case_match; by split.
  - apply Hcore. unfold reset_take in *. repeat case_match; simplify_eq; by split.
  - apply Hcore. unfold capture_snapshot. repeat case_match; by split.
  - apply Hcore. unfold snapshot_take in *. repeat case_match; simplify_eq; by split.
  - by apply admit_request_inv.
  - apply Hcore. unfold shutdown_publication. simpl. repeat case_match; by split.
  - by apply stop_begin_inv.
  - apply Hcore. unfold pause_owner_for_testing. repeat case_match; by split.
  - assert (Hs : same_ids (store s) (<[a := c']> (store s)))
      by (eapply same_ids_insert; eauto using subscriber_call_id).
    split; [by apply store_inv|]. split; simpl; auto.
Qed.

(** ** The owner's guarantee

    Most of the owner's programs are [sound]: every section keeps the invariant,
    and from beginning to end the run changes the state only as [guar] allows. *)

Record guar s s' : Prop := {
  gu_tickets : ∀ t, ticket_below t s → ticket_below t s';
  gu_limits : limits s' = limits s;
  gu_next : next_subscription_id s' = next_subscription_id s;
  gu_pending : pending_admission_count s + length (admission_requests s')
               ≤ pending_admission_count s' + length (admission_requests s);
  gu_alloc : allocations s ≤ allocations s';
  gu_store : ∀ a, store s !! a = None → store s' !! a = None;
  gu_subs : length (subscribers s') ≤ length (subscribers s)
}.

#[export] Instance guar_preorder : PreOrder guar.
Proof.
  split; [intros s; split; auto|]. intros x y z [] []. split; try congruence; try lia; auto.
Qed.

Lemma env_guar s s' : env_rely s s' → guar s s'.
Proof.
  intros []. split; auto; [lia| |by rewrite er_subscribers0].
  intros a Ha. specialize (er_store0 a). rewrite Ha in er_store0. by inversion er_store0.
Qed.

Lemma same_core_guar s s' : same_core s s' → guar s s'.
Proof. intros. by apply env_guar, same_core_rely. Qed.

Definition sound {A} (p : prog Runtime A) : Prop :=
  ∀ s, safe runtime_inv env_rely p (λ _, guar s) s.

Lemma sound_ret {A} (a : A) : sound (mret a).
Proof. intros s. simpl. reflexivity. Qed.

Lemma safe_guar {A} (p : prog Runtime A) s0 s :
  sound p → guar s0 s → safe runtime_inv env_rely p (λ _, guar s0) s.
Proof.
  intros Hp Hg. eapply safe_mono; [|apply Hp]. intros ? s' Hs'. by etrans.
Qed.

Lemma sound_bind {A B} (p : prog Runtime A) (k : A → prog Runtime B) :
  sound p → (∀ a, sound (k a)) → sound (p ≫= k).
Proof.
  intros Hp Hk s. eapply safe_bind; [apply Hp|]. intros a s' Hs'. by apply safe_guar.
Qed.

Lemma sound_atomically {A} (f : Runtime → Runtime * A) :
  (∀ s, runtime_inv s → runtime_inv (fst (f s)) ∧ guar s (fst (f s))) → sound (atomically f).
Proof.
  intros Hf s. apply safe_atomically. intros s' HR HI. destruct (Hf s' HI).
  split; [done|]. etrans; [by apply env_guar|done].
Qed.

Lemma sound_modify (f : Runtime → Runtime) :
  (∀ s, runtime_inv s → runtime_inv (f s) ∧ guar s (f s)) → sound (modify f).
Proof.
  intros Hf s. apply safe_modify. intros s' HR HI. destruct (Hf s' HI).
  split; [done|]. etrans; [by apply env_guar|done].
Qed.

Lemma sound_read {A} (f : Runtime → A) : sound (read f).
Proof. intros s. apply safe_read. intros. by apply env_guar. Qed.

(** A section that touches nothing the invariant is about. *)
Lemma sound_core (f : Runtime → Runtime) : (∀ s, same_core s (f s)) → sound (modify f).
Proof.
  intros Hf. apply sound_modify. intros s Hi.
  split; [by eapply same_core_inv|by apply same_core_guar].
Qed.

Lemma sound_for_each {T} (l : list T) body :
  (∀ x, sound (body x)) → sound (for_each l body).
Proof.
  intros Hb. induction l as [|x l IH]; simpl; [apply sound_ret|]. by apply sound_bind.
Qed.

Lemma sound_for_each_while {T} (l : list T) body :
  (∀ x, sound (body x)) → sound (for_each_while l body).
Proof.
  intros Hb. induction l as [|x l IH]; simpl; [apply sound_ret|].
  apply sound_bind; [done|]. intros []; [done|apply sound_ret].
Qed.

Lemma sound_try_catch {A} (p : prog Runtime (outcome A)) h :
  sound p → sound h → sound (try_catch p h).
Proof. intros Hp Hh. apply sound_bind; [done|]. intros []; [apply sound_ret|done]. Qed.

Lemma sound_bind_throw {A B} (p : prog Runtime (outcome A)) (k : A → prog Runtime (outcome B)) :
  sound p → (∀ a, sound (k a)) → sound (bind_throw p k).
Proof. intros Hp Hk. apply sound_bind; [done|]. intros []; [done|apply sound_ret]. Qed.
End Model.

(** [sound_steps] walks through a program: binds, branches and the sections that
    touch nothing; what remains are the sub-programs and the real sections. *)
Ltac sound_steps :=
  repeat match goal with
  | |- sound (_ ≫= _) => apply sound_bind; [|intros ?]
  | |- sound (mret _) => apply sound_ret
  | |- sound (read _) => apply sound_read
  | |- sound (for_each _ _) => apply sound_for_each; intros ?
  | |- sound (for_each_while _ _) => apply sound_for_each_while; intros ?
  | |- sound (try_catch _ _) => apply sound_try_catch
  | |- sound (bind_throw _ _) => apply sound_bind_throw; [|intros ?]
  | |- sound (if ?b then _ else _) => destruct b
  | |- sound (match ?x with _ => _ end) => destruct x
  | |- sound (let '(_, _) := ?x in _) => destruct x
  | |- sound _ => solve [eauto with sound]
  | |- sound (modify _) => apply sound_core; intros ?; solve [by split]
  end.

Create HintDb sound.

Section OwnerSound.
Context `{W : WireEnums} `{L : ProjectionLibrary}.
Context (clock : nat → option ClockSample) (alloc_ok : nat → bool).
Implicit Types (s : Runtime).
Abbreviation Channel := (SubscriberChannel.Channel LocalOrderBookSnapshot).

Lemma sound_read_clock : sound (read_clock clock).
Proof.
  apply sound_atomically. intros s Hi.
  assert (same_core s (s <| clock_reads ::= Nat.succ |>)) by by split.
  split; [by eapply same_core_inv|by apply same_core_guar].
Qed.
#[local] Hint Resolve sound_read_clock : sound.

Lemma sound_allocate : sound (allocate alloc_ok).
Proof.
  apply sound_atomically. intros s []. simpl. split; [|split; simpl; auto].
  split; simpl; auto. intros a c Hc. pose proof (ri_address0 a c Hc). unfold Nat.succ. lia.
Qed.
#[local] Hint Resolve sound_allocate : sound.

Lemma sound_sample_publication_time : sound (sample_publication_time clock).
Proof. unfold sample_publication_time. sound_steps. Qed.
#[local] Hint Resolve sound_sample_publication_time : sound.

Lemma on_channel_inv f a s :
  (∀ c, SubscriberChannel.subscription_id (f c) = SubscriberChannel.subscription_id c) →
  runtime_inv s → runtime_inv (on_channel f a s) ∧ guar s (on_channel f a s).
Proof.
  intros Hf Hi. pose proof (same_ids_alter (store s) a f Hf) as Hs. split.
  - unfold on_channel. simpl. by apply store_inv.
  - split; simpl; auto. intros b Hb. specialize (Hs b). rewrite Hb in Hs. by inversion Hs.
Qed.

Lemma sound_on_channel f a :
  (∀ c, SubscriberChannel.subscription_id (f c) = SubscriberChannel.subscription_id c) →
  sound (modify (on_channel f a)).
Proof. intros Hf. apply sound_modify. intros s. by apply on_channel_inv. Qed.

(** [sweep_closed_subscribers]: the kept addresses are a sublist. *)
Lemma live_subscribers_sublist l s :
  safe runtime_inv env_rely (live_subscribers l)
    (λ kept s', kept `sublist_of` l ∧ guar s s' ∧ subscribers s' = subscribers s) s.
Proof.
  assert (Hgen : ∀ s0, guar s s0 ∧ subscribers s0 = subscribers s →
    safe runtime_inv env_rely (live_subscribers l)
      (λ kept s', kept `sublist_of` l ∧ guar s s' ∧ subscribers s' = subscribers s) s0).
  { induction l as [|a l IH]; intros s0 [Hg Hsub]; simpl; [done|].
    intros s1 HR HI. split; [done|].
    eapply safe_bind; [apply IH|].
    - split; [etrans; [done|by apply env_guar]|]. by rewrite (er_subscribers _ _ HR).
    - intros kept s2 (Hk & Hg2 & Hs2). destruct (subscriber_closed a s1); simpl;
        (split; [|done]); by constructor. }
  apply Hgen. done.
Qed.

Lemma set_subscribers_inv kept s :
  kept `sublist_of` subscribers s → runtime_inv s →
  runtime_inv (s <| subscribers := kept |>) ∧ guar s (s <| subscribers := kept |>).
Proof.
  intros Hk []. pose proof (sublist_length _ _ Hk) as Hl.
  split; split; simpl; auto; try lia.
  - by eapply sublist_NoDup.
  - intros a Ha. apply ri_stored0. eapply elem_of_submseteq; [exact Ha|by apply sublist_submseteq].
Qed.

(** The reported number of residents stays within the limit. *)
Lemma set_resident_inv n s :
  n ≤ maximum_active_subscriptions (publication (limits s)) → runtime_inv s →
  let s' := s <| observation ::= λ o, o <| obs_resident_subscription_count := n |> |> in
  runtime_inv s' ∧ guar s s'.
Proof. intros Hn []. split; split; simpl; auto. Qed.

Lemma sound_resident (n : Runtime → nat) :
  (∀ s, runtime_inv s → n s ≤ maximum_active_subscriptions (publication (limits s))) →
  sound (modify (λ s, s <| observation ::= λ o,
                        o <| obs_resident_subscription_count := n s |> |>)).
Proof. intros Hn. apply sound_modify. intros s Hi. apply set_resident_inv; auto. Qed.

Lemma sound_sweep : sound sweep_closed_subscribers.
Proof.
  intros s. unfold sweep_closed_subscribers.
  eapply safe_bind with (Q := λ l s', guar s s' ∧ subscribers s' = l).
  { apply safe_read. intros s' HR _. split; [by apply env_guar|done]. }
  intros l s1 [Hg1 Hl].
  eapply safe_bind; [apply live_subscribers_sublist|]. intros kept s2 (Hk & Hg2 & Hs2).
  rewrite <- Hl, <- Hs2 in Hk.
  eapply safe_bind with (Q := λ _ s', guar s s').
  - apply safe_modify. intros s3 HR HI. rewrite <- (er_subscribers _ _ HR) in Hk.
    destruct (set_subscribers_inv kept s3 Hk HI) as [Hi3 Hg3]. split; [done|].
    etrans; [done|]. etrans; [done|]. etrans; [by apply env_guar|done].
  - intros ? s3 Hg3. apply safe_guar; [|done]. apply (sound_resident (λ s, length (subscribers s))).
    by intros ? [].
Qed.
#[local] Hint Resolve sound_sweep : sound.

Lemma terminalize_id re ac g t (c : Channel) :
  SubscriberChannel.subscription_id (fst (SubscriberChannel.terminalize re ac g t c))
  = SubscriberChannel.subscription_id c.
Proof. unfold SubscriberChannel.terminalize. break_all; done. Qed.

Lemma sound_terminalize re ac g : sound (terminalize_active_subscribers clock re ac g).
Proof.
  unfold terminalize_active_subscribers. sound_steps.
  apply sound_on_channel. intros c. apply terminalize_id.
Qed.
#[local] Hint Resolve sound_terminalize : sound.

(** The sections that change the mode. *)

Lemma discard_ingress_below t s :
  Forall (λ i, (ticket i <= last_admitted_ticket s)%Z) (ingress s) → ticket_below t s →
  ticket_below t (discard_ingress_locked s).
Proof.
  intros _ [Ht Hf]. unfold discard_ingress_locked, ticket_below.
  destruct (list.last (ingress s)) as [i|] eqn:E; simpl; [|done]. split; [done|constructor].
Qed.

Lemma discard_ingress_empty s : ingress (discard_ingress_locked s) = [].
Proof.
  unfold discard_ingress_locked. destruct (list.last (ingress s)) eqn:E; [done|].
  by apply last_None.
Qed.

Lemma discard_ingress_inv s :
  runtime_inv s → runtime_inv (discard_ingress_locked s) ∧ guar s (discard_ingress_locked s).
Proof.
  intros Hi. pose proof Hi as []. split.
  - unfold discard_ingress_locked.
    destruct (list.last (ingress s)) as [i|] eqn:E; [|done].
    destruct ri_processed0 as [Hp _].
    assert (Hl : (ticket i <= last_admitted_ticket s)%Z).
    { rewrite Forall_forall in ri_last0. apply ri_last0. apply last_Some in E as (l' & ->).
      set_solver. }
    split; simpl; auto; [lia|constructor| |].
    + split; simpl; [lia|constructor].
    + destruct ri_fault0. by split.
  - split; auto.
    + intros t Ht. by apply discard_ingress_below.
    + unfold discard_ingress_locked. by case_match.
    + unfold discard_ingress_locked. by case_match.
    + unfold discard_ingress_locked. by case_match.
    + unfold discard_ingress_locked. by case_match.
    + unfold discard_ingress_locked. by case_match.
    + unfold discard_ingress_locked. by case_match.
Qed.

(** States that differ in the mode only. *)
Record same_data s s' : Prop := {
  sd_limits : limits s' = limits s;
  sd_next : next_subscription_id s' = next_subscription_id s;
  sd_started : started s' = started s;
  sd_ingress : ingress s' = ingress s;
  sd_bootstrap : length (bootstrap s') ≤ length (bootstrap s);
  sd_last : last_admitted_ticket s' = last_admitted_ticket s;
  sd_processed : processed_ticket s' = processed_ticket s;
  sd_pending : pending_admission_count s' = pending_admission_count s;
  sd_requests : admission_requests s' = admission_requests s;
  sd_subscribers : subscribers s' = subscribers s;
  sd_store : store s' = store s;
  sd_alloc : allocations s' = allocations s;
  sd_resident : obs_resident_subscription_count (observation s')
                = obs_resident_subscription_count (observation s)
}.

(** What the mode must satisfy. *)
Record mode_ok s : Prop := {
  mo_fault : fault_closed s;
  mo_reason : obs_fault_reason (observation s) = None ∨ state s = RsFaulted ∨
      state s = RsStopping ∨ state s = RsStopped;
  mo_live : state s = RsLive → obs_projection_status (observation s) = Synchronized
}.

Lemma set_mode_inv s s' :
  runtime_inv s → same_data s s' → mode_ok s' → runtime_inv s' ∧ guar s s'.
Proof.
  intros [] [El En E1 E2 E3 E4 E5 E6 E7 E8 E9 E10 E11] [].
  assert (∀ t, ticket_below t s → ticket_below t s')
    by (intros t; unfold ticket_below; by rewrite E2, E4).
  split.
  - split; rewrite ?E1, ?El, ?En, ?E4, ?E5, ?E6, ?E7, ?E8, ?E9, ?E10, ?E11; auto; rewrite ?E2; auto.
    lia.
  - split; rewrite ?E6, ?E7, ?E8, ?E9, ?E10; auto.
Qed.

Lemma discard_then_inv s s' :
  runtime_inv s → same_data (discard_ingress_locked s) s' → mode_ok s' →
  runtime_inv s' ∧ guar s s'.
Proof.
  intros Hi Hd Hm. destruct (discard_ingress_inv s Hi) as [Hi1 Hg1].
  destruct (set_mode_inv _ _ Hi1 Hd Hm) as [? ?]. split; [done|by etrans].
Qed.

Lemma fail_snapshot_core r s : same_core s (fail_snapshot_request r s).
Proof. unfold fail_snapshot_request. repeat case_match; by split. Qed.

Lemma same_core_both s s1 s2 :
  same_core s1 s2 → runtime_inv s1 ∧ guar s s1 → runtime_inv s2 ∧ guar s s2.
Proof.
  intros Hc [Hi Hg]. split; [by eapply same_core_inv|]. etrans; [done|by apply same_core_guar].
Qed.

(** [discard] after a section that leaves the queues alone. *)
Lemma discard_data s s1 :
  same_data s s1 → same_data (discard_ingress_locked s) (discard_ingress_locked s1).
Proof.
  intros []. unfold discard_ingress_locked. rewrite sd_ingress0.
  destruct (list.last (ingress s)) eqn:E; split; simpl; congruence.
Qed.

Lemma discard_state s : state (discard_ingress_locked s) = state s.
Proof. unfold discard_ingress_locked. by case_match. Qed.

Lemma discard_mode s :
  accepting s = false →
  (obs_fault_reason (observation s) = None ∨ state s = RsFaulted ∨
   state s = RsStopping ∨ state s = RsStopped) →
  (state s = RsLive → obs_projection_status (observation s) = Synchronized) →
  mode_ok (discard_ingress_locked s).
Proof.
  intros Ha Hr Hl. unfold discard_ingress_locked, state in *.
  destruct (list.last (ingress s)) eqn:E; split; simpl; auto; [by split|].
  apply last_None in E. by split.
Qed.

Lemma fault_commit_inv reason error s :
  runtime_inv s → runtime_inv (fault_commit reason error s) ∧ guar s (fault_commit reason error s).
Proof.
  intros Hi. eapply same_core_both; [apply fail_snapshot_core|].
  apply discard_then_inv; [done| |].
  - apply discard_data. split; first [reflexivity|apply Nat.le_0_l].
  - apply discard_mode; [done| |done]. by right; left.
Qed.

(** The refreshed observation with the mode of the projection. *)
Lemma publish_mode st s :
  status (projection s) = st → runtime_inv s →
  let s1 := refresh_projection_observation_locked s
              <| observation ::= λ o, o <| obs_bootstrap_occupancy := length (bootstrap s) |> |> in
  let s2 := if bool_decide (state s1 = RsFaulted) || bool_decide (state s1 = RsStopping)
               || bool_decide (state s1 = RsStopped)
            then s1 else set_state (state_for_projection st) s1 in
  same_data s s2 ∧
  (obs_fault_reason (observation s2) = None ∨ state s2 = RsFaulted ∨
   state s2 = RsStopping ∨ state s2 = RsStopped) ∧
  (state s2 = RsLive → obs_projection_status (observation s2) = Synchronized) ∧
  (state s2 = RsFaulted → state s = RsFaulted) ∧
  (state s2 = RsNeedsResync → st = PsNeedsResync) ∧ accepting s2 = accepting s ∧
  obs_fault_reason (observation s2) = obs_fault_reason (observation s).
Proof.
  intros Hst [] s1 s2. subst s2.
  assert (H1 : state s1 = state s) by done.
  assert (H2 : obs_projection_status (observation s1) = st) by done.
  assert (H3 : obs_fault_reason (observation s1) = obs_fault_reason (observation s)) by done.
  rewrite H1. destruct (_ || _ || _) eqn:E.
  - rewrite !orb_true_iff, !bool_decide_eq_true in E. rewrite H1, H3.
    split; [by split|]. naive_solver congruence.
  - rewrite !orb_false_iff, !bool_decide_eq_false in E.
    assert (H4 : state (set_state (state_for_projection st) s1) = state_for_projection st) by done.
    rewrite H4. split; [by split|]. split; [left; tauto|].
    split; [by destruct st|]. split; [by destruct st|]. split; [by destruct st|]. by split.
Qed.

Lemma publish_state_commit_inv s :
  runtime_inv s → runtime_inv (publish_state_commit (status (projection s)) s)
               ∧ guar s (publish_state_commit (status (projection s)) s).
Proof.
  intros Hi. destruct (publish_mode _ s eq_refl Hi) as (Hd & Hr & Hl & Hf & Hn & Ha & Hfr).
  unfold publish_state_commit. simpl in *.
  set (s2 := if bool_decide _ || _ || _ then _ else _) in *. clearbody s2.
  destruct (bool_decide (status (projection s) = PsNeedsResync)) eqn:E.
  - apply discard_then_inv; [done| |].
    + apply discard_data. destruct Hd. by split.
    + by apply discard_mode.
  - apply bool_decide_eq_false in E. apply set_mode_inv; [done..|].
    split; [|done|done]. destruct (ri_fault _ Hi) as [Hc Hq]. split.
    + intros [H|H]; [rewrite Ha; auto|by destruct E; apply Hn].
    + intros [H|[H Hne]]; [by destruct E; apply Hn|].
      rewrite (sd_ingress _ _ Hd). apply Hq. right. split; [auto|]. congruence.
Qed.

(** ** The owner's programs *)

Lemma sound_transition reason error : sound (transition_to_fault clock reason error).
Proof.
  unfold transition_to_fault. sound_steps. apply sound_modify, fault_commit_inv.
Qed.
#[local] Hint Resolve sound_transition : sound.

Lemma sound_publish_state : sound publish_projection_state.
Proof. apply sound_modify, publish_state_commit_inv. Qed.
#[local] Hint Resolve sound_publish_state : sound.

Lemma admit_update_id u g t al (c : Channel) :
  SubscriberChannel.subscription_id (fst (SubscriberChannel.admit_update u g t al c))
  = SubscriberChannel.subscription_id c.
Proof.
  unfold SubscriberChannel.admit_update, SubscriberChannel.ring_push_locked.
  break_all; try done; by simplify_option_eq.
Qed.

Lemma sound_admit_to u g t a : sound (admit_to alloc_ok u g t a).
Proof.
  unfold admit_to. sound_steps. apply sound_atomically. intros s Hi.
  destruct (store s !! a) as [c|] eqn:E; [|by split].
  destruct (SubscriberChannel.admit_update _ _ _ _ c) as [c' r] eqn:Ea. simpl.
  assert (Hs : same_ids (store s) (<[a := c']> (store s))).
  { eapply same_ids_insert; [done|].
    rewrite <- (admit_update_id (Some u) g t a0 c). by rewrite Ea. }
  split; [by apply store_inv|]. split; simpl; auto.
  intros b Hb. specialize (Hs b). rewrite Hb in Hs. by inversion Hs.
Qed.
#[local] Hint Resolve sound_admit_to : sound.

Lemma sound_publish_applied u g : sound (publish_applied_update clock alloc_ok u g).
Proof. unfold publish_applied_update. sound_steps. Qed.
#[local] Hint Resolve sound_publish_applied : sound.

(** The projection is not part of the invariant. *)
Lemma sound_projection {A} (f : BookProjection → BookProjection * A) :
  sound (atomically (λ s, let '(p, r) := f (projection s) in (s <| projection := p |>, r))).
Proof.
  apply sound_atomically. intros s Hi. destruct (f (projection s)) as [p r]. simpl.
  destruct Hi. split; split; simpl; auto.
Qed.
#[local] Hint Resolve sound_projection : sound.

Lemma sound_record_apply u g r : sound (modify (record_apply u g r)).
Proof. apply sound_core. intros s. unfold record_apply. case_match; by split. Qed.
#[local] Hint Resolve sound_record_apply : sound.

Lemma sound_apply_update u g : sound (apply_update clock alloc_ok u g).
Proof. unfold apply_update. sound_steps. Qed.
#[local] Hint Resolve sound_apply_update : sound.

Lemma set_bootstrap_inv b s :
  length b ≤ length (bootstrap s) → runtime_inv s →
  runtime_inv (s <| bootstrap := b |>) ∧ guar s (s <| bootstrap := b |>).
Proof. intros Hb []. split; split; simpl; auto. lia. Qed.

Lemma sound_replay n : sound (replay_bootstrap clock alloc_ok n).
Proof.
  induction n as [|n IH]; cbn [replay_bootstrap]; [apply sound_ret|].
  apply sound_bind.
  - apply sound_atomically. intros s Hi. destruct (bootstrap s) as [|u rest] eqn:E; [by split|].
    apply set_bootstrap_inv; [|done]. rewrite E. simpl. lia.
  - intros next. sound_steps.
    apply sound_modify. intros s Hi. apply set_bootstrap_inv; [simpl; lia|done].
Qed.
#[local] Hint Resolve sound_replay : sound.

Lemma sound_set_generation g :
  sound (modify (λ s, s <| current_projection_generation := g |>)).
Proof. apply sound_modify. intros s []. split; split; simpl; auto. Qed.
#[local] Hint Resolve sound_set_generation : sound.

Lemma sound_process_snapshot d g : sound (process_snapshot clock alloc_ok d g).
Proof. unfold process_snapshot. sound_steps. Qed.
#[local] Hint Resolve sound_process_snapshot : sound.

(** The push of [process_depth_update] stays within the capacity that was checked. *)
Lemma sound_process_depth u g : sound (process_depth_update clock alloc_ok u g).
Proof.
  unfold process_depth_update. apply sound_bind; [apply sound_read|]. intros st.
  destruct (bool_decide _); [|auto with sound]. intros s.
  set (room s' := length (bootstrap s') ≠ bootstrap_capacity (limits s')).
  eapply safe_bind with (Q := λ full s', guar s s' ∧ (full = false → room s')).
  { apply safe_read. intros s' HR _. split; [by apply env_guar|].
    intros Hf. by apply bool_decide_eq_false in Hf. }
  intros full s1 [Hg1 Hroom]. destruct full.
  { apply safe_guar; [|done]. sound_steps. }
  specialize (Hroom eq_refl).
  eapply safe_bind with (Q := λ _ s', guar s s' ∧ room s').
  { apply safe_atomically. intros s' HR HI. simpl.
    assert (room s') by (unfold room in *; by rewrite (er_bootstrap _ _ HR), (er_limits _ _ HR)).
    destruct HI. split; [split; simpl; auto|split; [|done]].
    - intros a c Hc. pose proof (ri_address0 a c Hc). unfold Nat.succ. lia.
    - etrans; [done|]. etrans; [by apply env_guar|]. split; simpl; auto. }
  intros pushed s2 [Hg2 Hroom2]. destruct pushed; [|by apply safe_guar; [apply sound_ret|]].
  eapply safe_bind with (Q := λ _ s', guar s s').
  - apply safe_modify. intros s' HR HI. destruct HI.
    assert (Hr : room s') by (unfold room in *; by rewrite (er_bootstrap _ _ HR), (er_limits _ _ HR)).
    unfold room in Hr.
    split; [split; simpl; auto|].
    + len.
    + etrans; [done|]. etrans; [by apply env_guar|]. split; simpl; auto.
  - intros ? s3 Hg3. apply safe_guar; [|done]. sound_steps.
Qed.
#[local] Hint Resolve sound_process_depth : sound.

Lemma sound_process_input i : sound (process_input clock alloc_ok i).
Proof. unfold process_input. sound_steps. Qed.
#[local] Hint Resolve sound_process_input : sound.

(** An item taken from the ingress carries a ticket below the queued ones, and
    stays so until it is finished. *)
Lemma process_item_safe item s :
  ticket_below (ticket item) s →
  safe runtime_inv env_rely (process_item clock alloc_ok item) (λ _ _, True) s.
Proof.
  intros Ht. unfold process_item.
  eapply safe_bind with (Q := λ _, guar s); [apply sound_try_catch; auto with sound|].
  intros ? s1 Hg. apply safe_modify. intros s2 HR HI. split; [|done].
  pose proof (gu_tickets _ _ (env_guar _ _ HR) _ (gu_tickets _ _ Hg _ Ht)) as Hb.
  destruct HI. unfold finish_ticket. split; simpl; auto. unfold ticket_below in *. simpl.
  destruct ri_processed0, Hb. split; [lia|].
  rewrite Forall_forall in *. intros x Hx. specialize (H0 x Hx). specialize (H2 x Hx). lia.
Qed.

Lemma sound_finish_reset r : sound (modify (finish_reset r)).
Proof. apply sound_core. intros s. unfold finish_reset. case_match; by split. Qed.
#[local] Hint Resolve sound_finish_reset : sound.

Lemma sound_accept_reset : sound (atomically accept_reset).
Proof.
  apply sound_atomically. intros s Hi.
  assert (same_core s (fst (accept_reset s))).
  { unfold accept_reset, finish_reset. repeat case_match; by split. }
  split; [by eapply same_core_inv|by apply same_core_guar].
Qed.
#[local] Hint Resolve sound_accept_reset : sound.

Lemma reset_commit_inv s :
  runtime_inv s → runtime_inv (reset_commit s) ∧ guar s (reset_commit s).
Proof.
  intros Hi. apply set_mode_inv; [done|by split|]. split; [split|by left|done].
  - by intros [|].
  - by intros [|[? _]].
Qed.

Lemma reset_failed_inv s :
  runtime_inv s → runtime_inv (reset_failed s) ∧ guar s (reset_failed s).
Proof.
  intros Hi. apply set_mode_inv; [done|by split|]. split; [split|by right; left|done].
  - done.
  - intros [|[_ Hne]]; [done|]. by destruct Hne.
Qed.

Lemma sound_reset : sound (perform_reset_request clock).
Proof.
  unfold perform_reset_request. sound_steps.
  - apply sound_modify. intros s Hi.
    destruct (set_bootstrap_inv [] s) as [H1 H2]; [simpl; lia|done|].
    destruct H1, H2. split; split; auto.
  - apply sound_modify, reset_commit_inv.
  - apply sound_modify, reset_failed_inv.
Qed.
#[local] Hint Resolve sound_reset : sound.

Lemma sound_complete_snapshot r : sound (modify (complete_snapshot_request r)).
Proof. apply sound_core. intros s. unfold complete_snapshot_request. case_match; by split. Qed.
#[local] Hint Resolve sound_complete_snapshot : sound.

Lemma sound_snapshot : sound (perform_snapshot_request clock).
Proof. unfold perform_snapshot_request. sound_steps. Qed.
#[local] Hint Resolve sound_snapshot : sound.

(** ** Publication shutdown and the end of the loop *)

Lemma complete_all_inv e s :
  runtime_inv s → runtime_inv (complete_all_admissions_locked e s).
Proof. intros []. split; simpl; auto; lia. Qed.

Lemma close_from_owner_id (c : Channel) :
  SubscriberChannel.subscription_id (SubscriberChannel.close_from_owner c)
  = SubscriberChannel.subscription_id c.
Proof. done. Qed.

Lemma sound_close_all : sound close_all_subscribers_for_shutdown.
Proof.
  unfold close_all_subscribers_for_shutdown. sound_steps; [by apply sound_on_channel| |].
  - apply sound_modify. intros s []. split; split; simpl; auto; try lia; [constructor|set_solver].
  - apply (sound_resident (λ _, 0)). intros. lia.
Qed.
#[local] Hint Resolve sound_close_all : sound.

Lemma safe_then_modify {A} (p : prog Runtime A) f s :
  sound p → (∀ s', runtime_inv s' → runtime_inv (f s')) →
  safe runtime_inv env_rely (p ;; modify f) (λ _ _, True) s.
Proof.
  intros Hp Hf. eapply safe_bind; [apply Hp|]. intros ? s' _.
  apply safe_modify. auto.
Qed.

Lemma shutdown_control_safe s :
  safe runtime_inv env_rely perform_publication_shutdown_control (λ _ _, True) s.
Proof.
  apply safe_then_modify; [apply sound_close_all|]. intros s' Hi.
  assert (Hc : ∀ x, same_core x (x <| publication_shutdown_completed := true |>
    <| observation ::= λ o, o <| obs_publication_admission_open := false |>
                              <| obs_publication_shutdown := true |> |>)) by (intros; by split).
  unfold shutdown_commit. eapply same_core_inv; [apply Hc|].
  apply complete_all_inv. eapply same_core_inv; [|exact Hi]. by split.
Qed.

Lemma fail_reset_core s : same_core s (fail_reset_request s).
Proof. unfold fail_reset_request, finish_reset. repeat case_match; by split. Qed.

Lemma epilogue_safe s : safe runtime_inv env_rely owner_epilogue (λ _ _, True) s.
Proof.
  unfold owner_epilogue. eapply safe_bind with (Q := λ _ _, True).
  - apply safe_modify. intros s' _ Hi. split; [|done]. apply complete_all_inv.
    eapply same_core_inv; [apply fail_reset_core|].
    eapply same_core_inv; [apply fail_snapshot_core|].
    apply (set_mode_inv s'); [done|by split|].
    split; [split|by right; right; right|done]; [by intros [|]|by intros [|[? _]]].
  - intros ? s' _. eapply safe_mono; [|apply sound_close_all]. done.
Qed.

(** The prologue runs before any fault can have been recorded. *)
Lemma owner_start_safe s :
  obs_fault_reason (observation s) = None →
  safe runtime_inv env_rely owner_start (λ _ _, True) s.
Proof.
  intros Hr. eapply safe_bind with (Q := λ _ _, True); [|done].
  apply safe_modify. intros s' HR Hi. split; [|done].
  assert (Hc : ∀ x, same_core x (x <| owner_ready := true |>)) by (intros; by split).
  eapply same_core_inv; [apply Hc|].
  apply (set_mode_inv s'); [done|by split|].
  split; [split; [by intros [|]|by intros [|[? _]]]| |done].
  left. rewrite <- Hr. apply (er_reason _ _ HR).
Qed.

(** ** Admissions

    While the owner handles a request that it has taken from the mailbox, the
    pending count still includes it; the checks made before the commit stay true. *)

Definition claimed s : Prop := S (length (admission_requests s)) ≤ pending_admission_count s.
Definition room s : Prop :=
  length (subscribers s) < maximum_active_subscriptions (publication (limits s)).
Definition unused (a : Z) s : Prop := store s !! a = None ∧ (a < allocations s)%Z.

Lemma claimed_stable s s' : guar s s' → claimed s → claimed s'.
Proof. unfold claimed. intros []. lia. Qed.

Lemma room_stable s s' : guar s s' → room s → room s'.
Proof. unfold room. intros [_ El _ _ _ _ ?]. rewrite El. lia. Qed.

Lemma unused_stable a s s' : guar s s' → unused a s → unused a s'.
Proof. unfold unused. intros [] [? ?]. split; [auto|lia]. Qed.

Lemma complete_request_inv a r s :
  runtime_inv s → claimed s → runtime_inv (complete_admission_request a r s).
Proof.
  unfold claimed. intros [] Hc. unfold complete_admission_request. repeat case_match; simpl;
    (split; simpl; auto; lia).
Qed.

Lemma refuse_safe a e s : claimed s → safe runtime_inv env_rely (refuse a e) (λ _ _, True) s.
Proof.
  intros Hc. apply safe_modify. intros s' HR Hi. split; [|done].
  apply complete_request_inv; [done|]. eapply claimed_stable; [by apply env_guar|done].
Qed.

Lemma order_book_subscription_id_inj j k :
  (0 <= j)%Z → (0 <= k)%Z →
  order_book_subscription_id j = order_book_subscription_id k → j = k.
Proof.
  unfold order_book_subscription_id. intros Hj Hk [=H].
  change (pretty (Z.to_N j) = pretty (Z.to_N k)) in H. apply (inj pretty) in H. lia.
Qed.

(** The record the commit builds, before the request is completed. *)
Lemma add_subscriber_inv (x : Z) (c : Channel) s :
  runtime_inv s → room s → unused x s → next_subscription_id s ≠ u64_max →
  SubscriberChannel.subscription_id c = order_book_subscription_id (next_subscription_id s) →
  runtime_inv (s <| store := <[x := c]> (store s) |> <| subscribers := subscribers s ++ [x] |>
                 <| next_subscription_id := u64_succ (next_subscription_id s) |>).
Proof.
  unfold room, unused. intros [] Hroom [Hfree Hlt] Hne Hid.
  assert (Hnew : x ∉ subscribers s).
  { intros Hx. destruct (ri_stored0 x Hx). congruence. }
  assert (Hsucc : u64_succ (next_subscription_id s) = (next_subscription_id s + 1)%Z)
    by (apply u64_succ_small; lia).
  split; simpl; rewrite ?Hsucc; auto.
  - apply NoDup_app. split_all; [done| |apply NoDup_singleton].
    intros y Hy ->%list_elem_of_singleton. done.
  - len.
  - intros b [Hb | ->%list_elem_of_singleton]%elem_of_app.
    + destruct (ri_stored0 b Hb) as [cb Hcb]. exists cb. rewrite lookup_insert_ne; [done|congruence].
    + rewrite lookup_insert_eq. eauto.
  - intros b cb [[-> <-]|[? ?]]%lookup_insert_Some; eauto.
  - lia.
  - intros b cb [[-> <-]|[? Hb]]%lookup_insert_Some.
    + exists (next_subscription_id s). split; [lia|done].
    + destruct (ri_id0 _ _ Hb) as (k & ? & ?). exists k. split; [lia|done].
  - assert (Hold : ∀ b cb, store s !! b = Some cb →
      SubscriberChannel.subscription_id cb ≠ SubscriberChannel.subscription_id c).
    { intros b cb Hb Heq. destruct (ri_id0 _ _ Hb) as (k & Hk & Hkid).
      rewrite Hkid, Hid in Heq. apply order_book_subscription_id_inj in Heq; lia. }
    intros b d cb cd [[-> <-]|[? Hb]]%lookup_insert_Some [[-> <-]|[? Hd]]%lookup_insert_Some Heq;
      [done| | |eauto]; exfalso; eapply Hold; eauto.
Qed.

Lemma commit_admission_inv a x c s :
  runtime_inv s → claimed s → room s → unused x s → next_subscription_id s ≠ u64_max →
  SubscriberChannel.subscription_id c = order_book_subscription_id (next_subscription_id s) →
  runtime_inv (commit_admission a x c s).
Proof.
  intros Hi Hc Hr Hu Hn Hid. unfold commit_admission.
  destruct (admission_gate s); [by apply complete_request_inv|].
  apply complete_request_inv; [|done].
  pose proof (add_subscriber_inv x c s Hi Hr Hu Hn Hid) as Ha.
  destruct (set_resident_inv (length (subscribers s ++ [x])) _ (ri_limit _ Ha) Ha) as [Ha' _].
  eapply same_core_inv; [|exact Ha']. by split.
Qed.

Lemma build_channel_id sub n cap g t snap a1 a2 c :
  build_channel sub n cap g t snap a1 a2 = inl c →
  SubscriberChannel.subscription_id c = order_book_subscription_id n.
Proof.
  unfold build_channel, SubscriberChannel.make. intros H.
  destruct (decide (cap = 0)); [done|]. destruct a1 as [x1|], a2 as [x2|]; try done.
  destruct (SubscriberChannel.stage_initial _ _ _) as [c' ok] eqn:E.
  destruct ok; simplify_eq.
  unfold SubscriberChannel.stage_initial, SubscriberChannel.ring_push_locked in E.
  simpl in E. break_all; try done; simplify_option_eq; done.
Qed.

Lemma allocate_safe s0 s :
  guar s0 s →
  safe runtime_inv env_rely (allocate alloc_ok)
    (λ r s', guar s0 s' ∧ ∀ x, r = Some x → unused x s') s.
Proof.
  intros Hg. apply safe_atomically. intros s' HR Hi. simpl.
  assert (Hg1 : guar s' (s' <| allocations ::= Nat.succ |>)) by (split; simpl; auto).
  split; [|split].
  - destruct Hi. split; simpl; auto. intros a c Hc. pose proof (ri_address0 a c Hc).
    unfold Nat.succ. lia.
  - etrans; [done|]. etrans; [by apply env_guar|done].
  - intros x Hx. destruct (alloc_ok (allocations s')); simplify_eq. split; simpl.
    + destruct (store s' !! _) as [c|] eqn:E; [|done].
      pose proof (ri_address _ Hi _ _ E). lia.
    + unfold Nat.succ. lia.
Qed.

(** Reading a fact that callers cannot change. *)
Lemma read_safe {A} (f : Runtime → A) s0 s :
  guar s0 s → safe runtime_inv env_rely (read f) (λ v s', guar s0 s' ∧ v = f s') s.
Proof.
  intros Hg. apply safe_read. intros s' HR _. split; [|done].
  etrans; [done|by apply env_guar].
Qed.

Lemma admit_with_snapshot_safe a sub limit t s :
  claimed s → room s → next_subscription_id s ≠ u64_max →
  safe runtime_inv env_rely (admit_with_snapshot alloc_ok a sub limit t) (λ _ _, True) s.
Proof.
  intros Hc Hr Hn. unfold admit_with_snapshot.
  assert (Hno : ∀ e s', guar s s' → safe runtime_inv env_rely (refuse a e) (λ _ _, True) s').
  { intros e s' Hg. apply refuse_safe. by eapply claimed_stable. }
  eapply safe_bind; [by apply (read_safe _ s)|]. intros snapshot s1 [Hg1 _].
  destruct snapshot as [[snap|failure]|]; [|by apply Hno|by apply Hno].
  eapply safe_bind; [by apply (allocate_safe s)|]. intros channel_at s2 [Hg2 Hu].
  eapply safe_bind; [apply (safe_guar (allocate alloc_ok) s2); [apply sound_allocate|done]|].
  intros r1 s3 Hg3. simpl in Hg3.
  eapply safe_bind; [apply (safe_guar (allocate alloc_ok) s2); [apply sound_allocate|done]|].
  intros r2 s4 Hg4. simpl in Hg4.
  eapply safe_bind; [by apply (read_safe _ s2)|]. intros built s5 [Hg5 Hb].
  assert (Hg : guar s s5) by (by etrans).
  destruct channel_at as [x|]; [|by apply Hno]. destruct built as [c|e]; [|by apply Hno].
  apply safe_modify. intros s6 HR Hi. split; [|done]. apply env_guar in HR.
  assert (Hg6 : guar s s6) by (by etrans). symmetry in Hb. apply build_channel_id in Hb.
  apply commit_admission_inv; [done|by eapply claimed_stable|by eapply room_stable| | |].
  - apply (unused_stable x s2); [by etrans|auto].
  - by rewrite (gu_next _ _ Hg6).
  - by rewrite (gu_next _ _ HR).
Qed.

Lemma perform_admission_safe a sub s :
  claimed s →
  safe runtime_inv env_rely (perform_admission_request clock alloc_ok a sub) (λ _ _, True) s.
Proof.
  intros Hc. unfold perform_admission_request.
  assert (Hno : ∀ e s', guar s s' → safe runtime_inv env_rely (refuse a e) (λ _ _, True) s').
  { intros e s' Hg. apply refuse_safe. by eapply claimed_stable. }
  eapply safe_bind; [apply sound_sweep|]. intros ? s1 Hg1. simpl in Hg1.
  eapply safe_bind with (Q := λ refused s', refused = false → guar s s').
  { apply safe_atomically. intros s' HR Hi. apply env_guar in HR.
    assert (guar s s') by (by etrans).
    destruct (admission_gate s'); simpl; [|done]. split; [|done].
    apply complete_request_inv; [done|by eapply claimed_stable]. }
  intros refused s2 Hg2. destruct refused; [done|]. specialize (Hg2 eq_refl).
  eapply safe_bind; [by apply (read_safe _ s)|]. intros full s3 [Hg3 Hfull].
  destruct full; [by apply Hno|]. symmetry in Hfull. apply Nat.leb_gt in Hfull.
  destruct (requested_depth_limit sub) as [limit|e]; [|by apply Hno].
  eapply safe_bind; [apply (safe_guar _ s3); [apply sound_sample_publication_time|done]|].
  intros published_at s4 Hg4. simpl in Hg4. assert (guar s s4) by (by etrans).
  destruct published_at as [t|]; [|by apply Hno].
  eapply safe_bind; [by apply (read_safe _ s3)|]. intros exhausted s5 [Hg5 Hex].
  assert (guar s s5) by (by transitivity s3).
  destruct exhausted; [by apply Hno|]. symmetry in Hex. apply Z.eqb_neq in Hex.
  apply admit_with_snapshot_safe; [by eapply claimed_stable|by apply (room_stable s3)|done].
Qed.

(** ** One iteration *)

Lemma owner_take_inv s :
  runtime_inv s →
  runtime_inv (fst (owner_take s)) ∧
  match snd (owner_take s) with
  | TaskItem item => ticket_below (ticket item) (fst (owner_take s))
  | TaskAdmission _ _ => claimed (fst (owner_take s))
  | _ => True
  end.
Proof.
  intros Hi. unfold owner_take.
  destruct (negb (owner_awake s)); [done|]. destruct (shutdown_pending s); [done|].
  destruct (pending_fault s).
  { split; [|done]. eapply same_core_inv; [|exact Hi]. by split. }
  destruct (reset_ready_locked s); [done|]. destruct (admission_ready_locked s).
  { destruct (admission_requests s) as [|a rest] eqn:E; [done|].
    destruct (requests s !! a); [|done]. destruct Hi. rewrite E in ri_pending0.
    unfold claimed. simpl in *. split; [split; simpl; auto; lia|lia]. }
  destruct (snapshot_ready_locked s); [done|].
  destruct (publication_removal_pending s).
  { split; [|done]. eapply same_core_inv; [|exact Hi]. by split. }
  destruct (ingress s) as [|item rest] eqn:E; [by destruct (stop_requested s)|].
  destruct Hi. rewrite E in *. unfold ticket_below in *. rewrite E in ri_processed0.
  apply StronglySorted_cons in ri_sorted0 as [Hlt Hs].
  apply Forall_cons in ri_last0 as [Hl Hls].
  destruct ri_processed0 as [Hp [Hp1 Hps]%Forall_cons].
  split; [|done]. split; simpl in *; auto; [lia| |].
  - by split.
  - destruct ri_fault0 as [Hf1 Hf2]. split; [done|]. intros H. specialize (Hf2 H). congruence.
Qed.

Lemma iteration_safe s :
  safe runtime_inv env_rely (owner_iteration clock alloc_ok) (λ _ _, True) s.
Proof.
  unfold owner_iteration.
  eapply safe_bind with (Q := λ task s', match task with
    | TaskItem item => ticket_below (ticket item) s'
    | TaskAdmission _ _ => claimed s'
    | _ => True
    end).
  { apply safe_atomically. intros s' HR Hi. by apply owner_take_inv. }
  assert (Hs : ∀ (p : prog Runtime ()) s', safe runtime_inv env_rely p (λ _ _, True) s' →
    safe runtime_inv env_rely (p ;; mret true) (λ _ _, True) s').
  { intros p s' Hp. by eapply safe_bind. }
  assert (Hw : ∀ (p : prog Runtime ()) s', sound p →
    safe runtime_inv env_rely (p ;; mret true) (λ _ _, True) s').
  { intros p s' Hp. apply Hs. eapply safe_mono; [|apply Hp]. done. }
  intros task s1 HQ. destruct task; unfold run_task; try (by apply Hw; auto with sound).
  - apply Hs, shutdown_control_safe.
  - by apply Hs, perform_admission_safe.
  - by apply Hs, process_item_safe.
  - done.
Qed.
End OwnerSound.

Section World.
Context `{W : WireEnums} `{L : ProjectionLibrary}.
Context (clock : nat → option ClockSample) (alloc_ok : nat → bool).
Implicit Types (s : Runtime) (w : RuntimeWorld).
Abbreviation rstep := (runtime_step clock alloc_ok).

(** The remaining program is safe from some state the environment has since moved. *)
Definition pending_safe {A} (p : prog Runtime A) s : Prop :=
  ∃ s0, env_rely s0 s ∧ safe runtime_inv env_rely p (λ _ _, True) s0.

Definition world_ok w : Prop :=
  match owner w with
  | OwnerNone => fresh_inv (rt w)
  | OwnerRunning p => runtime_inv (rt w) ∧ pending_safe p (rt w)
  | OwnerLeaving p => runtime_inv (rt w) ∧ pending_safe p (rt w)
  | OwnerExited => runtime_inv (rt w)
  end.

Lemma pending_safe_env {A} (p : prog Runtime A) s s' :
  env_rely s s' → pending_safe p s → pending_safe p s'.
Proof. intros HR (s0 & HR0 & Hp). exists s0. split; [by etrans|done]. Qed.

Lemma pending_safe_step {A} f (k : Runtime → prog Runtime A) s :
  runtime_inv s → pending_safe (Step f k) s → runtime_inv (f s) ∧ pending_safe (k s) (f s).
Proof.
  intros Hi (s0 & HR & Hp). destruct (Hp s HR Hi) as [Hi' Hk].
  split; [done|]. exists (f s). split; [reflexivity|done].
Qed.

(** Before [start] every operation is refused or touches nothing that matters. *)
Lemma fresh_core s s' :
  fresh_inv s → same_core s s' → stopped s' = stopped s → fresh_inv s'.
Proof. intros [] [] ?. split; congruence. Qed.

Lemma fresh_step s s' : fresh_inv s → caller_step s s' → fresh_inv s'.
Proof.
  intros Hf Hstep. pose proof Hf as [].
  destruct fi_subscribers0 as (_ & Hst & _).
  assert (Hcore : same_core s s' → stopped s' = stopped s → fresh_inv s')
    by (by apply fresh_core).
  destruct Hstep; try (apply Hcore; by split).
  - unfold submit. rewrite fi_started0. by destruct (stopped s).
  - apply Hcore; unfold observe_finish; repeat case_match; by try split.
  - apply Hcore; unfold wait_finish; case_match; by try split.
  - unfold reset_for_rebootstrap. rewrite fi_started0. by destruct (stopped s).
  - unfold reset_live_for_planned_rebootstrap. rewrite fi_started0. by destruct (stopped s).
  - unfold reset_take in *. repeat case_match; simplify_eq; apply Hcore; by try split.
  - unfold capture_snapshot. rewrite fi_started0. by destruct (stopped s).
  - unfold snapshot_take in *. repeat case_match; simplify_eq; apply Hcore; by try split.
  - unfold admit_order_book_subscription. rewrite fi_started0. by destruct (stopped s).
  - apply Hcore; unfold shutdown_publication; simpl; repeat case_match; by try split.
  - unfold stop_begin. rewrite fi_started0. destruct (stopped s); simpl; [done|].
    split; simpl; auto. apply (fi_subscribers _ Hf).
  - apply Hcore; unfold pause_owner_for_testing; repeat case_match; by try split.
  - rewrite Hst in *. by rewrite lookup_empty in *.
Qed.

Lemma start_inv created s s' :
  fresh_inv s → 
  start created s = (s', Returned SrStarted) →
  runtime_inv s' ∧ obs_fault_reason (observation s') = None.
Proof.
  unfold start. intros [] H.
  destruct fi_tickets0 as [Hl Hp], fi_admissions0 as [Ha Hpc], fi_subscribers0 as (Hs & Hst & Hn).
  destruct (stopped s) eqn:Estop; [done|]. rewrite fi_started0 in H.
  destruct (negb created); simplify_eq. simpl. split; [|done].
  assert (Hstate : state s = RsConstructed) by naive_solver.
  split; simpl; rewrite ?fi_ingress0, ?fi_bootstrap0, ?Ha, ?Hpc, ?Hs, ?Hst, ?Hl, ?Hn;
    unfold u64_max; try done; simpl; try lia; auto.
  all: try (by constructor).
  - unfold ticket_below. simpl. rewrite Hp. split; [lia|constructor].
  - unfold state in *. split; simpl; unfold state; simpl; rewrite Hstate;
      [by intros [|]|by intros [|[? _]]].
  - unfold state in *. simpl. by rewrite Hstate.
  - set_solver.
Qed.

Lemma stop_end_inv s : runtime_inv s → runtime_inv (stop_end s).
Proof.
  intros Hi. unfold stop_end. apply complete_all_inv.
  eapply same_core_inv; [apply fail_snapshot_core|].
  apply (set_mode_inv s); [done|by split|].
  split; [split|by right; right; right|done]; [by intros [|]|by intros [|[? _]]].
Qed.

Lemma runtime_step_ok w w' : world_ok w → rstep w w' → world_ok w'.
Proof.
  intros Hw Hstep.
  destruct Hstep as [s s' o Hc|created s s' o Hst|s Hreq|s f k|s|s|s f k|s u]; unfold world_ok in *; simpl in *.
  - destruct o as [|p|p|].
    + by eapply fresh_step.
    + destruct Hw as [Hi Hp]. destruct (caller_step_inv _ _ Hi Hc).
      split; [done|by eapply pending_safe_env].
    + destruct Hw as [Hi Hp]. destruct (caller_step_inv _ _ Hi Hc).
      split; [done|by eapply pending_safe_env].
    + by destruct (caller_step_inv _ _ Hw Hc).
  - assert (Hns : started s = false).
    { unfold start in Hst. destruct (stopped s); [done|]. by destruct (started s). }
    destruct o as [|p|p|]; [|destruct Hw as [Hi _]..|];
      [|rewrite (ri_started _ Hi) in Hns; done..|rewrite (ri_started _ Hw) in Hns; done].
    destruct (start_inv _ _ _ Hw Hst) as [Hi Hr]. split; [done|]. exists s'.
    split; [reflexivity|by apply owner_start_safe].
  - by apply stop_end_inv.
  - destruct Hw. by apply pending_safe_step.
  - destruct Hw as [Hi _]. split; [done|]. exists s. split; [reflexivity|apply iteration_safe].
  - destruct Hw as [Hi _]. split; [done|]. exists s. split; [reflexivity|apply epilogue_safe].
  - destruct Hw. by apply pending_safe_step.
  - by destruct Hw.
Qed.

Lemma make_fresh lim identity fresh paused s :
  make lim true identity fresh paused = Some s → fresh_inv s.
Proof.
  unfold make. intros H. destruct (_ || _) in H; simplify_eq. split; simpl; auto.
Qed.

Lemma runtime_start_ok w : runtime_start w → world_ok w.
Proof.
  intros (lim & identity & fresh & paused & Hm & Ho). unfold world_ok. rewrite Ho.
  by eapply make_fresh.
Qed.

Lemma reachable_inv w w' :
  runtime_start w → star rstep w w' → owner w' ≠ OwnerNone → runtime_inv (rt w').
Proof.
  intros Hs Hr Ho.
  assert (Hw : world_ok w').
  { eapply (star_invariant _ world_ok); eauto using runtime_step_ok, runtime_start_ok. }
  unfold world_ok in Hw. destruct (owner w'); naive_solver.
Qed.
End World.

Section Theorems.
Context `{W : WireEnums} `{L : ProjectionLibrary}.
Context (clock : nat → option ClockSample) (alloc_ok : nat → bool).
Implicit Types (s : Runtime) (w : RuntimeWorld).
Abbreviation rstep := (runtime_step clock alloc_ok).

(** The owner left alone executes [run]. *)
Lemma owner_run_star (p : prog Runtime bool) s :
  star rstep (MkRuntimeWorld s (OwnerRunning p))
             (MkRuntimeWorld (fst (run p s)) (OwnerRunning (Done (snd (run p s))))).
Proof.
  revert s. induction p as [b|f k IH]; intros s; simpl; [constructor|].
  eapply star_step; [apply step_owner|]. apply IH.
Qed.

Lemma owner_iterate_star s :
  snd (run (owner_iteration clock alloc_ok) s) = true →
  star rstep (MkRuntimeWorld s (OwnerRunning (Done true)))
             (MkRuntimeWorld (fst (run (owner_iteration clock alloc_ok) s))
                             (OwnerRunning (Done true))).
Proof.
  intros H. eapply star_step; [apply step_owner_loops|].
  pose proof (owner_run_star (owner_iteration clock alloc_ok) s) as Hr. by rewrite H in Hr.
Qed.

(** ** Theorems *)

(** C2: at every moment of a started runtime, under any interleaving, the ingress
    and the bootstrap buffer are within their capacities, the queued tickets are
    strictly increasing, every one of them has been handed out and none has been
    processed, so a barrier waiting for [processed_ticket] never passes an input
    that is still queued. *)
Theorem ingress_is_bounded_and_ordered w w' :
  runtime_start w → star rstep w w' → owner w' ≠ OwnerNone →
  let s := rt w' in
  length (ingress s) ≤ ingress_capacity (limits s) ∧
  length (bootstrap s) ≤ bootstrap_capacity (limits s) ∧
  StronglySorted (λ i j, (ticket i < ticket j)%Z) (ingress s) ∧
  Forall (λ i, (processed_ticket s < ticket i <= last_admitted_ticket s)%Z) (ingress s) ∧
  (processed_ticket s <= last_admitted_ticket s)%Z.
Proof.
  intros Hs Hr Ho. destruct (reachable_inv _ _ _ _ Hs Hr Ho). simpl.
  destruct ri_processed0 as [Hp Hf]. split_all; auto.
  rewrite Forall_forall in *. auto.
Qed.


(** Whatever interleaves, a runtime that says it is live has a synchronized
    projection as its last observation and no fault: the three-way gate that guards
    subscriptions and planned resets is exactly the live state. *)
Theorem live_is_synchronized w w' :
  runtime_start w → star rstep w w' → owner w' ≠ OwnerNone →
  live_gate (rt w') = bool_decide (state (rt w') = RsLive).
Proof.
  intros Hs Hr Ho. destruct (reachable_inv _ _ _ _ Hs Hr Ho). unfold live_gate.
  destruct (bool_decide (state (rt w') = RsLive)) eqn:E; [|done].
  apply bool_decide_eq_true in E. rewrite (bool_decide_eq_true_2 _ (ri_live0 E)). simpl.
  destruct ri_reason0 as [->|[?|[?|?]]]; [done|congruence..].
Qed.

(** C5: the pending admissions, the resident subscriptions and their reported number
    never exceed their limits, no channel is listed twice, and no subscription id is ever given to two
    channels, in any interleaving of callers, handlers and the owner. *)
Theorem subscriptions_bounded_and_unique w w' a b c d :
  runtime_start w → star rstep w w' → owner w' ≠ OwnerNone →
  let s := rt w' in
  (length (admission_requests s) ≤ pending_admission_count s
     ≤ pending_admission_capacity (publication (limits s))) ∧
  (NoDup (subscribers s) ∧
   length (subscribers s) ≤ maximum_active_subscriptions (publication (limits s)) ∧
   obs_resident_subscription_count (observation s)
     ≤ maximum_active_subscriptions (publication (limits s))) ∧
  (store s !! a = Some c → store s !! b = Some d →
   SubscriberChannel.subscription_id c = SubscriberChannel.subscription_id d → a = b).
Proof.
  intros Hs Hr Ho. destruct (reachable_inv _ _ _ _ Hs Hr Ho). simpl.
  split; [done|]. split; [done|]. by apply ri_unique0.
Qed.
End Theorems.

(** ** Witnesses: a runtime that becomes live *)

Section Witness.
Import SampleProjection.

Definition sample_clock (n : nat) : option ClockSample := Some (MkClockSample n n).
Definition sample_alloc (n : nat) : bool := true.
Definition sample_limits : RuntimeLimits := MkRuntimeLimits 4 4 (MkPublicationLimits 2 8 2).
Definition sample_snapshot : ExchangeDepthSnapshot :=
  MkExchangeDepthSnapshot 1 1 "BTCUSDT" "s" "p" "v" "r" 10 None 5 5 [] [].

(** A runtime that has not been started. *)
Definition runtime0 : Runtime (L := library) :=
  match make (L := library) sample_limits true "BTCUSDT" (MkBook AwaitingBaseline None) false with
  | Some s => s
  | None => MkRuntime sample_limits "BTCUSDT" (MkBook AwaitingBaseline None) [] None [] 1 [] []
              None None None (initial_observation sample_limits) 0 0 0 false false false false
              false false false false false false ∅ ∅ 0 0
  end.

Abbreviation sample_iteration :=
  (owner_iteration (W := sample_enums) (L := library) sample_clock sample_alloc).

(** Started, with a snapshot and an update queued, then two iterations. *)
Definition runtime1 : Runtime (L := library) :=
  fst (run owner_start (fst (start true runtime0))).
Definition runtime2 : Runtime (L := library) :=
  fst (submit true (DepthUpdateInput (sample_depth 10 12 7) (Some 1%Z))
    (fst (submit true (SnapshotInput sample_snapshot (Some 1%Z)) runtime1))).
Definition runtime3 : Runtime (L := library) := fst (run sample_iteration runtime2).
Definition runtime4 : Runtime (L := library) := fst (run sample_iteration runtime3).

Lemma runtime0_start : runtime_start (L := library) (MkRuntimeWorld runtime0 OwnerNone).
Proof.
  exists sample_limits, "BTCUSDT", (MkBook AwaitingBaseline None), false. split; vm_compute; reflexivity.
Qed.

Lemma runtime1_reachable :
  star (runtime_step (W := sample_enums) sample_clock sample_alloc)
    (MkRuntimeWorld runtime0 OwnerNone) (MkRuntimeWorld runtime1 (OwnerRunning (Done true))).
Proof.
  eapply star_step; [eapply (step_start _ _ true); reflexivity|].
  exact (owner_run_star (W := sample_enums) sample_clock sample_alloc owner_start
           (fst (start true runtime0))).
Qed.

Lemma runtime2_reachable :
  star (runtime_step (W := sample_enums) sample_clock sample_alloc)
    (MkRuntimeWorld runtime0 OwnerNone) (MkRuntimeWorld runtime2 (OwnerRunning (Done true))).
Proof.
  eapply star_trans; [apply runtime1_reachable|].
  eapply star_step; [apply step_caller, (call_submit true (SnapshotInput sample_snapshot (Some 1%Z)));
    vm_compute; done|].
  apply star_one, step_caller, call_submit. vm_compute. done.
Qed.

(** One iteration of the owner on a sample state. *)
Lemma sample_iterates s s' :
  snd (run sample_iteration s) = true → s' = fst (run sample_iteration s) →
  star (runtime_step (W := sample_enums) sample_clock sample_alloc)
    (MkRuntimeWorld s (OwnerRunning (Done true))) (MkRuntimeWorld s' (OwnerRunning (Done true))).
Proof. intros H ->. by apply owner_iterate_star. Qed.

Lemma runtime4_reachable :
  star (runtime_step (W := sample_enums) sample_clock sample_alloc)
    (MkRuntimeWorld runtime0 OwnerNone) (MkRuntimeWorld runtime4 (OwnerRunning (Done true))).
Proof.
  eapply star_trans; [apply runtime2_reachable|].
  apply (star_trans _ _ (MkRuntimeWorld runtime3 (OwnerRunning (Done true)))).
  - apply (sample_iterates runtime2 runtime3); [vm_compute; reflexivity|reflexivity].
  - apply (sample_iterates runtime3 runtime4); [vm_compute; reflexivity|reflexivity].
Qed.

(** A transport failure after that. *)
Definition runtime4' : Runtime (L := library) :=
  fst (submit true (FailureInput InjectedTransport) runtime4).
Definition runtime5 : Runtime (L := library) := fst (run sample_iteration runtime4').

Lemma runtime5_reachable :
  star (runtime_step (W := sample_enums) sample_clock sample_alloc)
    (MkRuntimeWorld runtime0 OwnerNone) (MkRuntimeWorld runtime5 (OwnerRunning (Done true))).
Proof.
  eapply star_trans; [apply runtime4_reachable|].
  apply (star_step _ _ (MkRuntimeWorld runtime4' (OwnerRunning (Done true)))).
  - apply step_caller. apply (call_submit true (FailureInput InjectedTransport)).
    vm_compute. done.
  - apply (sample_iterates runtime4' runtime5); [vm_compute; reflexivity|reflexivity].
Qed.

Lemma running_owner (p : prog (Runtime (L := library)) bool) : OwnerRunning p ≠ OwnerNone.
Proof. discriminate. Qed.

Lemma runtime4_live : state runtime4 = RsLive.
Proof. vm_compute. reflexivity. Qed.

Lemma runtime5_faulted : state runtime5 = RsFaulted.
Proof. vm_compute. reflexivity. Qed.

(** The sample states are large terms: the witnesses abstract over them. *)
Lemma ingress_is_bounded_and_ordered_witness :
  ∃ r, length (ingress r) = 2 ∧ StronglySorted (λ i j, (ticket i < ticket j)%Z) (ingress r).
Proof.
  exists runtime2. split; [vm_compute; reflexivity|].
  pose proof runtime2_reachable as Hr. revert Hr. generalize runtime2. intros r Hr.
  exact (proj1 (proj2 (proj2 (ingress_is_bounded_and_ordered (W := sample_enums)
    sample_clock sample_alloc _ _ runtime0_start Hr (running_owner _))))).
Defined.


Lemma live_is_synchronized_witness :
  ∃ r : Runtime (L := library), state r = RsLive ∧ live_gate r = true.
Proof.
  exists runtime4. pose proof runtime4_live as Hl. pose proof runtime4_reachable as Hr.
  revert Hl Hr. generalize runtime4. intros r Hl Hr. split; [exact Hl|].
  pose proof (live_is_synchronized (W := sample_enums) sample_clock sample_alloc _ _
           runtime0_start Hr (running_owner _)) as H.
  simpl in H. rewrite Hl in H. exact H.
Defined.

Lemma subscriptions_bounded_and_unique_witness :
  ∃ r : Runtime (L := library), state r = RsLive ∧
    pending_admission_count r ≤ pending_admission_capacity (publication (limits r)).
Proof.
  exists runtime4. pose proof runtime4_live as Hl. pose proof runtime4_reachable as Hr.
  revert Hl Hr. generalize runtime4. intros r Hl Hr. split; [exact Hl|].
  exact (proj2 (proj1 (subscriptions_bounded_and_unique (W := sample_enums) sample_clock
    sample_alloc _ _ 0 0
    (SubscriberChannel.MkChannel "" "" (ring_make 0) None SubClosed 0)
    (SubscriberChannel.MkChannel "" "" (ring_make 0) None SubClosed 0)
    runtime0_start Hr (running_owner _)))).
Defined.
End Witness.
