(* ===== verification/RuntimeBehaviour.v ===== *)
(** * RuntimeBehaviour: what the owner's operations do

    The functional behaviour of the owner's programs, run without interference:
    faults, gaps, generation changes, resets and publication, and the termination
    of the owner loop. *)

From S2P Require Import Prelude Ring Wire Session OrderBookPublication.
From S2P Require Import OrderBookSession Programs Projection MarketRuntime RuntimeInvariants.
Import Impl.

Open Scope gateway_scope.

Section Work.
Context `{W : WireEnums} `{L : ProjectionLibrary}.
Context (clock : nat → option ClockSample) (alloc_ok : nat → bool).
Implicit Types (s : Runtime).

(** ** The work waiting for the owner *)

Definition reset_pending s : bool :=
  match reset_request s with
  | Some q => negb (bool_decide (is_Some (reset_result q)))
  | None => false
  end.

Definition snapshot_pending s : bool :=
  match snapshot_request s with
  | Some q => negb (bool_decide (is_Some (snapshot_result q)))
  | None => false
  end.

Definition work s : nat :=
  Nat.b2n (shutdown_pending s) + Nat.b2n (bool_decide (is_Some (pending_fault s)))
  + Nat.b2n (reset_pending s) + length (admission_requests s)
  + Nat.b2n (snapshot_pending s) + Nat.b2n (publication_removal_pending s)
  + length (ingress s).

(** No program of the owner makes work for the owner. *)
Record calm s s' : Prop := {
  ca_shutdown : shutdown_pending s' = true → shutdown_pending s = true;
  ca_fault : pending_fault s' = pending_fault s;
  ca_reset : reset_pending s' = true → reset_pending s = true;
  ca_admissions : length (admission_requests s') ≤ length (admission_requests s);
  ca_snapshot : snapshot_pending s' = true → snapshot_pending s = true;
  ca_removal : publication_removal_pending s' = publication_removal_pending s;
  ca_ingress : length (ingress s') ≤ length (ingress s);
  ca_stop : stop_requested s' = stop_requested s
}.

#[export] Instance calm_preorder : PreOrder calm.
Proof.
  split; [by split|]. intros x y z [] []. split; try congruence; try lia; auto.
Qed.

Lemma b2n_le (a b : bool) : (a = true → b = true) → Nat.b2n a ≤ Nat.b2n b.
Proof. destruct a, b; simpl; lia || naive_solver. Qed.

Lemma calm_work s s' : calm s s' → work s' ≤ work s.
Proof.
  intros []. unfold work. rewrite ca_fault0, ca_removal0.
  apply b2n_le in ca_shutdown0, ca_reset0, ca_snapshot0. lia.
Qed.

(** [settles p]: run alone, [p] is calm. *)
Definition settles {A} (p : prog Runtime A) : Prop := ∀ s, calm s (fst (run p s)).

Lemma settles_ret {A} (a : A) : settles (mret a).
Proof. intros s. simpl. reflexivity. Qed.

Lemma settles_bind {A B} (p : prog Runtime A) (k : A → prog Runtime B) :
  settles p → (∀ a, settles (k a)) → settles (p ≫= k).
Proof. intros Hp Hk s. rewrite run_bind. etrans; [apply Hp|apply Hk]. Qed.

Lemma settles_atomically {A} (f : Runtime → Runtime * A) :
  (∀ s, calm s (fst (f s))) → settles (atomically f).
Proof. intros Hf s. apply Hf. Qed.

Lemma settles_modify (f : Runtime → Runtime) : (∀ s, calm s (f s)) → settles (modify f).
Proof. intros Hf s. apply Hf. Qed.

Lemma settles_read {A} (f : Runtime → A) : settles (read f).
Proof. intros s. reflexivity. Qed.

Lemma settles_for_each {T} (l : list T) body :
  (∀ x, settles (body x)) → settles (for_each l body).
Proof.
  intros Hb. induction l as [|x l IH]; simpl; [apply settles_ret|]. by apply settles_bind.
Qed.

Lemma settles_for_each_while {T} (l : list T) body :
  (∀ x, settles (body x)) → settles (for_each_while l body).
Proof.
  intros Hb. induction l as [|x l IH]; simpl; [apply settles_ret|].
  apply settles_bind; [done|]. intros []; [done|apply settles_ret].
Qed.

Lemma settles_try_catch {A} (p : prog Runtime (outcome A)) h :
  settles p → settles h → settles (try_catch p h).
Proof. intros Hp Hh. apply settles_bind; [done|]. intros []; [apply settles_ret|done]. Qed.

Lemma settles_bind_throw {A B} (p : prog Runtime (outcome A))
    (k : A → prog Runtime (outcome B)) :
  settles p → (∀ a, settles (k a)) → settles (bind_throw p k).
Proof. intros Hp Hk. apply settles_bind; [done|]. intros []; [done|apply settles_ret]. Qed.
End Work.

Create HintDb settle.

Ltac settle_steps :=
  repeat match goal with
  | |- settles (_ ≫= _) => apply settles_bind; [|intros ?]
  | |- settles (mret _) => apply settles_ret
  | |- settles (read _) => apply settles_read
  | |- settles (for_each _ _) => apply settles_for_each; intros ?
  | |- settles (for_each_while _ _) => apply settles_for_each_while; intros ?
  | |- settles (try_catch _ _) => apply settles_try_catch
  | |- settles (bind_throw _ _) => apply settles_bind_throw; [|intros ?]
  | |- settles (if ?b then _ else _) => destruct b
  | |- settles (match ?x with _ => _ end) => destruct x
  | |- settles (let '(_, _) := ?x in _) => destruct x
  | |- settles _ => solve [eauto with settle]
  | |- settles (modify _) => apply settles_modify; intros ?; solve [by split]
  | |- settles (atomically _) => apply settles_atomically; intros ?; solve [by split]
  end.

Section Settling.
Context `{W : WireEnums} `{L : ProjectionLibrary}.
Context (clock : nat → option ClockSample) (alloc_ok : nat → bool).
Implicit Types (s : Runtime).

Lemma settles_live_subscribers l : settles (live_subscribers l).
Proof. induction l as [|a l IH]; cbn [live_subscribers]; settle_steps. Qed.
#[local] Hint Resolve settles_live_subscribers : settle.

Lemma settles_sweep : settles sweep_closed_subscribers.
Proof. unfold sweep_closed_subscribers. settle_steps. Qed.
#[local] Hint Resolve settles_sweep : settle.

Lemma settles_sample : settles (sample_publication_time clock).
Proof. unfold sample_publication_time, read_clock. settle_steps. Qed.
#[local] Hint Resolve settles_sample : settle.

Lemma settles_allocate : settles (allocate alloc_ok).
Proof. unfold allocate. settle_steps. Qed.
#[local] Hint Resolve settles_allocate : settle.

Lemma settles_terminalize re ac g : settles (terminalize_active_subscribers clock re ac g).
Proof. unfold terminalize_active_subscribers. settle_steps. Qed.
#[local] Hint Resolve settles_terminalize : settle.

Lemma calm_discard s : calm s (discard_ingress_locked s).
Proof. unfold discard_ingress_locked. case_match; split; simpl; auto; lia. Qed.

Lemma calm_fail_snapshot r s : calm s (fail_snapshot_request r s).
Proof. unfold fail_snapshot_request. repeat case_match; split; auto; done. Qed.

Lemma settles_transition re e : settles (transition_to_fault clock re e).
Proof.
  unfold transition_to_fault. settle_steps. apply settles_modify. intros s. unfold fault_commit.
  etrans; [|apply calm_fail_snapshot]. etrans; [|apply calm_discard]. by split.
Qed.
#[local] Hint Resolve settles_transition : settle.

Lemma settles_publish_state : settles publish_projection_state.
Proof.
  apply settles_modify. intros s. unfold publish_state_commit.
  case_match; case_match; try (etrans; [|apply calm_discard]); by split.
Qed.
#[local] Hint Resolve settles_publish_state : settle.

Lemma settles_admit_to u g t a : settles (admit_to alloc_ok u g t a).
Proof.
  unfold admit_to. settle_steps. apply settles_atomically. intros s.
  destruct (store s !! a); [|by split].
  destruct (SubscriberChannel.admit_update _ _ _ _ _). by split.
Qed.
#[local] Hint Resolve settles_admit_to : settle.

Lemma settles_publish_applied u g : settles (publish_applied_update clock alloc_ok u g).
Proof. unfold publish_applied_update. settle_steps. Qed.
#[local] Hint Resolve settles_publish_applied : settle.

Lemma settles_projection {A} (f : BookProjection → BookProjection * A) :
  settles (atomically (λ s, let '(p, r) := f (projection s) in (s <| projection := p |>, r))).
Proof. apply settles_atomically. intros s. destruct (f (projection s)). by split. Qed.
#[local] Hint Resolve settles_projection : settle.

Lemma settles_record_apply u g r : settles (modify (record_apply u g r)).
Proof. apply settles_modify. intros s. unfold record_apply. case_match; by split. Qed.
#[local] Hint Resolve settles_record_apply : settle.

Lemma settles_apply_update u g : settles (apply_update clock alloc_ok u g).
Proof. unfold apply_update. settle_steps. Qed.
#[local] Hint Resolve settles_apply_update : settle.

Lemma settles_replay n : settles (replay_bootstrap clock alloc_ok n).
Proof.
  induction n as [|n IH]; cbn [replay_bootstrap]; [apply settles_ret|].
  apply settles_bind; [|intros next; settle_steps; done].
  apply settles_atomically. intros s. destruct (bootstrap s); by split.
Qed.
#[local] Hint Resolve settles_replay : settle.

Lemma settles_process_input i : settles (process_input clock alloc_ok i).
Proof.
  unfold process_input, process_depth_update, process_snapshot. settle_steps.
Qed.
#[local] Hint Resolve settles_process_input : settle.

Lemma settles_process_item i : settles (process_item clock alloc_ok i).
Proof. unfold process_item. settle_steps. Qed.
#[local] Hint Resolve settles_process_item : settle.

Lemma settles_complete a r : settles (modify (complete_admission_request a r)).
Proof.
  apply settles_modify. intros s. unfold complete_admission_request. repeat case_match; by split.
Qed.
#[local] Hint Resolve settles_complete : settle.

Lemma settles_close_all : settles close_all_subscribers_for_shutdown.
Proof. unfold close_all_subscribers_for_shutdown. settle_steps. Qed.
#[local] Hint Resolve settles_close_all : settle.

Lemma calm_complete a r s : calm s (complete_admission_request a r s).
Proof. apply (settles_complete a r s). Qed.

Lemma settles_admission a sub : settles (perform_admission_request clock alloc_ok a sub).
Proof.
  unfold perform_admission_request, admit_with_snapshot, refuse. settle_steps.
  - apply settles_atomically. intros s.
    destruct (admission_gate s); [apply calm_complete|reflexivity].
  - apply settles_modify. intros s. unfold commit_admission.
    destruct (admission_gate s); [apply calm_complete|]. etrans; [|apply calm_complete]. by split.
Qed.
#[local] Hint Resolve settles_admission : settle.
End Settling.

Section Termination.
Context `{W : WireEnums} `{L : ProjectionLibrary}.
Context (clock : nat → option ClockSample) (alloc_ok : nat → bool).
Implicit Types (s : Runtime).
Abbreviation iteration := (owner_iteration clock alloc_ok).

Lemma calm_finish_reset r s :
  calm s (finish_reset r s) ∧ reset_pending (finish_reset r s) = false.
Proof. unfold finish_reset, reset_pending. case_match eqn:E; [by split; [split|]|]. by rewrite E. Qed.

Lemma calm_complete_snapshot r s :
  calm s (complete_snapshot_request r s) ∧
  snapshot_pending (complete_snapshot_request r s) = false.
Proof.
  unfold complete_snapshot_request, snapshot_pending.
  case_match eqn:E; [by split; [split|]|]. by rewrite E.
Qed.

(** A program that ends by answering the request it serves. *)
Lemma answers {A} (p : prog Runtime A) f (answered : Runtime → Prop) s :
  settles p → (∀ s', calm s' (f s') ∧ answered (f s')) →
  calm s (fst (run (p ;; modify f) s)) ∧ answered (fst (run (p ;; modify f) s)).
Proof.
  intros Hp Hf. run_step. destruct (Hf (fst (run p s))). split; [|done].
  etrans; [apply Hp|done].
Qed.

Lemma reset_answers s :
  calm s (fst (run (perform_reset_request clock) s)) ∧
  reset_pending (fst (run (perform_reset_request clock) s)) = false.
Proof.
  unfold perform_reset_request. run_step.
  unfold accept_reset. destruct (reset_request s) as [q|] eqn:Eq; cbn [fst snd].
  2: { run_step. split; [reflexivity|]. unfold reset_pending. by rewrite Eq. }
  destruct (match reset_kind q with ResetRecovery => _ | ResetPlanned => _ end) eqn:Ev; cbn [fst snd].
  2: { run_step. apply calm_finish_reset. }
  run_step.
  match goal with |- context [run ?p s] =>
    match p with context [terminalize_active_subscribers] =>
      assert (Ht : settles p) by (destruct (reset_kind q); apply settles_terminalize);
      pose proof (Ht s) as Hs1; set (s1 := fst (run p s)) in *
    end
  end.
  clearbody s1. destruct (reset (projection s1)) as [p [u|]]; run_step;
    (split; [etrans; [exact Hs1|]; etrans; [|apply calm_finish_reset]; by split
            |apply calm_finish_reset]).
Qed.

Lemma snapshot_answers s :
  calm s (fst (run (perform_snapshot_request clock) s)) ∧
  snapshot_pending (fst (run (perform_snapshot_request clock) s)) = false.
Proof.
  unfold perform_snapshot_request. run_step.
  destruct (negb _); [run_step; apply calm_complete_snapshot|].
  unfold read_clock. run_step. destruct (clock (clock_reads s)); run_step.
  - match goal with |- calm _ (complete_snapshot_request ?r ?x) ∧ _ =>
      destruct (calm_complete_snapshot r x) end.
    split; [etrans; [|done]; by split|done].
  - match goal with |- calm _ (complete_snapshot_request ?r ?x) ∧ _ =>
      destruct (calm_complete_snapshot r x) end.
    split; [etrans; [|done]; by split|done].
Qed.

Lemma shutdown_answers s :
  calm s (fst (run perform_publication_shutdown_control s)) ∧
  shutdown_pending (fst (run perform_publication_shutdown_control s)) = false.
Proof.
  apply (answers close_all_subscribers_for_shutdown shutdown_commit
           (λ x, shutdown_pending x = false)); [apply settles_close_all|].
  intros s'. split.
  - split; try done; try (simpl; lia). unfold shutdown_pending. simpl. by rewrite andb_false_r.
  - unfold shutdown_pending. simpl. by rewrite andb_false_r.
Qed.

(** Every iteration that finds something to do leaves less to do. *)
Lemma iteration_decreases s :
  snd (owner_take s) ≠ TaskBlocked → snd (owner_take s) ≠ TaskExit →
  work (fst (run iteration s)) < work s ∧ snd (run iteration s) = true ∧
  stop_requested (fst (run iteration s)) = stop_requested s.
Proof.
  unfold owner_iteration. run_step.
  assert (Hcalm : ∀ (p : prog Runtime ()) s0, settles p → work s0 < work s →
    stop_requested s0 = stop_requested s →
    work (fst (run (p ;; mret true) s0)) < work s ∧ snd (run (p ;; mret true) s0) = true ∧
    stop_requested (fst (run (p ;; mret true) s0)) = stop_requested s).
  { intros p s0 Hp Hw Hst. run_step. pose proof (calm_work _ _ (Hp s0)).
    split; [lia|]. split; [done|]. by rewrite (ca_stop _ _ (Hp s0)). }
  unfold owner_take. destruct (owner_awake s); cbn [fst snd negb]; [|done].
  destruct (shutdown_pending s) eqn:Es; cbn [fst snd negb].
  { intros _ _. unfold run_task. run_step. destruct (shutdown_answers s) as [Hc Hd].
    split; [|split; [done|apply Hc]]. destruct Hc. unfold work. rewrite Es, Hd, ca_fault0, ca_removal0.
    apply b2n_le in ca_reset0, ca_snapshot0. cbn [Nat.b2n]. lia. }
  destruct (pending_fault s) as [r|] eqn:Ef; cbn [fst snd negb].
  { intros _ _. apply Hcalm; [apply settles_transition| |done]. unfold work. simpl. rewrite Ef.
    unfold reset_pending, snapshot_pending, shutdown_pending. simpl. lia. }
  destruct (reset_ready_locked s) eqn:Er; cbn [fst snd negb].
  { intros _ _. unfold run_task. run_step. destruct (reset_answers s) as [Hc Hd].
    split; [|split; [done|apply Hc]]. destruct Hc. unfold work. rewrite Hd, ca_fault0, ca_removal0.
    apply b2n_le in ca_shutdown0, ca_snapshot0.
    assert (Hp : reset_pending s = true).
    { unfold reset_ready_locked, reset_pending in *. destruct (reset_request s); [|done].
      by apply andb_true_iff in Er as [-> _]. }
    rewrite Hp. cbn [Nat.b2n]. lia. }
  destruct (admission_ready_locked s) eqn:Ea; cbn [fst snd negb].
  { unfold admission_ready_locked in Ea. destruct (admission_requests s) as [|a rest] eqn:Eq; [done|].
    destruct (requests s !! a) as [q|]; [|done]. intros _ _.
    apply Hcalm; [apply settles_admission| |done]. unfold work. simpl. rewrite Eq.
    unfold reset_pending, snapshot_pending, shutdown_pending. simpl. lia. }
  destruct (snapshot_ready_locked s) eqn:En; cbn [fst snd negb].
  { intros _ _. unfold run_task. run_step. destruct (snapshot_answers s) as [Hc Hd].
    split; [|split; [done|apply Hc]]. destruct Hc. unfold work. rewrite Hd, ca_fault0, ca_removal0.
    apply b2n_le in ca_shutdown0, ca_reset0.
    assert (Hp : snapshot_pending s = true).
    { unfold snapshot_ready_locked, snapshot_pending in *. destruct (snapshot_request s); [|done].
      by apply andb_true_iff in En as [-> _]. }
    rewrite Hp. cbn [Nat.b2n]. lia. }
  destruct (publication_removal_pending s) eqn:Em; cbn [fst snd negb].
  { intros _ _. apply Hcalm; [apply settles_sweep| |done]. unfold work. simpl. rewrite Em.
    unfold reset_pending, snapshot_pending, shutdown_pending. simpl. lia. }
  destruct (ingress s) as [|item rest] eqn:Ei; cbn [fst snd negb]; [by destruct (stop_requested s)|].
  intros _ _. apply Hcalm; [apply settles_process_item| |done]. unfold work. simpl. rewrite Ei.
  unfold reset_pending, snapshot_pending, shutdown_pending. simpl. lia.
Qed.

(** A stopping owner is never blocked. *)
Lemma stopping_not_blocked s : stop_requested s = true → snd (owner_take s) ≠ TaskBlocked.
Proof.
  intros Hs. unfold owner_take, owner_awake. rewrite Hs. simpl.
  destruct (shutdown_pending s); [done|]. destruct (pending_fault s); [done|].
  destruct (reset_ready_locked s); [done|].
  destruct (admission_ready_locked s) eqn:Ea; [|repeat case_match; done].
  unfold admission_ready_locked in Ea. destruct (admission_requests s) as [|a rest]; [done|].
  by destruct (requests s !! a).
Qed.

Lemma iteration_exits s : snd (owner_take s) = TaskExit → snd (run iteration s) = false.
Proof. intros H. unfold owner_iteration. run_step. by rewrite H. Qed.

(** ** Theorems *)

(** C7: once a stop is requested, the owner loop ends: whatever is queued, after at
    most one iteration per waiting piece of work and one more, it reaches its
    [break], so the [join] in [stop] returns. *)
Theorem owner_loop_terminates s :
  stop_requested s = true →
  ∀ n, work s < n → snd (run (owner_iterations clock alloc_ok n) s) = false.
Proof.
  intros Hs n Hn. revert s Hs Hn. induction n as [|n IH]; intros s Hs Hn; [lia|].
  cbn [owner_iterations]. rewrite run_bind.
  destruct (snd (owner_take s)) eqn:Et;
    try (by apply stopping_not_blocked in Hs);
    try (destruct (iteration_decreases s) as (Hlt & -> & Hst); [by rewrite Et..|];
         apply IH; [by rewrite Hst|lia]).
  by rewrite (iteration_exits s Et).
Qed.
End Termination.

Section Effects.
Context `{W : WireEnums} `{L : ProjectionLibrary}.
Context (clock : nat → option ClockSample) (alloc_ok : nat → bool).
Implicit Types (s : Runtime).
Abbreviation Channel := (SubscriberChannel.Channel LocalOrderBookSnapshot).

(** ** What the sweeping and terminating loops compute *)

Definition open_subscribers s : list Z :=
  filter (λ a, subscriber_closed a s = false) (subscribers s).

Lemma run_live_subscribers l s :
  run (live_subscribers l) s = (s, filter (λ a, subscriber_closed a s = false) l).
Proof.
  induction l as [|a l IH]; cbn [live_subscribers]; [done|].
  run_step. rewrite IH. run_step. f_equal. rewrite filter_cons.
  destruct (subscriber_closed a s); [by rewrite decide_False|by rewrite decide_True].
Qed.

(** The state after [sweep_closed_subscribers]. *)
Definition swept s : Runtime :=
  s <| subscribers := open_subscribers s |>
    <| observation ::= λ o,
         o <| obs_resident_subscription_count := length (open_subscribers s) |> |>.

Lemma run_sweep s : fst (run sweep_closed_subscribers s) = swept s.
Proof.
  unfold sweep_closed_subscribers. run_step. rewrite run_live_subscribers. run_step. done.
Qed.

Definition alter_all (f : Channel → Channel) (l : list Z) (m : gmap Z Channel) : gmap Z Channel :=
  foldl (λ m a, alter f a m) m l.

Lemma alter_all_lookup f l m a :
  NoDup l → alter_all f l m !! a = if decide (a ∈ l) then f <$> m !! a else m !! a.
Proof.
  intros Hnd. revert m. induction Hnd as [|b l Hb Hnd IH]; intros m; simpl; [done|].
  unfold alter_all in *. simpl. rewrite IH. destruct (decide (b = a)) as [->|Hne].
  - rewrite decide_False by done. rewrite decide_True by (left; done). apply lookup_alter_eq.
  - rewrite lookup_alter_ne by done. apply decide_ext. rewrite elem_of_cons.
    split; [by right|]. intros [->|]; done.
Qed.

Lemma run_for_each_channel f l s :
  run (for_each l (λ a, modify (on_channel f a))) s
  = (s <| store := alter_all f l (store s) |>, ()).
Proof.
  revert s. induction l as [|a l IH]; intros s; [by destruct s|].
  cbn [for_each]. run_step. rewrite IH. done.
Qed.

(** The time the terminal notices carry. *)
Definition terminal_time s : PublicationTime :=
  match clock (clock_reads s) with
  | Some c => MkPublicationTime (sample_utc_ns c) (Some (sample_monotonic_ns c))
  | None => MkPublicationTime 0 None
  end.

Definition terminate (re ac : Z) (g : option Z) s (c : Channel) : Channel :=
  fst (SubscriberChannel.terminalize re ac g (terminal_time s) c).

(** The state after [terminalize_active_subscribers]. *)
Definition terminated (re ac : Z) (g : option Z) s : Runtime :=
  s <| subscribers := open_subscribers s |>
    <| observation ::= λ o,
         o <| obs_resident_subscription_count := length (open_subscribers s) |>
           <| obs_last_publication_thread_id := owner_thread |> |>
    <| clock_reads ::= Nat.succ |>
    <| store := alter_all (terminate re ac g s) (open_subscribers s) (store s) |>.

Lemma run_terminalize re ac g s :
  fst (run (terminalize_active_subscribers clock re ac g) s) = terminated re ac g s.
Proof.
  unfold terminalize_active_subscribers, sample_publication_time, read_clock.
  run_step. rewrite run_sweep. run_step. rewrite run_for_each_channel.
  unfold terminated, terminate, terminal_time. simpl.
  destruct (clock (clock_reads s)); done.
Qed.

(** A closed channel is left as it is, so all subscribers are treated alike. *)
Lemma terminate_closed re ac g s c :
  SubscriberChannel.state c = SubClosed → terminate re ac g s c = c.
Proof.
  intros Hc. unfold terminate, SubscriberChannel.terminalize.
  by rewrite bool_decide_eq_false_2 by congruence.
Qed.

Lemma terminated_channel re ac g s a c :
  NoDup (subscribers s) → a ∈ subscribers s → store s !! a = Some c →
  store (terminated re ac g s) !! a = Some (terminate re ac g s c).
Proof.
  intros Hnd Ha Hc. simpl. unfold open_subscribers.
  rewrite alter_all_lookup by by apply NoDup_filter.
  destruct (decide _) as [_|Hn]; [by rewrite Hc|]. rewrite Hc. f_equal. symmetry.
  apply terminate_closed. rewrite list_elem_of_filter in Hn.
  unfold subscriber_closed in Hn. rewrite Hc in Hn.
  destruct (decide (SubscriberChannel.state c = SubClosed)) as [|Hne]; [done|].
  destruct Hn. by rewrite bool_decide_eq_false_2.
Qed.

(** An active channel ends in the gap state with the notice reserved. *)
Lemma terminate_active re ac g s c :
  SubscriberChannel.state c = SubActive → SubscriberChannel.terminal c = None →
  SubscriberChannel.state (terminate re ac g s c) = SubTerminalGap ∧
  SubscriberChannel.ring (terminate re ac g s c) = SubscriberChannel.ring c ∧
  SubscriberChannel.terminal (terminate re ac g s c) =
    Some (MkTerminalDescriptor (SubscriberChannel.next_session_sequence c) g
            (terminal_time s) re ac).
Proof.
  intros Ha Ht. unfold terminate, SubscriberChannel.terminalize. by rewrite Ha, Ht.
Qed.

Definition faulted (reason : FaultReason) (error : option AdapterError) s : Runtime :=
  fault_commit reason error
    (terminated CONSUMER_GAP_REASON_RESUME_NOT_AVAILABLE RECOVERY_ACTION_REQUEST_NEW_SNAPSHOT
       (current_projection_generation s) s).

Lemma run_transition reason error s :
  fst (run (transition_to_fault clock reason error) s) = faulted reason error s.
Proof. unfold transition_to_fault, faulted. run_step. rewrite run_terminalize. reflexivity. Qed.

Lemma discard_frame s :
  store (discard_ingress_locked s) = store s ∧
  projection (discard_ingress_locked s) = projection s ∧
  accepting (discard_ingress_locked s) = accepting s ∧
  bootstrap (discard_ingress_locked s) = bootstrap s ∧
  current_projection_generation (discard_ingress_locked s) = current_projection_generation s ∧
  snapshot_request (discard_ingress_locked s) = snapshot_request s ∧
  last_admitted_ticket (discard_ingress_locked s) = last_admitted_ticket s ∧
  obs_fault_reason (observation (discard_ingress_locked s)) = obs_fault_reason (observation s) ∧
  obs_last_applied_depth (observation (discard_ingress_locked s))
  = obs_last_applied_depth (observation s).
Proof. unfold discard_ingress_locked. by case_match. Qed.

Lemma fail_snapshot_frame r s :
  store (fail_snapshot_request r s) = store s ∧
  projection (fail_snapshot_request r s) = projection s ∧
  accepting (fail_snapshot_request r s) = accepting s ∧
  bootstrap (fail_snapshot_request r s) = bootstrap s ∧
  ingress (fail_snapshot_request r s) = ingress s ∧
  state (fail_snapshot_request r s) = state s ∧
  snapshot_pending (fail_snapshot_request r s) = false ∧
  observation (fail_snapshot_request r s) = observation s.
Proof.
  unfold fail_snapshot_request, snapshot_pending.
  destruct (snapshot_request s) as [[t [r'|]]|] eqn:E; simpl; rewrite ?E; done.
Qed.

(** The end of [fault_commit] on any state. *)
Lemma commit_frame x :
  let y := fail_snapshot_request SeFaulted (discard_ingress_locked x) in
  state y = state x ∧ accepting y = accepting x ∧ ingress y = [] ∧
  bootstrap y = bootstrap x ∧ projection y = projection x ∧ snapshot_pending y = false ∧
  obs_fault_reason (observation y) = obs_fault_reason (observation x) ∧
  obs_last_applied_depth (observation y) = obs_last_applied_depth (observation x) ∧
  store y = store x.
Proof.
  intros y0. subst y0. destruct (discard_frame x) as (D1 & D2 & D3 & D4 & _ & _ & _ & D5 & D6).
  pose proof (discard_state x) as D7. pose proof (discard_ingress_empty x) as D8.
  revert D1 D2 D3 D4 D5 D6 D7 D8. generalize (discard_ingress_locked x). intros z **.
  destruct (fail_snapshot_frame SeFaulted z) as (F1 & F2 & F3 & F4 & F5 & F6 & F7 & F8).
  revert F1 F2 F3 F4 F5 F6 F7 F8. generalize (fail_snapshot_request SeFaulted z).
  intros y **. split_all; congruence.
Qed.

Lemma faulted_frame reason error s :
  state (faulted reason error s) = RsFaulted ∧
  accepting (faulted reason error s) = false ∧
  ingress (faulted reason error s) = [] ∧
  bootstrap (faulted reason error s) = [] ∧
  projection (faulted reason error s) = projection s ∧
  snapshot_pending (faulted reason error s) = false ∧
  obs_fault_reason (observation (faulted reason error s)) = Some reason ∧
  obs_last_applied_depth (observation (faulted reason error s))
    = obs_last_applied_depth (observation s) ∧
  store (faulted reason error s) =
    store (terminated CONSUMER_GAP_REASON_RESUME_NOT_AVAILABLE
             RECOVERY_ACTION_REQUEST_NEW_SNAPSHOT (current_projection_generation s) s).
Proof. exact (commit_frame _). Qed.
End Effects.

Section Behaviour.
Context `{W : WireEnums} `{L : ProjectionLibrary}.
Context (clock : nat → option ClockSample) (alloc_ok : nat → bool).
Implicit Types (s : Runtime) (c : SubscriberChannel.Channel LocalOrderBookSnapshot).

(** The notice a broken source owes each live subscriber. *)
Definition notified (reason action : Z) (g : option Z) s s' : Prop :=
  ∀ a c, a ∈ subscribers s → store s !! a = Some c →
    SubscriberChannel.state c = SubActive → SubscriberChannel.terminal c = None →
    ∃ c', store s' !! a = Some c' ∧ SubscriberChannel.state c' = SubTerminalGap ∧
      SubscriberChannel.ring c' = SubscriberChannel.ring c ∧
      SubscriberChannel.terminal c' = Some (MkTerminalDescriptor
        (SubscriberChannel.next_session_sequence c) g (terminal_time clock s) reason action).

Lemma terminated_notifies re ac g s s' :
  NoDup (subscribers s) → store s' = store (terminated clock re ac g s) →
  notified re ac g s s'.
Proof.
  intros Hnd Hst a c Ha Hc Hact Ht. rewrite Hst.
  eexists. split; [by apply terminated_channel|]. by apply terminate_active.
Qed.

(** A fault, whatever its reason, refuses further inputs, discards everything
    that was queued or buffered, fails a waiting snapshot request and ends every
    live subscription with the notice to ask for a new snapshot, keeping what the
    subscriber has not read yet. *)
Theorem fault_closes_the_product s reason error :
  NoDup (subscribers s) →
  let s' := fst (run (transition_to_fault clock reason error) s) in
  state s' = RsFaulted ∧ accepting s' = false ∧ ingress s' = [] ∧ bootstrap s' = [] ∧
  obs_fault_reason (observation s') = Some reason ∧ snapshot_pending s' = false ∧
  notified CONSUMER_GAP_REASON_RESUME_NOT_AVAILABLE RECOVERY_ACTION_REQUEST_NEW_SNAPSHOT
    (current_projection_generation s) s s'.
Proof.
  intros Hnd s'. subst s'. rewrite run_transition.
  destruct (faulted_frame clock reason error s) as (? & ? & ? & ? & _ & ? & ? & _ & Hst).
  split_all; try done. by apply terminated_notifies.
Qed.

(** An update that belongs to another connection generation than the installed
    baseline never reaches the projection: the book is unchanged, nothing is
    recorded as applied, and the runtime faults. *)
Theorem stale_generation_is_never_applied s u g g' :
  current_projection_generation s = Some g → g' ≠ g →
  let s' := fst (run (apply_update clock alloc_ok u (Some g')) s) in
  projection s' = projection s ∧ state s' = RsFaulted ∧
  obs_fault_reason (observation s') = Some FrInternalError ∧
  obs_last_applied_depth (observation s') = obs_last_applied_depth (observation s).
Proof.
  intros Hg Hne s'. subst s'. unfold apply_update. run_step. rewrite Hg.
  assert (Hm : generation_mismatch (Some g) (Some g') = true).
  { unfold generation_mismatch. by rewrite (bool_decide_eq_false_2 (Some g = Some g')) by congruence. }
  rewrite Hm. run_step. rewrite run_transition.
  by destruct (faulted_frame clock FrInternalError None s) as (? & _ & _ & _ & ? & _ & ? & ? & _).
Qed.

Lemma publish_resync_frame s :
  status (projection s) = PsNeedsResync →
  state s ≠ RsFaulted → state s ≠ RsStopping → state s ≠ RsStopped →
  let s' := publish_state_commit (status (projection s)) s in
  state s' = RsNeedsResync ∧ accepting s' = false ∧ ingress s' = [] ∧ store s' = store s.
Proof.
  intros Hst H1 H2 H3 s'. subst s'. unfold publish_state_commit. rewrite Hst. cbv zeta.
  rewrite (bool_decide_eq_true_2 (PsNeedsResync = PsNeedsResync)) by done.
  match goal with |- context [if ?b then ?x else set_state _ _] =>
    replace b with false by (symmetry; unfold state in *; simpl;
      rewrite !orb_false_iff, !bool_decide_eq_false; done) end.
  rewrite discard_state, discard_ingress_empty.
  match goal with |- context [discard_ingress_locked ?x] =>
    destruct (discard_frame x) as (-> & _ & -> & _) end.
  done.
Qed.

(** C8: a sequence gap found by the projection puts the runtime out of sync: the
    queued inputs are discarded, new ones refused, and every live subscriber is
    told of the upstream gap, under the generation of the offending update. *)
Theorem gap_resynchronizes s u g batch p r :
  ProjectionLibraryOk L →
  generation_mismatch (current_projection_generation s) g = false →
  adapt_depth_update u (projection s) (expected_identity s) = Returned (inl batch) →
  apply_to batch (projection s) = (p, Returned (inl r)) → apply_disposition r = GapDetected →
  NoDup (subscribers s) →
  state s ≠ RsFaulted → state s ≠ RsStopping → state s ≠ RsStopped →
  let s' := fst (run (apply_update clock alloc_ok u g) s) in
  state s' = RsNeedsResync ∧ accepting s' = false ∧ ingress s' = [] ∧
  notified CONSUMER_GAP_REASON_UPSTREAM_SEQUENCE_GAP RECOVERY_ACTION_REQUEST_NEW_SNAPSHOT g s s'.
Proof.
  intros HL Hg Had Hap Hr Hnd H1 H2 H3 s'. subst s'. unfold apply_update. run_step.
  rewrite Hg. run_step. rewrite Had. run_step. rewrite Hap. run_step. rewrite Hr.
  unfold publish_projection_state. run_step. rewrite run_terminalize.
  unfold record_apply. rewrite Hr. rewrite (bool_decide_eq_false_2 (GapDetected = Applied)) by done.
  match goal with |- context [publish_state_commit _ ?x] =>
    destruct (publish_resync_frame x) as (-> & -> & -> & Hst); try done end.
  { apply (gap_needs_resync batch (projection s) p r Hap Hr). }
  split_all; try done.
  match type of Hst with _ = store (terminated _ _ _ _ ?x) =>
    exact (terminated_notifies _ _ g x _ Hnd Hst) end.
Qed.

(** Fields of the state after the last two sections of a reset. *)
Lemma reset_commit_frame x :
  let y := finish_reset RrReset (reset_commit x) in
  projection y = projection x ∧ bootstrap y = bootstrap x ∧
  current_projection_generation y = current_projection_generation x ∧
  state y = RsBuffering ∧ accepting y = true ∧
  obs_fault_reason (observation y) = None ∧ obs_adapter_error (observation y) = None ∧
  obs_last_apply (observation y) = None ∧ obs_last_applied_depth (observation y) = None ∧
  obs_reset_count (observation y) = u64_succ (obs_reset_count (observation x)) ∧
  ingress y = ingress x ∧ last_admitted_ticket y = last_admitted_ticket x ∧
  processed_ticket y = processed_ticket x ∧
  reset_result <$> reset_request y = (λ _, Some RrReset) <$> reset_request x.
Proof.
  intros y. subst y. unfold finish_reset.
  assert (Hq : reset_request (reset_commit x) = reset_request x) by done. rewrite Hq.
  destruct (reset_request x) as [q|]; [done|]. by rewrite Hq.
Qed.

(** The state after an accepted recovery reset. *)
Lemma run_recovery_reset s q p :
  reset_request s = Some q → reset_kind q = ResetRecovery →
  state s = RsFaulted ∨ state s = RsNeedsResync →
  reset (projection s) = (p, Returned ()) →
  fst (run (perform_reset_request clock) s) =
  finish_reset RrReset (reset_commit
    (terminated clock CONSUMER_GAP_REASON_RESUME_NOT_AVAILABLE
       RECOVERY_ACTION_REQUEST_NEW_SNAPSHOT (current_projection_generation s) s
     <| projection := p |> <| bootstrap := [] |> <| current_projection_generation := None |>)).
Proof.
  intros Hq Hk Hst Hp. unfold perform_reset_request. run_step.
  unfold accept_reset. rewrite Hq, Hk.
  replace (bool_decide (state s = RsFaulted) || bool_decide (state s = RsNeedsResync)) with true
    by (symmetry; rewrite orb_true_iff, !bool_decide_eq_true; done).
  do 2 run_step. rewrite run_terminalize.
  match goal with |- context [reset (projection ?x)] =>
    assert (Hx : projection x = projection s) by done; rewrite Hx, Hp end.
  run_step. reflexivity.
Qed.

(** A recovery reset that the projection accepts leaves a runtime that accepts
    inputs again and waits for a baseline: book, buffer, generation and every
    recorded fault, gap and result are cleared, while tickets and queue are kept. *)
Theorem recovery_reset_clears s q p :
  reset_request s = Some q → reset_kind q = ResetRecovery →
  state s = RsFaulted ∨ state s = RsNeedsResync →
  reset (projection s) = (p, Returned ()) →
  let s' := fst (run (perform_reset_request clock) s) in
  projection s' = p ∧ bootstrap s' = [] ∧ current_projection_generation s' = None ∧
  state s' = RsBuffering ∧ accepting s' = true ∧
  obs_fault_reason (observation s') = None ∧ obs_adapter_error (observation s') = None ∧
  obs_last_apply (observation s') = None ∧ obs_last_applied_depth (observation s') = None ∧
  obs_reset_count (observation s') = u64_succ (obs_reset_count (observation s)) ∧
  ingress s' = ingress s ∧ last_admitted_ticket s' = last_admitted_ticket s ∧
  processed_ticket s' = processed_ticket s ∧
  reset_result <$> reset_request s' = Some (Some RrReset).
Proof.
  intros Hq Hk Hst Hp s'. subst s'. rewrite (run_recovery_reset s q p Hq Hk Hst Hp).
  match goal with |- context [reset_commit ?x] =>
    destruct (reset_commit_frame x) as
      (-> & -> & -> & -> & -> & -> & -> & -> & -> & -> & -> & -> & -> & ->);
    assert (Hx : reset_request x = reset_request s) by done; rewrite Hx, Hq end.
  done.
Qed.

(** A full ingress is answered with [Full], accepts nothing more, and the owner
    then turns it into the overflow fault before it looks at any queued input. *)
Theorem overflow_faults i pushed s :
  stopped s = false → started s = true → stop_requested s = false → accepting s = true →
  length (ingress s) = ingress_capacity (limits s) →
  owner_paused s = false → shutdown_pending s = false →
  let '(s1, r) := submit pushed i s in
  r = Returned ArFull ∧ ingress s1 = ingress s ∧
  (∀ pushed' i', submit pushed' i' s1 = (s1, Returned ArFaulted)) ∧
  let s2 := fst (run (owner_iteration clock alloc_ok) s1) in
  state s2 = RsFaulted ∧ obs_fault_reason (observation s2) = Some IngressOverflow ∧
  ingress s2 = [].
Proof.
  intros H1 H2 H3 H4 H5 H6 H7. unfold submit at 1. rewrite H1, H2, H3, H4. cbn [negb].
  rewrite bool_decide_eq_true_2 by done. split; [done|]. split; [done|]. split.
  { intros pushed' i'. unfold submit. simpl. by rewrite H1, H2, H3. }
  unfold owner_iteration. run_step.
  match goal with |- context [owner_take ?x] => set (s1 := x) end.
  assert (Ht : owner_take s1 = (s1 <| pending_fault := None |>, TaskFault IngressOverflow)).
  { unfold owner_take, owner_awake.
    assert (Hsp : shutdown_pending s1 = shutdown_pending s) by done. rewrite Hsp, H7.
    assert (Hop : owner_paused s1 = owner_paused s) by done. rewrite Hop, H6.
    simpl. by rewrite orb_true_r. }
  rewrite Ht. unfold run_task. do 2 run_step. rewrite run_transition.
  destruct (faulted_frame clock IngressOverflow None (s1 <| pending_fault := None |>))
    as (? & _ & ? & _ & _ & _ & ? & _). done.
Qed.
End Behaviour.

Section Publication.
Context `{W : WireEnums} `{L : ProjectionLibrary}.
Context (clock : nat → option ClockSample).
Implicit Types (s : Runtime) (c : SubscriberChannel.Channel LocalOrderBookSnapshot).
Abbreviation always := (λ _ : nat, true).

Lemma admit_update_ok u g t x c :
  SubscriberChannel.next_session_sequence c ≠ u64_max →
  snd (SubscriberChannel.admit_update u g t (Some x) c) ≠ OaAllocationFailure.
Proof.
  intros Hn. unfold SubscriberChannel.admit_update, SubscriberChannel.ring_push_locked, ring_push.
  destruct (negb _); [done|]. destruct (decide _) as [|Hfull]; [done|].
  apply Z.eqb_neq in Hn. rewrite Hn. done.
Qed.

Lemma admit_update_closed u g t al c :
  SubscriberChannel.state c = SubClosed →
  SubscriberChannel.admit_update u g t al c = (c, OaInactive).
Proof. intros Hc. unfold SubscriberChannel.admit_update. by rewrite Hc. Qed.

(** [s'] is [s] after some subscribers were offered the update. *)
Record offered (u : shared_ptr DepthUpdate) (g : option Z) (t : PublicationTime)
    (l : list Z) s s' : Prop := {
  of_others : ∀ a, a ∉ l → store s' !! a = store s !! a;
  of_listed : ∀ a c, a ∈ l → store s !! a = Some c →
      ∃ al, store s' !! a = Some (fst (SubscriberChannel.admit_update (Some u) g t (Some al) c));
  of_projection : projection s' = projection s;
  of_state : state s' = state s;
  of_subscribers : subscribers s' = subscribers s
}.

Lemma run_admit_to u g t b s :
  run (admit_to always u g t b) s =
  let s1 := s <| allocations ::= Nat.succ |> in
  match store s !! b with
  | Some c =>
      let '(c', r) := SubscriberChannel.admit_update (Some u) g t
                        (Some (Z.of_nat (allocations s))) c in
      (s1 <| store ::= <[b := c']> |>, negb (bool_decide (r = OaAllocationFailure)))
  | None => (s1, true)
  end.
Proof.
  unfold admit_to, allocate. run_step.
  change (store (s <| allocations ::= Nat.succ |>)) with (store s).
  destruct (store s !! b); [|done]. by destruct (SubscriberChannel.admit_update _ _ _ _ _).
Qed.

Lemma run_offers u g t l s :
  NoDup l →
  (∀ a c, a ∈ l → store s !! a = Some c → SubscriberChannel.next_session_sequence c ≠ u64_max) →
  let r := run (for_each_while l (admit_to always u g t)) s in
  snd r = true ∧ offered u g t l s (fst r).
Proof.
  intros Hnd. revert s. induction Hnd as [|b l Hb Hnd IH]; intros s Hok.
  { split; [done|]. split; try done. set_solver. }
  cbn [for_each_while]. cbv zeta. rewrite !run_bind, run_admit_to. cbv zeta.
  destruct (store s !! b) as [c|] eqn:Ec; cbn [fst snd].
  - destruct (SubscriberChannel.admit_update _ _ _ _ c) as [c' r] eqn:Ea. cbn [fst snd].
    pose proof (admit_update_ok (Some u) g t (Z.of_nat (allocations s)) c
                  (Hok b c ltac:(by left) Ec)) as Hne.
    rewrite Ea in Hne. rewrite (bool_decide_eq_false_2 (r = OaAllocationFailure)) by done.
    cbn [negb].
    match goal with |- context [run _ ?x] => set (s1 := x) end.
    destruct (IH s1) as [Htrue Hoff].
    { intros a d Ha Hd. subst s1. simpl in Hd.
      rewrite lookup_insert_ne in Hd by (intros ->; done). eapply Hok; [by right|done]. }
    split; [done|]. destruct Hoff. split; try done.
    + intros a Ha. rewrite of_others0 by (intros Hx; apply Ha; by right).
      apply lookup_insert_ne. intros ->. apply Ha. by left.
    + intros a d [->|Ha]%elem_of_cons Hd.
      * rewrite Ec in Hd. simplify_eq. exists (Z.of_nat (allocations s)).
        rewrite of_others0 by done. subst s1. simpl. rewrite lookup_insert_eq. by rewrite Ea.
      * apply of_listed0; [done|]. subst s1. simpl.
        rewrite lookup_insert_ne; [done|]. intros ->. done.
  - match goal with |- context [run _ ?x] => set (s1 := x) end.
    destruct (IH s1) as [Htrue Hoff].
    { intros a d Ha Hd. eapply Hok; [by right|done]. }
    split; [done|]. destruct Hoff. split; try done.
    + intros a Ha. rewrite of_others0; [done|]. intros Hx. apply Ha. by right.
    + intros a d [->|Ha]%elem_of_cons Hd; [congruence|]. by apply of_listed0.
Qed.

End Publication.

(** ** Witnesses: the sample runtime with one subscriber *)

Section Witness.
Import SampleProjection.

Definition sample_subscription : ValidatedOrderBookSubscription :=
  MkValidatedOrderBookSubscription "r" "gw" None.

(** Live with one subscriber; faulted with a reset waiting; full; stopping. *)
Definition runtime_subscribed : Runtime (L := library) :=
  fst (run (owner_iteration (W := sample_enums) sample_clock sample_alloc)
         (fst (admit_order_book_subscription (Some 100%Z) sample_subscription runtime4))).
Definition runtime_resetting : Runtime (L := library) := fst (reset_for_rebootstrap runtime5).
Definition runtime_full : Runtime (L := library) :=
  fst (submit true (FailureInput InjectedTransport)
         (fst (submit true (FailureInput InjectedTransport) runtime2))).
Definition runtime_stopping : Runtime (L := library) := fst (stop_begin runtime2).

Definition gap_update : DepthUpdate := sample_depth 100 200 9.

Lemma subscribed_nodup : NoDup (subscribers runtime_subscribed).
Proof. apply (bool_decide_unpack _). vm_compute. exact I. Qed.

Lemma subscribed_one : length (subscribers runtime_subscribed) = 1.
Proof. vm_compute. reflexivity. Qed.

Lemma fault_closes_the_product_witness :
  ∃ s : Runtime (L := library), length (subscribers s) = 1 ∧
    state (fst (run (transition_to_fault (W := sample_enums) sample_clock TransportFailure None) s))
    = RsFaulted.
Proof.
  exists runtime_subscribed. pose proof subscribed_nodup as Hn. pose proof subscribed_one as H1.
  revert Hn H1. generalize runtime_subscribed. intros s Hn H1. split; [exact H1|].
  exact (proj1 (fault_closes_the_product (W := sample_enums) sample_clock s TransportFailure None Hn)).
Defined.

Lemma subscribed_generation : current_projection_generation runtime_subscribed = Some 1%Z.
Proof. vm_compute. reflexivity. Qed.

Lemma stale_generation_is_never_applied_witness :
  ∃ s : Runtime (L := library),
    projection (fst (run (apply_update (W := sample_enums) sample_clock sample_alloc gap_update
                            (Some 2%Z)) s)) = projection s.
Proof.
  exists runtime_subscribed. pose proof subscribed_generation as Hg. revert Hg.
  generalize runtime_subscribed. intros s Hg.
  refine (proj1 (stale_generation_is_never_applied (W := sample_enums) sample_clock sample_alloc
    s gap_update 1 2 Hg _)).
  discriminate.
Defined.

Lemma subscribed_gap :
  let s := runtime_subscribed in
  adapt_depth_update gap_update (projection s) (expected_identity s) = Returned (inl gap_update) ∧
  apply_to gap_update (projection s)
    = (MkBook PsNeedsResync (Some 12%Z), Returned (inl GapDetected)) ∧ state s = RsLive.
Proof. split; [|split]; vm_compute; reflexivity. Qed.

Lemma gap_resynchronizes_witness :
  ∃ s : Runtime (L := library), state s = RsLive ∧
    state (fst (run (apply_update (W := sample_enums) sample_clock sample_alloc gap_update
                       (Some 1%Z)) s)) = RsNeedsResync.
Proof.
  exists runtime_subscribed. pose proof subscribed_generation as Hg.
  pose proof subscribed_gap as Hs. pose proof subscribed_nodup as Hn. revert Hg Hs Hn.
  generalize runtime_subscribed. intros s Hg (Had & Hap & Hl) Hn. split; [exact Hl|].
  refine (proj1 (gap_resynchronizes (W := sample_enums) sample_clock sample_alloc s gap_update
    (Some 1%Z) gap_update _ GapDetected library_ok _ Had Hap eq_refl Hn _ _ _));
    [rewrite Hg; reflexivity|rewrite Hl; discriminate..].
Defined.

Lemma resetting_ready :
  let s := runtime_resetting in
  reset_request s = Some (MkResetRequest 3 ResetRecovery None) ∧ state s = RsFaulted.
Proof. split; vm_compute; reflexivity. Qed.

Lemma recovery_reset_clears_witness :
  ∃ s : Runtime (L := library), state s = RsFaulted ∧
    projection (fst (run (perform_reset_request (W := sample_enums) sample_clock) s))
    = MkBook AwaitingBaseline None.
Proof.
  exists runtime_resetting. pose proof resetting_ready as Hr. revert Hr.
  generalize runtime_resetting. intros s [Hq Hf]. split; [exact Hf|].
  exact (proj1 (recovery_reset_clears (W := sample_enums) sample_clock s _
    (MkBook AwaitingBaseline None) Hq eq_refl (or_introl Hf) eq_refl)).
Defined.

Lemma full_runtime :
  let s := runtime_full in
  stopped s = false ∧ started s = true ∧ stop_requested s = false ∧ accepting s = true ∧
  length (ingress s) = ingress_capacity (limits s) ∧ owner_paused s = false ∧
  shutdown_pending s = false.
Proof. vm_compute. repeat split. Qed.

Lemma overflow_faults_witness :
  ∃ s : Runtime (L := library), length (ingress s) = ingress_capacity (limits s) ∧
    snd (submit true (FailureInput InjectedTransport) s) = Returned ArFull.
Proof.
  exists runtime_full. pose proof full_runtime as Hf. revert Hf.
  generalize runtime_full. intros s (H1 & H2 & H3 & H4 & H5 & H6 & H7). split; [exact H5|].
  pose proof (overflow_faults (W := sample_enums) sample_clock sample_alloc
    (FailureInput InjectedTransport) true s H1 H2 H3 H4 H5 H6 H7) as H.
  destruct (submit _ _ s) as [s1 r]. exact (proj1 H).
Defined.

Lemma stopping_requested : stop_requested runtime_stopping = true ∧ work runtime_stopping = 3.
Proof. split; vm_compute; reflexivity. Qed.

Lemma owner_loop_terminates_witness :
  ∃ s : Runtime (L := library),
    work s = 3 ∧
    snd (run (owner_iterations (W := sample_enums) sample_clock sample_alloc 4) s) = false.
Proof.
  exists runtime_stopping. pose proof stopping_requested as Hs. revert Hs.
  generalize runtime_stopping. intros s [Hs Hw]. split; [exact Hw|].
  refine (owner_loop_terminates (W := sample_enums) sample_clock sample_alloc s Hs 4 _).
  rewrite Hw. lia.
Defined.

Lemma subscribed_deliverable :
  let s := runtime_subscribed in
  publication_shutdown_completed s = false ∧
  (∀ a c, a ∈ subscribers s → store s !! a = Some c →
     SubscriberChannel.next_session_sequence c ≠ u64_max).
Proof.
  split; [vm_compute; reflexivity|]. intros a c Ha.
  assert (Hall : Forall (λ b, match store runtime_subscribed !! b with
    | Some d => SubscriberChannel.next_session_sequence d ≠ u64_max
    | None => True end) (subscribers runtime_subscribed)).
  { vm_compute. repeat constructor. discriminate. }
  rewrite Forall_forall in Hall. specialize (Hall a Ha). intros Hc. by rewrite Hc in Hall.
Qed.

End Witness.
