(* ===== verification/Text.v ===== *)
(** * Text: decimal numbers and characters

    The pieces of the C++ standard library that the parsers share:
    [std::from_chars] for an unsigned integer in base 10 ([from_chars]), the
    [std::string_view] searches, and the range comparisons of characters.  The
    lemmas state which texts [from_chars] accepts and that it reads back what
    [std::to_string] (stdpp's [pretty]) prints. *)

From Stdlib Require Import Ascii.
From S2P Require Import Prelude.

Open Scope gateway_scope.

(** [static_cast<unsigned char>(c)] *)
Definition code (c : ascii) : Z := Z.of_N (N_of_ascii c).

(** [c >= lo && c <= hi] *)
Definition in_range (lo hi : ascii) (c : ascii) : bool :=
  (code lo <=? code c)%Z && (code c <=? code hi)%Z.

Definition is_digit : ascii → bool := in_range "0" "9".
Definition digit_value (c : ascii) : Z := (code c - code "0")%Z.

(** The longest prefix of digits: its value, continuing [acc], and the rest. *)
Fixpoint scan_digits (acc : Z) (s : string) : Z * string :=
  match s with
  | String c rest =>
      if is_digit c then scan_digits (10 * acc + digit_value c) rest else (acc, s)
  | EmptyString => (acc, s)
  end.

(** [std::from_chars(begin, end, value)] for an unsigned type with maximum [max]:
    the value and the unread text, [None] for an error code. *)
Definition from_chars (max : Z) (s : string) : option (Z * string) :=
  match s with
  | String c _ =>
      if is_digit c then
        let '(v, rest) := scan_digits 0 s in
        if (v <=? max)%Z then Some (v, rest) else None
      else None
  | EmptyString => None
  end.

(** The callers that demand [error == std::errc{} && position == end]. *)
Definition parse_decimal (max : Z) (s : string) : option Z :=
  match from_chars max s with
  | Some (v, EmptyString) => Some v
  | _ => None
  end.

(** [s.find(c)] and [s.rfind(c)]. *)
Fixpoint find_char (c : ascii) (s : string) : option nat :=
  match s with
  | EmptyString => None
  | String a rest => if bool_decide (a = c) then Some 0 else S <$> find_char c rest
  end.

Fixpoint rfind_char (c : ascii) (s : string) : option nat :=
  match s with
  | EmptyString => None
  | String a rest =>
      match rfind_char c rest with
      | Some n => Some (S n)
      | None => if bool_decide (a = c) then Some 0 else None
      end
  end.

(** [s.find_last_not_of(c)] *)
Fixpoint find_last_not_of (c : ascii) (s : string) : option nat :=
  match s with
  | EmptyString => None
  | String a rest =>
      match find_last_not_of c rest with
      | Some n => Some (S n)
      | None => if bool_decide (a = c) then None else Some 0
      end
  end.

(** [s.substr(n)] for [n <= s.size()]. *)
Fixpoint drop_string (n : nat) (s : string) : string :=
  match n, s with
  | S n, String _ rest => drop_string n rest
  | _, _ => s
  end.

(** [s.substr(0, n)] *)
Fixpoint take_string (n : nat) (s : string) : string :=
  match n, s with
  | S n, String c rest => String c (take_string n rest)
  | _, _ => EmptyString
  end.

(** [std::all_of] over the characters. *)
Fixpoint all_chars (p : ascii → bool) (s : string) : bool :=
  match s with
  | EmptyString => true
  | String c rest => p c && all_chars p rest
  end.

(** ** Decimal texts *)

(** The number a text of digits denotes, after [acc]. *)
Fixpoint decimal_value (acc : Z) (s : string) : Z :=
  match s with
  | EmptyString => acc
  | String c rest => decimal_value (10 * acc + digit_value c) rest
  end.

Lemma scan_digits_all acc s :
  all_chars is_digit s = true → scan_digits acc s = (decimal_value acc s, EmptyString).
Proof.
  revert acc. induction s as [|c s IH]; intros acc; simpl; [done|].
  rewrite andb_true_iff. intros [-> H]. by apply IH.
Qed.

Lemma scan_digits_empty acc v s :
  scan_digits acc s = (v, EmptyString) →
  all_chars is_digit s = true ∧ v = decimal_value acc s.
Proof.
  revert acc. induction s as [|c s IH]; intros acc; simpl; [by intros [= ->]|].
  destruct (is_digit c); [|done]. apply IH.
Qed.

(** Exactly the non-empty texts of digits with a value in range are accepted. *)
Lemma parse_decimal_spec max s v :
  parse_decimal max s = Some v ↔
  s ≠ EmptyString ∧ all_chars is_digit s = true ∧ v = decimal_value 0 s ∧ (v <= max)%Z.
Proof.
  assert (Hstart : s ≠ EmptyString → all_chars is_digit s = true →
                   from_chars max s = if (decimal_value 0 s <=? max)%Z
                                      then Some (decimal_value 0 s, EmptyString) else None).
  { intros Hne Hall. pose proof (scan_digits_all 0 s Hall) as Hscan.
    destruct s as [|c s]; [done|]. apply andb_true_iff in Hall as [Hc _].
    unfold from_chars. by rewrite Hc, Hscan. }
  unfold parse_decimal. split.
  - unfold from_chars. destruct s as [|c s]; [done|].
    destruct (is_digit c); [|done].
    destruct (scan_digits 0 (String c s)) as [w rest] eqn:Hs.
    destruct (w <=? max)%Z eqn:Hle; [|done]. destruct rest; [|done].
    intros [= ->]. apply scan_digits_empty in Hs as [Hall ->].
    split_all; [done..|by apply Z.leb_le].
  - intros (Hne & Hall & -> & Hle). rewrite Hstart by done.
    by rewrite (proj2 (Z.leb_le _ _) Hle).
Qed.

Lemma decimal_value_nonneg acc s :
  all_chars is_digit s = true → (0 <= acc)%Z → (0 <= decimal_value acc s)%Z.
Proof.
  revert acc. induction s as [|c s IH]; intros acc; simpl; [done|].
  rewrite andb_true_iff. intros [Hc Hs] Hacc. apply IH; [done|].
  apply andb_true_iff in Hc as [Hc _]. unfold digit_value. lia.
Qed.

Lemma digit_value_char n : (n < 10)%N → digit_value (pretty_N_char n) = Z.of_N n.
Proof.
  intros Hn. assert (n = 0 ∨ n = 1 ∨ n = 2 ∨ n = 3 ∨ n = 4 ∨ n = 5 ∨ n = 6 ∨ n = 7 ∨ n = 8
                     ∨ n = 9)%N as Hc by lia.
  by repeat destruct Hc as [-> | Hc]; subst.
Qed.

Lemma is_digit_char n : is_digit (pretty_N_char n) = true.
Proof. unfold pretty_N_char. by repeat case_match. Qed.

Lemma pretty_go_digits n s :
  all_chars is_digit s = true → all_chars is_digit (pretty_N_go n s) = true.
Proof.
  revert s. induction (N.lt_wf_0 n) as [n _ IH]; intros s Hs.
  destruct (decide (0 < n)%N) as [Hn|Hn].
  - rewrite pretty_N_go_step by done. apply IH; [by apply N.div_lt|].
    simpl. by rewrite is_digit_char.
  - assert (n = 0)%N as -> by lia. by rewrite pretty_N_go_0.
Qed.

(** [pretty_N_go] prepends the digits of [n]. *)
Fixpoint power_ten (s : string) : Z :=
  match s with EmptyString => 1 | String _ rest => 10 * power_ten rest end.

Lemma decimal_value_acc acc s :
  decimal_value acc s = (acc * power_ten s + decimal_value 0 s)%Z.
Proof.
  revert acc. induction s as [|c s IH]; intros acc; [simpl; lia|].
  cbn [decimal_value power_ten]. rewrite IH, (IH (10 * 0 + _)%Z). lia.
Qed.

Lemma pretty_go_value n s :
  decimal_value 0 (pretty_N_go n s) = (Z.of_N n * power_ten s + decimal_value 0 s)%Z.
Proof.
  revert s. induction (N.lt_wf_0 n) as [n _ IH]; intros s.
  destruct (decide (0 < n)%N) as [Hn|Hn].
  - rewrite pretty_N_go_step by done. rewrite IH by (by apply N.div_lt).
    cbn [decimal_value power_ten]. rewrite (decimal_value_acc (10 * 0 + _)).
    rewrite digit_value_char by (by apply N.mod_lt).
    pose proof (N.div_mod' n 10). nia.
  - assert (n = 0)%N as -> by lia. rewrite pretty_N_go_0. lia.
Qed.

Lemma pretty_go_nonempty n s : s ≠ EmptyString → pretty_N_go n s ≠ EmptyString.
Proof.
  revert s. induction (N.lt_wf_0 n) as [n _ IH]; intros s Hs.
  destruct (decide (0 < n)%N) as [Hn|Hn].
  - rewrite pretty_N_go_step by done. apply IH; [by apply N.div_lt|done].
  - assert (n = 0)%N as -> by lia. by rewrite pretty_N_go_0.
Qed.

(** Reading back what was printed. *)
Lemma parse_decimal_pretty max (n : N) :
  (Z.of_N n <= max)%Z → parse_decimal max (pretty n) = Some (Z.of_N n).
Proof.
  intros Hmax. apply parse_decimal_spec. unfold pretty, pretty_N.
  destruct (decide (n = 0)%N) as [->|Hn]; [by split_all; [| | |lia]|].
  split_all; [| | |done].
  - rewrite pretty_N_go_step by lia. by apply pretty_go_nonempty.
  - by apply pretty_go_digits.
  - rewrite pretty_go_value. simpl. lia.
Qed.

Lemma pretty_digits (n : N) : all_chars is_digit (pretty n) = true.
Proof.
  unfold pretty, pretty_N. destruct (decide (n = 0)%N); [done|]. by apply pretty_go_digits.
Qed.

(** ** Searches *)

Lemma append_cons c (s t : string) : String c s +:+ t = String c (s +:+ t).
Proof. done. Qed.

Lemma append_empty_r s : s +:+ "" = s.
Proof. induction s as [|c s IH]; [done|]. by rewrite append_cons, IH. Qed.

Lemma append_assoc (s t u : string) : (s +:+ t) +:+ u = s +:+ (t +:+ u).
Proof. induction s as [|c s IH]; [done|]. by rewrite !append_cons, IH. Qed.

Lemma length_append (s t : string) :
  String.length (s +:+ t) = String.length s + String.length t.
Proof. induction s as [|c s IH]; [done|]. rewrite append_cons. simpl. by rewrite IH. Qed.

Lemma string_app_assoc (s t u : string) : (s +:+ t) +:+ u = s +:+ t +:+ u.
Proof. induction s as [|c s IH]; [done|]. exact (f_equal (String c) IH). Qed.

Lemma all_chars_app p s t : all_chars p (s +:+ t) = all_chars p s && all_chars p t.
Proof. induction s as [|c s IH]; simpl; [done|]. by rewrite IH, andb_assoc. Qed.

Lemma take_string_app s t : take_string (String.length s) (s +:+ t) = s.
Proof. induction s as [|c s IH]; simpl; [by destruct t|]. by rewrite IH. Qed.

Lemma drop_string_app s t : drop_string (String.length s) (s +:+ t) = t.
Proof. induction s as [|c s IH]; simpl; [by destruct t|done]. Qed.

Lemma find_char_none c s :
  find_char c s = None ↔ all_chars (λ a, negb (bool_decide (a = c))) s = true.
Proof.
  induction s as [|a s IH]; simpl; [done|].
  case_bool_decide; simpl; [done|]. by rewrite fmap_None.
Qed.

(** The first occurrence: what precedes it has none. *)
Lemma find_char_some c s n :
  find_char c s = Some n →
  s = take_string n s +:+ String c (drop_string (S n) s) ∧
  find_char c (take_string n s) = None ∧ n < String.length s.
Proof.
  revert n. induction s as [|a s IH]; intros n; simpl; [done|].
  case_bool_decide as Ha.
  - intros [= <-]. subst. split_all; [by destruct s|done|lia].
  - rewrite fmap_Some. intros (m & Hm & ->). destruct (IH m Hm) as (Heq & Hnone & Hlt).
    split_all; [|simpl|lia].
    + change (take_string (S m) (String a s)) with (String a (take_string m s)).
      change (String a s = String a (take_string m s +:+ String c (drop_string (S m) s))).
      by rewrite <- Heq.
    + rewrite bool_decide_eq_false_2 by done. by rewrite Hnone.
Qed.

Lemma find_char_app c s t :
  find_char c s = None → find_char c (s +:+ String c t) = Some (String.length s).
Proof.
  induction s as [|a s IH]; simpl; [by rewrite bool_decide_eq_true_2|].
  case_bool_decide; [done|]. rewrite fmap_None. intros Hs. by rewrite IH.
Qed.

Lemma rfind_char_app c s t :
  find_char c t = None → rfind_char c (s +:+ String c t) = Some (String.length s).
Proof.
  intros Ht. assert (Hn : rfind_char c t = None).
  { revert Ht. induction t as [|a t IH]; simpl; [done|].
    case_bool_decide; [done|]. rewrite fmap_None. intros Ht. by rewrite IH. }
  induction s as [|a s IH]; simpl; [by rewrite Hn, bool_decide_eq_true_2|]. by rewrite IH.
Qed.

Lemma rfind_char_none c s : rfind_char c s = None ↔ find_char c s = None.
Proof.
  induction s as [|a s IH]; simpl; [done|].
  case_bool_decide; rewrite ?fmap_None, <- ?IH; by destruct (rfind_char c s).
Qed.

(** ** Digits *)

Lemma decimal_value_app acc s t :
  decimal_value acc (s +:+ t) = decimal_value (decimal_value acc s) t.
Proof. revert acc. induction s as [|c s IH]; intros acc; simpl; [done|]. apply IH. Qed.

Lemma power_ten_pos s : (0 < power_ten s)%Z.
Proof. induction s as [|c s IH]; cbn [power_ten]; lia. Qed.

Lemma power_ten_app s t : power_ten (s +:+ t) = (power_ten s * power_ten t)%Z.
Proof.
  induction s as [|c s IH]; [change ("" +:+ t) with t; cbn [power_ten]; lia|].
  change (String c s +:+ t) with (String c (s +:+ t)). cbn [power_ten]. rewrite IH. lia.
Qed.

Lemma digit_value_bounds c : is_digit c = true → (0 <= digit_value c <= 9)%Z.
Proof.
  unfold is_digit, in_range, digit_value. rewrite andb_true_iff, !Z.leb_le.
  change (code "0") with 48%Z. change (code "9") with 57%Z. lia.
Qed.

Lemma digit_value_zero c : is_digit c = true → digit_value c = 0%Z → c = "0"%char.
Proof.
  unfold digit_value, code. intros _ H.
  assert (N_of_ascii c = N_of_ascii "0") as Heq by lia.
  by rewrite <- (ascii_N_embedding c), Heq.
Qed.

(** A text of digits denotes zero exactly when it is made of zeros. *)
Lemma decimal_value_zero s :
  all_chars is_digit s = true →
  decimal_value 0 s = 0%Z ↔ all_chars (λ c, bool_decide (c = "0"%char)) s = true.
Proof.
  induction s as [|c s IH]; [done|]. intros [Hc Hs]%andb_true_iff.
  cbn [decimal_value all_chars]. rewrite andb_true_iff, bool_decide_eq_true, decimal_value_acc.
  pose proof (power_ten_pos s). pose proof (decimal_value_nonneg 0 s Hs).
  pose proof (digit_value_bounds c Hc). split.
  - intros H'. assert (digit_value c = 0)%Z as Hz by nia. split; [by apply digit_value_zero|].
    apply IH; [done|]. nia.
  - intros [-> Hz]. apply IH in Hz; [|done]. rewrite Hz. by change (digit_value "0") with 0%Z.
Qed.

(** What follows the last character other than [c] is made of [c]. *)
Lemma find_last_not_of_some c s n :
  find_last_not_of c s = Some n →
  ∃ pre d post, s = pre +:+ String d post ∧ String.length pre = n ∧ d ≠ c ∧
                all_chars (λ a, bool_decide (a = c)) post = true.
Proof.
  revert n. induction s as [|a s IH]; intros n; simpl; [done|].
  destruct (find_last_not_of c s) as [m|] eqn:Hm.
  - intros [= <-]. destruct (IH m eq_refl) as (pre & d & post & -> & <- & Hd & Hp).
    by exists (String a pre), d, post.
  - case_bool_decide; [done|]. intros [= <-]. exists "", a, s. split_all; [done..|].
    clear IH. revert Hm. induction s as [|b s IH]; simpl; [done|].
    destruct (find_last_not_of c s); [done|]. case_bool_decide; [|done]. intros _. by apply IH.
Qed.

Lemma find_last_not_of_none c s :
  find_last_not_of c s = None ↔ all_chars (λ a, bool_decide (a = c)) s = true.
Proof.
  induction s as [|a s IH]; simpl; [done|].
  rewrite andb_true_iff, bool_decide_eq_true, <- IH.
  destruct (find_last_not_of c s); [by split; [|intros []]|].
  case_bool_decide; by split; [|intros []].
Qed.

Lemma power_ten_length s : power_ten s = (10 ^ Z.of_nat (String.length s))%Z.
Proof.
  induction s as [|c s IH]; [done|]. cbn [power_ten String.length].
  rewrite Nat2Z.inj_succ, Z.pow_succ_r by lia. lia.
Qed.

Lemma zeros_are_digits s :
  all_chars (λ c, bool_decide (c = "0"%char)) s = true → all_chars is_digit s = true.
Proof.
  induction s as [|c s IH]; [done|]. cbn [all_chars].
  rewrite !andb_true_iff, bool_decide_eq_true. by intros [-> ?]; split; [|apply IH].
Qed.

(** ** Searches for a text *)

(** [s.find(needle)], and [s.find(needle, from)], for a non-empty needle. *)
Fixpoint find_text (needle s : string) : option nat :=
  if String.prefix needle s then Some 0
  else match s with
       | EmptyString => None
       | String _ rest => S <$> find_text needle rest
       end.

Definition find_text_from (needle : string) (from : nat) (s : string) : option nat :=
  Nat.add from <$> find_text needle (drop_string from s).

Definition contains_text (needle s : string) : bool := bool_decide (is_Some (find_text needle s)).

Lemma prefix_spec p s : String.prefix p s = true ↔ ∃ rest, s = p +:+ rest.
Proof.
  revert s. induction p as [|c p IH]; intros s; [split; [by exists s|by destruct s]|].
  destruct s as [|d s]; simpl; [split; [done|by intros (? & ?)]|].
  destruct (ascii_dec c d) as [->|Hne].
  - rewrite IH. split; intros (rest & H); exists rest; [by rewrite H|by injection H].
  - split; [done|]. by intros (rest & [= ->]).
Qed.

Lemma prefix_app p s : String.prefix p (p +:+ s) = true.
Proof. apply prefix_spec. by exists s. Qed.

Lemma drop_string_drop n m s : drop_string n (drop_string m s) = drop_string (m + n) s.
Proof. revert s. induction m as [|m IH]; intros [|c s]; simpl; [done|done|by destruct n|apply IH]. Qed.

Lemma take_drop_string n s : take_string n s +:+ drop_string n s = s.
Proof.
  revert s. induction n as [|n IH]; intros [|c s]; [done|done|done|].
  cbn [take_string drop_string]. by rewrite append_cons, IH.
Qed.

(** A text within which a character does not occur has no needle across it. *)
Lemma find_text_some needle s n :
  find_text needle s = Some n → String.prefix needle (drop_string n s) = true ∧
    ∀ i, i < n → String.prefix needle (drop_string i s) = false.
Proof.
  revert n. induction s as [|c s IH]; intros n; cbn [find_text];
    (destruct (String.prefix needle _) eqn:Hp; [intros [= <-]; split; [done|lia]|]); [done|].
  rewrite fmap_Some. intros (m & Hm & ->). destruct (IH m Hm) as [H1 H2].
  split; [done|]. intros [|i] Hi; [done|]. apply H2. lia.
Qed.

Lemma find_text_none needle s :
  find_text needle s = None ↔ ∀ i, String.prefix needle (drop_string i s) = false.
Proof.
  induction s as [|c s IH]; cbn [find_text].
  - destruct (String.prefix needle "") eqn:Hp; split; try done.
    + intros H. pose proof (H 0) as H0. simpl in H0, Hp. congruence.
    + by intros _ [|i].
  - destruct (String.prefix needle (String c s)) eqn:Hp.
    + split; [done|]. intros H. pose proof (H 0) as H0. cbn [drop_string] in H0. congruence.
    + rewrite fmap_None, IH. split; [intros H [|i]; [done|apply H]|]. intros H i. apply (H (S i)).
Qed.

(** The words of a line. *)
Fixpoint unwords (words : list string) : string :=
  match words with
  | [] => EmptyString
  | [word] => word
  | word :: rest => word +:+ String " " (unwords rest)
  end.
