(* ===== verification/Config.v ===== *)
(** * Config: the foundation's configuration and lifecycle

    Models [include/binance_market_data/gateway/v1/config.hpp] and [lifecycle.hpp],
    [src/src/config.cpp] and [src/src/lifecycle.cpp]: the strict UTF-8 check of a
    symbol, the listen endpoint parser, [validate_config] and the [Foundation]
    start/stop seam.  A symbol is checked against the mathematical definition of
    UTF-8 ([utf8]); the endpoint parser against its grammar. *)

From Stdlib Require Import Ascii.
From S2P Require Import Prelude Text.

Open Scope gateway_scope.

(** The two enumerations have a fixed underlying type: a variable may hold any of
    its values, and [validate_config] checks it. *)
Definition Venue_Binance : Z := 0.
Definition Market_Spot : Z := 0.
Definition Market_UsdMPerpetual : Z := 1.

Inductive ConfigErrorCode : Type :=
| InvalidVenue
| InvalidMarket
| InvalidSymbol
| InvalidEndpoint
| InvalidQueueCapacity.

Record ConfigError : Type := MkConfigError {
  config_error_code : ConfigErrorCode;
  config_error_field : string;
  config_error_message : string
}.

Record ListenEndpoint : Type := MkListenEndpoint {
  host : string;
  port : Z
}.

Record GatewayConfig : Type := MkGatewayConfig {
  venue : Z;
  market : Z;
  symbol : string;
  grpc_listen : ListenEndpoint;
  queue_capacity : Z
}.

Record ValidatedGatewayConfig : Type := MkValidatedGatewayConfig { value_ : GatewayConfig }.

Definition EndpointResult : Type := ListenEndpoint + ConfigError.
Definition ConfigResult : Type := ValidatedGatewayConfig + ConfigError.

(** ** Symbols *)

Definition kMaxHostLength : nat := 253.

(** The bytes of a string. *)
Definition bytes_of (s : string) : list Z := code <$> String.list_ascii_of_string s.

Definition is_continuation (byte : Z) : bool := (0x80 <=? byte)%Z && (byte <=? 0xBF)%Z.

(** The loop of [valid_symbol] from one offset on; a failed bound check on
    [offset + k] is a list that is too short. *)
Fixpoint valid_scalars (value : list Z) : bool :=
  match value with
  | [] => true
  | lead :: rest =>
      if (lead <=? 0x7F)%Z then
        if (lead <=? 0x20)%Z || (lead =? 0x7F)%Z then false else valid_scalars rest
      else if (0xC2 <=? lead)%Z && (lead <=? 0xDF)%Z then
        match rest with
        | second :: rest => if negb (is_continuation second) then false else valid_scalars rest
        | _ => false
        end
      else if (0xE0 <=? lead)%Z && (lead <=? 0xEF)%Z then
        match rest with
        | second :: third :: rest =>
            if negb (is_continuation third) || ((lead =? 0xE0)%Z && (second <? 0xA0)%Z)
               || ((lead =? 0xED)%Z && (0xA0 <=? second)%Z) || negb (is_continuation second)
            then false else valid_scalars rest
        | _ => false
        end
      else if (0xF0 <=? lead)%Z && (lead <=? 0xF4)%Z then
        match rest with
        | second :: third :: fourth :: rest =>
            if negb (is_continuation third) || negb (is_continuation fourth)
               || ((lead =? 0xF0)%Z && (second <? 0x90)%Z)
               || ((lead =? 0xF4)%Z && (0x8F <? second)%Z) || negb (is_continuation second)
            then false else valid_scalars rest
        | _ => false
        end
      else false
  end.

Definition valid_symbol (value : string) : bool :=
  if bool_decide (value = "") then false else valid_scalars (bytes_of value).

(** ** Endpoints *)

Definition hostname_character (c : ascii) : bool :=
  in_range "a" "z" c || in_range "A" "Z" c || in_range "0" "9" c
  || bool_decide (c = "."%char) || bool_decide (c = "-"%char) || bool_decide (c = ":"%char).

Definition valid_host_token (value : string) : bool :=
  if bool_decide (value = "") || bool_decide (kMaxHostLength < String.length value)
  then false else all_chars hostname_character value.

Definition endpoint_error (message : string) : ConfigError :=
  MkConfigError InvalidEndpoint "grpc-listen" message.

Definition parse_port (host port : string) : EndpointResult :=
  fail_if negb (valid_host_token host) || bool_decide (port = "")
    with endpoint_error "endpoint must contain a non-empty safe ASCII host token and port" ;;
  match parse_decimal u32_max port with
  | Some parsed_port =>
      fail_if (parsed_port =? 0)%Z || (u16_max <? parsed_port)%Z
        with endpoint_error "port must be an integer in the range 1..65535" ;;
      inl (MkListenEndpoint host parsed_port)
  | None => inr (endpoint_error "port must be an integer in the range 1..65535")
  end.

Definition parse_listen_endpoint (value : string) : EndpointResult :=
  match value with
  | EmptyString => inr (endpoint_error "endpoint is required")
  | String front _ =>
      if bool_decide (front = "["%char) then
        match find_char "]" value with
        | Some close_bracket =>
            if bool_decide (String.get (close_bracket + 1) value = Some ":"%char)
            then parse_port (take_string (close_bracket - 1) (drop_string 1 value))
                            (drop_string (close_bracket + 2) value)
            else inr (endpoint_error "IPv6 endpoints must use [host]:port")
        | None => inr (endpoint_error "IPv6 endpoints must use [host]:port")
        end
      else
        match rfind_char ":" value with
        | Some colon =>
            if bool_decide (find_char ":" value = Some colon)
            then parse_port (take_string colon value) (drop_string (colon + 1) value)
            else inr (endpoint_error "endpoint must use host:port or [ipv6]:port")
        | None => inr (endpoint_error "endpoint must use host:port or [ipv6]:port")
        end
  end.

(** ** Validation *)

Definition validate_endpoint (config : GatewayConfig) : ConfigResult :=
  fail_if negb (valid_host_token (host (grpc_listen config)))
          || (port (grpc_listen config) =? 0)%Z
    with endpoint_error "endpoint must contain a non-empty safe ASCII host token and port" ;;
  inl (MkValidatedGatewayConfig config).

Definition validate_config (config : GatewayConfig) : ConfigResult :=
  fail_if negb (venue config =? Venue_Binance)%Z
    with MkConfigError InvalidVenue "venue" "only binance is supported" ;;
  fail_if negb (market config =? Market_Spot)%Z && negb (market config =? Market_UsdMPerpetual)%Z
    with MkConfigError InvalidMarket "market" "market must be spot or usd-m-perpetual" ;;
  fail_if negb (valid_symbol (symbol config))
    with MkConfigError InvalidSymbol "symbol"
           ("symbol must be a non-empty strict UTF-8 scalar identity without " +:+
            "ASCII C0/whitespace or DEL bytes") ;;
  fail_if (queue_capacity config =? 0)%Z
    with MkConfigError InvalidQueueCapacity "queue-capacity"
           "queue capacity must be greater than zero" ;;
  validate_endpoint config.

(** ** The lifecycle seam *)

Inductive LifecycleState : Type :=
| Constructed
| Running
| Stopped.

#[export] Instance LifecycleState_eq_dec : EqDecision LifecycleState.
Proof. solve_decision. Defined.

Inductive LifecycleErrorCode : Type :=
| AlreadyRunning
| AlreadyStopped
| NotRunning.

Record LifecycleError : Type := MkLifecycleError {
  lifecycle_error_code : LifecycleErrorCode;
  lifecycle_error_state : LifecycleState
}.

Record Foundation : Type := MkFoundation {
  config_ : GatewayConfig;
  state_ : LifecycleState
}.
#[export] Instance Foundation_eta : Eta Foundation :=
  λ r, MkFoundation (config_ r) (state_ r).

Definition foundation_make (config : ValidatedGatewayConfig) : Foundation :=
  MkFoundation (value_ config) Constructed.

Definition foundation_start (f : Foundation) : Foundation * (LifecycleState + LifecycleError) :=
  if bool_decide (state_ f = Running) then (f, inr (MkLifecycleError AlreadyRunning (state_ f)))
  else if bool_decide (state_ f = Stopped)
  then (f, inr (MkLifecycleError AlreadyStopped (state_ f)))
  else (f <| state_ := Running |>, inl Running).

Definition foundation_stop (f : Foundation) : Foundation * (LifecycleState + LifecycleError) :=
  if bool_decide (state_ f = Constructed) then (f, inr (MkLifecycleError NotRunning (state_ f)))
  else if bool_decide (state_ f = Stopped)
  then (f, inr (MkLifecycleError AlreadyStopped (state_ f)))
  else (f <| state_ := Stopped |>, inl Stopped).

(** A sequence of calls, and the states the successful ones returned. *)
Inductive FoundationCall : Type := CallStart | CallStop.

Fixpoint foundation_run (calls : list FoundationCall) (f : Foundation)
  : Foundation * list LifecycleState :=
  match calls with
  | [] => (f, [])
  | c :: rest =>
      let '(f', r) := match c with CallStart => foundation_start f | CallStop => foundation_stop f end in
      let '(f'', l) := foundation_run rest f' in
      (f'', match r with inl s => s :: l | inr _ => l end)
  end.

(** ** UTF-8 *)

(** The encoding of a Unicode scalar value. *)
Definition utf8 (c : Z) : list Z :=
  (if c <? 0x80 then [c]
   else if c <? 0x800 then [0xC0 + c / 64; 0x80 + c mod 64]
   else if c <? 0x10000 then [0xE0 + c / 4096; 0x80 + c / 64 mod 64; 0x80 + c mod 64]
   else [0xF0 + c / 262144; 0x80 + c / 4096 mod 64; 0x80 + c / 64 mod 64; 0x80 + c mod 64])%Z.

Definition scalar_value (c : Z) : Prop := (0 <= c < 0xD800 ∨ 0xE000 <= c <= 0x10FFFF)%Z.

(** Neither an ASCII control character or space, nor DEL. *)
Definition symbol_scalar (c : Z) : Prop := scalar_value c ∧ (0x20 < c)%Z ∧ c ≠ 0x7F%Z.

(** [decide_tests] decides the integer tests of the goal one by one. *)
#[local] Ltac decide_tests :=
  unfold is_continuation;
  repeat (match goal with
  | |- context [ (?a <=? ?b)%Z ] => destruct (Z.leb_spec a b); [|try (exfalso; lia)]; try (exfalso; lia)
  | |- context [ (?a <? ?b)%Z ] => destruct (Z.ltb_spec a b); [|try (exfalso; lia)]; try (exfalso; lia)
  | |- context [ (?a =? ?b)%Z ] => destruct (Z.eqb_spec a b); [|try (exfalso; lia)]; try (exfalso; lia)
  end; cbn [negb orb andb]).

(** The six-bit digits of a number. *)
Lemma six_bits c : (0 <= c)%Z →
  ∃ q r, (c / 64 = q ∧ c mod 64 = r ∧ c = 64 * q + r ∧ 0 <= r < 64 ∧ 0 <= q)%Z.
Proof.
  intros Hc. exists (c / 64)%Z, (c mod 64)%Z.
  pose proof (Z.div_mod c 64). pose proof (Z.mod_pos_bound c 64).
  pose proof (Z.div_pos c 64). lia.
Qed.

Lemma six_bits_twice c : (c / 4096 = c / 64 / 64)%Z.
Proof. by rewrite Z.div_div. Qed.

Lemma six_bits_thrice c : (c / 262144 = c / 64 / 64 / 64)%Z.
Proof. by rewrite !Z.div_div. Qed.

Lemma six_bits_make q r : (0 <= r < 64)%Z → ((64 * q + r) / 64 = q ∧ (64 * q + r) mod 64 = r)%Z.
Proof.
  intros Hr. rewrite (Z.mul_comm 64). split.
  - rewrite Z.div_add_l, Z.div_small by lia. lia.
  - rewrite Z.add_comm, Z.mod_add, Z.mod_small by lia. done.
Qed.

Lemma valid_scalars_utf8 c rest :
  symbol_scalar c → valid_scalars (utf8 c ++ rest) = valid_scalars rest.
Proof.
  intros (Hs & Hlow & Hdel). unfold scalar_value in Hs. unfold utf8.
  rewrite six_bits_thrice, six_bits_twice.
  destruct (six_bits c) as (q & r & -> & -> & Hc & Hr & Hq); [lia|].
  destruct (six_bits q) as (q2 & r2 & -> & -> & Hc2 & Hr2 & Hq2); [lia|].
  destruct (six_bits q2) as (q3 & r3 & -> & -> & Hc3 & Hr3 & Hq3); [lia|].
  destruct (Z.ltb_spec c 0x80); [|destruct (Z.ltb_spec c 0x800);
    [|destruct (Z.ltb_spec c 0x10000)]]; cbn [app valid_scalars]; by decide_tests.
Qed.

Lemma utf8_2 q r :
  (2 <= q < 32 → 0 <= r < 64 → utf8 (64 * q + r) = [0xC0 + q; 0x80 + r])%Z.
Proof.
  intros Hq Hr. unfold utf8. destruct (six_bits_make q r Hr) as [-> ->]. by decide_tests.
Qed.

Lemma utf8_3 q r1 r0 :
  (0 <= q < 16 → 0 <= r1 < 64 → 0 <= r0 < 64 → 0x800 <= 64 * (64 * q + r1) + r0 →
   utf8 (64 * (64 * q + r1) + r0) = [0xE0 + q; 0x80 + r1; 0x80 + r0])%Z.
Proof.
  intros Hq H1 H0 Hlow. unfold utf8. rewrite six_bits_twice.
  destruct (six_bits_make (64 * q + r1) r0 H0) as [-> ->].
  destruct (six_bits_make q r1 H1) as [-> ->]. by decide_tests.
Qed.

Lemma utf8_4 q r2 r1 r0 :
  (0 <= r2 < 64 → 0 <= r1 < 64 → 0 <= r0 < 64 →
   0x10000 <= 64 * (64 * (64 * q + r2) + r1) + r0 →
   utf8 (64 * (64 * (64 * q + r2) + r1) + r0)
   = [0xF0 + q; 0x80 + r2; 0x80 + r1; 0x80 + r0])%Z.
Proof.
  intros H2 H1 H0 Hlow. unfold utf8. rewrite six_bits_thrice, six_bits_twice.
  destruct (six_bits_make (64 * (64 * q + r2) + r1) r0 H0) as [-> ->].
  destruct (six_bits_make (64 * q + r2) r1 H1) as [-> ->].
  destruct (six_bits_make q r2 H2) as [-> ->]. by decide_tests.
Qed.

(** The scalar value read by one turn of the loop. *)
Lemma valid_scalars_inv lead bytes :
  valid_scalars (lead :: bytes) = true →
  ∃ c rest, lead :: bytes = utf8 c ++ rest ∧ symbol_scalar c ∧ valid_scalars rest = true.
Proof.
  cbn [valid_scalars]. unfold is_continuation, symbol_scalar, scalar_value. intros H.
  destruct (Z.leb_spec lead 0x7F).
  { exists lead, bytes. unfold utf8.
    destruct (Z.leb_spec lead 0x20); [done|]. destruct (Z.eqb_spec lead 0x7F); [done|].
    destruct (Z.ltb_spec lead 0x80); [|lia]. split_all; [done|lia..|exact H]. }
  destruct (_ && _) eqn:H2.
  { destruct bytes as [|second rest]; [done|]. destruct (negb _) eqn:?; [done|].
    exists (64 * (lead - 0xC0) + (second - 0x80))%Z, rest.
    rewrite utf8_2 by lia. split_all; [simpl; repeat f_equal; lia|lia..|exact H]. }
  clear H2. destruct (_ && _) eqn:H3.
  { destruct bytes as [|second [|third rest]]; [done..|]. destruct (_ || _) eqn:?; [done|].
    exists (64 * (64 * (lead - 0xE0) + (second - 0x80)) + (third - 0x80))%Z, rest.
    rewrite utf8_3 by lia. split_all; [simpl; repeat f_equal; lia|lia..|exact H]. }
  clear H3. destruct (_ && _) eqn:H4; [|done].
  destruct bytes as [|second [|third [|fourth rest]]]; [done..|]. destruct (_ || _) eqn:?; [done|].
  exists (64 * (64 * (64 * (lead - 0xF0) + (second - 0x80)) + (third - 0x80))
          + (fourth - 0x80))%Z, rest.
  rewrite utf8_4 by lia. split_all; [simpl; repeat f_equal; lia|lia..|exact H].
Qed.

Lemma utf8_length c : length (utf8 c) ≠ 0.
Proof. unfold utf8. by repeat case_match. Qed.

(** [valid_scalars] accepts exactly the encodings of sequences of scalar values. *)
Lemma valid_scalars_spec bytes :
  valid_scalars bytes = true ↔
  ∃ cs, Forall symbol_scalar cs ∧ bytes = concat (utf8 <$> cs).
Proof.
  split.
  - remember (length bytes) as n eqn:Hn. revert bytes Hn.
    induction (lt_wf n) as [n _ IH]. intros [|lead bytes] Hn Hv; [by exists []|].
    destruct (valid_scalars_inv _ _ Hv) as (c & rest & Heq & Hc & Hrest).
    assert (length rest < n).
    { rewrite Hn, Heq, length_app. pose proof (utf8_length c). lia. }
    destruct (IH (length rest) ltac:(done) rest eq_refl Hrest) as (cs & Hcs & ->).
    exists (c :: cs). by split; [constructor|].
  - intros (cs & Hcs & ->). induction Hcs as [|c cs Hc Hcs IH]; [done|].
    cbn [fmap list_fmap concat]. by rewrite valid_scalars_utf8.
Qed.

(** ** Endpoints *)

Lemma string_eq_app_nil (s t : string) : s +:+ t = "" → t = "".
Proof. by destruct s. Qed.

(** Hosts hold no bracket. *)
Lemma valid_host_chars h : valid_host_token h = true → h ≠ "" ∧ all_chars hostname_character h = true.
Proof.
  unfold valid_host_token. destruct (_ || _) eqn:Hb; [done|]. intros Ha. split; [|done].
  intros ->. discriminate Hb.
Qed.

Lemma all_chars_impl (p q : ascii → bool) s :
  (∀ c, p c = true → q c = true) → all_chars p s = true → all_chars q s = true.
Proof.
  intros Hpq. induction s as [|c s IH]; simpl; [done|].
  rewrite !andb_true_iff. intros [? ?]. auto.
Qed.

Lemma host_no_char c h :
  hostname_character c = false → valid_host_token h = true → find_char c h = None.
Proof.
  intros Hc Hh. apply find_char_none. apply valid_host_chars in Hh as [_ Hh].
  eapply all_chars_impl; [|exact Hh]. intros a Ha. simpl.
  apply negb_true_iff, bool_decide_eq_false. by intros ->; congruence.
Qed.

Lemma digits_no_char c s :
  is_digit c = false → all_chars is_digit s = true → find_char c s = None.
Proof.
  intros Hc Hs. apply find_char_none. eapply all_chars_impl; [|exact Hs].
  intros a Ha. simpl. apply negb_true_iff, bool_decide_eq_false. by intros ->; congruence.
Qed.

(** The text of a port number. *)
Definition port_text (text : string) (p : Z) : Prop :=
  text ≠ "" ∧ all_chars is_digit text = true ∧ p = decimal_value 0 text ∧ (0 < p <= u16_max)%Z.

Lemma parse_port_spec h t e :
  parse_port h t = inl e ↔
  ∃ p, e = MkListenEndpoint h p ∧ valid_host_token h = true ∧ port_text t p.
Proof.
  unfold parse_port, port_text. destruct (valid_host_token h); simpl;
    [|split; [done|by intros (p & _ & Hf & _)]].
  case_bool_decide; [by split; [|intros (p & _ & _ & Hne & _)]|].
  destruct (parse_decimal u32_max t) as [p|] eqn:Hp.
  - apply parse_decimal_spec in Hp as (? & ? & -> & ?).
    destruct (_ || _) eqn:Hr; unfold u16_max in *.
    { split; [done|]. intros (p & _ & _ & _ & _ & -> & Hb). lia. }
    assert (0 <= decimal_value 0 t)%Z by (by apply decimal_value_nonneg).
    split; [intros [= <-]; eexists; split_all; eauto; lia|].
    intros (p & -> & _ & _ & _ & -> & _). done.
  - split; [done|]. intros (p & _ & _ & _ & Hd & -> & Hr).
    assert (parse_decimal u32_max t = Some (decimal_value 0 t)) as Hs; [|congruence].
    apply parse_decimal_spec. unfold u16_max, u32_max in *. split_all; [done..|lia].
Qed.

(** The texts the endpoint parser accepts. *)
Definition endpoint_text (value : string) (e : ListenEndpoint) : Prop :=
  ∃ text, valid_host_token (host e) = true ∧ port_text text (port e) ∧
    (find_char ":" (host e) = None ∧ value = host e +:+ ":" +:+ text
     ∨ value = "[" +:+ host e +:+ "]:" +:+ text).

Lemma get_app_r n s t : String.get (String.length s + n) (s +:+ t) = String.get n t.
Proof. by induction s. Qed.

Lemma drop_app_r n s t : drop_string (String.length s + n) (s +:+ t) = drop_string n t.
Proof. by induction s. Qed.

Lemma get_some_drop s n c :
  String.get n s = Some c → drop_string n s = String c (drop_string (S n) s).
Proof.
  revert n. induction s as [|a s IH]; intros n; simpl; [by destruct n|].
  destruct n as [|n]; [intros [= ->]; by destruct s|]. intros H. by apply IH.
Qed.

(** The bracketed form. *)
Lemma parse_bracketed rest e :
  parse_listen_endpoint (String "[" rest) = inl e ↔
  ∃ text, valid_host_token (host e) = true ∧ port_text text (port e) ∧
          rest = host e +:+ "]:" +:+ text.
Proof.
  unfold parse_listen_endpoint. rewrite bool_decide_eq_true_2 by done.
  change (find_char "]" (String "[" rest)) with (S <$> find_char "]" rest). split.
  - destruct (find_char "]" rest) as [n|] eqn:Hn; simpl; [|done].
    case_bool_decide as Hg; [|done]. intros (p & -> & Hh & Hp)%parse_port_spec.
    apply find_char_some in Hn as (Heq & _ & _).
    rewrite Nat.add_1_r in Hg. rewrite Nat.sub_0_r in *.
    eexists. split_all; [exact Hh|exact Hp|]. simpl.
    rewrite Heq at 1. do 2 f_equal. rewrite (Nat.add_comm n).
    rewrite (get_some_drop rest (S n) ":") by exact Hg. done.
  - intros (text & Hh & Hp & ->).
    assert (Hnone : find_char "]" (host e) = None) by (by apply host_no_char).
    change ("]:" +:+ text) with (String "]" (String ":" text)).
    rewrite find_char_app by done. cbn [fmap option_fmap option_map].
    rewrite bool_decide_eq_true_2 by (simpl; by rewrite get_app_r).
    rewrite Nat.sub_1_r. cbn [Nat.pred drop_string Nat.add]. rewrite take_string_app.
    rewrite drop_app_r. destruct e as [h p]. apply parse_port_spec. by exists p.
Qed.

(** The plain form. *)
Lemma parse_plain value e :
  String.get 0 value ≠ Some "["%char →
  parse_listen_endpoint value = inl e ↔
  ∃ text, valid_host_token (host e) = true ∧ port_text text (port e) ∧
          find_char ":" (host e) = None ∧ value = host e +:+ ":" +:+ text.
Proof.
  intros Hfront. split.
  - unfold parse_listen_endpoint. destruct value as [|front value']; [done|].
    set (value := String front value') in *.
    rewrite bool_decide_eq_false_2 by (intros ->; apply Hfront; done).
    destruct (rfind_char ":" value) as [colon|]; [|done].
    case_bool_decide as Hc; [|done]. intros (p & -> & Hh & Hp)%parse_port_spec.
    apply find_char_some in Hc as (Heq & Hnone & _).
    rewrite Nat.add_1_r in Hp. eexists. split_all; [exact Hh|exact Hp|exact Hnone|exact Heq].
  - intros (text & Hh & Hp & Hnone & ->).
    assert (Htext : find_char ":" text = None).
    { destruct Hp as (_ & Hd & _). by apply (digits_no_char ":"). }
    unfold parse_listen_endpoint.
    destruct (host e +:+ ":" +:+ text) as [|front value'] eqn:Hv.
    { apply valid_host_chars in Hh as [Hne _]. by destruct (host e). }
    rewrite bool_decide_eq_false_2 by (intros ->; apply Hfront; done).
    rewrite <- Hv. change (":" +:+ text) with (String ":" text).
    rewrite rfind_char_app, find_char_app by done. rewrite bool_decide_eq_true_2 by done.
    rewrite take_string_app, drop_app_r. destruct e as [h p]. apply parse_port_spec. by exists p.
Qed.

(** [parse_listen_endpoint] accepts exactly the texts [host:port] and
    [[host]:port] whose host is a valid token (without a colon in the first form)
    and whose port is a non-empty text of digits denoting a number in 1..65535, and
    it returns that host and port. *)
Theorem parse_listen_endpoint_spec (value : string) (e : ListenEndpoint) :
  parse_listen_endpoint value = inl e ↔ endpoint_text value e.
Proof.
  unfold endpoint_text. destruct (decide (String.get 0 value = Some "["%char)) as [Hf|Hf].
  - destruct value as [|c rest]; [done|]. injection Hf as ->. rewrite parse_bracketed. split.
    + intros (text & Hh & Hp & ->). exists text. split_all; [done..|by right].
    + intros (text & Hh & Hp & [[Hn Heq] | Heq]).
      * apply valid_host_chars in Hh as [Hne Hall]. destruct (host e) as [|a h]; [done|].
        injection Heq as <- _. discriminate Hall.
      * injection Heq as ->. by exists text.
  - rewrite parse_plain by done. split.
    + intros (text & Hh & Hp & Hn & ->). exists text. split_all; [done..|by left].
    + intros (text & Hh & Hp & [[Hn ->] | ->]); [by exists text|by destruct Hf].
Qed.

(** C15: A symbol is accepted exactly when its bytes are the UTF-8 encoding of a
    non-empty sequence of Unicode scalar values, none of them an ASCII control
    character, a space or DEL. *)
Theorem valid_symbol_is_utf8 (value : string) :
  valid_symbol value = true ↔
  ∃ cs, cs ≠ [] ∧ Forall symbol_scalar cs ∧ bytes_of value = concat (utf8 <$> cs).
Proof.
  unfold valid_symbol. case_bool_decide as Hempty.
  - subst. split; [done|]. intros ([|c cs] & Hne & _ & Heq); [done|].
    cbn [fmap list_fmap concat] in Heq. pose proof (utf8_length c).
    by destruct (utf8 c).
  - rewrite valid_scalars_spec. split.
    + intros (cs & Hcs & Heq). exists cs. split_all; [|done..].
      intros ->. by destruct value.
    + intros (cs & _ & Hcs & Heq). by exists cs.
Qed.

(** ** Validation and lifecycle *)

(** [validate_config] returns the configuration it was given, unchanged, exactly
    when the venue, the market, the symbol, the capacity and the endpoint are valid. *)
Theorem validate_config_spec (config : GatewayConfig) (v : ValidatedGatewayConfig) :
  validate_config config = inl v ↔
  value_ v = config ∧ venue config = Venue_Binance ∧
  (market config = Market_Spot ∨ market config = Market_UsdMPerpetual) ∧
  valid_symbol (symbol config) = true ∧ queue_capacity config ≠ 0%Z ∧
  valid_host_token (host (grpc_listen config)) = true ∧ port (grpc_listen config) ≠ 0%Z.
Proof.
  unfold validate_config, validate_endpoint, ConfigResult. rewrite !fail_if_inl.
  rewrite orb_false_iff, andb_false_iff, !negb_false_iff, !Z.eqb_eq, !Z.eqb_neq.
  destruct v as [c]. cbn [value_]. split.
  - intros (? & ? & ? & ? & [? ?] & [= <-]). by split_all.
  - intros (-> & ? & ? & ? & ? & ? & ?). by split_all.
Qed.

(** What a foundation has returned so far, by its state. *)
Definition foundation_history (s : LifecycleState) : list LifecycleState :=
  match s with Constructed => [] | Running => [Running] | Stopped => [Running; Stopped] end.

Lemma foundation_run_history calls f :
  foundation_history (state_ f) ++ snd (foundation_run calls f)
  = foundation_history (state_ (fst (foundation_run calls f))).
Proof.
  revert f. induction calls as [|c calls IH]; intros f; simpl; [by rewrite app_nil_r|].
  destruct f as [cfg s]. destruct c, s; simpl;
    match goal with |- context [foundation_run calls ?f] =>
      specialize (IH f); destruct (foundation_run calls f) end; exact IH.
Qed.

(** Whatever calls are made on a constructed foundation, the successful ones are
    at most one start followed by at most one stop, and its state tells which. *)
Theorem foundation_starts_and_stops_once (config : ValidatedGatewayConfig)
  (calls : list FoundationCall) :
  let '(f, answers) := foundation_run calls (foundation_make config) in
  answers = foundation_history (state_ f).
Proof.
  pose proof (foundation_run_history calls (foundation_make config)) as H.
  by destruct (foundation_run calls (foundation_make config)).
Qed.

Example parse_ipv6 :
  parse_listen_endpoint "[::1]:50051" = inl (MkListenEndpoint "::1" 50051).
Proof. reflexivity. Qed.

Example parse_port_overflow :
  parse_listen_endpoint "localhost:65536"
  = inr (endpoint_error "port must be an integer in the range 1..65535").
Proof. reflexivity. Qed.
