(* ===== verification/Recovery.v ===== *)
(** * Recovery: the recovery coordinator

    Models [src/src/g5/recovery_coordinator.hpp], [src/src/g5/spot_recovery.hpp] and
    [.cpp] and [src/src/g6/planned_rotation.hpp]: one thread that owns a product's
    transport attempts, watches the runtime, classifies failures, backs off, resets
    the projection and opens and closes the source generations.

    The objects the coordinator calls are behind [RecoveryWorld]: the runtime, the
    attempts made by the factory, the clock and the three lifecycle callbacks act on
    a state [X] of their own, and each call is a function on [X] with an outcome.
    [Coordinator] holds the fields of [RecoveryCoordinator::Impl]; the coordinator's
    thread is a [prog] over it, in which a call is a step.  [locked] is the ownership
    of [mutex_]: a section that calls nothing while it holds the lock is one step; the
    two that do take the lock, and other threads wait for it.  [token] is the stop
    token of the thread.  Waiting is not modelled as time: the answer of a wait is the
    world's.  The callbacks of [RecoveryTestOptions], empty in production, are left
    out. *)

From S2P Require Import Prelude Ring Wire Text Session OrderBookPublication.
From S2P Require Import Programs Projection MarketRuntime.

Open Scope gateway_scope.

(** ** Transports ([src/src/g4/spot_transport.hpp]) *)

Inductive NetworkErrorCode : Type :=
| NeTimeout
| NeDns
| NeTcp
| NeTls
| NeWebSocketHandshake
| NeWebSocketRead
| NeHttpWrite
| NeHttpRead
| NeHttpStatus
| NeProtocol
| NeRuntimeAdmission
| NeServerShutdown
| NeInternal.

#[export] Instance NetworkErrorCode_eq_dec : EqDecision NetworkErrorCode.
Proof. solve_decision. Defined.

Record NetworkError : Type := MkNetworkError {
  ne_code : NetworkErrorCode;
  ne_stage : string;
  ne_message : string;
  ne_http_status : option Z;
  ne_retry_after : option string
}.

Inductive TransportStartResult : Type :=
| TsStarted
| TsAlreadyStarted
| TsFailed
| TsStopped.

#[export] Instance TransportStartResult_eq_dec : EqDecision TransportStartResult.
Proof. solve_decision. Defined.

Inductive BinanceTransportProfile : Type :=
| DepthOnly
| G9CombinedEvents
| DepthWithEvents.

Record TransportObservation : Type := MkTransportObservation {
  to_started : bool;
  to_running : bool;
  to_stopped : bool;
  to_tls_verified : bool;
  to_websocket_handshake : bool;
  to_rest_depth_fetched : bool;
  to_server_ping_observed : bool;
  to_server_shutdown_observed : bool;
  to_depth_frame_count : Z;
  to_agg_trade_frame_count : Z;
  to_book_ticker_frame_count : Z;
  to_last_event_utc_ns : option Z;
  to_profile : BinanceTransportProfile;
  to_connection_id : string;
  to_connection_generation : Z;
  to_terminal_error : option NetworkError
}.

(** ** Data *)

Inductive RecoveryState : Type :=
| RyStarting
| RyLive
| RyRotating
| RyBackoff
| RyRecovering
| RyExhausted
| RyStopping
| RyStopped.

#[export] Instance RecoveryState_eq_dec : EqDecision RecoveryState.
Proof. solve_decision. Defined.

Inductive SourceGenerationCloseOutcome : Type :=
| CloseReplacement
| ClosePermanentFailure
| CloseGlobalShutdown.

#[export] Instance SourceGenerationCloseOutcome_eq_dec :
  EqDecision SourceGenerationCloseOutcome.
Proof. solve_decision. Defined.

Inductive RecoveryCause : Type :=
| RcNeedsResync
| RcTransportFailure
| RcSnapshotFailure
| RcIngressOverflow
| RcBootstrapBufferOverflow
| RcProtocol
| RcServerShutdown
| RcHttp429
| RcHttp418
| RcHttp5xx
| RcTerminalHttp4xx
| RcInternalFailure.

Inductive RecoveryStartResult : Type :=
| RtStarted
| RtAlreadyStarted
| RtStopped
| RtRuntimeStartFailed.

Definition kMaximumRecoveryAttempts : nat := 6.
Definition kRecoveryFailureHistoryCapacity : nat := kMaximumRecoveryAttempts + 1.

(** [kPlannedRotationAge]: 23 h 50 min, in nanoseconds. *)
Definition kPlannedRotationAge : Z := ((23 * 60 + 50) * 60 * 1000000000)%Z.

Section Data.
Context `{L : ProjectionLibrary}.

Record PlannedRotationCut : Type := MkPlannedRotationCut {
  cut_generation : Z;
  cut_transport : TransportObservation;
  cut_runtime : RuntimeObservation
}.

Record RecoveryFailureDiagnostic : Type := MkRecoveryFailureDiagnostic {
  diag_connection_generation : Z;
  diag_cause : RecoveryCause;
  diag_network_error : option NetworkError;
  diag_runtime_state : RuntimeState;
  diag_projection_status : ProjectionStatus;
  diag_last_gap : option GapInfo;
  diag_fault_reason : option FaultReason;
  diag_adapter_error : option AdapterError
}.

(** The value-initialised element of the array. *)
Definition empty_diagnostic : RecoveryFailureDiagnostic :=
  MkRecoveryFailureDiagnostic 0 RcInternalFailure None RsConstructed AwaitingBaseline
    None None None.

Record RecoveryObservation : Type := MkRecoveryObservation {
  ro_state : RecoveryState;
  ro_connection_generation : Z;
  ro_connection_id : string;
  ro_last_event_utc_ns : option Z;
  ro_consecutive_recovery_attempts : nat;
  ro_total_recovery_count : Z;
  ro_planned_rotation_count : Z;
  ro_last_rotation_generation : option Z;
  ro_last_planned_rotation_cut : option PlannedRotationCut;
  ro_generation_started_monotonic_ns : option Z;
  ro_last_recovery_cause : option RecoveryCause;
  ro_last_requested_delay : Z;
  ro_in_backoff : bool;
  ro_terminal : bool;
  ro_exhausted : bool;
  ro_active_transport_count : nat;
  ro_max_active_transport_count : nat;
  ro_terminal_error : option NetworkError;
  ro_failure_history : list RecoveryFailureDiagnostic;
  ro_failure_history_size : nat
}.

#[export] Instance RecoveryObservation_eta : Eta RecoveryObservation :=
  λ r, MkRecoveryObservation (ro_state r) (ro_connection_generation r) (ro_connection_id r)
    (ro_last_event_utc_ns r) (ro_consecutive_recovery_attempts r) (ro_total_recovery_count r)
    (ro_planned_rotation_count r) (ro_last_rotation_generation r)
    (ro_last_planned_rotation_cut r) (ro_generation_started_monotonic_ns r)
    (ro_last_recovery_cause r) (ro_last_requested_delay r) (ro_in_backoff r) (ro_terminal r)
    (ro_exhausted r) (ro_active_transport_count r) (ro_max_active_transport_count r)
    (ro_terminal_error r) (ro_failure_history r) (ro_failure_history_size r).

Definition initial_recovery_observation : RecoveryObservation :=
  MkRecoveryObservation RyStarting 0 "" None 0 0 0 None None None None 0 false false false
    0 0 None (replicate kRecoveryFailureHistoryCapacity empty_diagnostic) 0.

Record QuiescentAcceptanceCut : Type := MkQuiescentAcceptanceCut {
  quiescent_transport : TransportObservation;
  quiescent_runtime : RuntimeObservation
}.

(** ** The policy *)

(** [parse_retry_after]: [std::chrono::seconds::rep] is a 64-bit signed integer. *)
Definition parse_retry_after (value : option string) : option Z :=
  match value with
  | None => None
  | Some text =>
      if bool_decide (text = "") then None else
      match parse_decimal u64_max text with
      | Some seconds => if (i64_max <? seconds)%Z then None else Some seconds
      | None => None
      end
  end.

(** [normal_backoff_delay]; [Threw] is [std::out_of_range]. *)
Definition normal_backoff_delay (recovery_attempt : nat) : outcome Z :=
  let delays := [1; 2; 4; 8; 16; 30]%Z in
  if bool_decide (recovery_attempt = 0) || bool_decide (length delays < recovery_attempt)
  then Threw
  else match delays !! (recovery_attempt - 1) with Some d => Returned d | None => Threw end.

Record RecoveryDecision : Type := MkRecoveryDecision {
  recoverable : bool;
  cause : RecoveryCause;
  minimum_delay : option Z
}.

#[export] Instance RecoveryDecision_eta : Eta RecoveryDecision :=
  λ r, MkRecoveryDecision (recoverable r) (cause r) (minimum_delay r).

Definition default_decision : RecoveryDecision :=
  MkRecoveryDecision false RcInternalFailure None.

(** The part of [classify_failure] that reads the runtime; [inr] is an early return. *)
Definition classify_runtime (runtime : RuntimeObservation) (transport : TransportObservation)
  : RecoveryDecision + RecoveryDecision :=
  if bool_decide (obs_state runtime = RsNeedsResync)
  then inl (default_decision <| recoverable := true |> <| cause := RcNeedsResync |>)
  else match (if bool_decide (obs_state runtime = RsFaulted)
              then obs_fault_reason runtime else None) with
  | Some TransportFailure => inl (MkRecoveryDecision true RcTransportFailure None)
  | Some SnapshotFailure => inl (MkRecoveryDecision true RcSnapshotFailure None)
  | Some IngressOverflow => inl (MkRecoveryDecision true RcIngressOverflow None)
  | Some BootstrapBufferOverflow => inl (MkRecoveryDecision true RcBootstrapBufferOverflow None)
  | Some (FrAdapterError | ProjectionRejected | FrClockError | FrInternalError) =>
      inr default_decision
  | None =>
      if bool_decide (is_Some (to_terminal_error transport))
      then inl (default_decision <| recoverable := true |> <| cause := RcTransportFailure |>)
      else inr default_decision
  end.

(** The part that reads the status of the failed HTTP exchange. *)
Definition classify_http (error : NetworkError) (decision : RecoveryDecision)
  : RecoveryDecision :=
  match ne_http_status error with
  | None => default_decision
  | Some status =>
      if (status =? 429)%Z || (status =? 418)%Z then
        match parse_retry_after (ne_retry_after error) with
        | None => default_decision
        | Some retry_after =>
            decision <| recoverable := true |>
                     <| cause := if (status =? 429)%Z then RcHttp429 else RcHttp418 |>
                     <| minimum_delay := Some retry_after |>
        end
      else if (500 <=? status)%Z && (status <=? 599)%Z
      then decision <| recoverable := true |> <| cause := RcHttp5xx |>
      else if (400 <=? status)%Z && (status <=? 499)%Z
      then decision <| recoverable := false |> <| cause := RcTerminalHttp4xx |>
      else default_decision
  end.

(** [classify_failure] *)
Definition classify_failure (runtime : RuntimeObservation) (transport : TransportObservation)
  : RecoveryDecision :=
  match classify_runtime runtime transport with
  | inr decision => decision
  | inl decision =>
      match to_terminal_error transport with
      | None => decision
      | Some error =>
          match ne_code error with
          | NeInternal => default_decision
          | NeProtocol => decision <| cause := RcProtocol |>
          | NeServerShutdown => decision <| cause := RcServerShutdown |>
          | NeHttpStatus => classify_http error decision
          | _ => decision
          end
      end
  end.

Definition internal_error (message : string) : NetworkError :=
  MkNetworkError NeInternal "g5-recovery" message None None.

(** ** The collaborators *)

(** The calls of the coordinator on the runtime, the attempts (by address), the
    clock and the lifecycle callbacks.  [copies] tells whether the copies made by
    [record_failure] succeed, [what] is the text of the exception in flight. *)
Class RecoveryWorld (X : Type) : Type := {
  w_clock : X → X * outcome ClockSample;
  w_runtime_start : X → X * StartResult;
  w_runtime_stop : X → X;
  w_runtime_observe : X → X * outcome RuntimeObservation;
  w_wait_until_live_or_recovery_required : X → X * outcome (option RuntimeObservation);
  w_wait_until_recovery_required : X → X * outcome (option RuntimeObservation);
  w_wait_until_recovery_required_for : Z → X → X * outcome TimedRecoveryWaitResult;
  w_submit_transport_failure : X → X * outcome AdmissionResult;
  w_reset_for_rebootstrap : X → X * outcome RebootstrapResetResult;
  w_reset_live_for_planned_rebootstrap : X → X * outcome PlannedRebootstrapResetResult;
  w_attempt_factory : Z → X → X * outcome (option Z);
  w_attempt_start : Z → X → X * outcome TransportStartResult;
  w_attempt_stop : Z → X → X;
  w_attempt_observe : Z → X → X * outcome TransportObservation;
  w_lifecycle_open : Z → X → X * outcome bool;
  w_lifecycle_quiesce : Z → X → X * outcome bool;
  w_lifecycle_close : Z → SourceGenerationCloseOutcome → X → X * outcome bool;
  w_wait_backoff : Z → X → X;
  w_copies : X → X * bool;
  w_what : X → string
}.
End Data.

(** ** The coordinator *)

(** How an iteration of the coordinator's loop ends: [break], [return] or the next
    iteration with its generation. *)
Inductive LoopControl : Type :=
| LoopBreak
| LoopReturn
| LoopNext (generation : Z).

Module Coordination.
Section Coordination.
Context `{L : ProjectionLibrary} {X : Type} `{RW : !RecoveryWorld X}.

(** The fields of [RecoveryCoordinator::Impl]. *)
Record Coordinator : Type := MkCoordinator {
  world : X;
  planned_rotation : option Z;
  lifecycle_configured : bool;
  source_generation_open : option Z;
  source_generation_quiesced : bool;
  observation : RecoveryObservation;
  started : bool;
  stopped : bool;
  shutdown_requested : bool;
  token : bool;
  active_attempt : option Z;
  locked : bool
}.

#[export] Instance Coordinator_eta : Eta Coordinator :=
  λ r, MkCoordinator (world r) (planned_rotation r) (lifecycle_configured r)
    (source_generation_open r) (source_generation_quiesced r) (observation r) (started r)
    (stopped r) (shutdown_requested r) (token r) (active_attempt r) (locked r).

Implicit Types (s : Coordinator).
Abbreviation Thread := (prog Coordinator).

(** [Impl::Impl]: whether the clock, the three lifecycle callbacks and the factory
    are set; [None] is [std::invalid_argument]. *)
Definition make (clock : bool) (planned : option Z) (open quiesce close factory : bool) (x : X)
  : option Coordinator :=
  if negb clock then None else
  if match planned with Some age => (age <=? 0)%Z | None => false end then None else
  let count := Nat.b2n open + Nat.b2n quiesce + Nat.b2n close in
  if negb (bool_decide (count = 0)) && negb (bool_decide (count = 3)) then None else
  if negb factory then None else
  Some (MkCoordinator x planned (bool_decide (count = 3)) None false
          initial_recovery_observation false false false false None false).

(** *** Small sections *)

(** A call on the collaborators. *)
Definition call {A} (f : X → X * A) : Thread A :=
  atomically (λ s, (s <| world := fst (f (world s)) |>, snd (f (world s)))).

(** A lifecycle callback and the assignments to the two source fields that follow it
    when it answers [true]; no other thread reads these fields. *)
Definition call_source (f : X → X * outcome bool) (g : Coordinator → Coordinator)
  : Thread (outcome bool) :=
  atomically (λ s,
    let '(x, r) := f (world s) in
    let s := s <| world := x |> in
    (match r with Returned true => g s | _ => s end, r)).

Definition set_state (st : RecoveryState) s : Coordinator :=
  s <| observation ::= λ o, o <| ro_state := st |> |>.

(** [std::lock_guard lock{mutex_}] around calls. *)
Definition with_lock {A} (p : Thread A) : Thread A :=
  modify (λ s, s <| locked := true |>) ;;
  r ← p;
  modify (λ s, s <| locked := false |>) ;;
  mret r.

(** [stop_token.stop_requested() || shutdown_requested()] *)
Definition shutdown_seen : Thread bool :=
  t ← read token;
  if t : bool then mret true else read shutdown_requested.

(** [shutdown_requested_ || stop_token.stop_requested()] under the lock. *)
Definition shutting_down s : bool := shutdown_requested s || token s.

Definition persist_event (transport : TransportObservation) s : Coordinator :=
  match to_last_event_utc_ns transport with
  | None => s
  | Some ns => s <| observation ::= λ o, o <| ro_last_event_utc_ns := Some ns |> |>
  end.

Definition terminal_commit (c : RecoveryCause) (error : NetworkError) (exhausted : bool) s
  : Coordinator :=
  if shutdown_requested s then s
  else s <| observation ::= λ o,
         o <| ro_last_recovery_cause := Some c |> <| ro_state := RyExhausted |>
           <| ro_terminal := true |> <| ro_exhausted := exhausted |>
           <| ro_in_backoff := false |> <| ro_terminal_error := Some error |> |>.

(** [set_terminal] *)
Definition set_terminal (c : RecoveryCause) (error : NetworkError) (exhausted : bool)
  : Thread () := modify (terminal_commit c error exhausted).

(** *** Attempts *)

Definition publish_attempt (generation : Z) (transport : TransportObservation) s : Coordinator :=
  s <| observation ::= λ o,
    let o := o <| ro_connection_generation := generation |>
               <| ro_connection_id := to_connection_id transport |>
               <| ro_active_transport_count := 1 |> in
    o <| ro_max_active_transport_count :=
           ro_max_active_transport_count o `max` ro_active_transport_count o |> |>.

(** [create_attempt] *)
Definition create_attempt (generation : Z) : Thread (outcome (option Z)) :=
  let! unique := call (w_attempt_factory generation) in
  match unique with
  | None => mret (Returned None)
  | Some attempt =>
      modify (λ s, s <| active_attempt := Some attempt |>) ;;
      let! transport := call (w_attempt_observe attempt) in
      modify (publish_attempt generation transport) ;;
      mret (Returned (Some attempt))
  end.

(** The callback of [quiesce_attempt], when this generation is open. *)
Definition quiesce_source (transport : TransportObservation) : Thread (outcome ()) :=
  due ← read (λ s, bool_decide (source_generation_open s
                                = Some (to_connection_generation transport))
                   && negb (source_generation_quiesced s));
  if due : bool then
    let! quiesced := call_source (w_lifecycle_quiesce (to_connection_generation transport))
                       (λ s, s <| source_generation_quiesced := true |>) in
    if quiesced : bool then mret (Returned ()) else mret Threw
  else mret (Returned ()).

Definition retire_attempt (transport : TransportObservation) s : Coordinator :=
  s <| observation ::= λ o,
    o <| ro_active_transport_count := 0 |>
      <| ro_connection_generation := to_connection_generation transport |>
      <| ro_connection_id := to_connection_id transport |> |>.

(** [quiesce_attempt] *)
Definition quiesce_attempt (attempt : Z) : Thread (outcome TransportObservation) :=
  call (λ x, (w_attempt_stop attempt x, ())) ;;
  let! transport := call (w_attempt_observe attempt) in
  modify (persist_event transport) ;;
  let! _ := quiesce_source transport in
  modify (λ s, if bool_decide (active_attempt s = Some attempt)
               then s <| active_attempt := None |> else s) ;;
  modify (retire_attempt transport) ;;
  mret (Returned transport).

(** *** Source generations *)

(** [open_source_generation] *)
Definition open_source_generation (transport : TransportObservation) (expected : Z)
  : Thread (outcome ()) :=
  configured ← read lifecycle_configured;
  if negb configured then mret (Returned ()) else
  invalid ← read (λ s, bool_decide (is_Some (source_generation_open s))
                       || source_generation_quiesced s || negb (to_started transport)
                       || negb (to_running transport) || to_stopped transport
                       || negb (to_websocket_handshake transport)
                       || negb (to_connection_generation transport =? expected)%Z);
  if invalid : bool then mret Threw else
  let! opened := call_source (w_lifecycle_open expected)
                   (λ s, s <| source_generation_open := Some expected |>) in
  if opened : bool then mret (Returned ()) else mret Threw.

(** [close_source_generation] *)
Definition close_source_generation (o : SourceGenerationCloseOutcome) : Thread (outcome ()) :=
  open ← read (λ s, if lifecycle_configured s then source_generation_open s else None);
  match open with
  | None => mret (Returned ())
  | Some generation =>
      quiesced ← read source_generation_quiesced;
      if negb quiesced then mret Threw else
      let! closed := call_source (w_lifecycle_close generation o)
                       (λ s, s <| source_generation_open := None |>
                               <| source_generation_quiesced := false |>) in
      if closed : bool then mret (Returned ()) else mret Threw
  end.

(** [close_source_after_exception] *)
Definition close_source_after_exception : Thread () :=
  open ← read source_generation_open;
  match open with
  | None => mret ()
  | Some _ =>
      quiesced ← read source_generation_quiesced;
      ready ← (if quiesced : bool then mret true else
               active ← read active_attempt;
               match active with
               | None => mret true
               | Some attempt =>
                   r ← quiesce_attempt attempt;
                   mret (match r with Returned _ => true | Threw => false end)
               end);
      if ready : bool
      then _ ← close_source_generation ClosePermanentFailure; mret ()
      else mret ()
  end.

(** [quiesce_attempt(attempt); close_source_generation(GlobalShutdown); break;] *)
Definition end_with_shutdown (attempt : Z) : Thread (outcome LoopControl) :=
  let! _ := quiesce_attempt attempt in
  let! _ := close_source_generation CloseGlobalShutdown in
  mret (Returned LoopBreak).

(** *** Planned rotation *)

(** [planned_rotation_deadline] *)
Definition planned_rotation_deadline (age generation_started : Z) : outcome Z :=
  if (u64_max - age <? generation_started)%Z then Threw
  else Returned (generation_started + age)%Z.

(** The instants of a generation, when a rotation is planned. *)
Definition generation_timing (attempt : Z) : Thread (outcome (option (Z * Z))) :=
  planned ← read planned_rotation;
  match planned with
  | None => mret (Returned None)
  | Some age =>
      try_catch
        (let! sample := call w_clock in
         mret (match planned_rotation_deadline age (sample_monotonic_ns sample) with
               | Returned deadline => Returned (Returned (Some (sample_monotonic_ns sample, deadline)))
               | Threw => Threw
               end))
        (_ ← quiesce_attempt attempt; mret Threw)
  end.

(** [wait_for_rotation_or_recovery] *)
Definition wait_for_rotation_or_recovery (generation_started deadline : Z)
  : Thread (outcome TimedRecoveryWaitResult) :=
  let! sample := call w_clock in
  let now := sample_monotonic_ns sample in
  if (now <? generation_started)%Z then mret Threw
  else if (deadline <=? now)%Z then mret (Returned TwDeadlineReached)
  else call (w_wait_until_recovery_required_for (deadline - now)).

(** [is_clean_planned_cut] *)
Definition is_clean_planned_cut (runtime : RuntimeObservation) (transport : TransportObservation)
  : bool :=
  to_stopped transport && negb (to_running transport)
  && negb (bool_decide (is_Some (to_terminal_error transport)))
  && bool_decide (obs_state runtime = RsLive)
  && bool_decide (obs_projection_status runtime = Synchronized)
  && negb (bool_decide (is_Some (obs_fault_reason runtime))).

(** *** Becoming live *)

Definition qualifies (runtime : RuntimeObservation) (transport : TransportObservation)
  (expected_generation : Z) : bool :=
  bool_decide (obs_state runtime = RsLive)
  && bool_decide (obs_projection_status runtime = Synchronized)
  && negb (bool_decide (is_Some (obs_fault_reason runtime)))
  && to_running transport && negb (to_stopped transport)
  && negb (bool_decide (is_Some (to_terminal_error transport)))
  && to_websocket_handshake transport && to_rest_depth_fetched transport
  && (to_connection_generation transport =? expected_generation)%Z.

Definition live_commit (transport : TransportObservation) s : Coordinator * bool :=
  if stopped s || shutdown_requested s || ro_terminal (observation s)
     || bool_decide (ro_state (observation s) = RyStopping) || token s
  then (s, false)
  else (s <| observation ::= λ o,
          o <| ro_state := RyLive |>
            <| ro_connection_generation := to_connection_generation transport |>
            <| ro_connection_id := to_connection_id transport |>
            <| ro_consecutive_recovery_attempts := 0 |>
            <| ro_in_backoff := false |> <| ro_terminal_error := None |> |>, true).

(** [try_mark_live] *)
Definition try_mark_live (runtime : RuntimeObservation) (transport : TransportObservation)
  (expected_generation : Z) : Thread bool :=
  if negb (qualifies runtime transport expected_generation) then mret false else
  t ← read token;
  if t : bool then mret false else atomically (live_commit transport).

(** [observation_.state = Rotating], unless shutdown won. *)
Definition rotating_commit s : Coordinator * bool :=
  if shutting_down s then (s, true) else (set_state RyRotating s, false).

(** What watching a started attempt gives: the end of the loop or
    [planned_rotation_due]. *)
Definition watch_rotation (attempt generation_started deadline : Z)
  : Thread (outcome (LoopControl + bool)) :=
  let! waited :=
    try_catch
      (r ← wait_for_rotation_or_recovery generation_started deadline;
       mret (match r with Returned w => Returned (Returned w) | Threw => Threw end))
      (let! _ := quiesce_attempt attempt in
       let! _ := close_source_generation ClosePermanentFailure in
       mret Threw) in
  match waited with
  | TwStopped => let! c := end_with_shutdown attempt in mret (Returned (inl c))
  | TwDeadlineReached =>
      shutdown_won ← atomically rotating_commit;
      if shutdown_won : bool
      then let! c := end_with_shutdown attempt in mret (Returned (inl c))
      else mret (Returned (inr true))
  | TwRecoveryRequired => mret (Returned (inr false))
  end.

Definition watch_until_recovery (attempt : Z) : Thread (outcome (LoopControl + bool)) :=
  let! waited := call w_wait_until_recovery_required in
  match waited with
  | None => let! c := end_with_shutdown attempt in mret (Returned (inl c))
  | Some _ => mret (Returned (inr false))
  end.

(** From [start_result == Started] to the quiescence of the attempt. *)
Definition watch_generation (generation attempt : Z) (timing : option (Z * Z))
  : Thread (outcome (LoopControl + bool)) :=
  let! transport := call (w_attempt_observe attempt) in
  let! _ := open_source_generation transport generation in
  let! waited := call w_wait_until_live_or_recovery_required in
  match waited with
  | None => let! c := end_with_shutdown attempt in mret (Returned (inl c))
  | Some runtime_observation =>
      if negb (bool_decide (obs_state runtime_observation = RsLive))
      then mret (Returned (inr false)) else
      let! qualified_runtime := call w_runtime_observe in
      let! transport := call (w_attempt_observe attempt) in
      marked ← try_mark_live qualified_runtime transport generation;
      if negb marked then mret (Returned (inr false)) else
      match timing with
      | Some (generation_started, deadline) => watch_rotation attempt generation_started deadline
      | None => watch_until_recovery attempt
      end
  end.

(** *** After the attempt *)

(** A transport error that the runtime has not seen is submitted to it; [inl] is the
    early return. *)
Definition reflect_terminal_error (transport : TransportObservation)
  (final_runtime : RuntimeObservation) : Thread (outcome (LoopControl + RuntimeObservation)) :=
  if bool_decide (is_Some (to_terminal_error transport))
     && bool_decide (obs_state final_runtime = RsLive)
     && negb (bool_decide (is_Some (obs_fault_reason final_runtime)))
  then
    let! admitted := call w_submit_transport_failure in
    if bool_decide (admitted = ArAccepted)
    then let! final := call w_runtime_observe in mret (Returned (inr final))
    else
      let! _ := close_source_generation ClosePermanentFailure in
      set_terminal RcInternalFailure
        (internal_error "terminal transport fault admission failed") false ;;
      mret (Returned (inl LoopReturn))
  else mret (Returned (inr final_runtime)).

(** [++x] on the generation and the counters. *)
Definition rotation_commit (generation : Z) (transport : TransportObservation)
  (runtime : RuntimeObservation) s : Coordinator :=
  s <| observation ::= λ o,
    o <| ro_last_rotation_generation := Some generation |>
      <| ro_last_planned_rotation_cut := Some (MkPlannedRotationCut generation transport runtime) |>
      <| ro_planned_rotation_count ::= u64_succ |> <| ro_state := RyStarting |> |>.

(** The planned rotation of a clean cut; under the lock, [None] is the [break]. *)
Definition planned_reset (generation : Z) (transport : TransportObservation)
  (runtime : RuntimeObservation) : Thread (outcome LoopControl) :=
  let! reset_result := with_lock (
    down ← read shutting_down;
    if down : bool
    then let! _ := close_source_generation CloseGlobalShutdown in mret (Returned None)
    else
      let! _ := close_source_generation CloseReplacement in
      let! reset_result := call w_reset_live_for_planned_rebootstrap in
      (if bool_decide (reset_result = PrReset)
       then modify (rotation_commit generation transport runtime) else mret ()) ;;
      mret (Returned (Some reset_result))) in
  match reset_result with
  | None => mret (Returned LoopBreak)
  | Some PrReset => mret (Returned (LoopNext (u64_succ generation)))
  | Some _ =>
      set_terminal RcInternalFailure
        (internal_error "owner-domain planned rebootstrap reset failed") false ;;
      mret (Returned LoopReturn)
  end.

(** [record_failure]: once full, the array is shifted by one. *)
Definition record_diagnostic (d : RecoveryFailureDiagnostic) (o : RecoveryObservation)
  : RecoveryObservation :=
  let size := ro_failure_history_size o in
  let history := ro_failure_history o in
  if bool_decide (size = length history)
  then o <| ro_failure_history := tail history ++ [d] |>
  else o <| ro_failure_history := <[size := d]> history |>
         <| ro_failure_history_size := size + 1 |>.

Definition record_failure (generation : Z) (c : RecoveryCause)
  (transport : TransportObservation) (runtime : RuntimeObservation) : Thread () :=
  copied ← call w_copies;
  if negb copied then mret () else
  modify (λ s, s <| observation ::=
    record_diagnostic
      (MkRecoveryFailureDiagnostic generation c (to_terminal_error transport)
         (obs_state runtime) (obs_projection_status runtime) (obs_last_gap runtime)
         (obs_fault_reason runtime) (obs_adapter_error runtime)) |>).

(** The attempts are used up. *)
Definition exhausted_commit (decision : RecoveryDecision) (transport : TransportObservation) s
  : Coordinator :=
  s <| observation ::= λ o,
    o <| ro_last_recovery_cause := Some (cause decision) |> <| ro_state := RyExhausted |>
      <| ro_terminal := true |> <| ro_exhausted := true |> <| ro_in_backoff := false |>
      <| ro_terminal_error := to_terminal_error transport |> |>.

(** The next attempt is counted and its delay chosen; [normal_backoff_delay] throws
    after the counter has changed. *)
Definition backoff_count (decision : RecoveryDecision) s : Coordinator :=
  s <| observation ::= λ o,
    o <| ro_consecutive_recovery_attempts ::= S |>
      <| ro_last_recovery_cause := Some (cause decision) |> |>.

Definition requested_delay (decision : RecoveryDecision) (normal : Z) : Z :=
  match minimum_delay decision with Some m => normal `max` m | None => normal end.

Definition backoff_commit (delay : Z) s : Coordinator :=
  s <| observation ::= λ o,
    o <| ro_last_requested_delay := delay |> <| ro_state := RyBackoff |>
      <| ro_in_backoff := true |> |>.

(** The section that decides between the shutdown, exhaustion and a backoff; [Some]
    is the end of the loop. *)
Definition commit_backoff (decision : RecoveryDecision) (transport : TransportObservation)
  : Thread (outcome (option LoopControl)) :=
  with_lock (
    down ← read shutting_down;
    if down : bool
    then let! _ := close_source_generation CloseGlobalShutdown in
         mret (Returned (Some LoopBreak))
    else
      attempts ← read (λ s, ro_consecutive_recovery_attempts (observation s));
      if bool_decide (kMaximumRecoveryAttempts <= attempts)
      then
        let! _ := close_source_generation ClosePermanentFailure in
        modify (exhausted_commit decision transport) ;;
        mret (Returned (Some LoopReturn))
      else
        let! _ := close_source_generation CloseReplacement in
        modify (backoff_count decision) ;;
        attempt ← read (λ s, ro_consecutive_recovery_attempts (observation s));
        match normal_backoff_delay attempt with
        | Threw => mret Threw
        | Returned normal =>
            modify (backoff_commit (requested_delay decision normal)) ;;
            mret (Returned None)
        end).

(** The end of the backoff. *)
Definition recovering_commit s : Coordinator * bool :=
  if shutting_down s then (s, true)
  else (s <| observation ::= λ o, o <| ro_state := RyRecovering |> <| ro_in_backoff := false |> |>,
        false).

(** [reset_for_rebootstrap] under the lock; [None] is the [break]. *)
Definition reset_section : Thread (outcome (option RebootstrapResetResult)) :=
  with_lock (
    down ← read shutting_down;
    if down : bool then mret (Returned None) else
    let! reset_result := call w_reset_for_rebootstrap in
    (if bool_decide (reset_result = RrReset)
     then modify (λ s, s <| observation ::= λ o, o <| ro_total_recovery_count ::= u64_succ |> |>)
     else mret ()) ;;
    mret (Returned (Some reset_result))).

(** [observe]: the copy made under the lock and the attempt seen; the rest. *)
Definition observe_copy s : RecoveryObservation := observation s.

Definition observe_overlay (copy : RecoveryObservation) (transport : TransportObservation)
  : RecoveryObservation :=
  if (to_connection_generation transport =? ro_connection_generation copy)%Z
     && bool_decide (is_Some (to_last_event_utc_ns transport))
  then copy <| ro_last_event_utc_ns := to_last_event_utc_ns transport |>
  else copy.

Definition observe : Thread (outcome RecoveryObservation) :=
  copy ← read observe_copy;
  attempt ← read active_attempt;
  match attempt with
  | None => mret (Returned copy)
  | Some attempt =>
      if negb (bool_decide (ro_active_transport_count copy = 1))
         || (ro_connection_generation copy =? 0)%Z
      then mret (Returned copy)
      else let! transport := call (w_attempt_observe attempt) in
           mret (Returned (observe_overlay copy transport))
  end.

(** [wait_backoff]: whether the thread was not asked to stop. *)
Definition wait_backoff (delay : Z) : Thread bool :=
  call (λ x, (w_wait_backoff delay x, ())) ;;
  cancelled ← read token;
  mret (negb cancelled).

(** From the committed backoff to the next iteration. *)
Definition rebootstrap (generation : Z) : Thread (outcome LoopControl) :=
  let! current := observe in
  waited ← wait_backoff (ro_last_requested_delay current);
  if negb waited then mret (Returned LoopBreak) else
  down ← atomically recovering_commit;
  if down : bool then mret (Returned LoopBreak) else
  let! reset_result := reset_section in
  match reset_result with
  | None => mret (Returned LoopBreak)
  | Some RrReset => mret (Returned (LoopNext (u64_succ generation)))
  | Some _ =>
      set_terminal RcInternalFailure
        (internal_error "owner-domain rebootstrap reset failed") false ;;
      mret (Returned LoopReturn)
  end.

(** A failed attempt. *)
Definition recover (generation : Z) (transport : TransportObservation)
  (runtime : RuntimeObservation) : Thread (outcome LoopControl) :=
  let decision := classify_failure runtime transport in
  record_failure generation (cause decision) transport runtime ;;
  if negb (recoverable decision) then
    let! _ := close_source_generation ClosePermanentFailure in
    set_terminal (cause decision)
      (default (internal_error "nonrecoverable G5 failure") (to_terminal_error transport)) false ;;
    mret (Returned LoopReturn)
  else
    let! committed := commit_backoff decision transport in
    match committed with
    | Some c => mret (Returned c)
    | None => rebootstrap generation
    end.

(** From the quiescence of the attempt to the end of the iteration. *)
Definition settle_generation (generation attempt : Z) (planned_rotation_due : bool)
  : Thread (outcome LoopControl) :=
  let! transport := quiesce_attempt attempt in
  down ← shutdown_seen;
  if down : bool
  then let! _ := close_source_generation CloseGlobalShutdown in mret (Returned LoopBreak)
  else
    let! final_runtime := call w_runtime_observe in
    let! reflected := reflect_terminal_error transport final_runtime in
    match reflected with
    | inl c => mret (Returned c)
    | inr final_runtime =>
        if planned_rotation_due && is_clean_planned_cut final_runtime transport
        then planned_reset generation transport final_runtime
        else recover generation transport final_runtime
    end.

(** *** The loop *)

Definition coordinator_iteration (generation : Z) : Thread (outcome LoopControl) :=
  down ← shutdown_seen;
  if down : bool then mret (Returned LoopBreak) else
  let! created := create_attempt generation in
  match created with
  | None =>
      set_terminal RcInternalFailure (internal_error "attempt factory returned null") false ;;
      mret (Returned LoopReturn)
  | Some attempt =>
      down ← shutdown_seen;
      if down : bool then end_with_shutdown attempt else
      let! timing := generation_timing attempt in
      modify (λ s, s <| observation ::= λ o,
                     o <| ro_generation_started_monotonic_ns := fst <$> timing |> |>) ;;
      let! start_result := call (w_attempt_start attempt) in
      down ← shutdown_seen;
      if down : bool then end_with_shutdown attempt else
      let! watched := (if bool_decide (start_result = TsStarted)
                       then watch_generation generation attempt timing
                       else mret (Returned (inr false))) in
      match watched with
      | inl c => mret (Returned c)
      | inr planned_rotation_due => settle_generation generation attempt planned_rotation_due
      end
  end.

(** One iteration with the handlers of the loop: the generation of the next one. *)
Definition coordinator_step (generation : Z) : Thread (option Z) :=
  r ← coordinator_iteration generation;
  match r with
  | Returned (LoopNext next) => mret (Some next)
  | Returned _ => mret None
  | Threw =>
      message ← read (λ s, w_what (world s));
      close_source_after_exception ;;
      set_terminal RcInternalFailure (internal_error message) false ;;
      mret None
  end.

(** [coordinator_loop], for at most [fuel] iterations; [false] when they are not
    enough. *)
Fixpoint coordinator_loop (fuel : nat) (generation : Z) : Thread bool :=
  match fuel with
  | 0 => mret false
  | S fuel =>
      next ← coordinator_step generation;
      match next with
      | None => mret true
      | Some generation => coordinator_loop fuel generation
      end
  end.

(** *** The callers' operations *)

(** [start]: the first section, and the one after the runtime refused to start. *)
Definition start_begin s : Coordinator * option RecoveryStartResult :=
  if stopped s then (s, Some RtStopped)
  else if started s then (s, Some RtAlreadyStarted)
  else (set_state RyStarting (s <| started := true |>), None).

Definition start_failed s : Coordinator :=
  s <| observation ::= λ o,
    o <| ro_terminal := true |> <| ro_state := RyExhausted |>
      <| ro_terminal_error := Some (internal_error "MarketRuntime did not start for G5") |> |>.

Definition start : Thread RecoveryStartResult :=
  r ← atomically start_begin;
  match r with
  | Some r => mret r
  | None =>
      runtime ← call w_runtime_start;
      match runtime with
      | SrStarted => mret RtStarted
      | _ => modify start_failed ;; mret RtRuntimeStartFailed
      end
  end.

(** [stop]: the first section ([false] is an early return), the stop request, the
    call on the attempt seen, what follows the join. *)
Definition stop_begin s : Coordinator * bool :=
  if stopped s then (s, false)
  else
    let s := s <| shutdown_requested := true |> in
    if negb (started s)
    then (set_state RyStopped (s <| stopped := true |>), false)
    else (set_state RyStopping s <| observation ::= λ o, o <| ro_in_backoff := false |> |>, true).

Definition request_stop s : Coordinator := s <| token := true |>.

Definition stop_seen_attempt (attempt : Z) s : Coordinator :=
  s <| world := w_attempt_stop attempt (world s) |>.

(** [std::move(active_attempt_)]: the pointer left behind is null. *)
Definition take_attempt s : Coordinator * option Z :=
  (s <| active_attempt := None |>, active_attempt s).

Definition stop_commit s : Coordinator :=
  set_state RyStopped (s <| stopped := true |>)
    <| observation ::= λ o, o <| ro_in_backoff := false |> <| ro_active_transport_count := 0 |> |>.

Definition stop_joined : Thread (outcome ()) :=
  final ← atomically take_attempt;
  let! _ := match final with
            | None => mret (Returned ())
            | Some attempt =>
                modify (stop_seen_attempt attempt) ;;
                let! transport := call (w_attempt_observe attempt) in
                modify (persist_event transport) ;; mret (Returned ())
            end in
  modify (λ s, s <| world := w_runtime_stop (world s) |>) ;;
  modify stop_commit ;;
  mret (Returned ()).

(** The predicates of [wait_for_generation_live] and [wait_until_terminal]. *)
Definition generation_live (generation : Z) s : bool :=
  bool_decide (ro_state (observation s) = RyLive)
  && (generation <=? ro_connection_generation (observation s))%Z
  || ro_terminal (observation s) || stopped s.

Definition terminal_reached s : bool := ro_terminal (observation s) || stopped s.

(** [request_controlled_recovery_for_acceptance] *)
Definition request_controlled_recovery : Thread (outcome bool) :=
  refused ← read (λ s, negb (bool_decide (ro_state (observation s) = RyLive))
                       || stopped s || shutdown_requested s);
  if refused : bool then mret (Returned false) else
  let! admitted := call w_submit_transport_failure in
  mret (Returned (bool_decide (admitted = ArAccepted))).

(** [quiesce_for_acceptance]: the first section, which keeps the attempt, and what
    follows the join. *)
Definition quiesce_begin s : Coordinator * option (option Z) :=
  if negb (started s) || stopped s || ro_terminal (observation s)
     || negb (bool_decide (ro_state (observation s) = RyLive)) || shutdown_requested s
  then (s, None)
  else (set_state RyStopping (s <| shutdown_requested := true |>)
          <| observation ::= λ o, o <| ro_in_backoff := false |> |>,
        Some (active_attempt s)).

Definition no_active_transport s : Coordinator :=
  s <| observation ::= λ o, o <| ro_active_transport_count := 0 |> |>.

Definition quiesce_joined (retained : option Z) : Thread (outcome (option QuiescentAcceptanceCut)) :=
  final ← atomically take_attempt;
  if bool_decide (is_Some final) && negb (bool_decide (final = retained)) then
    match final with
    | None => mret (Returned None)
    | Some attempt =>
        modify (stop_seen_attempt attempt) ;;
        let! transport := call (w_attempt_observe attempt) in
        modify (persist_event transport) ;;
        modify no_active_transport ;;
        mret (Returned None)
    end
  else
    match retained with
    | None => mret (Returned None)
    | Some attempt =>
        let! transport := call (w_attempt_observe attempt) in
        modify (persist_event transport) ;;
        modify (retire_attempt transport) ;;
        let! runtime := call w_runtime_observe in
        mret (Returned (Some (MkQuiescentAcceptanceCut transport runtime)))
    end.
End Coordination.
End Coordination.
