(* ===== verification/RecoveryProtocol.v ===== *)
(** * RecoveryProtocol: what the coordinator does to its collaborators

    [Traced X] is a world that records the calls that matter; [monitor] is the
    protocol those calls must follow: one transport at a time, a source generation
    opened, quiesced and closed in this order, a reset of the projection only after
    the transport has stopped and its source is closed, and generations that count
    the resets.  [recovery_step] interleaves the coordinator's thread with the
    callers of [stop] and [quiesce_for_acceptance] and with any activity of the
    collaborators; [recovery_inv] is kept by every step. *)

From S2P Require Import Prelude Ring Wire Text Session OrderBookPublication.
From S2P Require Import Programs Projection MarketRuntime Recovery.
Import Coordination.

Open Scope gateway_scope.

(** ** Traces *)

Inductive WorldCall : Type :=
| CallCreate (generation : Z) (attempt : option Z)
| CallStart (attempt : Z)
| CallStop (attempt : Z)
| CallOpen (generation : Z) (ok : bool)
| CallQuiesce (generation : Z) (ok : bool)
| CallClose (generation : Z) (o : SourceGenerationCloseOutcome) (ok : bool)
| CallReset (ok : bool).

(** The trace is kept newest call first. *)
Record Traced (X : Type) : Type := MkTraced {
  inner : X;
  trace : list WorldCall
}.
Arguments MkTraced {X} _ _.
Arguments inner {X} _.
Arguments trace {X} _.

Definition succeeded (r : outcome bool) : bool :=
  match r with Returned b => b | Threw => false end.

Section Traced.
Context `{L : ProjectionLibrary} {X : Type} `{RW : !RecoveryWorld X}.

(** A call that is not recorded, and one that is. *)
Definition silent {A} (f : X → X * A) (t : Traced X) : Traced X * A :=
  (MkTraced (fst (f (inner t))) (trace t), snd (f (inner t))).

Definition logged {A} (event : A → WorldCall) (f : X → X * A) (t : Traced X) : Traced X * A :=
  (MkTraced (fst (f (inner t))) (event (snd (f (inner t))) :: trace t), snd (f (inner t))).

#[export] Instance traced_world : RecoveryWorld (Traced X) := {
  w_clock := silent w_clock;
  w_runtime_start := silent w_runtime_start;
  w_runtime_stop := λ t, MkTraced (w_runtime_stop (inner t)) (trace t);
  w_runtime_observe := silent w_runtime_observe;
  w_wait_until_live_or_recovery_required := silent w_wait_until_live_or_recovery_required;
  w_wait_until_recovery_required := silent w_wait_until_recovery_required;
  w_wait_until_recovery_required_for := λ d, silent (w_wait_until_recovery_required_for d);
  w_submit_transport_failure := silent w_submit_transport_failure;
  w_reset_for_rebootstrap :=
    logged (λ r, CallReset match r with Returned RrReset => true | _ => false end)
      w_reset_for_rebootstrap;
  w_reset_live_for_planned_rebootstrap :=
    logged (λ r, CallReset match r with Returned PrReset => true | _ => false end)
      w_reset_live_for_planned_rebootstrap;
  w_attempt_factory := λ g,
    logged (λ r, CallCreate g match r with Returned a => a | Threw => None end)
      (w_attempt_factory g);
  w_attempt_start := λ a, logged (λ _, CallStart a) (w_attempt_start a);
  w_attempt_stop := λ a t, MkTraced (w_attempt_stop a (inner t)) (CallStop a :: trace t);
  w_attempt_observe := λ a, silent (w_attempt_observe a);
  w_lifecycle_open := λ g, logged (λ r, CallOpen g (succeeded r)) (w_lifecycle_open g);
  w_lifecycle_quiesce := λ g, logged (λ r, CallQuiesce g (succeeded r)) (w_lifecycle_quiesce g);
  w_lifecycle_close := λ g o,
    logged (λ r, CallClose g o (succeeded r)) (w_lifecycle_close g o);
  w_wait_backoff := λ d t, MkTraced (w_wait_backoff d (inner t)) (trace t);
  w_copies := silent w_copies;
  w_what := λ t, w_what (inner t)
}.
End Traced.

(** ** The protocol *)

(** How far the generation of the next reset has come. *)
Inductive Phase : Type :=
| PhFresh
| PhCreated
| PhOpened.

#[export] Instance Phase_eq_dec : EqDecision Phase.
Proof. solve_decision. Defined.

(** The current transport and whether it was stopped, the open source generation and
    whether it was quiesced, the generation of the next attempt and its phase. *)
Record Protocol : Type := MkProtocol {
  p_transport : option (Z * bool);
  p_source : option (Z * bool);
  p_next : Z;
  p_phase : Phase
}.
#[export] Instance Protocol_eta : Eta Protocol :=
  λ r, MkProtocol (p_transport r) (p_source r) (p_next r) (p_phase r).

Definition quiet (p : Protocol) : bool :=
  match p_transport p with Some (_, stopped) => stopped | None => true end.

(** [None] is a violation. *)
Definition protocol_step (c : WorldCall) (p : Protocol) : option Protocol :=
  match c with
  | CallCreate g created =>
      if quiet p && bool_decide (p_source p = None) && (g =? p_next p)%Z
         && bool_decide (p_phase p = PhFresh)
      then Some (match created with
                 | Some a => p <| p_transport := Some (a, false) |> <| p_phase := PhCreated |>
                 | None => p
                 end)
      else None
  | CallStart a => if bool_decide (fst <$> p_transport p = Some a) then Some p else None
  | CallStop a =>
      Some (if bool_decide (fst <$> p_transport p = Some a)
            then p <| p_transport := Some (a, true) |> else p)
  | CallOpen g ok =>
      if bool_decide (p_source p = None) && (g =? p_next p)%Z
         && bool_decide (p_phase p = PhCreated)
      then Some (if ok : bool then p <| p_source := Some (g, false) |> <| p_phase := PhOpened |>
                 else p)
      else None
  | CallQuiesce g ok =>
      if bool_decide (p_source p = Some (g, false)) && quiet p
      then Some (if ok : bool then p <| p_source := Some (g, true) |> else p)
      else None
  | CallClose g _ ok =>
      if bool_decide (p_source p = Some (g, true))
      then Some (if ok : bool then p <| p_source := None |> else p)
      else None
  | CallReset ok =>
      if quiet p && bool_decide (p_source p = None)
      then Some (if ok : bool then p <| p_next ::= u64_succ |> <| p_phase := PhFresh |> else p)
      else None
  end.

Fixpoint monitor (calls : list WorldCall) : option Protocol :=
  match calls with
  | [] => Some (MkProtocol None None 1 PhFresh)
  | c :: older => monitor older ≫= protocol_step c
  end.

(** ** The concurrent system *)

Section Protocol.
Context `{L : ProjectionLibrary} {X : Type} `{RW : !RecoveryWorld X}.
Abbreviation State := (@Coordinator L (Traced X)).
Implicit Types (s : State).

(** What the other threads of the program may do to the collaborators. *)
Context (interferes : X → X → Prop).

(** The other threads: the callers of [stop], [quiesce_for_acceptance] and the
    observers, and what happens meanwhile in the collaborators.  A section under
    [mutex_] waits for the lock. *)
Inductive other_step : State → State → Prop :=
| other_stop s : locked s = false → other_step s (fst (stop_begin s))
| other_quiesce s : locked s = false → other_step s (fst (quiesce_begin s))
| other_request_stop s : shutdown_requested s = true → other_step s (request_stop s)
| other_stop_attempt a s : shutdown_requested s = true → other_step s (stop_seen_attempt a s)
| other_world x s :
    interferes (inner (world s)) x →
    other_step s (s <| world := MkTraced x (trace (world s)) |>).

Inductive CoordinatorThread : Type :=
| CoordinatorNone
| CoordinatorRunning (p : prog State (option Z))
| CoordinatorExited
| CoordinatorJoined (p : prog State ()).

Definition forget {A} (p : prog State A) : prog State () := _ ← p; mret ().

(** [start] is not concurrent with the other operations; the sections after the join
    follow the exit of the thread (or there is none). *)
Inductive recovery_step : State * CoordinatorThread → State * CoordinatorThread → Prop :=
| step_start s s' r :
    run start s = (s', r) →
    recovery_step (s, CoordinatorNone)
      (s', match r with RtStarted => CoordinatorRunning (coordinator_step 1)
           | _ => CoordinatorNone end)
| step_other s s' t : other_step s s' → recovery_step (s, t) (s', t)
| step_thread s f k :
    recovery_step (s, CoordinatorRunning (Step f k)) (f s, CoordinatorRunning (k s))
| step_next s g :
    recovery_step (s, CoordinatorRunning (Done (Some g)))
                  (s, CoordinatorRunning (coordinator_step g))
| step_exit s :
    recovery_step (s, CoordinatorRunning (Done None)) (s, CoordinatorExited)
| step_join_stop s t :
    t = CoordinatorExited ∨ t = CoordinatorNone → started s = true →
    shutdown_requested s = true →
    recovery_step (s, t) (s, CoordinatorJoined (forget stop_joined))
| step_join_quiesce s retained :
    started s = true → shutdown_requested s = true →
    recovery_step (s, CoordinatorExited) (s, CoordinatorJoined (forget (quiesce_joined retained)))
| step_joined s f k :
    recovery_step (s, CoordinatorJoined (Step f k)) (f s, CoordinatorJoined (k s))
| step_done s u :
    recovery_step (s, CoordinatorJoined (Done u)) (s, CoordinatorExited).

Definition recovery_start (w : State * CoordinatorThread) : Prop :=
  ∃ planned configured x,
    make true planned configured configured configured true (MkTraced x []) = Some (fst w) ∧
    snd w = CoordinatorNone.

(** ** The invariant *)

Definition source_of s : option (Z * bool) :=
  (λ g, (g, source_generation_quiesced s)) <$> source_generation_open s.

(** The recorded calls follow the protocol, and the fields agree with it. *)
Record follows (p : Protocol) s : Prop := {
  fo_monitor : monitor (trace (world s)) = Some p;
  fo_source : p_source p = source_of s;
  fo_closed : source_generation_open s = None → source_generation_quiesced s = false;
  fo_configured : lifecycle_configured s = false → source_generation_open s = None;
  fo_active : ∀ a, active_attempt s = Some a → fst <$> p_transport p = Some a
}.

(** The bounds on what the coordinator reports. *)
Record reports (o : RecoveryObservation) : Prop := {
  re_attempts : ro_consecutive_recovery_attempts o ≤ kMaximumRecoveryAttempts;
  re_transports : ro_active_transport_count o ≤ 1 ∧ ro_max_active_transport_count o ≤ 1;
  re_history : length (ro_failure_history o) = kRecoveryFailureHistoryCapacity ∧
               ro_failure_history_size o ≤ kRecoveryFailureHistoryCapacity;
  re_backoff : ro_in_backoff o = true → ro_state o = RyBackoff;
  re_delay : ro_state o = RyBackoff →
    ∃ d, normal_backoff_delay (ro_consecutive_recovery_attempts o) = Returned d ∧
         (d <= ro_last_requested_delay o)%Z;
  re_terminal : ro_terminal o = true →
    ro_state o = RyExhausted ∨ ro_state o = RyStopping ∨ ro_state o = RyStopped
}.

(** Once shutdown is requested the coordinator shows no activity. *)
Definition winding_down s : Prop :=
  ro_state (observation s) = RyExhausted ∨ ro_state (observation s) = RyStopping ∨
  ro_state (observation s) = RyStopped.

Record recovery_inv s : Prop := {
  ri_follows : ∃ p, follows p s;
  ri_reports : reports (observation s);
  ri_shutdown : shutdown_requested s = true → winding_down s;
  ri_token : token s = true → shutdown_requested s = true;
  ri_unstarted : started s = false →
    ro_in_backoff (observation s) = false ∧ ro_terminal (observation s) = false
}.

(** What the steps of the other threads leave alone while the thread runs. *)
Record rely s s' : Prop := {
  rl_stops : ∃ l, trace (world s') = l ++ trace (world s) ∧
                  Forall (λ c, ∃ a, c = CallStop a) l;
  rl_own : active_attempt s' = active_attempt s ∧
           source_generation_open s' = source_generation_open s ∧
           source_generation_quiesced s' = source_generation_quiesced s ∧
           lifecycle_configured s' = lifecycle_configured s ∧ locked s' = locked s ∧
           started s' = started s;
  rl_counts : ro_total_recovery_count (observation s') = ro_total_recovery_count (observation s) ∧
              ro_planned_rotation_count (observation s')
              = ro_planned_rotation_count (observation s) ∧
              ro_terminal (observation s') = ro_terminal (observation s) ∧
              ro_consecutive_recovery_attempts (observation s')
              = ro_consecutive_recovery_attempts (observation s);
  rl_state : ro_state (observation s') = ro_state (observation s) ∨
             ro_state (observation s') = RyStopping ∨ ro_state (observation s') = RyStopped;
  rl_locked : locked s = true → shutdown_requested s' = shutdown_requested s
}.

#[export] Instance rely_refl : Reflexive rely.
Proof. intros s. split; [by exists []|done|done|by left|done]. Qed.

#[export] Instance rely_trans : Transitive rely.
Proof.
  intros s1 s2 s3 [(l & Ht & Hl) Ho Hc Hs Hk] [(l' & Ht' & Hl') Ho' Hc' Hs' Hk'].
  destruct Ho as (? & ? & ? & ? & Hlock & ?), Ho' as (? & ? & ? & ? & ? & ?).
  split.
  - exists (l' ++ l). rewrite Ht', Ht, (assoc_L (++)). split; [done|by apply Forall_app].
  - split_all; congruence.
  - destruct Hc as (? & ? & ? & ?), Hc' as (? & ? & ? & ?). split_all; congruence.
  - destruct Hs' as [-> | [-> | ->]]; auto.
  - intros Hlk. rewrite Hk', Hk; congruence.
Qed.

(** [CallStop] can only stop the current transport. *)
Lemma monitor_stops l t p :
  monitor t = Some p → Forall (λ c, ∃ a, c = CallStop a) l →
  ∃ p', monitor (l ++ t) = Some p' ∧ p_source p' = p_source p ∧
        (p_next p' = p_next p ∧ p_phase p' = p_phase p) ∧
        fst <$> p_transport p' = fst <$> p_transport p ∧ (quiet p = true → quiet p' = true).
Proof.
  intros Hp Hl. induction Hl as [|c l (a & ->) Hl IH]; [by exists p|].
  destruct IH as (p1 & Hm & Hs & [Hn Hph] & Ht & Hq). cbn [app monitor]. rewrite Hm.
  cbn [mbind option_bind protocol_step]. eexists. split; [done|].
  case_bool_decide as Ha; [|by split_all].
  split_all; [done|done|done| |done]. by rewrite <- Ht, Ha.
Qed.

Lemma follows_rely p s s' :
  follows p s → rely s s' →
  ∃ p', follows p' s' ∧ (p_next p' = p_next p ∧ p_phase p' = p_phase p) ∧
        (quiet p = true → quiet p' = true).
Proof.
  intros [Hm Hs Hcl Hcf Ha] Hr. destruct (rl_own _ _ Hr) as (Hact & Hop & Hqu & Hlc & _).
  destruct (rl_stops _ _ Hr) as (l & Ht & Hl).
  destruct (monitor_stops l _ p Hm Hl) as (p' & Hm' & Hs' & Hn & Htr & Hq).
  exists p'. split; [|by split]. split.
  - by rewrite Ht.
  - rewrite Hs', Hs. unfold source_of. by rewrite Hop, Hqu.
  - by rewrite Hop, Hqu.
  - by rewrite Hlc, Hop.
  - intros a. rewrite Hact, Htr. apply Ha.
Qed.

(** ** The other threads keep the invariant *)

(** A section that touches neither the calls nor what the protocol fixes. *)
Lemma follows_frame p s s' :
  follows p s →
  trace (world s') = trace (world s) → active_attempt s' = active_attempt s →
  source_generation_open s' = source_generation_open s →
  source_generation_quiesced s' = source_generation_quiesced s →
  lifecycle_configured s' = lifecycle_configured s → follows p s'.
Proof.
  intros [Hm Hs Hcl Hcf Ha] Ht Hact Hop Hqu Hlc. split.
  - by rewrite Ht.
  - unfold source_of. by rewrite Hop, Hqu.
  - by rewrite Hop, Hqu.
  - by rewrite Hlc, Hop.
  - by rewrite Hact.
Qed.

(** [stop] and [quiesce_for_acceptance] request the shutdown this way. *)
Definition stopping s : State :=
  set_state RyStopping (s <| shutdown_requested := true |>)
    <| observation ::= λ o, o <| ro_in_backoff := false |> |>.

Lemma reports_stopping (o : RecoveryObservation) st :
  reports o → st = RyStopping ∨ st = RyStopped →
  reports (o <| ro_state := st |> <| ro_in_backoff := false |>).
Proof.
  intros [Ha Ht Hh Hb Hd Hte] Hst. split; [done..|done| |].
  - simpl. intros ->. by destruct Hst.
  - simpl. intros _. by destruct Hst as [-> | ->]; auto.
Qed.

Lemma stopping_inv s : recovery_inv s → recovery_inv (stopping s).
Proof.
  intros [(p & Hf) Hr Hs Ht Hu]. split.
  - exists p. by eapply follows_frame.
  - apply reports_stopping; [done|by left].
  - intros _. right. by left.
  - done.
  - intros Hst. by destruct (Hu Hst).
Qed.

Lemma stopping_rely s : locked s = false → rely s (stopping s).
Proof.
  intros Hl. split; [by exists []|done|done|by right; left|]. intros Hc. congruence.
Qed.

Lemma stop_unstarted_inv s :
  recovery_inv s → started s = false →
  recovery_inv (set_state RyStopped (s <| shutdown_requested := true |> <| stopped := true |>)).
Proof.
  intros [(p & Hf) [Ha Htr Hh Hb Hd Hte] Hs Ht Hu] Hst. destruct (Hu Hst) as [Hub Hut]. split.
  - exists p. by eapply follows_frame.
  - split; [done..| | |]; simpl.
    + congruence.
    + done.
    + auto.
  - intros _. right. by right.
  - done.
  - done.
Qed.

Lemma stop_begin_eq s :
  stop_begin s =
    if stopped s then (s, false)
    else if negb (started s)
    then (set_state RyStopped (s <| shutdown_requested := true |> <| stopped := true |>), false)
    else (stopping s, true).
Proof. done. Qed.

Lemma quiesce_begin_eq s :
  fst (quiesce_begin s) = s ∨ fst (quiesce_begin s) = stopping s.
Proof. unfold quiesce_begin. destruct (_ || _); auto. Qed.

Lemma world_inv x s : recovery_inv s → recovery_inv (s <| world := MkTraced x (trace (world s)) |>).
Proof. intros [(p & Hf) Hr Hs Ht Hu]. split; [|done..]. exists p. by eapply follows_frame. Qed.

Lemma world_rely x s : rely s (s <| world := MkTraced x (trace (world s)) |>).
Proof. by split; [exists []| | |left|]. Qed.

Lemma other_step_inv s s' : other_step s s' → recovery_inv s → recovery_inv s'.
Proof.
  intros Hstep Hi. pose proof Hi as [(p & Hf) Hr Hs Ht Hu]. destruct Hstep as [s Hl|s Hl|s Hsd|a s Hsd|x s Hx].
  - rewrite stop_begin_eq. destruct (stopped s); [done|].
    destruct (negb (started s)) eqn:Hst; cbn [fst].
    + apply negb_true_iff in Hst. exact (stop_unstarted_inv s Hi Hst).
    + exact (stopping_inv s Hi).
  - destruct (quiesce_begin_eq s) as [-> | ->]; [done|]. exact (stopping_inv s Hi).
  - split; [|done..]. exists p. by eapply follows_frame.
  - pose proof Hf as [Hm Hso Hcl Hcf Ha].
    destruct (monitor_stops [CallStop a] _ p Hm) as (p' & Hm' & Hs' & Hn & Htr & _).
    { constructor; [by eexists|done]. }
    split; [|done..]. exists p'. split; [done|by rewrite Hs'|done|done|].
    intros b Hb. rewrite Htr. by apply Ha.
  - by apply world_inv.
Qed.

Lemma other_step_rely s s' : other_step s s' → rely s s'.
Proof.
  intros Hstep. destruct Hstep as [s Hl|s Hl|s Hsd|a s Hsd|x s Hx].
  - rewrite stop_begin_eq. destruct (stopped s); [done|].
    destruct (negb _); [|by apply stopping_rely].
    split; [by exists []|done|done|by right; right|]. intros Hc. congruence.
  - destruct (quiesce_begin_eq s) as [-> | ->]; [done|]. by apply stopping_rely.
  - by split; [exists []| | |left|].
  - split; [|done|done|by left|done]. exists [CallStop a]. split; [done|].
    constructor; [by eexists|done].
  - apply world_rely.
Qed.

(** ** What the thread knows between two sections *)

Record Knowledge : Type := MkKnowledge {
  k_active : option Z;      (** the attempt it has published *)
  k_closed : bool;          (** no source generation is open *)
  k_quiet : bool;           (** the current transport was stopped *)
  k_next : Z;               (** the generation of the next attempt *)
  k_count : Z;              (** one more than the resets it has counted *)
  k_locked : bool;          (** it owns [mutex_] *)
  k_running : bool;         (** and has seen under it that no shutdown was requested *)
  k_backoff : bool;         (** a backoff is committed *)
  k_attempts : option nat;  (** the number of consecutive recovery attempts *)
  k_phase : option Phase    (** the phase of the generation *)
}.
#[export] Instance Knowledge_eta : Eta Knowledge :=
  λ r, MkKnowledge (k_active r) (k_closed r) (k_quiet r) (k_next r) (k_count r) (k_locked r)
    (k_running r) (k_backoff r) (k_attempts r) (k_phase r).
Implicit Types (k : Knowledge).

(** One more than the resets counted by the observation. *)
Definition counted s : Z :=
  u64_wrap (1 + ro_total_recovery_count (observation s)
            + ro_planned_rotation_count (observation s)).

Record holds k s : Prop := {
  ho_started : started s = true;
  ho_terminal : ro_terminal (observation s) = false;
  ho_active : active_attempt s = k_active k;
  ho_closed : k_closed k = true → source_generation_open s = None;
  ho_quiet : ∀ p, follows p s → (k_quiet k = true → quiet p = true) ∧ p_next p = k_next k ∧
                                ∀ ph, k_phase k = Some ph → p_phase p = ph;
  ho_count : counted s = k_count k;
  ho_locked : locked s = k_locked k;
  ho_running : k_running k = true → k_locked k = true ∧ shutdown_requested s = false;
  ho_backoff : k_backoff k = false → ro_state (observation s) ≠ RyBackoff;
  ho_attempts : ∀ n, k_attempts k = Some n →
                ro_consecutive_recovery_attempts (observation s) = n
}.

Lemma follows_unique p p' s : follows p s → follows p' s → p' = p.
Proof. intros [Hm _ _ _ _] [Hm' _ _ _ _]. congruence. Qed.

Lemma holds_rely k s s' : recovery_inv s → holds k s → rely s s' → holds k s'.
Proof.
  intros [(p & Hf) _ _ _ _] [Hst Hte Hac Hcl Hqu Hco Hlo Hru Hba Hat] Hr.
  destruct (rl_own _ _ Hr) as (Hact & Hop & Hq & Hlc & Hlk & Hstd).
  destruct (rl_counts _ _ Hr) as (Ht & Hp & Hter & Hcons).
  destruct (follows_rely _ _ _ Hf Hr) as (p1 & Hf1 & Hn & Hq1).
  split; try congruence.
  - rewrite Hop. done.
  - intros p' Hf'. rewrite (follows_unique _ _ _ Hf1 Hf'). destruct (Hqu p Hf) as (? & ? & Hph).
    destruct Hn as [Hn ->]. split_all; [auto|congruence|exact Hph].
  - unfold counted. by rewrite Ht, Hp.
  - intros Hk. destruct (Hru Hk) as [Hk1 Hk2]. split; [done|].
    rewrite (rl_locked _ _ Hr); congruence.
  - intros Hk. destruct (rl_state _ _ Hr) as [-> | [-> | ->]]; [by apply Hba|done..].
  - intros n Hk. rewrite Hcons. by apply Hat.
Qed.

(** After an exception: some knowledge, with the lock in state [lk]. *)
Definition troubled (lk : bool) s : Prop := ∃ k, k_locked k = lk ∧ holds k s.

Lemma holds_troubled k s : holds k s → troubled (k_locked k) s.
Proof. intros Hh. by exists k. Qed.

(** ** Triples *)

Abbreviation stable := (Programs.stable recovery_inv rely).
Abbreviation triple := (Programs.triple recovery_inv rely).

Lemma stable_holds k : stable (holds k).
Proof. intros s s' Hi _ Hh Hr. by eapply holds_rely. Qed.

Lemma stable_troubled lk : stable (troubled lk).
Proof. intros s s' Hi Hi' (k & Hk & Hh) Hr. exists k. split; [done|]. exact (holds_rely k s s' Hi Hh Hr). Qed.

#[local] Hint Resolve stable_holds stable_troubled : gateway.

Lemma triple_troubled {A} lk (p : prog State A) Q :
  (∀ k, k_locked k = lk → triple (holds k) p Q) → triple (troubled lk) p Q.
Proof. intros H s Hi (k & Hk & Hh). exact (H k Hk s Hi Hh). Qed.

(** ** Sections of the thread *)

Lemma triple_silent {A} P (f : X → X * A) :
  stable P → triple P (call (silent f)) (λ _, P).
Proof.
  intros HP. apply triple_atomically; [done|]. intros s Hi Hs. cbn [fst snd].
  assert (Hi' := world_inv (fst (f (inner (world s)))) _ Hi). split; [exact Hi'|].
  assert (Hr : rely s (s <| world := MkTraced (fst (f (inner (world s)))) (trace (world s)) |>))
    by (split; [by exists []|done|done|by left|done]).
  exact (HP _ _ Hi Hi' Hs Hr).
Qed.

Lemma triple_silent_either {A} k (f : X → X * outcome A) :
  triple (holds k) (call (silent f)) (either (λ _, holds k) (troubled (k_locked k))).
Proof.
  eapply triple_conseq; [apply (triple_silent (holds k)); auto with gateway|done|].
  intros [a|] s _ Hs; [done|by apply holds_troubled].
Qed.

(** The observation changes; [same_status] is what most sections leave alone. *)
Definition same_status (o o' : RecoveryObservation) : Prop :=
  ro_state o' = ro_state o ∧ ro_terminal o' = ro_terminal o ∧
  ro_total_recovery_count o' = ro_total_recovery_count o ∧
  ro_planned_rotation_count o' = ro_planned_rotation_count o ∧
  ro_consecutive_recovery_attempts o' = ro_consecutive_recovery_attempts o ∧
  ro_in_backoff o' = ro_in_backoff o ∧ ro_last_requested_delay o' = ro_last_requested_delay o.

Definition within_bounds (o : RecoveryObservation) : Prop :=
  (ro_active_transport_count o ≤ 1 ∧ ro_max_active_transport_count o ≤ 1) ∧
  (length (ro_failure_history o) = kRecoveryFailureHistoryCapacity ∧
   ro_failure_history_size o ≤ kRecoveryFailureHistoryCapacity).

Lemma reports_same o o' : reports o → same_status o o' → within_bounds o' → reports o'.
Proof.
  intros [Ha Ht Hh Hb Hd Hte] (H1 & H2 & H3 & H4 & H5 & H6 & H7) [Ht' Hh'].
  split; rewrite ?H1, ?H2, ?H5, ?H6, ?H7; done.
Qed.

Lemma inv_observation (f : RecoveryObservation → RecoveryObservation) s :
  recovery_inv s → started s = true → reports (f (observation s)) →
  (shutdown_requested s = true → winding_down (s <| observation ::= f |>)) →
  recovery_inv (s <| observation ::= f |>).
Proof.
  intros [(p & Hf) Hr Hs Ht Hu] Hst Hr' Hw. split; [|done|done|done|].
  - exists p. by eapply follows_frame.
  - intros Hf'. simpl in Hf'. congruence.
Qed.

Lemma inv_same (f : RecoveryObservation → RecoveryObservation) s :
  recovery_inv s → started s = true → same_status (observation s) (f (observation s)) →
  within_bounds (f (observation s)) → recovery_inv (s <| observation ::= f |>).
Proof.
  intros Hi Hst Hsame Hw. pose proof Hi as [_ Hr Hs _ _].
  apply inv_observation; [done|done|by eapply reports_same|].
  intros Hsd. destruct Hsame as (H1 & _). unfold winding_down. simpl. rewrite H1. by apply Hs.
Qed.

(** [holds] after an update of the observation. *)
Lemma follows_observation p f s : follows p (s <| observation ::= f |>) → follows p s.
Proof. intros [Hm Hs Hcl Hcf Ha]. by split. Qed.

Lemma holds_observation k count bk att (f : RecoveryObservation → RecoveryObservation) s :
  holds k s → ro_terminal (f (observation s)) = false →
  counted (s <| observation ::= f |>) = count →
  (bk = false → ro_state (f (observation s)) ≠ RyBackoff) →
  (∀ n, att = Some n → ro_consecutive_recovery_attempts (f (observation s)) = n) →
  holds (k <| k_count := count |> <| k_backoff := bk |> <| k_attempts := att |>)
        (s <| observation ::= f |>).
Proof.
  intros [Hst Hte Hac Hcl Hqu Hco Hlo Hru Hba Hat] Ht Hc Hb Hn. split; try done.
  intros p Hf. apply follows_observation in Hf. exact (Hqu p Hf).
Qed.

Lemma holds_same k (f : RecoveryObservation → RecoveryObservation) s :
  holds k s → same_status (observation s) (f (observation s)) →
  holds k (s <| observation ::= f |>).
Proof.
  intros Hh (H1 & H2 & H3 & H4 & H5 & _). pose proof Hh as [Hst Hte Hac Hcl Hqu Hco Hlo Hru Hba Hat].
  split; try done.
  - simpl. by rewrite H2.
  - intros p Hf. apply follows_observation in Hf. exact (Hqu p Hf).
  - unfold counted. simpl. rewrite H3, H4. exact Hco.
  - simpl. by rewrite H1.
  - simpl. by rewrite H5.
Qed.

Lemma triple_same k (f : RecoveryObservation → RecoveryObservation) :
  (∀ o, same_status o (f o)) → (∀ o, within_bounds o → within_bounds (f o)) →
  triple (holds k) (modify (λ s, s <| observation ::= f |>)) (λ _, holds k).
Proof.
  intros Hsame Hb. apply triple_modify; [auto with gateway|]. intros s Hi Hh. split.
  - apply inv_same; [done|by destruct Hh|done|]. apply Hb. by destruct Hi as [_ [] _ _ _].
  - by apply holds_same.
Qed.


(** *** Recorded calls *)

Definition with_call (c : WorldCall) (x : X) s : State :=
  s <| world := MkTraced x (c :: trace (world s)) |>.

Lemma with_call_follows c x p p' s :
  follows p s → protocol_step c p = Some p' → p_source p' = p_source p →
  (∀ a, active_attempt s = Some a → fst <$> p_transport p' = Some a) →
  follows p' (with_call c x s).
Proof.
  intros [Hm Hs Hcl Hcf Ha] Hstep Hsrc Hact. split; [|by rewrite Hsrc|done..].
  cbn [with_call world trace monitor]. change (monitor (c :: trace (world s)) = Some p').
  cbn [monitor]. by rewrite Hm.
Qed.

Lemma with_call_inv c x p p' s :
  recovery_inv s → follows p s → protocol_step c p = Some p' → p_source p' = p_source p →
  (∀ a, active_attempt s = Some a → fst <$> p_transport p' = Some a) →
  recovery_inv (with_call c x s).
Proof.
  intros [_ Hr Hs Ht Hu] Hf Hstep Hsrc Hact. split; [|done..].
  exists p'. by eapply with_call_follows.
Qed.

(** [holds] in a state whose observation and thread are those of [s]. *)
Lemma holds_follows k q n ph p' s s' :
  holds k s → follows p' s' → (q = true → quiet p' = true) →
  p_next p' = n ∧ (∀ x, ph = Some x → p_phase p' = x) →
  started s' = started s → observation s' = observation s →
  active_attempt s' = active_attempt s → (k_closed k = true → source_generation_open s' = None) →
  locked s' = locked s → shutdown_requested s' = shutdown_requested s →
  holds (k <| k_quiet := q |> <| k_next := n |> <| k_phase := ph |>) s'.
Proof.
  intros [Hst Hte Hac Hcl Hqu Hco Hlo Hru Hba Hat] Hf Hq Hn E1 E2 E3 E4 E5 E6.
  split; simpl; rewrite ?E1, ?E2, ?E3, ?E5, ?E6; try done.
  - intros p Hp. rewrite (follows_unique _ _ _ Hf Hp). by split.
  - unfold counted. rewrite E2. exact Hco.
Qed.

(** The current transport. *)
Definition current (a : Z) s : Prop := ∀ p, follows p s → fst <$> p_transport p = Some a.

Lemma stable_current a : stable (current a).
Proof.
  intros s s' [(p & Hf) _ _ _ _] _ Hc Hr p' Hf'.
  destruct (rl_stops _ _ Hr) as (l & Ht & Hl).
  destruct (monitor_stops l _ p (fo_monitor _ _ Hf) Hl) as (p1 & Hm & _ & _ & Htr & _).
  assert (p' = p1) as ->.
  { destruct Hf' as [Hm' _ _ _ _]. rewrite Ht in Hm'. congruence. }
  rewrite Htr. by apply Hc.
Qed.
#[local] Hint Resolve stable_current stable_and : gateway.

Definition idle k : Prop :=
  k_active k = None ∧ k_closed k = true ∧ k_quiet k = true ∧ k_phase k = Some PhFresh.

Lemma closed_source k p s :
  holds k s → follows p s → k_closed k = true → p_source p = None.
Proof.
  intros Hh Hf Hc. rewrite (fo_source _ _ Hf). unfold source_of. by rewrite (ho_closed _ _ Hh Hc).
Qed.

(** A recorded call that leaves the source generation alone. *)
Lemma recorded c x p p' k q n ph s :
  recovery_inv s → holds k s → follows p s → protocol_step c p = Some p' →
  p_source p' = p_source p → (∀ a, k_active k = Some a → fst <$> p_transport p' = Some a) →
  (q = true → quiet p' = true) → p_next p' = n ∧ (∀ x, ph = Some x → p_phase p' = x) →
  recovery_inv (with_call c x s) ∧ follows p' (with_call c x s) ∧
  holds (k <| k_quiet := q |> <| k_next := n |> <| k_phase := ph |>) (with_call c x s).
Proof.
  intros Hi Hh Hf Hstep Hsrc Hact Hq Hn.
  assert (Hact' : ∀ a, active_attempt s = Some a → fst <$> p_transport p' = Some a)
    by (intros a; rewrite (ho_active _ _ Hh); apply Hact).
  pose proof (with_call_inv _ x _ _ _ Hi Hf Hstep Hsrc Hact') as Hi'.
  pose proof (with_call_follows _ x _ _ _ Hf Hstep Hsrc Hact') as Hf'.
  split; [exact Hi'|]. split; [exact Hf'|].
  apply (holds_follows k q n ph _ _ _ Hh Hf'); try done. apply (ho_closed _ _ Hh).
Qed.

Lemma knowledge_eta k q n ph :
  q = k_quiet k → n = k_next k → ph = k_phase k →
  k <| k_quiet := q |> <| k_next := n |> <| k_phase := ph |> = k.
Proof. intros -> -> ->. by destruct k. Qed.

(** [attempt_factory_] *)
Lemma triple_factory k :
  idle k →
  triple (holds k) (call (w_attempt_factory (k_next k)))
    (either (λ r s, match r with
                    | Some a => holds (k <| k_quiet := false |> <| k_phase := Some PhCreated |>) s ∧
                                current a s
                    | None => holds k s
                    end) (troubled (k_locked k))).
Proof.
  intros (Hka & Hkc & Hkq & Hkp). apply triple_atomically; [auto with gateway|].
  intros s Hi Hh. pose proof Hi as [(p & Hf) _ _ _ _].
  destruct (ho_quiet _ _ Hh p Hf) as (Hq & Hn & Hph). specialize (Hq Hkq).
  cbn [w_attempt_factory traced_world]. unfold logged. cbn [fst snd].
  destruct (w_attempt_factory (k_next k) (inner (world s))) as [x r]. cbn [fst snd].
  assert (Hstep : ∀ created, protocol_step (CallCreate (k_next k) created) p
                  = Some (match created with
                          | Some a => p <| p_transport := Some (a, false) |> <| p_phase := PhCreated |>
                          | None => p end)).
  { intros created. cbn [protocol_step].
    by rewrite Hq, (closed_source _ _ _ Hh Hf Hkc), Hn, Z.eqb_refl, (Hph _ Hkp). }
  destruct r as [[a|]|].
  - destruct (recorded _ x _ _ k false (k_next k) (Some PhCreated) _ Hi Hh Hf (Hstep (Some a))) as (? & Hf' & Hh');
      [done|by rewrite Hka|done|by split; [|intros ? [= <-]]|].
    split; [done|]. split; [by destruct k|].
    intros p' Hp'. by rewrite (follows_unique _ _ _ Hf' Hp').
  - destruct (recorded _ x _ _ k true (k_next k) (k_phase k) _ Hi Hh Hf (Hstep None)) as (? & _ & Hh');
      [done|by rewrite Hka|done|done|].
    rewrite knowledge_eta in Hh' by done. by split.
  - destruct (recorded _ x _ _ k true (k_next k) (k_phase k) _ Hi Hh Hf (Hstep None)) as (? & _ & Hh');
      [done|by rewrite Hka|done|done|]. split; [done|]. by apply holds_troubled in Hh'.
Qed.

(** Stopping the published attempt, and starting it. *)
Lemma active_current k p a s :
  holds k s → follows p s → k_active k = Some a → fst <$> p_transport p = Some a.
Proof. intros Hh Hf Ha. apply (fo_active _ _ Hf). by rewrite (ho_active _ _ Hh). Qed.

Lemma triple_stop k a :
  k_active k = Some a →
  triple (holds k) (call (λ x : Traced X, (w_attempt_stop a x, ())))
    (λ _, holds (k <| k_quiet := true |>)).
Proof.
  intros Hka. apply triple_atomically; [auto with gateway|].
  intros s Hi Hh. pose proof Hi as [(p & Hf) _ _ _ _].
  assert (Hstep : protocol_step (CallStop a) p = Some (p <| p_transport := Some (a, true) |>)).
  { cbn [protocol_step]. by rewrite bool_decide_eq_true_2 by (by eapply active_current). }
  destruct (recorded _ (w_attempt_stop a (inner (world s))) _ _ k true (k_next k) (k_phase k) _ Hi Hh Hf Hstep)
    as (? & _ & Hh'); [done|by rewrite Hka|done|by apply (ho_quiet _ _ Hh p Hf)|].
  split; [done|]. by destruct k.
Qed.

Lemma triple_start k a lk :
  lk = k_locked k →
  k_active k = Some a →
  triple (holds k) (call (w_attempt_start a)) (either (λ _, holds k) (troubled lk)).
Proof.
  intros -> Hka. apply triple_atomically; [auto with gateway|].
  intros s Hi Hh. pose proof Hi as [(p & Hf) _ _ _ _].
  cbn [w_attempt_start traced_world]. unfold logged. cbn [fst snd].
  destruct (w_attempt_start a (inner (world s))) as [x r]. cbn [fst snd].
  assert (Hstep : protocol_step (CallStart a) p = Some p).
  { cbn [protocol_step]. by rewrite bool_decide_eq_true_2 by (by eapply active_current). }
  destruct (ho_quiet _ _ Hh p Hf) as (Hq & Hn & Hph).
  destruct (recorded _ x _ _ k (k_quiet k) (k_next k) (k_phase k) _ Hi Hh Hf Hstep) as (? & _ & Hh');
    [done|intros b; rewrite Hka; intros [= <-]; by eapply active_current|done|done|].
  rewrite knowledge_eta in Hh' by done. split; [done|].
  destruct r; [exact Hh'|by apply holds_troubled in Hh'].
Qed.

(** The two resets of the projection. *)
Lemma recorded_reset ok x k s :
  recovery_inv s → holds k s → k_quiet k = true → k_closed k = true →
  recovery_inv (with_call (CallReset ok) x s) ∧
  holds (k <| k_next := if ok : bool then u64_succ (k_next k) else k_next k |>
           <| k_phase := if ok then Some PhFresh else k_phase k |>)
        (with_call (CallReset ok) x s).
Proof.
  intros Hi Hh Hkq Hkc. pose proof Hi as [(p & Hf) _ _ _ _].
  destruct (ho_quiet _ _ Hh p Hf) as (Hq & Hn & Hph). specialize (Hq Hkq).
  assert (Hstep : protocol_step (CallReset ok) p
                  = Some (if ok then p <| p_next ::= u64_succ |> <| p_phase := PhFresh |> else p)).
  { cbn [protocol_step]. by rewrite Hq, (closed_source _ _ _ Hh Hf Hkc). }
  destruct (recorded _ x _ _ k (k_quiet k) (if ok then u64_succ (k_next k) else k_next k)
              (if ok then Some PhFresh else k_phase k) _ Hi Hh Hf Hstep) as (? & _ & Hh');
    [by destruct ok|intros b Hb; destruct ok; exact (active_current _ _ _ _ Hh Hf Hb)
    |by destruct ok|destruct ok; simpl; (split; [congruence|]); [by intros ? [= <-]|exact Hph]|].
  split; [done|]. by destruct k.
Qed.

Lemma triple_reset k lk :
  lk = k_locked k →
  k_quiet k = true → k_closed k = true →
  triple (holds k) (call w_reset_for_rebootstrap)
    (either (λ r, holds (k <| k_next := if bool_decide (r = RrReset) then u64_succ (k_next k)
                                        else k_next k |>
                            <| k_phase := if bool_decide (r = RrReset) then Some PhFresh
                                          else k_phase k |>)) (troubled lk)).
Proof.
  intros -> Hkq Hkc. apply triple_atomically; [auto with gateway|]. intros s Hi Hh.
  cbn [w_reset_for_rebootstrap traced_world]. unfold logged. cbn [fst snd].
  destruct (w_reset_for_rebootstrap (inner (world s))) as [x r]. cbn [fst snd].
  destruct (recorded_reset match r with Returned RrReset => true | _ => false end x k s)
    as [Hi' Hh']; [done..|].
  split; [exact Hi'|]. destruct r as [[]|]; first [exact Hh'|exact (holds_troubled _ _ Hh')].
Qed.

Lemma triple_rotate k lk :
  lk = k_locked k →
  k_quiet k = true → k_closed k = true →
  triple (holds k) (call w_reset_live_for_planned_rebootstrap)
    (either (λ r, holds (k <| k_next := if bool_decide (r = PrReset) then u64_succ (k_next k)
                                        else k_next k |>
                            <| k_phase := if bool_decide (r = PrReset) then Some PhFresh
                                          else k_phase k |>)) (troubled lk)).
Proof.
  intros -> Hkq Hkc. apply triple_atomically; [auto with gateway|]. intros s Hi Hh.
  cbn [w_reset_live_for_planned_rebootstrap traced_world]. unfold logged. cbn [fst snd].
  destruct (w_reset_live_for_planned_rebootstrap (inner (world s))) as [x r]. cbn [fst snd].
  destruct (recorded_reset match r with Returned PrReset => true | _ => false end x k s)
    as [Hi' Hh']; [done..|].
  split; [exact Hi'|]. destruct r as [[]|]; first [exact Hh'|exact (holds_troubled _ _ Hh')].
Qed.

(** *** The source generation *)

Lemma holds_open k s : holds k s → holds (k <| k_closed := false |> <| k_phase := None |>) s.
Proof.
  intros [? ? ? ? Hq]. split; try done. intros p Hp. destruct (Hq p Hp) as (? & ? & _). by split_all.
Qed.

Lemma holds_no_source k s :
  holds k s → source_generation_open s = None → holds (k <| k_closed := true |>) s.
Proof. intros [] ?. by split. Qed.

Definition has_source (o : option (Z * bool)) s : Prop := source_of s = o.

Lemma stable_source o : stable (has_source o).
Proof.
  intros s s' _ _ Hs Hr. destruct (rl_own _ _ Hr) as (_ & Hop & Hq & _).
  unfold has_source, source_of in *. by rewrite Hop, Hq.
Qed.
#[local] Hint Resolve stable_source : gateway.

(** A lifecycle callback that moves the fields to [o] and [qd]. *)
Lemma sourced c x p p' k o qd cl ph s :
  recovery_inv s → holds k s → follows p s → protocol_step c p = Some p' →
  p_transport p' = p_transport p → p_next p' = p_next p →
  (∀ y, ph = Some y → p_phase p' = y) →
  p_source p' = (λ g, (g, qd)) <$> o → (o = None → qd = false) →
  (lifecycle_configured s = false → o = None) → (cl = true → o = None) →
  let s' := with_call c x s <| source_generation_open := o |>
                            <| source_generation_quiesced := qd |> in
  recovery_inv s' ∧ holds (k <| k_closed := cl |> <| k_phase := ph |>) s'.
Proof.
  intros Hi Hh Hf Hstep Htr Hn Hphase Hsrc Hcl Hcf Hk s'.
  pose proof Hi as [_ Hr Hs Ht Hu]. pose proof Hf as [Hm Hso Hc1 Hc2 Ha].
  assert (Hf' : follows p' s').
  { split; [|done|done|done|].
    - change (monitor (c :: trace (world s)) = Some p'). cbn [monitor]. by rewrite Hm.
    - intros a Hact. rewrite Htr. by apply Ha. }
  split; [by split; [exists p'| | | |]|].
  pose proof Hh as [Hst Hte Hac Hclo Hqu Hco Hlo Hru Hba].
  split; try done. intros p1 Hp1. rewrite (follows_unique _ _ _ Hf' Hp1), Hn.
  unfold quiet. rewrite Htr. destruct (Hqu p Hf) as (? & ? & _). by split_all.
Qed.

Lemma source_value s g b :
  source_of s = Some (g, b) →
  source_generation_open s = Some g ∧ source_generation_quiesced s = b.
Proof. unfold source_of. destruct (source_generation_open s); [|done]. by intros [= -> ->]. Qed.

(** A field set to the value it has. *)
Lemma same_open o qd s :
  o = source_generation_open s →
  s <| source_generation_open := o |> <| source_generation_quiesced := qd |>
  = s <| source_generation_quiesced := qd |>.
Proof. intros ->. by destruct s. Qed.

Lemma same_quiesced o qd s :
  qd = source_generation_quiesced s →
  s <| source_generation_open := o |> <| source_generation_quiesced := qd |>
  = s <| source_generation_open := o |>.
Proof. intros ->. by destruct s. Qed.

Lemma same_source_fields o qd s :
  o = source_generation_open s → qd = source_generation_quiesced s →
  s <| source_generation_open := o |> <| source_generation_quiesced := qd |> = s.
Proof. intros -> ->. by destruct s. Qed.

(** [quiesce], called on an open, not yet quiesced generation. *)
Lemma triple_lifecycle_quiesce k g lk :
  lk = k_locked k →
  k_quiet k = true →
  triple (λ s, holds k s ∧ has_source (Some (g, false)) s)
    (call_source (w_lifecycle_quiesce g) (λ s, s <| source_generation_quiesced := true |>))
    (either (λ _, holds k) (troubled lk)).
Proof.
  intros -> Hkq. apply triple_atomically; [auto with gateway|].
  intros s Hi [Hh Hsrc]. pose proof Hi as [(p & Hf) _ _ _ _].
  destruct (ho_quiet _ _ Hh p Hf) as (Hq & Hn & Hph). specialize (Hq Hkq).
  destruct (source_value _ _ _ Hsrc) as [Hop Hqd].
  cbn [w_lifecycle_quiesce traced_world]. unfold logged. cbn [fst snd].
  destruct (w_lifecycle_quiesce g (inner (world s))) as [x r]. cbn [fst snd].
  assert (Hps : p_source p = Some (g, false)) by (rewrite (fo_source _ _ Hf); exact Hsrc).
  assert (Hstep : ∀ ok : bool, protocol_step (CallQuiesce g ok) p
                  = Some (if ok then p <| p_source := Some (g, true) |> else p)).
  { intros ok. cbn [protocol_step]. by rewrite Hps, Hq, bool_decide_eq_true_2. }
  pose proof (fo_configured _ _ Hf) as Hcf. rewrite Hop in Hcf.
  assert (Hcl : k_closed k = true → Some g = None) by (rewrite <- Hop; apply (ho_closed _ _ Hh)).
  assert (Hk : k <| k_closed := k_closed k |> <| k_phase := k_phase k |> = k) by by destruct k.
  destruct (succeeded r) eqn:Hr.
  - destruct r as [[]|]; try done.
    destruct (sourced _ x _ _ k (Some g) true (k_closed k) (k_phase k) _ Hi Hh Hf (Hstep true)) as [Hi' Hh'];
      [done..|]. rewrite Hk, same_open in Hh' by done. rewrite same_open in Hi' by done. by split.
  - destruct (sourced _ x _ _ k (Some g) false (k_closed k) (k_phase k) _ Hi Hh Hf (Hstep false))
      as [Hi' Hh']; [done|done|done|by rewrite Hps|done..|].
    rewrite Hk, same_source_fields in Hh' by done. rewrite same_source_fields in Hi' by done.
    destruct r as [[]|]; [done|by split|split; [done|]]. exact (holds_troubled _ _ Hh').
Qed.

(** [close], called on an open and quiesced generation. *)
Lemma triple_lifecycle_close k g o lk :
  lk = k_locked k →
  triple (λ s, holds k s ∧ has_source (Some (g, true)) s)
    (call_source (w_lifecycle_close g o)
       (λ s, s <| source_generation_open := None |> <| source_generation_quiesced := false |>))
    (either (λ ok : bool, holds (if ok then k <| k_closed := true |> else k))
            (troubled lk)).
Proof.
  intros ->. apply triple_atomically; [auto with gateway|].
  intros s Hi [Hh Hsrc]. pose proof Hi as [(p & Hf) _ _ _ _].
  destruct (source_value _ _ _ Hsrc) as [Hop Hqd].
  destruct (ho_quiet _ _ Hh p Hf) as (_ & _ & Hph).
  cbn [w_lifecycle_close traced_world]. unfold logged. cbn [fst snd].
  destruct (w_lifecycle_close g o (inner (world s))) as [x r]. cbn [fst snd].
  assert (Hps : p_source p = Some (g, true)) by (rewrite (fo_source _ _ Hf); exact Hsrc).
  assert (Hstep : ∀ ok : bool, protocol_step (CallClose g o ok) p
                  = Some (if ok then p <| p_source := None |> else p)).
  { intros ok. cbn [protocol_step]. by rewrite Hps, bool_decide_eq_true_2. }
  pose proof (fo_configured _ _ Hf) as Hcf. rewrite Hop in Hcf.
  assert (Hcl : k_closed k = true → Some g = None) by (rewrite <- Hop; apply (ho_closed _ _ Hh)).
  assert (Hk : k <| k_closed := k_closed k |> <| k_phase := k_phase k |> = k) by by destruct k.
  destruct (succeeded r) eqn:Hr.
  - destruct r as [[]|]; try done.
    destruct (sourced _ x _ _ k None false true (k_phase k) _ Hi Hh Hf (Hstep true)) as [Hi' Hh'];
      [done..|]. by split.
  - destruct (sourced _ x _ _ k (Some g) true (k_closed k) (k_phase k) _ Hi Hh Hf (Hstep false))
      as [Hi' Hh']; [done|done|done|by rewrite Hps|done..|].
    rewrite Hk, same_source_fields in Hh' by done. rewrite same_source_fields in Hi' by done.
    destruct r as [[]|]; [done|by split|split; [done|]]. exact (holds_troubled _ _ Hh').
Qed.

(** [open], called with no open generation on the current generation. *)
Lemma triple_lifecycle_open k lk :
  lk = k_locked k → k_phase k = Some PhCreated →
  triple (λ s, holds k s ∧ (lifecycle_configured s = true ∧ has_source None s))
    (call_source (w_lifecycle_open (k_next k))
       (λ s, s <| source_generation_open := Some (k_next k) |>))
    (either (λ _, holds (k <| k_closed := false |> <| k_phase := None |>)) (troubled lk)).
Proof.
  intros -> Hkp. apply triple_atomically.
  { apply stable_and; [auto with gateway|]. apply stable_and; [|auto with gateway].
    intros s s' _ _ Hc Hr. destruct (rl_own _ _ Hr) as (_ & _ & _ & Hlc & _). congruence. }
  intros s Hi [Hh [Hconf Hsrc]]. pose proof Hi as [(p & Hf) _ _ _ _].
  assert (Hop : source_generation_open s = None).
  { unfold has_source, source_of in Hsrc. by destruct (source_generation_open s). }
  pose proof (fo_closed _ _ Hf Hop) as Hqd.
  cbn [w_lifecycle_open traced_world]. unfold logged. cbn [fst snd].
  destruct (w_lifecycle_open (k_next k) (inner (world s))) as [x r]. cbn [fst snd].
  assert (Hps : p_source p = None) by (rewrite (fo_source _ _ Hf); exact Hsrc).
  destruct (ho_quiet _ _ Hh p Hf) as (_ & Hn & Hph).
  assert (Hstep : ∀ ok : bool, protocol_step (CallOpen (k_next k) ok) p
                  = Some (if ok then p <| p_source := Some (k_next k, false) |> <| p_phase := PhOpened |>
                          else p)).
  { intros ok. cbn [protocol_step]. by rewrite Hps, Hn, Z.eqb_refl, (Hph _ Hkp). }
  destruct (succeeded r) eqn:Hr.
  - destruct r as [[]|]; try done.
    destruct (sourced _ x _ _ k (Some (k_next k)) false false None _ Hi Hh Hf (Hstep true)) as [Hi' Hh'];
      [done|done|done|done|done|by intros Hf'; rewrite Hf' in Hconf|done|].
    rewrite same_quiesced in Hh' by done. rewrite same_quiesced in Hi' by done. by split.
  - destruct (sourced _ x _ _ k None false false None _ Hi Hh Hf (Hstep false))
      as [Hi' Hh']; [done|done|done|by rewrite Hps|done..|].
    rewrite same_source_fields in Hh' by done. rewrite same_source_fields in Hi' by done.
    destruct r as [[]|]; [done|by split|split; [done|]]. exact (holds_troubled _ _ Hh').
Qed.

(** ** Programs of the thread *)

Lemma either_ret {A} k (a : A) (Q : A → State → Prop) E :
  (∀ s, recovery_inv s → holds k s → Q a s) →
  triple (holds k) (mret (Returned a)) (either Q E).
Proof. intros H. apply triple_ret. exact H. Qed.

Lemma either_throw {A} k lk (Q : A → State → Prop) :
  lk = k_locked k →
  triple (holds k) (mret Threw) (either Q (troubled lk)).
Proof. intros ->. apply triple_ret. intros s _ Hh. exact (holds_troubled _ _ Hh). Qed.

(** Branching on the shared state keeps what is known. *)
Lemma triple_reading {A B} k (f : State → A) (p : A → prog State B) Q :
  (∀ a, triple (holds k) (p a) Q) → triple (holds k) (read f ≫= p) Q.
Proof.
  intros H. eapply triple_bind; [|exact H]. apply triple_read; [auto with gateway|done].
Qed.

Lemma triple_shutdown_seen {B} k (p : bool → prog State B) Q :
  (∀ a, triple (holds k) (p a) Q) → triple (holds k) (shutdown_seen ≫= p) Q.
Proof.
  intros H. eapply triple_bind; [|exact H]. unfold shutdown_seen.
  apply triple_reading. intros []; [by apply triple_ret|].
  apply triple_read; [auto with gateway|done].
Qed.

Lemma either_silent {A B} k (F : Traced X → Traced X * outcome A) (f : X → X * outcome A)
  (p : A → prog State (outcome B)) Q lk :
  F = silent f → lk = k_locked k →
  (∀ a, triple (holds k) (p a) (either Q (troubled lk))) →
  triple (holds k) (bind_throw (call F) p) (either Q (troubled lk)).
Proof. intros -> -> H. eapply triple_throw; [apply triple_silent_either|exact H]. Qed.

Lemma same_status_persist t o :
  same_status o match to_last_event_utc_ns t with
                | None => o
                | Some ns => o <| ro_last_event_utc_ns := Some ns |>
                end.
Proof. by destruct (to_last_event_utc_ns t). Qed.

Lemma triple_persist k t : triple (holds k) (modify (persist_event t)) (λ _, holds k).
Proof.
  unfold persist_event. destruct (to_last_event_utc_ns t) as [ns|].
  - by apply triple_same.
  - apply triple_modify; [auto with gateway|done].
Qed.

Lemma triple_retire k t : triple (holds k) (modify (retire_attempt t)) (λ _, holds k).
Proof.
  unfold retire_attempt. apply triple_same; [done|].
  intros o [[Ha Hm] Hh]. split; [|done]. simpl. lia.
Qed.

Lemma triple_quiesce_source k t lk :
  lk = k_locked k →
  k_quiet k = true →
  triple (holds k) (quiesce_source t) (either (λ _, holds k) (troubled lk)).
Proof.
  intros -> Hq. unfold quiesce_source.
  eapply (triple_bind _ _ (λ due s, holds k s ∧
            (due = true → has_source (Some (to_connection_generation t, false)) s))).
  { apply triple_read; [auto with gateway|]. intros s _ Hh. split; [done|].
    rewrite andb_true_iff, bool_decide_eq_true, negb_true_iff. intros [Hop Hqd].
    unfold has_source, source_of. by rewrite Hop, Hqd. }
  intros [].
  - eapply triple_throw.
    + eapply triple_conseq; [by eapply (triple_lifecycle_quiesce k)| |done].
      intros s _ [Hh Hsrc]. auto.
    + intros []; [by apply either_ret|by apply either_throw].
  - intros s Hi [Hh _]. by split.
Qed.

(** The pointer to the attempt is cleared. *)
Lemma triple_clear_active k a :
  k_active k = Some a →
  triple (holds k)
    (modify (λ s, if bool_decide (active_attempt s = Some a)
                  then s <| active_attempt := None |> else s))
    (λ _, holds (k <| k_active := None |>)).
Proof.
  intros Hka. apply triple_modify; [auto with gateway|]. intros s Hi Hh.
  rewrite bool_decide_eq_true_2 by (by rewrite (ho_active _ _ Hh)).
  pose proof Hi as [(p & Hf) Hr Hs Ht Hu].
  assert (Hf' : follows p (s <| active_attempt := None |>)).
  { destruct Hf as [Hm Hso Hc1 Hc2 _]. by split. }
  split; [split; [by exists p|done..]|].
  destruct Hh as [Hst Hte Hac Hcl Hqu Hco Hlo Hru Hba Hat]. split; try done.
  intros q Hq. rewrite (follows_unique _ _ _ Hf' Hq). exact (Hqu p Hf).
Qed.

Lemma triple_quiesce k a lk :
  lk = k_locked k →
  k_active k = Some a →
  triple (holds k) (quiesce_attempt a)
    (either (λ _, holds (k <| k_quiet := true |> <| k_active := None |>))
            (troubled lk)).
Proof.
  intros -> Hka. unfold quiesce_attempt.
  eapply triple_bind; [by apply triple_stop|]. intros ?.
  eapply either_silent; [done|done|]. intros t.
  eapply triple_bind; [apply triple_persist|]. intros ?.
  eapply triple_throw; [by apply triple_quiesce_source|]. intros ?.
  eapply triple_bind; [by apply triple_clear_active|]. intros ?.
  eapply triple_bind; [apply triple_retire|]. intros ?.
  by apply either_ret.
Qed.

Lemma triple_close k o lk :
  lk = k_locked k →
  triple (holds k) (close_source_generation o)
    (either (λ _, holds (k <| k_closed := true |>)) (troubled lk)).
Proof.
  intros ->. unfold close_source_generation.
  eapply (triple_bind _ _ (λ open s, holds k s ∧ source_generation_open s = open)).
  { apply triple_read; [auto with gateway|]. intros s [(p & Hf) _ _ _ _] Hh. split; [done|].
    pose proof (fo_configured _ _ Hf) as Hc. destruct (lifecycle_configured s); auto. }
  intros [g|].
  - eapply (triple_bind _ _ (λ qd s, holds k s ∧ has_source (Some (g, qd)) s)).
    { apply triple_read.
      - apply stable_and; [auto with gateway|]. intros s s' _ _ Ho Hr.
        destruct (rl_own _ _ Hr) as (_ & Hop & _). congruence.
      - intros s _ [Hh Ho]. split; [done|]. unfold has_source, source_of. by rewrite Ho. }
    intros [].
    + eapply triple_throw; [by apply triple_lifecycle_close|].
      intros []; [by apply either_ret|by apply either_throw].
    + intros s Hi [Hh _]. split; [done|]. exact (holds_troubled _ _ Hh).
  - intros s Hi [Hh Ho]. split; [done|]. by apply holds_no_source.
Qed.

Lemma triple_open k t lk :
  lk = k_locked k → k_phase k = Some PhCreated →
  triple (holds k) (open_source_generation t (k_next k))
    (either (λ _, holds (k <| k_closed := false |> <| k_phase := None |>)) (troubled lk)).
Proof.
  intros -> Hkp. unfold open_source_generation.
  eapply (triple_bind _ _ (λ c s, holds k s ∧ lifecycle_configured s = c)).
  { by apply triple_read; [auto with gateway|]. }
  assert (Hstable : stable (λ s, lifecycle_configured s = true)).
  { intros s s' _ _ Hc Hr. destruct (rl_own _ _ Hr) as (_ & _ & _ & Hlc & _). congruence. }
  intros [].
  - eapply (triple_bind _ _ (λ invalid s, holds k s ∧ (lifecycle_configured s = true ∧
                                            (invalid = false → has_source None s)))).
    { apply triple_read; [by apply stable_and; [auto with gateway|]|].
      intros s _ [Hh Hc]. split_all; [done..|]. rewrite !orb_false_iff, bool_decide_eq_false.
      intros Hn. unfold has_source, source_of.
      destruct (source_generation_open s); [|done]. by destruct Hn as [[[[[[[] ]]]]]]. }
    intros [].
    + intros s Hi [Hh _]. split; [done|]. exact (holds_troubled _ _ Hh).
    + eapply triple_throw.
      * eapply triple_conseq; [by apply triple_lifecycle_open| |done].
        intros s _ (Hh & Hc & Hs). auto.
      * intros []; [by apply either_ret|by apply either_throw].
  - intros s Hi [Hh Hc]. split; [done|]. by apply holds_open.
Qed.

Lemma triple_end k a lk :
  lk = k_locked k →
  k_active k = Some a →
  triple (holds k) (end_with_shutdown a) (either (λ c _, c = LoopBreak) (troubled lk)).
Proof.
  intros -> Hka. unfold end_with_shutdown.
  eapply triple_throw; [by apply triple_quiesce|]. intros ?.
  eapply triple_throw; [by apply triple_close|]. intros ?. by apply either_ret.
Qed.

Lemma triple_create k lk :
  lk = k_locked k → idle k →
  triple (holds k) (create_attempt (k_next k))
    (either (λ r, match r with
                  | Some a => holds (k <| k_quiet := false |> <| k_phase := Some PhCreated |>
                                       <| k_active := Some a |>)
                  | None => holds k
                  end) (troubled lk)).
Proof.
  intros -> Hidle. unfold create_attempt. eapply triple_throw; [by apply triple_factory|].
  intros [a|]; [|by apply either_ret].
  eapply (triple_bind _ _ (λ _, holds (k <| k_quiet := false |> <| k_phase := Some PhCreated |>
                                         <| k_active := Some a |>))).
  { apply triple_modify; [auto with gateway|]. intros s Hi [Hh Hc].
    pose proof Hi as [(p & Hf) Hr Hs Ht Hu].
    assert (Hf' : follows p (s <| active_attempt := Some a |>)).
    { pose proof (Hc _ Hf) as Hcur. destruct Hf as [Hm Hso Hc1 Hc2 Ha].
      split; [done..|]. intros b [= <-]. exact Hcur. }
    split; [split; [by exists p|done..]|].
    destruct Hh as [Hst Hte Hac Hcl Hqu Hco Hlo Hru Hba Hat]. split; try done.
    intros q Hq. rewrite (follows_unique _ _ _ Hf' Hq). exact (Hqu p Hf). }
  intros ?. eapply either_silent; [done|done|]. intros t. eapply triple_bind; [|intros ?; by apply either_ret].
  unfold publish_attempt. apply triple_same; [done|].
  intros o [[Ha Hm] Hh]. split; [|done]. simpl. lia.
Qed.

(** *** Watching *)

(** A section that moves the reported state. *)
Lemma observation_commit k count bk att (f : RecoveryObservation → RecoveryObservation) s :
  recovery_inv s → holds k s → reports (f (observation s)) →
  (shutdown_requested s = true → winding_down (s <| observation ::= f |>)) →
  ro_terminal (f (observation s)) = false → counted (s <| observation ::= f |>) = count →
  (bk = false → ro_state (f (observation s)) ≠ RyBackoff) →
  (∀ n, att = Some n → ro_consecutive_recovery_attempts (f (observation s)) = n) →
  recovery_inv (s <| observation ::= f |>) ∧
  holds (k <| k_count := count |> <| k_backoff := bk |> <| k_attempts := att |>)
        (s <| observation ::= f |>).
Proof.
  intros Hi Hh Hr Hw Ht Hc Hb Hn. split.
  - apply inv_observation; [done|by destruct Hh|done|done].
  - by apply holds_observation.
Qed.

Lemma knowledge_eta2 k count bk att :
  count = k_count k → bk = k_backoff k → att = k_attempts k →
  k <| k_count := count |> <| k_backoff := bk |> <| k_attempts := att |> = k.
Proof. intros -> -> ->. by destruct k. Qed.

(** Without a committed backoff the report does not say so. *)
Lemma not_in_backoff k s :
  recovery_inv s → holds k s → k_backoff k = false → ro_in_backoff (observation s) = false.
Proof.
  intros [_ [_ _ _ Hb _ _] _ _ _] Hh Hk. pose proof (ho_backoff _ _ Hh Hk) as Hn.
  destruct (ro_in_backoff (observation s)); [|done]. by destruct Hn; auto.
Qed.

(** Moving to an active state when no shutdown was requested. *)
Lemma active_commit k st s :
  recovery_inv s → holds k s → k_backoff k = false → shutdown_requested s = false →
  st ≠ RyBackoff → recovery_inv (set_state st s) ∧ holds k (set_state st s).
Proof.
  intros Hi Hh Hk Hsd Hst. pose proof Hi as [_ [Ha Ht Hhist Hb Hd Hte] _ _ _].
  pose proof (ho_terminal _ _ Hh) as Hter.
  rewrite <- (knowledge_eta2 k (k_count k) false (k_attempts k)) at 1 by done.
  apply observation_commit; try done.
  - split; simpl; try done.
    + intros Hin. rewrite (not_in_backoff _ _ Hi Hh Hk) in Hin. done.
    + congruence.
  - congruence.
  - apply (ho_count _ _ Hh).
  - apply (ho_attempts _ _ Hh).
Qed.

Lemma triple_live k t :
  k_backoff k = false → k_attempts k = None → triple (holds k) (atomically (live_commit t)) (λ _, holds k).
Proof.
  intros Hk Hka. apply triple_atomically; [auto with gateway|]. intros s Hi Hh.
  unfold live_commit. destruct (_ || _) eqn:Hg; cbn [fst snd]; [done|].
  rewrite !orb_false_iff in Hg. destruct Hg as ((((_ & Hsd) & Hte) & _) & _).
  pose proof Hi as [_ [Ha Ht Hhist Hb Hd _] _ _ _].
  rewrite <- (knowledge_eta2 k (k_count k) false (k_attempts k)) at 1 by done.
  apply observation_commit; try done.
  - split; simpl; try done; [lia|congruence].
  - congruence.
  - apply (ho_count _ _ Hh).
  - rewrite Hka. done.
Qed.

Lemma triple_try_live k r t g :
  k_backoff k = false → k_attempts k = None → triple (holds k) (try_mark_live r t g) (λ _, holds k).
Proof.
  intros Hk Hka. unfold try_mark_live. destruct (negb _); [by apply triple_ret|].
  apply triple_reading. intros []; [by apply triple_ret|]. by apply triple_live.
Qed.

Lemma shutting_down_false s :
  shutting_down s = false → shutdown_requested s = false ∧ token s = false.
Proof. apply orb_false_iff. Qed.

Lemma triple_rotating k :
  k_backoff k = false → triple (holds k) (atomically rotating_commit) (λ _, holds k).
Proof.
  intros Hk. apply triple_atomically; [auto with gateway|]. intros s Hi Hh.
  unfold rotating_commit. destruct (shutting_down s) eqn:Hsd; cbn [fst snd]; [done|].
  apply shutting_down_false in Hsd as [Hsd _]. by apply active_commit.
Qed.

(** What an iteration leaves: the knowledge of the next one. *)
Definition next_knowledge (g : Z) : Knowledge := 
  MkKnowledge None true true g g false false false None (Some PhFresh).

Definition concluded (c : LoopControl) : option Knowledge :=
  match c with LoopNext g => Some (next_knowledge g) | _ => None end.

(** The end of the loop, or [holds k]. *)
Definition ends_or {A} (K : A → option Knowledge) (a : A) s : Prop :=
  match K a with Some k => holds k s | None => True end.

Definition watched k (r : LoopControl + bool) : option Knowledge :=
  match r with inl c => concluded c | inr _ => Some k end.

Lemma triple_end_watch k k' a lk :
  lk = k_locked k → k_active k = Some a →
  triple (holds k) (let! c := end_with_shutdown a in mret (Returned (inl c)))
    (either (ends_or (watched k')) (troubled lk)).
Proof.
  intros -> Hka. eapply triple_throw; [by apply triple_end|].
  intros c. apply triple_ret. intros s _ ->. done.
Qed.

Lemma triple_try {A} P (p : prog State (outcome A)) h (Q : A → State → Prop) R :
  triple P p (either Q R) → triple R h Q → triple P (try_catch p h) Q.
Proof.
  intros Hp Hh. eapply triple_bind; [exact Hp|]. intros [a|]; [|exact Hh].
  intros s Hi HQ. by split.
Qed.

Lemma keeps_either {A} k (p : prog State (outcome A)) lk :
  lk = k_locked k → triple (holds k) p (λ _, holds k) →
  triple (holds k) p (either (λ _, holds k) (troubled lk)).
Proof.
  intros -> Hp. eapply triple_conseq; [exact Hp|done|].
  intros [a|] s _ Hh; [done|exact (holds_troubled _ _ Hh)].
Qed.

(** Silent calls keep [holds] even when they throw. *)
Lemma keeps_silent {A B} k (F : Traced X → Traced X * outcome A) (f : X → X * outcome A)
  (p : A → prog State (outcome B)) :
  F = silent f → (∀ a, triple (holds k) (p a) (λ _, holds k)) →
  triple (holds k) (bind_throw (call F) p) (λ _, holds k).
Proof.
  intros -> H. eapply triple_bind; [apply (triple_silent (holds k)); auto with gateway|].
  intros [a|]; [apply H|by apply triple_ret].
Qed.

Lemma triple_wait_rotation k st dl :
  triple (holds k) (wait_for_rotation_or_recovery st dl) (λ _, holds k).
Proof.
  unfold wait_for_rotation_or_recovery. eapply keeps_silent; [done|].
  intros now. destruct (_ <? _)%Z; [by apply triple_ret|].
  destruct (_ <=? _)%Z; [by apply triple_ret|].
  apply (triple_silent (holds k)). auto with gateway.
Qed.

(** An exception inside the [try] of a wait quiesces and closes before it goes on. *)
Lemma triple_watch_rotation k a st dl lk :
  lk = k_locked k → k_active k = Some a → k_backoff k = false →
  triple (holds k) (watch_rotation a st dl) (either (ends_or (watched k)) (troubled lk)).
Proof.
  intros -> Hka Hkb. unfold watch_rotation.
  eapply (triple_throw _ _ (λ _, holds k)).
  - eapply (triple_try _ _ _ _ (holds k)).
    + eapply triple_bind; [apply triple_wait_rotation|].
      intros [w|]; apply triple_ret; intros s _ Hh; exact Hh.
    + eapply triple_throw; [by apply triple_quiesce|]. intros ?.
      eapply triple_throw; [by apply triple_close|]. intros ?.
      by apply either_throw.
  - intros [].
    + by apply either_ret.
    + eapply triple_bind; [by apply triple_rotating|].
      intros []; [by apply triple_end_watch|by apply either_ret].
    + by apply triple_end_watch.
Qed.

Lemma triple_watch_recovery k a lk :
  lk = k_locked k → k_active k = Some a →
  triple (holds k) (watch_until_recovery a) (either (ends_or (watched k)) (troubled lk)).
Proof.
  intros -> Hka. unfold watch_until_recovery. eapply either_silent; [done|done|].
  intros [ro|]; [by apply either_ret|by apply triple_end_watch].
Qed.

Lemma triple_watch k a timing lk :
  lk = k_locked k → k_active k = Some a → k_backoff k = false → k_attempts k = None →
  k_phase k = Some PhCreated →
  triple (holds k) (watch_generation (k_next k) a timing)
    (either (ends_or (watched (k <| k_closed := false |> <| k_phase := None |>))) (troubled lk)).
Proof.
  intros -> Hka Hkb Hkt Hkp. unfold watch_generation. eapply either_silent; [done|done|]. intros t.
  eapply triple_throw; [by apply triple_open|]. intros ?.
  set (k1 := k <| k_closed := false |> <| k_phase := None |>).
  change (k_locked k) with (k_locked k1).
  eapply either_silent; [done|done|]. intros [ro|]; [|by apply triple_end_watch].
  destruct (negb _); [by apply either_ret|].
  eapply either_silent; [done|done|]. intros q.
  eapply either_silent; [done|done|]. intros t'.
  eapply triple_bind; [by apply triple_try_live|].
  intros []; [|by apply either_ret].
  destruct timing as [[st dl]|]; [by apply triple_watch_rotation|by apply triple_watch_recovery].
Qed.

Lemma triple_timing k a lk :
  lk = k_locked k → k_active k = Some a →
  triple (holds k) (generation_timing a) (either (λ _, holds k) (troubled lk)).
Proof.
  intros -> Hka. unfold generation_timing. apply triple_reading. intros [age|]; [|by apply either_ret].
  eapply (triple_try _ _ _ _ (holds k)).
  - eapply (triple_bind _ _ (λ _, holds k)).
    + apply (triple_silent (holds k)). auto with gateway.
    + intros [sample|]; [|by apply triple_ret].
      destruct (planned_rotation_deadline _ _); by apply triple_ret.
  - eapply triple_bind; [by apply triple_quiesce|].
    intros [t|]; apply triple_ret; intros s _ Hh; [exact (holds_troubled _ _ Hh)|exact Hh].
Qed.

(** *** Settling *)

Definition released k : Knowledge := k <| k_locked := false |> <| k_running := false |>.

Lemma follows_locked p b s : follows p (s <| locked := b |>) ↔ follows p s.
Proof. split; intros []; by split. Qed.

Lemma inv_locked b s : recovery_inv s → recovery_inv (s <| locked := b |>).
Proof. intros [(p & Hf) Hr Hs Ht Hu]. split; [|done..]. exists p. by apply follows_locked. Qed.

Lemma holds_released k s : holds k s → holds (released k) (s <| locked := false |>).
Proof.
  intros [Hst Hte Hac Hcl Hqu Hco Hlo Hru Hba Hat]. split; try done.
  intros p Hf. by apply Hqu, (follows_locked _ false).
Qed.

Lemma holds_acquired k s :
  k_locked k = false → holds k s → holds (k <| k_locked := true |>) (s <| locked := true |>).
Proof.
  intros Hkl [Hst Hte Hac Hcl Hqu Hco Hlo Hru Hba Hat]. split; try done.
  - intros p Hf. by apply Hqu, (follows_locked _ true).
  - intros Hk. destruct (Hru Hk). congruence.
Qed.

Lemma stable_ends {A} (K : A → option Knowledge) a : stable (ends_or K a).
Proof. unfold ends_or. destruct (K a); [auto with gateway|done]. Qed.

(** Taking the lock, and giving it back with what [K] says is known. *)
Lemma triple_with_lock {A} k (p : prog State (outcome A)) (K : A → option Knowledge) :
  k_locked k = false →
  triple (holds (k <| k_locked := true |>)) p (either (ends_or K) (troubled true)) →
  triple (holds k) (with_lock p)
    (either (ends_or (λ a, released <$> K a)) (troubled false)).
Proof.
  intros Hkl Hp. unfold with_lock.
  eapply (triple_bind _ _ (λ _, holds (k <| k_locked := true |>))).
  { apply triple_modify; [auto with gateway|]. intros s Hi Hh.
    split; [by apply inv_locked|by apply holds_acquired]. }
  intros ?. eapply triple_bind; [exact Hp|]. intros r.
  eapply (triple_bind _ _ (λ _, either (ends_or (λ a, released <$> K a)) (troubled false) r));
    [|intros ?; by apply triple_ret].
  apply triple_modify.
  - destruct r; [apply stable_ends|apply stable_troubled].
  - intros s Hi HQ. split; [by apply inv_locked|]. destruct r as [v|]; simpl in *.
    + unfold ends_or in *. destruct (K v); [by apply holds_released|done].
    + destruct HQ as (k1 & Hk1 & Hh). exists (released k1). split; [done|].
      by apply holds_released.
Qed.

(** Under the lock, no shutdown was requested. *)
Lemma triple_shutting_down {B} k (p : bool → prog State B) Q :
  k_locked k = true →
  triple (holds k) (p true) Q → triple (holds (k <| k_running := true |>)) (p false) Q →
  triple (holds k) (read shutting_down ≫= p) Q.
Proof.
  intros Hkl Ht Hf.
  eapply (triple_bind _ _ (λ (b : bool), holds (if b then k else k <| k_running := true |>))).
  - apply triple_read; [auto with gateway|]. intros s _ Hh.
    destruct (shutting_down s) eqn:Hsd; [done|].
    apply shutting_down_false in Hsd as [Hsd _].
    destruct Hh as [Hst Hte Hac Hcl Hqu Hco Hlo Hru Hba Hat]. split; try done.
  - intros []; done.
Qed.

(** The counters. *)
Lemma counted_rotation s (f : RecoveryObservation → RecoveryObservation) :
  ro_total_recovery_count (f (observation s)) = ro_total_recovery_count (observation s) →
  ro_planned_rotation_count (f (observation s))
  = u64_succ (ro_planned_rotation_count (observation s)) →
  counted (s <| observation ::= f |>) = u64_succ (counted s).
Proof.
  intros H1 H2. unfold counted. simpl. rewrite H1, H2. unfold u64_succ, u64_wrap.
  rewrite Zplus_mod_idemp_r, Zplus_mod_idemp_l. f_equal. lia.
Qed.

Lemma counted_recovery s (f : RecoveryObservation → RecoveryObservation) :
  ro_total_recovery_count (f (observation s))
  = u64_succ (ro_total_recovery_count (observation s)) →
  ro_planned_rotation_count (f (observation s)) = ro_planned_rotation_count (observation s) →
  counted (s <| observation ::= f |>) = u64_succ (counted s).
Proof.
  intros H1 H2. unfold counted. simpl. rewrite H1, H2. unfold u64_succ, u64_wrap.
  set (t := ro_total_recovery_count _). set (p := ro_planned_rotation_count _).
  set (m := 18446744073709551616%Z).
  replace (1 + (t + 1) mod m + p)%Z with ((t + 1) mod m + (1 + p))%Z by lia.
  rewrite !Zplus_mod_idemp_l. f_equal. lia.
Qed.

(** [set_terminal]; nothing more is known of the reported state. *)
Lemma triple_set_terminal k c e x :
  k_locked k = false → triple (holds k) (set_terminal c e x) (λ _ s, locked s = false).
Proof.
  intros Hkl. apply triple_modify; [auto with gateway|]. intros s Hi Hh.
  pose proof (ho_locked _ _ Hh) as Hl. rewrite Hkl in Hl.
  unfold terminal_commit. destruct (shutdown_requested s) eqn:Hsd; [done|].
  split; [|exact Hl]. pose proof Hi as [_ [Ha Ht Hhist Hb Hd Hte] _ _ _].
  apply inv_observation; [done|by destruct Hh| |].
  - split; simpl; try done; auto.
  - congruence.
Qed.

Lemma ends_none {A} (a : A) (K : A → option Knowledge) s : K a = None → ends_or K a s.
Proof. unfold ends_or. by intros ->. Qed.

Lemma triple_terminal_return {A} k c e x (v : A) (K : A → option Knowledge) lk :
  lk = k_locked k → k_locked k = false → K v = None →
  triple (holds k) (set_terminal c e x ;; mret (Returned v)) (either (ends_or K) (troubled lk)).
Proof.
  intros -> Hkl HK. eapply triple_bind; [by apply triple_set_terminal|].
  intros ?. apply triple_ret. intros s _ _. by apply ends_none.
Qed.

(** The knowledge after a planned reset, by its answer. *)
Definition rotated k (r : option PlannedRebootstrapResetResult) : option Knowledge :=
  match r with
  | None => None
  | Some PrReset =>
      Some (k <| k_next := u64_succ (k_next k) |> <| k_count := u64_succ (k_count k) |>
              <| k_phase := Some PhFresh |>)
  | Some _ => Some k
  end.

Lemma triple_rotation_commit k g t r :
  k_backoff k = false → k_running k = true →
  triple (holds k) (modify (rotation_commit g t r))
    (λ _, holds (k <| k_count := u64_succ (k_count k) |>)).
Proof.
  intros Hkb Hkr. apply triple_modify; [auto with gateway|]. intros s Hi Hh.
  destruct (ho_running _ _ Hh Hkr) as [_ Hsd].
  pose proof Hi as [_ [Ha Ht Hhist Hb Hd Hte] _ _ _].
  pose proof (ho_terminal _ _ Hh) as Hter.
  assert (Hk : k <| k_count := u64_succ (k_count k) |>
               = k <| k_count := u64_succ (k_count k) |> <| k_backoff := false |>
                   <| k_attempts := k_attempts k |>)
    by (rewrite <- Hkb; by destruct k).
  rewrite Hk. unfold rotation_commit. apply observation_commit; try done.
  - split; simpl; try done.
    + intros Hin. rewrite (not_in_backoff _ _ Hi Hh Hkb) in Hin. done.
    + congruence.
  - congruence.
  - rewrite counted_rotation by done. by rewrite (ho_count _ _ Hh).
  - apply (ho_attempts _ _ Hh).
Qed.

Lemma triple_planned_section k g t r :
  k_locked k = true → k_backoff k = false → k_quiet k = true →
  triple (holds k)
    (down ← read shutting_down;
     if down : bool
     then let! _ := close_source_generation CloseGlobalShutdown in mret (Returned None)
     else
       let! _ := close_source_generation CloseReplacement in
       let! reset_result := call w_reset_live_for_planned_rebootstrap in
       (if bool_decide (reset_result = PrReset)
        then modify (rotation_commit g t r) else mret ()) ;;
       mret (Returned (Some reset_result)))
    (either (ends_or (rotated (k <| k_closed := true |> <| k_running := true |>)))
            (troubled true)).
Proof.
  intros Hkl Hkb Hkq. apply triple_shutting_down; [done| |].
  - eapply triple_throw; [by apply triple_close|]. intros ?.
    apply triple_ret. intros s _ _. by apply ends_none.
  - eapply triple_throw; [by apply triple_close|]. intros ?.
    eapply triple_throw; [by apply triple_rotate|]. intros answer.
    eapply (triple_bind _ _ (λ _, ends_or (rotated (k <| k_closed := true |> <| k_running := true |>))
                                    (Some answer))); [|intros ?; by apply triple_ret].
    case_bool_decide as Ha.
    + subst answer. eapply triple_conseq;
        [apply (triple_rotation_commit (k <| k_closed := true |> <| k_running := true |>
                                          <| k_next := u64_succ (k_next k) |>
                                          <| k_phase := Some PhFresh |>)); done
        |by intros s _ Hh|].
      intros ? s _ Hh. by destruct k.
    + apply triple_ret. intros s _ Hh. unfold ends_or. destruct answer; try done; by destruct k.
Qed.

Lemma triple_planned_reset k g t r :
  k_locked k = false → k_active k = None → k_backoff k = false → k_quiet k = true →
  k_next k = g → k_count k = g → k_attempts k = None →
  triple (holds k) (planned_reset g t r) (either (ends_or concluded) (troubled false)).
Proof.
  intros Hkl Hka Hkb Hkq Hkn Hkc Hkt. unfold planned_reset. eapply triple_throw.
  { apply triple_with_lock; [done|]. by apply triple_planned_section. }
  intros [answer|]; [|apply triple_ret; intros s _ _; by apply ends_none].
  unfold ends_or at 1. destruct answer; cbn [rotated fmap option_fmap option_map];
    try (by apply triple_terminal_return).
  apply either_ret. intros s _ Hh. unfold ends_or. cbn [concluded].
  destruct k. simpl in *. subst. exact Hh.
Qed.

(** *** Recovering *)

Lemma record_diagnostic_bounds d o : within_bounds o → within_bounds (record_diagnostic d o).
Proof.
  intros [Ht [Hl Hs]]. unfold record_diagnostic. case_bool_decide as Hfull; (split; [exact Ht|]).
  - split; [|exact Hs]. simpl. rewrite length_app, <- Hl.
    assert (length (ro_failure_history o) ≠ 0) by (by rewrite Hl).
    destruct (ro_failure_history o); [done|simpl; lia].
  - simpl. rewrite length_insert. split; [exact Hl|]. rewrite Hl in Hfull.
    unfold kRecoveryFailureHistoryCapacity, kMaximumRecoveryAttempts in *. lia.
Qed.

Lemma triple_record_failure k g c t r :
  triple (holds k) (record_failure g c t r) (λ _, holds k).
Proof.
  unfold record_failure. eapply triple_bind.
  { apply (triple_silent (holds k)). auto with gateway. }
  intros []; [|by apply triple_ret]. apply triple_same.
  - intros o. unfold record_diagnostic. by case_bool_decide.
  - intros o. apply record_diagnostic_bounds.
Qed.

Lemma triple_exhausted k d t :
  k_running k = true →
  triple (holds k) (modify (exhausted_commit d t)) (λ _ _, True).
Proof.
  intros Hkr. apply triple_modify; [auto with gateway|]. intros s Hi Hh. split; [|done].
  destruct (ho_running _ _ Hh Hkr) as [_ Hsd].
  pose proof Hi as [_ [Ha Ht Hhist Hb Hd Hte] _ _ _].
  apply inv_observation; [done|by destruct Hh| |].
  - split; simpl; try done; auto.
  - congruence.
Qed.

(** The delays of the six attempts. *)
Lemma normal_backoff_delay_ok n :
  1 ≤ n ≤ kMaximumRecoveryAttempts → ∃ d, normal_backoff_delay n = Returned d.
Proof.
  unfold kMaximumRecoveryAttempts. intros [H1 H6].
  do 7 (destruct n as [|n]; [first [lia|by eexists]|]). lia.
Qed.

Lemma triple_backoff_count k d n :
  k_backoff k = false → k_attempts k = Some n → n < kMaximumRecoveryAttempts →
  triple (holds k) (modify (backoff_count d)) (λ _, holds (k <| k_attempts := Some (S n) |>)).
Proof.
  intros Hkb Hkt Hn. apply triple_modify; [auto with gateway|]. intros s Hi Hh.
  pose proof Hi as [_ [Ha Ht Hhist Hb Hd Hte] Hs _ _].
  pose proof (ho_terminal _ _ Hh) as Hter. pose proof (ho_attempts _ _ Hh n Hkt) as Hat.
  assert (Hk : k <| k_attempts := Some (S n) |>
               = k <| k_count := k_count k |> <| k_backoff := false |>
                   <| k_attempts := Some (S n) |>)
    by (rewrite <- Hkb; by destruct k).
  rewrite Hk. unfold backoff_count. apply observation_commit; try done.
  - split; simpl; try done.
    + rewrite Hat. exact Hn.
    + intros Hst. by destruct (ho_backoff _ _ Hh Hkb).
  - apply (ho_count _ _ Hh).
  - intros _. apply (ho_backoff _ _ Hh Hkb).
  - intros m [= <-]. simpl. by rewrite Hat.
Qed.

Lemma triple_backoff_commit k n normal delay :
  k_running k = true → k_attempts k = Some n → normal_backoff_delay n = Returned normal →
  (normal <= delay)%Z →
  triple (holds k) (modify (backoff_commit delay)) (λ _, holds (k <| k_backoff := true |>)).
Proof.
  intros Hkr Hkt Hnormal Hle. apply triple_modify; [auto with gateway|]. intros s Hi Hh.
  destruct (ho_running _ _ Hh Hkr) as [_ Hsd].
  pose proof Hi as [_ [Ha Ht Hhist Hb Hd Hte] _ _ _].
  pose proof (ho_terminal _ _ Hh) as Hter. pose proof (ho_attempts _ _ Hh n Hkt) as Hat.
  assert (Hk : k <| k_backoff := true |> = k <| k_count := k_count k |> <| k_backoff := true |>
                                             <| k_attempts := k_attempts k |>)
    by by destruct k.
  rewrite Hk. unfold backoff_commit. apply observation_commit; try done.
  - split; simpl; try done.
    + intros _. exists normal. by rewrite Hat.
    + congruence.
  - congruence.
  - apply (ho_count _ _ Hh).
  - apply (ho_attempts _ _ Hh).
Qed.

(** The counter is read: its value is known from then on. *)
Lemma triple_reading_attempts {B} k (p : nat → prog State B) Q :
  (∀ n, triple (holds (k <| k_attempts := Some n |>)) (p n) Q) →
  triple (holds k) (read (λ s, ro_consecutive_recovery_attempts (observation s)) ≫= p) Q.
Proof.
  intros Hp. eapply (triple_bind _ _ (λ n, holds (k <| k_attempts := Some n |>))); [|exact Hp].
  apply triple_read; [auto with gateway|].
  intros s _ [Hst Hte Hac Hcl Hqu Hco Hlo Hru Hba Hat]. split; try done. by intros n [= <-].
Qed.

Lemma holds_forget k s : holds k s → holds (k <| k_attempts := None |>) s.
Proof. intros []. by split. Qed.

Definition committed k (r : option LoopControl) : option Knowledge :=
  match r with None => Some (k <| k_backoff := true |>) | Some c => concluded c end.

Lemma triple_commit_section k d t :
  k_locked k = true → k_backoff k = false → k_attempts k = None →
  triple (holds k)
    (down ← read shutting_down;
     if down : bool
     then let! _ := close_source_generation CloseGlobalShutdown in
          mret (Returned (Some LoopBreak))
     else
       attempts ← read (λ s, ro_consecutive_recovery_attempts (observation s));
       if bool_decide (kMaximumRecoveryAttempts <= attempts)
       then
         let! _ := close_source_generation ClosePermanentFailure in
         modify (exhausted_commit d t) ;;
         mret (Returned (Some LoopReturn))
       else
         let! _ := close_source_generation CloseReplacement in
         modify (backoff_count d) ;;
         attempt ← read (λ s, ro_consecutive_recovery_attempts (observation s));
         match normal_backoff_delay attempt with
         | Threw => mret Threw
         | Returned normal =>
             modify (backoff_commit (requested_delay d normal)) ;;
             mret (Returned None)
         end)
    (either (ends_or (committed (k <| k_closed := true |> <| k_running := true |>)))
            (troubled true)).
Proof.
  intros Hkl Hkb Hkt. apply triple_shutting_down; [done| |].
  { eapply triple_throw; [by apply triple_close|]. intros ?.
    apply triple_ret. intros s _ _. by apply ends_none. }
  apply triple_reading_attempts. intros n.
  set (k1 := k <| k_running := true |> <| k_attempts := Some n |>).
  case_bool_decide as Hn.
  - eapply triple_throw; [by apply (triple_close k1)|].
    intros ?. eapply triple_bind; [by apply triple_exhausted|].
    intros ?. apply triple_ret. intros s _ _. by apply ends_none.
  - eapply triple_throw; [by apply (triple_close k1)|].
    intros ?. eapply triple_bind; [apply triple_backoff_count; [done|done|lia]|]. intros ?.
    set (k2 := k1 <| k_closed := true |> <| k_attempts := Some (S n) |>).
    eapply (triple_bind _ _ (λ m s, holds k2 s ∧ m = S n)).
    { apply triple_read; [auto with gateway|]. intros s _ Hh. split; [done|].
      by apply (ho_attempts _ _ Hh). }
    intros m. destruct (normal_backoff_delay_ok (S n)) as [normal Hnormal]; [lia|].
    intros s Hi [HP ->]. rewrite Hnormal. revert s Hi HP.
    change (triple (holds k2)
              (modify (backoff_commit (requested_delay d normal)) ;; mret (Returned None))
              (either (ends_or (committed (k <| k_closed := true |> <| k_running := true |>)))
                 (troubled true))).
    eapply triple_bind.
    { apply (triple_backoff_commit _ (S n) normal); [done|done|done|].
      unfold requested_delay. destruct (minimum_delay d); lia. }
    intros ?. apply triple_ret. intros s _ Hh. apply holds_forget in Hh.
    destruct k. simpl in *. subst. exact Hh.
Qed.

Lemma triple_recovering k :
  triple (holds k) (atomically recovering_commit)
    (λ (down : bool), holds (if down then k else k <| k_backoff := false |>)).
Proof.
  apply triple_atomically; [auto with gateway|]. intros s Hi Hh.
  unfold recovering_commit. destruct (shutting_down s) eqn:Hsd; cbn [fst snd]; [done|].
  apply shutting_down_false in Hsd as [Hsd _].
  pose proof Hi as [_ [Ha Ht Hhist Hb Hd Hte] _ _ _].
  pose proof (ho_terminal _ _ Hh) as Hter.
  assert (Hk : k <| k_backoff := false |> = k <| k_count := k_count k |> <| k_backoff := false |>
                                              <| k_attempts := k_attempts k |>)
    by by destruct k.
  rewrite Hk.
  apply (observation_commit _ _ _ _ (λ o, o <| ro_state := RyRecovering |> <| ro_in_backoff := false |>));
    try done.
  - split; simpl; try done. congruence.
  - intros Hs. exfalso. simpl in Hs. congruence.
  - apply (ho_count _ _ Hh).
  - apply (ho_attempts _ _ Hh).
Qed.

(** The knowledge after a recovery reset, by its answer. *)
Definition reset_known k (r : option RebootstrapResetResult) : option Knowledge :=
  match r with
  | None => None
  | Some RrReset =>
      Some (k <| k_next := u64_succ (k_next k) |> <| k_count := u64_succ (k_count k) |>
              <| k_phase := Some PhFresh |>)
  | Some _ => Some k
  end.

Lemma triple_count_recovery k :
  k_backoff k = false →
  triple (holds k)
    (modify (λ s : State, s <| observation ::= λ o, o <| ro_total_recovery_count ::= u64_succ |> |>))
    (λ _, holds (k <| k_count := u64_succ (k_count k) |>)).
Proof.
  intros Hkb. apply triple_modify; [auto with gateway|]. intros s Hi Hh.
  pose proof Hi as [_ [Ha Ht Hhist Hb Hd Hte] Hs _ _].
  assert (Hk : k <| k_count := u64_succ (k_count k) |>
               = k <| k_count := u64_succ (k_count k) |> <| k_backoff := false |>
                   <| k_attempts := k_attempts k |>)
    by (rewrite <- Hkb; by destruct k).
  rewrite Hk. apply observation_commit; try done.
  - apply (ho_terminal _ _ Hh).
  - rewrite counted_recovery by done. by rewrite (ho_count _ _ Hh).
  - intros _. apply (ho_backoff _ _ Hh Hkb).
  - apply (ho_attempts _ _ Hh).
Qed.

Lemma triple_reset_section k :
  k_locked k = false → k_backoff k = false → k_quiet k = true → k_closed k = true →
  triple (holds k) reset_section
    (either (ends_or (λ r, released <$> reset_known (k <| k_locked := true |> <| k_running := true |>) r))
            (troubled false)).
Proof.
  intros Hkl Hkb Hkq Hkc. unfold reset_section. apply triple_with_lock; [done|].
  apply triple_shutting_down; [done| |].
  - apply triple_ret. intros s _ _. by apply ends_none.
  - eapply triple_throw; [by apply triple_reset|]. intros answer.
    set (k1 := k <| k_locked := true |> <| k_running := true |>).
    eapply (triple_bind _ _ (λ _, ends_or (reset_known k1) (Some answer)));
      [|intros ?; by apply triple_ret].
    case_bool_decide as Ha.
    + subst answer. eapply triple_conseq;
        [apply (triple_count_recovery (k1 <| k_next := u64_succ (k_next k) |>
                                             <| k_phase := Some PhFresh |>)); done
        |by intros s _ Hh|].
      intros ? s _ Hh. by destruct k.
    + apply triple_ret. intros s _ Hh. unfold ends_or. destruct answer; try done; by destruct k.
Qed.

Lemma triple_observe k lk :
  lk = k_locked k →
  triple (holds k) observe (either (λ _, holds k) (troubled lk)).
Proof.
  intros ->. unfold observe. apply triple_reading. intros o. apply triple_reading.
  intros [a|]; [|by apply either_ret]. destruct (_ || _); [by apply either_ret|].
  eapply either_silent; [done|done|]. intros t. by apply either_ret.
Qed.

Lemma triple_wait_backoff {B} k d (p : bool → prog State B) Q :
  (∀ b, triple (holds k) (p b) Q) → triple (holds k) (wait_backoff d ≫= p) Q.
Proof.
  intros Hp. eapply (triple_bind _ _ (λ _, holds k)); [|exact Hp]. unfold wait_backoff.
  eapply triple_bind;
    [apply (triple_silent (holds k) (λ x, (w_wait_backoff d x, ()))); auto with gateway|].
  intros ?. apply triple_reading. intros b. by apply triple_ret.
Qed.

Lemma triple_rebootstrap k g :
  k_locked k = false → k_active k = None → k_quiet k = true → k_closed k = true →
  k_next k = g → k_count k = g → k_attempts k = None →
  triple (holds k) (rebootstrap g) (either (ends_or concluded) (troubled false)).
Proof.
  intros Hkl Hka Hkq Hkc Hkn Hkcount Hkt. unfold rebootstrap.
  eapply triple_throw; [by apply triple_observe|]. intros o.
  apply triple_wait_backoff. intros waited.
  destruct (negb waited); [apply triple_ret; intros s _ _; by apply ends_none|].
  eapply triple_bind; [apply triple_recovering|].
  intros []; [apply triple_ret; intros s _ _; by apply ends_none|].
  eapply triple_throw; [by apply triple_reset_section|].
  intros [answer|]; [|apply triple_ret; intros s _ _; by apply ends_none].
  unfold ends_or at 1. destruct answer; cbn [reset_known fmap option_fmap option_map];
    try (by apply triple_terminal_return).
  apply either_ret. intros s _ Hh. unfold ends_or. cbn [concluded].
  destruct k. simpl in *. subst. exact Hh.
Qed.

Lemma triple_recover k g t r :
  k_locked k = false → k_active k = None → k_backoff k = false → k_quiet k = true →
  k_next k = g → k_count k = g → k_attempts k = None → k_running k = false →
  triple (holds k) (recover g t r) (either (ends_or concluded) (troubled false)).
Proof.
  intros Hkl Hka Hkb Hkq Hkn Hkc Hkt Hkr. unfold recover.
  eapply triple_bind; [apply triple_record_failure|]. intros ?.
  destruct (negb _).
  - eapply triple_throw; [by apply triple_close|]. intros ?.
    by apply triple_terminal_return.
  - eapply triple_throw.
    { unfold commit_backoff. apply triple_with_lock; [done|]. by apply triple_commit_section. }
    intros [c|].
    + unfold ends_or at 1. cbn [committed fmap option_fmap option_map].
      apply triple_ret. intros s _ Hh. by destruct c.
    + unfold ends_or at 1. cbn [committed fmap option_fmap option_map].
      by apply triple_rebootstrap.
Qed.

Lemma triple_reflect k t r lk :
  lk = k_locked k → k_locked k = false →
  triple (holds k) (reflect_terminal_error t r)
    (either (ends_or (λ x : LoopControl + RuntimeObservation,
                        match x with inl c => concluded c | inr _ => Some k end)) (troubled lk)).
Proof.
  intros -> Hkl. unfold reflect_terminal_error. destruct (_ && _); [|by apply either_ret].
  eapply either_silent; [done|done|]. intros admitted. case_bool_decide.
  - eapply either_silent; [done|done|]. intros final. by apply either_ret.
  - eapply triple_throw; [by apply triple_close|]. intros ?. by apply triple_terminal_return.
Qed.

Lemma triple_settle k a due :
  k_locked k = false → k_active k = Some a → k_backoff k = false →
  k_count k = k_next k → k_attempts k = None → k_running k = false →
  triple (holds k) (settle_generation (k_next k) a due) (either (ends_or concluded) (troubled false)).
Proof.
  intros Hkl Hka Hkb Hkc Hkt Hkr. unfold settle_generation.
  eapply triple_throw; [by apply triple_quiesce|]. intros t.
  apply triple_shutdown_seen. intros [].
  - eapply triple_throw; [by apply triple_close|]. intros ?.
    apply triple_ret. intros s _ _. by apply ends_none.
  - eapply either_silent; [done|done|]. intros r.
    eapply triple_throw; [by apply triple_reflect|]. intros [c|r'].
    + apply triple_ret. intros s _ Hh. exact Hh.
    + unfold ends_or at 1. destruct (due && _).
      * by apply triple_planned_reset.
      * by apply triple_recover.
Qed.

(** ** The loop *)

Lemma triple_iteration g :
  triple (holds (next_knowledge g)) (coordinator_iteration g)
    (either (ends_or concluded) (troubled false)).
Proof.
  unfold coordinator_iteration. apply triple_shutdown_seen.
  intros []; [apply triple_ret; intros s _ _; by apply ends_none|].
  eapply triple_throw; [by apply (triple_create (next_knowledge g))|].
  intros [a|]; [|by apply triple_terminal_return].
  set (k := next_knowledge g <| k_quiet := false |> <| k_phase := Some PhCreated |>
                             <| k_active := Some a |>).
  assert (Hend : triple (holds k) (end_with_shutdown a) (either (ends_or concluded) (troubled false))).
  { eapply triple_conseq; [by apply (triple_end k a false)|done|]. intros [c|] s _ Hc; [|exact Hc].
    simpl in Hc. by subst. }
  apply triple_shutdown_seen. intros []; [exact Hend|].
  eapply triple_throw; [by apply triple_timing|]. intros timing.
  eapply triple_bind; [by apply triple_same|]. intros ?.
  eapply triple_throw; [by apply triple_start|]. intros started_as.
  apply triple_shutdown_seen. intros []; [exact Hend|].
  set (k1 := k <| k_closed := false |> <| k_phase := None |>).
  eapply (triple_throw _ _ (ends_or (watched k1))).
  - case_bool_decide.
    + by apply (triple_watch k).
    + apply triple_ret. intros s _ Hh. by apply holds_open in Hh.
  - intros [c|due].
    + apply triple_ret. intros s _ Hh. unfold ends_or in *. exact Hh.
    + unfold ends_or at 1. cbn [watched]. by apply (triple_settle k1).
Qed.

(** The handlers of the loop. *)
Lemma triple_close_after_exception :
  triple (troubled false) close_source_after_exception (λ _, troubled false).
Proof.
  apply triple_troubled. intros k Hkl. unfold close_source_after_exception.
  assert (Hclose : ∀ lk, lk = false → ∀ k', k_locked k' = lk →
    triple (holds k') (_ ← close_source_generation ClosePermanentFailure; mret ())
           (λ _, troubled false)).
  { intros ? -> k' Hk'. eapply triple_bind; [by apply triple_close|].
    intros [r|]; apply triple_ret; intros s _ Hh; [|exact Hh].
    exists (k' <| k_closed := true |>). by destruct k'. }
  apply triple_reading. intros [g|];
    [|apply triple_ret; intros s _ Hh; rewrite <- Hkl; by apply holds_troubled].
  apply triple_reading. intros quiesced.
  eapply (triple_bind _ _ (λ _, troubled false)).
  - destruct quiesced; [apply triple_ret; intros s _ Hh; rewrite <- Hkl; by apply holds_troubled|].
    eapply (triple_bind _ _ (λ a s, holds k s ∧ a = k_active k)).
    { apply triple_read; [auto with gateway|]. intros s _ Hh. split; [done|by destruct Hh]. }
    intros [a|].
    + intros s Hi [Hh Ha]. revert s Hi Hh.
      change (triple (holds k) (r ← quiesce_attempt a;
               mret match r with Returned _ => true | Threw => false end) (λ _, troubled false)).
      eapply triple_bind; [by apply triple_quiesce|].
      intros [t|]; apply triple_ret; intros s _ Hh; [|exact Hh].
      apply holds_troubled in Hh. revert Hh. cbn. by rewrite Hkl.
    + apply triple_ret. intros s _ [Hh _]. rewrite <- Hkl. by apply holds_troubled.
  - intros []; [|by apply triple_ret].
    apply triple_troubled. intros k' Hk'. by apply (Hclose false).
Qed.

(** What an iteration leaves to the next one. *)
Definition step_post (r : option Z) s : Prop :=
  match r with Some g => holds (next_knowledge g) s | None => True end.

Lemma triple_step g : triple (holds (next_knowledge g)) (coordinator_step g) step_post.
Proof.
  unfold coordinator_step. eapply triple_bind; [apply triple_iteration|].
  intros [c|].
  - destruct c; apply triple_ret; intros s _ Hh; [done|done|exact Hh].
  - eapply (triple_bind _ _ (λ _, troubled false)).
    { apply triple_read; [apply stable_troubled|]. intros s _ Hh. exact Hh. }
    intros ?. eapply triple_bind; [apply triple_close_after_exception|]. intros ?.
    apply triple_troubled. intros k Hkl.
    eapply triple_bind; [by apply triple_set_terminal|]. intros ?. by apply triple_ret.
Qed.

(** ** After the join *)

(** Every section keeps the invariant, whatever happens in between. *)
Definition running_inv s : Prop := recovery_inv s ∧ started s = true.

Definition sections {A} (p : prog State A) : Prop :=
  ∀ s, running_inv s → safe running_inv (λ _ _, True) p (λ _, running_inv) s.

Lemma sections_ret {A} (a : A) : sections (mret a).
Proof. intros s Hs. exact Hs. Qed.

Lemma sections_bind {A B} (p : prog State A) (q : A → prog State B) :
  sections p → (∀ a, sections (q a)) → sections (p ≫= q).
Proof. intros Hp Hq s Hs. eapply safe_bind; [by apply Hp|]. intros a s' Hs'. by apply Hq. Qed.

Lemma sections_throw {A B} (p : prog State (outcome A)) (q : A → prog State (outcome B)) :
  sections p → (∀ a, sections (q a)) → sections (bind_throw p q).
Proof. intros Hp Hq. apply sections_bind; [done|]. intros [a|]; [apply Hq|apply sections_ret]. Qed.

Lemma sections_atomically {A} (f : State → State * A) :
  (∀ s, running_inv s → running_inv (fst (f s))) → sections (atomically f).
Proof. intros Hf s Hs s' _ Hs'. by split; apply Hf. Qed.

Lemma sections_modify (f : State → State) :
  (∀ s, running_inv s → running_inv (f s)) → sections (modify f).
Proof. intros Hf s Hs s' _ Hs'. by split; apply Hf. Qed.

Lemma sections_silent {A} (f : X → X * A) : sections (call (silent f)).
Proof.
  apply sections_atomically. intros s [Hi Hst]. split; [|done].
  by apply world_inv.
Qed.

Lemma sections_observation (f : RecoveryObservation → RecoveryObservation) :
  (∀ o, reports o → reports (f o)) →
  (∀ o, ro_state (f o) = ro_state o ∨ ro_state (f o) = RyStopped) →
  sections (modify (λ s, s <| observation ::= f |>)).
Proof.
  intros Hr Hst. apply sections_modify. intros s [Hi Hs]. split; [|done].
  pose proof Hi as [_ Hre Hsd _ _]. apply inv_observation; [done|done|by apply Hr|].
  intros Hsd'. specialize (Hsd Hsd'). unfold winding_down in *. simpl.
  destruct (Hst (observation s)) as [-> | ->]; auto.
Qed.

Lemma reports_quiet_change o o' :
  reports o → same_status o o' → ro_active_transport_count o' ≤ 1 →
  ro_max_active_transport_count o' = ro_max_active_transport_count o →
  ro_failure_history o' = ro_failure_history o →
  ro_failure_history_size o' = ro_failure_history_size o → reports o'.
Proof.
  intros Hr Hsame Ha Hm Hh Hs. eapply reports_same; [done|done|].
  destruct Hr as [_ [_ Hmax] [? ?] _ _ _]. unfold within_bounds. rewrite Hm, Hh, Hs. by split_all.
Qed.

Lemma sections_persist t : sections (modify (persist_event t)).
Proof.
  unfold persist_event. destruct (to_last_event_utc_ns t) as [ns|];
    [|by apply sections_modify].
  apply sections_observation; [|by left]. intros o Hr.
  eapply reports_quiet_change; [done|done| |done..]. by destruct Hr as [_ [? _] _ _ _ _].
Qed.

Lemma sections_stop_attempt a : sections (modify (stop_seen_attempt a)).
Proof.
  apply sections_modify. intros s [[(p & Hf) Hr Hs Ht Hu] Hst]. split; [|done].
  destruct Hf as [Hm Hso Hcl Hcf Ha].
  destruct (monitor_stops [CallStop a] _ p Hm) as (p' & Hm' & Hs' & _ & Htr & _).
  { constructor; [by eexists|done]. }
  split; [|done..]. exists p'. split; [done|by rewrite Hs'|done|done|].
  intros b Hb. rewrite Htr. by apply Ha.
Qed.

Lemma sections_take : sections (atomically take_attempt).
Proof.
  apply sections_atomically. intros s [[(p & Hf) Hr Hs Ht Hu] Hst]. split; [|done].
  split; [|done..]. exists p. destruct Hf. by split.
Qed.

Lemma sections_no_transport : sections (modify no_active_transport).
Proof.
  apply sections_observation; [|by left]. intros o Hr.
  eapply reports_quiet_change; [done|done|simpl; lia|done..].
Qed.

Lemma sections_retire t : sections (modify (retire_attempt t)).
Proof.
  apply sections_observation; [|by left]. intros o Hr.
  eapply reports_quiet_change; [done|done|simpl; lia|done..].
Qed.

Lemma sections_stop_joined : sections stop_joined.
Proof.
  unfold stop_joined. apply sections_bind; [apply sections_take|]. intros final.
  apply sections_throw.
  { destruct final as [a|]; [|apply sections_ret].
    apply sections_bind; [apply sections_stop_attempt|intros ?].
    apply sections_throw; [apply sections_silent|intros t].
    apply sections_bind; [apply sections_persist|intros ?]. apply sections_ret. }
  intros ?. apply sections_bind.
  { apply sections_modify. intros s [Hi Hs]. split; [|done].
    exact (world_inv (w_runtime_stop (inner (world s))) _ Hi). }
  intros ?. apply sections_bind; [|intros ?; apply sections_ret].
  apply sections_modify. intros s [Hi Hs]. split; [|done].
  pose proof Hi as [(p & Hf) [Ha Ht Hh Hb Hd Hte] Hsd Htk Hu]. split; [|split|..]; simpl; try done.
  - exists p. by eapply follows_frame.
  - destruct Ht. split; lia.
  - auto.
  - intros _. right. by right.
  - congruence.
Qed.

Lemma sections_quiesce_joined retained : sections (quiesce_joined retained).
Proof.
  unfold quiesce_joined. apply sections_bind; [apply sections_take|]. intros final.
  destruct (_ && _).
  - destruct final as [a|]; [|apply sections_ret].
    apply sections_bind; [apply sections_stop_attempt|intros ?].
    apply sections_throw; [apply sections_silent|intros t].
    apply sections_bind; [apply sections_persist|intros ?].
    apply sections_bind; [apply sections_no_transport|intros ?]. apply sections_ret.
  - destruct retained as [a|]; [|apply sections_ret].
    apply sections_throw; [apply sections_silent|intros t].
    apply sections_bind; [apply sections_persist|intros ?].
    apply sections_bind; [apply sections_retire|intros ?].
    apply sections_throw; [apply sections_silent|intros r]. apply sections_ret.
Qed.

(** ** Every reachable state *)

(** Before [start]: everything is as constructed. *)
Definition unstarted s : Prop :=
  started s = false → stopped s = false →
  shutdown_requested s = false ∧ holds (next_knowledge 1) (s <| started := true |>).

Definition thread_ok s (t : CoordinatorThread) : Prop :=
  match t with
  | CoordinatorNone => unstarted s
  | CoordinatorRunning p => safe recovery_inv rely p (λ r s', recovery_inv s' ∧ step_post r s') s
  | CoordinatorExited => True
  | CoordinatorJoined p =>
      started s = true ∧ safe running_inv (λ _ _, True) p (λ _, running_inv) s
  end.

Lemma safe_env {A} (p : prog State A) Q s s' :
  (∀ a s1 s2, recovery_inv s1 → recovery_inv s2 → Q a s1 → rely s1 s2 → Q a s2) →
  recovery_inv s → recovery_inv s' → rely s s' →
  safe recovery_inv rely p Q s → safe recovery_inv rely p Q s'.
Proof.
  intros HQ Hi Hi' Hr. destruct p as [a|f k]; simpl.
  - intros Hs. exact (HQ a s s' Hi Hi' Hs Hr).
  - intros Hs s2 Hr2 Hi2. apply Hs; [by etrans|done].
Qed.

Lemma step_post_stable a s1 s2 :
  recovery_inv s1 → recovery_inv s2 → recovery_inv s1 ∧ step_post a s1 → rely s1 s2 →
  recovery_inv s2 ∧ step_post a s2.
Proof.
  intros Hi1 Hi2 [_ Hp] Hr. split; [done|]. destruct a; [|done].
  exact (holds_rely _ _ _ Hi1 Hp Hr).
Qed.

Lemma inv_started b s :
  recovery_inv s → started s = false → recovery_inv (s <| started := b |>).
Proof.
  intros [(p & Hf) Hr Hs Ht Hu] Hst. split; [|done|done|done|].
  - exists p. by eapply follows_frame.
  - intros _. by apply Hu.
Qed.

Lemma other_step_started s s' : other_step s s' → started s' = started s.
Proof.
  intros Hstep. destruct Hstep as [s Hl|s Hl|s Hsd|a s Hsd|x s]; try done.
  - rewrite stop_begin_eq. by repeat case_match.
  - by destruct (quiesce_begin_eq s) as [-> | ->].
Qed.

(** The other threads before [start]. *)
Lemma other_step_unstarted s s' :
  other_step s s' → recovery_inv s → unstarted s → unstarted s'.
Proof.
  intros Hstep Hi Hu Hst Hsp. pose proof (other_step_started _ _ Hstep) as E.
  rewrite Hst in E. symmetry in E. destruct Hstep as [s Hl|s Hl|s Hsd|a s Hsd|x s Hx].
  - rewrite stop_begin_eq in *. destruct (stopped s) eqn:Es; [cbn [fst] in *; congruence|].
    rewrite E in Hsp. discriminate Hsp.
  - unfold quiesce_begin in *. rewrite E in *. cbn [negb orb fst] in *. by apply Hu.
  - simpl in Hsp. destruct (Hu E Hsp) as [Hf _]. congruence.
  - simpl in Hsp. destruct (Hu E Hsp) as [Hf _]. congruence.
  - destruct (Hu E Hsp) as [Hsd Hh]. split; [exact Hsd|].
    pose proof (inv_started true _ Hi E) as Hi1.
    pose proof (holds_rely _ _ _ Hi1 Hh (world_rely x _)) as Hh1. exact Hh1.
Qed.

(** [start] *)
Lemma start_failed_inv s :
  recovery_inv s → started s = true → shutdown_requested s = false →
  ro_in_backoff (observation s) = false → recovery_inv (start_failed s).
Proof.
  intros Hi Hst Hsd Hb. pose proof Hi as [_ [Ha Ht Hh Hbo Hd Hte] _ _ _].
  apply inv_observation; [done|done| |].
  - split; simpl; try done; [congruence|auto].
  - congruence.
Qed.

Lemma start_ok s s' r :
  run start s = (s', r) → recovery_inv s → unstarted s →
  recovery_inv s' ∧
  match r with
  | RtStarted => holds (next_knowledge 1) s' ∧ started s' = true
  | _ => unstarted s'
  end.
Proof.
  unfold start. run_step. unfold start_begin.
  destruct (stopped s) eqn:Hsp; cbn [fst snd]; [by intros [= <- <-]|].
  destruct (started s) eqn:Hst; cbn [fst snd]; [by intros [= <- <-]|].
  intros Hrun Hi Hu. destruct (Hu Hst Hsp) as [Hsd Hh].
  destruct (active_commit _ RyStarting _ (inv_started true _ Hi Hst) Hh eq_refl Hsd ltac:(done))
    as [Hi1 Hh1].
  set (s1 := set_state RyStarting (s <| started := true |>)) in *.
  revert Hrun. unfold call. run_step. cbn [w_runtime_start traced_world]. unfold silent.
  cbn [fst snd]. destruct (w_runtime_start (inner (world s1))) as [x answer]. cbn [fst snd].
  pose proof (world_inv x _ Hi1) as Hi2.
  pose proof (holds_rely _ _ _ Hi1 Hh1 (world_rely x _)) as Hh2.
  pose proof (not_in_backoff _ _ Hi2 Hh2 eq_refl) as Hb2.
  destruct answer; run_step; intros [= <- <-]; [by split_all| |];
    (split; [by apply start_failed_inv|done]).
Qed.

(** ** The theorems *)

Definition system_ok (w : State * CoordinatorThread) : Prop :=
  recovery_inv (fst w) ∧ thread_ok (fst w) (snd w).

Lemma reports_initial : reports initial_recovery_observation.
Proof.
  split; simpl; try done.
  - unfold kMaximumRecoveryAttempts. lia.
  - lia.
  - unfold kRecoveryFailureHistoryCapacity, kMaximumRecoveryAttempts. lia.
Qed.

Lemma recovery_start_ok w : recovery_start w → system_ok w.
Proof.
  destruct w as [s t]. intros (planned & configured & x & Hmake & Ht).
  cbn [fst snd] in *. subst t.
  revert Hmake. unfold make. cbn [negb]. destruct (match planned with Some _ => _ | None => _ end); [done|].
  assert (Hcount : ∀ b : bool,
    negb (bool_decide (Nat.b2n b + Nat.b2n b + Nat.b2n b = 0))
    && negb (bool_decide (Nat.b2n b + Nat.b2n b + Nat.b2n b = 3)) = false) by by intros [].
  rewrite Hcount. cbn [negb]. intros [= <-].
  assert (Hf : ∀ p, follows p (MkCoordinator (MkTraced x []) planned
      (bool_decide (Nat.b2n configured + Nat.b2n configured + Nat.b2n configured = 3)) None false
      initial_recovery_observation false false false false None false) →
      p = MkProtocol None None 1 PhFresh) by (intros p [Hm _ _ _ _]; by injection Hm).
  split.
  - split; try done; [|exact reports_initial].
    exists (MkProtocol None None 1 PhFresh). by split.
  - intros _ _. split; [done|]. split; try done.
    intros p Hp. rewrite (Hf p); [|by destruct Hp; split].
    split_all; [done|done|]. by intros ph [= <-].
Qed.

Lemma recovery_step_ok w w' : recovery_step w w' → system_ok w → system_ok w'.
Proof.
  intros Hstep [Hi Ht].
  destruct Hstep as [s s' r Hrun|s s' t Ho|s f k|s g|s|s t Hx Hst Hsd|s retained Hst Hsd|s f k|s u];
    cbn [fst snd thread_ok] in *.
  - destruct (start_ok _ _ _ Hrun Hi Ht) as [Hi' Hr]. split; [done|].
    destruct r; try done. destruct Hr as [Hh Hst]. by apply triple_step.
  - pose proof (other_step_inv _ _ Ho Hi) as Hi'. split; [done|].
    pose proof (other_step_started _ _ Ho) as E.
    destruct t as [|p| |p]; cbn [thread_ok snd fst] in *.
    + by eapply other_step_unstarted.
    + eapply safe_env; [apply step_post_stable|exact Hi|done|by apply other_step_rely|done].
    + done.
    + destruct Ht as [Hst Hs]. split; [congruence|]. destruct p; [|exact Hs].
      split; [done|congruence].
  - destruct (Ht s ltac:(done) Hi) as [Hi' Hk]. by split.
  - destruct Ht as [_ Hh]. split; [done|]. by apply triple_step.
  - done.
  - split; [done|]. split; [done|]. apply sections_bind; [apply sections_stop_joined| |done].
    intros ?. apply sections_ret.
  - split; [done|]. split; [done|]. apply sections_bind; [apply sections_quiesce_joined| |done].
    intros ?. apply sections_ret.
  - destruct Ht as [Hst Hs]. destruct (Hs s I ltac:(done)) as [[Hi' Hst'] Hk]. by split.
  - done.
Qed.

Lemma recovery_reachable_ok w0 w : recovery_start w0 → star recovery_step w0 w → system_ok w.
Proof.
  intros H0 Hstar. eapply (star_invariant recovery_step system_ok); [|exact Hstar|].
  - intros w1 w2 H1 Hstep. by eapply recovery_step_ok.
  - by apply recovery_start_ok.
Qed.

(** C11: In every interleaving of the coordinator with [stop], [quiesce_for_acceptance]
    and any activity of its collaborators, its calls follow the protocol of [monitor]:
    an attempt is created only when the previous transport has been stopped and its
    source generation closed, a generation is opened, quiesced (after its transport
    stopped) and closed in this order, the projection is reset only between two
    attempts, and each reset advances the generation by exactly one. *)
Theorem recovery_follows_the_source_protocol w0 w :
  recovery_start w0 → star recovery_step w0 w →
  ∃ p, monitor (trace (world (fst w))) = Some p ∧
       p_source p = source_of (fst w) ∧
       (∀ a, active_attempt (fst w) = Some a → fst <$> p_transport p = Some a).
Proof.
  intros H0 Hstar. destruct (recovery_reachable_ok _ _ H0 Hstar) as [[(p & Hf) _ _ _ _] _].
  exists p. destruct Hf. by split_all.
Qed.

(** At every moment the coordinator reports at most six consecutive recovery
    attempts, at most one active transport, at most seven retained failures; a backoff
    is reported only in the state Backoff, with a delay of at least the normal delay of
    its attempt; and a terminal report is Exhausted, Stopping or Stopped. *)
Theorem recovery_reports_are_bounded w0 w :
  recovery_start w0 → star recovery_step w0 w → reports (observation (fst w)).
Proof. intros H0 Hstar. by destruct (recovery_reachable_ok _ _ H0 Hstar) as [[] _]. Qed.

(** C13: Once a shutdown has been requested the coordinator never again reports that it
    is starting, live, rotating, backing off or recovering: whatever section its thread
    was about to run, the state stays Stopping, Stopped or Exhausted. *)
Theorem recovery_shutdown_wins w0 w :
  recovery_start w0 → star recovery_step w0 w →
  shutdown_requested (fst w) = true → winding_down (fst w).
Proof. intros H0 Hstar. by destruct (recovery_reachable_ok _ _ H0 Hstar) as [[] _]. Qed.

(** At the start of every iteration the generation is one more than the resets the
    coordinator has counted (recoveries and planned rotations together), the previous
    transport is stopped and no source generation is open. *)
Theorem generation_counts_the_resets w0 s g :
  recovery_start w0 → star recovery_step w0 (s, CoordinatorRunning (Done (Some g))) →
  g = counted s ∧ active_attempt s = None ∧ source_generation_open s = None ∧
  ∃ p, monitor (trace (world s)) = Some p ∧ quiet p = true ∧ p_next p = g.
Proof.
  intros H0 Hstar. destruct (recovery_reachable_ok _ _ H0 Hstar) as [[(p & Hf) _ _ _ _] [_ Hh]].
  cbn [fst] in *. destruct (ho_quiet _ _ Hh p Hf) as (Hq & Hn & _).
  pose proof (ho_count _ _ Hh) as Hc. pose proof (ho_active _ _ Hh) as Ha.
  pose proof (ho_closed _ _ Hh eq_refl) as Hcl.
  split_all; [done..|]. exists p. destruct Hf. split_all; [done|by apply Hq|done].
Qed.
End Protocol.

(** ** A concrete world *)

(** Generation 1 becomes live and loses the sequence; every later attempt fails to
    start with an HTTP 503. *)
Module SampleWorld.

Record Env : Type := MkEnv {
  created : Z;
  alive : bool
}.

Definition runtime_report (st : RuntimeState) : RuntimeObservation (L := SampleProjection.library) :=
  MkRuntimeObservation st (if bool_decide (st = RsLive) then Synchronized else PsNeedsResync)
    None None None None None None None 0 0 0 0 0 0 0 0 0 0 None 0 0 true false false.

Definition unavailable : NetworkError :=
  MkNetworkError NeHttpStatus "rest" "status 503" (Some 503%Z) None.

Definition transport_report (e : Env) : TransportObservation :=
  let ok := (created e =? 1)%Z in
  MkTransportObservation ok (ok && alive e) (negb (alive e)) ok ok ok false false 0 0 0 None
    DepthOnly "spot-1" (created e) (if ok then None else Some unavailable).

Definition still {A} (a : A) (e : Env) : Env * A := (e, a).

#[export] Instance world : RecoveryWorld (L := SampleProjection.library) Env := {|
  w_clock := still (Returned (MkClockSample 1 1));
  w_runtime_start := still SrStarted;
  w_runtime_stop := id;
  w_runtime_observe := λ e,
    (e, Returned (runtime_report (if alive e && (created e =? 1)%Z then RsLive else RsNeedsResync)));
  w_wait_until_live_or_recovery_required := λ e,
    (e, Returned (Some (runtime_report (if (created e =? 1)%Z then RsLive else RsNeedsResync))));
  w_wait_until_recovery_required := still (Returned (Some (runtime_report RsNeedsResync)));
  w_wait_until_recovery_required_for := λ _, still (Returned TwRecoveryRequired);
  w_submit_transport_failure := still (Returned ArAccepted);
  w_reset_for_rebootstrap := still (Returned RrReset);
  w_reset_live_for_planned_rebootstrap := still (Returned PrReset);
  w_attempt_factory := λ g e, (MkEnv g true, Returned (Some g));
  w_attempt_start := λ a, still (Returned (if (a =? 1)%Z then TsStarted else TsFailed));
  w_attempt_stop := λ _ e, MkEnv (created e) false;
  w_attempt_observe := λ _ e, (e, Returned (transport_report e));
  w_lifecycle_open := λ _, still (Returned true);
  w_lifecycle_quiesce := λ _, still (Returned true);
  w_lifecycle_close := λ _ _, still (Returned true);
  w_wait_backoff := λ _ e, e;
  w_copies := still true;
  w_what := λ _, "exception"
|}.

Definition constructed : Coordinator (L := SampleProjection.library) (X := Traced Env) :=
  MkCoordinator (MkTraced (MkEnv 0 false) []) None true None false
    initial_recovery_observation false false false false None false.
End SampleWorld.

Section Sample.
#[local] Existing Instance SampleProjection.library.
#[local] Existing Instance SampleWorld.world.
Abbreviation State := (Coordinator (X := Traced SampleWorld.Env)).

Definition anything : SampleWorld.Env → SampleWorld.Env → Prop := λ _ _, True.

(** The thread running alone. *)
Lemma thread_runs_star (p : prog State (option Z)) (s : State) :
  star (recovery_step anything) (s, CoordinatorRunning p)
       (fst (run p s), CoordinatorRunning (Done (snd (run p s)))).
Proof.
  revert s. induction p as [a|f k IH]; intros s; [constructor|].
  eapply star_step; [apply step_thread|]. apply IH.
Qed.

Definition coordinator0 : State := SampleWorld.constructed.
Definition coordinator1 : State := fst (run start coordinator0).
Definition coordinator2 : State := fst (run (coordinator_step 1) coordinator1).
Definition coordinator3 : State := fst (stop_begin coordinator2).

Lemma coordinator0_start : recovery_start (coordinator0, CoordinatorNone).
Proof. by exists None, true, (SampleWorld.MkEnv 0 false). Qed.

Lemma coordinator2_reachable :
  star (recovery_step anything) (coordinator0, CoordinatorNone)
       (coordinator2, CoordinatorRunning (Done (Some 2%Z))).
Proof.
  eapply star_step.
  { apply (step_start _ coordinator0 coordinator1 RtStarted). vm_compute. reflexivity. }
  assert (Hr : snd (run (coordinator_step 1) coordinator1) = Some 2%Z)
    by (vm_compute; reflexivity).
  rewrite <- Hr. apply thread_runs_star.
Qed.

Lemma coordinator2_unlocked : locked coordinator2 = false.
Proof. vm_compute. reflexivity. Qed.

Lemma coordinator3_reachable :
  star (recovery_step anything) (coordinator0, CoordinatorNone)
       (coordinator3, CoordinatorRunning (Done (Some 2%Z))).
Proof.
  eapply star_trans; [exact coordinator2_reachable|]. apply star_one. apply step_other.
  unfold coordinator3. exact (other_stop _ coordinator2 coordinator2_unlocked).
Qed.

Lemma coordinator2_calls :
  trace (world coordinator2)
  = [CallReset true; CallClose 1 CloseReplacement true; CallQuiesce 1 true; CallStop 1;
     CallOpen 1 true; CallStart 1; CallCreate 1 (Some 1%Z)].
Proof. vm_compute. reflexivity. Qed.

Lemma coordinator3_stopping : shutdown_requested coordinator3 = true.
Proof. vm_compute. reflexivity. Qed.

Lemma recovery_follows_the_source_protocol_witness :
  ∃ s : State, length (trace (world s)) = 7 ∧ ∃ p, monitor (trace (world s)) = Some p.
Proof.
  exists coordinator2. split; [rewrite coordinator2_calls; reflexivity|].
  pose proof coordinator2_reachable as Hr. revert Hr. generalize coordinator2. intros s Hr.
  destruct (recovery_follows_the_source_protocol _ _ _ coordinator0_start Hr) as (p & Hp & _).
  exists p. exact Hp.
Defined.

(** The sample states are large terms: each witness first applies its theorem to a
    variable state. *)
Lemma recovery_reports_are_bounded_witness :
  ∃ s : State, reports (observation s).
Proof.
  assert (Hall : ∀ (s : State) t, star (recovery_step anything) (coordinator0, CoordinatorNone) (s, t) →
                 reports (observation s)).
  { intros s t Hr. exact (recovery_reports_are_bounded _ _ _ coordinator0_start Hr). }
  exists coordinator2. exact (Hall _ _ coordinator2_reachable).
Defined.

Lemma recovery_shutdown_wins_witness :
  ∃ s : State, shutdown_requested s = true ∧ winding_down s.
Proof.
  assert (Hall : ∀ (s : State) t, star (recovery_step anything) (coordinator0, CoordinatorNone) (s, t) →
                 shutdown_requested s = true → winding_down s).
  { intros s t Hr Hs. exact (recovery_shutdown_wins _ _ _ coordinator0_start Hr Hs). }
  exists coordinator3.
  exact (conj coordinator3_stopping (Hall _ _ coordinator3_reachable coordinator3_stopping)).
Defined.

Lemma generation_counts_the_resets_witness :
  ∃ s : State, 2%Z = counted s ∧ active_attempt s = None.
Proof.
  assert (Hall : ∀ (s : State) g,
    star (recovery_step anything) (coordinator0, CoordinatorNone) (s, CoordinatorRunning (Done (Some g))) →
    g = counted s ∧ active_attempt s = None).
  { intros s g Hr. destruct (generation_counts_the_resets _ _ _ _ coordinator0_start Hr)
      as (Hg & Ha & _). exact (conj Hg Ha). }
  exists coordinator2. exact (Hall _ _ coordinator2_reachable).
Defined.
End Sample.
