(* ===== verification/RecoveryBehaviour.v ===== *)
(** * RecoveryBehaviour: the recovery policy and its progress

    What the pure parts of the policy decide ([parse_retry_after],
    [classify_failure], the failure history), what the coordinator does with the
    decision, and that it does not retry for ever. *)

From S2P Require Import Prelude Ring Wire Text Session OrderBookPublication.
From S2P Require Import Programs Projection MarketRuntime Recovery RecoveryProtocol.
Import Coordination.

Open Scope gateway_scope.

(** ** Retry-After *)

(** A Retry-After value is understood exactly when it is a non-empty text of
    decimal digits denoting a number that fits a signed 64-bit count of seconds, and it
    then denotes that number. *)
Theorem retry_after_is_decimal_seconds (value : option string) (n : Z) :
  parse_retry_after value = Some n ↔
  ∃ text, value = Some text ∧ text ≠ "" ∧ all_chars is_digit text = true ∧
          n = decimal_value 0 text ∧ (n <= i64_max)%Z.
Proof.
  unfold parse_retry_after. destruct value as [text|]; [|by split; [|intros (? & ? & _)]].
  case_bool_decide as Hne; [by split; [|intros (? & [= <-] & ? & _)]|].
  destruct (parse_decimal u64_max text) as [v|] eqn:Hp.
  - apply parse_decimal_spec in Hp as (_ & Hd & -> & Hv). split.
    + destruct (Z.ltb_spec i64_max (decimal_value 0 text)); [done|].
      intros [= <-]. exists text. by split_all.
    + intros (? & [= <-] & _ & _ & -> & Hle).
      by destruct (Z.ltb_spec i64_max (decimal_value 0 text)); [lia|].
  - split; [done|]. intros (? & [= <-] & _ & Hd & -> & Hle).
    assert (Hs : parse_decimal u64_max text = Some (decimal_value 0 text)); [|congruence].
    apply parse_decimal_spec. unfold u64_max, i64_max in *. split_all; [done..|lia].
Qed.

(** A printed number of seconds is read back. *)
Lemma retry_after_round_trip (n : N) :
  (Z.of_N n <= i64_max)%Z → parse_retry_after (Some (pretty n)) = Some (Z.of_N n).
Proof.
  intros Hn. pose proof (parse_decimal_pretty i64_max n Hn) as Hp.
  apply parse_decimal_spec in Hp as (Hne & Hd & Hv & Hm).
  apply retry_after_is_decimal_seconds. eauto 10.
Qed.

Section Policy.
Context `{L : ProjectionLibrary}.
Implicit Types (r : RuntimeObservation) (t : TransportObservation).

(** ** Classification *)

(** The runtime's side: out of sync, stopped by a fault of the source, or unharmed
    while the transport itself has failed. *)
Definition transient_fault (f : FaultReason) : Prop :=
  f = TransportFailure ∨ f = SnapshotFailure ∨ f = IngressOverflow ∨ f = BootstrapBufferOverflow.

Definition runtime_allows r t : Prop :=
  obs_state r = RsNeedsResync ∨
  (obs_state r = RsFaulted ∧ ∃ f, obs_fault_reason r = Some f ∧ transient_fault f) ∨
  (obs_state r ≠ RsNeedsResync ∧ (obs_state r = RsFaulted → obs_fault_reason r = None) ∧
   is_Some (to_terminal_error t)).

(** The transport's side. *)
Definition http_allows (e : NetworkError) : Prop :=
  ∃ status, ne_http_status e = Some status ∧
    ((status = 429%Z ∨ status = 418%Z) ∧ is_Some (parse_retry_after (ne_retry_after e)) ∨
     (500 <= status <= 599)%Z).

Definition transport_allows t : Prop :=
  ∀ e, to_terminal_error t = Some e →
       ne_code e ≠ NeInternal ∧ (ne_code e = NeHttpStatus → http_allows e).

Lemma classify_runtime_allows r t :
  (∃ d, classify_runtime r t = inl d ∧ recoverable d = true ∧ minimum_delay d = None ∧
        runtime_allows r t) ∨
  (classify_runtime r t = inr default_decision ∧ ¬ runtime_allows r t).
Proof.
  unfold classify_runtime, runtime_allows, transient_fault.
  case_bool_decide as Hn; [left; eexists; by split_all; [| | |left]|].
  case_bool_decide as Hf.
  - destruct (obs_fault_reason r) as [f|] eqn:Er.
    + destruct f; first [left; eexists; by split_all; [| | |right; left; eauto 10]
                        |right; split; [done|]; intros [?|[(_ & f & [= <-] & Hf')|(_ & H & _)]];
                         [done|by destruct Hf' as [|[|[]]]|by specialize (H Hf)]].
    + case_bool_decide as Ht.
      * left. eexists. by split_all; [| | |right; right].
      * right. split; [done|]. by intros [?|[(_ & f & ? & _)|(_ & _ & ?)]].
  - case_bool_decide as Ht.
    + left. eexists. by split_all; [| | |right; right].
    + right. split; [done|]. by intros [?|[(? & _)|(_ & _ & ?)]].
Qed.

Lemma classify_http_allows e d :
  recoverable d = true →
  recoverable (classify_http e d) = true ↔ http_allows e.
Proof.
  intros Hd. unfold classify_http, http_allows.
  destruct (ne_http_status e) as [status|]; [|by split; [|intros (? & ? & _)]].
  destruct (_ || _) eqn:Hrate.
  - apply orb_true_iff in Hrate. rewrite !Z.eqb_eq in Hrate.
    destruct (parse_retry_after (ne_retry_after e)) as [n|]; split; try done.
    + intros _. exists status. split; [done|]. left. split; [done|by eexists].
    + intros (s & [= <-] & [[_ [? ?]]|?]); [done|lia].
  - apply orb_false_iff in Hrate. rewrite !Z.eqb_neq in Hrate.
    destruct ((500 <=? status)%Z && (status <=? 599)%Z) eqn:H5.
    + simpl. split; [|done]. intros _. exists status. split; [done|]. right. lia.
    + split.
      * by destruct ((400 <=? status)%Z && (status <=? 499)%Z).
      * intros (s & [= <-] & [[[-> | ->] _]|?]); [lia..|]. lia.
Qed.

(** A failure is retried exactly when both sides allow it: the runtime is out of
    sync, faulted by its source or unharmed, and the transport's terminal error, when
    there is one, is neither internal nor an HTTP status other than 5xx or a 429 or 418
    with a Retry-After that can be read. *)
Theorem failure_is_recoverable_iff r t :
  recoverable (classify_failure r t) = true ↔ runtime_allows r t ∧ transport_allows t.
Proof.
  unfold classify_failure, transport_allows.
  destruct (classify_runtime_allows r t) as [(d & -> & Hd & _ & Hr)|[-> Hr]];
    [|by split; [|intros [? _]]].
  destruct (to_terminal_error t) as [e|]; [|by split; [intros _; split|]].
  split.
  - intros Hrec. split; [done|]. intros e' [= <-].
    destruct (ne_code e) eqn:Hc; split; try done. intros _.
    apply (classify_http_allows e d Hd). exact Hrec.
  - intros [_ Ha]. destruct (Ha e eq_refl) as [Hni Hh].
    destruct (ne_code e) eqn:Hc; try done. apply (classify_http_allows e d Hd); auto.
Qed.
End Policy.

(** ** The failure history *)

Section History.
Context `{L : ProjectionLibrary}.

(** The retained cuts, oldest first. *)
Definition retained (o : RecoveryObservation) : list RecoveryFailureDiagnostic :=
  take (ro_failure_history_size o) (ro_failure_history o).

Definition history_ok (o : RecoveryObservation) : Prop :=
  length (ro_failure_history o) = kRecoveryFailureHistoryCapacity ∧
  ro_failure_history_size o ≤ kRecoveryFailureHistoryCapacity.

(** The last [n] elements of a list. *)
Definition last_n {A} (n : nat) (l : list A) : list A := drop (length l - n) l.

Lemma last_n_snoc {A} n (l : list A) x :
  last_n (S n) (l ++ [x]) = last_n n l ++ [x].
Proof.
  unfold last_n. rewrite length_app. simpl.
  replace (length l + 1 - S n) with (length l - n) by lia.
  apply drop_app_le. lia.
Qed.

Lemma last_n_all {A} n (l : list A) : length l ≤ n → last_n n l = l.
Proof. intros. unfold last_n. by replace (length l - n) with 0 by lia. Qed.

(** One more cut. *)
Lemma record_diagnostic_retained d o :
  history_ok o →
  history_ok (record_diagnostic d o) ∧
  retained (record_diagnostic d o) = last_n kRecoveryFailureHistoryCapacity (retained o ++ [d]).
Proof.
  intros [Hl Hs]. unfold record_diagnostic, retained, history_ok.
  unfold kRecoveryFailureHistoryCapacity, kMaximumRecoveryAttempts in *.
  case_bool_decide as Hfull; cbn [ro_failure_history ro_failure_history_size update];
    revert Hl Hs Hfull; generalize (ro_failure_history_size o) (ro_failure_history o);
    intros n h Hl Hs Hfull.
  - destruct h as [|x h]; [done|]. cbn [tail]. simpl in Hl, Hfull.
    assert (Hlen : length (h ++ [d]) = 7) by (rewrite length_app; simpl; lia).
    split; [lia|]. rewrite !take_ge by (simpl in *; lia).
    change (6 + 1) with (S 6). rewrite last_n_snoc. unfold last_n.
    replace (length (x :: h) - 6) with 1 by (simpl; lia). done.
  - split; [rewrite length_insert; lia|].
    rewrite last_n_all by (rewrite length_app, length_take; simpl; lia).
    rewrite Nat.add_1_r. erewrite take_S_r by (apply list_lookup_insert_eq; lia).
    by rewrite take_insert_ge by lia.
Qed.

(** After any sequence of recorded failures the coordinator retains exactly the
    most recent seven, oldest first. *)
Theorem history_keeps_the_last_seven (ds : list RecoveryFailureDiagnostic) :
  retained (foldl (λ o d, record_diagnostic d o) initial_recovery_observation ds)
  = last_n kRecoveryFailureHistoryCapacity ds.
Proof.
  enough (H : history_ok (foldl (λ o d, record_diagnostic d o) initial_recovery_observation ds) ∧
              retained (foldl (λ o d, record_diagnostic d o) initial_recovery_observation ds)
              = last_n kRecoveryFailureHistoryCapacity ds) by apply H.
  induction ds as [|d ds [IHok IH]] using rev_ind.
  - split; [split; simpl; unfold kRecoveryFailureHistoryCapacity, kMaximumRecoveryAttempts; lia|].
    done.
  - rewrite foldl_snoc. destruct (record_diagnostic_retained d _ IHok) as [Hok Hr].
    split; [exact Hok|]. rewrite Hr, IH. unfold kRecoveryFailureHistoryCapacity.
    rewrite Nat.add_1_r, !last_n_snoc. f_equal.
    unfold last_n. rewrite !length_drop, drop_drop. f_equal. lia.
Qed.
End History.

(** ** Running alone *)

Section Alone.
Context `{L : ProjectionLibrary} {X : Type} `{RW : !RecoveryWorld X}.
Abbreviation State := (@Coordinator L X).
Implicit Types (s : State).

(** [p], run alone from a state with [P], ends in a state with [Q]. *)
Definition yields {A} (P : State → Prop) (p : prog State A) (Q : A → State → Prop) : Prop :=
  ∀ s, P s → Q (snd (run p s)) (fst (run p s)).

Definition keeps {A} (P : State → Prop) (p : prog State A) : Prop := yields P p (λ _, P).

Lemma yields_bind {A B} P (p : prog State A) Q (q : A → prog State B) Q' :
  yields P p Q → (∀ a, yields (Q a) (q a) Q') → yields P (p ≫= q) Q'.
Proof. intros Hp Hq s Hs. run_step. apply Hq, Hp, Hs. Qed.

Lemma yields_ret {A} (P : State → Prop) (a : A) (Q : A → State → Prop) :
  (∀ s, P s → Q a s) → yields P (mret a) Q.
Proof. intros H s Hs. run_step. by apply H. Qed.

Lemma yields_atomically {A} (P : State → Prop) (f : State → State * A) (Q : A → State → Prop) :
  (∀ s, P s → Q (snd (f s)) (fst (f s))) → yields P (atomically f) Q.
Proof. intros H s Hs. run_step. by apply H. Qed.

Lemma yields_mono {A} P (p : prog State A) (Q Q' : A → State → Prop) :
  yields P p Q → (∀ a s, Q a s → Q' a s) → yields P p Q'.
Proof. intros Hp H s Hs. by apply H, Hp. Qed.

Lemma yields_pure {A} P (φ : Prop) (p : prog State A) Q :
  (φ → yields P p Q) → yields (λ s, P s ∧ φ) p Q.
Proof. intros H s [Hs Hφ]. by apply H. Qed.

Lemma keeps_bind {A B} P (p : prog State A) (q : A → prog State B) :
  keeps P p → (∀ a, keeps P (q a)) → keeps P (p ≫= q).
Proof. intros Hp Hq. by eapply yields_bind. Qed.

Lemma keeps_throw {A B} P (p : prog State (outcome A)) (q : A → prog State (outcome B)) :
  keeps P p → (∀ a, keeps P (q a)) → keeps P (bind_throw p q).
Proof. intros Hp Hq. apply keeps_bind; [done|]. intros [a|]; [apply Hq|by apply yields_ret]. Qed.

Lemma keeps_try {A} P (p : prog State (outcome A)) h :
  keeps P p → keeps P h → keeps P (try_catch p h).
Proof. intros Hp Hh. apply keeps_bind; [done|]. intros [a|]; [by apply yields_ret|done]. Qed.

Lemma keeps_ret {A} P (a : A) : keeps P (mret a).
Proof. by apply yields_ret. Qed.

Lemma keeps_read {A} P (f : State → A) : keeps P (read f).
Proof. intros s Hs. exact Hs. Qed.

Lemma keeps_modify (P : State → Prop) (f : State → State) :
  (∀ s, P s → P (f s)) → keeps P (modify f).
Proof. intros H s Hs. run_step. by apply H. Qed.

Lemma keeps_atomically {A} (P : State → Prop) (f : State → State * A) :
  (∀ s, P s → P (fst (f s))) → keeps P (atomically f).
Proof. intros H. by apply yields_atomically. Qed.

(** The number of consecutive attempts. *)
Definition attempted (n : nat) s : Prop :=
  ro_consecutive_recovery_attempts (observation s) = n.

Lemma attempted_call {A} n (f : X → X * A) : keeps (attempted n) (call f).
Proof. by apply keeps_atomically. Qed.

Lemma attempted_source n (f : X → X * outcome bool) g :
  (∀ s, observation (g s) = observation s) → keeps (attempted n) (call_source f g).
Proof.
  intros Hg. apply keeps_atomically. intros s Hs. unfold attempted in *.
  destruct (f (world s)) as [x [[]|]]; cbn [fst]; [by rewrite Hg|done..].
Qed.

End Alone.

(** [walk] goes through the sections of a program, using what is known of the programs
    it calls; the remaining goals are sections. *)
Create HintDb walk.

Ltac walk :=
  repeat first
    [ solve [auto with walk nocore]
    | progress intros
    | apply keeps_ret
    | apply attempted_call
    | apply attempted_source; done
    | apply keeps_throw
    | apply keeps_try
    | apply keeps_bind
    | apply keeps_read
    | apply keeps_modify; intros s Hs; done
    | progress unfold with_lock, shutdown_seen
    | match goal with |- keeps _ (match ?x with _ => _ end) => destruct x end ].

Section Progress.
Context `{L : ProjectionLibrary} {X : Type} `{RW : !RecoveryWorld X}.
Abbreviation State := (@Coordinator L X).
Implicit Types (s : State).

Lemma attempted_persist n t : keeps (attempted (X := X) n) (modify (persist_event t)).
Proof.
  apply keeps_modify. intros s Hs. unfold persist_event.
  by destruct (to_last_event_utc_ns t).
Qed.
#[local] Hint Resolve attempted_persist : walk.

Lemma attempted_terminal n c e x : keeps (attempted (X := X) n) (set_terminal c e x).
Proof.
  apply keeps_modify. intros s Hs. unfold terminal_commit.
  by destruct (shutdown_requested s).
Qed.
#[local] Hint Resolve attempted_terminal : walk.

Lemma attempted_quiesce n a : keeps (attempted (X := X) n) (quiesce_attempt a).
Proof.
  unfold quiesce_attempt, quiesce_source. walk.
  apply keeps_modify. intros s Hs. by destruct (bool_decide _).
Qed.
#[local] Hint Resolve attempted_quiesce : walk.

Lemma attempted_close n o : keeps (attempted (X := X) n) (close_source_generation o).
Proof. unfold close_source_generation. walk. Qed.
#[local] Hint Resolve attempted_close : walk.

Lemma attempted_open n t g : keeps (attempted (X := X) n) (open_source_generation t g).
Proof. unfold open_source_generation. walk. Qed.
#[local] Hint Resolve attempted_open : walk.

Lemma attempted_end n a : keeps (attempted (X := X) n) (end_with_shutdown a).
Proof. unfold end_with_shutdown. walk. Qed.
#[local] Hint Resolve attempted_end : walk.

Lemma attempted_create n g : keeps (attempted (X := X) n) (create_attempt g).
Proof. unfold create_attempt. walk. Qed.
#[local] Hint Resolve attempted_create : walk.

Lemma attempted_timing n a : keeps (attempted (X := X) n) (generation_timing a).
Proof. unfold generation_timing. walk. Qed.
#[local] Hint Resolve attempted_timing : walk.

Lemma attempted_reflect n t r : keeps (attempted (X := X) n) (reflect_terminal_error t r).
Proof. unfold reflect_terminal_error. walk. Qed.
#[local] Hint Resolve attempted_reflect : walk.

Lemma attempted_record n g c t r : keeps (attempted (X := X) n) (record_failure g c t r).
Proof.
  unfold record_failure. walk. apply keeps_modify. intros s Hs. unfold attempted in *. simpl.
  unfold record_diagnostic. by destruct (bool_decide _).
Qed.
#[local] Hint Resolve attempted_record : walk.

Lemma attempted_rebootstrap n g : keeps (attempted (X := X) n) (rebootstrap g).
Proof.
  unfold rebootstrap, observe, wait_backoff, reset_section. walk.
  apply keeps_atomically. intros s Hs. unfold recovering_commit. by destruct (shutting_down s).
Qed.
#[local] Hint Resolve attempted_rebootstrap : walk.

(** The committed backoff counts one more attempt, below the limit. *)
Lemma commit_backoff_counts n d t :
  yields (attempted (X := X) n) (commit_backoff d t)
    (λ r s, match r with
            | Returned None => attempted (S n) s ∧ n < kMaximumRecoveryAttempts
            | Returned (Some (LoopNext _)) => False
            | _ => True
            end).
Proof.
  unfold commit_backoff, with_lock.
  eapply yields_bind; [by apply keeps_modify|]. intros ?.
  eapply yields_bind; [|intros r; eapply yields_bind; [|intros ?; apply yields_ret; intros s Hs; exact Hs];
                        apply (keeps_modify _ (λ s, s <| locked := false |>)); intros s Hs; exact Hs].
  eapply yields_bind; [apply keeps_read|]. intros [].
  { eapply yields_bind; [apply attempted_close|]. intros [?|]; by apply yields_ret. }
  eapply (yields_bind _ _ (λ m s, attempted n s ∧ m = n)); [by intros s Hs|].
  intros m. case_bool_decide as Hm.
  { eapply (yields_bind _ _ (λ _ _, True)); [done|]. intros [?|]; [|by apply yields_ret].
    eapply (yields_bind _ _ (λ _ _, True)); [done|]. intros ?. by apply yields_ret. }
  apply yields_pure. intros ->.
  eapply yields_bind; [apply attempted_close|]. intros [?|]; [|by apply yields_ret].
  eapply (yields_bind _ _ (λ _, attempted (S n))).
  { intros s Hs. run_step. unfold attempted in *. simpl. by rewrite Hs. }
  intros ?. eapply yields_bind; [apply keeps_read|]. intros m.
  destruct (normal_backoff_delay m); [|by apply yields_ret].
  eapply yields_bind; [by apply keeps_modify|]. intros ?. apply yields_ret.
  intros s Hs. split; [exact Hs|lia].
Qed.

(** What an unlucky iteration leaves when it is not the last. *)
Definition one_more (n : nat) (r : outcome LoopControl) s : Prop :=
  ∀ g, r = Returned (LoopNext g) → attempted (S n) s ∧ n < kMaximumRecoveryAttempts.

Lemma recover_counts n g t r : yields (attempted (X := X) n) (recover g t r) (one_more n).
Proof.
  unfold recover. eapply yields_bind; [apply attempted_record|]. intros ?.
  destruct (negb _).
  - eapply (yields_bind _ _ (λ _ _, True)); [done|]. intros [?|]; [|by apply yields_ret].
    eapply (yields_bind _ _ (λ _ _, True)); [done|]. intros ?. by apply yields_ret.
  - eapply yields_bind; [apply commit_backoff_counts|]. intros [[c|]|].
    + apply yields_ret. intros s Hs g' [= ->]. destruct Hs.
    + intros s [Hs Hn]. pose proof (attempted_rebootstrap (S n) g s Hs) as H.
      intros g' _. split; [exact H|exact Hn].
    + by apply yields_ret.
Qed.

Lemma reflect_ends P t r :
  yields P (reflect_terminal_error (X := X) t r)
    (λ o _, ∀ g, o ≠ Returned (inl (LoopNext g) : LoopControl + RuntimeObservation)).
Proof.
  unfold reflect_terminal_error. destruct (_ && _); [|by apply yields_ret].
  eapply (yields_bind _ _ (λ _ _, True)); [done|]. intros [admitted|]; [|by apply yields_ret].
  case_bool_decide.
  - eapply (yields_bind _ _ (λ _ _, True)); [done|]. intros [?|]; by apply yields_ret.
  - eapply (yields_bind _ _ (λ _ _, True)); [done|]. intros [?|]; [|by apply yields_ret].
    eapply (yields_bind _ _ (λ _ _, True)); [done|]. intros ?. by apply yields_ret.
Qed.

Lemma settle_counts n g a :
  yields (attempted (X := X) n) (settle_generation g a false) (one_more n).
Proof.
  unfold settle_generation. eapply yields_bind; [apply attempted_quiesce|].
  intros [t|]; [|by apply yields_ret].
  eapply yields_bind; [unfold shutdown_seen; walk|]. intros [].
  { eapply (yields_bind _ _ (λ _ _, True)); [done|]. intros [?|]; by apply yields_ret. }
  eapply yields_bind; [apply attempted_call|]. intros [r|]; [|by apply yields_ret].
  eapply (yields_bind _ _ (λ o s, attempted n s ∧
            ∀ g, o ≠ Returned (inl (LoopNext g) : LoopControl + RuntimeObservation))).
  { intros s Hs. split; [by apply attempted_reflect|]. by apply (reflect_ends (attempted n)). }
  intros [[c|r']|].
  - apply yields_ret. intros s [Hs Hc] g' [= ->]. by destruct (Hc g').
  - intros s [Hs _]. by apply recover_counts.
  - by apply yields_ret.
Qed.

(** ** Progress *)

(** No attempt ever brings the runtime to Live. *)
Definition never_live : Prop :=
  ∀ (x x' : X) ro, w_wait_until_live_or_recovery_required x = (x', Returned (Some ro)) →
                   obs_state ro ≠ RsLive.

Lemma end_ends P a : yields P (end_with_shutdown (X := X) a) (λ o _, ∀ g, o ≠ Returned (LoopNext g)).
Proof.
  unfold end_with_shutdown. eapply (yields_bind _ _ (λ _ _, True)); [done|].
  intros [?|]; [|by apply yields_ret].
  eapply (yields_bind _ _ (λ _ _, True)); [done|]. intros [?|]; by apply yields_ret.
Qed.

(** Watching such an attempt never leads to a planned rotation. *)
Lemma watch_counts n g a timing :
  never_live →
  yields (attempted (X := X) n) (watch_generation g a timing)
    (λ o s, match o with
            | Returned (inr due) => attempted n s ∧ due = false
            | Returned (inl (LoopNext _)) => False
            | _ => True
            end).
Proof.
  intros Hnever. unfold watch_generation.
  eapply yields_bind; [apply attempted_call|]. intros [t|]; [|by apply yields_ret].
  eapply yields_bind; [apply attempted_open|]. intros [?|]; [|by apply yields_ret].
  eapply (yields_bind _ _ (λ o s, attempted n s ∧
            ∀ ro, o = Returned (Some ro) → obs_state ro ≠ RsLive)).
  { apply yields_atomically. intros s Hs. split; [exact Hs|]. cbn [snd]. intros ro Hro.
    destruct (w_wait_until_live_or_recovery_required (world s)) as [x' o] eqn:E.
    cbn [snd] in Hro. subst. by eapply Hnever. }
  intros [[ro|]|]; [| |by apply yields_ret].
  - intros s [Hs Hro]. rewrite bool_decide_eq_false_2 by auto. by run_step.
  - eapply yields_bind; [apply end_ends|]. intros [c|]; apply yields_ret; [|done].
    intros s Hc. destruct c; try done. by destruct (Hc generation).
Qed.

Lemma iteration_counts n g :
  never_live → yields (attempted (X := X) n) (coordinator_iteration g) (one_more n).
Proof.
  intros Hnever. unfold coordinator_iteration.
  assert (Hend : ∀ a, yields (attempted (X := X) n) (end_with_shutdown a) (one_more n)).
  { intros a. eapply yields_mono; [apply end_ends|]. intros o s Ho g' ->. by destruct (Ho g'). }
  eapply yields_bind; [unfold shutdown_seen; walk|]. intros []; [by apply yields_ret|].
  eapply yields_bind; [apply attempted_create|]. intros [[a|]|]; [| |by apply yields_ret].
  2: { eapply yields_bind; [apply attempted_terminal|]. intros ?. by apply yields_ret. }
  eapply yields_bind; [unfold shutdown_seen; walk|]. intros []; [apply Hend|].
  eapply yields_bind; [apply attempted_timing|]. intros [timing|]; [|by apply yields_ret].
  eapply yields_bind; [by apply keeps_modify|]. intros ?.
  eapply yields_bind; [apply attempted_call|]. intros [sr|]; [|by apply yields_ret].
  eapply yields_bind; [unfold shutdown_seen; walk|]. intros []; [apply Hend|].
  eapply (yields_bind _ _ (λ o s, match o with
            | Returned (inr due) => attempted n s ∧ due = false
            | Returned (inl (LoopNext _)) => False
            | _ => True
            end)).
  { case_bool_decide; [by apply watch_counts|]. by apply yields_ret. }
  intros [[c|due]|]; [| |by apply yields_ret].
  - apply yields_ret. intros s Hs g' [= ->]. destruct Hs.
  - apply yields_pure. intros ->. apply settle_counts.
Qed.

Lemma step_counts n g :
  never_live →
  yields (attempted (X := X) n) (coordinator_step g)
    (λ r s, r = None ∨ (attempted (S n) s ∧ n < kMaximumRecoveryAttempts)).
Proof.
  intros Hnever. unfold coordinator_step. eapply yields_bind; [by apply iteration_counts|].
  intros [c|].
  - destruct c; apply yields_ret; [by left|by left|]. intros s Hs. right. by eapply Hs.
  - eapply (yields_bind _ _ (λ _ _, True)); [done|]. intros ?.
    eapply (yields_bind _ _ (λ _ _, True)); [done|]. intros ?.
    eapply (yields_bind _ _ (λ _ _, True)); [done|]. intros ?.
    apply yields_ret. by left.
Qed.

Lemma loop_ends fuel n g s :
  never_live → attempted (X := X) n s → kMaximumRecoveryAttempts ≤ fuel + n →
  snd (run (coordinator_loop (S fuel) g) s) = true.
Proof.
  intros Hnever. revert n g s. induction fuel as [|fuel IH]; intros n g s Hs Hf.
  - cbn [coordinator_loop]. run_step.
    destruct (step_counts n g Hnever s Hs) as [-> | [_ Hn]]; [done|lia].
  - cbn [coordinator_loop]. run_step.
    destruct (step_counts n g Hnever s Hs) as [-> | [Hs' Hn]]; [done|].
    destruct (snd (run (coordinator_step g) s)) as [g'|]; [|done].
    apply (IH (S n)); [exact Hs'|lia].
Qed.

(** C14: When no attempt ever becomes live the coordinator gives up: whatever the
    transports, the clock and the runtime answer, its loop ends after at most seven
    attempts (the first and six recoveries) from a fresh start. *)
Theorem coordinator_gives_up (g : Z) s :
  never_live → ro_consecutive_recovery_attempts (observation s) = 0 →
  snd (run (coordinator_loop (kMaximumRecoveryAttempts + 1) g) s) = true.
Proof.
  intros Hnever Hs. rewrite Nat.add_1_r. by apply (loop_ends kMaximumRecoveryAttempts 0).
Qed.

(** ** The delay *)

(** A committed backoff asks for the delay of its attempt, or for the server's. *)
Lemma commit_backoff_delay d t s :
  snd (run (commit_backoff (X := X) d t) s) = Returned None →
  let o := observation (fst (run (commit_backoff d t) s)) in
  ro_state o = RyBackoff ∧
  ∃ normal, normal_backoff_delay (ro_consecutive_recovery_attempts o) = Returned normal ∧
            ro_last_requested_delay o = requested_delay d normal.
Proof.
  assert (H : yields (λ _ : State, True) (commit_backoff d t) (λ r s, r = Returned None →
    ro_state (observation s) = RyBackoff ∧
    ∃ normal, normal_backoff_delay (ro_consecutive_recovery_attempts (observation s))
              = Returned normal ∧
              ro_last_requested_delay (observation s) = requested_delay d normal));
    [|intros Hr; by apply H].
  unfold commit_backoff, with_lock.
  eapply (yields_bind _ _ (λ _ _, True)); [done|]. intros ?.
  eapply yields_bind; [|intros r; eapply yields_bind; [|intros ?; apply yields_ret; intros s' Hs; exact Hs];
                        apply (keeps_modify _ (λ s, s <| locked := false |>)); intros s' Hs; exact Hs].
  eapply (yields_bind _ _ (λ _ _, True)); [done|]. intros [].
  { eapply (yields_bind _ _ (λ _ _, True)); [done|]. intros [?|]; by apply yields_ret. }
  eapply (yields_bind _ _ (λ _ _, True)); [done|]. intros m. case_bool_decide.
  { eapply (yields_bind _ _ (λ _ _, True)); [done|]. intros [?|]; [|by apply yields_ret].
    eapply (yields_bind _ _ (λ _ _, True)); [done|]. intros ?. by apply yields_ret. }
  eapply (yields_bind _ _ (λ _ _, True)); [done|]. intros [?|]; [|by apply yields_ret].
  eapply (yields_bind _ _ (λ _ _, True)); [done|]. intros ?.
  eapply (yields_bind _ _ (λ k s, True ∧ ro_consecutive_recovery_attempts (observation s) = k));
    [by intros s' _|].
  intros k. destruct (normal_backoff_delay k) as [normal|] eqn:Hk; [|by apply yields_ret].
  eapply (yields_bind _ _ (λ _ s', ro_state (observation s') = RyBackoff ∧
    ro_consecutive_recovery_attempts (observation s') = k ∧
    ro_last_requested_delay (observation s') = requested_delay d normal)).
  { intros s' [_ Hs]. run_step. by rewrite <- Hs. }
  intros ?. apply yields_ret. intros s' (Hst & Hc & Hd) _. split; [exact Hst|].
  exists normal. by rewrite Hc.
Qed.

(** A rate limit is honoured: after a retried HTTP 429 or 418 the committed backoff
    asks for the longer of the normal delay of its attempt and the server's
    Retry-After. *)
Theorem rate_limit_is_honoured (r : RuntimeObservation) (t : TransportObservation)
  (e : NetworkError) (status seconds : Z) s :
  recoverable (classify_failure r t) = true →
  to_terminal_error t = Some e → ne_code e = NeHttpStatus → ne_http_status e = Some status →
  status = 429%Z ∨ status = 418%Z → parse_retry_after (ne_retry_after e) = Some seconds →
  snd (run (commit_backoff (X := X) (classify_failure r t) t) s) = Returned None →
  let o := observation (fst (run (commit_backoff (classify_failure r t) t) s)) in
  ro_state o = RyBackoff ∧
  ∃ normal, normal_backoff_delay (ro_consecutive_recovery_attempts o) = Returned normal ∧
            ro_last_requested_delay o = (normal `max` seconds)%Z.
Proof.
  intros Hrec He Hc Hst Hrate Hs Hr.
  assert (Hmin : minimum_delay (classify_failure r t) = Some seconds).
  { revert Hrec. unfold classify_failure.
    destruct (classify_runtime_allows r t) as [(d & -> & _)|[-> _]]; [|done].
    rewrite He, Hc. unfold classify_http. rewrite Hst, Hs. intros _.
    by destruct Hrate as [-> | ->]. }
  destruct (commit_backoff_delay _ _ _ Hr) as (Hb & normal & Hn & Hd).
  split; [exact Hb|]. exists normal. split; [exact Hn|].
  rewrite Hd. unfold requested_delay. by rewrite Hmin.
Qed.
End Progress.

(** ** Concrete runs *)

(** Every attempt fails to start. *)
Module FailingWorld.
Import SampleWorld.

#[export] Instance failing : RecoveryWorld (L := SampleProjection.library) Env := {|
  w_clock := still (Returned (MkClockSample 1 1));
  w_runtime_start := still SrStarted;
  w_runtime_stop := id;
  w_runtime_observe := still (Returned (runtime_report RsNeedsResync));
  w_wait_until_live_or_recovery_required := still (Returned (Some (runtime_report RsNeedsResync)));
  w_wait_until_recovery_required := still (Returned (Some (runtime_report RsNeedsResync)));
  w_wait_until_recovery_required_for := λ _, still (Returned TwRecoveryRequired);
  w_submit_transport_failure := still (Returned ArAccepted);
  w_reset_for_rebootstrap := still (Returned RrReset);
  w_reset_live_for_planned_rebootstrap := still (Returned PrReset);
  w_attempt_factory := λ g e, (MkEnv g true, Returned (Some g));
  w_attempt_start := λ _, still (Returned TsFailed);
  w_attempt_stop := λ _ e, MkEnv (created e) false;
  w_attempt_observe := λ _ e, (e, Returned (transport_report (MkEnv 2 (alive e))));
  w_lifecycle_open := λ _, still (Returned true);
  w_lifecycle_quiesce := λ _, still (Returned true);
  w_lifecycle_close := λ _ _, still (Returned true);
  w_wait_backoff := λ _ e, e;
  w_copies := still true;
  w_what := λ _, "exception"
|}.

Definition fresh : Coordinator (L := SampleProjection.library) (X := Env) :=
  MkCoordinator (MkEnv 0 false) None true None false initial_recovery_observation
    true false false false None false.
End FailingWorld.

Section Runs.
#[local] Existing Instance SampleProjection.library.
#[local] Existing Instance FailingWorld.failing.

Lemma failing_never_live : never_live (X := SampleWorld.Env).
Proof. intros x x' ro [= _ <-]. done. Qed.

(** Seven attempts, then exhaustion. *)
Example failing_exhausts :
  let s := fst (run (coordinator_loop 7 1) FailingWorld.fresh) in
  ro_exhausted (observation s) = true ∧ ro_total_recovery_count (observation s) = 6%Z ∧
  ro_last_requested_delay (observation s) = 30%Z ∧
  ro_failure_history_size (observation s) = 7.
Proof. by vm_compute. Qed.

Lemma coordinator_gives_up_witness :
  snd (run (coordinator_loop 7 1) FailingWorld.fresh) = true.
Proof.
  exact (coordinator_gives_up 1 FailingWorld.fresh failing_never_live eq_refl).
Defined.

Definition limited : NetworkError :=
  MkNetworkError NeHttpStatus "rest" "status 429" (Some 429%Z) (Some "120").
Definition limited_report : TransportObservation :=
  MkTransportObservation false false true true false false false false 0 0 0 None
    DepthOnly "spot-1" 1 (Some limited).
Definition resync_report : RuntimeObservation := SampleWorld.runtime_report RsNeedsResync.

Lemma limited_commits :
  snd (run (commit_backoff (classify_failure resync_report limited_report) limited_report)
         FailingWorld.fresh) = Returned None.
Proof. vm_compute. reflexivity. Qed.

Lemma rate_limit_is_honoured_witness :
  ∃ normal,
    ro_last_requested_delay (observation
      (fst (run (commit_backoff (classify_failure resync_report limited_report) limited_report)
              FailingWorld.fresh))) = (normal `max` 120)%Z.
Proof.
  destruct (rate_limit_is_honoured resync_report limited_report limited 429 120
              FailingWorld.fresh eq_refl eq_refl eq_refl eq_refl (or_introl eq_refl) eq_refl
              limited_commits) as (_ & normal & _ & H).
  exists normal. exact H.
Defined.
End Runs.
