(* ===== verification/Json.v ===== *)
(** * Json: the decoded documents of the Binance parsers

    [nlohmann::json] is a third-party library: decoding a text is a parameter
    ([JsonLibrary]), and its values are the type [Json] the library documents (the
    three number types apart, object members with unique keys).  The accessors are
    those of the anonymous namespaces of [src/src/g4/spot_protocol.cpp] and
    [src/src/g11/usdm_protocol.cpp], which are the same in both files.

    [carries] says that a document has, among others, some given members; [fields]
    turns the accessors' tests into it. *)

From S2P Require Import Prelude Wire.

Open Scope gateway_scope.

(** A floating-point value is never read. *)
Inductive Json : Type :=
| JsonNull
| JsonBoolean (b : bool)
| JsonUnsigned (n : Z)
| JsonInteger (n : Z)
| JsonFloat
| JsonString (text : string)
| JsonArray (elements : list Json)
| JsonObject (members : list (string * Json)).

(** [Json::parse(begin, end, nullptr, false)]: [None] is a discarded value. *)
Class JsonLibrary : Type := { json_parse : string → outcome (option Json) }.

Definition is_object (value : Json) : bool :=
  match value with JsonObject _ => true | _ => false end.

Fixpoint lookup_member (members : list (string * Json)) (name : string) : option Json :=
  match members with
  | [] => None
  | (key, value) :: rest =>
      if bool_decide (key = name) then Some value else lookup_member rest name
  end.

(** [value.find(name)], [end()] when the value is not an object. *)
Definition find (value : Json) (name : string) : option Json :=
  match value with JsonObject members => lookup_member members name | _ => None end.

Definition contains (value : Json) (name : string) : bool :=
  bool_decide (is_Some (find value name)).

(** *** Errors *)

Inductive ProtocolErrorCode : Type :=
| InvalidJson
| InvalidShape
| InvalidField
| WrongEvent
| WrongSymbol
| InvalidQuantum
| InvalidMarketMetadata.

Record ProtocolError : Type := MkProtocolError {
  pe_code : ProtocolErrorCode;
  pe_field : string;
  pe_message : string
}.

(** *** Accessors *)

Definition has_required_keys (value : Json) (expected : list string) : bool :=
  is_object value && forallb (contains value) expected.

Definition unsigned_field (object : Json) (name : string) : option Z :=
  match find object name with Some (JsonUnsigned n) => Some n | _ => None end.

Definition string_field (object : Json) (name : string) : option string :=
  match find object name with Some (JsonString text) => Some text | _ => None end.

Definition boolean_field (object : Json) (name : string) : option bool :=
  match find object name with Some (JsonBoolean b) => Some b | _ => None end.

Definition parse_json `{J : JsonLibrary} (payload : string) : Json + ProtocolError :=
  match json_parse payload with
  | Returned (Some parsed) => inl parsed
  | Returned None => inr (MkProtocolError InvalidJson "payload" "payload is not valid JSON")
  | Threw => inr (MkProtocolError InvalidJson "payload" "payload could not be decoded")
  end.

(** [append_levels]: the levels appended to [output]. *)
Fixpoint append_level_elements (elements : list Json) (output : list PriceLevel)
  (field_name : string) : list PriceLevel + ProtocolError :=
  match elements with
  | [] => inl output
  | JsonArray [JsonString price; JsonString quantity] :: rest =>
      append_level_elements rest (output ++ [MkPriceLevel price quantity]) field_name
  | _ =>
      inr (MkProtocolError InvalidField field_name "each depth level must be exactly two strings")
  end.

Definition append_levels (levels : Json) (output : list PriceLevel) (field_name : string)
  : list PriceLevel + ProtocolError :=
  match levels with
  | JsonArray elements => append_level_elements elements output field_name
  | _ => inr (MkProtocolError InvalidField field_name "depth side must be an array")
  end.

(** [root.at(name)] after [has_required_keys]. *)
Definition at_member (value : Json) (name : string) : Json := default JsonNull (find value name).

(** ** What the accessors tell *)

(** The document has these members, whatever else it has. *)
Definition carries (value : Json) (members : list (string * Json)) : Prop :=
  Forall (λ m, find value (fst m) = Some (snd m)) members.

Lemma unsigned_field_spec v name n :
  unsigned_field v name = Some n ↔ find v name = Some (JsonUnsigned n).
Proof. unfold unsigned_field. split; [|by intros ->]. intros H. break_all. done. Qed.

Lemma string_field_spec v name t :
  string_field v name = Some t ↔ find v name = Some (JsonString t).
Proof. unfold string_field. split; [|by intros ->]. intros H. break_all. done. Qed.

Lemma boolean_field_spec v name b :
  boolean_field v name = Some b ↔ find v name = Some (JsonBoolean b).
Proof. unfold boolean_field. split; [|by intros ->]. intros H. break_all. done. Qed.

Lemma find_object v name j : find v name = Some j → is_object v = true.
Proof. by destruct v. Qed.

Lemma contains_find v name j : find v name = Some j → contains v name = true.
Proof. intros H. unfold contains. rewrite H. by apply bool_decide_eq_true. Qed.

(** The levels of a side as a document. *)
Definition level_json (l : PriceLevel) : Json :=
  JsonArray [JsonString (level_price l); JsonString (level_quantity l)].
Definition levels_json (ls : list PriceLevel) : Json := JsonArray (level_json <$> ls).

Lemma append_level_elements_spec es output name ls :
  append_level_elements es output name = inl ls ↔
  ∃ new, es = level_json <$> new ∧ ls = output ++ new.
Proof.
  revert output. induction es as [|e es IH]; intros output; simpl.
  - split; [intros [= <-]; exists []; by rewrite app_nil_r|].
    intros ([|] & Hm & ->); [by rewrite app_nil_r|done].
  - split.
    + intros H. break_all. apply IH in H as (new & -> & ->).
      eexists (MkPriceLevel _ _ :: new). split; [done|]. by rewrite <- app_assoc.
    + intros ([|[p q] new] & Hm & ->); [done|]. injection Hm as -> ->. cbn.
      apply IH. exists new. by rewrite <- app_assoc.
Qed.

Lemma append_levels_spec v name ls :
  append_levels v [] name = inl ls ↔ v = levels_json ls.
Proof.
  unfold append_levels, levels_json. split.
  - destruct v; try done. rewrite append_level_elements_spec. by intros (new & -> & ->).
  - intros ->. apply append_level_elements_spec. by exists ls.
Qed.

Lemma at_member_spec v name j :
  contains v name = true → at_member v name = j ↔ find v name = Some j.
Proof.
  unfold contains, at_member. intros H%bool_decide_eq_true. destruct H as [x ->]. simpl.
  split; [by intros ->|by intros [= ->]].
Qed.

Lemma carries_cons v name j ms :
  carries v ((name, j) :: ms) ↔ find v name = Some j ∧ carries v ms.
Proof. unfold carries. by rewrite Forall_cons. Qed.

Lemma carries_nil v : carries v [] ↔ True.
Proof. split; [done|]. intros _. apply Forall_nil_2. Qed.

(** A document that carries some members has their keys. *)
Lemma carries_keys v ms :
  ms ≠ [] → carries v ms → has_required_keys v (fst <$> ms) = true.
Proof.
  intros Hne Hc. unfold has_required_keys. apply andb_true_iff. split.
  - destruct ms as [|m ms]; [done|]. apply Forall_cons in Hc as [H _]. by eapply find_object.
  - apply forallb_forall. intros k Hk. apply list_elem_of_In, list_elem_of_fmap in Hk as (m & -> & Hm).
    eapply contains_find. by eapply (proj1 (Forall_forall _ _) Hc).
Qed.

Lemma required_key v ks name :
  has_required_keys v ks = true → name ∈ ks → contains v name = true.
Proof.
  intros [_ H]%andb_true_iff Hin. by apply (proj1 (forallb_forall _ _) H), list_elem_of_In.
Qed.

(** [read_tests] turns the tests of a parser that returned into propositions. *)
Ltac read_tests :=
  repeat first
    [ rewrite fail_if_inl in *
    | rewrite sum_bind_inl in *
    | rewrite negb_false_iff in *
    | rewrite orb_false_iff in *
    | rewrite bool_decide_eq_true in *
    | rewrite bool_decide_eq_false in *
    | rewrite unsigned_field_spec in *
    | rewrite string_field_spec in *
    | rewrite boolean_field_spec in *
    | rewrite append_levels_spec in * ].
