(* ===== verification/SpotProtocol.v ===== *)
(** * SpotProtocol: the texts Binance Spot sends

    Models [src/src/g4/spot_protocol.hpp] and [.cpp]: the metadata of a symbol
    ([parse_exchange_info]), the frames of the raw and the combined streams and the
    depth snapshot, each from its decoded document ([Json]).  [DecimalScale::create]
    belongs to the projection library and is the parameter [decimal_scale_create].
    Running out of memory is not modelled here. *)

From Stdlib Require Import Ascii.
From S2P Require Import Prelude Ring Wire Text Json Session OrderBookPublication.
From S2P Require Import EventPublication Programs Projection MarketRuntime.

Open Scope gateway_scope.

Class NumericLibrary : Type := {
  DecimalScale : Type;
  (** [core::DecimalScale::create] *)
  decimal_scale_create : Z → option DecimalScale
}.

Definition protocol_error (c : ProtocolErrorCode) (field message : string) : ProtocolError :=
  MkProtocolError c field message.

(** ** Decimal texts *)

(** [value.find('.')] and what it separates; [fraction] is empty without a point. *)
Definition whole_part (value : string) : string :=
  match find_char "." value with Some decimal => take_string decimal value | None => value end.
Definition fraction_part (value : string) : string :=
  match find_char "." value with Some decimal => drop_string (decimal + 1) value | None => "" end.
Definition second_point (value : string) : bool :=
  match find_char "." value with
  | Some decimal => bool_decide (is_Some (find_char "." (drop_string (decimal + 1) value)))
  | None => false
  end.
Definition has_point (value : string) : bool := bool_decide (is_Some (find_char "." value)).
Definition signed_text (value : string) : bool :=
  match value with
  | String front _ => bool_decide (front = "+"%char) || bool_decide (front = "-"%char)
  | EmptyString => false
  end.
Definition digits : string → bool := all_chars is_digit.
Definition is_zero_char (c : ascii) : bool := bool_decide (c = "0"%char).

Definition plain_decimal (value : string) (allow_zero : bool) : bool :=
  if bool_decide (value = "") || signed_text value then false else
  if second_point value then false else
  let whole := whole_part value in
  let fraction := fraction_part value in
  if bool_decide (whole = "") || negb (digits whole)
     || (has_point value && bool_decide (fraction = "")) || negb (digits fraction)
  then false
  else allow_zero || negb (all_chars is_zero_char value).

Section Numbers.
Context `{N : NumericLibrary}.

Definition decimal_scale_from_quantum (quantum : string) : DecimalScale + ProtocolError :=
  fail_if bool_decide (quantum = "")
    with protocol_error InvalidQuantum "quantum" "decimal quantum is empty" ;;
  fail_if signed_text quantum
    with protocol_error InvalidQuantum "quantum" "decimal quantum must not contain a sign" ;;
  fail_if second_point quantum
    with protocol_error InvalidQuantum "quantum" "decimal quantum has multiple decimal points" ;;
  let whole := whole_part quantum in
  let fraction := fraction_part quantum in
  fail_if bool_decide (whole = "") || negb (digits whole)
          || (has_point quantum && bool_decide (fraction = "")) || negb (digits fraction)
    with protocol_error InvalidQuantum "quantum"
           "decimal quantum must use plain decimal syntax" ;;
  let nonzero_whole := negb (all_chars is_zero_char whole) in
  let significant_end := find_last_not_of "0" fraction in
  fail_if negb nonzero_whole && bool_decide (significant_end = None)
    with protocol_error InvalidQuantum "quantum" "decimal quantum must be greater than zero" ;;
  let scale := match significant_end with None => 0 | Some last => last + 1 end in
  match decimal_scale_create (Z.of_nat scale mod 4294967296)%Z with
  | Some created => inl created
  | None => inr (protocol_error InvalidQuantum "quantum"
                   "decimal quantum exceeds Projection scale capacity")
  end.
End Numbers.

(** ** Symbols *)

(** The lower-case stream name of one character. *)
Definition stream_character (c : ascii) : option ascii :=
  if in_range "A" "Z" c
  then Some (ascii_of_N (N_of_ascii c - N_of_ascii "A" + N_of_ascii "a")%N)
  else if in_range "0" "9" c then Some c else None.

Fixpoint encode_symbol (symbol : string) : option string :=
  match symbol with
  | EmptyString => Some ""
  | String c rest => e ← stream_character c; es ← encode_symbol rest; Some (String e es)
  end.

Definition spot_stream_symbol (canonical_symbol : string) : option string :=
  if bool_decide (canonical_symbol = "") then None else encode_symbol canonical_symbol.

Definition unroutable_spot : ProtocolError :=
  protocol_error InvalidMarketMetadata "symbol"
    ("requested Spot symbol cannot be represented by a Binance " +:+ "route").

(** ** Metadata *)

(** The loop over the symbols: at most one carries the requested name. *)
Fixpoint select_symbol (symbols : list Json) (requested_symbol : string)
  (selected : option Json) : option Json + ProtocolError :=
  match symbols with
  | [] => inl selected
  | candidate :: rest =>
      fail_if negb (is_object candidate)
        with protocol_error InvalidMarketMetadata "symbols"
               "each exchangeInfo symbol must be an object" ;;
      match string_field candidate "symbol" with
      | None =>
          inr (protocol_error InvalidMarketMetadata "symbol"
                 "each exchangeInfo symbol needs a string symbol")
      | Some symbol_name =>
          if bool_decide (symbol_name = requested_symbol) then
            fail_if bool_decide (is_Some selected)
              with protocol_error InvalidMarketMetadata "symbol"
                     "exchangeInfo contains a duplicate requested symbol" ;;
            select_symbol rest requested_symbol (Some candidate)
          else select_symbol rest requested_symbol selected
      end
  end.

(** The members of the root that hold the symbols. *)
Definition exchange_symbols (root : Json) : list Json + ProtocolError :=
  fail_if negb (is_object root)
    with protocol_error InvalidMarketMetadata "symbols"
           "exchangeInfo symbols must be an array" ;;
  match find root "symbols" with
  | Some (JsonArray symbols) => inl symbols
  | _ => inr (protocol_error InvalidMarketMetadata "symbols"
                "exchangeInfo symbols must be an array")
  end.

(** The loop over the filters: the tick size and the step size. *)
Fixpoint read_filters (filters : list Json) (tick_size step_size : option string)
  : option string * option string + ProtocolError :=
  match filters with
  | [] => inl (tick_size, step_size)
  | filter :: rest =>
      fail_if negb (is_object filter)
        with protocol_error InvalidMarketMetadata "filters"
               "each symbol filter must be an object" ;;
      match string_field filter "filterType" with
      | None =>
          inr (protocol_error InvalidMarketMetadata "filterType"
                 "each symbol filter needs a string filterType")
      | Some type =>
          if bool_decide (type = "PRICE_FILTER") then
            match tick_size, string_field filter "tickSize" with
            | None, Some value => read_filters rest (Some value) step_size
            | _, _ => inr (protocol_error InvalidMarketMetadata "PRICE_FILTER"
                             "exactly one valid PRICE_FILTER is required")
            end
          else if bool_decide (type = "LOT_SIZE") then
            match step_size, string_field filter "stepSize" with
            | None, Some value => read_filters rest tick_size (Some value)
            | _, _ => inr (protocol_error InvalidMarketMetadata "LOT_SIZE"
                             "exactly one valid LOT_SIZE is required")
            end
          else read_filters rest tick_size step_size
      end
  end.

Section Metadata.
Context `{N : NumericLibrary} `{J : JsonLibrary}.

(** [SpotMetadata]; [numeric_spec] is the pair of scales. *)
Record SpotMetadata : Type := MkSpotMetadata {
  tick_size : string;
  step_size : string;
  price_scale : DecimalScale;
  quantity_scale : DecimalScale
}.

(** From the filters to the result. *)
Definition quantum_metadata (sizes : option string * option string)
  : SpotMetadata + ProtocolError :=
  match sizes with
  | (Some tick_size, Some step_size) =>
      let? price_scale := decimal_scale_from_quantum tick_size in
      let? quantity_scale := decimal_scale_from_quantum step_size in
      inl (MkSpotMetadata tick_size step_size price_scale quantity_scale)
  | _ => inr (protocol_error InvalidMarketMetadata "filters"
                "PRICE_FILTER and LOT_SIZE are both required")
  end.

Definition parse_exchange_info (payload requested_symbol : string)
  : SpotMetadata + ProtocolError :=
  let? root := parse_json payload in
  fail_if bool_decide (spot_stream_symbol requested_symbol = None) with unroutable_spot ;;
  let? symbols := exchange_symbols root in
  let? found := select_symbol symbols requested_symbol None in
  match found with
  | None =>
      inr (protocol_error InvalidMarketMetadata "symbol"
             "exchangeInfo must contain the requested Spot symbol")
  | Some selected =>
      fail_if negb (bool_decide (string_field selected "status" = Some "TRADING"))
        with protocol_error InvalidMarketMetadata "status"
               "requested Spot symbol must be TRADING" ;;
      fail_if negb (bool_decide (boolean_field selected "isSpotTradingAllowed" = Some true))
        with protocol_error InvalidMarketMetadata "isSpotTradingAllowed"
               "requested Spot symbol trading must be allowed" ;;
      match find selected "filters" with
      | Some (JsonArray filters) =>
          let? sizes := read_filters filters None None in
          quantum_metadata sizes
      | _ => inr (protocol_error InvalidMarketMetadata "filters"
                    "requested Spot symbol filters must be an array")
      end
  end.
End Metadata.

(** ** Events *)

(** What a parsed frame is, apart from an error; [ServerShutdown] carries the event
    time. *)
Inductive Frame (A : Type) : Type :=
| FrameEvent (event : A)
| FrameServerShutdown (exchange_event_time_ms : Z).
Arguments FrameEvent {A} _.
Arguments FrameServerShutdown {A} _.

Definition is_depth_shape (root : Json) : bool :=
  has_required_keys root ["e"; "E"; "s"; "U"; "u"; "b"; "a"].

(** The branch of [serverShutdown]. *)
Definition parse_server_shutdown {A} (root : Json) : Frame A + ProtocolError :=
  fail_if negb (has_required_keys root ["e"; "E"])
    with protocol_error InvalidShape "payload" "serverShutdown has an unexpected shape" ;;
  match unsigned_field root "E" with
  | Some event_time => inl (FrameServerShutdown event_time)
  | None => inr (protocol_error InvalidField "E" "serverShutdown event time must be uint64")
  end.

Section Events.
Context `{W : WireEnums} `{J : JsonLibrary}.

(** [populate_event_metadata] of the three kinds of event. *)
Definition depth_metadata (symbol connection_id : string) (received_at : ClockSample)
  (event_time : Z) : EventMetadata :=
  MkEventMetadata VENUE_BINANCE MARKET_SPOT symbol "gateway-g4-spot" "1.0.0" connection_id
    STREAM_DIFF_DEPTH "depth-update.v1" (Some event_time) None None
    (Some (sample_utc_ns received_at)) (Some (sample_monotonic_ns received_at)).

Definition agg_trade_metadata (symbol connection_id : string) (received_at : ClockSample)
  (event_time trade_time : Z) : EventMetadata :=
  MkEventMetadata VENUE_BINANCE MARKET_SPOT symbol "gateway-g4-spot" "1.0.0" connection_id
    STREAM_AGG_TRADE "agg-trade.v1" (Some event_time) (Some trade_time) None
    (Some (sample_utc_ns received_at)) (Some (sample_monotonic_ns received_at)).

Definition book_ticker_metadata (symbol connection_id : string) (received_at : ClockSample)
  : EventMetadata :=
  MkEventMetadata VENUE_BINANCE MARKET_SPOT symbol "gateway-g4-spot" "1.0.0" connection_id
    STREAM_BOOK_TICKER "book-ticker.v1" None None None
    (Some (sample_utc_ns received_at)) (Some (sample_monotonic_ns received_at)).

(** The members of a [depthUpdate], once its shape is known. *)
Definition parse_depth_fields (root : Json) (received_at : ClockSample)
  (connection_id requested_symbol : string) : Frame DepthUpdate + ProtocolError :=
  fail_if negb (bool_decide (string_field root "s" = Some requested_symbol))
    with protocol_error WrongSymbol "s"
           "depthUpdate symbol does not match the configured symbol" ;;
  match unsigned_field root "E", unsigned_field root "U", unsigned_field root "u" with
  | Some event_time, Some first, Some final =>
      fail_if bool_decide (connection_id = "")
        with protocol_error InvalidField "connection_id" "connection_id must be non-empty" ;;
      let? bids := append_levels (at_member root "b") [] "b" in
      let? asks := append_levels (at_member root "a") [] "a" in
      inl (FrameEvent
             (MkDepthUpdate (depth_metadata requested_symbol connection_id received_at event_time)
                first final None bids asks))
  | _, _, _ => inr (protocol_error InvalidField "sequence" "E, U, and u must be uint64 values")
  end.

Definition parse_depth_object (root : Json) (received_at : ClockSample)
  (connection_id requested_symbol : string) : Frame DepthUpdate + ProtocolError :=
  fail_if bool_decide (spot_stream_symbol requested_symbol = None) with unroutable_spot ;;
  match string_field root "e" with
  | None => inr (protocol_error InvalidField "e" "event type must be a string")
  | Some event =>
      if bool_decide (event = "serverShutdown") then parse_server_shutdown root else
      fail_if negb (bool_decide (event = "depthUpdate"))
        with protocol_error WrongEvent "e" "raw stream payload is not a depthUpdate" ;;
      fail_if negb (is_depth_shape root) || contains root "pu"
        with protocol_error InvalidShape "payload" "depthUpdate has an unexpected shape" ;;
      parse_depth_fields root received_at connection_id requested_symbol
  end.

Definition parse_depth_frame (payload : string) (received_at : ClockSample)
  (connection_id requested_symbol : string) : Frame DepthUpdate + ProtocolError :=
  let? root := parse_json payload in
  parse_depth_object root received_at connection_id requested_symbol.

(** The branch of the aggregate-trade stream. *)
Definition parse_agg_trade (data : Json) (received_at : ClockSample)
  (connection_id requested_symbol : string) : AggTrade + ProtocolError :=
  fail_if negb (has_required_keys data ["e"; "E"; "s"; "a"; "p"; "q"; "f"; "l"; "T"; "m"; "M"])
    with protocol_error InvalidShape "data" "aggTrade has an unexpected shape" ;;
  fail_if negb (bool_decide (string_field data "e" = Some "aggTrade"))
    with protocol_error WrongEvent "e" "combined stream payload is not aggTrade" ;;
  fail_if negb (bool_decide (string_field data "s" = Some requested_symbol))
    with protocol_error WrongSymbol "s" "aggTrade symbol does not match the configured symbol" ;;
  match unsigned_field data "a", string_field data "p", string_field data "q",
        unsigned_field data "f", unsigned_field data "l", unsigned_field data "E",
        unsigned_field data "T", boolean_field data "m", boolean_field data "M" with
  | Some aggregate_id, Some price, Some quantity, Some first, Some last, Some event_time,
    Some trade_time, Some buyer_is_maker, Some _ =>
      fail_if negb (plain_decimal price false) || negb (plain_decimal quantity false)
        with protocol_error InvalidField "aggTrade"
               "aggTrade fields have invalid types or decimal values" ;;
      inl (MkAggTrade
             (agg_trade_metadata requested_symbol connection_id received_at event_time trade_time)
             aggregate_id price quantity first last trade_time buyer_is_maker)
  | _, _, _, _, _, _, _, _, _ =>
      inr (protocol_error InvalidField "aggTrade"
             "aggTrade fields have invalid types or decimal values")
  end.

(** The branch of the book-ticker stream. *)
Definition parse_book_ticker (data : Json) (received_at : ClockSample)
  (connection_id requested_symbol : string) : BookTicker + ProtocolError :=
  fail_if negb (has_required_keys data ["u"; "s"; "b"; "B"; "a"; "A"])
    with protocol_error InvalidShape "data" "bookTicker has an unexpected shape" ;;
  fail_if negb (bool_decide (string_field data "s" = Some requested_symbol))
    with protocol_error WrongSymbol "s" "bookTicker symbol does not match the configured symbol" ;;
  match unsigned_field data "u", string_field data "b", string_field data "B",
        string_field data "a", string_field data "A" with
  | Some update_id, Some bid_price, Some bid_quantity, Some ask_price, Some ask_quantity =>
      fail_if negb (plain_decimal bid_price false) || negb (plain_decimal bid_quantity true)
              || negb (plain_decimal ask_price false) || negb (plain_decimal ask_quantity true)
        with protocol_error InvalidField "bookTicker"
               "bookTicker fields have invalid types or decimal values" ;;
      inl (MkBookTicker (book_ticker_metadata requested_symbol connection_id received_at)
             update_id bid_price bid_quantity ask_price ask_quantity)
  | _, _, _, _, _ =>
      inr (protocol_error InvalidField "bookTicker"
             "bookTicker fields have invalid types or decimal values")
  end.

(** The branches of the depth and of the shutdown stream. *)
Definition parse_nested_depth (data : Json) (received_at : ClockSample)
  (connection_id requested_symbol : string) : Frame NormalizedMarketEvent + ProtocolError :=
  let? nested := parse_depth_object data received_at connection_id requested_symbol in
  match nested with
  | FrameEvent update => inl (FrameEvent (EvDepthUpdate update))
  | FrameServerShutdown event_time => inl (FrameServerShutdown event_time)
  end.

(** In this branch the nested parser cannot answer an update. *)
Definition parse_nested_shutdown (data : Json) (received_at : ClockSample)
  (connection_id requested_symbol : string) : Frame NormalizedMarketEvent + ProtocolError :=
  fail_if negb (bool_decide (string_field data "e" = Some "serverShutdown"))
    with protocol_error WrongEvent "e" "server shutdown stream requires a serverShutdown event" ;;
  parse_nested_depth data received_at connection_id requested_symbol.

Definition route_stream (stream stream_symbol : string) (data : Json)
  (received_at : ClockSample) (connection_id requested_symbol : string)
  : Frame NormalizedMarketEvent + ProtocolError :=
  let depth_stream := stream_symbol +:+ "@depth@100ms" in
  let agg_trade_stream := stream_symbol +:+ "@aggTrade" in
  let book_ticker_stream := stream_symbol +:+ "@bookTicker" in
  if bool_decide (stream = "!serverShutdown")
  then parse_nested_shutdown data received_at connection_id requested_symbol
  else if bool_decide (stream = depth_stream)
  then parse_nested_depth data received_at connection_id requested_symbol
  else if bool_decide (stream = agg_trade_stream)
  then let? trade := parse_agg_trade data received_at connection_id requested_symbol in
       inl (FrameEvent (EvAggTrade trade))
  else if bool_decide (stream = book_ticker_stream)
  then let? ticker := parse_book_ticker data received_at connection_id requested_symbol in
       inl (FrameEvent (EvBookTicker ticker))
  else inr (protocol_error WrongEvent "stream" "combined stream is not configured for G9").

Definition parse_combined_event_frame (payload : string) (received_at : ClockSample)
  (connection_id requested_symbol : string) : Frame NormalizedMarketEvent + ProtocolError :=
  let? root := parse_json payload in
  fail_if bool_decide (spot_stream_symbol requested_symbol = None) with unroutable_spot ;;
  fail_if negb (has_required_keys root ["stream"; "data"])
    with protocol_error InvalidShape "payload"
           "combined stream envelope has an unexpected shape" ;;
  match string_field root "stream", find root "data" with
  | Some stream, Some data =>
      fail_if negb (is_object data)
        with protocol_error InvalidField "stream" "combined stream and data must be valid" ;;
      fail_if bool_decide (connection_id = "")
        with protocol_error InvalidField "connection_id" "connection_id must be non-empty" ;;
      match spot_stream_symbol requested_symbol with
      | Some stream_symbol =>
          route_stream stream stream_symbol data received_at connection_id requested_symbol
      | None =>
          inr (protocol_error InvalidMarketMetadata "symbol"
                 ("configured Spot symbol cannot be represented as a Binance " +:+
                  "stream symbol"))
      end
  | _, _ => inr (protocol_error InvalidField "stream" "combined stream and data must be valid")
  end.

Definition parse_depth_snapshot (payload : string) (received_at : ClockSample)
  (request_id requested_symbol : string) : ExchangeDepthSnapshot + ProtocolError :=
  let? root := parse_json payload in
  fail_if bool_decide (spot_stream_symbol requested_symbol = None) with unroutable_spot ;;
  fail_if negb (has_required_keys root ["lastUpdateId"; "bids"; "asks"])
    with protocol_error InvalidShape "payload" "depth snapshot has an unexpected shape" ;;
  match unsigned_field root "lastUpdateId" with
  | Some last_update_id =>
      fail_if bool_decide (request_id = "")
        with protocol_error InvalidField "lastUpdateId"
               "lastUpdateId must be uint64 and request_id non-empty" ;;
      let? bids := append_levels (at_member root "bids") [] "bids" in
      let? asks := append_levels (at_member root "asks") [] "asks" in
      inl (MkExchangeDepthSnapshot VENUE_BINANCE MARKET_SPOT requested_symbol
             "exchange-depth-snapshot.v1" "gateway-g4-spot" "1.0.0" request_id last_update_id
             None (sample_utc_ns received_at) (sample_monotonic_ns received_at) bids asks)
  | None => inr (protocol_error InvalidField "lastUpdateId"
                   "lastUpdateId must be uint64 and request_id non-empty")
  end.
End Events.

(** ** Decimal texts: what is accepted *)

(** [value] is [whole] or [whole.fraction], in digits. *)
Record decimal_text (value whole fraction : string) : Prop := {
  dt_value : value = (if bool_decide (fraction = "") then whole else whole +:+ "." +:+ fraction);
  dt_whole : whole ≠ "" ∧ digits whole = true;
  dt_fraction : digits fraction = true
}.

Lemma digits_no_point s : digits s = true → find_char "." s = None.
Proof.
  intros H. apply find_char_none. revert H. induction s as [|c s IH]; [done|].
  unfold digits. cbn [all_chars]. intros [Hc Hs]%andb_true_iff. rewrite (IH Hs), andb_true_r.
  apply negb_true_iff, bool_decide_eq_false. by intros ->.
Qed.

Lemma decimal_text_parts value whole fraction :
  decimal_text value whole fraction →
  whole_part value = whole ∧ fraction_part value = fraction ∧ second_point value = false ∧
  has_point value = negb (bool_decide (fraction = "")) ∧ signed_text value = false ∧ value ≠ "".
Proof.
  intros [-> [Hne Hw] Hf].
  assert (Hsign : ∀ rest, signed_text (whole +:+ rest) = false ∧ whole +:+ rest ≠ "").
  { intros rest. destruct whole as [|c whole]; [done|]. split; [|done].
    apply andb_true_iff in Hw as [Hc _]. simpl. apply orb_false_iff.
    rewrite !bool_decide_eq_false. by split; intros ->. }
  unfold whole_part, fraction_part, second_point, has_point. case_bool_decide as Hempty.
  - subst. rewrite digits_no_point by done. pose proof (Hsign "") as [Hs Hn].
    rewrite append_empty_r in Hs. by split_all.
  - change ("." +:+ fraction) with (String "." fraction).
    rewrite find_char_app by (by apply digits_no_point).
    assert (Hdrop : drop_string (String.length whole + 1) (whole +:+ String "." fraction) = fraction).
    { change (String "." fraction) with ("." +:+ fraction).
      rewrite <- append_assoc.
      replace (String.length whole + 1) with (String.length (whole +:+ ".")); [apply drop_string_app|].
      rewrite length_append. done. }
    rewrite take_string_app, Hdrop, digits_no_point by done.
    destruct (Hsign (String "." fraction)). by split_all.
Qed.

Lemma syntax_decimal_text value :
  bool_decide (whole_part value = "") || negb (digits (whole_part value))
  || (has_point value && bool_decide (fraction_part value = ""))
  || negb (digits (fraction_part value)) = false →
  decimal_text value (whole_part value) (fraction_part value).
Proof.
  rewrite !orb_false_iff, !negb_false_iff, bool_decide_eq_false.
  intros [[[Hw Hd] Hp] Hf]. split; [|done..].
  unfold has_point, whole_part, fraction_part in *.
  destruct (find_char "." value) as [d|] eqn:Hfind; [|by rewrite bool_decide_eq_true_2].
  rewrite bool_decide_eq_true_2 in Hp by done. cbn [andb] in Hp. rewrite Hp.
  apply find_char_some in Hfind as (Heq & _). rewrite Heq at 1. by rewrite Nat.add_1_r.
Qed.

(** The four tests of both routines. *)
Lemma decimal_text_iff value whole fraction :
  decimal_text value whole fraction ↔
  value ≠ "" ∧ signed_text value = false ∧ second_point value = false ∧
  bool_decide (whole_part value = "") || negb (digits (whole_part value))
  || (has_point value && bool_decide (fraction_part value = ""))
  || negb (digits (fraction_part value)) = false ∧
  whole = whole_part value ∧ fraction = fraction_part value.
Proof.
  split.
  - intros H. destruct (decimal_text_parts _ _ _ H) as (Hw & Hf & Hs & Hp & Hsign & Hne).
    destruct H as [_ [Hwne Hwd] Hfd]. rewrite Hw, Hf, Hp, Hwd, Hfd.
    rewrite bool_decide_eq_false_2 by done. split_all; try done.
    by destruct (bool_decide (fraction = "")).
  - intros (_ & _ & _ & H & -> & ->). by apply syntax_decimal_text.
Qed.

Lemma plain_decimal_text value allow_zero :
  plain_decimal value allow_zero = true ↔
  (∃ whole fraction, decimal_text value whole fraction) ∧
  (allow_zero = true ∨ all_chars is_zero_char value = false).
Proof.
  unfold plain_decimal. split.
  - intros H. break_all. apply orb_false_iff in Heqb as [_ _].
    rewrite orb_true_iff, negb_true_iff in H. split; [|done].
    eexists _, _. by apply syntax_decimal_text.
  - intros [(w & f & Ht) Hz]. apply decimal_text_iff in Ht as (Hne & -> & -> & -> & _).
    rewrite bool_decide_eq_false_2 by done. cbn [orb].
    by rewrite orb_true_iff, negb_true_iff.
Qed.

(** A price or quantity text is accepted exactly when it is [digits] or
    [digits.digits] and, where zero is not allowed, either has a decimal point or
    denotes a number other than zero: the point itself passes for a non-zero
    character, so [0.00] is accepted as a price. *)
Theorem plain_decimal_spec (value : string) (allow_zero : bool) :
  plain_decimal value allow_zero = true ↔
  ∃ whole fraction, decimal_text value whole fraction ∧
    (allow_zero = true ∨ fraction ≠ "" ∨ decimal_value 0 whole ≠ 0%Z).
Proof.
  rewrite plain_decimal_text.
  assert (Hz : ∀ w f, decimal_text value w f →
            all_chars is_zero_char value = false ↔ f ≠ "" ∨ decimal_value 0 w ≠ 0%Z).
  { intros w f [-> [_ Hw] _]. unfold is_zero_char. case_bool_decide as Hf.
    - rewrite (decimal_value_zero _ Hw). subst.
      rewrite not_true_iff_false. split; [by right|by intros [[]|]].
    - rewrite !all_chars_app. cbn [all_chars]. rewrite andb_false_r. by split; [left|]. }
  split.
  - intros [(w & f & Ht) H]. exists w, f. split; [done|]. by rewrite <- Hz.
  - intros (w & f & Ht & H). split; [by eauto|]. by rewrite (Hz w f Ht).
Qed.

Example zero_price_accepted : plain_decimal "0.00" false = true.
Proof. reflexivity. Qed.

(** ** Scales *)

(** [scale] is the least number of decimals with which [number / 10^decimals] can be
    written. *)
Definition least_scale (number decimals scale : Z) : Prop :=
  (0 <= scale <= decimals)%Z ∧ (10 ^ (decimals - scale) | number)%Z ∧
  ∀ k, (0 <= k < scale)%Z → ¬ (10 ^ (decimals - k) | number)%Z.

Lemma least_scale_unique number decimals k k' :
  least_scale number decimals k → least_scale number decimals k' → k = k'.
Proof.
  intros (Hk & Hd & Hmin) (Hk' & Hd' & Hmin').
  destruct (Z.lt_trichotomy k k') as [Hlt|[Heq|Hlt]]; [|done|].
  - by destruct (Hmin' k ltac:(lia)).
  - by destruct (Hmin k' ltac:(lia)).
Qed.

(** The decimals that count, as the routine finds them. *)
Definition significant (fraction : string) : nat :=
  match find_last_not_of "0" fraction with None => 0 | Some last => last + 1 end.

Lemma significant_least whole fraction :
  digits fraction = true →
  least_scale (decimal_value 0 (whole +:+ fraction)) (String.length fraction)
    (significant fraction).
Proof.
  intros Hf. unfold significant. rewrite decimal_value_app, decimal_value_acc, power_ten_length.
  destruct (find_last_not_of "0" fraction) as [e|] eqn:He.
  - apply find_last_not_of_some in He as (pre & d & post & -> & <- & Hd & Hz).
    unfold digits in Hf. rewrite all_chars_app in Hf. apply andb_true_iff in Hf as [_ Hf].
    apply andb_true_iff in Hf as [Hdd _].
    assert (Hn : (decimal_value 0 whole * 10 ^ String.length (pre +:+ String d post)
                  + decimal_value 0 (pre +:+ String d post)
                  = (10 * (decimal_value 0 (whole +:+ pre)) + digit_value d)
                    * 10 ^ String.length post)%Z).
    { rewrite <- !power_ten_length, <- decimal_value_acc, <- decimal_value_app, <- append_assoc.
      rewrite decimal_value_app. cbn [decimal_value]. rewrite decimal_value_acc.
      apply decimal_value_zero in Hz; [rewrite Hz; lia|]. by apply zeros_are_digits. }
    rewrite Hn. clear Hn. rewrite length_append. cbn [String.length]. unfold least_scale.
    split_all; [lia|lia| |].
    + replace (_ - _)%Z with (Z.of_nat (String.length post)) by lia. by apply Z.divide_factor_r.
    + intros k Hk Hdiv. apply Hd, digit_value_zero; [done|].
      pose proof (digit_value_bounds d Hdd).
      assert (H10 : (10 * 10 ^ String.length post
                     | (10 * decimal_value 0 (whole +:+ pre) + digit_value d)
                       * 10 ^ String.length post)%Z).
      { etrans; [|exact Hdiv]. rewrite <- Z.pow_succ_r by lia.
        exists (10 ^ (String.length pre - k))%Z.
        rewrite <- Z.pow_add_r by lia. f_equal. lia. }
      apply Z.mul_divide_cancel_r in H10; [|apply Z.pow_nonzero; lia].
      destruct H10 as [q Hq]. lia.
  - apply find_last_not_of_none in He.
    rewrite (proj2 (decimal_value_zero fraction Hf) He).
    unfold least_scale. split_all; [lia|lia| |intros k Hk; lia].
    rewrite Z.sub_0_r, Z.add_0_r. by apply Z.divide_factor_r.
Qed.

(** The test that the quantum is not zero. *)
Lemma positive_number quantum whole fraction :
  decimal_text quantum whole fraction →
  negb (negb (all_chars is_zero_char whole)) && bool_decide (find_last_not_of "0" fraction = None)
    = false ↔ (0 < decimal_value 0 (whole +:+ fraction))%Z.
Proof.
  intros [_ [_ Hw] Hf]. rewrite negb_involutive.
  pose proof (decimal_value_nonneg 0 (whole +:+ fraction)) as Hnn.
  pose proof (decimal_value_zero (whole +:+ fraction)) as Hzero.
  rewrite all_chars_app in Hnn, Hzero. unfold digits in Hw, Hf. rewrite Hw, Hf in Hnn, Hzero.
  specialize (Hnn eq_refl ltac:(lia)). specialize (Hzero eq_refl).
  rewrite all_chars_app in Hzero.
  assert (Hiff : all_chars is_zero_char whole && bool_decide (find_last_not_of "0" fraction = None)
                 = true ↔ decimal_value 0 (whole +:+ fraction) = 0%Z).
  { rewrite Hzero, !andb_true_iff, bool_decide_eq_true, find_last_not_of_none. done. }
  rewrite <- not_true_iff_false, Hiff. lia.
Qed.

Section Scale.
Context `{N : NumericLibrary}.

(** A quantum is accepted exactly when it is a plain positive decimal, and its scale
    is the least number of decimals that represents it exactly, provided the projection
    library has such a scale. *)
Theorem decimal_scale_spec (quantum : string) (s : DecimalScale) :
  decimal_scale_from_quantum quantum = inl s ↔
  ∃ whole fraction k,
    decimal_text quantum whole fraction ∧
    (0 < decimal_value 0 (whole +:+ fraction))%Z ∧
    least_scale (decimal_value 0 (whole +:+ fraction)) (String.length fraction) k ∧
    decimal_scale_create (k mod 4294967296)%Z = Some s.
Proof.
  unfold decimal_scale_from_quantum. rewrite !fail_if_inl. split.
  - intros (_ & _ & _ & Hsyntax & Hpos & H).
    pose proof (syntax_decimal_text _ Hsyntax) as Ht.
    exists (whole_part quantum), (fraction_part quantum), (significant (fraction_part quantum)).
    split_all; [done| |apply significant_least, Ht|].
    + exact (proj1 (positive_number _ _ _ Ht) Hpos).
    + unfold significant. by destruct (decimal_scale_create _); [injection H as ->|].
  - intros (w & f & k & Ht & Hpos & Hk & Hs).
    assert (k = significant f) as -> by (eapply least_scale_unique, significant_least, Ht; done).
    pose proof (positive_number _ _ _ Ht) as Hpn.
    apply decimal_text_iff in Ht as (Hne & Hsign & Hsp & Hsyntax & -> & ->).
    rewrite bool_decide_eq_false_2 by done. split_all; [done..|by apply Hpn|].
    unfold significant in Hs. by rewrite Hs.
Qed.
End Scale.

(** ** Frames: what is accepted *)

(** The members of the events, beside which a document may have others. *)
Definition depth_members (symbol : string) (event_time : Z) (u : DepthUpdate)
  : list (string * Json) :=
  [("e", JsonString "depthUpdate"); ("E", JsonUnsigned event_time); ("s", JsonString symbol);
   ("U", JsonUnsigned (first_update_id u)); ("u", JsonUnsigned (final_update_id u));
   ("b", levels_json (du_bids u)); ("a", levels_json (du_asks u))].

Definition agg_trade_members (symbol : string) (event_time : Z) (best_match : bool) (t : AggTrade)
  : list (string * Json) :=
  [("e", JsonString "aggTrade"); ("E", JsonUnsigned event_time); ("s", JsonString symbol);
   ("a", JsonUnsigned (aggregate_trade_id t)); ("p", JsonString (at_price t));
   ("q", JsonString (at_quantity t)); ("f", JsonUnsigned (first_trade_id t));
   ("l", JsonUnsigned (last_trade_id t)); ("T", JsonUnsigned (trade_time_ms t));
   ("m", JsonBoolean (buyer_is_maker t)); ("M", JsonBoolean best_match)].

Definition book_ticker_members (symbol : string) (b : BookTicker) : list (string * Json) :=
  [("u", JsonUnsigned (update_id b)); ("s", JsonString symbol);
   ("b", JsonString (best_bid_price b)); ("B", JsonString (best_bid_quantity b));
   ("a", JsonString (best_ask_price b)); ("A", JsonString (best_ask_quantity b))].

Definition shutdown_members (event_time : Z) : list (string * Json) :=
  [("e", JsonString "serverShutdown"); ("E", JsonUnsigned event_time)].

Section Frames.
Context `{W : WireEnums} `{J : JsonLibrary}.
Implicit Types (data root : Json) (rx : ClockSample) (conn sym : string).

(** [data] is the document of this event, received by this connection. *)
Definition is_depth data rx conn sym (u : DepthUpdate) : Prop :=
  conn ≠ "" ∧ contains data "pu" = false ∧ previous_final_update_id u = None ∧
  ∃ event_time, carries data (depth_members sym event_time u) ∧
                du_metadata u = depth_metadata sym conn rx event_time.

Definition is_agg_trade data rx conn sym (t : AggTrade) : Prop :=
  plain_decimal (at_price t) false = true ∧ plain_decimal (at_quantity t) false = true ∧
  ∃ event_time best, carries data (agg_trade_members sym event_time best t) ∧
    at_metadata t = agg_trade_metadata sym conn rx event_time (trade_time_ms t).

Definition is_book_ticker data rx conn sym (b : BookTicker) : Prop :=
  plain_decimal (best_bid_price b) false = true ∧ plain_decimal (best_bid_quantity b) true = true ∧
  plain_decimal (best_ask_price b) false = true ∧ plain_decimal (best_ask_quantity b) true = true ∧
  carries data (book_ticker_members sym b) ∧ bt_metadata b = book_ticker_metadata sym conn rx.

Lemma parse_depth_fields_spec data rx conn sym f :
  is_depth_shape data = true → contains data "pu" = false →
  string_field data "e" = Some "depthUpdate" →
  parse_depth_fields data rx conn sym = inl f ↔
  ∃ u, f = FrameEvent u ∧ is_depth data rx conn sym u.
Proof.
  intros Hshape Hpu He. unfold parse_depth_fields, is_depth, depth_members.
  assert (Hat : ∀ name j, name ∈ ["b"; "a"] →
            at_member data name = j ↔ find data name = Some j).
  { intros name j Hin. apply at_member_spec. apply (required_key _ _ _ Hshape).
    cut (["b"; "a"] ⊆ ["e"; "E"; "s"; "U"; "u"; "b"; "a"]); [intros Hsub; by apply Hsub|].
    intros x Hx%list_elem_of_In. apply list_elem_of_In. simpl in *. tauto. }
  split.
  - destruct (unsigned_field data "E") as [et|] eqn:HE; [|by intros [_ ?]%fail_if_inl].
    destruct (unsigned_field data "U") as [first|] eqn:HU; [|by intros [_ ?]%fail_if_inl].
    destruct (unsigned_field data "u") as [final|] eqn:Hu; [|by intros [_ ?]%fail_if_inl].
    read_tests. intros (Hs & Hc & bids & Hb & H). read_tests. destruct H as (asks & Ha & [= <-]).
    read_tests. rewrite Hat in Hb, Ha by in_list.
    eexists. split; [done|]. split_all; [done..|]. exists et.
    rewrite !carries_cons, carries_nil. by split_all.
  - intros (u & -> & Hc & _ & Hpf & et & Hcar & Hmd).
    rewrite !carries_cons, carries_nil in Hcar. destruct Hcar as (_ & HE & Hs & HU & Hu & Hb & Ha & _).
    apply unsigned_field_spec in HE, HU, Hu. rewrite HE, HU, Hu.
    read_tests. split_all; [done..|]. eexists. rewrite append_levels_spec, Hat by in_list.
    split; [exact Hb|]. read_tests. eexists. rewrite append_levels_spec, Hat by in_list.
    split; [exact Ha|]. destruct u. simpl in *. by subst.
Qed.

Lemma parse_server_shutdown_spec {A} data (f : Frame A) :
  string_field data "e" = Some "serverShutdown" →
  parse_server_shutdown data = inl f ↔
  ∃ t, f = FrameServerShutdown t ∧ carries data (shutdown_members t).
Proof.
  intros He. unfold parse_server_shutdown. rewrite fail_if_inl, negb_false_iff. split.
  - intros [_ H]. destruct (unsigned_field data "E") as [t|] eqn:Ht; [|done].
    injection H as <-. exists t. apply string_field_spec in He. apply unsigned_field_spec in Ht.
    unfold shutdown_members. by rewrite !carries_cons, carries_nil.
  - intros (t & -> & Hcar). pose proof Hcar as Hkeys. apply carries_keys in Hkeys; [|done].
    split; [done|]. unfold shutdown_members in Hcar.
    rewrite !carries_cons, carries_nil, <- unsigned_field_spec in Hcar.
    by destruct Hcar as (_ & -> & _).
Qed.

Lemma parse_depth_object_event data rx conn sym u :
  parse_depth_object data rx conn sym = inl (FrameEvent u) ↔
  spot_stream_symbol sym ≠ None ∧ is_depth data rx conn sym u.
Proof.
  unfold parse_depth_object. rewrite fail_if_inl, bool_decide_eq_false.
  destruct (string_field data "e") as [event|] eqn:He.
  - case_bool_decide as Hev.
    + subst. rewrite parse_server_shutdown_spec by done. split.
      * by intros (_ & ? & ? & _).
      * intros (_ & _ & _ & _ & et & Hcar & _). unfold depth_members in Hcar.
        rewrite carries_cons, <- string_field_spec in Hcar. destruct Hcar. congruence.
    + rewrite !fail_if_inl. split.
      * intros (Hsym & Hdepth & [Hshape Hpu]%orb_false_iff & H). read_tests. subst event.
        apply parse_depth_fields_spec in H; [|done..|by apply string_field_spec].
        destruct H as (? & [= <-] & ?). done.
      * intros (Hsym & Hu). pose proof Hu as (_ & Hpu & _ & et & Hcar & _).
        assert (Hshape : is_depth_shape data = true) by (by apply (carries_keys _ _) in Hcar).
        unfold depth_members in Hcar. rewrite carries_cons in Hcar. destruct Hcar as [He' _].
        apply string_field_spec in He'. rewrite He in He'. injection He' as ->.
        rewrite Hshape, Hpu, bool_decide_eq_true_2 by done. split_all; [done..|].
        apply parse_depth_fields_spec; [done..|]. by eexists.
  - split; [by intros []|]. intros (_ & _ & _ & _ & et & Hcar & _).
    unfold depth_members in Hcar. rewrite carries_cons, <- string_field_spec in Hcar.
    destruct Hcar. congruence.
Qed.

Lemma parse_depth_object_shutdown data rx conn sym t :
  parse_depth_object data rx conn sym = inl (FrameServerShutdown t) ↔
  spot_stream_symbol sym ≠ None ∧ carries data (shutdown_members t).
Proof.
  unfold parse_depth_object. rewrite fail_if_inl, bool_decide_eq_false.
  assert (He : carries data (shutdown_members t) → string_field data "e" = Some "serverShutdown").
  { unfold shutdown_members. rewrite carries_cons, <- string_field_spec. by intros []. }
  destruct (string_field data "e") as [event|] eqn:Hevent;
    [|split; [by intros []|intros [_ Ht]; by apply He in Ht]].
  case_bool_decide as Hev.
  - subst. rewrite parse_server_shutdown_spec by done.
    split; [by intros (? & ? & [= <-] & ?)|]. intros [? ?]. split; [done|]. by exists t.
  - rewrite !fail_if_inl. split; [|intros [_ Ht]; apply He in Ht; congruence].
    intros (_ & Hdepth & [Hshape Hpu]%orb_false_iff & H). read_tests. subst event.
    apply parse_depth_fields_spec in H; [|done..|by apply string_field_spec].
    by destruct H as (? & ? & ?).
Qed.

Lemma parse_agg_trade_spec data rx conn sym t :
  parse_agg_trade data rx conn sym = inl t ↔ is_agg_trade data rx conn sym t.
Proof.
  unfold parse_agg_trade, is_agg_trade. split.
  - read_tests. intros (_ & He & Hs & H).
    destruct (unsigned_field data "a") as [?|] eqn:?; [|done].
    destruct (string_field data "p") as [?|] eqn:?; [|done].
    destruct (string_field data "q") as [?|] eqn:?; [|done].
    destruct (unsigned_field data "f") as [?|] eqn:?; [|done].
    destruct (unsigned_field data "l") as [?|] eqn:?; [|done].
    destruct (unsigned_field data "E") as [et|] eqn:?; [|done].
    destruct (unsigned_field data "T") as [?|] eqn:?; [|done].
    destruct (boolean_field data "m") as [?|] eqn:?; [|done].
    destruct (boolean_field data "M") as [best|] eqn:?; [|done].
    read_tests. destruct H as ([Hp Hq] & [= <-]). read_tests. split_all; [done..|].
    exists et, best. unfold agg_trade_members. rewrite !carries_cons, carries_nil. by split_all.
  - intros (Hp & Hq & et & best & Hcar & Hmd).
    pose proof Hcar as Hkeys. apply carries_keys in Hkeys; [|done]. cbn [agg_trade_members fmap list_fmap fst] in Hkeys.
    unfold agg_trade_members in Hcar. rewrite !carries_cons, carries_nil in Hcar.
    rewrite <- !unsigned_field_spec, <- !string_field_spec, <- !boolean_field_spec in Hcar.
    destruct Hcar as (-> & -> & -> & -> & -> & -> & -> & -> & -> & -> & -> & _).
    rewrite Hkeys, !bool_decide_eq_true_2, Hp, Hq by done. destruct t. simpl in *. by subst.
Qed.

Lemma parse_book_ticker_spec data rx conn sym b :
  parse_book_ticker data rx conn sym = inl b ↔ is_book_ticker data rx conn sym b.
Proof.
  unfold parse_book_ticker, is_book_ticker. split.
  - read_tests. intros (_ & Hs & H).
    destruct (unsigned_field data "u") as [?|] eqn:?; [|done].
    destruct (string_field data "b") as [?|] eqn:?; [|done].
    destruct (string_field data "B") as [?|] eqn:?; [|done].
    destruct (string_field data "a") as [?|] eqn:?; [|done].
    destruct (string_field data "A") as [?|] eqn:?; [|done].
    read_tests. destruct H as ([[[Hp1 Hp2] Hp3] Hp4] & [= <-]). read_tests. split_all; try done.
    unfold book_ticker_members. rewrite !carries_cons, carries_nil. by split_all.
  - intros (Hp1 & Hp2 & Hp3 & Hp4 & Hcar & Hmd).
    pose proof Hcar as Hkeys. apply carries_keys in Hkeys; [|done].
    cbn [book_ticker_members fmap list_fmap fst] in Hkeys.
    unfold book_ticker_members in Hcar. rewrite !carries_cons, carries_nil in Hcar.
    rewrite <- !unsigned_field_spec, <- !string_field_spec in Hcar.
    destruct Hcar as (-> & -> & -> & -> & -> & -> & _).
    rewrite Hkeys, !bool_decide_eq_true_2, Hp1, Hp2, Hp3, Hp4 by done.
    destruct b. simpl in *. by subst.
Qed.

(** The document under [stream] of the combined connection of a symbol, named [enc] in
    its streams, is this frame. *)
Definition is_frame enc stream data rx conn sym (frame : Frame NormalizedMarketEvent) : Prop :=
  match frame with
  | FrameEvent (EvDepthUpdate u) =>
      stream = enc +:+ "@depth@100ms" ∧ is_depth data rx conn sym u
  | FrameEvent (EvAggTrade t) => stream = enc +:+ "@aggTrade" ∧ is_agg_trade data rx conn sym t
  | FrameEvent (EvBookTicker b) =>
      stream = enc +:+ "@bookTicker" ∧ is_book_ticker data rx conn sym b
  | FrameServerShutdown t =>
      (stream = "!serverShutdown" ∨ stream = enc +:+ "@depth@100ms") ∧
      carries data (shutdown_members t)
  end.

Lemma parse_nested_depth_spec enc data rx conn sym f :
  spot_stream_symbol sym ≠ None → enc +:+ "@depth@100ms" ≠ "!serverShutdown" →
  parse_nested_depth data rx conn sym = inl f ↔
  is_frame enc (enc +:+ "@depth@100ms") data rx conn sym f ∧
  match f with FrameEvent (EvDepthUpdate _) | FrameServerShutdown _ => True | _ => False end.
Proof.
  intros Hsym Hne. unfold parse_nested_depth. rewrite sum_bind_inl. split.
  - intros ([u|t] & Hn & [= <-]); simpl.
    + apply parse_depth_object_event in Hn as [_ Hu]. done.
    + apply parse_depth_object_shutdown in Hn as [_ Ht]. split; [|done]. split; [by right|done].
  - destruct f as [[u|t|b]|t]; simpl; try by intros [].
    + intros [[_ Hu] _]. exists (FrameEvent u). split; [by apply parse_depth_object_event|done].
    + intros [[_ Ht] _]. exists (FrameServerShutdown t).
      split; [by apply parse_depth_object_shutdown|done].
Qed.

Lemma parse_nested_shutdown_spec data rx conn sym f :
  spot_stream_symbol sym ≠ None →
  parse_nested_shutdown data rx conn sym = inl f ↔
  ∃ t, f = FrameServerShutdown t ∧ carries data (shutdown_members t).
Proof.
  intros Hsym. unfold parse_nested_shutdown. rewrite fail_if_inl, negb_false_iff, bool_decide_eq_true.
  unfold parse_nested_depth. rewrite sum_bind_inl. split.
  - intros (He & [u|t] & Hn & [= <-]).
    + apply parse_depth_object_event in Hn as [_ (_ & _ & _ & et & Hcar & _)].
      unfold depth_members in Hcar. rewrite carries_cons, <- string_field_spec in Hcar.
      destruct Hcar. congruence.
    + apply parse_depth_object_shutdown in Hn as [_ Ht]. by eexists.
  - intros (t & -> & Ht). split.
    + unfold shutdown_members in Ht. rewrite carries_cons, <- string_field_spec in Ht. by destruct Ht.
    + exists (FrameServerShutdown t). split; [by apply parse_depth_object_shutdown|done].
Qed.

Lemma encoded_first sym enc rest :
  spot_stream_symbol sym = Some enc → enc +:+ rest ≠ "!serverShutdown".
Proof.
  unfold spot_stream_symbol. destruct sym as [|c sym]; [done|]. cbn [bool_decide decide].
  rewrite bool_decide_eq_false_2 by done. cbn [encode_symbol].
  destruct (stream_character c) as [e|] eqn:He; [|done]. simpl.
  destruct (encode_symbol sym) as [es|]; [|done]. intros [= <-]. rewrite append_cons.
  intros [= ->]. revert He. unfold stream_character.
  destruct c as [[] [] [] [] [] [] [] []]; vm_compute; done.
Qed.

Lemma route_stream_spec enc stream data rx conn sym f :
  spot_stream_symbol sym = Some enc →
  route_stream stream enc data rx conn sym = inl f ↔ is_frame enc stream data rx conn sym f.
Proof.
  intros Hsym. assert (Hroutable : spot_stream_symbol sym ≠ None) by congruence.
  pose proof (encoded_first sym enc "@depth@100ms" Hsym) as H1.
  pose proof (encoded_first sym enc "@aggTrade" Hsym) as H2.
  pose proof (encoded_first sym enc "@bookTicker" Hsym) as H3.
  assert (Hinj : ∀ a b, enc +:+ a = enc +:+ b → a = b) by (intros; by simplify_eq).
  unfold route_stream. case_bool_decide as Hs1; [|case_bool_decide as Hs2; [|
    case_bool_decide as Hs3; [|case_bool_decide as Hs4]]].
  - subst. rewrite parse_nested_shutdown_spec by done. split.
    + intros (t & -> & Ht). split; [by left|done].
    + destruct f as [[]|t]; simpl; [by intros [? _]..|]. intros [_ Ht]. by exists t.
  - subst. rewrite (parse_nested_depth_spec enc) by done. split; [by intros []|].
    intros Hf. split; [done|]. destruct f as [[]|]; simpl in Hf; try done;
      destruct Hf as [Heq _]; apply Hinj in Heq; done.
  - subst. rewrite sum_bind_inl. split.
    + intros (t & Ht & [= <-]). split; [done|]. by apply parse_agg_trade_spec.
    + destruct f as [[]|]; simpl; [by intros [Heq%Hinj _]| |by intros [Heq%Hinj _]|
        by intros [[?|Heq%Hinj] _]].
      intros [_ Ht]. exists trade. split; [by apply parse_agg_trade_spec|done].
  - subst. rewrite sum_bind_inl. split.
    + intros (b & Hb & [= <-]). split; [done|]. by apply parse_book_ticker_spec.
    + destruct f as [[]|]; simpl; [by intros [Heq%Hinj _]|by intros [Heq%Hinj _]| |
        by intros [[?|Heq%Hinj] _]].
      intros [_ Hb]. exists ticker. split; [by apply parse_book_ticker_spec|done].
  - split; [done|]. destruct f as [[]|]; simpl; [by intros []..|by intros [[] _]].
Qed.

(** C21: A combined frame is accepted exactly when its envelope names a stream of the
    configured symbol and its data is the document of an event of that stream for that
    symbol (whatever other members it has); the event returned then has exactly the
    document's values, in order, and the metadata of this connection and instant. *)
Theorem combined_frame_spec (payload : string) rx conn sym
  (frame : Frame NormalizedMarketEvent) :
  parse_combined_event_frame payload rx conn sym = inl frame ↔
  ∃ root enc stream data,
    parse_json payload = inl root ∧ spot_stream_symbol sym = Some enc ∧ conn ≠ "" ∧
    carries root [("stream", JsonString stream); ("data", data)] ∧ is_object data = true ∧
    is_frame enc stream data rx conn sym frame.
Proof.
  unfold parse_combined_event_frame. rewrite sum_bind_inl. split.
  - intros (root & Hroot & H). rewrite !fail_if_inl in H. destruct H as (_ & _ & H).
    destruct (string_field root "stream") as [stream|] eqn:Hstream; [|done].
    destruct (find root "data") as [data|] eqn:Hdata; [|done].
    rewrite !fail_if_inl, negb_false_iff, bool_decide_eq_false in H.
    destruct H as (Hobj & Hconn & H).
    destruct (spot_stream_symbol sym) as [enc|] eqn:Hsym; [|done].
    exists root, enc, stream, data. apply string_field_spec in Hstream.
    split_all; [done..|by rewrite !carries_cons, carries_nil|done|].
    by apply (route_stream_spec enc).
  - intros (root & enc & stream & data & Hroot & Hsym & Hconn & Hcar & Hobj & Hf).
    exists root. split; [done|]. pose proof Hcar as Hkeys. apply carries_keys in Hkeys; [|done].
    rewrite !carries_cons, carries_nil, <- string_field_spec in Hcar.
    destruct Hcar as (Hstream & Hdata & _). rewrite !fail_if_inl, Hsym, Hstream, Hdata, Hobj.
    rewrite !fail_if_inl, bool_decide_eq_false.
    split_all; try done; [by apply negb_false_iff|by apply bool_decide_eq_false|].
    by apply (route_stream_spec enc).
Qed.
End Frames.

(** ** Metadata: what is accepted *)

(** The documents of a list whose string member [name] is [text]. *)
Definition with_text (name text : string) (l : list Json) : list Json :=
  filter (λ j, string_field j name = Some text) l.

Definition all_texts (name : string) (l : list Json) : Prop :=
  Forall (λ j, is_Some (string_field j name)) l.

(** What one pass adds to [before]: the one document of [matching], read by [value]. *)
Definition at_most_one {A} (matching : list Json) (value : Json → option A)
  (before after : option A) : Prop :=
  match before with
  | Some _ => matching = [] ∧ after = before
  | None => (matching = [] ∧ after = None) ∨ ∃ j, matching = [j] ∧ value j = after ∧ after ≠ None
  end.

Lemma string_field_object j name : is_Some (string_field j name) → is_object j = true.
Proof.
  intros [t Ht]. apply string_field_spec in Ht. by eapply find_object.
Qed.

Lemma at_most_one_nil {A} (value : Json → option A) a b : at_most_one [] value a b ↔ b = a.
Proof.
  destruct a; simpl; [by split; [intros []|]|].
  by split; [intros [[]|(? & ? & _)]|left].
Qed.

Lemma at_most_one_skip {A} (p : Json → Prop) `{∀ j, Decision (p j)} j l (value : Json → option A) a b :
  ¬ p j → at_most_one (filter p (j :: l)) value a b ↔ at_most_one (filter p l) value a b.
Proof. intros Hp. by rewrite filter_cons_False. Qed.

Lemma at_most_one_take {A} (p : Json → Prop) `{∀ j, Decision (p j)} j l (value : Json → option A) b :
  p j → at_most_one (filter p (j :: l)) value None b ↔
        ∃ v, value j = Some v ∧ at_most_one (filter p l) value (Some v) b.
Proof.
  intros Hp. rewrite filter_cons_True by done. unfold at_most_one. split.
  - intros [[? _]|(? & [= <- Hnil] & Hv & Hne)]; [done|]. destruct b as [v|]; [|done].
    by exists v.
  - intros (v & Hv & Hnil & ->). right. exists j. by rewrite Hnil.
Qed.

Lemma at_most_one_full {A} (p : Json → Prop) `{∀ j, Decision (p j)} j l (value : Json → option A) v b :
  p j → ¬ at_most_one (filter p (j :: l)) value (Some v) b.
Proof. intros Hp. rewrite filter_cons_True by done. by intros []. Qed.

Lemma select_symbol_spec symbols sym before after :
  select_symbol symbols sym before = inl after ↔
  all_texts "symbol" symbols ∧
  at_most_one (with_text "symbol" sym symbols) Some before after.
Proof.
  unfold with_text, all_texts. revert before.
  induction symbols as [|j l IH]; intros before; simpl.
  - rewrite at_most_one_nil. by split; [intros [= <-]|intros (_ & ->)].
  - rewrite fail_if_inl, negb_false_iff, Forall_cons.
    destruct (string_field j "symbol") as [name|] eqn:Hj;
      [|by split; [intros []|intros [[[] _] _]]].
    assert (Hobj : is_object j = true) by (eapply string_field_object; eauto).
    case_bool_decide as Hname.
    + subst name. rewrite fail_if_inl, bool_decide_eq_false, IH.
      destruct before as [c|].
      * split; [by intros (_ & [] & _)|]. intros [_ H]. contradict H. by apply at_most_one_full.
      * rewrite at_most_one_take by done. split.
        -- intros (_ & _ & Hall & H). split_all; [by eexists|done|by exists j].
        -- intros [[_ Hall] (v & [= <-] & H)]. split_all; [done|by intros []|done|done].
    + rewrite IH, at_most_one_skip by congruence. split; [intros (_ & ? & ?)|intros [[_ ?] ?]];
        split_all; try done; by eexists.
Qed.

Lemma read_filters_spec fs tick step tick' step' :
  read_filters fs tick step = inl (tick', step') ↔
  all_texts "filterType" fs ∧
  at_most_one (with_text "filterType" "PRICE_FILTER" fs) (λ j, string_field j "tickSize") tick tick' ∧
  at_most_one (with_text "filterType" "LOT_SIZE" fs) (λ j, string_field j "stepSize") step step'.
Proof.
  unfold with_text, all_texts. revert tick step.
  induction fs as [|j l IH]; intros tick step; simpl.
  - rewrite !at_most_one_nil. by split; [intros [= <- <-]|intros (_ & -> & ->)].
  - rewrite fail_if_inl, negb_false_iff, Forall_cons.
    destruct (string_field j "filterType") as [type|] eqn:Hj;
      [|by split; [intros []|intros [[[] _] _]]].
    assert (Hobj : is_object j = true) by (eapply string_field_object; eauto).
    case_bool_decide as Hp; [|case_bool_decide as Hl].
    + subst type. rewrite (at_most_one_skip (λ j, string_field j "filterType" = Some "LOT_SIZE"))
        by congruence.
      destruct tick as [t|].
      * split; [by intros []|]. intros (_ & H & _). contradict H. by apply at_most_one_full.
      * rewrite at_most_one_take by done.
        destruct (string_field j "tickSize") as [v|]; [|by split; [intros []|intros (_ & (? & ? & _) & _)]].
        rewrite IH. split.
        -- intros (_ & Hall & H1 & H2). split_all; [by eexists|done|by exists v|done].
        -- intros ([_ Hall] & (v' & [= <-] & H1) & H2). by split_all.
    + subst type. rewrite (at_most_one_skip (λ j, string_field j "filterType" = Some "PRICE_FILTER"))
        by congruence.
      destruct step as [t|].
      * split; [by intros []|]. intros (_ & _ & H). contradict H. by apply at_most_one_full.
      * rewrite at_most_one_take by done.
        destruct (string_field j "stepSize") as [v|]; [|by split; [intros []|intros (_ & _ & (? & ? & _))]].
        rewrite IH. split.
        -- intros (_ & Hall & H1 & H2). split_all; [by eexists|done|done|by exists v].
        -- intros ([_ Hall] & H1 & (v' & [= <-] & H2)). by split_all.
    + rewrite !at_most_one_skip by congruence. rewrite IH.
      split; [intros (_ & ? & ? & ?)|intros ([_ ?] & ? & ?)]; split_all; try done; by eexists.
Qed.

Section MetadataSpec.
Context `{N : NumericLibrary} `{J : JsonLibrary}.

(** The one filter of [type] among [filters] has this value in [member]. *)
Definition one_filter (type member : string) (filters : list Json) (size : string) : Prop :=
  ∃ f, with_text "filterType" type filters = [f] ∧ string_field f member = Some size.

(** The document lists [sym] once, under the given conditions, and its two quanta. *)
Definition product_metadata (conditions : list (string * Json)) (payload sym : string)
  (m : SpotMetadata) : Prop :=
  ∃ root symbols selected filters,
    parse_json payload = inl root ∧ find root "symbols" = Some (JsonArray symbols) ∧
    all_texts "symbol" symbols ∧ with_text "symbol" sym symbols = [selected] ∧
    carries selected conditions ∧ find selected "filters" = Some (JsonArray filters) ∧
    all_texts "filterType" filters ∧
    one_filter "PRICE_FILTER" "tickSize" filters (tick_size m) ∧
    one_filter "LOT_SIZE" "stepSize" filters (step_size m) ∧
    decimal_scale_from_quantum (tick_size m) = inl (price_scale m) ∧
    decimal_scale_from_quantum (step_size m) = inl (quantity_scale m).

Lemma exchange_symbols_spec root symbols :
  exchange_symbols root = inl symbols ↔ find root "symbols" = Some (JsonArray symbols).
Proof.
  unfold exchange_symbols. rewrite fail_if_inl, negb_false_iff. split.
  - intros [_ H]. break_all. done.
  - intros H. rewrite H. split; [by eapply find_object|done].
Qed.

Lemma select_one symbols sym selected :
  select_symbol symbols sym None = inl (Some selected) ↔
  all_texts "symbol" symbols ∧ with_text "symbol" sym symbols = [selected].
Proof.
  rewrite select_symbol_spec. simpl. split.
  - intros (? & [[_ ?]|(j & -> & [= ->] & _)]); done.
  - intros (? & ->). split; [done|]. right. by exists selected.
Qed.

Lemma quantum_metadata_spec filters m :
  (let? sizes := read_filters filters None None in quantum_metadata sizes) = inl m ↔
  all_texts "filterType" filters ∧
  one_filter "PRICE_FILTER" "tickSize" filters (tick_size m) ∧
  one_filter "LOT_SIZE" "stepSize" filters (step_size m) ∧
  decimal_scale_from_quantum (tick_size m) = inl (price_scale m) ∧
  decimal_scale_from_quantum (step_size m) = inl (quantity_scale m).
Proof.
  rewrite sum_bind_inl. split.
  - intros ([[tick|] [step|]] & Hf & H); try done. cbn [quantum_metadata] in H.
    apply read_filters_spec in Hf as (Hall & [[_ ?]|(jt & Ht & Hvt & _)] & [[_ ?]|(js & Hs & Hvs & _)]);
      try done.
    apply sum_bind_inl in H as (price & Hp & H). apply sum_bind_inl in H as (quantity & Hq & [= <-]).
    split_all; [done|by exists jt|by exists js|done|done].
  - intros (Hall & (jt & Ht & Hvt) & (js & Hs & Hvs) & Hp & Hq).
    exists (Some (tick_size m), Some (step_size m)). split.
    + apply read_filters_spec. split_all; [done|right; by exists jt|right; by exists js].
    + cbn [quantum_metadata]. apply sum_bind_inl. eexists. split; [exact Hp|].
      apply sum_bind_inl. eexists. split; [exact Hq|]. by destruct m.
Qed.

(** Spot metadata is accepted exactly when the document lists the requested symbol
    once, TRADING and allowed for spot trading, with exactly one price filter and one lot
    filter whose quanta have scales; the result is those quanta and scales. *)
Theorem exchange_info_spec (payload sym : string) (m : SpotMetadata) :
  parse_exchange_info payload sym = inl m ↔
  spot_stream_symbol sym ≠ None ∧
  product_metadata [("status", JsonString "TRADING"); ("isSpotTradingAllowed", JsonBoolean true)]
    payload sym m.
Proof.
  unfold parse_exchange_info, product_metadata. rewrite sum_bind_inl. split.
  - intros (root & Hroot & H). rewrite fail_if_inl, bool_decide_eq_false, sum_bind_inl in H.
    destruct H as (Hsym & symbols & Hs%exchange_symbols_spec & H).
    apply sum_bind_inl in H as ([selected|] & Hsel & H); [|done].
    apply select_one in Hsel as [Hall Hsel].
    rewrite !fail_if_inl, !negb_false_iff, !bool_decide_eq_true in H.
    rewrite string_field_spec, boolean_field_spec in H. destruct H as (Hst & Hspot & H).
    destruct (find selected "filters") as [[]|] eqn:Hf; try done.
    apply quantum_metadata_spec in H as (? & ? & ? & ? & ?).
    split; [done|]. exists root, symbols, selected, elements. rewrite !carries_cons, carries_nil.
    by split_all.
  - intros (Hsym & root & symbols & selected & filters & Hroot & Hs & Hall & Hsel & Hc & Hf & Hrest).
    rewrite !carries_cons, carries_nil, <- string_field_spec, <- boolean_field_spec in Hc.
    destruct Hc as (Hst & Hspot & _).
    exists root. split; [done|]. rewrite fail_if_inl, bool_decide_eq_false, sum_bind_inl.
    split; [done|]. exists symbols. rewrite exchange_symbols_spec, sum_bind_inl. split; [done|].
    exists (Some selected). rewrite select_one. split; [done|].
    rewrite Hst, Hspot, Hf, !bool_decide_eq_true_2 by done. by apply quantum_metadata_spec.
Qed.
End MetadataSpec.

(** ** Snapshots and symbols *)

Definition snapshot_members (last_update_id : Z) (bids asks : list PriceLevel)
  : list (string * Json) :=
  [("lastUpdateId", JsonUnsigned last_update_id); ("bids", levels_json bids);
   ("asks", levels_json asks)].

Section Snapshots.
Context `{W : WireEnums} `{J : JsonLibrary}.

(** A snapshot is accepted exactly when its document has an update id and two sides
    of price levels, and the result has exactly these, in order. *)
Theorem depth_snapshot_spec (payload : string) (rx : ClockSample) (request_id sym : string)
  (d : ExchangeDepthSnapshot) :
  parse_depth_snapshot payload rx request_id sym = inl d ↔
  spot_stream_symbol sym ≠ None ∧ request_id ≠ "" ∧
  ∃ root last_update_id bids asks,
    parse_json payload = inl root ∧ carries root (snapshot_members last_update_id bids asks) ∧
    d = MkExchangeDepthSnapshot VENUE_BINANCE MARKET_SPOT sym "exchange-depth-snapshot.v1"
          "gateway-g4-spot" "1.0.0" request_id last_update_id None (sample_utc_ns rx)
          (sample_monotonic_ns rx) bids asks.
Proof.
  unfold parse_depth_snapshot. rewrite sum_bind_inl. split.
  - intros (root & Hroot & H). rewrite !fail_if_inl, bool_decide_eq_false, negb_false_iff in H.
    destruct H as (Hsym & Hkeys & H).
    destruct (unsigned_field root "lastUpdateId") as [id|] eqn:Hid; [|done].
    rewrite fail_if_inl, bool_decide_eq_false, sum_bind_inl in H.
    destruct H as (Hrid & bids & Hb & H). apply sum_bind_inl in H as (asks & Ha & [= <-]).
    apply append_levels_spec, at_member_spec in Hb; [|by apply (required_key _ _ _ Hkeys); in_list].
    apply append_levels_spec, at_member_spec in Ha; [|by apply (required_key _ _ _ Hkeys); in_list].
    split_all; [done..|]. exists root, id, bids, asks. split_all; [done| |done].
    apply unsigned_field_spec in Hid. unfold snapshot_members.
    rewrite !carries_cons, carries_nil. by split_all.
  - intros (Hsym & Hrid & root & id & bids & asks & Hroot & Hcar & ->).
    pose proof Hcar as Hkeys. apply carries_keys in Hkeys; [|done].
    cbn [snapshot_members fmap list_fmap fst] in Hkeys. unfold snapshot_members in Hcar.
    rewrite !carries_cons, carries_nil, <- unsigned_field_spec in Hcar.
    destruct Hcar as (Hid & Hb & Ha & _).
    exists root. split; [done|]. rewrite !fail_if_inl, bool_decide_eq_false, negb_false_iff.
    split_all; [done..|]. rewrite Hid, fail_if_inl, bool_decide_eq_false, sum_bind_inl.
    split; [done|]. exists bids. unfold at_member. rewrite Hb, Ha, append_levels_spec.
    split; [done|]. apply sum_bind_inl. exists asks. by rewrite append_levels_spec.
Qed.
End Snapshots.

(** The characters of stream names, and the symbol character they stand for. *)
Definition is_stream_character (e : ascii) : bool := in_range "a" "z" e || in_range "0" "9" e.
Definition symbol_character (e : ascii) : ascii :=
  if in_range "a" "z" e
  then ascii_of_N (N_of_ascii e - N_of_ascii "a" + N_of_ascii "A")%N else e.
Fixpoint symbol_of (encoded : string) : string :=
  match encoded with
  | EmptyString => ""
  | String e rest => String (symbol_character e) (symbol_of rest)
  end.

Lemma stream_character_spec c e :
  stream_character c = Some e ↔ is_stream_character e = true ∧ c = symbol_character e.
Proof.
  split.
  - intros H. destruct c as [[] [] [] [] [] [] [] []]; vm_compute in H;
      first [discriminate H|injection H as <-; by vm_compute].
  - intros [He ->]. revert He. by destruct e as [[] [] [] [] [] [] [] []]; vm_compute.
Qed.

(** Stream names and symbols determine each other: a symbol has a stream name
    exactly when it is a non-empty text of upper-case letters and digits, and then the
    name is its lower-case text, from which it can be recovered. *)
Theorem spot_stream_symbol_spec (sym enc : string) :
  spot_stream_symbol sym = Some enc ↔
  enc ≠ "" ∧ all_chars is_stream_character enc = true ∧ sym = symbol_of enc.
Proof.
  assert (Henc : ∀ sym enc, encode_symbol sym = Some enc ↔
                   all_chars is_stream_character enc = true ∧ sym = symbol_of enc).
  { clear. induction sym as [|c sym IH]; intros enc.
    - split; [by intros [= <-]|]. by destruct enc; [|intros [_ ?]].
    - cbn [encode_symbol]. rewrite bind_Some. split.
      + intros (e & [He ->]%stream_character_spec & H).
        apply bind_Some in H as (es & [Hes ->]%IH & [= <-]). simpl. by rewrite He, Hes.
      + destruct enc as [|e enc]; [by intros [_ ?]|]. simpl.
        intros [[He Hes]%andb_true_iff [= -> ->]]. exists e.
        split; [by apply stream_character_spec|]. rewrite bind_Some. exists enc.
        split; [by apply IH|done]. }
  unfold spot_stream_symbol. case_bool_decide as Hs.
  - subst. split; [done|]. by intros (Hne & _ & Heq); destruct enc.
  - rewrite Henc. split; [|by intros (_ & ? & ?)]. intros [Hall ->].
    split_all; [|done..]. by intros ->.
Qed.
