(* ===== verification/UsdmProtocol.v ===== *)
(** * UsdmProtocol: the texts Binance USD-M futures send

    Models [src/src/g11/usdm_protocol.hpp] and [.cpp], the counterpart of
    [SpotProtocol] for perpetual contracts: further optional members, the previous
    update id [pu] and other conditions on the metadata.  The accessors, the loops over
    symbols and filters and the level reader are textually those of the Spot parser and
    are taken from [Json] and [SpotProtocol]. *)

From Stdlib Require Import Ascii.
From S2P Require Import Prelude Ring Wire Text Json Session OrderBookPublication.
From S2P Require Import EventPublication Programs Projection MarketRuntime SpotProtocol.

Open Scope gateway_scope.

Definition usdm_stream_symbol (canonical_symbol : string) : option string :=
  spot_stream_symbol canonical_symbol.

Definition unroutable_usdm : ProtocolError :=
  protocol_error InvalidMarketMetadata "symbol"
    ("requested USD-M symbol cannot be represented by a Binance " +:+ "route").

Section Metadata.
Context `{N : NumericLibrary} `{J : JsonLibrary}.

(** [UsdMMetadata] has the fields of [SpotMetadata]. *)
Definition parse_usdm_exchange_info (payload requested_symbol : string)
  : SpotMetadata + ProtocolError :=
  let? root := parse_json payload in
  fail_if bool_decide (usdm_stream_symbol requested_symbol = None) with unroutable_usdm ;;
  let? symbols := exchange_symbols root in
  let? found := select_symbol symbols requested_symbol None in
  match found with
  | None =>
      inr (protocol_error InvalidMarketMetadata "symbol"
             "exchangeInfo must contain the requested USD-M symbol")
  | Some selected =>
      fail_if negb (bool_decide (string_field selected "contractType" = Some "PERPETUAL"))
        with protocol_error InvalidMarketMetadata "contractType"
               "requested USD-M symbol contractType must be PERPETUAL" ;;
      fail_if negb (bool_decide (string_field selected "status" = Some "TRADING"))
        with protocol_error InvalidMarketMetadata "status"
               "requested USD-M perpetual symbol must be TRADING" ;;
      match find selected "filters" with
      | Some (JsonArray filters) =>
          let? sizes := read_filters filters None None in
          quantum_metadata sizes
      | _ => inr (protocol_error InvalidMarketMetadata "filters"
                    "requested USD-M symbol filters must be an array")
      end
  end.
End Metadata.

(** A [uint64] member that may be absent. *)
Definition optional_unsigned (root : Json) (name : string) (failure : ProtocolError)
  : option Z + ProtocolError :=
  if contains root name then
    match unsigned_field root name with Some n => inl (Some n) | None => inr failure end
  else inl None.

(** The tests of the optional members [ps] and [st]. *)
Definition pair_valid (root : Json) : bool :=
  negb (contains root "ps") || bool_decide (is_Some (string_field root "ps")).
Definition symbol_type_valid (root : Json) : bool :=
  negb (contains root "st") || bool_decide (unsigned_field root "st" = Some 1%Z).

Section Events.
Context `{W : WireEnums} `{J : JsonLibrary}.

(** [populate_depth_metadata] *)
Definition usdm_depth_metadata (symbol connection_id : string) (received_at : ClockSample)
  (event_time : Z) (transaction_time : option Z) : EventMetadata :=
  MkEventMetadata VENUE_BINANCE MARKET_USD_M_PERPETUAL symbol "gateway-g11-usdm" "1.0.0"
    connection_id STREAM_DIFF_DEPTH "depth-update.v1" (Some event_time) None transaction_time
    (Some (sample_utc_ns received_at)) (Some (sample_monotonic_ns received_at)).

(** From the sequence numbers to the update. *)
Definition parse_usdm_depth_fields (root : Json) (received_at : ClockSample)
  (connection_id requested_symbol : string) : Frame DepthUpdate + ProtocolError :=
  match unsigned_field root "E", unsigned_field root "U", unsigned_field root "u" with
  | Some event_time, Some first, Some final =>
      let? transaction_time := optional_unsigned root "T"
        (protocol_error InvalidField "T"
           "USD-M transaction time must be uint64 when present") in
      let? previous_final := optional_unsigned root "pu"
        (protocol_error InvalidField "pu"
           "USD-M previous final update ID must be uint64 when present") in
      fail_if bool_decide (connection_id = "")
        with protocol_error InvalidField "connection_id" "connection_id must be non-empty" ;;
      let? bids := append_levels (at_member root "b") [] "b" in
      let? asks := append_levels (at_member root "a") [] "a" in
      inl (FrameEvent
             (MkDepthUpdate
                (usdm_depth_metadata requested_symbol connection_id received_at event_time
                   transaction_time)
                first final previous_final bids asks))
  | _, _, _ => inr (protocol_error InvalidField "sequence" "E, U, and u must be uint64 values")
  end.

Definition parse_usdm_depth_frame (payload : string) (received_at : ClockSample)
  (connection_id requested_symbol : string) : Frame DepthUpdate + ProtocolError :=
  let? root := parse_json payload in
  fail_if bool_decide (usdm_stream_symbol requested_symbol = None) with unroutable_usdm ;;
  match string_field root "e" with
  | None => inr (protocol_error InvalidField "e" "event type must be a string")
  | Some event =>
      if bool_decide (event = "serverShutdown") then parse_server_shutdown root else
      fail_if negb (bool_decide (event = "depthUpdate"))
        with protocol_error WrongEvent "e" "USD-M raw stream payload is not a depthUpdate" ;;
      fail_if negb (is_depth_shape root)
        with protocol_error InvalidShape "payload" "USD-M depthUpdate has an unexpected shape" ;;
      fail_if negb (bool_decide (string_field root "s" = Some requested_symbol))
        with protocol_error WrongSymbol "s"
               "USD-M depthUpdate symbol does not match the configured symbol" ;;
      fail_if negb (pair_valid root)
        with protocol_error InvalidField "ps"
               "USD-M depthUpdate pair must be a string when present" ;;
      fail_if negb (symbol_type_valid root)
        with protocol_error InvalidMarketMetadata "st"
               "USD-M depthUpdate symbol type must be 1" ;;
      parse_usdm_depth_fields root received_at connection_id requested_symbol
  end.

Definition parse_usdm_depth_snapshot (payload : string) (received_at : ClockSample)
  (request_id requested_symbol : string) : ExchangeDepthSnapshot + ProtocolError :=
  let? root := parse_json payload in
  fail_if bool_decide (usdm_stream_symbol requested_symbol = None) with unroutable_usdm ;;
  fail_if negb (has_required_keys root ["lastUpdateId"; "bids"; "asks"])
    with protocol_error InvalidShape "payload" "USD-M depth snapshot has an unexpected shape" ;;
  match unsigned_field root "lastUpdateId" with
  | Some last_update_id =>
      fail_if bool_decide (request_id = "")
        with protocol_error InvalidField "lastUpdateId"
               "lastUpdateId must be uint64 and request_id non-empty" ;;
      fail_if contains root "E" && bool_decide (unsigned_field root "E" = None)
        with protocol_error InvalidField "E"
               "snapshot message output time must be uint64 when present" ;;
      let? transaction_time := optional_unsigned root "T"
        (protocol_error InvalidField "T"
           "snapshot transaction time must be uint64 when present") in
      let? bids := append_levels (at_member root "bids") [] "bids" in
      let? asks := append_levels (at_member root "asks") [] "asks" in
      inl (MkExchangeDepthSnapshot VENUE_BINANCE MARKET_USD_M_PERPETUAL requested_symbol
             "exchange-depth-snapshot.v1" "gateway-g11-usdm" "1.0.0" request_id last_update_id
             transaction_time (sample_utc_ns received_at) (sample_monotonic_ns received_at)
             bids asks)
  | None => inr (protocol_error InvalidField "lastUpdateId"
                   "lastUpdateId must be uint64 and request_id non-empty")
  end.
End Events.

(** ** What is accepted *)

(** The member [name] is absent, or a [uint64]. *)
Definition optional_member (root : Json) (name : string) (value : option Z) : Prop :=
  find root name = JsonUnsigned <$> value.

Lemma optional_unsigned_spec root name failure value :
  optional_unsigned root name failure = inl value ↔ optional_member root name value.
Proof.
  unfold optional_unsigned, optional_member, contains, unsigned_field.
  destruct (find root name) as [j|] eqn:Hf.
  - rewrite bool_decide_eq_true_2 by done. split.
    + intros H. break_all. done.
    + destruct value as [n|]; [|done]. by intros [= ->].
  - rewrite bool_decide_eq_false_2 by (by intros []). split.
    + by intros [= <-].
    + by destruct value.
Qed.

Section Frames.
Context `{W : WireEnums} `{J : JsonLibrary}.
Implicit Types (root : Json) (rx : ClockSample) (conn sym : string).

(** The optional members of a depth update: the pair and the symbol type. *)
Definition optional_texts root : Prop :=
  (∀ j, find root "ps" = Some j → ∃ pair, j = JsonString pair) ∧
  (∀ j, find root "st" = Some j → j = JsonUnsigned 1).

(** [root] is the document of this update, received by this connection. *)
Definition is_usdm_depth root rx conn sym (u : DepthUpdate) : Prop :=
  conn ≠ "" ∧ optional_texts root ∧
  optional_member root "pu" (previous_final_update_id u) ∧
  ∃ event_time transaction_time,
    optional_member root "T" transaction_time ∧ carries root (depth_members sym event_time u) ∧
    du_metadata u = usdm_depth_metadata sym conn rx event_time transaction_time.

Lemma optional_texts_spec root :
  pair_valid root = true ∧ symbol_type_valid root = true ↔ optional_texts root.
Proof.
  unfold pair_valid, symbol_type_valid, optional_texts, contains, string_field, unsigned_field.
  destruct (find root "ps") as [ps|], (find root "st") as [st|];
    rewrite ?(bool_decide_eq_true_2 (is_Some (Some _))) by done;
    rewrite ?(bool_decide_eq_false_2 (is_Some None)) by (by intros []); cbn [negb orb].
  - rewrite !bool_decide_eq_true. split.
    + intros [[t Ht] Hst]. split; intros j [= <-]; [|by destruct st; try done; simplify_eq].
      destruct ps; try done. by eexists.
    + intros [Hps Hst]. destruct (Hps ps eq_refl) as [t ->]. rewrite (Hst st eq_refl). by split.
  - rewrite bool_decide_eq_true. split.
    + intros [[t Ht] _]. split; [|done]. intros j [= <-]. destruct ps; try done. by eexists.
    + intros [Hps _]. by destruct (Hps ps eq_refl) as [t ->].
  - rewrite bool_decide_eq_true. split.
    + intros [_ Hst]. split; [done|]. intros j [= <-]. by destruct st; try done; simplify_eq.
    + intros [_ Hst]. by rewrite (Hst st eq_refl).
  - by split.
Qed.

Lemma parse_usdm_depth_fields_spec root rx conn sym f :
  is_depth_shape root = true → string_field root "e" = Some "depthUpdate" →
  string_field root "s" = Some sym → optional_texts root →
  parse_usdm_depth_fields root rx conn sym = inl f ↔
  ∃ u, f = FrameEvent u ∧ is_usdm_depth root rx conn sym u.
Proof.
  intros Hshape He Hs Hopt. unfold parse_usdm_depth_fields, is_usdm_depth, depth_members.
  assert (Hat : ∀ name j, name ∈ ["b"; "a"] →
            at_member root name = j ↔ find root name = Some j).
  { intros name j Hin. apply at_member_spec. apply (required_key _ _ _ Hshape).
    apply list_elem_of_In in Hin. apply list_elem_of_In. simpl in *. tauto. }
  apply string_field_spec in He, Hs. split.
  - destruct (unsigned_field root "E") as [et|] eqn:HE; [|done].
    destruct (unsigned_field root "U") as [first|] eqn:HU; [|done].
    destruct (unsigned_field root "u") as [final|] eqn:Hu; [|done].
    intros H. apply sum_bind_inl in H as (tt & HT%optional_unsigned_spec & H).
    apply sum_bind_inl in H as (pu & Hpu%optional_unsigned_spec & H).
    rewrite fail_if_inl, bool_decide_eq_false, sum_bind_inl in H.
    destruct H as (Hc & bids & Hb & H). apply sum_bind_inl in H as (asks & Ha & [= <-]).
    apply append_levels_spec in Hb, Ha. rewrite Hat in Hb, Ha by in_list.
    apply unsigned_field_spec in HE, HU, Hu.
    eexists. split; [done|]. split_all; [done..|]. exists et, tt.
    rewrite !carries_cons, carries_nil. by split_all.
  - intros (u & -> & Hc & _ & Hpu & et & tt & HT & Hcar & Hmd).
    rewrite !carries_cons, carries_nil in Hcar.
    destruct Hcar as (_ & HE & _ & HU & Hu & Hb & Ha & _).
    apply unsigned_field_spec in HE, HU, Hu. rewrite HE, HU, Hu.
    apply sum_bind_inl. exists tt. rewrite optional_unsigned_spec. split; [done|].
    apply sum_bind_inl. exists (previous_final_update_id u). rewrite optional_unsigned_spec.
    split; [done|]. rewrite fail_if_inl, bool_decide_eq_false, sum_bind_inl. split; [done|].
    eexists. rewrite append_levels_spec, Hat by in_list. split; [exact Hb|].
    apply sum_bind_inl. eexists. rewrite append_levels_spec, Hat by in_list.
    split; [exact Ha|]. destruct u. simpl in *. by subst.
Qed.

(** A USD-M frame is accepted exactly when its document is a server shutdown or a
    depth update of the configured symbol whose optional members, when present, are well
    formed; the update returned has exactly the document's values, the previous update id
    included, and the metadata of this connection and instant. *)
Theorem usdm_depth_frame_spec (payload : string) rx conn sym (frame : Frame DepthUpdate) :
  parse_usdm_depth_frame payload rx conn sym = inl frame ↔
  usdm_stream_symbol sym ≠ None ∧
  ∃ root, parse_json payload = inl root ∧
    match frame with
    | FrameEvent u => is_usdm_depth root rx conn sym u
    | FrameServerShutdown t => carries root (shutdown_members t)
    end.
Proof.
  unfold parse_usdm_depth_frame. rewrite sum_bind_inl.
  setoid_rewrite fail_if_inl. setoid_rewrite bool_decide_eq_false.
  split; [intros (root & Hroot & Hsym & H); split; [done|]|
          intros (Hsym & root & Hroot & H)]; exists root; (split; [done|]).
  - destruct (string_field root "e") as [event|] eqn:He; [|done].
    case_bool_decide as Hev.
    + subst. apply parse_server_shutdown_spec in H as (t & -> & Ht); done.
    + rewrite !fail_if_inl, !negb_false_iff, !bool_decide_eq_true in H.
      destruct H as (-> & Hshape & Hs & Hps & Hst & H).
      apply parse_usdm_depth_fields_spec in H as (u & -> & Hu); try done.
      by apply optional_texts_spec.
  - split; [done|]. destruct frame as [u|t].
    + pose proof H as (_ & Hopt & _ & et & tt & _ & Hcar & _).
      pose proof Hcar as Hkeys. apply carries_keys in Hkeys; [|done].
      unfold depth_members in Hcar. rewrite !carries_cons, <- !string_field_spec in Hcar.
      destruct Hcar as (He & _ & Hs & _). apply optional_texts_spec in Hopt as [Hps Hst].
      rewrite He, Hs, Hps, Hst. rewrite bool_decide_eq_false_2 by done.
      rewrite !fail_if_inl, !negb_false_iff, !bool_decide_eq_true. split_all; [done..|].
      apply parse_usdm_depth_fields_spec; [done..|by apply optional_texts_spec|]. by exists u.
    + assert (He : string_field root "e" = Some "serverShutdown").
      { unfold shutdown_members in H. rewrite carries_cons, <- string_field_spec in H. by destruct H. }
      rewrite He, bool_decide_eq_true_2 by done. apply parse_server_shutdown_spec; [done|].
      by exists t.
Qed.
End Frames.

Section MetadataSpec.
Context `{N : NumericLibrary} `{J : JsonLibrary}.

(** USD-M metadata is accepted exactly when the document lists the requested symbol
    once, as a TRADING perpetual contract, with exactly one price filter and one lot
    filter whose quanta have scales; the result is those quanta and scales. *)
Theorem usdm_exchange_info_spec (payload sym : string) (m : SpotMetadata) :
  parse_usdm_exchange_info payload sym = inl m ↔
  usdm_stream_symbol sym ≠ None ∧
  product_metadata [("contractType", JsonString "PERPETUAL"); ("status", JsonString "TRADING")]
    payload sym m.
Proof.
  unfold parse_usdm_exchange_info, product_metadata. rewrite sum_bind_inl. split.
  - intros (root & Hroot & H). rewrite fail_if_inl, bool_decide_eq_false, sum_bind_inl in H.
    destruct H as (Hsym & symbols & Hs%exchange_symbols_spec & H).
    apply sum_bind_inl in H as ([selected|] & Hsel & H); [|done].
    apply select_one in Hsel as [Hall Hsel].
    rewrite !fail_if_inl, !negb_false_iff, !bool_decide_eq_true in H.
    rewrite !string_field_spec in H. destruct H as (Hct & Hst & H).
    destruct (find selected "filters") as [[]|] eqn:Hf; try done.
    apply quantum_metadata_spec in H as (? & ? & ? & ? & ?).
    split; [done|]. exists root, symbols, selected, elements. rewrite !carries_cons, carries_nil.
    by split_all.
  - intros (Hsym & root & symbols & selected & filters & Hroot & Hs & Hall & Hsel & Hc & Hf & Hrest).
    rewrite !carries_cons, carries_nil, <- !string_field_spec in Hc.
    destruct Hc as (Hct & Hst & _).
    exists root. split; [done|]. rewrite fail_if_inl, bool_decide_eq_false, sum_bind_inl.
    split; [done|]. exists symbols. rewrite exchange_symbols_spec, sum_bind_inl. split; [done|].
    exists (Some selected). rewrite select_one. split; [done|].
    rewrite Hct, Hst, Hf, !bool_decide_eq_true_2 by done. by apply quantum_metadata_spec.
Qed.
End MetadataSpec.
