(* ===== verification/Network.v ===== *)
(** * Network: the asynchronous operations of a transport

    Models the three operations of [src/src/g4/spot_transport.cpp]: [AsyncHttpsGet] (the
    REST snapshot), [AsyncWebSocket] (the stream) and [AsyncExchangeInfoGet] (the
    metadata of the start-up), as objects that register completion handlers with
    Boost.Asio and are called back.  Asio is outside the model: it holds the registered
    handlers ([io_waits], [timer_waits]), may call any of them at any time, each at most
    once, with any result; a cancelled handler too may still see a success that was
    ready before.  [AsyncHttpsGet] and [AsyncWebSocket] share the bookkeeping of
    deadlines and cancellation ([Operation]); what they do with a result is in the
    module of each.

    [delivers]: a section delivers a result only when it makes the operation done, and
    [cancel_over], [stage_handler_delivers]: an operation that is over begins nothing more.
    [exchange_info_fetch_ends]: the start-up fetch always ends with one result. *)

From S2P Require Import Prelude Ring Wire Session OrderBookPublication EventPublication.
From S2P Require Import Programs Projection MarketRuntime Recovery.

Open Scope gateway_scope.

(** ** Errors *)

(** The error codes the handlers tell apart; [io_message] is [error_code::message()]. *)
Inductive IoErrorKind : Type :=
| OperationAborted
| BeastTimeout
| OtherError.

#[export] Instance IoErrorKind_eq_dec : EqDecision IoErrorKind.
Proof. solve_decision. Defined.

Record IoError : Type := MkIoError {
  io_kind : IoErrorKind;
  io_message : string
}.

(** [network_error] without status and Retry-After. *)
Definition network_error (code : NetworkErrorCode) (stage message : string) : NetworkError :=
  MkNetworkError code stage message None None.

Definition error_from_code (code : NetworkErrorCode) (stage : string) (failure : IoError)
  : NetworkError := network_error code stage (io_message failure).

Definition is_clean_cancellation (error : IoError) (clean_cancel_requested : bool) : bool :=
  clean_cancel_requested && bool_decide (io_kind error = OperationAborted).

(** What the operations read of an HTTP response. *)
Record HttpResponse : Type := MkHttpResponse {
  response_status : Z;
  response_retry_after : option string;
  response_body : string
}.

Definition http_status_error (stage message : string) (response : HttpResponse) : NetworkError :=
  MkNetworkError NeHttpStatus stage message (Some (response_status response))
    (response_retry_after response).

(** ** The bookkeeping of an operation *)

(** The stages of an operation: the label and the error code of each. *)
Class Stages (Stage : Type) : Type := {
  stage_name : Stage → string;
  stage_code : Stage → NetworkErrorCode
}.

Section Operation.
Context {Stage R : Type} `{!Stages Stage}.

(** The members, then the handlers Asio holds: of I/O by stage, of timers by the
    generation and the stage they captured.  [R] is the result of a success. *)
Record Operation : Type := MkOperation {
  cancelled_result : option (R + NetworkError);
  timeout_generation : Z;
  cancellation_completions_pending : nat;
  io_pending : bool;
  timer_pending : bool;
  cancel_requested : bool;
  op_done : bool;
  io_waits : list Stage;
  timer_waits : list (Z * Stage)
}.
#[export] Instance Operation_eta : Eta Operation :=
  λ o, MkOperation (cancelled_result o) (timeout_generation o)
    (cancellation_completions_pending o) (io_pending o) (timer_pending o) (cancel_requested o)
    (op_done o) (io_waits o) (timer_waits o).

Definition new_operation : Operation := MkOperation None 0 0 false false false false [] [].

Definition arm_timeout (stage : Stage) (op : Operation) : Operation :=
  let generation := u64_succ (timeout_generation op) in
  op <| timeout_generation := generation |> <| timer_pending := true |>
     <| timer_waits ::= cons (generation, stage) |>.

(** [timer_.cancel()] leaves the handler to be called. *)
Definition disarm_timeout (op : Operation) : Operation :=
  op <| timeout_generation ::= u64_succ |> <| timer_pending := false |>.

Definition wait_io (stage : Stage) (op : Operation) : Operation :=
  op <| io_pending := true |> <| io_waits ::= cons stage |>.

(** The first lines of each stage. *)
Definition begin_stage (stage : Stage) (op : Operation) : Operation :=
  wait_io stage (arm_timeout stage op).

Definition retire_cleanly (op : Operation) : Operation :=
  if op_done op then op else op <| op_done := true |>.

(** The result is what the completion callback is called with, last. *)
Definition finish (result : R + NetworkError) (op : Operation)
  : Operation * option (R + NetworkError) :=
  if op_done op then (op, None)
  else (disarm_timeout (op <| op_done := true |> <| cancellation_completions_pending := 0 |>),
        Some result).

Definition complete_cancelled_piece (op : Operation) : Operation * option (R + NetworkError) :=
  let op := op <| cancellation_completions_pending ::= Nat.pred |> in
  if negb (bool_decide (cancellation_completions_pending op = 0)) || op_done op then (op, None)
  else match cancelled_result op with
       | Some result => finish result (op <| cancelled_result := None |>)
       | None => (retire_cleanly op, None)
       end.

Definition cancel (op : Operation) : Operation :=
  if op_done op || cancel_requested op then op
  else
    let op := op <| cancel_requested := true |>
                 <| cancellation_completions_pending :=
                      Nat.b2n (io_pending op) + Nat.b2n (timer_pending op) |> in
    if bool_decide (cancellation_completions_pending op = 0) then retire_cleanly op else op.

(** [None]: no cancellation was requested, the handler goes on. *)
Definition handle_cancelled_io (error : option IoError) (stage : Stage) (op : Operation)
  : option (Operation * option (R + NetworkError)) :=
  if negb (cancel_requested op) then None
  else Some match error with
            | Some e =>
                if negb (is_clean_cancellation e (cancel_requested op))
                then finish (inr (error_from_code (stage_code stage) (stage_name stage) e)) op
                else complete_cancelled_piece op
            | None => complete_cancelled_piece op
            end.

Definition timed_out (stage : Stage) : R + NetworkError :=
  inr (network_error NeTimeout (stage_name stage) "network stage timed out").

(** The handler [arm_timeout] registers. *)
Definition timer_handler (generation : Z) (stage : Stage) (error : option IoError) (op : Operation)
  : Operation * option (R + NetworkError) :=
  if negb (generation =? timeout_generation op)%Z then (op, None) else
  let op := op <| timer_pending := false |> in
  if op_done op then (op, None)
  else if cancel_requested op then
    match error with
    | None => finish (timed_out stage) op
    | Some e =>
        if is_clean_cancellation e (cancel_requested op) then complete_cancelled_piece op
        else finish (inr (error_from_code NeInternal (String.append (stage_name stage) "-timer") e)) op
    end
  else match error with
       | None => finish (timed_out stage) op
       | Some _ => (op, None)
       end.

(** A handler of a stage before the last: over, with what it reports, or passed. *)
Inductive Progress : Type :=
| Over (completion : option (R + NetworkError))
| Passed.

Definition stage_handler (stage : Stage) (error : option IoError) (op : Operation)
  : Operation * Progress :=
  let op := op <| io_pending := false |> in
  if op_done op then (op, Over None)
  else match handle_cancelled_io error stage op with
       | Some (op, completion) => (op, Over completion)
       | None =>
           let op := disarm_timeout op in
           match error with
           | Some e =>
               let r := finish (inr (error_from_code (stage_code stage) (stage_name stage) e)) op in
               (fst r, Over (snd r))
           | None => (op, Passed)
           end
       end.

(** Asio calls the [i]-th handler it holds. *)
Definition take_io (i : nat) (op : Operation) : Operation := op <| io_waits ::= delete i |>.
Definition take_timer (i : nat) (op : Operation) : Operation := op <| timer_waits ::= delete i |>.

Definition waits (op : Operation) : nat := length (io_waits op) + length (timer_waits op).
End Operation.
Arguments Operation : clear implicits.
Arguments Progress : clear implicits.

(** ** What the bookkeeping preserves *)

Section Bookkeeping.
Context {Stage R : Type} `{!Stages Stage}.
Implicit Types (op : Operation Stage R).

(** An operation that will begin nothing more. *)
Definition over op : bool := op_done op || cancel_requested op.

(** From [op] to [op']: no handler is registered, nothing is undone. *)
Record quiet op op' : Prop := {
  quiet_io : io_waits op' = io_waits op;
  quiet_timer : timer_waits op' = timer_waits op;
  quiet_cancel : cancel_requested op' = cancel_requested op;
  quiet_done : op_done op = true → op_done op' = true
}.

(** A result is delivered only by an operation that becomes done. *)
Definition delivers op (r : Operation Stage R * option (R + NetworkError)) : Prop :=
  quiet op (fst r) ∧ (is_Some (snd r) → op_done op = false ∧ op_done (fst r) = true).

#[export] Instance quiet_refl : Reflexive quiet.
Proof. by split. Qed.
#[export] Instance quiet_trans : Transitive quiet.
Proof. intros a b c [] []. split; [congruence..|auto]. Qed.

Lemma delivers_none op op' : quiet op op' → delivers op (op', None).
Proof. intros H. split; [done|]. by intros [? [=]]. Qed.

Lemma delivers_quiet op op1 r :
  quiet op op1 → (op_done op1 = false → op_done op = false) → delivers op1 r → delivers op r.
Proof.
  intros H1 Hd [H2 H3]. split; [by etrans|]. intros Hr. destruct (H3 Hr). auto.
Qed.

Lemma disarm_quiet op : quiet op (disarm_timeout op).
Proof. by split. Qed.

Lemma retire_quiet op : quiet op (retire_cleanly op).
Proof. unfold retire_cleanly. destruct (op_done op) eqn:?; split; simpl; congruence. Qed.

Lemma finish_delivers result op : delivers op (finish result op).
Proof.
  unfold finish. destruct (op_done op) eqn:Hd; [by apply delivers_none|].
  split; [split; simpl; congruence|done].
Qed.

Lemma piece_delivers op : delivers op (complete_cancelled_piece op).
Proof.
  unfold complete_cancelled_piece. simpl.
  destruct (negb _ || op_done op); [by apply delivers_none|].
  destruct (cancelled_result op) as [result|].
  - eapply delivers_quiet; [| |apply finish_delivers]; [by split|done].
  - apply delivers_none. etrans; [|apply retire_quiet]. by split.
Qed.

Lemma cancelled_io_delivers error stage op r :
  handle_cancelled_io error stage op = Some r → delivers op r.
Proof.
  unfold handle_cancelled_io. destruct (negb (cancel_requested op)); [done|]. intros [= <-].
  destruct error as [e|]; [|apply piece_delivers].
  destruct (negb _); [apply finish_delivers|apply piece_delivers].
Qed.

Lemma cancelled_io_none error stage op :
  handle_cancelled_io error stage op = None → cancel_requested op = false.
Proof. unfold handle_cancelled_io. by destruct (cancel_requested op). Qed.

Lemma timer_delivers generation stage error op :
  delivers op (timer_handler generation stage error op).
Proof.
  unfold timer_handler. destruct (negb _); [by apply delivers_none|].
  set (op1 := op <| timer_pending := false |>).
  assert (quiet op op1) by by split.
  destruct (op_done op1); [by apply delivers_none|].
  destruct (cancel_requested op1).
  - destruct error as [e|]; [destruct (is_clean_cancellation _ _)|];
      (eapply delivers_quiet; [done| |]; [done|]); auto using finish_delivers, piece_delivers.
  - destruct error as [e|]; [by apply delivers_none|].
    eapply delivers_quiet; [done| |apply finish_delivers]. done.
Qed.

(** The handler of a stage goes on only with an operation that is not over. *)
Lemma stage_handler_delivers stage error op :
  match stage_handler stage error op with
  | (op', Over result) => delivers op (op', result)
  | (op', Passed) => quiet op op' ∧ over op = false ∧ over op' = false
  end.
Proof.
  unfold stage_handler, over. set (op1 := op <| io_pending := false |>).
  assert (Hq : quiet op op1) by by split. change (op_done op1) with (op_done op).
  destruct (op_done op) eqn:Hd; [by apply delivers_none|].
  destruct (handle_cancelled_io error stage op1) as [[op' result]|] eqn:Hc.
  { eapply delivers_quiet; [done| |by eapply cancelled_io_delivers]. done. }
  apply cancelled_io_none in Hc. change (cancel_requested op = false) in Hc.
  destruct error as [e|].
  - destruct (finish _ (disarm_timeout op1)) as [op' result] eqn:Hf. simpl.
    eapply (delivers_quiet _ (disarm_timeout op1)); [by etrans; [|apply disarm_quiet]|done|].
    rewrite <- Hf. apply finish_delivers.
  - split_all; [by etrans; [|apply disarm_quiet]|by rewrite Hc|]. simpl. by rewrite Hd, Hc.
Qed.

Lemma cancel_over op :
  over (cancel op) = true ∧ io_waits (cancel op) = io_waits op ∧
  timer_waits (cancel op) = timer_waits op ∧ (op_done op = true → op_done (cancel op) = true).
Proof.
  unfold cancel, over. destruct (op_done op) eqn:Hd; simpl; [by rewrite Hd|].
  destruct (cancel_requested op) eqn:Hc; simpl; [by rewrite Hd, Hc|].
  case_bool_decide; [unfold retire_cleanly|]; simpl; rewrite Hd; done.
Qed.

Lemma quiet_over op op' : quiet op op' → over op = true → over op' = true.
Proof.
  intros [_ _ Hc Hd]. unfold over. rewrite Hc, !orb_true_iff. intros [H|H]; auto.
Qed.

Lemma quiet_waits op op' : quiet op op' → waits op' = waits op.
Proof. intros [H1 H2 _ _]. unfold waits. by rewrite H1, H2. Qed.
End Bookkeeping.

(** ** The REST snapshot: [AsyncHttpsGet] *)

Inductive HttpsStage : Type := HsDns | HsTcp | HsTls | HsWrite | HsRead.

#[export] Instance https_stages : Stages HttpsStage := {|
  stage_name s := match s with
    | HsDns => "depth-dns" | HsTcp => "depth-tcp-connect" | HsTls => "depth-tls-handshake"
    | HsWrite => "depth-http-write" | HsRead => "depth-http-read" end;
  stage_code s := match s with
    | HsDns => NeDns | HsTcp => NeTcp | HsTls => NeTls
    | HsWrite => NeHttpWrite | HsRead => NeHttpRead end |}.

Module AsyncHttpsGet.
Definition Get : Type := Operation HttpsStage (HttpResponse * ClockSample).
Definition Result : Type := ((HttpResponse * ClockSample) + NetworkError).

(** [start] once the TLS stream is configured. *)
Definition start : Get → Get := begin_stage HsDns.

(** The stage that follows. *)
Definition next (stage : HttpsStage) : HttpsStage :=
  match stage with
  | HsDns => HsTcp | HsTcp => HsTls | HsTls => HsWrite | HsWrite | HsRead => HsRead
  end.

(** What is left to a handler: nothing, the completion, or the response to look at. *)
Inductive Next : Type :=
| Nothing
| Complete (result : Result)
| Response.

Definition completion (r : Get * option Result) : Get * Next :=
  (fst r, match snd r with Some result => Complete result | None => Nothing end).

(** The handlers of [async_resolve], [async_connect], [async_handshake], [async_write]. *)
Definition io_handler (stage : HttpsStage) (error : option IoError) (g : Get) : Get * Next :=
  let r := stage_handler stage error g in
  match snd r with
  | Over result => completion (fst r, result)
  | Passed => (begin_stage (next stage) (fst r), Nothing)
  end.

(** The handler of [async_read] up to [response_result]. *)
Definition read_handler (error : option IoError) (g : Get) : Get * Next :=
  let g := g <| io_pending := false |> in
  if op_done g then (g, Nothing)
  else if cancel_requested g then
    match error with
    | Some e =>
        if negb (is_clean_cancellation e (cancel_requested g))
        then completion (finish (inr (error_from_code NeHttpRead "depth-http-read" e)) g)
        else completion (complete_cancelled_piece g)
    | None => (g, Response)
    end
  else
    let g := disarm_timeout g in
    match error with
    | Some e => completion (finish (inr (error_from_code NeHttpRead "depth-http-read" e)) g)
    | None => (g, Response)
    end.

(** [response_result], from the answer of the clock: [inr] the text of its exception. *)
Definition response_result (received_at : ClockSample + string) (response : HttpResponse) : Result :=
  match received_at with
  | inr what => inr (network_error NeInternal "depth-receive-clock" what)
  | inl received_at =>
      if negb (response_status response =? 200)%Z
      then inr (http_status_error "depth-http-status" "Binance depth request returned non-200"
                  response)
      else inl (response, received_at)
  end.

(** The handler of [async_read] from [response_result] on. *)
Definition response_handler (result : Result) (g : Get) : Get * Next :=
  completion (if cancel_requested g
              then complete_cancelled_piece (g <| cancelled_result := Some result |>)
              else finish result g).
End AsyncHttpsGet.

(** ** The stream: [AsyncWebSocket] *)

Inductive WebSocketStage : Type := WsDns | WsTcp | WsTls | WsHandshake | WsRead.

#[export] Instance websocket_stages : Stages WebSocketStage := {|
  stage_name s := match s with
    | WsDns => "websocket-dns" | WsTcp => "websocket-tcp-connect"
    | WsTls => "websocket-tls-handshake" | WsHandshake => "websocket-handshake"
    | WsRead => "websocket-read" end;
  stage_code s := match s with
    | WsDns => NeDns | WsTcp => NeTcp | WsTls => NeTls
    | WsHandshake => NeWebSocketHandshake | WsRead => NeWebSocketRead end |}.

Module AsyncWebSocket.
(** Its only result is an error. *)
Definition WebSocket : Type := Operation WebSocketStage Empty_set.

Definition start : WebSocket → WebSocket := begin_stage WsDns.

(** What the callbacks of the operation are called with: [failure]; [tls_verified];
    [active]; [message], with [retire_after_message]. *)
Inductive Next : Type :=
| Nothing
| Failure (error : NetworkError)
| TlsVerified
| Active
| Message (retire_after_message : bool).

Definition failure (r : WebSocket * option (Empty_set + NetworkError)) : WebSocket * Next :=
  (fst r, match snd r with
          | Some (inr error) => Failure error
          | Some (inl impossible) => match impossible with end
          | None => Nothing
          end).

Definition fail (error : NetworkError) (w : WebSocket) : WebSocket * Next :=
  failure (finish (inr error) w).

(** [tls_handshake], [websocket_handshake] *)
Definition connect : WebSocket → WebSocket := begin_stage WsTcp.
Definition tls_handshake : WebSocket → WebSocket := begin_stage WsTls.
Definition websocket_handshake : WebSocket → WebSocket := begin_stage WsHandshake.

(** [read] has no deadline of its own: Beast's idle timeout ends it. *)
Definition read (w : WebSocket) : WebSocket := if op_done w then w else wait_io WsRead w.

(** The handlers of the stages before [read]. *)
Definition io_handler (stage : WebSocketStage) (error : option IoError) (w : WebSocket)
  : WebSocket * Next :=
  let r := stage_handler stage error w in
  match snd r with
  | Over result => failure (fst r, result)
  | Passed =>
      match stage with
      | WsDns => (connect (fst r), Nothing)
      | WsTcp => (tls_handshake (fst r), Nothing)
      | WsTls => (fst r, TlsVerified)
      | WsHandshake | WsRead => (read (fst r), Active)
      end
  end.

(** The handler of [async_read] up to the clock. *)
Definition read_handler (error : option IoError) (w : WebSocket) : WebSocket * Next :=
  let w := w <| io_pending := false |> in
  if op_done w then (w, Nothing)
  else match error with
       | Some e =>
           if is_clean_cancellation e (cancel_requested w) then failure (complete_cancelled_piece w)
           else if bool_decide (io_kind e = BeastTimeout)
           then fail (error_from_code NeTimeout "websocket-idle" e) w
           else fail (error_from_code NeWebSocketRead "websocket-read" e) w
       | None => (w, Message (cancel_requested w))
       end.

(** After the clock: the payload, or why the frame is refused. *)
Definition frame_payload (received_at : ClockSample + string) (got_text : bool) (payload : string)
  : (string * ClockSample) + NetworkError :=
  match received_at with
  | inr what => inr (network_error NeInternal "websocket-receive-clock" what)
  | inl received_at =>
      if negb got_text
      then inr (network_error NeProtocol "websocket-frame" "Binance raw stream returned binary data")
      else inl (payload, received_at)
  end.

(** After the [message] callback has answered [accepted]. *)
Definition message_handled (accepted retire_after_message : bool) (w : WebSocket)
  : WebSocket * Next :=
  if negb accepted then (retire_cleanly w, Nothing)
  else if retire_after_message then failure (complete_cancelled_piece w)
  else (read w, Nothing).
End AsyncWebSocket.

(** ** The metadata of the start-up: [AsyncExchangeInfoGet] *)

Inductive FetchStage : Type := FsDns | FsTcp | FsTls | FsWrite | FsRead.

#[export] Instance fetch_stages : Stages FetchStage := {|
  stage_name s := match s with
    | FsDns => "exchange-info-dns" | FsTcp => "exchange-info-tcp-connect"
    | FsTls => "exchange-info-tls-handshake" | FsWrite => "exchange-info-http-write"
    | FsRead => "exchange-info-http-read" end;
  stage_code s := match s with
    | FsDns => NeDns | FsTcp => NeTcp | FsTls => NeTls
    | FsWrite => NeHttpWrite | FsRead => NeHttpRead end |}.

Record ExchangeInfoResponse : Type := MkExchangeInfoResponse {
  info_body : string;
  info_tls_verified : bool
}.

Module AsyncExchangeInfoGet.
Definition Result : Type := (ExchangeInfoResponse + NetworkError).

(** The members and the handlers Asio holds; [result] is what the completion stored. *)
Record Fetch : Type := MkFetch {
  fetch_generation : Z;
  fetch_done : bool;
  fetch_io : list FetchStage;
  fetch_timers : list (Z * FetchStage);
  fetch_result : option Result
}.
#[export] Instance Fetch_eta : Eta Fetch :=
  λ f, MkFetch (fetch_generation f) (fetch_done f) (fetch_io f) (fetch_timers f) (fetch_result f).

Definition new_fetch : Fetch := MkFetch 0 false [] [] None.

Definition arm_timeout (stage : FetchStage) (f : Fetch) : Fetch :=
  let generation := u64_succ (fetch_generation f) in
  f <| fetch_generation := generation |> <| fetch_timers ::= cons (generation, stage) |>.

Definition disarm_timeout (f : Fetch) : Fetch := f <| fetch_generation ::= u64_succ |>.

(** The completion keeps the first result. *)
Definition complete (result : Result) (f : Fetch) : Fetch :=
  match fetch_result f with
  | Some _ => f
  | None => f <| fetch_result := Some result |>
  end.

Definition finish (result : Result) (f : Fetch) : Fetch :=
  if fetch_done f then f else complete result (disarm_timeout (f <| fetch_done := true |>)).

Definition begin_stage (stage : FetchStage) (f : Fetch) : Fetch :=
  arm_timeout stage f <| fetch_io ::= cons stage |>.

(** [start]; [tls] is the error of [configure_tls_stream]. *)
Definition start (tls : option string) (f : Fetch) : Fetch :=
  match tls with
  | Some message => finish (inr (network_error NeTls "sni" message)) f
  | None => begin_stage FsDns f
  end.

Definition next (stage : FetchStage) : FetchStage :=
  match stage with
  | FsDns => FsTcp | FsTcp => FsTls | FsTls => FsWrite | FsWrite | FsRead => FsRead
  end.

(** [read_response]: what is made of the response. *)
Definition response_result (response : HttpResponse) : Result :=
  if negb (response_status response =? 200)%Z
  then inr (http_status_error "exchange-info-http-status" "Binance exchangeInfo returned non-200"
              response)
  else inl (MkExchangeInfoResponse (response_body response) true).

(** The handlers of I/O; [response] is read by the last one only. *)
Definition io_handler (stage : FetchStage) (error : option IoError) (response : HttpResponse)
  (f : Fetch) : Fetch :=
  if fetch_done f then f
  else
    let f := disarm_timeout f in
    match error with
    | Some e => finish (inr (error_from_code (stage_code stage) (stage_name stage) e)) f
    | None =>
        match stage with
        | FsRead => finish (response_result response) f
        | _ => begin_stage (next stage) f
        end
    end.

Definition timer_handler (generation : Z) (stage : FetchStage) (error : option IoError) (f : Fetch)
  : Fetch :=
  match error with
  | Some _ => f
  | None =>
      if negb (fetch_done f) && (generation =? fetch_generation f)%Z
      then finish (inr (network_error NeTimeout (stage_name stage) "network stage timed out")) f
      else f
  end.

(** One round of [io_context::run]: Asio calls a handler it holds. *)
Inductive fetch_step : Fetch → Fetch → Prop :=
| fetch_io_step f i stage error response :
    fetch_io f !! i = Some stage →
    fetch_step f (io_handler stage error response (f <| fetch_io ::= delete i |>))
| fetch_timer_step f i generation stage error :
    fetch_timers f !! i = Some (generation, stage) →
    fetch_step f (timer_handler generation stage error (f <| fetch_timers ::= delete i |>)).

Definition kStageTimeout : Z := 10 * 1000000000.

Record ExchangeInfoEndpoint : Type := MkExchangeInfoEndpoint {
  endpoint_host : string;
  endpoint_port : string;
  endpoint_target : string;
  endpoint_stage_timeout : Z
}.

Definition spot_exchange_info_set_endpoint : ExchangeInfoEndpoint :=
  MkExchangeInfoEndpoint "api.binance.com" "443" "/api/v3/exchangeInfo" kStageTimeout.

(** [detail::fetch_exchange_info_https] when [io_context::run] has left [f]; [threw] is
    the text of an exception ([None]: of another type). *)
Definition fetch_refused (endpoint : ExchangeInfoEndpoint) : bool :=
  bool_decide (endpoint_host endpoint = "") || bool_decide (endpoint_port endpoint = "")
  || bool_decide (endpoint_target endpoint = "") || (endpoint_stage_timeout endpoint <=? 0)%Z.

Definition fetch_exchange_info_https (endpoint : ExchangeInfoEndpoint)
  (run : Fetch + option string) : Result :=
  if fetch_refused endpoint
  then inr (network_error NeInternal "exchange-info-config"
              "exchangeInfo endpoint and timeout must be finite")
  else match run with
       | inr (Some what) => inr (network_error NeInternal "exchange-info-https" what)
       | inr None => inr (network_error NeInternal "exchange-info-https"
                            "exchangeInfo operation failed")
       | inl f =>
           match fetch_result f with
           | Some result => result
           | None => inr (network_error NeInternal "exchange-info-https"
                            "exchangeInfo operation completed without a result")
           end
       end.
End AsyncExchangeInfoGet.

Section FetchEnds.
Import AsyncExchangeInfoGet.

(** What a handler may still cause: the stages left to it, and itself. *)
Definition stages_left (stage : FetchStage) : nat :=
  match stage with FsDns => 11 | FsTcp => 9 | FsTls => 7 | FsWrite => 5 | FsRead => 3 end.

Definition fetch_measure (f : Fetch) : nat :=
  sum_list_with stages_left (fetch_io f) + length (fetch_timers f).

(** Before the end an I/O handler is registered and there is no result. *)
Definition fetch_ok (f : Fetch) : Prop :=
  if fetch_done f then is_Some (fetch_result f)
  else fetch_result f = None ∧ fetch_io f ≠ [].

Lemma finish_ok result f : (fetch_done f = true → is_Some (fetch_result f)) →
  fetch_ok (finish result f) ∧ fetch_measure (finish result f) = fetch_measure f.
Proof.
  unfold finish, fetch_ok. destruct (fetch_done f) eqn:Hd;
    [simpl; rewrite Hd; auto|].
  intros _. unfold complete. simpl. destruct (fetch_result f); (split; [by eexists|done]).
Qed.

Lemma sum_list_with_delete {A} (w : A → nat) (l : list A) i x :
  l !! i = Some x → sum_list_with w l = w x + sum_list_with w (delete i l).
Proof.
  revert i. induction l as [|y l IH]; intros [|i] H; simplify_eq/=; [done|].
  rewrite (IH i) by done. change (delete (S i) (y :: l)) with (y :: delete i l). simpl. lia.
Qed.

Lemma io_handler_ok stage error response f :
  (if fetch_done f then is_Some (fetch_result f) else fetch_result f = None) →
  fetch_ok (io_handler stage error response f) ∧
  fetch_measure (io_handler stage error response f) < stages_left stage + fetch_measure f.
Proof.
  intros H. unfold io_handler. destruct (fetch_done f) eqn:Hd.
  - split; [by unfold fetch_ok; rewrite Hd|]. destruct stage; simpl; lia.
  - destruct error as [e|].
    { destruct (finish_ok (inr (error_from_code (stage_code stage) (stage_name stage) e))
        (disarm_timeout f)) as [H1 H2]; [simpl; congruence|]. split; [done|]. rewrite H2.
      unfold fetch_measure. destruct stage; simpl; lia. }
    destruct stage; cbn [next]; try (split;
      [by unfold fetch_ok; simpl; rewrite Hd|unfold fetch_measure; simpl; lia]).
    destruct (finish_ok (response_result response) (disarm_timeout f)) as [H1 H2];
      [simpl; congruence|]. split; [done|]. rewrite H2. unfold fetch_measure. simpl. lia.
Qed.

Lemma fetch_step_ok f f' : fetch_ok f → fetch_step f f' →
  fetch_ok f' ∧ fetch_measure f' < fetch_measure f.
Proof.
  intros Hok Hstep. destruct Hstep as [f i stage error response Hi|f i generation stage error Hi].
  - destruct (io_handler_ok stage error response (f <| fetch_io ::= delete i |>)) as [H1 H2].
    { unfold fetch_ok in Hok. simpl. by destruct (fetch_done f); [|destruct Hok]. }
    split; [done|]. unfold fetch_measure in *. simpl in *.
    rewrite (sum_list_with_delete stages_left (fetch_io f) i stage Hi). lia.
  - set (f' := f <| fetch_timers ::= delete i |>).
    assert (Hf : fetch_ok f') by done.
    assert (Hlt : fetch_measure f' < fetch_measure f).
    { unfold fetch_measure. simpl. rewrite length_delete by done.
      apply lookup_lt_Some in Hi. lia. }
    unfold timer_handler. destruct error as [e|]; [done|].
    destruct (negb _ && _)%bool; [|done].
    destruct (finish_ok (inr (network_error NeTimeout (stage_name stage) "network stage timed out")) f')
      as [H1 H2]; [|split; [done|by rewrite H2]].
    intros Hd. unfold fetch_ok in Hf. by rewrite Hd in Hf.
Qed.

(** C20: However the network answers, the fetch of the exchange's metadata ends, and with
    exactly the result of its one completion: a document, or an error that names the
    stage; it is never left without one. *)
Theorem exchange_info_fetch_ends (tls : option string) :
  inevitably fetch_step
    (λ f, (∀ f', ¬ fetch_step f f') ∧ ∃ result, fetch_result f = Some result ∧
       ∀ endpoint, fetch_refused endpoint = false →
         fetch_exchange_info_https endpoint (inl f) = result)
    (start tls new_fetch).
Proof.
  apply (inevitably_measure fetch_step fetch_ok _ fetch_measure); [apply fetch_step_ok| |].
  - intros f Hok. destruct (fetch_io f) as [|stage rest] eqn:Hio.
    + destruct (fetch_timers f) as [|[generation stage] rest] eqn:Ht.
      * left. split.
        { intros f' Hs. destruct Hs as [f i stage e r Hi|f i g stage e Hi];
            [rewrite Hio in Hi|rewrite Ht in Hi]; by rewrite lookup_nil in Hi. }
        unfold fetch_ok in Hok. destruct (fetch_done f); [|by destruct Hok].
        destruct Hok as [result Hr]. exists result. split; [done|].
        intros endpoint He. unfold fetch_exchange_info_https. by rewrite He, Hr.
      * right. eexists. apply (fetch_timer_step f 0 generation stage None). by rewrite Ht.
    + right. eexists. apply (fetch_io_step f 0 stage None (MkHttpResponse 0 None "")).
      by rewrite Hio.
  - destruct tls as [message|]; [|done]. by apply finish_ok.
Qed.
End FetchEnds.
