(* ===== verification/Routes.v ===== *)
(** * Routes: where a product's transport connects and how it reads the answers

    Models the routes and the transport configurations of [src/src/g4/spot_transport.hpp]
    and [.cpp] and of [src/src/g11/usdm_transport.hpp] and [.cpp]: the targets derived
    from an exact symbol, the parsers bound to it, and the identifier of a connection.
    The network itself is modelled in [Transport]. *)

From Stdlib Require Import Ascii.
From S2P Require Import Prelude Ring Wire Text Json Session OrderBookPublication.
From S2P Require Import EventPublication Programs Projection MarketRuntime Recovery.
From S2P Require Import SpotProtocol UsdmProtocol.

Open Scope gateway_scope.

(** ** Routes *)

Definition kRestHost : string := "api.binance.com".
Definition kRestPort : string := "443".
Definition kWebSocketHost : string := "stream.binance.com".
Definition kWebSocketPort : string := "9443".

Record SpotTransportRoutes : Type := MkSpotTransportRoutes {
  spot_rest_host : string;
  spot_rest_port : string;
  spot_exchange_info_target : string;
  spot_depth_target : string;
  spot_websocket_host : string;
  spot_websocket_port : string;
  spot_websocket_target : string;
  spot_combined_websocket_target : string;
  spot_diff_depth_stream : string;
  spot_agg_trade_stream : string;
  spot_book_ticker_stream : string;
  spot_snapshot_limit : Z;
  spot_connection_id_prefix : string;
  spot_snapshot_request_id : string
}.

Definition make_spot_transport_routes (exact_symbol : string) : option SpotTransportRoutes :=
  match spot_stream_symbol exact_symbol with
  | None => None
  | Some stream_symbol =>
      let diff_depth_stream := stream_symbol +:+ "@depth@100ms" in
      let agg_trade_stream := stream_symbol +:+ "@aggTrade" in
      let book_ticker_stream := stream_symbol +:+ "@bookTicker" in
      Some (MkSpotTransportRoutes kRestHost kRestPort
        ("/api/v3/exchangeInfo?symbol=" +:+ exact_symbol)
        ("/api/v3/depth?symbol=" +:+ exact_symbol +:+ "&limit=5000")
        kWebSocketHost kWebSocketPort
        ("/ws/" +:+ stream_symbol +:+ "@depth@100ms")
        ("/stream?streams=" +:+ diff_depth_stream +:+ "/" +:+ agg_trade_stream +:+ "/"
         +:+ book_ticker_stream)
        diff_depth_stream agg_trade_stream book_ticker_stream 5000
        ("binance-spot-" +:+ stream_symbol +:+ "-g")
        ("g4-spot-" +:+ stream_symbol +:+ "-depth-request-1"))
  end.

Record UsdMTransportRoutes : Type := MkUsdMTransportRoutes {
  usdm_rest_host : string;
  usdm_rest_port : string;
  usdm_exchange_info_target : string;
  usdm_depth_target : string;
  usdm_websocket_host : string;
  usdm_websocket_port : string;
  usdm_websocket_target : string;
  usdm_diff_depth_stream : string;
  usdm_snapshot_limit : Z;
  usdm_connection_id_prefix : string;
  usdm_snapshot_request_id : string
}.

Definition kUsdMTransportRoutes : UsdMTransportRoutes := MkUsdMTransportRoutes
  "fapi.binance.com" "443" "/fapi/v1/exchangeInfo" "/fapi/v1/depth?symbol=BTCUSDT&limit=1000"
  "fstream.binance.com" "443" "/public/ws/btcusdt@depth@100ms" "btcusdt@depth@100ms" 1000
  "binance-usdm-btcusdt-g" "g11-usdm-btcusdt-depth-request-1".

Definition make_usdm_transport_routes (exact_symbol : string) : option UsdMTransportRoutes :=
  match usdm_stream_symbol exact_symbol with
  | None => None
  | Some encoded_symbol =>
      Some (MkUsdMTransportRoutes (usdm_rest_host kUsdMTransportRoutes)
        (usdm_rest_port kUsdMTransportRoutes) (usdm_exchange_info_target kUsdMTransportRoutes)
        ("/fapi/v1/depth?symbol=" +:+ exact_symbol +:+ "&limit=1000")
        (usdm_websocket_host kUsdMTransportRoutes) (usdm_websocket_port kUsdMTransportRoutes)
        ("/public/ws/" +:+ encoded_symbol +:+ "@depth@100ms")
        (encoded_symbol +:+ "@depth@100ms") 1000
        ("binance-usdm-" +:+ encoded_symbol +:+ "-g")
        ("g11-usdm-" +:+ encoded_symbol +:+ "-depth-request-1"))
  end.

(** ** Transport configurations *)

(** [std::function] members that may be empty are options.  The event sink is applied by
    the transport; here it is present or not. *)
Record BinanceTransportConfig : Type := MkTransportConfig {
  cfg_rest_host : string;
  cfg_rest_port : string;
  cfg_depth_target : string;
  cfg_websocket_host : string;
  cfg_websocket_port : string;
  cfg_websocket_target : string;
  cfg_connection_id_prefix : string;
  cfg_snapshot_request_id : string;
  cfg_user_agent : string;
  cfg_profile : BinanceTransportProfile;
  cfg_has_event_sink : bool;
  cfg_depth_frame_parser :
    option (string → ClockSample → string → Frame DepthUpdate + ProtocolError);
  cfg_combined_frame_parser :
    option (string → ClockSample → string → Frame NormalizedMarketEvent + ProtocolError);
  cfg_depth_snapshot_parser :
    option (string → ClockSample → string → ExchangeDepthSnapshot + ProtocolError)
}.

#[export] Instance BinanceTransportProfile_eq_dec : EqDecision BinanceTransportProfile.
Proof. solve_decision. Defined.

Section Configurations.
Context `{W : WireEnums} `{N : NumericLibrary} `{J : JsonLibrary}.

(** [None] is [std::invalid_argument]. *)
Definition spot_transport_config (exact_symbol : string) (profile : BinanceTransportProfile)
  (has_event_sink : bool) : option BinanceTransportConfig :=
  match make_spot_transport_routes exact_symbol with
  | None => None
  | Some routes =>
      let combined := bool_decide (profile = G9CombinedEvents) in
      Some (MkTransportConfig (spot_rest_host routes) (spot_rest_port routes)
        (spot_depth_target routes) (spot_websocket_host routes) (spot_websocket_port routes)
        (if combined then spot_combined_websocket_target routes else spot_websocket_target routes)
        (spot_connection_id_prefix routes) (spot_snapshot_request_id routes)
        "bmd-gateway-g4/1.0.0" profile has_event_sink
        (Some (λ payload received_at connection_id,
           parse_depth_frame payload received_at connection_id exact_symbol))
        (Some (λ payload received_at connection_id,
           parse_combined_event_frame payload received_at connection_id exact_symbol))
        (Some (λ payload received_at request_id,
           parse_depth_snapshot payload received_at request_id exact_symbol)))
  end.

Definition make_usdm_transport_config (exact_symbol : string) (has_event_sink : bool)
  : option BinanceTransportConfig :=
  match make_usdm_transport_routes exact_symbol with
  | None => None
  | Some routes =>
      Some (MkTransportConfig (usdm_rest_host routes) (usdm_rest_port routes)
        (usdm_depth_target routes) (usdm_websocket_host routes) (usdm_websocket_port routes)
        (usdm_websocket_target routes) (usdm_connection_id_prefix routes)
        (usdm_snapshot_request_id routes) "bmd-gateway-g11-usdm/1.0.0"
        (if has_event_sink then DepthWithEvents else DepthOnly) has_event_sink
        (Some (λ payload received_at connection_id,
           parse_usdm_depth_frame payload received_at connection_id exact_symbol))
        None
        (Some (λ payload received_at request_id,
           parse_usdm_depth_snapshot payload received_at request_id exact_symbol)))
  end.
End Configurations.

(** The identifier of a connection, from the generation and the instant of opening. *)
Definition connection_id (config : BinanceTransportConfig) (connection_generation : Z)
  (opened_at : ClockSample) : string :=
  cfg_connection_id_prefix config +:+ pretty connection_generation +:+ "-"
  +:+ pretty (sample_utc_ns opened_at).

(** The guards of [BinanceTransport::Impl::Impl]. *)
Definition transport_config_valid (config : BinanceTransportConfig)
  (connection_generation : Z) : bool :=
  negb (connection_generation =? 0)%Z
  && negb (bool_decide (cfg_rest_host config = "") || bool_decide (cfg_rest_port config = "")
           || bool_decide (cfg_depth_target config = "")
           || bool_decide (cfg_websocket_host config = "")
           || bool_decide (cfg_websocket_port config = "")
           || bool_decide (cfg_websocket_target config = "")
           || bool_decide (cfg_connection_id_prefix config = "")
           || bool_decide (cfg_snapshot_request_id config = "")
           || bool_decide (cfg_user_agent config = "")
           || negb (bool_decide (is_Some (cfg_depth_frame_parser config)))
           || negb (bool_decide (is_Some (cfg_depth_snapshot_parser config))))
  && negb (bool_decide (cfg_profile config = G9CombinedEvents)
           && negb (bool_decide (is_Some (cfg_combined_frame_parser config))))
  && negb (negb (bool_decide (cfg_profile config = DepthOnly))
           && negb (cfg_has_event_sink config)).

(** ** What the routes promise *)

Lemma split_unique c a b a' b' :
  find_char c a = None → find_char c a' = None →
  a +:+ String c b = a' +:+ String c b' → a = a' ∧ b = b'.
Proof.
  intros Ha Ha' Heq. pose proof (find_char_app c a b Ha) as H. rewrite Heq in H.
  rewrite find_char_app in H by done. injection H as Hn.
  assert (a = a') as ->.
  { rewrite <- (take_string_app a (String c b)), Heq, <- Hn. apply take_string_app. }
  split; [done|]. apply (f_equal (drop_string (String.length a'))) in Heq.
  rewrite !drop_string_app in Heq. by injection Heq.
Qed.

Lemma all_chars_none c p s : p c = false → all_chars p s = true → find_char c s = None.
Proof.
  intros Hc. induction s as [|a s IH]; simpl; [done|]. rewrite andb_true_iff. intros [Ha Hs].
  rewrite bool_decide_eq_false_2 by (intros ->; congruence). by rewrite IH.
Qed.

Lemma pretty_no_dash (z : Z) : (0 <= z)%Z → find_char "-" (pretty z) = None.
Proof.
  intros Hz. replace (pretty z) with (pretty (Z.to_N z)).
  - eapply all_chars_none; [|apply pretty_digits]. done.
  - unfold pretty at 2, pretty_Z. destruct z; [done|done|lia].
Qed.

Lemma stream_symbol_no_dash sym enc :
  spot_stream_symbol sym = Some enc → find_char "-" enc = None.
Proof.
  intros (_ & H & _)%spot_stream_symbol_spec. by eapply all_chars_none; [|exact H].
Qed.

Lemma stream_symbol_inj sym sym' enc :
  spot_stream_symbol sym = Some enc → spot_stream_symbol sym' = Some enc → sym = sym'.
Proof.
  intros (_ & _ & ->)%spot_stream_symbol_spec (_ & _ & ->)%spot_stream_symbol_spec. done.
Qed.

(** The part of a connection identifier that follows the market. *)
Lemma connection_suffix_inj enc enc' (g g' t t' : Z) :
  find_char "-" enc = None → find_char "-" enc' = None →
  (0 <= g)%Z → (0 <= g')%Z →
  enc +:+ "-g" +:+ pretty g +:+ "-" +:+ pretty t
  = enc' +:+ "-g" +:+ pretty g' +:+ "-" +:+ pretty t' →
  enc = enc' ∧ g = g' ∧ t = t'.
Proof.
  intros He He' Hg Hg' Heq.
  apply split_unique in Heq as [-> Heq]; [|done..]. simpl in Heq. injection Heq as Heq.
  apply split_unique in Heq as [H1 H2]; [|by apply pretty_no_dash..].
  split_all; [done| |]; by apply (inj pretty).
Qed.

Section Promises.
Context `{W : WireEnums} `{N : NumericLibrary} `{J : JsonLibrary}.

(** The configuration of a product's transport: Spot on the combined stream, USD-M on
    its depth stream, both publishing events. *)
Definition product_transport (is_spot : bool) (symbol : string) : option BinanceTransportConfig :=
  if is_spot then spot_transport_config symbol G9CombinedEvents true
  else make_usdm_transport_config symbol true.

Lemma product_transport_prefix is_spot symbol config :
  product_transport is_spot symbol = Some config →
  ∃ enc, spot_stream_symbol symbol = Some enc ∧
    cfg_connection_id_prefix config =
      "binance-" +:+ (if is_spot then "spot-" else "usdm-") +:+ enc +:+ "-g".
Proof.
  unfold product_transport, spot_transport_config, make_usdm_transport_config,
    make_spot_transport_routes, make_usdm_transport_routes, usdm_stream_symbol.
  destruct is_spot, (spot_stream_symbol symbol) as [enc|]; intros [= <-]; by exists enc.
Qed.

(** A routable product has a valid transport for every generation. *)
Lemma product_transport_valid is_spot symbol generation :
  spot_stream_symbol symbol ≠ None → generation ≠ 0%Z →
  ∃ config, product_transport is_spot symbol = Some config ∧
    transport_config_valid config generation = true.
Proof.
  intros Hs Hg. apply Z.eqb_neq in Hg.
  unfold product_transport, spot_transport_config, make_usdm_transport_config,
    make_spot_transport_routes, make_usdm_transport_routes, usdm_stream_symbol.
  destruct is_spot, (spot_stream_symbol symbol) as [enc|]; try done; eexists;
    (split; [reflexivity|]); unfold transport_config_valid; by rewrite Hg.
Qed.

(** No two connections share an identifier: of two transports of configured
    products, equal connection identifiers mean the same market, the same symbol, the
    same source generation and the same instant of opening. *)
Theorem connection_ids_are_unique (spot spot' : bool) symbol symbol' config config' g g' rx rx' :
  product_transport spot symbol = Some config →
  product_transport spot' symbol' = Some config' →
  (0 <= g)%Z → (0 <= g')%Z →
  connection_id config g rx = connection_id config' g' rx' →
  spot = spot' ∧ symbol = symbol' ∧ g = g' ∧ sample_utc_ns rx = sample_utc_ns rx'.
Proof.
  intros (enc & He & Hp)%product_transport_prefix (enc' & He' & Hp')%product_transport_prefix Hg Hg'.
  unfold connection_id. rewrite Hp, Hp', !append_assoc. intros Heq.
  assert (spot = spot') as <- by (by destruct spot, spot').
  assert (Hs : enc +:+ "-g" +:+ pretty g +:+ "-" +:+ pretty (sample_utc_ns rx)
               = enc' +:+ "-g" +:+ pretty g' +:+ "-" +:+ pretty (sample_utc_ns rx')).
  { by destruct spot; simplify_eq. }
  apply connection_suffix_inj in Hs as (<- & -> & ->);
    [|by eapply stream_symbol_no_dash|by eapply stream_symbol_no_dash|done|done].
  split_all; try done. by eapply stream_symbol_inj.
Qed.

(** The combined connection asks for exactly the streams the parser routes to events. *)
Lemma combined_target_lists_the_routed_streams symbol enc routes :
  spot_stream_symbol symbol = Some enc → make_spot_transport_routes symbol = Some routes →
  spot_combined_websocket_target routes
  = "/stream?streams=" +:+ spot_diff_depth_stream routes +:+ "/" +:+ spot_agg_trade_stream routes
    +:+ "/" +:+ spot_book_ticker_stream routes ∧
  ∀ stream data rx conn event,
    route_stream stream enc data rx conn symbol = inl (FrameEvent event) →
    stream ∈ [spot_diff_depth_stream routes; spot_agg_trade_stream routes;
              spot_book_ticker_stream routes].
Proof.
  intros Hs. unfold make_spot_transport_routes. rewrite Hs. intros [= <-]. split; [done|].
  intros stream data rx conn event H. apply (route_stream_spec enc) in H; [|done]. simpl in *.
  rewrite !elem_of_cons. destruct event; destruct H as [-> _]; tauto.
Qed.
End Promises.

(** ** Witness: two generations of one product *)

Definition sample_numeric : NumericLibrary := {|
  DecimalScale := Z; decimal_scale_create z := Some z |}.
Definition sample_json : JsonLibrary := {| json_parse _ := Returned None |}.

Definition sample_transport : option BinanceTransportConfig :=
  product_transport (W := sample_enums) (J := sample_json) true "BTCUSDT".

Lemma connection_ids_are_unique_witness :
  (match sample_transport with
   | Some config => Some (connection_id config 2 (MkClockSample 7 8))
   | None => None
   end) = Some "binance-spot-btcusdt-g2-7" ∧
  match sample_transport with
  | Some config =>
      connection_id config 1 (MkClockSample 7 8) = connection_id config 2 (MkClockSample 7 8) → False
  | None => False
  end.
Proof.
  split; [by vm_compute|]. destruct sample_transport as [config|] eqn:Hc; [|by vm_compute in Hc].
  intros H. destruct (connection_ids_are_unique (W := sample_enums) (J := sample_json)
    true true "BTCUSDT" "BTCUSDT" config config 1 2 (MkClockSample 7 8) (MkClockSample 7 8)
    Hc Hc ltac:(lia) ltac:(lia) H) as (_ & _ & Hg & _). discriminate Hg.
Defined.
