(* ===== verification/Transport.v ===== *)
(** * Transport: one connection of a product to the exchange

    Models [BinanceTransport::Impl] of [src/src/g4/spot_transport.cpp], the mechanism
    Spot and USD-M share: the stream and the REST snapshot of one generation, the network
    thread that runs their handlers, and the calls [start], [stop] and [observe] of other
    threads.  A handler is a thread ([prog]) over the transport; the sections under
    [mutex_] are its sections.  The runtime, the event sink, the clock and OpenSSL answer
    through the class [TransportWorld]; the performance baseline and the test hooks are
    left out.

    [transport_step] is one section of any of the threads, Asio choosing the handlers.
    The theorems are in [TransportBehaviour]. *)

From S2P Require Import Prelude Ring Wire Text Json Session OrderBookPublication.
From S2P Require Import EventPublication Programs Projection MarketRuntime Recovery.
From S2P Require Import SpotProtocol UsdmProtocol Network Routes.

Open Scope gateway_scope.

Inductive NormalizedEventSinkResult : Type :=
| SinkContinue
| SinkInvariantFailure.

#[export] Instance NormalizedEventSinkResult_eq_dec : EqDecision NormalizedEventSinkResult.
Proof. solve_decision. Defined.

#[export] Instance TransportObservation_eta : Eta TransportObservation :=
  λ o, MkTransportObservation (to_started o) (to_running o) (to_stopped o) (to_tls_verified o)
    (to_websocket_handshake o) (to_rest_depth_fetched o) (to_server_ping_observed o)
    (to_server_shutdown_observed o) (to_depth_frame_count o) (to_agg_trade_frame_count o)
    (to_book_ticker_frame_count o) (to_last_event_utc_ns o) (to_profile o) (to_connection_id o)
    (to_connection_generation o) (to_terminal_error o).

(** What the network thread calls: the clock ([inr]: the text of its exception), the TLS
    configuration of a stream to a host (its error), the allocation of an event, the
    event sink, and the runtime. *)
Class TransportWorld (S : Type) : Type := {
  tw_clock : S → S * (ClockSample + string);
  tw_configure_tls : string → S → S * option string;
  tw_allocate_event : S → S * bool;
  tw_publish : NormalizedMarketEvent → Z → S → S * outcome NormalizedEventSinkResult;
  tw_submit_depth_update : DepthUpdate → Z → S → S * AdmissionResult;
  tw_submit_snapshot : ExchangeDepthSnapshot → Z → S → S * AdmissionResult;
  tw_submit_snapshot_failure : S → S * AdmissionResult;
  tw_submit_transport_failure : S → S * AdmissionResult
}.

(** Handlers posted to the [io_context], which runs them in order. *)
Inductive Posted : Type :=
| PostStartWebSocket
| PostCleanShutdown.

(** The members only the network thread touches. *)
Record Network : Type := MkNetwork {
  (** [websocket_] and [depth_request_]: the parent's references, and the operations
      they designate, which live on while Asio holds their handlers *)
  websocket_held : bool;
  websocket : option AsyncWebSocket.WebSocket;
  depth_request_held : bool;
  depth_request : option AsyncHttpsGet.Get;
  work_guard : bool;
  network_clean_cancel_requested : bool;
  (** whether Asio holds the handler of [clean_shutdown_barrier_] *)
  barrier_waiting : bool
}.
#[export] Instance Network_eta : Eta Network :=
  λ n, MkNetwork (websocket_held n) (websocket n) (depth_request_held n) (depth_request n)
    (work_guard n) (network_clean_cancel_requested n) (barrier_waiting n).

Section Transport.
Context {S : Type} `{TW : !TransportWorld S}.
Context (config : BinanceTransportConfig) (connection_generation : Z).

Record Transport : Type := MkTransport {
  observation : TransportObservation;
  stop_requested : bool;
  stop_in_progress : bool;
  posted : list Posted;
  network : Network;
  world : S
}.
#[export] Instance Transport_eta : Eta Transport :=
  λ t, MkTransport (observation t) (stop_requested t) (stop_in_progress t) (posted t) (network t)
    (world t).
Abbreviation Thread := (prog Transport).

(** [Impl::Impl] over the world [s]; [None] is [std::invalid_argument] or an exception of
    the clock. *)
Definition make_transport (s : S) : option Transport :=
  if negb (transport_config_valid config connection_generation) then None
  else match tw_clock s with
       | (s, inl opened_at) =>
           Some (MkTransport
             (MkTransportObservation false false false false false false false false 0 0 0 None
                (cfg_profile config) (connection_id config connection_generation opened_at)
                connection_generation None)
             false false [] (MkNetwork false None false None false false false) s)
       | (_, inr _) => None
       end.

(** ** The network thread *)

(** A call on the world. *)
Definition call {B} (f : S → S * B) : Thread B :=
  atomically (λ t, (t <| world := fst (f (world t)) |>, snd (f (world t)))).

(** A section that updates [observation_]. *)
Definition observe_that (f : TransportObservation → TransportObservation) : Thread () :=
  modify (λ t, t <| observation ::= f |>).

(** A piece of code on an operation; [nothing] when there is no such operation. *)
Definition on_websocket {B} (nothing : B)
  (f : AsyncWebSocket.WebSocket → AsyncWebSocket.WebSocket * B) : Thread B :=
  atomically (λ t, match websocket (network t) with
    | Some w => (t <| network ::= λ n, n <| websocket := Some (fst (f w)) |> |>, snd (f w))
    | None => (t, nothing)
    end).

Definition on_depth_request {B} (nothing : B)
  (f : AsyncHttpsGet.Get → AsyncHttpsGet.Get * B) : Thread B :=
  atomically (λ t, match depth_request (network t) with
    | Some g => (t <| network ::= λ n, n <| depth_request := Some (fst (f g)) |> |>, snd (f g))
    | None => (t, nothing)
    end).

(** [cancel_network_operations]: the references are dropped, the operations they held are
    cancelled. *)
Definition cancel_network_operations (t : Transport) : Transport :=
  t <| network ::= λ n,
    n <| websocket_held := false |>
      <| websocket := if websocket_held n then cancel <$> websocket n else websocket n |>
      <| depth_request_held := false |>
      <| depth_request := if depth_request_held n then cancel <$> depth_request n
                          else depth_request n |> |>.

Definition release_network_work (t : Transport) : Transport :=
  t <| network ::= λ n, n <| work_guard := false |> |>.

(** The first section of [terminal_failure]: [false] when there was an error before. *)
Definition record_terminal_error (failure : NetworkError) (t : Transport) : Transport * bool :=
  match to_terminal_error (observation t) with
  | Some _ => (t, false)
  | None => (t <| observation ::= λ o, o <| to_terminal_error := Some failure |>
                                          <| to_running := false |> |>, true)
  end.

Definition terminal_failure (failure : NetworkError) (snapshot_failure : bool) : Thread () :=
  first ← atomically (record_terminal_error failure);
  if negb first then mret () else
  _ ← (if snapshot_failure then call tw_submit_snapshot_failure
       else call tw_submit_transport_failure);
  modify cancel_network_operations ;;
  modify release_network_work.

(** [submit_depth_update] *)
Definition submit_depth_update (update : DepthUpdate) : Thread bool :=
  admitted ← call (tw_submit_depth_update update connection_generation);
  if negb (bool_decide (admitted = ArAccepted)) then
    terminal_failure (network_error NeRuntimeAdmission "websocket-runtime-admission"
      "MarketRuntime rejected a depth frame") false ;;
    mret false
  else
    observe_that (λ o, o <| to_depth_frame_count ::= u64_succ |>) ;;
    mret true.

(** [publish_normalized_event] *)
Definition publish_normalized_event (event : NormalizedMarketEvent) : Thread bool :=
  sink_result ← call (tw_publish event connection_generation);
  match sink_result with
  | Returned SinkContinue => mret true
  | Returned SinkInvariantFailure | Threw =>
      terminal_failure (network_error NeInternal "websocket-event-publication"
        "normalized event sink failed closed") false ;;
      mret false
  end.

(** The allocation of the shared event and its publication. *)
Definition publish_event (event : NormalizedMarketEvent) : Thread bool :=
  allocated ← call tw_allocate_event;
  if negb allocated then
    terminal_failure (network_error NeInternal "websocket-event-allocation"
      "normalized event allocation failed") false ;;
    mret false
  else publish_normalized_event event.

Definition receive_server_shutdown : Thread () :=
  observe_that (λ o, o <| to_server_shutdown_observed := true |>) ;;
  terminal_failure (network_error NeServerShutdown "websocket-server-shutdown"
    "Binance announced serverShutdown") false.

Definition receive_protocol_failure (failure : ProtocolError) : Thread () :=
  terminal_failure (network_error NeProtocol "websocket-json" (pe_message failure)) false.

(** The parsers of the configuration; the constructor has refused an empty one that the
    profile uses, so that the default is never called. *)
Definition parser_missing {B} : B + ProtocolError :=
  inr (protocol_error InvalidJson "parser" "no parser is configured").
Definition depth_frame_parser : string → ClockSample → string → Frame DepthUpdate + ProtocolError :=
  default (λ _ _ _, parser_missing) (cfg_depth_frame_parser config).
Definition combined_frame_parser
  : string → ClockSample → string → Frame NormalizedMarketEvent + ProtocolError :=
  default (λ _ _ _, parser_missing) (cfg_combined_frame_parser config).
Definition depth_snapshot_parser
  : string → ClockSample → string → ExchangeDepthSnapshot + ProtocolError :=
  default (λ _ _ _, parser_missing) (cfg_depth_snapshot_parser config).

(** The branch of the profiles with a raw depth stream. *)
Definition receive_depth_frame (payload : string) (received_at : ClockSample) : Thread bool :=
  connection_id ← read (λ t, to_connection_id (observation t));
  match depth_frame_parser payload received_at connection_id with
  | inl (FrameServerShutdown _) => receive_server_shutdown ;; mret false
  | inr failure => receive_protocol_failure failure ;; mret false
  | inl (FrameEvent update) =>
      observe_that (λ o, o <| to_last_event_utc_ns := Some (sample_utc_ns received_at) |>) ;;
      published ← (if bool_decide (cfg_profile config = DepthWithEvents)
                   then publish_event (EvDepthUpdate update) else mret true);
      if negb published then mret false else submit_depth_update update
  end.

(** The branch of the combined stream. *)
Definition receive_combined_frame (payload : string) (received_at : ClockSample) : Thread bool :=
  connection_id ← read (λ t, to_connection_id (observation t));
  match combined_frame_parser payload received_at connection_id with
  | inl (FrameServerShutdown _) => receive_server_shutdown ;; mret false
  | inr failure => receive_protocol_failure failure ;; mret false
  | inl (FrameEvent event) =>
      observe_that (λ o, o <| to_last_event_utc_ns := Some (sample_utc_ns received_at) |>) ;;
      published ← publish_event event;
      if negb published then mret false else
      match event with
      | EvDepthUpdate update => submit_depth_update update
      | EvAggTrade _ =>
          observe_that (λ o, o <| to_agg_trade_frame_count ::= u64_succ |>) ;; mret true
      | EvBookTicker _ =>
          observe_that (λ o, o <| to_book_ticker_frame_count ::= u64_succ |>) ;; mret true
      end
  end.

Definition receive_websocket_message (payload : string) (received_at : ClockSample) : Thread bool :=
  if negb (bool_decide (cfg_profile config = G9CombinedEvents))
  then receive_depth_frame payload received_at
  else receive_combined_frame payload received_at.

Definition receive_depth_response (result : AsyncHttpsGet.Result) : Thread () :=
  match result with
  | inr failure => terminal_failure failure true
  | inl (response, received_at) =>
      match depth_snapshot_parser (response_body response) received_at
              (cfg_snapshot_request_id config) with
      | inr failure =>
          terminal_failure (network_error NeProtocol "depth-snapshot-json" (pe_message failure)) true
      | inl snapshot =>
          admitted ← call (tw_submit_snapshot snapshot connection_generation);
          if negb (bool_decide (admitted = ArAccepted)) then
            terminal_failure (network_error NeRuntimeAdmission "snapshot-runtime-admission"
              "MarketRuntime rejected the REST snapshot") true
          else observe_that (λ o, o <| to_rest_depth_fetched := true |>)
      end
  end.

(** *** The handlers of the REST snapshot *)

Definition continue_depth_request (step : AsyncHttpsGet.Next) : Thread () :=
  match step with
  | AsyncHttpsGet.Complete result => receive_depth_response result
  | AsyncHttpsGet.Nothing | AsyncHttpsGet.Response => mret ()
  end.

(** [AsyncHttpsGet::start] *)
Definition start_depth_request : Thread () :=
  failure ← call (tw_configure_tls (cfg_rest_host config));
  match failure with
  | Some message =>
      step ← on_depth_request AsyncHttpsGet.Nothing
               (λ g, AsyncHttpsGet.completion
                       (finish (inr (network_error NeTls "sni" message)) g));
      continue_depth_request step
  | None => on_depth_request () (λ g, (AsyncHttpsGet.start g, ()))
  end.

(** The [i]-th I/O handler of the request, called with [error] and, when it has read the
    response, with [response]. *)
Definition depth_io_handler (i : nat) (stage : HttpsStage) (error : option IoError)
  (response : HttpResponse) : Thread () :=
  step ← on_depth_request AsyncHttpsGet.Nothing (λ g,
           let g := take_io i g in
           match stage with
           | HsRead => AsyncHttpsGet.read_handler error g
           | _ => AsyncHttpsGet.io_handler stage error g
           end);
  match step with
  | AsyncHttpsGet.Response =>
      received_at ← call tw_clock;
      let result := AsyncHttpsGet.response_result received_at response in
      step ← on_depth_request AsyncHttpsGet.Nothing (AsyncHttpsGet.response_handler result);
      continue_depth_request step
  | _ => continue_depth_request step
  end.

Definition depth_timer_handler (i : nat) (generation : Z) (stage : HttpsStage)
  (error : option IoError) : Thread () :=
  step ← on_depth_request AsyncHttpsGet.Nothing (λ g,
           AsyncHttpsGet.completion (timer_handler generation stage error (take_timer i g)));
  continue_depth_request step.

(** *** The handlers of the stream *)

(** [websocket_active] *)
Definition websocket_active : Thread () :=
  go_on ← atomically (λ t, if stop_requested t then (t, false)
    else (t <| observation ::= λ o, o <| to_websocket_handshake := true |>
                                      <| to_running := true |> |>, true));
  if negb go_on then mret () else
  modify (λ t, t <| network ::= λ n, n <| depth_request_held := true |>
                                       <| depth_request := Some new_operation |> |>) ;;
  start_depth_request.

(** The callbacks of the stream, but [message]. *)
Definition continue_websocket (step : AsyncWebSocket.Next) : Thread () :=
  match step with
  | AsyncWebSocket.Failure error => terminal_failure error false
  | AsyncWebSocket.TlsVerified =>
      observe_that (λ o, o <| to_tls_verified := true |>) ;;
      on_websocket () (λ w, (AsyncWebSocket.websocket_handshake w, ()))
  | AsyncWebSocket.Active => websocket_active
  | AsyncWebSocket.Nothing | AsyncWebSocket.Message _ => mret ()
  end.

(** [start_websocket] and [AsyncWebSocket::start] *)
Definition start_websocket : Thread () :=
  modify (λ t, t <| network ::= λ n, n <| websocket_held := true |>
                                       <| websocket := Some new_operation |> |>) ;;
  failure ← call (tw_configure_tls (cfg_websocket_host config));
  match failure with
  | Some message =>
      step ← on_websocket AsyncWebSocket.Nothing
               (AsyncWebSocket.fail (network_error NeTls "sni" message));
      continue_websocket step
  | None => on_websocket () (λ w, (AsyncWebSocket.start w, ()))
  end.

(** The rest of a read that succeeded: the clock, the kind of the frame, [message]. *)
Definition receive_frame (got_text : bool) (payload : string) (retire_after_message : bool)
  : Thread () :=
  received_at ← call tw_clock;
  match AsyncWebSocket.frame_payload received_at got_text payload with
  | inr failure =>
      step ← on_websocket AsyncWebSocket.Nothing (AsyncWebSocket.fail failure);
      continue_websocket step
  | inl (payload, received_at) =>
      accepted ← receive_websocket_message payload received_at;
      step ← on_websocket AsyncWebSocket.Nothing
               (AsyncWebSocket.message_handled accepted retire_after_message);
      continue_websocket step
  end.

(** The [i]-th I/O handler of the stream; [got_text] and [payload] are those of the frame
    a read has received. *)
Definition websocket_io_handler (i : nat) (stage : WebSocketStage) (error : option IoError)
  (got_text : bool) (payload : string) : Thread () :=
  step ← on_websocket AsyncWebSocket.Nothing (λ w,
           let w := take_io i w in
           match stage with
           | WsRead => AsyncWebSocket.read_handler error w
           | _ => AsyncWebSocket.io_handler stage error w
           end);
  match step with
  | AsyncWebSocket.Message retire_after_message => receive_frame got_text payload retire_after_message
  | _ => continue_websocket step
  end.

Definition websocket_timer_handler (i : nat) (generation : Z) (stage : WebSocketStage)
  (error : option IoError) : Thread () :=
  step ← on_websocket AsyncWebSocket.Nothing (λ w,
           AsyncWebSocket.failure (timer_handler generation stage error (take_timer i w)));
  continue_websocket step.

(** The [ping] callback, which Beast makes while it reads. *)
Definition ping : Thread () := observe_that (λ o, o <| to_server_ping_observed := true |>).

(** *** The clean shutdown *)

Definition begin_clean_shutdown : Thread () :=
  modify (λ t, t <| network ::= λ n,
    if network_clean_cancel_requested n then n
    else n <| network_clean_cancel_requested := true |> <| barrier_waiting := true |> |>).

(** The handler of the barrier. *)
Definition barrier_handler : Thread () :=
  modify (λ t, release_network_work (cancel_network_operations
    (t <| network ::= λ n, n <| barrier_waiting := false |> |>))).

(** ** The calls of other threads *)

(** [start] up to its wait: what it answers at once; otherwise the handler is posted and
    the network thread runs. *)
Definition start_begin (t : Transport) : Transport * option TransportStartResult :=
  if to_stopped (observation t) then (t, Some TsStopped)
  else if to_started (observation t) then (t, Some TsAlreadyStarted)
  else (t <| observation ::= λ o, o <| to_started := true |> |>
          <| network ::= λ n, n <| work_guard := true |> |>
          <| posted ::= λ p, p ++ [PostStartWebSocket] |>, None).

(** The condition [start] waits for, and its answer then. *)
Definition start_wait_over (t : Transport) : bool :=
  to_websocket_handshake (observation t)
  || bool_decide (is_Some (to_terminal_error (observation t)))
  || to_stopped (observation t) || stop_requested t.

Definition start_answer (t : Transport) : TransportStartResult :=
  if to_stopped (observation t) || stop_requested t then TsStopped
  else if to_websocket_handshake (observation t) then TsStarted else TsFailed.

(** [stop] up to its wait: it returns at once, waits for another [stop], or goes on. *)
Inductive StopDecision : Type :=
| StopReturns
| StopWaits
| StopProceeds (started : bool).

Definition stop_begin (t : Transport) : Transport * StopDecision :=
  if to_stopped (observation t) then (t, StopReturns)
  else if stop_in_progress t then (t, StopWaits)
  else (t <| stop_in_progress := true |> <| stop_requested := true |>
          <| observation ::= λ o, o <| to_running := false |> |>,
        StopProceeds (to_started (observation t))).

(** The handler is posted; [stop] then joins the network thread, and ends. *)
Definition stop_post (t : Transport) : Transport := t <| posted ::= λ p, p ++ [PostCleanShutdown] |>.

Definition stop_end (t : Transport) : Transport :=
  t <| observation ::= λ o, o <| to_stopped := true |> <| to_running := false |> |>
    <| stop_in_progress := false |>.
End Transport.
Arguments Transport : clear implicits.

(** ** The threads together *)

Section System.
Context {S : Type} `{TW : !TransportWorld S}.
Context (config : BinanceTransportConfig) (connection_generation : Z).
(** What the runtime, the publication and the clock do by themselves. *)
Context (world_move : S → S → Prop).
Implicit Types (t : Transport S).

(** The network thread: not started, in [io_context::run], in a handler, over. *)
Inductive NetworkThread : Type :=
| NtNone
| NtIdle
| NtRunning (p : prog (Transport S) ())
| NtEnded.

(** The one [stop] that has not returned at once or waits for another. *)
Inductive StopCall : Type :=
| NotStopping
| Stopping (started : bool)
| Joining.

Definition System : Type := Transport S * NetworkThread * StopCall.

Definition posted_handler (h : Posted) : prog (Transport S) () :=
  match h with
  | PostStartWebSocket => start_websocket config connection_generation
  | PostCleanShutdown => begin_clean_shutdown
  end.

Definition waits_of {Stage R : Type} (o : option (Operation Stage R)) : nat :=
  match o with Some op => waits op | None => 0 end.

(** The handlers Asio holds. *)
Definition handlers_held t : nat :=
  length (posted t) + Nat.b2n (barrier_waiting (network t))
  + waits_of (websocket (network t)) + waits_of (depth_request (network t)).

(** The handlers Asio may call now, with any answer. *)
Inductive handler_called : Transport S → Transport S → prog (Transport S) () → Prop :=
| call_posted t h rest : posted t = h :: rest →
    handler_called t (t <| posted := rest |>) (posted_handler h)
| call_barrier t : barrier_waiting (network t) = true → handler_called t t barrier_handler
| call_websocket_io t w i stage error got_text payload :
    websocket (network t) = Some w → io_waits w !! i = Some stage →
    handler_called t t
      (websocket_io_handler config connection_generation i stage error got_text payload)
| call_websocket_timer t w i generation stage error :
    websocket (network t) = Some w → timer_waits w !! i = Some (generation, stage) →
    handler_called t t
      (websocket_timer_handler config connection_generation i generation stage error)
| call_depth_io t g i stage error response :
    depth_request (network t) = Some g → io_waits g !! i = Some stage →
    handler_called t t (depth_io_handler config connection_generation i stage error response)
| call_depth_timer t g i generation stage error :
    depth_request (network t) = Some g → timer_waits g !! i = Some (generation, stage) →
    handler_called t t
      (depth_timer_handler config connection_generation i generation stage error).

(** One section of the network thread. *)
Inductive network_step : Transport S * NetworkThread → Transport S * NetworkThread → Prop :=
| net_call t t' p : handler_called t t' p → network_step (t, NtIdle) (t', NtRunning p)
| net_section t f k : network_step (t, NtRunning (Step f k)) (f t, NtRunning (k t))
| net_return t : network_step (t, NtRunning (Done ())) (t, NtIdle)
| net_exit t : work_guard (network t) = false → handlers_held t = 0 →
    network_step (t, NtIdle) (t, NtEnded).

(** A step of any thread.  [coordinated]: [start] is not called while a [stop] is in
    progress, as the owner of the transport is expected to see to.  A frame of Beast may
    carry a ping while a read is under way on an open socket. *)
Inductive transport_step (coordinated : bool) : System → System → Prop :=
| ts_start t t' c :
    start_begin t = (t', None) → (coordinated = true → stop_in_progress t = false) →
    transport_step coordinated (t, NtNone, c) (t', NtIdle, c)
| ts_network t t' n n' c : network_step (t, n) (t', n') →
    transport_step coordinated (t, n, c) (t', n', c)
| ts_ping t w c : websocket (network t) = Some w → WsRead ∈ io_waits w →
    op_done w || cancel_requested w = false →
    transport_step coordinated (t, NtIdle, c) (t, NtRunning ping, c)
| ts_stop t t' n started : stop_begin t = (t', StopProceeds started) →
    transport_step coordinated (t, n, NotStopping) (t', n, Stopping started)
| ts_stop_post t n : transport_step coordinated (t, n, Stopping true) (stop_post t, n, Joining)
| ts_stop_joined t : transport_step coordinated (t, NtEnded, Joining) (stop_end t, NtEnded, NotStopping)
| ts_stop_idle t n : transport_step coordinated (t, n, Stopping false) (stop_end t, n, NotStopping)
| ts_world t n c s : world_move (world t) s →
    transport_step coordinated (t, n, c) (t <| world := s |>, n, c).

(** A transport as its constructor leaves it. *)
Definition transport_initial (w : System) : Prop :=
  ∃ s, make_transport config connection_generation s = Some w.1.1 ∧
       w.1.2 = NtNone ∧ w.2 = NotStopping.
End System.

(** ** The metadata of one symbol, the clock, the acceptance *)

(** [fetch_exchange_info_https] of a symbol, from what its operation leaves. *)
Definition fetch_symbol_exchange_info (exact_symbol : string)
  (run : AsyncExchangeInfoGet.Fetch + option string) : AsyncExchangeInfoGet.Result :=
  match make_spot_transport_routes exact_symbol with
  | None => inr (network_error NeProtocol "exchange-info-config"
                   "Spot symbol cannot be represented by a Binance route")
  | Some routes =>
      AsyncExchangeInfoGet.fetch_exchange_info_https
        (AsyncExchangeInfoGet.MkExchangeInfoEndpoint (spot_rest_host routes) (spot_rest_port routes)
           (spot_exchange_info_target routes) AsyncExchangeInfoGet.kStageTimeout) run
  end.

(** The endpoint of [fetch_usdm_exchange_info_https]. *)
Definition usdm_exchange_info_endpoint : AsyncExchangeInfoGet.ExchangeInfoEndpoint :=
  AsyncExchangeInfoGet.MkExchangeInfoEndpoint (usdm_rest_host kUsdMTransportRoutes)
    (usdm_rest_port kUsdMTransportRoutes) (usdm_exchange_info_target kUsdMTransportRoutes)
    AsyncExchangeInfoGet.kStageTimeout.

(** From the counts of the two clocks, signed: what is not positive reads 0. *)
Definition sample_real_clock (utc monotonic : Z) : ClockSample :=
  let safe value := if (value <=? 0)%Z then 0%Z else value in
  MkClockSample (safe utc) (safe monotonic).

Definition live_acceptance_ready `{L : ProjectionLibrary} (transport : TransportObservation)
  (runtime : RuntimeObservation)
  : bool :=
  to_stopped transport && negb (to_running transport)
  && negb (bool_decide (is_Some (to_terminal_error transport))) && to_tls_verified transport
  && to_websocket_handshake transport && to_rest_depth_fetched transport
  && (0 <? to_depth_frame_count transport)%Z
  && bool_decide (obs_state runtime = RsLive)
  && bool_decide (obs_projection_status runtime = Synchronized)
  && bool_decide (is_Some (obs_last_update_id runtime))
  && negb (bool_decide (is_Some (obs_fault_reason runtime))).

(** ** The calls on the runtime and the subscribers *)

Inductive TransportCall : Type :=
| CallPublish (event : NormalizedMarketEvent) (generation : Z)
    (answer : outcome NormalizedEventSinkResult)
| CallSubmitDepth (update : DepthUpdate) (generation : Z) (answer : AdmissionResult)
| CallSubmitSnapshot (snapshot : ExchangeDepthSnapshot) (generation : Z) (answer : AdmissionResult)
| CallFailure (snapshot_failure : bool).

(** A world that records them, the latest first. *)
Record Taped (S : Type) : Type := MkTaped {
  taped : S;
  calls : list TransportCall
}.
Arguments MkTaped {S} _ _.
Arguments taped {S} _.
Arguments calls {S} _.

Section Tape.
Context {S : Type} `{TW : !TransportWorld S}.

Definition untaped {B} (f : S → S * B) (s : Taped S) : Taped S * B :=
  (MkTaped (fst (f (taped s))) (calls s), snd (f (taped s))).

Definition on_tape {B} (entry : B → TransportCall) (f : S → S * B) (s : Taped S) : Taped S * B :=
  (MkTaped (fst (f (taped s))) (entry (snd (f (taped s))) :: calls s), snd (f (taped s))).

#[export] Instance taped_transport : TransportWorld (Taped S) := {|
  tw_clock := untaped tw_clock;
  tw_configure_tls host := untaped (tw_configure_tls host);
  tw_allocate_event := untaped tw_allocate_event;
  tw_publish event generation := on_tape (CallPublish event generation) (tw_publish event generation);
  tw_submit_depth_update update generation :=
    on_tape (CallSubmitDepth update generation) (tw_submit_depth_update update generation);
  tw_submit_snapshot snapshot generation :=
    on_tape (CallSubmitSnapshot snapshot generation) (tw_submit_snapshot snapshot generation);
  tw_submit_snapshot_failure := on_tape (λ _, CallFailure true) tw_submit_snapshot_failure;
  tw_submit_transport_failure := on_tape (λ _, CallFailure false) tw_submit_transport_failure
|}.
End Tape.
