(* ===== verification/TransportBehaviour.v ===== *)
(** * TransportBehaviour: what the handlers of a transport guarantee

    About the definitions of [Network] and [Transport].  [forwarding] is the order in which
    a connection may call the subscribers and the runtime.  [between] is what holds
    between two handlers of the network thread, and each handler keeps it whatever the
    other threads do meanwhile ([undisturbed]): the triples of [websocket_io_handler],
    [depth_io_handler], the timers, [ping], [start_websocket] and the clean shutdown.
    [TransportThreads] puts the threads together. *)

From S2P Require Import Prelude Ring Wire Text Json Session OrderBookPublication.
From S2P Require Import EventPublication Programs Projection MarketRuntime Recovery.
From S2P Require Import SpotProtocol UsdmProtocol Network Routes Transport.

Open Scope gateway_scope.

(** ** The order of the calls *)

(** What the calls so far amount to: a depth update given to the subscribers and not yet
    to the runtime, whether a failure was reported, the frames forwarded since, whether
    the snapshot was submitted. *)
Record Forwarding : Type := MkForwarding {
  fw_published : option DepthUpdate;
  fw_failed : bool;
  fw_late : nat;
  fw_snapshot : bool
}.
#[export] Instance Forwarding_eta : Eta Forwarding :=
  λ f, MkForwarding (fw_published f) (fw_failed f) (fw_late f) (fw_snapshot f).

Section Forward.
Context (profile : BinanceTransportProfile) (generation : Z).

(** The calls allowed next, all of the connection's generation: a frame is published
    first, unless the profile publishes nothing; a depth update accepted by the
    subscribers goes to the runtime next, before anything else; one snapshot; one
    failure. *)
Definition forward (call : TransportCall) (f : Forwarding) : option Forwarding :=
  match call with
  | CallPublish event g answer =>
      if bool_decide (g = generation ∧ fw_published f = None ∧ profile ≠ DepthOnly)
      then Some (f <| fw_published :=
                        match answer, event with
                        | Returned SinkContinue, EvDepthUpdate update => Some update
                        | _, _ => None
                        end |>
                   <| fw_late ::= λ n, n + Nat.b2n (fw_failed f) |>)
      else None
  | CallSubmitDepth update g _ =>
      if bool_decide (g = generation ∧
           fw_published f = if bool_decide (profile = DepthOnly) then None else Some update)
      then Some (f <| fw_published := None |>
                   <| fw_late ::= λ n, if bool_decide (profile = DepthOnly)
                                       then n + Nat.b2n (fw_failed f) else n |>)
      else None
  | CallSubmitSnapshot _ g _ =>
      if bool_decide (g = generation ∧ fw_published f = None ∧ fw_snapshot f = false)
      then Some (f <| fw_snapshot := true |>) else None
  | CallFailure _ =>
      if bool_decide (fw_published f = None ∧ fw_failed f = false)
      then Some (f <| fw_failed := true |>) else None
  end.

Fixpoint forwarding (log : list TransportCall) : option Forwarding :=
  match log with
  | [] => Some (MkForwarding None false 0 false)
  | call :: earlier => f ← forwarding earlier; forward call f
  end.
End Forward.

(** ** The handlers *)

Section Handlers.
Context {S : Type} `{TW : !TransportWorld S}.
Context (config : BinanceTransportConfig) (connection_generation : Z).
Abbreviation State := (Transport (Taped S)).
Abbreviation forwarded := (forwarding (cfg_profile config) connection_generation).
Implicit Types (t : State) (n : Network).

(** The operations of a network: dropping a reference has cancelled its operation; once
    the request exists the stream only reads; a submitted snapshot is the result of a
    finished request. *)
Record net_ok (snap : bool) n : Prop := {
  no_websocket w : websocket n = Some w → websocket_held n = false → over w = true;
  no_depth g : depth_request n = Some g → depth_request_held n = false → over g = true;
  no_stage w : depth_request n ≠ None → websocket n = Some w → Forall (eq WsRead) (io_waits w);
  no_parent : depth_request n ≠ None → websocket n ≠ None;
  no_snapshot : snap = true → ∃ g, depth_request n = Some g ∧ op_done g = true
}.

Definition quiesced n : Prop :=
  websocket_held n = false ∧ depth_request_held n = false ∧ work_guard n = false.

(** The clean shutdown has gone past its barrier. *)
Definition shut n : bool := network_clean_cancel_requested n && negb (barrier_waiting n).

(** The I/O handlers of the stream: at most one at a time. *)
Definition reads n : nat :=
  match websocket n with Some w => length (io_waits w) | None => 0 end.

(** Within the network thread: what the calls amount to, whether there is a terminal
    error, and the state of the operations; a failure has cancelled everything, and so has
    the clean shutdown. *)
Record going (published : option DepthUpdate) (failed : bool) (late : nat) (snap : bool)
  (allowed : nat) t : Prop := {
  g_calls : forwarded (calls (world t)) = Some (MkForwarding published failed late snap);
  g_error : is_Some (to_terminal_error (observation t)) ↔ failed = true;
  g_net : net_ok snap (network t);
  g_reads : reads (network t) ≤ allowed;
  g_quiesced : failed = true ∨ shut (network t) = true → quiesced (network t)
}.

(** Between two handlers; a frame may still be read after a failure, once. *)
Definition between t : Prop := ∃ failed late snap allowed,
  going None failed late snap allowed t ∧ allowed ≤ 1 ∧
  (failed = true → late + allowed ≤ 1) ∧ (failed = false → late = 0).

(** What the network thread relies on. *)
Definition undisturbed t t' : Prop :=
  network t' = network t ∧ calls (world t') = calls (world t) ∧
  to_terminal_error (observation t') = to_terminal_error (observation t) ∧
  (stop_requested t = true → stop_requested t' = true).

Abbreviation triple := (triple (λ _, True) undisturbed).

#[local] Instance undisturbed_refl : Reflexive undisturbed.
Proof. intros t. unfold undisturbed. by split_all. Qed.
#[local] Instance undisturbed_trans : Transitive undisturbed.
Proof. intros a b c (? & ? & ? & ?) (? & ? & ? & ?). unfold undisturbed. split_all; [congruence..|auto]. Qed.

Lemma going_undisturbed p f l s a t t' : undisturbed t t' → going p f l s a t → going p f l s a t'.
Proof.
  intros (Hn & Hc & He & _) [H1 H2 H3 H4 H5]. split; [by rewrite Hc|by rewrite He|by rewrite Hn..].
Qed.

Lemma between_undisturbed t t' : undisturbed t t' → between t → between t'.
Proof.
  intros Hr (f & l & s & a & H & Hx). exists f, l, s, a. split; [|done]. by eapply going_undisturbed.
Qed.

(** An assertion about the parts the others leave alone. *)
Lemma stable_network (P : State → Prop) :
  (∀ t t', undisturbed t t' → P t → P t') → stable (λ _, True) undisturbed P.
Proof. intros H t t' _ _ HP Hr. by eapply H. Qed.

Lemma going_stable p f l s a : stable (λ _, True) undisturbed (going p f l s a).
Proof. apply stable_network. intros t t'. apply going_undisturbed. Qed.
#[local] Hint Resolve going_stable : core.

(** A section that leaves the parts of [going] alone. *)
Lemma triple_transport_observe p f l s a (g : TransportObservation → TransportObservation) :
  (∀ o, to_terminal_error (g o) = to_terminal_error o) →
  triple (going p f l s a) (observe_that g) (λ _, going p f l s a).
Proof.
  intros Hg. apply triple_modify; [done|]. intros t _ [H1 H2 H3 H4 H5]. split; [done|].
  split; [done|by simpl; rewrite Hg|done..].
Qed.

(** A call that is not recorded. *)
Lemma triple_quiet_call {B} p f l s a (h : S → S * B) :
  triple (going p f l s a) (call (untaped h)) (λ _, going p f l s a).
Proof.
  apply triple_atomically; [done|]. intros t _ [H1 H2 H3 H4 H5]. by split; [|split].
Qed.

(** A recorded call. *)
Lemma triple_call {B} p f l s a p' f' l' s' (entry : B → TransportCall) (h : S → S * B) :
  (∀ b, forward (cfg_profile config) connection_generation (entry b) (MkForwarding p f l s)
        = Some (MkForwarding (p' b) f' l' s')) →
  f = f' → s = s' →
  triple (going p f l s a) (call (on_tape entry h)) (λ b, going (p' b) f' l' s' a).
Proof.
  intros Hf <- <-. apply triple_atomically; [done|].
  intros t _ [H1 H2 H3 H4 H5]. split; [done|]. split; [|done..].
  change (forwarded (calls (world t)) ≫= forward (cfg_profile config) connection_generation
    (entry (snd (h (taped (world t))))) =
    Some (MkForwarding (p' (snd (h (taped (world t))))) f l' s)).
  rewrite H1. apply Hf.
Qed.

(** *** [terminal_failure] *)

(** After the terminal error is recorded, before everything is cancelled. *)
Record erring (failed : bool) (late : nat) (snap : bool) (allowed : nat) t : Prop := {
  e_calls : forwarded (calls (world t)) = Some (MkForwarding None failed late snap);
  e_error : is_Some (to_terminal_error (observation t));
  e_net : net_ok snap (network t);
  e_reads : reads (network t) ≤ allowed
}.

Lemma erring_stable f l s a : stable (λ _, True) undisturbed (erring f l s a).
Proof.
  apply stable_network. intros t t' (Hn & Hc & He & _) [H1 H2 H3 H4].
  split; [by rewrite Hc|by rewrite He|by rewrite Hn..].
Qed.
#[local] Hint Resolve erring_stable : core.

Lemma cancelled_over {Stage R : Type} `{!Stages Stage} held (o : option (Operation Stage R)) op :
  (∀ op, o = Some op → held = false → over op = true) →
  (if held : bool then cancel <$> o else o) = Some op → over op = true.
Proof.
  intros Ho. destruct held; [|intros H; by eapply Ho].
  intros (op' & -> & ->)%fmap_Some. apply cancel_over.
Qed.

Lemma cancelled_inv {Stage R : Type} `{!Stages Stage} (held : bool) (o : option (Operation Stage R)) op :
  (if held then cancel <$> o else o) = Some op →
  ∃ op', o = Some op' ∧ io_waits op = io_waits op' ∧ timer_waits op = timer_waits op' ∧
         (op_done op' = true → op_done op = true).
Proof.
  destruct held; [|by exists op]. intros (op' & -> & ->)%fmap_Some. exists op'.
  destruct (cancel_over op') as (_ & H). by split.
Qed.

Lemma cancelled_some {Stage R : Type} `{!Stages Stage} (held : bool) (o : option (Operation Stage R)) :
  o ≠ None → (if held then cancel <$> o else o) ≠ None.
Proof. destruct held; [|done]. by destruct o. Qed.

(** [cancel_network_operations] keeps the invariant of the operations. *)
Lemma cancel_net_ok snap t :
  net_ok snap (network t) → net_ok snap (network (cancel_network_operations t)).
Proof.
  intros [H1 H2 H3 H4 H5]. split; simpl.
  - intros w Hw _. by eapply cancelled_over.
  - intros g Hg _. by eapply cancelled_over.
  - intros w Hd Hw. apply cancelled_inv in Hw as (w' & Hw & -> & _). apply H3; [|done].
    intros Hn. apply Hd. rewrite Hn. by destruct (depth_request_held _).
  - intros Hd. apply cancelled_some, H4. intros Hn. apply Hd. rewrite Hn. by destruct (depth_request_held _).
  - intros Hs. destruct (H5 Hs) as (g & Hg & Hdone). rewrite Hg.
    destruct (depth_request_held _); [|by exists g]. exists (cancel g).
    split; [done|]. by apply cancel_over.
Qed.

Lemma cancel_reads t : reads (network (cancel_network_operations t)) = reads (network t).
Proof.
  unfold reads. simpl. destruct (websocket (network t)) as [w|]; [|by destruct (websocket_held _)].
  destruct (websocket_held _); [|done]. simpl. by destruct (cancel_over w) as (_ & -> & _).
Qed.

Lemma triple_terminal_failure f l s a error snapshot_failure :
  triple (going None f l s a) (terminal_failure error snapshot_failure)
    (λ _, going None true l s a).
Proof.
  unfold terminal_failure.
  eapply (triple_bind _ _ (λ first, if first : bool then erring false l s a else going None true l s a)).
  { apply triple_atomically; [done|]. intros t _ [H1 H2 H3 H4 H5]. split; [done|].
    unfold record_terminal_error. destruct (to_terminal_error (observation t)) as [e|] eqn:He.
    - assert (f = true) as -> by (apply H2; by eexists). split; [done|simpl; by rewrite He|done..].
    - destruct f; [by destruct (proj2 H2 eq_refl)|].
      split; [done|simpl; by eexists|done..]. }
  intros []; cbn [negb]; [|by apply triple_ret].
  eapply (triple_bind _ _ (λ _, erring true l s a)).
  { assert (Hc : ∀ b, forward (cfg_profile config) connection_generation (CallFailure b)
        (MkForwarding None false l s) = Some (MkForwarding None true l s)) by done.
    assert (Hstep : ∀ (h : S → S * AdmissionResult) b,
      triple (erring false l s a) (call (on_tape (λ _, CallFailure b) h)) (λ _, erring true l s a)).
    { intros h b. apply triple_atomically; [done|]. intros t _ [H1 H2 H3 H4]. split; [done|].
      split; [|done..].
      change (forwarded (calls (world t)) ≫= forward (cfg_profile config) connection_generation
        (CallFailure b) = Some (MkForwarding None true l s)). by rewrite H1. }
    destruct snapshot_failure; apply Hstep. }
  intros _. eapply (triple_bind _ _ (λ _ t, erring true l s a t ∧
    websocket_held (network t) = false ∧ depth_request_held (network t) = false)).
  { apply triple_modify; [done|]. intros t _ [H1 H2 H3 H4]. split; [done|].
    split_all; [|done|done]. split; [done|done|by apply cancel_net_ok|by rewrite cancel_reads]. }
  intros []. apply triple_modify.
  { apply stable_network. intros t t' Hr ([H1 H2 H3 H4] & Hw & Hd).
    pose proof Hr as (Hn & Hc & He & _). rewrite Hn.
    split_all; [|done|done]. split; [by rewrite Hc|by rewrite He|by rewrite Hn..]. }
  intros t _ ([H1 H2 H3 H4] & Hw & Hd). split; [done|]. split; [done| | |done|done].
  - split; [done|intros _; exact H2].
  - destruct H3 as [H5 H6 H7 H8 H9]. by split.
Qed.

(** A failure that ends a frame. *)
Lemma triple_failed f l s a error snapshot_failure :
  triple (going None f l s a) (terminal_failure error snapshot_failure ;; mret false)
    (λ accepted, going None (if accepted : bool then f else true) l s a).
Proof.
  eapply triple_bind; [apply triple_terminal_failure|]. intros []. by apply triple_ret.
Qed.

(** *** Frames *)

(** A frame that has been handled: refused ones have ended in a failure; one frame more
    has been forwarded at most. *)
Definition frame_over f l s a (accepted : bool) t : Prop :=
  ∃ l', going None (if accepted then f else true) l' s a t ∧ l ≤ l' ≤ l + Nat.b2n f.

Abbreviation profile := (cfg_profile config).

Lemma triple_frame_failed f l l' s a error :
  l ≤ l' ≤ l + Nat.b2n f →
  triple (going None f l' s a) (terminal_failure error false ;; mret false) (frame_over f l s a).
Proof.
  intros Hl. eapply triple_bind; [apply triple_terminal_failure|]. intros [].
  apply triple_ret. intros t _ H. by exists l'.
Qed.

Lemma triple_submit_depth_update f l l0 s a update :
  l0 ≤ (if bool_decide (profile = DepthOnly) then l + Nat.b2n f else l) ≤ l0 + Nat.b2n f →
  triple (going (if bool_decide (profile = DepthOnly) then None else Some update) f l s a)
    (submit_depth_update connection_generation update) (frame_over f l0 s a).
Proof.
  intros Hl. unfold submit_depth_update. eapply triple_bind.
  { apply (triple_call _ _ _ _ _ (λ _, None) f
      (if bool_decide (profile = DepthOnly) then l + Nat.b2n f else l) s); [|done..].
    intros answer. simpl. rewrite bool_decide_eq_true_2 by done. simpl.
    by destruct (bool_decide (profile = DepthOnly)). }
  intros answer. destruct (negb _); [by apply triple_frame_failed|].
  eapply triple_bind; [by apply triple_transport_observe|]. intros [].
  apply triple_ret. intros t _ H. eexists. by split.
Qed.

(** What is left to submit after a publication. *)
Definition to_submit (event : NormalizedMarketEvent) : option DepthUpdate :=
  match event with EvDepthUpdate update => Some update | _ => None end.

Definition publication_over f l s a event (published : bool) t : Prop :=
  if published then going (to_submit event) f (l + Nat.b2n f) s a t
  else frame_over f l s a false t.

Lemma triple_publish_event f l s a event :
  profile ≠ DepthOnly →
  triple (going None f l s a) (publish_event connection_generation event)
    (publication_over f l s a event).
Proof.
  intros Hp. unfold publish_event. eapply triple_bind; [apply triple_quiet_call|].
  assert (Hfailed : ∀ l' error, l ≤ l' ≤ l + Nat.b2n f →
    triple (going None f l' s a) (terminal_failure error false ;; mret false)
      (publication_over f l s a event)).
  { intros l' error Hl. eapply triple_bind; [apply triple_terminal_failure|]. intros [].
    apply triple_ret. intros t _ H. by exists l'. }
  intros []; cbn [negb]; [|apply Hfailed; lia].
  unfold publish_normalized_event. eapply triple_bind.
  { apply (triple_call _ _ _ _ _ (λ answer, match answer with
      | Returned SinkContinue => to_submit event | _ => None end) f (l + Nat.b2n f) s); [|done..].
    intros answer. simpl. rewrite bool_decide_eq_true_2 by done. simpl.
    by destruct answer as [[]|], event. }
  intros [[]|]; [|apply Hfailed; lia..]. by apply triple_ret.
Qed.

Lemma triple_server_shutdown f l s a :
  triple (going None f l s a) (receive_server_shutdown ;; mret false) (frame_over f l s a).
Proof.
  unfold receive_server_shutdown. eapply triple_bind.
  - eapply triple_bind; [by apply triple_transport_observe|]. intros []. apply triple_terminal_failure.
  - intros []. apply triple_ret. intros t _ H. exists l. split; [done|lia].
Qed.

Lemma triple_protocol_failure f l s a failure :
  triple (going None f l s a) (receive_protocol_failure failure ;; mret false) (frame_over f l s a).
Proof. unfold receive_protocol_failure. apply triple_frame_failed. lia. Qed.

Lemma triple_depth_frame f l s a payload received_at :
  profile ≠ G9CombinedEvents →
  triple (going None f l s a)
    (receive_depth_frame config connection_generation payload received_at) (frame_over f l s a).
Proof.
  intros Hp. unfold receive_depth_frame.
  eapply (triple_bind _ _ (λ _, going None f l s a)); [by apply triple_read|]. intros cid.
  destruct (depth_frame_parser config payload received_at cid) as [[update|time]|failure];
    [|apply triple_server_shutdown|apply triple_protocol_failure].
  eapply triple_bind; [by apply triple_transport_observe|]. intros [].
  destruct (profile) eqn:Hprofile; [|done|].
  - rewrite (bool_decide_eq_false_2 (DepthOnly = DepthWithEvents)) by done.
    eapply (triple_bind _ _ (λ published t, published = true ∧ going None f l s a t));
      [by apply triple_ret|].
    intros published s0 Hi [-> H]. simpl.
    pose proof (triple_submit_depth_update f l l s a update) as Hs.
    rewrite Hprofile in Hs. apply Hs; [simpl; lia|done|done].
  - rewrite (bool_decide_eq_true_2 (DepthWithEvents = DepthWithEvents)) by done.
    eapply triple_bind; [apply triple_publish_event; by rewrite Hprofile|].
    intros [] s0 Hi H; simpl in *; [|by split].
    pose proof (triple_submit_depth_update f (l + Nat.b2n f) l s a update) as Hs.
    rewrite Hprofile in Hs. apply Hs; [simpl; lia|done|done].
Qed.

Lemma triple_combined_frame f l s a payload received_at :
  profile = G9CombinedEvents →
  triple (going None f l s a)
    (receive_combined_frame config connection_generation payload received_at) (frame_over f l s a).
Proof.
  intros Hp. unfold receive_combined_frame.
  eapply (triple_bind _ _ (λ _, going None f l s a)); [by apply triple_read|]. intros cid.
  destruct (combined_frame_parser config payload received_at cid) as [[event|time]|failure];
    [|apply triple_server_shutdown|apply triple_protocol_failure].
  eapply triple_bind; [by apply triple_transport_observe|]. intros [].
  eapply triple_bind; [apply triple_publish_event; by rewrite Hp|].
  intros []; cbn [negb publication_over]; [|by apply triple_ret].
  assert (Hcount : ∀ g, (∀ o, to_terminal_error (g o) = to_terminal_error o) →
    triple (going None f (l + Nat.b2n f) s a) (observe_that g ;; mret true) (frame_over f l s a)).
  { intros g Hg. eapply triple_bind; [by apply triple_transport_observe|]. intros [].
    apply triple_ret. intros t _ H. eexists. split; [exact H|lia]. }
  destruct event as [update|trade|ticker]; cbn [to_submit]; [|by apply Hcount..].
  pose proof (triple_submit_depth_update f (l + Nat.b2n f) l s a update) as Hs.
  rewrite Hp in Hs. apply Hs. simpl. lia.
Qed.

Lemma triple_message f l s a payload received_at :
  triple (going None f l s a)
    (receive_websocket_message config connection_generation payload received_at)
    (frame_over f l s a).
Proof.
  unfold receive_websocket_message. case_bool_decide as Hp; cbn [negb].
  - by apply triple_combined_frame.
  - by apply triple_depth_frame.
Qed.

(** *** The REST snapshot *)

(** A section on the request: nothing is undone; a completion comes once, when the
    request becomes done. *)
Definition get_section (g : AsyncHttpsGet.Get) (r : AsyncHttpsGet.Get * AsyncHttpsGet.Next) : Prop :=
  (over g = true → over (fst r) = true) ∧ (op_done g = true → op_done (fst r) = true) ∧
  ∀ result, snd r = AsyncHttpsGet.Complete result → op_done g = false ∧ op_done (fst r) = true.

Lemma delivers_section g (r : AsyncHttpsGet.Get * option AsyncHttpsGet.Result) :
  delivers g r → get_section g (AsyncHttpsGet.completion r).
Proof.
  destruct r as [g' [result'|]]; intros [Hq Hr]; (split; [by apply quiet_over|split; [apply Hq|]]);
    intros result; [|done]. intros _. apply Hr. by eexists.
Qed.

Lemma get_section_take i g r : get_section (take_io i g) r → get_section g r.
Proof. done. Qed.

Lemma get_io_section i stage error g :
  get_section g (AsyncHttpsGet.io_handler stage error (take_io i g)).
Proof.
  apply (get_section_take i). unfold AsyncHttpsGet.io_handler.
  pose proof (stage_handler_delivers stage error (take_io i g)) as H.
  destruct (stage_handler stage error (take_io i g)) as [g' [result|]]; simpl.
  - by apply delivers_section.
  - destruct H as (Hq & Ho & Ho'). unfold get_section. split_all; cbn [fst snd]; [by rewrite Ho|apply Hq|done].
Qed.

Lemma get_read_section i error g :
  get_section g (AsyncHttpsGet.read_handler error (take_io i g)).
Proof.
  apply (get_section_take i). unfold AsyncHttpsGet.read_handler.
  set (g0 := take_io i g). set (g1 := g0 <| io_pending := false |>).
  assert (Hq : quiet g0 g1) by by split.
  assert (Hdel : ∀ r, delivers g1 r → get_section g0 (AsyncHttpsGet.completion r)).
  { intros r Hr. apply delivers_section. by eapply delivers_quiet. }
  destruct (op_done g1); [by apply (Hdel (g1, None)), delivers_none|].
  destruct (cancel_requested g1) eqn:Hc.
  - destruct error as [e|]; [|done].
    destruct (negb _); apply Hdel; [apply finish_delivers|apply piece_delivers].
  - destruct error as [e|]; [|done]. apply Hdel.
    eapply delivers_quiet; [apply disarm_quiet|done|apply finish_delivers].
Qed.

Lemma get_response_section result g : get_section g (AsyncHttpsGet.response_handler result g).
Proof.
  unfold AsyncHttpsGet.response_handler. apply delivers_section.
  destruct (cancel_requested g); [|apply finish_delivers].
  apply (delivers_quiet _ (g <| cancelled_result := Some result |>)); [by split|done|].
  apply piece_delivers.
Qed.

Lemma get_timer_section i generation stage error g :
  get_section g (AsyncHttpsGet.completion (timer_handler generation stage error (take_timer i g))).
Proof.
  pose proof (delivers_section _ _ (timer_delivers generation stage error (take_timer i g))) as H.
  exact H.
Qed.

(** The request has become done: its completion is about to be called. *)
Definition fetched t : Prop := ∃ g, depth_request (network t) = Some g ∧ op_done g = true.

Definition stepped f l s a (step : AsyncHttpsGet.Next) t : Prop :=
  going None f l s a t ∧
  ∀ result, step = AsyncHttpsGet.Complete result → s = false ∧ fetched t.

Lemma stepped_stable f l s a step : stable (λ _, True) undisturbed (stepped f l s a step).
Proof.
  apply stable_network. intros t t' Hr [H Hs]. split; [by eapply going_undisturbed|].
  intros result Hc. destruct (Hs result Hc) as [-> Hg]. split; [done|].
  destruct Hr as (Hn & _). unfold fetched. by rewrite Hn.
Qed.

Lemma triple_on_depth f l s a F :
  (∀ g, get_section g (F g)) →
  triple (going None f l s a) (on_depth_request AsyncHttpsGet.Nothing F) (stepped f l s a).
Proof.
  intros HF. apply triple_atomically; [done|].
  intros t _ H. destruct (depth_request (network t)) as [g|] eqn:Hg; [|by split; [|split]].
  split; [done|]. destruct (HF g) as (Ho & Hd & Hc).
  destruct H as [H1 H2 [H3 H4 H5 H6 H7] H8 H9]. split.
  - split; [done|done| |done|done]. split; simpl.
    + exact H3.
    + intros g' [= <-] Hh. apply Ho. by eapply H4.
    + intros w _. apply H5. by rewrite Hg.
    + intros _. apply H6. by rewrite Hg.
    + intros Hs. destruct (H7 Hs) as (g' & Hg' & Hdone). simplify_eq. eexists. split; [done|auto].
  - intros result Hr. destruct (Hc result Hr) as [Hn Hdone]. split; [|by eexists].
    destruct s; [|done]. destruct (H7 eq_refl) as (g' & Hg' & Hd'). simplify_eq. congruence.
Qed.

(** A handler of the request that is over. *)
Definition after f l a t : Prop := ∃ f' s', going None f' l s' a t ∧ (f = true → f' = true).

Lemma going_after f l s a t : going None f l s a t → after f l a t.
Proof. by exists f, s. Qed.

Lemma after_between f l a t :
  a ≤ 1 → (f = true → l + a ≤ 1) → (f = false → l = 0) → after f l a t → between t.
Proof.
  intros Ha Hf Hl (f' & s' & H & Hff). exists f', l, s', a. split_all; [done|done| |].
  - intros _. destruct f; [auto|]. rewrite Hl by done. lia.
  - intros ->. apply Hl. destruct f; [|done]. by discriminate Hff.
Qed.

Lemma triple_depth_response f l s a result :
  triple (λ t, going None f l s a t ∧ s = false ∧ fetched t)
    (receive_depth_response config connection_generation result) (λ _, after f l a).
Proof.
  assert (Hst : stable (λ _, True) undisturbed (λ t, going None f l s a t ∧ s = false ∧ fetched t)).
  { apply stable_network. intros t t' Hr (H & Hs & Hg). split_all; [by eapply going_undisturbed|done|].
    destruct Hr as (Hn & _). unfold fetched. by rewrite Hn. }
  assert (Hfail : ∀ snap error, triple (going None f l snap a) (terminal_failure error true)
    (λ _, after f l a)).
  { intros snap error. eapply triple_conseq; [apply triple_terminal_failure|by intros t _ H; exact H|].
    intros [] t _ H. by exists true, snap. }
  unfold receive_depth_response. destruct result as [[response received_at]|failure].
  2: { eapply triple_conseq; [apply (Hfail s)|by intros t _ [H _]|done]. }
  destruct (depth_snapshot_parser _ _ _ _) as [snapshot|failure].
  2: { eapply triple_conseq; [apply (Hfail s)|by intros t _ [H _]|done]. }
  eapply (triple_bind _ _ (λ _, going None f l true a)).
  { apply triple_atomically; [done|]. intros t _ ([H1 H2 [H3 H4 H5 H6 _] H8 H9] & -> & Hg).
    split; [done|]. split; [|done| |done|done].
    - change (forwarded (calls (world t)) ≫= forward profile connection_generation
        (CallSubmitSnapshot snapshot connection_generation
          (snd (tw_submit_snapshot snapshot connection_generation (taped (world t))))) =
        Some (MkForwarding None f l true)). rewrite H1. simpl. by rewrite bool_decide_eq_true_2.
    - by split. }
  intros admitted. destruct (negb _); [apply Hfail|].
  eapply triple_conseq; [by apply (triple_transport_observe None f l true a)|by intros t _ H; exact H|].
  intros [] t _ H. by eapply going_after.
Qed.

Lemma triple_continue_depth f l s a step :
  triple (stepped f l s a step)
    (continue_depth_request config connection_generation step) (λ _, after f l a).
Proof.
  destruct step as [|result|]; simpl.
  - apply triple_ret. intros t _ [H _]. by eapply going_after.
  - eapply triple_conseq; [apply (triple_depth_response f l s a)| |done].
    intros t _ [H Hc]. by destruct (Hc result eq_refl).
  - apply triple_ret. intros t _ [H _]. by eapply going_after.
Qed.

Lemma triple_depth_io f l s a i stage error response :
  triple (going None f l s a)
    (depth_io_handler config connection_generation i stage error response) (λ _, after f l a).
Proof.
  unfold depth_io_handler. eapply triple_bind.
  { apply triple_on_depth. intros g. destruct stage; auto using get_io_section, get_read_section. }
  intros step. destruct step as [|result|]; [apply triple_continue_depth..|].
  eapply (triple_bind _ _ (λ _, going None f l s a)).
  { eapply triple_conseq; [apply (triple_quiet_call None f l s a)|by intros t _ [H _]|done]. }
  intros received_at. eapply triple_bind.
  { apply triple_on_depth. intros g. apply get_response_section. }
  intros step. apply triple_continue_depth.
Qed.

Lemma triple_depth_timer f l s a i generation stage error :
  triple (going None f l s a)
    (depth_timer_handler config connection_generation i generation stage error) (λ _, after f l a).
Proof.
  unfold depth_timer_handler. eapply triple_bind.
  { apply triple_on_depth. intros g. apply get_timer_section. }
  intros step. apply triple_continue_depth.
Qed.

(** *** The stream *)

(** What a section of the stream leaves to do, from the stage whose handler it is. *)
Definition ws_section (stage : WebSocketStage) (w : AsyncWebSocket.WebSocket)
  (r : AsyncWebSocket.WebSocket * AsyncWebSocket.Next) : Prop :=
  (over w = true → over (fst r) = true) ∧
  match snd r with
  | AsyncWebSocket.Nothing =>
      io_waits (fst r) = io_waits w ∨
      over w = false ∧ ∃ next, io_waits (fst r) = next :: io_waits w ∧ (stage = WsRead → next = WsRead)
  | AsyncWebSocket.Failure _ => io_waits (fst r) = io_waits w
  | AsyncWebSocket.TlsVerified => io_waits (fst r) = io_waits w ∧ over w = false ∧ stage ≠ WsRead
  | AsyncWebSocket.Active =>
      over w = false ∧ stage ≠ WsRead ∧
      (io_waits (fst r) = io_waits w ∨ io_waits (fst r) = WsRead :: io_waits w)
  | AsyncWebSocket.Message retire =>
      io_waits (fst r) = io_waits w ∧ stage = WsRead ∧ (over w = true → retire = true)
  end.

Lemma ws_failure_section stage w r :
  delivers w r → ws_section stage w (AsyncWebSocket.failure r).
Proof.
  intros [Hq Hr]. destruct r as [w' [[[]|error]|]]; (split; [by apply quiet_over|]); simpl.
  - apply Hq.
  - left. apply Hq.
Qed.

Lemma ws_io_section stage error w :
  stage ≠ WsRead → ws_section stage w (AsyncWebSocket.io_handler stage error w).
Proof.
  intros Hs. unfold AsyncWebSocket.io_handler.
  pose proof (stage_handler_delivers stage error w) as H.
  destruct (stage_handler stage error w) as [w' [result|]]; cbn [fst snd].
  - by apply ws_failure_section.
  - destruct H as (Hq & Ho & Ho'). pose proof (quiet_io _ _ Hq) as Hio.
    destruct stage; (split; [by rewrite Ho|]); cbn [fst snd].
    + right. split; [done|]. exists WsTcp. simpl. by rewrite Hio.
    + right. split; [done|]. exists WsTls. simpl. by rewrite Hio.
    + by split_all.
    + split_all; [done..|]. unfold AsyncWebSocket.read.
      destruct (op_done w'); [by left|right; simpl; by rewrite Hio].
    + done.
Qed.

Lemma ws_read_section error w : ws_section WsRead w (AsyncWebSocket.read_handler error w).
Proof.
  unfold AsyncWebSocket.read_handler. set (w1 := w <| io_pending := false |>).
  assert (Hq : quiet w w1) by by split.
  assert (Hdel : ∀ r, delivers w1 r → ws_section WsRead w (AsyncWebSocket.failure r)).
  { intros r Hr. apply ws_failure_section. by eapply delivers_quiet. }
  destruct (op_done w1) eqn:Hd; [by apply (Hdel (w1, None)), delivers_none|].
  destruct error as [e|].
  - destruct (is_clean_cancellation _ _); [apply Hdel, piece_delivers|].
    case_bool_decide; apply Hdel, finish_delivers.
  - split; [done|]. split_all; [done..|]. unfold over. change (op_done w) with (op_done w1).
    by rewrite Hd.
Qed.

Lemma ws_timer_section stage i generation timer_stage error w :
  ws_section stage w
    (AsyncWebSocket.failure (timer_handler generation timer_stage error (take_timer i w))).
Proof.
  pose proof (ws_failure_section stage _ _ (timer_delivers generation timer_stage error (take_timer i w))) as H.
  exact H.
Qed.

(** The stream is about to read, and there is no request yet. *)
Definition reading n : Prop :=
  shut n = false ∧ depth_request n = None ∧ ∃ w, websocket n = Some w ∧ Forall (eq WsRead) (io_waits w).

(** After a section of the stream that has taken its I/O handler or that has none. *)
Definition ws_stepped f l s (step : AsyncWebSocket.Next) t : Prop :=
  match step with
  | AsyncWebSocket.Nothing => going None f l s (if f then 0 else 1) t
  | AsyncWebSocket.Failure _ => going None f l s 0 t
  | AsyncWebSocket.TlsVerified =>
      f = false ∧ depth_request (network t) = None ∧ going None f l s 0 t
  | AsyncWebSocket.Active => f = false ∧ s = false ∧ reading (network t) ∧ going None f l s 1 t
  | AsyncWebSocket.Message retire => (f = true → retire = true) ∧ going None f l s 0 t
  end.

Lemma going_weaken p f l s a a' t : a ≤ a' → going p f l s a t → going p f l s a' t.
Proof. intros Ha [H1 H2 H3 H4 H5]. split; [done|done|done|lia|done]. Qed.

Lemma ws_stepped_stable f l s step : stable (λ _, True) undisturbed (ws_stepped f l s step).
Proof.
  apply stable_network. intros t t' Hr H. destruct Hr as (Hn & Hr').
  assert (Hr : undisturbed t t') by by split.
  destruct step; simpl in *; try (by eapply going_undisturbed).
  - destruct H as (? & ? & ?). rewrite Hn. split_all; [done..|]. by eapply going_undisturbed.
  - destruct H as (? & ? & ? & ?). rewrite Hn. split_all; [done..|]. by eapply going_undisturbed.
  - destruct H. split; [done|]. by eapply going_undisturbed.
Qed.

(** The network after a section on the stream [w]. *)
Lemma ws_net_ok snap n w w' :
  net_ok snap n → websocket n = Some w → (over w = true → over w' = true) →
  (depth_request n ≠ None → Forall (eq WsRead) (io_waits w')) →
  net_ok snap (n <| websocket := Some w' |>).
Proof.
  intros [H1 H2 H3 H4 H5] Hw Ho Hd. split; simpl.
  - intros w1 [= <-] Hh. apply Ho. by eapply H1.
  - done.
  - intros w1 Hn [= <-]. auto.
  - done.
  - done.
Qed.

(** A section on the stream, whose I/O handlers are those of [w0] after it has taken its
    own. *)
Lemma ws_section_going f l s a t w w0 stage step w' :
  going None f l s a t → websocket (network t) = Some w →
  over w0 = over w → io_waits w0 = [] →
  (depth_request (network t) ≠ None → stage = WsRead) →
  ws_section stage w0 (w', step) →
  ws_stepped f l s step (t <| network ::= λ n, n <| websocket := Some w' |> |>).
Proof.
  intros [H1 H2 H3 H4 H5] Hw Hover Hio Hstage [Ho Hstep]. simpl in Ho, Hstep.
  rewrite Hover in Ho, Hstep. rewrite Hio in Hstep.
  assert (Hf : f = true ∨ shut (network t) = true → over w = true).
  { intros Hq. apply (no_websocket _ _ H3 w Hw). by destruct (H5 Hq). }
  assert (Hgo : ∀ b, length (io_waits w') ≤ b →
    (depth_request (network t) ≠ None → Forall (eq WsRead) (io_waits w')) →
    going None f l s b (t <| network ::= λ n, n <| websocket := Some w' |> |>)).
  { intros b Hb Hr. split; [done|done|by eapply ws_net_ok|done|done]. }
  assert (Hnone : stage ≠ WsRead → depth_request (network t) = None).
  { intros Hne. destruct (depth_request (network t)) eqn:Hd; [|done]. by destruct Hne; apply Hstage. }
  destruct step; simpl.
  - destruct Hstep as [He|(Hn & next & He & Hr)].
    + apply Hgo; rewrite He; [simpl; lia|by constructor].
    + destruct f; [by rewrite Hf in Hn by auto|]. apply Hgo; rewrite He; [done|].
      intros Hd. constructor; [|constructor]. symmetry. by apply Hr, Hstage.
  - apply Hgo; rewrite Hstep; [done|by constructor].
  - destruct Hstep as (He & Hn & Hs). destruct f; [by rewrite Hf in Hn by auto|].
    split_all; [done|by apply Hnone|]. apply Hgo; rewrite He; [done|by constructor].
  - destruct Hstep as (Hn & Hs & He). destruct f; [by rewrite Hf in Hn by auto|].
    assert (Hr : Forall (eq WsRead) (io_waits w')).
    { destruct He as [-> | ->]; repeat constructor. }
    split_all; [done| | |].
    + destruct s; [|done]. destruct (no_snapshot _ _ H3 eq_refl) as (g & Hg & _).
      by rewrite Hnone in Hg.
    + unfold reading; split_all; simpl; [|by apply Hnone|by exists w'].
      change (shut (network t) = false). apply not_true_is_false. intros Hsh.
      by rewrite Hf in Hn by auto.
    + apply Hgo; [|done]. destruct He as [-> | ->]; simpl; lia.
  - destruct Hstep as (He & Hs & Hr). split; [auto|].
    apply Hgo; rewrite He; [done|by constructor].
Qed.

(** The section of an I/O handler of the stream. *)
Definition ws_waiting (i : nat) (stage : WebSocketStage) t : Prop :=
  ∃ w, websocket (network t) = Some w ∧ io_waits w !! i = Some stage.

Lemma triple_ws_taken f l s a i stage F :
  a ≤ 1 → (∀ w, ws_section stage (take_io i w) (F w)) →
  triple (λ t, going None f l s a t ∧ ws_waiting i stage t)
    (on_websocket AsyncWebSocket.Nothing F) (ws_stepped f l s).
Proof.
  intros Ha HF. apply triple_atomically.
  { apply stable_network. intros t t' Hr [H Hw]. split; [by eapply going_undisturbed|].
    destruct Hr as (Hn & _). unfold ws_waiting. by rewrite Hn. }
  intros t _ [H (w & Hw & Hi)]. split; [done|]. rewrite Hw.
  pose proof (g_reads _ _ _ _ _ _ H) as Hreads. unfold reads in Hreads. rewrite Hw in Hreads.
  assert (io_waits w = [stage] ∧ i = 0) as [Hio ->].
  { destruct (io_waits w) as [|x [|y r]]; [done| |simpl in Hreads; lia].
    destruct i as [|i]; [by injection Hi as ->|done]. }
  cbn [fst snd]. rewrite (surjective_pairing (F w)) at 1.
  eapply (ws_section_going _ _ _ _ _ w (take_io 0 w) stage); [done|done|done| | |].
  - simpl. by rewrite Hio.
  - intros Hd. pose proof (no_stage _ _ (g_net _ _ _ _ _ _ H) w Hd Hw) as Hf.
    rewrite Hio in Hf. by apply Forall_inv in Hf.
  - pose proof (HF w) as Hs. by rewrite (surjective_pairing (F w)) in Hs.
Qed.

(** *** The handlers of the stream as a whole *)

Lemma triple_start_depth f l s a :
  triple (going None f l s a) (start_depth_request config connection_generation)
    (λ _, after f l a).
Proof.
  unfold start_depth_request. eapply triple_bind; [apply (triple_quiet_call None f l s a)|].
  intros [message|].
  - eapply triple_bind; [|intros step; apply (triple_continue_depth f l s a)].
    apply triple_on_depth. intros g. apply delivers_section, finish_delivers.
  - apply triple_atomically; [done|]. intros t _ H. split; [done|].
    destruct (depth_request (network t)) as [g|] eqn:Hg; [|by eapply going_after].
    apply (going_after _ _ s). destruct H as [H1 H2 [H3 H4 H5 H6 H7] H8 H9].
    split; [done|done| |done|done]. split; simpl; [done| |intros w _; apply H5; by rewrite Hg| |].
    + intros g' [= <-] Hh. exact (H4 g Hg Hh).
    + intros _. apply H6. by rewrite Hg.
    + intros Hs. destruct (H7 Hs) as (g' & Hg' & Hd). simplify_eq. by eexists.
Qed.

Lemma triple_websocket_active l :
  triple (λ t, reading (network t) ∧ going None false l false 1 t)
    (websocket_active config connection_generation) (λ _, after false l 1).
Proof.
  assert (Hst : stable (λ _, True) undisturbed (λ t, reading (network t) ∧ going None false l false 1 t)).
  { apply stable_network. intros t t' Hr [Hd H]. split; [|by eapply going_undisturbed].
    destruct Hr as (Hn & _). by rewrite Hn. }
  unfold websocket_active.
  eapply (triple_bind _ _ (λ _ t, reading (network t) ∧ going None false l false 1 t)).
  { apply triple_atomically; [done|]. intros t _ [Hr H]. split; [done|].
    destruct (stop_requested t); [done|]. split; [done|]. by destruct H; split. }
  intros []; cbn [negb]; [|apply triple_ret; intros t _ [_ H]; by eapply going_after].
  eapply (triple_bind _ _ (λ _, going None false l false 1)); [|intros []; apply triple_start_depth].
  apply triple_modify; [done|]. intros t _ [(Hsh & Hd & (w & Hw & Hr)) [H1 H2 [H3 H4 H5 H6 H7] H8 H9]].
  split; [done|]. split; [done|done| |done|intros [|Hx]; [done|change (shut (network t) = true) in Hx; congruence]]. split; simpl; [done|done| |by rewrite Hw|done].
  intros w' _ Hw'. by simplify_eq.
Qed.

(** The steps after which nothing but a failure is left. *)
Definition ending (step : AsyncWebSocket.Next) : Prop :=
  match step with
  | AsyncWebSocket.Nothing | AsyncWebSocket.Failure _ => True
  | _ => False
  end.

Lemma triple_continue_end f l s a step : ending step →
  triple (going None f l s a) (continue_websocket config connection_generation step)
    (λ _, after f l a).
Proof.
  destruct step as [|error| | |]; [intros _..|done|done|done]; cbn [continue_websocket].
  - apply triple_ret. intros t _ H. by eapply going_after.
  - eapply triple_conseq; [apply (triple_terminal_failure f l s a)|by intros t _ H; exact H|].
    intros [] t _ H. by exists true, s.
Qed.

Lemma triple_continue_websocket f l s step :
  (∀ retire, step ≠ AsyncWebSocket.Message retire) →
  triple (ws_stepped f l s step) (continue_websocket config connection_generation step)
    (λ _, after f l (if f then 0 else 1)).
Proof.
  intros Hne. destruct step as [|error| | |retire].
  - by apply triple_continue_end.
  - eapply triple_conseq; [by apply (triple_continue_end f l s 0)|by intros t _ H; exact H|].
    intros [] t _ (f' & s' & H & Hf). exists f', s'. split; [|done].
    eapply going_weaken; [|exact H]. lia.
  - cbn [continue_websocket].
    eapply (triple_bind _ _ (λ _, ws_stepped f l s AsyncWebSocket.TlsVerified)).
    { apply triple_modify; [apply ws_stepped_stable|]. intros t _ (Hf & Hd & [H1 H2 H3 H4 H5]).
      split; [done|]. unfold ws_stepped. split_all; [done|done|]. by split. }
    intros []. apply triple_atomically; [apply ws_stepped_stable|]. intros t _ (-> & Hd & H).
    split; [done|]. destruct (websocket (network t)) as [w|] eqn:Hw;
      [|eapply going_after, going_weaken; [|exact H]; lia].
    apply (going_after _ _ s). destruct H as [H1 H2 H3 H4 H5]. split; [done|done| | |done].
    + by eapply ws_net_ok.
    + unfold reads in *. rewrite Hw in H4. simpl in *. lia.
  - destruct f; [by intros t _ (? & _)|].
    eapply triple_conseq; [apply (triple_websocket_active l)|intros t _ (_ & -> & H); exact H|done].
  - by destruct (Hne retire).
Qed.

(** A section on the stream that registers nothing. *)
Lemma failure_ending (r : AsyncWebSocket.WebSocket * option (Empty_set + NetworkError)) :
  ending (snd (AsyncWebSocket.failure r)).
Proof. by destruct r as [w [[[]|error]|]]. Qed.

(** No I/O handler is registered, and an operation that is over remains so. *)
Definition untouched (w w' : AsyncWebSocket.WebSocket) : Prop :=
  io_waits w' = io_waits w ∧ (over w = true → over w' = true).

Lemma delivers_untouched w (r : AsyncWebSocket.WebSocket * option (Empty_set + NetworkError)) :
  delivers w r → untouched w (fst r).
Proof. intros [Hq _]. split; [by apply quiet_io|by apply quiet_over]. Qed.

Lemma triple_ws_delivers f l s a F :
  (∀ w, untouched w (fst (F w))) →
  triple (going None f l s a)
    (on_websocket AsyncWebSocket.Nothing (λ w, AsyncWebSocket.failure (F w)))
    (λ step t, ending step ∧ going None f l s a t).
Proof.
  intros HF. apply triple_atomically; [done|]. intros t _ H. split; [done|].
  destruct (websocket (network t)) as [w|] eqn:Hw; [|by split].
  split; [apply failure_ending|]. destruct (HF w) as [Hio Ho]. destruct H as [H1 H2 H3 H4 H5].
  split; [done|done| | |done].
  - eapply ws_net_ok; [done|done|done|]. intros Hd.
    change (Forall (eq WsRead) (io_waits (fst (F w)))). rewrite Hio. by apply (no_stage _ _ H3).
  - unfold reads in *. rewrite Hw in H4. change (length (io_waits (fst (F w))) ≤ a). by rewrite Hio.
Qed.

Lemma triple_ws_failure f l s a F :
  (∀ w, untouched w (fst (F w))) →
  triple (going None f l s a)
    (step ← on_websocket AsyncWebSocket.Nothing (λ w, AsyncWebSocket.failure (F w));
     continue_websocket config connection_generation step) (λ _, after f l a).
Proof.
  intros HF. eapply triple_bind; [by apply triple_ws_delivers|].
  intros step t Hi [Hend H]. by apply (triple_continue_end f l s a).
Qed.

(** The network before [start_websocket]. *)
Definition fresh t : Prop :=
  websocket (network t) = None ∧ depth_request (network t) = None ∧
  network_clean_cancel_requested (network t) = false ∧
  barrier_waiting (network t) = false ∧ to_terminal_error (observation t) = None.

Lemma fresh_undisturbed t t' : undisturbed t t' → fresh t → fresh t'.
Proof. intros (Hn & _ & He & _) H. unfold fresh. by rewrite Hn, He. Qed.

Lemma triple_start_websocket :
  triple (λ t, between t ∧ fresh t) (start_websocket config connection_generation)
    (λ _, after false 0 1).
Proof.
  unfold start_websocket.
  eapply (triple_bind _ _ (λ _ t, ∃ s, going None false 0 s 0 t ∧ depth_request (network t) = None)).
  { apply triple_modify.
    - apply stable_network. intros t t' Hr [H Hf].
      split; [by eapply between_undisturbed|by eapply fresh_undisturbed].
    - intros t _ [(f & l & s & a & [H1 H2 [H3 H4 H5 H6 H7] H8 H9] & Ha & _ & Hl)
                  (Hw & Hd & Hcl & _ & He)].
      split; [done|]. assert (f = false) as ->.
      { destruct f; [|done]. rewrite He in H2. destruct (proj2 H2 eq_refl) as [? [=]]. }
      rewrite Hl in H1 by done. exists s. split; [|done].
      split; [done|done| |unfold reads; simpl; lia
        |unfold shut; simpl; rewrite Hcl; by intros [|]].
      split; simpl; [by intros w [= <-]|done| |done|done].
      intros w Hn. by rewrite Hd in Hn. }
  intros []. eapply (triple_bind _ _ (λ _ t, ∃ s, going None false 0 s 0 t ∧ depth_request (network t) = None)).
  { apply triple_atomically.
    - apply stable_network. intros t t' Hr (s & H & Hd). exists s.
      split; [by eapply going_undisturbed|]. by destruct Hr as (-> & _).
    - intros t _ (s & H & Hd). split; [done|]. exists s. split; [|done]. by destruct H; split. }
  assert (Hst : stable (λ _, True) undisturbed
    (λ t, ∃ s, going None false 0 s 0 t ∧ depth_request (network t) = None)).
  { apply stable_network. intros t t' Hr (s & H & Hd). exists s.
    split; [by eapply going_undisturbed|]. by destruct Hr as (-> & _). }
  intros [message|].
  - intros t0 Hi (s & H & _).
    eapply safe_mono; [|apply (triple_ws_failure false 0 s 0 (finish (inr (network_error NeTls "sni"
      message)))); [intros w; apply delivers_untouched, finish_delivers|done|exact H]].
    intros [] t [Ht (f' & s' & Hg & Hf)]. split; [done|]. exists f', s'. split; [|done].
    by eapply going_weaken; [|exact Hg]; lia.
  - apply triple_atomically; [done|]. intros t _ (s & H & Hd). split; [done|].
    apply (going_after _ _ s). destruct H as [H1 H2 H3 H4 H5].
    destruct (websocket (network t)) as [w|] eqn:Hw; [|split; [done|done|done|simpl; lia|done]].
    split; [done|done| | |done].
    + eapply ws_net_ok; [done|done|done|]. by rewrite Hd.
    + unfold reads in *. rewrite Hw in H4. simpl in *. lia.
Qed.

(** The section after a frame: the next read, or nothing more. *)
Lemma triple_message_handled f l s accepted retire :
  triple (going None f l s 0)
    (on_websocket AsyncWebSocket.Nothing (AsyncWebSocket.message_handled accepted retire))
    (λ step t, ending step ∧ going None f l s (if accepted && negb retire then 1 else 0) t).
Proof.
  apply triple_atomically; [done|]. intros t _ H. split; [done|].
  destruct (websocket (network t)) as [w|] eqn:Hw;
    [|split; [done|eapply going_weaken; [|exact H]; lia]].
  pose proof H as [H1 H2 H3 H4 H5]. unfold reads in H4. rewrite Hw in H4.
  assert (Hio : io_waits w = []) by (destruct (io_waits w); [done|simpl in H4; lia]).
  set (r := AsyncWebSocket.message_handled accepted retire w).
  assert (Hspec : ending (snd r) ∧ (over w = true → over (fst r) = true) ∧
    Forall (eq WsRead) (io_waits (fst r)) ∧
    length (io_waits (fst r)) ≤ (if accepted && negb retire then 1 else 0)).
  { unfold r, AsyncWebSocket.message_handled.
    assert (Hquiet : ∀ w' b, quiet w w' → Forall (eq WsRead) (io_waits w') ∧ length (io_waits w') ≤ b).
    { intros w' b Hq. rewrite (quiet_io _ _ Hq), Hio. split; [constructor|simpl; lia]. }
    destruct accepted; cbn [negb andb].
    - destruct retire; cbn [negb].
      + destruct (piece_delivers w) as [Hq _].
        split; [apply failure_ending|]. split; [by apply quiet_over|]. by apply Hquiet.
      + split; [done|]. unfold AsyncWebSocket.read. cbn [fst].
        destruct (op_done w); [split; [done|by apply Hquiet]|].
        split; [done|]. simpl. rewrite Hio. by repeat constructor.
    - pose proof (retire_quiet w) as Hq. split; [done|]. split; [by apply quiet_over|].
      by apply Hquiet. }
  destruct Hspec as (He & Ho & Hr & Hlen). split; [exact He|].
  split; [done|done| |exact Hlen|done]. by eapply ws_net_ok.
Qed.

(** The rest of a read: one frame at most, and no other read after a failure. *)
Lemma triple_receive_frame f s got_text payload retire :
  (f = true → retire = true) →
  triple (going None f 0 s 0)
    (receive_frame config connection_generation got_text payload retire) (λ _, between).
Proof.
  intros Hretire. unfold receive_frame.
  eapply triple_bind; [apply (triple_quiet_call None f 0 s 0)|]. intros received_at.
  destruct (AsyncWebSocket.frame_payload received_at got_text payload) as [[text rx]|failure].
  - eapply triple_bind; [apply triple_message|]. intros accepted t0 _ (l' & H & Hl).
    set (f1 := if accepted then f else true) in *.
    assert (Hsafe : triple (going None f1 l' s 0)
      (step ← on_websocket AsyncWebSocket.Nothing (AsyncWebSocket.message_handled accepted retire);
       continue_websocket config connection_generation step)
      (λ _, after f1 l' (if accepted && negb retire then 1 else 0))).
    { eapply triple_bind; [apply triple_message_handled|]. intros step t1 Hi [Hend H1].
      by apply (triple_continue_end f1 l' s). }
    eapply safe_mono; [|by apply Hsafe]. intros [] t [_ Ha]. split; [done|].
    apply (after_between f1 l' (if accepted && negb retire then 1 else 0)); [| | |done].
    + by destruct accepted, retire; simpl; lia.
    + intros Hf1. destruct accepted, retire, f; simpl in *; try done; try lia.
    + intros Hf1. unfold f1 in Hf1. destruct accepted, f; simpl in *; [done|lia|done..].
  - intros t0 Hi H. eapply safe_mono; [|apply (triple_ws_failure f 0 s 0 (finish (inr failure)));
      [intros w; apply delivers_untouched, finish_delivers|done|exact H]].
    intros [] t [_ Ha]. split; [done|]. by eapply after_between; [| | |exact Ha]; lia.
Qed.

(** Whether frames may still be read tells whether one was read since a failure. *)
Lemma waiting_allowed f l s a i stage t :
  going None f l s a t → ws_waiting i stage t → (f = true → l + a ≤ 1) → (f = false → l = 0) → l = 0.
Proof.
  intros H (w & Hw & Hi) Hf Hl. pose proof (g_reads _ _ _ _ _ _ H) as Hr. unfold reads in Hr.
  rewrite Hw in Hr. apply lookup_lt_Some in Hi. destruct f; [|auto].
  specialize (Hf eq_refl). lia.
Qed.

Lemma triple_websocket_io i stage error got_text payload :
  triple (λ t, between t ∧ ws_waiting i stage t)
    (websocket_io_handler config connection_generation i stage error got_text payload)
    (λ _, between).
Proof.
  intros t0 Hi0 [(f & l & s & a & H & Ha & Hf & Hl) Hw].
  pose proof (waiting_allowed f l s a i stage t0 H Hw Hf Hl) as ->.
  assert (Hgo : triple (λ t, going None f 0 s a t ∧ ws_waiting i stage t)
    (websocket_io_handler config connection_generation i stage error got_text payload)
    (λ _, between)); [|by apply Hgo].
  unfold websocket_io_handler. eapply triple_bind.
  { apply (triple_ws_taken _ _ _ _ _ stage); [done|]. intros w.
    destruct stage; first [apply ws_read_section|by apply ws_io_section]. }
  intros step.
  assert (Hrest : (∀ retire, step ≠ AsyncWebSocket.Message retire) →
    triple (ws_stepped f 0 s step) (continue_websocket config connection_generation step)
      (λ _, between)).
  { intros Hne. eapply triple_conseq; [by apply (triple_continue_websocket f 0 s)|done|].
    intros [] t _ Hafter. by eapply after_between; [| | |exact Hafter]; destruct f; simpl; lia. }
  destruct step as [|e| | |retire]; [by apply Hrest..|].
  intros t Hi [Hr Hg]. by apply (triple_receive_frame f s got_text payload retire).
Qed.

(** The other handlers, from [between] to [between]. *)
Lemma between_triple (p : prog State ()) :
  (∀ f l s a, triple (going None f l s a) p (λ _, after f l a)) → triple between p (λ _, between).
Proof.
  intros Hp t Hi (f & l & s & a & H & Ha & Hf & Hl).
  eapply safe_mono; [|by apply (Hp f l s a)]. intros [] t' [_ Haf]. split; [done|].
  by eapply after_between.
Qed.

Lemma triple_websocket_timer i generation stage error :
  triple between (websocket_timer_handler config connection_generation i generation stage error)
    (λ _, between).
Proof.
  apply between_triple. intros f l s a. unfold websocket_timer_handler.
  apply (triple_ws_failure f l s a (λ w, timer_handler generation stage error (take_timer i w))).
  intros w.
  exact (delivers_untouched _ _ (timer_delivers generation stage error (take_timer i w))).
Qed.

Lemma triple_ping : triple between ping (λ _, between).
Proof.
  apply between_triple. intros f l s a.
  eapply triple_conseq; [by apply (triple_transport_observe None f l s a)|by intros t _ H; exact H|].
  intros [] t _ H. by eapply going_after.
Qed.

Lemma triple_begin_clean_shutdown : triple between begin_clean_shutdown (λ _, between).
Proof.
  apply between_triple. intros f l s a. apply triple_modify; [done|].
  intros t _ H. split; [done|]. apply (going_after _ _ s).
  destruct H as [H1 H2 [H3 H4 H5 H6 H7] H8 H9]. unfold begin_clean_shutdown. simpl.
  destruct (network_clean_cancel_requested (network t)); [by split|].
  split; [done|done|by split|done|]. intros [Hf|[=]]. apply (H9 (or_introl Hf)).
Qed.

Lemma triple_barrier : triple between barrier_handler (λ _ t, between t ∧ quiesced (network t)).
Proof.
  intros t0 Hi (f & l & s & a & H & Ha & Hf & Hl).
  assert (Hgo : triple (going None f l s a) barrier_handler
    (λ _ t, going None f l s a t ∧ quiesced (network t))).
  { apply triple_modify; [done|]. intros t _ [H1 H2 [H3 H4 H5 H6 H7] H8 H9]. split; [done|].
    set (t1 := t <| network ::= λ n, n <| barrier_waiting := false |> |>).
    assert (Hn : net_ok s (network t1)) by by split. split; [|done].
    split; [done|done|by apply cancel_net_ok in Hn; destruct Hn; split| |done].
    change (reads (network (cancel_network_operations t1)) ≤ a). by rewrite cancel_reads. }
  eapply safe_mono; [|by apply Hgo]. intros [] t [Ht [Hg Hq]]. split; [done|]. split; [|done].
  by exists f, l, s, a.
Qed.
End Handlers.
