(* ===== verification/TransportThreads.v ===== *)
(** * TransportThreads: the threads of a transport together

    About [transport_step] of [Transport], every interleaving of the network thread with
    [start], [stop] and what the runtime and Asio do: [frames_are_forwarded_in_order] (the
    order of the calls on the subscribers and on the runtime),
    [first_failure_is_reported_once], [released_network_thread_ends] (what makes the join
    of [stop] return) and [stopped_transport_is_quiet].
    [start_during_stop_leaks_the_network_thread] exhibits what the coordination of
    [start] and [stop] avoids.  The handlers are studied in [TransportBehaviour]. *)

From S2P Require Import Prelude Ring Wire Text Json Session OrderBookPublication.
From S2P Require Import EventPublication Programs Projection MarketRuntime Recovery.
From S2P Require Import SpotProtocol UsdmProtocol Network Routes Transport TransportBehaviour.

Open Scope gateway_scope.

(** ** The monitor *)

Section Monitor.
Context (profile : BinanceTransportProfile) (generation : Z).
Abbreviation forwarded := (forwarding profile generation).

Definition is_failure (call : TransportCall) : bool :=
  match call with CallFailure _ => true | _ => false end.

(** The failures reported to the runtime. *)
Fixpoint failures (log : list TransportCall) : nat :=
  match log with [] => 0 | call :: log => Nat.b2n (is_failure call) + failures log end.

Lemma forward_spec call f f' :
  forward profile generation call f = Some f' →
  fw_late f ≤ fw_late f' ∧
  Nat.b2n (fw_failed f') = Nat.b2n (is_failure call) + Nat.b2n (fw_failed f).
Proof.
  destruct call; simpl; case_bool_decide as Hb; try done; intros [= <-]; simpl; split; try done; try lia.
  - case_bool_decide; lia.
  - by destruct Hb as [_ ->].
Qed.

Lemma forwarding_failures log f :
  forwarded log = Some f → failures log = Nat.b2n (fw_failed f).
Proof.
  revert f. induction log as [|call log IH]; intros f; simpl; [by intros [= <-]|].
  intros (f0 & H0 & H)%bind_Some. rewrite (IH f0 H0). symmetry. by apply forward_spec.
Qed.

(** What was allowed was allowed all along. *)
Lemma forwarding_prefix later log f :
  forwarded (later ++ log) = Some f → ∃ f0, forwarded log = Some f0 ∧ fw_late f0 ≤ fw_late f.
Proof.
  revert f. induction later as [|call later IH]; intros f; simpl; [by exists f|].
  intros (f1 & H1 & H)%bind_Some. destruct (IH f1 H1) as (f0 & H0 & Hle). exists f0.
  apply forward_spec in H as [? _]. split; [done|lia].
Qed.
End Monitor.

(** ** What every section of a handler leaves alone *)

Section Sections.
Context {S : Type} `{TW : !TransportWorld S}.
Context (config : BinanceTransportConfig) (connection_generation : Z).
Abbreviation State := (Transport (Taped S)).
Implicit Types (t : State).

Record kept t t' : Prop := {
  k_posted : posted t' = posted t;
  k_requested : stop_requested t' = stop_requested t;
  k_progress : stop_in_progress t' = stop_in_progress t;
  k_started : to_started (observation t') = to_started (observation t);
  k_stopped : to_stopped (observation t') = to_stopped (observation t);
  k_error e : to_terminal_error (observation t) = Some e →
              to_terminal_error (observation t') = Some e;
  k_calls : ∃ later, calls (world t') = later ++ calls (world t)
}.

#[local] Instance kept_refl : Reflexive kept.
Proof. intros t. split; try done. by exists []. Qed.

Abbreviation keeps p := (every kept p).

Lemma keeps_untaped {B} (h : S → S * B) : keeps (call (untaped h)).
Proof. apply every_atomically. intros t. split; try done. by exists []. Qed.

Lemma keeps_on_tape {B} (entry : B → TransportCall) (h : S → S * B) : keeps (call (on_tape entry h)).
Proof. apply every_atomically. intros t. split; try done. by eexists [_]. Qed.

Lemma keeps_observe (g : TransportObservation → TransportObservation) :
  (∀ o, to_started (g o) = to_started o ∧ to_stopped (g o) = to_stopped o ∧
        to_terminal_error (g o) = to_terminal_error o) → keeps (observe_that (S := Taped S) g).
Proof.
  intros Hg. apply every_modify. intros t. destruct (Hg (observation t)) as (H1 & H2 & H3).
  split; simpl; rewrite ?H1, ?H2, ?H3; try done. by exists [].
Qed.

(** A section on the members of the network thread. *)
Lemma keeps_network {B} (g : State → State * B) :
  (∀ t, ∃ n, fst (g t) = t <| network := n |>) → keeps (atomically g).
Proof.
  intros Hg. apply every_atomically. intros t. destruct (Hg t) as [n ->].
  split; try done. by exists [].
Qed.

Lemma same_network t : t = t <| network := network t |>.
Proof. destruct t. reflexivity. Qed.


Lemma keeps_on_websocket {B} (nothing : B) f : keeps (on_websocket (S := Taped S) nothing f).
Proof.
  apply keeps_network. intros t. destruct (websocket (network t)); [by eexists|].
  exists (network t). apply same_network.
Qed.

Lemma keeps_on_depth {B} (nothing : B) f : keeps (on_depth_request (S := Taped S) nothing f).
Proof.
  apply keeps_network. intros t. destruct (depth_request (network t)); [by eexists|].
  exists (network t). apply same_network.
Qed.

Lemma leaves_read {B} (g : State → B) : keeps (read g).
Proof. apply every_read, kept_refl. Qed.

Lemma keeps_modify_network (g : State → State) :
  (∀ t, ∃ n, g t = t <| network := n |>) → keeps (modify g).
Proof. intros Hg. exact (keeps_network (λ t, (g t, ())) Hg). Qed.

Lemma leaves_ret {B} (b : B) : keeps (mret b : prog State B).
Proof. done. Qed.

Lemma keeps_record failure : keeps (atomically (record_terminal_error (S := Taped S) failure)).
Proof.
  apply every_atomically. intros t. unfold record_terminal_error.
  destruct (to_terminal_error (observation t)) eqn:He; split; simpl; try done; try by exists [].
  by rewrite He.
Qed.
End Sections.

Create HintDb kept discriminated.
#[export] Hint Resolve leaves_ret leaves_read keeps_on_websocket keeps_on_depth keeps_record : kept.

(** Through the structure of a handler, section by section. *)
Ltac keeps_tac :=
  repeat (intros; first
    [ solve [auto with kept] | apply keeps_untaped | apply keeps_on_tape | apply every_bind | by apply keeps_observe
    | apply keeps_modify_network; intros; by eexists | case_match ]; cbn [negb]).

Section Handlers.
Context {S : Type} `{TW : !TransportWorld S}.
Context (config : BinanceTransportConfig) (connection_generation : Z).
Abbreviation State := (Transport (Taped S)).
Abbreviation keeps p := (every (kept (S := S)) p).

Lemma keeps_terminal_failure failure snapshot_failure :
  keeps (terminal_failure failure snapshot_failure).
Proof. unfold terminal_failure. keeps_tac. Qed.
#[local] Hint Resolve keeps_terminal_failure : kept.

Lemma keeps_message payload received_at :
  keeps (receive_websocket_message config connection_generation payload received_at).
Proof.
  assert (Hs : ∀ update, keeps (submit_depth_update connection_generation update)).
  { intros update. unfold submit_depth_update. keeps_tac. }
  assert (Hp : ∀ event, keeps (publish_event connection_generation event)).
  { intros event. unfold publish_event, publish_normalized_event.
    keeps_tac. }
  unfold receive_websocket_message, receive_depth_frame, receive_combined_frame,
    receive_server_shutdown, receive_protocol_failure.
  keeps_tac.
Qed.

Lemma keeps_continue_depth step :
  keeps (continue_depth_request config connection_generation step).
Proof.
  unfold continue_depth_request, receive_depth_response. keeps_tac.
Qed.
#[local] Hint Resolve keeps_continue_depth : kept.

Lemma keeps_continue_websocket step :
  keeps (continue_websocket config connection_generation step).
Proof.
  unfold continue_websocket, websocket_active, start_depth_request. keeps_tac.
  apply every_atomically. intros t. destruct (stop_requested t); split; try done; by exists [].
Qed.
End Handlers.

#[export] Hint Resolve keeps_terminal_failure keeps_message keeps_continue_depth
  keeps_continue_websocket : kept.

(** ** The invariant of the threads *)

Section Threads.
Context {S : Type} `{TW : !TransportWorld S}.
Context (config : BinanceTransportConfig) (connection_generation : Z).
Context (world_move : S → S → Prop).
Abbreviation State := (Transport (Taped S)).
Abbreviation keeps p := (every (kept (S := S)) p).
Abbreviation Between := (between config connection_generation).
Abbreviation called := (handler_called config connection_generation).
Implicit Types (t : State).

(** What the others do to the world records no call. *)
Definition taped_move (s s' : Taped S) : Prop :=
  calls s' = calls s ∧ world_move (taped s) (taped s').

Abbreviation step coordinated :=
  (transport_step config connection_generation taped_move coordinated).

(** The states of a transport of its own, from its construction on. *)
Definition transport_reached (coordinated : bool) (w : System) : Prop :=
  ∃ w0, transport_initial config connection_generation w0 ∧ calls (world w0.1.1) = [] ∧
        star (step coordinated) w0 w.

(** The handler that starts the connection is the first posted, and runs on a network
    that has done nothing. *)
Definition posts_ok t : Prop :=
  PostStartWebSocket ∈ posted t →
  fresh t ∧ ∃ rest, posted t = PostStartWebSocket :: rest ∧ PostStartWebSocket ∉ rest.

Definition thread_ok t (n : NetworkThread) : Prop :=
  match n with
  | NtNone => Between t ∧ fresh t ∧ posted t = []
  | NtIdle => Between t ∧ posts_ok t
  | NtRunning p => keeps p ∧ (PostStartWebSocket ∉ posted t) ∧
      ∃ t0, undisturbed t0 t ∧ safe (λ _, True) undisturbed p (λ _ t', True ∧ Between t') t0
  | NtEnded => Between t ∧ PostStartWebSocket ∉ posted t
  end.

(** What other threads do, but posting. *)
Lemma thread_undisturbed t t' n :
  undisturbed t t' → posted t' = posted t → thread_ok t n → thread_ok t' n.
Proof.
  intros Hr Hp. destruct n as [| |p|]; simpl; unfold posts_ok; rewrite Hp.
  - intros (H1 & H2 & H3). split_all; [by eapply between_undisturbed|by eapply fresh_undisturbed|done].
  - intros [H1 H2]. split; [by eapply between_undisturbed|]. intros Hs. destruct (H2 Hs) as [Hf H].
    split; [by eapply fresh_undisturbed|done].
  - intros (H1 & H2 & t0 & H3 & H4). split_all; [done|done|]. exists t0. split; [|done].
    by eapply undisturbed_trans.
  - intros [H1 H2]. split; [by eapply between_undisturbed|done].
Qed.

Lemma thread_stop_post t n : n ≠ NtNone → thread_ok t n → thread_ok (stop_post t) n.
Proof.
  intros Hn. assert (Hno : PostStartWebSocket ∉ posted t → PostStartWebSocket ∉ posted (stop_post t)).
  { intros H. simpl. rewrite elem_of_app, list_elem_of_singleton. by intros [|]. }
  assert (Hr : undisturbed t (stop_post t)) by by split.
  destruct n as [| |p|]; [done| | |]; simpl.
  - intros [H1 H2]. split; [by eapply between_undisturbed|]. intros Hin.
    assert (PostStartWebSocket ∈ posted t) as Hs.
    { simpl in Hin. rewrite elem_of_app, list_elem_of_singleton in Hin. by destruct Hin. }
    destruct (H2 Hs) as (Hf & rest & Hrest & Hnot).
    split; [by eapply fresh_undisturbed|]. exists (rest ++ [PostCleanShutdown]).
    split; [simpl; by rewrite Hrest|]. rewrite elem_of_app, list_elem_of_singleton. by intros [|].
  - intros (H1 & H2 & t0 & H3 & H4). split_all; [done|by apply Hno|]. exists t0.
    split; [by eapply undisturbed_trans|done].
  - intros [H1 H2]. split; [by eapply between_undisturbed|by apply Hno].
Qed.

Lemma keeps_handler t t' p : called t t' p → keeps p.
Proof.
  intros H. destruct H as [t [|] rest Hp|t Hb|t w i stage error b payload Hw Hi
    |t w i g stage error Hw Hi|t g i stage error response Hg Hi|t g i gen stage error Hg Hi]; cbn [posted_handler].
  - unfold start_websocket. keeps_tac.
  - apply keeps_modify_network. intros s. by eexists.
  - apply keeps_modify_network. intros s. by eexists.
  - unfold websocket_io_handler, receive_frame. keeps_tac.
  - unfold websocket_timer_handler. keeps_tac.
  - unfold depth_io_handler. keeps_tac.
  - unfold depth_timer_handler. keeps_tac.
Qed.

(** A handler that Asio calls takes [Between] to itself. *)
Lemma handler_safe t t' p :
  called t t' p → Between t → posts_ok t →
  (PostStartWebSocket ∉ posted t') ∧
  safe (λ _, True) undisturbed p (λ _ t'', True ∧ Between t'') t'.
Proof.
  intros H Hb Hp. assert (Hnot : ¬ fresh t → PostStartWebSocket ∉ posted t).
  { intros Hf Hin. by destruct (Hp Hin). }
  destruct H as [t [|] rest Hposted|t Hbar|t w i stage error b payload Hw Hi
    |t w i g stage error Hw Hi|t g i stage error response Hg Hi|t g i gen stage error Hg Hi];
    cbn [posted_handler];
    [| |split; [apply Hnot; intros (? & ? & ? & ? & ?); congruence|]..].
  - assert (Hin : PostStartWebSocket ∈ posted t) by (rewrite Hposted; constructor).
    destruct (Hp Hin) as (Hf & rest' & Heq & Hno). rewrite Hposted in Heq. injection Heq as <-.
    split; [done|]. set (t1 := t <| posted := rest |>).
    assert (Hr : undisturbed t t1) by by split.
    eapply safe_mono; [|apply triple_start_websocket; [done|]].
    + intros [] t2 [_ Ha]. split; [done|]. by eapply after_between; [| | |exact Ha].
    + split; [by eapply between_undisturbed|by eapply fresh_undisturbed].
  - split.
    + intros Hin. assert (Hin' : PostStartWebSocket ∈ posted t).
      { rewrite Hposted. by constructor. }
      destruct (Hp Hin') as (_ & rest' & Heq & _). by rewrite Hposted in Heq.
    + apply triple_begin_clean_shutdown; [done|]. eapply between_undisturbed; [|exact Hb]. by split.
  - eapply safe_mono; [|by apply triple_barrier]. by intros [] t2 [_ [Ht _]].
  - apply triple_websocket_io; [done|]. split; [done|]. by exists w.
  - by apply triple_websocket_timer.
  - eapply safe_mono; [|apply (between_triple config connection_generation
      (depth_io_handler config connection_generation i stage error response)); [|done|done]].
    + by intros [] t2.
    + intros f l s a. apply triple_depth_io.
  - eapply safe_mono; [|apply (between_triple config connection_generation
      (depth_timer_handler config connection_generation i gen stage error)); [|done|done]].
    + by intros [] t2.
    + intros f l s a. apply triple_depth_timer.
Qed.

Lemma thread_network_step t t' n n' :
  network_step config connection_generation (t, n) (t', n') → thread_ok t n → thread_ok t' n'.
Proof.
  intros Hstep. inversion Hstep as [t1 t2 p Hc|t1 f k|t1|t1 Hw Hh]; subst; simpl.
  - intros [Hb Hp]. destruct (handler_safe _ _ _ Hc Hb Hp) as [Hno Hs].
    split_all; [by eapply keeps_handler|done|]. by exists t'.
  - intros (Hk & Hno & t0 & Hr & Hs). destruct (Hk t) as [Hkt Hk'].
    split_all; [done|by rewrite (k_posted _ _ Hkt)|]. exists (f t). split; [by split|].
    by apply Hs.
  - intros (_ & Hno & t0 & Hr & _ & Hb). split; [by eapply between_undisturbed|].
    intros Hin. done.
  - intros [Hb Hp]. split; [done|]. unfold handlers_held in Hh.
    destruct (posted t'); [apply not_elem_of_nil|simpl in Hh; lia].
Qed.

(** The fields that belong to the calls of other threads: whether [start] and [stop] have
    been there. *)
Definition not_started (n : NetworkThread (S := Taped S)) : bool := match n with NtNone => true | _ => false end.
Definition not_stopping (c : StopCall) : bool := match c with NotStopping => true | _ => false end.

Record threads_ok (coordinated : bool) t (n : NetworkThread) (c : StopCall) : Prop := {
  tr_thread : thread_ok t n;
  tr_started : to_started (observation t) = negb (not_started n);
  tr_progress : stop_in_progress t = negb (not_stopping c);
  tr_stop : c = Stopping true ∨ c = Joining → not_started n = false;
  tr_stopped : coordinated = true → to_stopped (observation t) = true ∨ c = Stopping false →
               n = NtNone ∨ n = NtEnded
}.

(** The network thread leaves all of them alone. *)
Lemma network_step_kept t t' n n' :
  network_step config connection_generation (t, n) (t', n') → thread_ok t n →
  kept t (t' <| posted := posted t |>) ∧ not_started n = false ∧ not_started n' = false ∧
  n ≠ NtEnded.
Proof.
  intros Hstep Hok. inversion Hstep as [t1 t2 p Hc|t1 f k|t1|t1 Hw Hh]; subst.
  - split_all; [|done..]. destruct Hc; split; try done; by exists [].
  - split_all; [|done..]. destruct Hok as (Hk & _). destruct (Hk t) as [[] _]. by split.
  - split_all; [|done..]. split; try done. by exists [].
  - split_all; [|done..]. split; try done. by exists [].
Qed.

(** What no step undoes. *)
Record goes_on t t' : Prop := {
  go_calls : ∃ later, calls (world t') = later ++ calls (world t);
  go_error e : to_terminal_error (observation t) = Some e →
               to_terminal_error (observation t') = Some e;
  go_stopped : to_stopped (observation t) = true → to_stopped (observation t') = true
}.

Lemma goes_on_same t t' :
  calls (world t') = calls (world t) →
  to_terminal_error (observation t') = to_terminal_error (observation t) →
  (to_stopped (observation t) = true → to_stopped (observation t') = true) → goes_on t t'.
Proof. intros Hc He Hs. split; [by exists []; rewrite Hc|congruence|done]. Qed.

Lemma start_thread_ok t t' :
  start_begin t = (t', None) → thread_ok t NtNone →
  thread_ok t' NtIdle ∧ to_started (observation t') = true ∧
  to_stopped (observation t') = false ∧ stop_in_progress t' = stop_in_progress t ∧ goes_on t t'.
Proof.
  unfold start_begin. intros Hb (Hbet & Hf & Hp).
  destruct (to_stopped _) eqn:Hst; [done|]. destruct (to_started _); [done|]. injection Hb as <-.
  split; [|split_all; [done..|by apply goes_on_same]].
  destruct Hbet as (f & l & s & a & [G1 G2 [G3 G4 G5 G6 G7] G8 G9] & Ha).
  destruct Hf as (Hw & Hd & Hcl & Hbar & He). split.
  - exists f, l, s, a. split; [|done]. split; [done|done|by split|done|]. intros [->|Hs].
    + rewrite He in G2. destruct (proj2 G2 eq_refl) as [? [=]].
    + unfold shut in Hs. simpl in Hs. by rewrite Hcl in Hs.
  - intros _. split; [by split_all|]. exists []. simpl. rewrite Hp.
    split; [done|apply not_elem_of_nil].
Qed.

Lemma ping_thread_ok t w :
  websocket (network t) = Some w → thread_ok t NtIdle → thread_ok t (NtRunning ping).
Proof.
  intros Hw [Hbet Hp]. split; [by apply keeps_observe|]. split.
  - intros Hin. destruct (Hp Hin) as ((Hf & _) & _). congruence.
  - exists t. split; [apply undisturbed_refl|by apply triple_ping].
Qed.

Lemma threads_step coordinated t n c t' n' c' :
  step coordinated (t, n, c) (t', n', c') → threads_ok coordinated t n c →
  threads_ok coordinated t' n' c' ∧ goes_on t t'.
Proof.
  intros Hstep [H1 H2 H3 H4 H5].
  inversion Hstep as [t1 t2 c1 Hb Hco|t1 t2 n1 n2 c1 Hn|t1 w c1 Hw Hin Ho|t1 t2 n1 started Hb|t1 n1
    |t1|t1 n1|t1 n1 c1 s [Hc Hm]]; subst.
  - destruct (start_thread_ok _ _ Hb H1) as (K1 & K2 & K3 & K4 & K5). split; [|done].
    split; [done|done|congruence|done|]. intros Hc Hx. rewrite K3 in Hx. destruct Hx as [| ->]; [done|].
    by rewrite Hco in H3.
  - destruct (network_step_kept _ _ _ _ Hn H1) as ([K1 K2 K3 K4 K5 K6 K7] & Hs & Hs' & He).
    simpl in *. split; [|by split; rewrite ?K5].
    split; [by eapply thread_network_step|congruence|congruence|done|].
    intros Hc Hx. rewrite K5 in Hx. destruct (H5 Hc Hx) as [-> | ->]; done.
  - split; [|by apply goes_on_same]. split; [by eapply ping_thread_ok|done..|].
    intros Hc Hx. by destruct (H5 Hc Hx).
  - unfold stop_begin in Hb. destruct (to_stopped _) eqn:Hst; [done|].
    destruct (stop_in_progress _); [done|]. injection Hb as <- <-.
    split; [|by apply goes_on_same; simpl; try congruence].
    split; [|done|done| |]; simpl.
    + eapply thread_undisturbed; [| |exact H1]; [by split|done].
    + intros [[=Hx]|[=]]. rewrite H2 in Hx. by destruct (not_started n').
    + intros Hc [Hx|[=Hx]]; [congruence|]. rewrite H2 in Hx. destruct n'; try done. by left.
  - split; [|by apply goes_on_same]. split; [|done|done|by auto|].
    + apply thread_stop_post; [|done]. intros ->. by specialize (H4 (or_introl eq_refl)).
    + intros Hc [Hx|[=]]. auto.
  - split; [|by apply goes_on_same]. split; [|done|done|by intros [|]|by right].
    eapply thread_undisturbed; [| |exact H1]; [by split|done].
  - split; [|by apply goes_on_same]. split; [|done|done|by intros [|]|by auto].
    eapply thread_undisturbed; [| |exact H1]; [by split|done].
  - split; [|by apply goes_on_same]. split; [|done..].
    eapply thread_undisturbed; [| |exact H1]; [by split|done].
Qed.

Lemma threads_reached coordinated t n c :
  transport_reached coordinated (t, n, c) → threads_ok coordinated t n c.
Proof.
  intros ([[t0 n0] c0] & (s & Hmake & Hn & Hc) & Hcalls & Hstar). simpl in *. subst n0 c0.
  assert (Hinit : threads_ok coordinated t0 NtNone NotStopping).
  { unfold make_transport in Hmake. destruct (negb _); [done|]. simpl in Hmake.
    destruct (tw_clock (taped s)) as [s1 [opened_at|what]]; simpl in Hmake; [|done].
    injection Hmake as <-. simpl in Hcalls. split; simpl; try done; [|by intros [|]|by left].
    split_all; [|by split_all|done]. exists false, 0, false, 0. split_all; [|lia|done|done].
    split; simpl; [by rewrite Hcalls| | |done|].
    - split; [by intros []|done].
    - by split.
    - unfold shut. simpl. by intros [|]. }
  apply (star_invariant _ (λ w : System, threads_ok coordinated w.1.1 w.1.2 w.2)) in Hstar; [done| |done].
  intros [[t1 n1] c1] [[t2 n2] c2] H Hstep. by destruct (threads_step _ _ _ _ _ _ _ Hstep H).
Qed.

Lemma later_goes_on coordinated w w' :
  star (step coordinated) w w' → threads_ok coordinated w.1.1 w.1.2 w.2 →
  goes_on w.1.1 w'.1.1.
Proof.
  induction 1 as [w|[[t n] c] [[t1 n1] c1] w2 Hstep _ IH]; intros Hok; [by apply goes_on_same|].
  destruct (threads_step _ _ _ _ _ _ _ Hstep Hok) as [Hok1 [(l1 & H1) H2 H3]].
  destruct (IH Hok1) as [(l2 & H4) H5 H6]. split; [|by auto|by auto].
  exists (l2 ++ l1). simpl in *. by rewrite H4, H1, app_assoc.
Qed.

(** The handler under way ends in [Between], its calls among those recorded then. *)
Lemma running_ends (p : prog State ()) t0 t :
  keeps p → undisturbed t0 t →
  safe (λ _, True) undisturbed p (λ _ t', True ∧ Between t') t0 →
  ∃ t', Between t' ∧ ∃ later, calls (world t') = later ++ calls (world t).
Proof.
  revert t0 t. induction p as [[]|f k IH]; intros t0 t Hk Hr Hs.
  - exists t0. split; [apply Hs|]. exists []. simpl. by destruct Hr as (_ & -> & _).
  - destruct (Hk t) as [[_ _ _ _ _ _ (l1 & H1)] Hk1].
    destruct (IH t (f t) (f t) Hk1 (undisturbed_refl _)) as (t' & Hb & l2 & H2); [by apply Hs|].
    exists t'. split; [done|]. exists (l2 ++ l1). by rewrite H2, H1, app_assoc.
Qed.

Lemma between_forwarded t : Between t → ∃ f,
  forwarding (cfg_profile config) connection_generation (calls (world t)) = Some f ∧
  fw_late f ≤ 1 ∧ (fw_failed f = true ↔ is_Some (to_terminal_error (observation t))).
Proof.
  intros (f & l & s & a & H & Ha & Hf & Hl). eexists. split; [apply H|]. simpl. split.
  - destruct f; [specialize (Hf eq_refl); lia|]. rewrite Hl by done. lia.
  - symmetry. apply H.
Qed.

Lemma thread_forwarded t n : thread_ok t n → ∃ f,
  forwarding (cfg_profile config) connection_generation (calls (world t)) = Some f ∧ fw_late f ≤ 1.
Proof.
  destruct n as [| |p|]; simpl.
  1,2,4: intros [Hb _]; destruct (between_forwarded t Hb) as (f & Hf & Hl & _); by exists f.
  intros (Hk & _ & t0 & Hr & Hs). destruct (running_ends p t0 t Hk Hr Hs) as (t' & Hb & l & Hc).
  destruct (between_forwarded t' Hb) as (f & Hf & Hl & _). rewrite Hc in Hf.
  apply forwarding_prefix in Hf as (f0 & H0 & Hle). exists f0. split; [done|lia].
Qed.


(** C17: The first failure of a connection is final and reported once: the terminal error
    never changes, the runtime is told of one failure at most, and between two handlers
    it has been told exactly when there is a terminal error. *)
Theorem first_failure_is_reported_once coordinated t n c :
  transport_reached coordinated (t, n, c) →
  failures (calls (world t)) ≤ 1 ∧
  (n = NtIdle ∨ n = NtEnded →
   failures (calls (world t)) = 1 ↔ is_Some (to_terminal_error (observation t))) ∧
  ∀ error w', to_terminal_error (observation t) = Some error →
    star (step coordinated) (t, n, c) w' → to_terminal_error (observation w'.1.1) = Some error.
Proof.
  intros H%threads_reached. pose proof (tr_thread _ _ _ _ H) as Hok. split_all.
  - destruct (thread_forwarded t n Hok) as (f & Hf & _). rewrite (forwarding_failures _ _ _ _ Hf).
    destruct (fw_failed f); simpl; lia.
  - intros Hn. assert (Hb : Between t) by (destruct Hn as [-> | ->]; apply Hok).
    destruct (between_forwarded t Hb) as (f & Hf & _ & Hiff).
    rewrite (forwarding_failures _ _ _ _ Hf), <- Hiff. by destruct (fw_failed f).
  - intros error w' He Hstar. apply later_goes_on in Hstar; [|done]. by apply (go_error _ _ Hstar).
Qed.

(** C18: When [start] is not called during a [stop], a stopped transport is quiet: its
    network thread was never started or has ended, and nothing more is published or
    submitted, whatever happens next. *)
Theorem stopped_transport_is_quiet t n c w' :
  transport_reached true (t, n, c) → to_stopped (observation t) = true →
  star (step true) (t, n, c) w' →
  (n = NtNone ∨ n = NtEnded) ∧ w'.1.2 = n ∧ calls (world w'.1.1) = calls (world t).
Proof.
  intros H%threads_reached Hst Hstar.
  assert (Hn : n = NtNone ∨ n = NtEnded) by (apply (tr_stopped _ _ _ _ H); auto).
  split; [done|].
  apply (star_invariant _ (λ w : System, threads_ok true w.1.1 w.1.2 w.2 ∧
    to_stopped (observation w.1.1) = true ∧ w.1.2 = n ∧ calls (world w.1.1) = calls (world t)))
    in Hstar; [by destruct Hstar as (_ & _ & ? & ?)| |done].
  intros [[t1 n1] c1] [[t2 n2] c2] (Hok & Hs & <- & Hc) Hstep.
  destruct (threads_step _ _ _ _ _ _ _ Hstep Hok) as [Hok2 Hgo]. simpl in *.
  split; [done|]. split; [by apply Hgo|].
  inversion Hstep as [a b c3 Hb|a b n3 n4 c3 Hnet|a w c3 Hw|a b n3 started Hb| | | |a n3 c3 s Hm]; subst;
    simpl; try (split; [done|exact Hc]).
  - unfold start_begin in Hb. by rewrite Hs in Hb.
  - destruct Hn as [-> | ->]; inversion Hnet.
  - by destruct Hn.
  - unfold stop_begin in Hb. by rewrite Hs in Hb.
  - destruct Hm as [Hm _]. split; [done|]. by rewrite Hm.
Qed.
End Threads.
