(* ===== verification/TransportEnding.v ===== *)
(** * TransportEnding: a transport that has released its work ends

    About [Transport]: once the operations of the network thread are cancelled, by the
    first failure or by the clean shutdown, every handler Asio may still call leaves fewer
    behind, so that [io_context::run] returns ([released_network_thread_ends]): the join
    of [stop] ends.  [start_during_stop_leaks_the_network_thread] exhibits a start that
    [stop] does not see. *)

From S2P Require Import Prelude Ring Wire Text Json Session OrderBookPublication.
From S2P Require Import EventPublication Programs Projection MarketRuntime Recovery.
From S2P Require Import SpotProtocol UsdmProtocol Network Routes Transport.
From S2P Require Import TransportBehaviour TransportThreads.

Open Scope gateway_scope.

Section Ending.
Context {S : Type} `{TW : !TransportWorld S}.
Context (config : BinanceTransportConfig) (connection_generation : Z).
Abbreviation State := (Transport (Taped S)).
Abbreviation network_steps := (network_step config connection_generation).
Implicit Types (t : State).

(** Everything is cancelled, and no connection is to be started. *)
Record closing t : Prop := {
  c_quiesced : quiesced (network t);
  c_websocket w : websocket (network t) = Some w → over w = true;
  c_depth g : depth_request (network t) = Some g → over g = true;
  c_posted : PostStartWebSocket ∉ posted t
}.

(** The handlers to come: a posted shutdown registers the barrier. *)
Definition to_come t : nat :=
  2 * length (posted t) + Nat.b2n (barrier_waiting (network t))
  + waits_of (websocket (network t)) + waits_of (depth_request (network t)).

(** A section that keeps things closing, and registers nothing. *)
Definition closes t t' : Prop := closing t → closing t' ∧ to_come t' ≤ to_come t.

Abbreviation closing_prog p := (every closes p).

#[local] Instance closes_refl : Reflexive closes.
Proof. by intros t. Qed.

Lemma closes_trans t1 t2 t3 : closes t1 t2 → closes t2 t3 → closes t1 t3.
Proof.
  intros H12 H23 H1. destruct (H12 H1) as [H2 Hle]. destruct (H23 H2). split; [done|lia].
Qed.

(** What the others see of a section that leaves the operations alone. *)
Lemma closes_same t t' : network t' = network t → posted t' = posted t → closes t t'.
Proof.
  intros Hn Hp [H1 H2 H3 H4]. unfold to_come. rewrite Hn, Hp.
  split; [split; by rewrite ?Hn, ?Hp|done].
Qed.

Lemma closing_call {B} (h : Taped S → Taped S * B) : closing_prog (call h).
Proof. apply every_atomically. intros t. by apply closes_same. Qed.

Lemma closing_observe (g : TransportObservation → TransportObservation) :
  closing_prog (observe_that (S := Taped S) g).
Proof. apply every_modify. intros t. by apply closes_same. Qed.

Lemma closing_read {B} (g : State → B) : closing_prog (read g).
Proof. apply every_read, closes_refl. Qed.

Lemma closing_record failure : closing_prog (atomically (record_terminal_error (S := Taped S) failure)).
Proof.
  apply every_atomically. intros t. unfold record_terminal_error.
  destruct (to_terminal_error _); by apply closes_same.
Qed.

(** Nothing is left to cancel. *)
Lemma released_same t :
  quiesced (network t) → release_network_work (cancel_network_operations t) = t.
Proof.
  intros (Hw & Hd & Hg). destruct t as [o r p q [] s]. simpl in *. by subst.
Qed.

Lemma cancelled_same t : quiesced (network t) → cancel_network_operations t = t.
Proof.
  intros (Hw & Hd & Hg). destruct t as [o r p q [] s]. simpl in *. by subst.
Qed.

Lemma closing_cancel : closing_prog (modify (cancel_network_operations (S := Taped S))).
Proof.
  apply every_modify. intros t H. by rewrite cancelled_same by apply H.
Qed.

Lemma closing_release : closing_prog (modify (release_network_work (S := Taped S))).
Proof.
  apply every_modify. intros t [(H1 & H2 & H3) H4 H5 H6]. unfold to_come. simpl.
  split; [by split|done].
Qed.

(** A section on an operation that is over. *)
Lemma closing_on_websocket {B} (nothing : B) F :
  (∀ w, over w = true → over (fst (F w)) = true ∧ waits (fst (F w)) ≤ waits w) →
  closing_prog (on_websocket (S := Taped S) nothing F).
Proof.
  intros HF. apply every_atomically. intros t H.
  destruct (websocket (network t)) as [w|] eqn:Hw; [|done]. destruct H as [H1 H2 H3 H4].
  destruct (HF w (H2 w Hw)) as [Ho Hle]. split.
  - split; simpl; [done|by intros w' [= <-]|done|done].
  - unfold to_come. rewrite Hw. simpl. apply Nat.add_le_mono_r, Nat.add_le_mono_l, Hle.
Qed.

Lemma closing_on_depth {B} (nothing : B) F :
  (∀ g, over g = true → over (fst (F g)) = true ∧ waits (fst (F g)) ≤ waits g) →
  closing_prog (on_depth_request (S := Taped S) nothing F).
Proof.
  intros HF. apply every_atomically. intros t H.
  destruct (depth_request (network t)) as [g|] eqn:Hg; [|done]. destruct H as [H1 H2 H3 H4].
  destruct (HF g (H3 g Hg)) as [Ho Hle]. split.
  - split; simpl; [done|done|by intros g' [= <-]|done].
  - unfold to_come. rewrite Hg. simpl. apply Nat.add_le_mono_l, Hle.
Qed.

Lemma quiet_closes {Stage R : Type} (op op' : Operation Stage R) :
  quiet op op' → over op = true → over op' = true ∧ waits op' ≤ waits op.
Proof. intros Hq Ho. split; [by eapply quiet_over|]. by rewrite (quiet_waits _ _ Hq). Qed.
End Ending.

Create HintDb closing discriminated.
#[export] Hint Resolve closing_read closing_record closing_cancel closing_release
  closing_observe : closing.

Ltac closing_tac :=
  repeat (intros; first
    [ solve [auto with closing] | exact I | apply closing_call | apply every_bind
    | case_match ]; cbn [negb]).

Section Handlers.
Context {S : Type} `{TW : !TransportWorld S}.
Context (config : BinanceTransportConfig) (connection_generation : Z).
Abbreviation State := (Transport (Taped S)).
Abbreviation closing_prog p := (every (closes (S := S)) p).
Implicit Types (t : State).

Lemma closing_terminal_failure failure snapshot_failure :
  closing_prog (terminal_failure failure snapshot_failure).
Proof. unfold terminal_failure. closing_tac. Qed.
#[local] Hint Resolve closing_terminal_failure : closing.

Lemma closing_message payload received_at :
  closing_prog (receive_websocket_message config connection_generation payload received_at).
Proof.
  assert (Hs : ∀ update, closing_prog (submit_depth_update connection_generation update)).
  { intros update. unfold submit_depth_update. closing_tac. }
  assert (Hp : ∀ event, closing_prog (publish_event connection_generation event)).
  { intros event. unfold publish_event, publish_normalized_event. closing_tac. }
  unfold receive_websocket_message, receive_depth_frame, receive_combined_frame,
    receive_server_shutdown, receive_protocol_failure.
  closing_tac.
Qed.
#[local] Hint Resolve closing_message : closing.

Lemma closing_continue_depth step :
  closing_prog (continue_depth_request config connection_generation step).
Proof. unfold continue_depth_request, receive_depth_response. closing_tac. Qed.
#[local] Hint Resolve closing_continue_depth : closing.

Lemma closing_continue_websocket step : ending step →
  closing_prog (continue_websocket config connection_generation step).
Proof. destruct step; [intros _..|done|done|done]; cbn [continue_websocket]; closing_tac. Qed.

(** A program run to its end. *)
Lemma closes_run {B} (p : prog State B) t : closing_prog p → closes t (fst (run p t)).
Proof.
  revert t. induction p as [b|f k IH]; intros t Hp; [apply closes_refl|].
  destruct (Hp t) as [Hf Hk]. eapply closes_trans; [exact Hf|]. by apply IH.
Qed.

Lemma closes_run_bind {B C} (p : prog State B) (k : B → prog State C) t :
  closes t (fst (run p t)) → closing_prog (k (snd (run p t))) → closes t (fst (run (p ≫= k) t)).
Proof. intros Hp Hk. rewrite run_bind. eapply closes_trans; [exact Hp|]. by apply closes_run. Qed.

(** *** The sections of a handler that is taken *)

Lemma take_io_waits {Stage R : Type} i stage (op : Operation Stage R) :
  io_waits op !! i = Some stage → waits (take_io i op) < waits op.
Proof.
  intros Hi. unfold waits. simpl. rewrite length_delete by by eexists.
  apply lookup_lt_Some in Hi. lia.
Qed.

Lemma take_timer_waits {Stage R : Type} i x (op : Operation Stage R) :
  timer_waits op !! i = Some x → waits (take_timer i op) < waits op.
Proof.
  intros Hi. unfold waits. simpl. rewrite length_delete by by eexists.
  apply lookup_lt_Some in Hi. lia.
Qed.

(** From [t] to [t'], with at least one handler less to come. *)
Definition advances t t' : Prop := closing t → closing t' ∧ to_come t' < to_come t.

Lemma advances_closes t1 t2 t3 : advances t1 t2 → closes t2 t3 → advances t1 t3.
Proof.
  intros H12 H23 H1. destruct (H12 H1) as [H2 Hlt]. destruct (H23 H2). split; [done|lia].
Qed.

Lemma advances_websocket {C} t w F nothing (k : AsyncWebSocket.Next → prog State C) op :
  websocket (network t) = Some w → waits op < waits w → (over w = true → over op = true) →
  (over w = true → quiet op (fst (F w)) ∧ closing_prog (k (snd (F w)))) →
  advances t (fst (run (on_websocket nothing F ≫= k) t)).
Proof.
  intros Hw Hlt Ho HF Hc. pose proof (c_websocket _ Hc w Hw) as Hover.
  destruct (HF Hover) as [Hq Hk].
  unfold on_websocket. rewrite run_bind, run_atomically, Hw. cbn [fst snd].
  destruct (quiet_closes _ _ Hq (Ho Hover)) as [Ho' Hle].
  eapply advances_closes; [|by apply closes_run|done]. intros [H1 H2 H3 H4]. split.
  - split; simpl; [done|by intros w' [= <-]|done|done].
  - unfold to_come. rewrite Hw. simpl.
    apply Nat.add_lt_mono_r, Nat.add_lt_mono_l. by eapply Nat.le_lt_trans.
Qed.

Lemma advances_depth {C} t g F nothing (k : AsyncHttpsGet.Next → prog State C) op :
  depth_request (network t) = Some g → waits op < waits g → (over g = true → over op = true) →
  (over g = true → quiet op (fst (F g))) →
  closing_prog (k (snd (F g))) →
  advances t (fst (run (on_depth_request nothing F ≫= k) t)).
Proof.
  intros Hg Hlt Ho Hq Hk Hc. pose proof (c_depth _ Hc g Hg) as Hover.
  unfold on_depth_request. rewrite run_bind, run_atomically, Hg. cbn [fst snd].
  destruct (quiet_closes _ _ (Hq Hover) (Ho Hover)) as [Ho' Hle].
  eapply advances_closes; [|by apply closes_run, Hk|done]. intros [H1 H2 H3 H4]. split.
  - split; simpl; [done|done|by intros g' [= <-]|done].
  - unfold to_come. rewrite Hg. simpl.
    apply Nat.add_lt_mono_l. by eapply Nat.le_lt_trans.
Qed.

(** The handlers of operations that are over. *)
Lemma get_io_quiet stage error g :
  over g = true → quiet g (fst (AsyncHttpsGet.io_handler stage error g)).
Proof.
  intros Ho. unfold AsyncHttpsGet.io_handler. pose proof (stage_handler_delivers stage error g) as H.
  destruct (stage_handler stage error g) as [g' [result|]]; cbn [fst snd]; [apply H|].
  destruct H as (_ & Hx & _). congruence.
Qed.

Lemma get_read_quiet error g : quiet g (fst (AsyncHttpsGet.read_handler error g)).
Proof.
  unfold AsyncHttpsGet.read_handler. set (g1 := g <| io_pending := false |>).
  assert (Hq : quiet g g1) by by split. destruct (op_done g1); [done|].
  destruct (cancel_requested g1).
  - destruct error as [e|]; [|done].
    destruct (negb _); (etrans; [exact Hq|]); [apply finish_delivers|apply piece_delivers].
  - destruct error as [e|]; (etrans; [exact Hq|]); [|apply disarm_quiet].
    etrans; [apply disarm_quiet|]. apply finish_delivers.
Qed.

Lemma response_quiet result g : quiet g (fst (AsyncHttpsGet.response_handler result g)).
Proof.
  unfold AsyncHttpsGet.response_handler. destruct (cancel_requested g); [|apply finish_delivers].
  etrans; [|apply piece_delivers]. by split.
Qed.

Lemma ws_io_quiet stage error w :
  over w = true → quiet w (fst (AsyncWebSocket.io_handler stage error w)) ∧
  ending (snd (AsyncWebSocket.io_handler stage error w)).
Proof.
  intros Ho. unfold AsyncWebSocket.io_handler. pose proof (stage_handler_delivers stage error w) as H.
  destruct (stage_handler stage error w) as [w' [result|]]; cbn [fst snd].
  - split; [apply H|apply failure_ending].
  - destruct H as (_ & Hx & _). congruence.
Qed.

Lemma ws_read_quiet error w : quiet w (fst (AsyncWebSocket.read_handler error w)).
Proof.
  unfold AsyncWebSocket.read_handler. set (w1 := w <| io_pending := false |>).
  assert (Hq : quiet w w1) by by split. destruct (op_done w1); [done|].
  destruct error as [e|]; [|done]. etrans; [exact Hq|].
  destruct (is_clean_cancellation _ _); [apply piece_delivers|].
  case_bool_decide; apply finish_delivers.
Qed.

Lemma ws_read_over error w : over w = true →
  ending (snd (AsyncWebSocket.read_handler error w)) ∨
  snd (AsyncWebSocket.read_handler error w) = AsyncWebSocket.Message true.
Proof.
  intros Ho. destruct (ws_read_section error w) as [_ Hs]. revert Hs.
  destruct (snd (AsyncWebSocket.read_handler error w)) as [|e| | |retire]; [by left..| | |].
  - by intros (_ & _ & Hs).
  - by intros (_ & Hs & _).
  - intros (_ & _ & Hs). right. by rewrite Hs.
Qed.

(** A section of the stream that only ends it. *)
Lemma closing_ws_step F :
  (∀ w, over w = true → quiet w (fst (F w))) → (∀ w, ending (snd (F w))) →
  closing_prog (step ← on_websocket AsyncWebSocket.Nothing F;
                continue_websocket config connection_generation step).
Proof.
  intros HF He t. split.
  - apply (closing_on_websocket AsyncWebSocket.Nothing F). intros w Ho. by apply quiet_closes; [apply HF|].
  - destruct (websocket (network t)) as [w|] eqn:Hw; [|done].
    exact (closing_continue_websocket (snd (F w)) (He w)).
Qed.

Lemma closing_receive_frame got_text payload :
  closing_prog (receive_frame config connection_generation got_text payload true).
Proof.
  unfold receive_frame. apply every_bind; [apply closing_call|]. intros received_at.
  destruct (AsyncWebSocket.frame_payload _ _ _) as [[text rx]|failure].
  - apply every_bind; [apply closing_message|]. intros accepted. apply closing_ws_step.
    + intros w _. destruct accepted; [apply piece_delivers|apply retire_quiet].
    + intros w. destruct accepted; [apply failure_ending|done].
  - apply closing_ws_step; [intros w _; apply finish_delivers|intros w; apply failure_ending].
Qed.

Lemma take_io_over {Stage R : Type} i (op : Operation Stage R) : over op = true → over (take_io i op) = true.
Proof. done. Qed.

Lemma called_websocket_io t w i stage error got_text payload :
  websocket (network t) = Some w → io_waits w !! i = Some stage →
  advances t (fst (run
    (websocket_io_handler config connection_generation i stage error got_text payload) t)).
Proof.
  intros Hw Hi. unfold websocket_io_handler.
  apply (advances_websocket t w _ _ _ (take_io i w)); [done|by eapply take_io_waits|done|].
  intros Ho.
  assert (Hstep : ∀ r, quiet (take_io i w) (fst r) →
    ending (snd r) ∨ snd r = AsyncWebSocket.Message true →
    quiet (take_io i w) (fst r) ∧ closing_prog match snd r with
      | AsyncWebSocket.Message retire =>
          receive_frame config connection_generation got_text payload retire
      | _ => continue_websocket config connection_generation (snd r) end).
  { intros [w' step] Hq He. split; [done|]. cbn [fst snd] in *.
    destruct He as [He| ->]; [|apply closing_receive_frame].
    destruct step; try done; by apply closing_continue_websocket. }
  assert (Hio : ∀ stage, quiet (take_io i w) (fst (AsyncWebSocket.io_handler stage error (take_io i w))) ∧
    ending (snd (AsyncWebSocket.io_handler stage error (take_io i w)))).
  { intros st. by apply ws_io_quiet. }
  destruct stage; [apply Hstep; [|left]; apply Hio..|].
  apply Hstep; [apply ws_read_quiet|]. by apply ws_read_over.
Qed.

Lemma called_depth_io t g i stage error response :
  depth_request (network t) = Some g → io_waits g !! i = Some stage →
  advances t (fst (run (depth_io_handler config connection_generation i stage error response) t)).
Proof.
  intros Hg Hi. unfold depth_io_handler.
  apply (advances_depth t g _ _ _ (take_io i g)); [done|by eapply take_io_waits|done| |].
  - intros Ho. destruct stage; first [apply get_read_quiet|by apply get_io_quiet].
  - destruct (snd _); [apply closing_continue_depth..|].
    apply every_bind; [apply closing_call|]. intros received_at.
    apply every_bind; [|intros step; apply closing_continue_depth].
    apply closing_on_depth. intros g' Ho. apply quiet_closes; [apply response_quiet|done].
Qed.

(** Every handler Asio may call leaves fewer to come. *)
Lemma called_advances t t' p :
  handler_called config connection_generation t t' p → advances t (fst (run p t')).
Proof.
  intros H. destruct H as [t [|] rest Hposted|t Hbar|t w i stage error b payload Hw Hi
    |t w i g stage error Hw Hi|t g i stage error response Hg Hi|t g i gen stage error Hg Hi];
    cbn [posted_handler].
  - intros [_ _ _ Hno]. destruct Hno. rewrite Hposted. constructor.
  - intros [H1 H2 H3 H4]. assert (Hrest : PostStartWebSocket ∉ rest).
    { intros Hin. apply H4. rewrite Hposted. by apply list_elem_of_further. }
    unfold to_come. rewrite Hposted. simpl.
    destruct (network_clean_cancel_requested (network t)); simpl; (split; [by split|lia]).
  - intros [H1 H2 H3 H4]. unfold barrier_handler. rewrite run_modify. cbn [fst].
    rewrite released_same by done. unfold to_come. rewrite Hbar. simpl. split; [by split|lia].
  - by apply (called_websocket_io t w).
  - unfold websocket_timer_handler.
    apply (advances_websocket t w _ _ _ (take_timer i w)); [done|by eapply take_timer_waits|done|].
    intros Ho. split; [apply (timer_delivers g stage error (take_timer i w))|].
    apply closing_continue_websocket, failure_ending.
  - by apply (called_depth_io t g).
  - unfold depth_timer_handler.
    apply (advances_depth t g _ _ _ (take_timer i g)); [done|by eapply take_timer_waits|done| |].
    + intros Ho. apply (timer_delivers gen stage error (take_timer i g)).
    + apply closing_continue_depth.
Qed.
End Handlers.

Section Ends.
Context {S : Type} `{TW : !TransportWorld S}.
Context (config : BinanceTransportConfig) (connection_generation : Z).
Context (world_move : S → S → Prop).
Abbreviation State := (Transport (Taped S)).
Abbreviation network_steps := (network_step config connection_generation).
Implicit Types (t : State).

(** Released states: after the first failure, and after the barrier of the shutdown. *)
Lemma released_closing t :
  thread_ok config connection_generation t NtIdle →
  is_Some (to_terminal_error (observation t)) ∨ shut (network t) = true → closing t.
Proof.
  intros [(f & l & s & a & [G1 G2 [G3 G4 G5 G6 G7] G8 G9] & _) Hp] Hr.
  assert (Hq : quiesced (network t)).
  { apply G9. destruct Hr as [He|Hs]; [left; by apply G2|by right]. }
  split; [done|intros w Hw; by apply (G3 w Hw), Hq|intros g Hg; by apply (G4 g Hg), Hq|].
  intros Hin. destruct (Hp Hin) as ((_ & _ & Hcl & _ & Hn) & _).
  destruct Hr as [[e He]|Hs]; [congruence|]. unfold shut in Hs. by rewrite Hcl in Hs.
Qed.

(** While handlers are held, Asio may call one. *)
Lemma held_called t :
  handlers_held t ≠ 0 → ∃ t' p, handler_called config connection_generation t t' p.
Proof.
  unfold handlers_held. intros Hh.
  destruct (posted t) as [|h rest] eqn:Hp; [|by do 2 eexists; apply (call_posted _ _ t h rest)].
  destruct (barrier_waiting (network t)) eqn:Hb; [by do 2 eexists; apply call_barrier|].
  assert (Hwaits : ∀ Stage R (op : Operation Stage R), waits op ≠ 0 →
    (∃ stage, io_waits op !! 0 = Some stage) ∨ ∃ x, timer_waits op !! 0 = Some x).
  { intros Stage R op Hw. unfold waits in Hw. destruct (io_waits op) as [|stage r] eqn:Hi.
    - right. destruct (timer_waits op) as [|x r]; [done|by exists x].
    - left. by exists stage. }
  destruct (websocket (network t)) as [w|] eqn:Hw.
  - destruct (decide (waits w = 0)) as [Hz|Hz].
    + destruct (depth_request (network t)) as [g|] eqn:Hg; [|simpl in Hh; lia].
      simpl in Hh. destruct (Hwaits _ _ g) as [[stage Hi]|[[gen stage] Hi]]; [lia| |].
      * do 2 eexists. by apply (call_depth_io _ _ t g 0 stage None (MkHttpResponse 0 None "")).
      * do 2 eexists. by apply (call_depth_timer _ _ t g 0 gen stage None).
    + destruct (Hwaits _ _ w Hz) as [[stage Hi]|[[gen stage] Hi]].
      * do 2 eexists. by apply (call_websocket_io _ _ t w 0 stage None true "").
      * do 2 eexists. by apply (call_websocket_timer _ _ t w 0 gen stage None).
  - destruct (depth_request (network t)) as [g|] eqn:Hg; [|simpl in Hh; lia].
    simpl in Hh. destruct (Hwaits _ _ g) as [[stage Hi]|[[gen stage] Hi]]; [lia| |].
    + do 2 eexists. by apply (call_depth_io _ _ t g 0 stage None (MkHttpResponse 0 None "")).
    + do 2 eexists. by apply (call_depth_timer _ _ t g 0 gen stage None).
Qed.

(** A handler runs to its end. *)
Lemma inevitably_handler P (p : prog State ()) t :
  inevitably network_steps P (fst (run p t), NtIdle) → inevitably network_steps P (t, NtRunning p).
Proof.
  revert t. induction p as [[]|f k IH]; intros t H.
  - apply inevitably_later; [eexists; apply net_return|]. intros w Hw. by inversion Hw; subst.
  - apply inevitably_later; [eexists; apply net_section|]. intros w Hw.
    inversion Hw as [|t1 f1 k1| |]; subst. by apply IH.
Qed.

Lemma closing_ends t :
  closing t → inevitably network_steps (λ w, snd w = NtEnded) (t, NtIdle).
Proof.
  remember (to_come t) as m eqn:Hm. revert t Hm.
  induction m as [m IH] using lt_wf_ind. intros t -> Hc. apply inevitably_later.
  - destruct (decide (handlers_held t = 0)) as [Hz|Hz].
    + eexists. apply net_exit; [|done]. apply Hc.
    + destruct (held_called t Hz) as (t' & p & Hp). eexists. by apply net_call.
  - intros [t' n'] Hstep. inversion Hstep as [t1 t2 p Hcall| | |]; subst; [|by apply inevitably_now].
    destruct (called_advances _ _ _ _ _ Hcall Hc) as [Hc' Hlt].
    apply inevitably_handler. by eapply IH.
Qed.

(** The handler under way, run to its end. *)
Lemma running_idle (p : prog State ()) t :
  thread_ok config connection_generation t (NtRunning p) →
  thread_ok config connection_generation (fst (run p t)) NtIdle ∧
  ∀ e, to_terminal_error (observation t) = Some e →
       to_terminal_error (observation (fst (run p t))) = Some e.
Proof.
  revert t. induction p as [[]|f k IH]; intros t Hok.
  - split; [|done]. by apply (thread_network_step _ _ _ _ _ _ (net_return _ _ t)).
  - destruct (Hok) as (Hk & _). destruct (Hk t) as [Hf _].
    apply (thread_network_step _ _ _ _ _ _ (net_section _ _ t f k)) in Hok.
    destruct (IH t (f t) Hok) as [H1 H2]. split; [done|]. intros e He. by apply H2, Hf.
Qed.

(** C19: A network thread whose work is released ends: once a failure was recorded, or
    once the barrier of [stop]'s clean shutdown has run, [io_context::run] returns after
    finitely many handlers, whatever Asio answers them and in whatever order it calls
    them; the join of [stop] waits for nothing else. *)
Theorem released_network_thread_ends coordinated t n c :
  transport_reached config connection_generation world_move coordinated (t, n, c) →
  is_Some (to_terminal_error (observation t)) ∨
  n = NtIdle ∧ network_clean_cancel_requested (network t) = true ∧
  barrier_waiting (network t) = false →
  inevitably network_steps (λ w, snd w = NtEnded) (t, n).
Proof.
  intros H%threads_reached Hr. pose proof (tr_thread _ _ _ _ _ _ H) as Hok.
  destruct Hr as [[e He]|(-> & Hc & Hb)].
  - destruct n as [| |p|]; [| | |by apply inevitably_now].
    + destruct Hok as (_ & (_ & _ & _ & _ & Hn) & _). congruence.
    + apply closing_ends, released_closing; [done|]. left. by eexists.
    + apply inevitably_handler. destruct (running_idle p t Hok) as [Hok' Hkeep].
      apply closing_ends, released_closing; [done|]. left. eexists. by apply Hkeep.
  - apply closing_ends, released_closing; [done|]. right. unfold shut. by rewrite Hc, Hb.
Qed.

(** Without the coordination of [start] and [stop]: a [start] between the two sections of
    a [stop] leaves a network thread that the stopped transport neither cancels nor
    joins. *)
Lemma start_during_stop_leaks_the_network_thread t :
  transport_reached config connection_generation world_move false (t, NtNone, NotStopping) →
  to_stopped (observation t) = false →
  ∃ t', transport_reached config connection_generation world_move false (t', NtIdle, NotStopping) ∧
    to_stopped (observation t') = true ∧ work_guard (network t') = true ∧
    posted t' = [PostStartWebSocket] ∧ stop_begin t' = (t', StopReturns).
Proof.
  intros H Hs. pose proof (threads_reached _ _ _ _ _ _ _ H) as [(_ & _ & Hp) Hsd Hpr _ _].
  destruct H as (w0 & H0 & Hc & Hstar).
  set (t1 := fst (stop_begin t)).
  assert (H1 : stop_begin t = (t1, StopProceeds false)).
  { unfold t1, stop_begin. by rewrite Hs, Hpr, Hsd. }
  assert (Hw1 : t1 = t <| stop_in_progress := true |> <| stop_requested := true |>
                        <| observation ::= λ o, o <| to_running := false |> |>).
  { unfold t1, stop_begin. by rewrite Hs, Hpr. }
  set (t2 := fst (start_begin t1)).
  assert (H2 : start_begin t1 = (t2, None)).
  { unfold t2, start_begin. rewrite Hw1. simpl. by rewrite Hs, Hsd. }
  assert (Hw2 : t2 = t1 <| observation ::= λ o, o <| to_started := true |> |>
                        <| network ::= λ n, n <| work_guard := true |> |>
                        <| posted ::= λ p, p ++ [PostStartWebSocket] |>).
  { unfold t2, start_begin. rewrite Hw1. simpl. by rewrite Hs, Hsd. }
  exists (stop_end t2). split.
  - exists w0. split_all; [done|done|]. eapply star_trans; [exact Hstar|].
    eapply star_step; [by apply ts_stop, H1|].
    eapply star_step; [by apply ts_start; [exact H2|]|].
    apply star_one. apply ts_stop_idle.
  - rewrite Hw2, Hw1. split_all; [done|done| |done]. simpl. by rewrite Hp.
Qed.
End Ends.

(** ** Witnesses: a connection whose snapshot fails while a frame is being read *)

#[local] Instance sample_transport_world : TransportWorld () := {|
  tw_clock s := (s, inl (MkClockSample 7 8));
  tw_configure_tls _ s := (s, None);
  tw_allocate_event s := (s, true);
  tw_publish _ _ s := (s, Returned SinkContinue);
  tw_submit_depth_update _ _ s := (s, ArAccepted);
  tw_submit_snapshot _ _ s := (s, ArAccepted);
  tw_submit_snapshot_failure s := (s, ArAccepted);
  tw_submit_transport_failure s := (s, ArAccepted) |}.

Definition sample_connection : BinanceTransportConfig := MkTransportConfig
  "rest" "443" "/depth" "stream" "443" "/ws" "sample-g" "request" "agent" DepthWithEvents true
  (Some (λ _ _ _, inl (FrameEvent (sample_depth 1 2 7)))) None
  (Some (λ _ _ _, inr (protocol_error InvalidJson "body" "none"))).

(** The handlers of the sample, as Asio calls them: the first posted, the barrier, the
    I/O handler of an operation, and the timers, cancelled. *)
Inductive Fired : Type :=
| FirePosted
| FireBarrier
| FireWebSocket (error : option IoError)
| FireDepth (error : option IoError)
| FireWebSocketTimer
| FireDepthTimer.

Abbreviation SampleState := (Transport (Taped ())).

Definition fire (e : Fired) (t : SampleState) : option (SampleState * prog SampleState ()) :=
  match e with
  | FirePosted =>
      match posted t with
      | h :: rest => Some (t <| posted := rest |>, posted_handler sample_connection 1 h)
      | [] => None
      end
  | FireBarrier => if barrier_waiting (network t) then Some (t, barrier_handler) else None
  | FireWebSocket error =>
      w ← websocket (network t); stage ← io_waits w !! 0;
      Some (t, websocket_io_handler sample_connection 1 0 stage error true "frame")
  | FireDepth error =>
      g ← depth_request (network t); stage ← io_waits g !! 0;
      Some (t, depth_io_handler sample_connection 1 0 stage error (MkHttpResponse 200 None "body"))
  | FireWebSocketTimer =>
      w ← websocket (network t); armed ← timer_waits w !! 0;
      Some (t, websocket_timer_handler sample_connection 1 0 (fst armed) (snd armed)
                 (Some (MkIoError OperationAborted "cancelled")))
  | FireDepthTimer =>
      g ← depth_request (network t); armed ← timer_waits g !! 0;
      Some (t, depth_timer_handler sample_connection 1 0 (fst armed) (snd armed)
                 (Some (MkIoError OperationAborted "cancelled")))
  end.

Lemma fire_called e t t' p :
  fire e t = Some (t', p) → handler_called sample_connection 1 t t' p.
Proof.
  destruct e as [| |error|error| |]; simpl.
  - destruct (posted t) as [|h rest] eqn:Hp; [done|]. intros [= <- <-]. by apply call_posted.
  - destruct (barrier_waiting _) eqn:Hb; [|done]. intros [= <- <-]. by apply call_barrier.
  - destruct (websocket (network t)) as [w|] eqn:Hw; [|done]. simpl.
    destruct (io_waits w) as [|stage rest] eqn:Hi; [done|]. intros [= <- <-].
    apply (call_websocket_io _ _ t w 0); [done|by rewrite Hi].
  - destruct (depth_request (network t)) as [g|] eqn:Hg; [|done]. simpl.
    destruct (io_waits g) as [|stage rest] eqn:Hi; [done|]. intros [= <- <-].
    apply (call_depth_io _ _ t g 0); [done|by rewrite Hi].
  - destruct (websocket (network t)) as [w|] eqn:Hw; [|done]. simpl.
    destruct (timer_waits w) as [|[gen stage] rest] eqn:Hi; [done|]. intros [= <- <-].
    apply (call_websocket_timer _ _ t w 0); [done|by rewrite Hi].
  - destruct (depth_request (network t)) as [g|] eqn:Hg; [|done]. simpl.
    destruct (timer_waits g) as [|[gen stage] rest] eqn:Hi; [done|]. intros [= <- <-].
    apply (call_depth_timer _ _ t g 0); [done|by rewrite Hi].
Qed.

Fixpoint perform (es : list Fired) (t : SampleState) : SampleState :=
  match es with
  | [] => t
  | e :: es => match fire e t with Some (t', p) => perform es (fst (run p t')) | None => t end
  end.

Definition sample_move (s s' : ()) : Prop := False.
Abbreviation sample_step := (transport_step sample_connection 1 (taped_move sample_move) true).
Abbreviation sample_reached := (transport_reached sample_connection 1 sample_move true).

Lemma run_steps (p : prog SampleState ()) t c :
  star sample_step (t, NtRunning p, c) (fst (run p t), NtIdle, c).
Proof.
  revert t. induction p as [[]|f k IH]; intros t.
  - apply star_one, ts_network, net_return.
  - eapply star_step; [apply ts_network, net_section|apply IH].
Qed.

Lemma perform_reached es t c : sample_reached (t, NtIdle, c) → sample_reached (perform es t, NtIdle, c).
Proof.
  revert t. induction es as [|e es IH]; intros t Ht; [done|]. simpl.
  destruct (fire e t) as [[t' p]|] eqn:Hf; [|done]. apply IH.
  destruct Ht as (w0 & H0 & Hc & Hstar). exists w0. split_all; [done|done|].
  eapply star_trans; [exact Hstar|].
  eapply star_step; [|apply run_steps]. by apply ts_network, net_call, fire_called with e.
Qed.

Definition sample_made : SampleState :=
  match make_transport sample_connection 1 (MkTaped () []) with
  | Some t => t
  | None => MkTransport (MkTransportObservation false false false false false false false false
      0 0 0 None DepthOnly "" 0 None) false false [] (MkNetwork false None false None false false false)
      (MkTaped () [])
  end.

Lemma sample_made_reached : sample_reached (sample_made, NtNone, NotStopping).
Proof.
  exists (sample_made, NtNone, NotStopping). split_all; [|by vm_compute|constructor].
  exists (MkTaped () []). by vm_compute.
Qed.

(** Started; the stream connects and reads a frame, the snapshot fails, and a frame that
    was ready is read. *)
Definition sample_run : SampleState :=
  perform ([FirePosted] ++ replicate 5 (FireWebSocket None)
           ++ [FireDepth (Some (MkIoError OtherError "refused")); FireWebSocket None])
    (fst (start_begin sample_made)).

Lemma sample_run_reached : sample_reached (sample_run, NtIdle, NotStopping).
Proof.
  apply perform_reached. destruct sample_made_reached as (w0 & H0 & Hc & Hstar).
  exists w0. split_all; [done|done|]. eapply star_trans; [exact Hstar|].
  apply star_one, ts_start; by vm_compute.
Qed.

(** Then stopped: the posted shutdown, its barrier, the timers left. *)
Definition sample_ended : SampleState :=
  perform ([FirePosted; FireBarrier; FireDepthTimer] ++ replicate 4 FireWebSocketTimer)
    (stop_post (fst (stop_begin sample_run))).
Definition sample_stopped : SampleState := stop_end sample_ended.

Lemma sample_stopped_reached : sample_reached (sample_stopped, NtEnded, NotStopping).
Proof.
  assert (H : sample_reached (sample_ended, NtIdle, Joining)).
  { apply perform_reached. destruct sample_run_reached as (w0 & H0 & Hc & Hstar).
    exists w0. split_all; [done|done|]. eapply star_trans; [exact Hstar|].
    eapply star_step; [apply (ts_stop _ _ _ _ _ (fst (stop_begin sample_run)) _ true); by vm_compute|].
    apply star_one, ts_stop_post. }
  destruct H as (w0 & H0 & Hc & Hstar). exists w0. split_all; [done|done|].
  assert (Hexit : network_step sample_connection 1 (sample_ended, NtIdle) (sample_ended, NtEnded)).
  { apply net_exit; by vm_compute. }
  refine (star_trans _ _ _ _ Hstar _).
  refine (star_step _ _ _ _ (ts_network _ _ _ _ _ _ _ _ Joining Hexit) _).
  exact (star_one _ _ _ (ts_stop_joined _ _ _ _ sample_ended)).
Qed.

Lemma stopped_transport_is_quiet_witness :
  to_stopped (observation sample_stopped) = true ∧ stop_begin sample_stopped = (sample_stopped, StopReturns) ∧
  length (calls (world sample_stopped)) = 5 ∧
  ((NtEnded : NetworkThread (S := Taped ())) = NtNone ∨ (NtEnded : NetworkThread (S := Taped ())) = NtEnded).
Proof.
  split; [by vm_compute|]. split; [by vm_compute|]. split; [by vm_compute|].
  assert (Hs : to_stopped (observation sample_stopped) = true) by by vm_compute.
  exact (proj1 (stopped_transport_is_quiet sample_connection 1 sample_move sample_stopped NtEnded
    NotStopping _ sample_stopped_reached Hs (star_refl _ _))).
Defined.


Lemma first_failure_is_reported_once_witness :
  length (calls (world sample_run)) = 5 ∧ failures (calls (world sample_run)) ≤ 1.
Proof.
  split; [by vm_compute|].
  exact (proj1 (first_failure_is_reported_once sample_connection 1 sample_move true _ _ _
    sample_run_reached)).
Defined.

Lemma released_network_thread_ends_witness :
  handlers_held sample_run = 5 ∧
  inevitably (network_step sample_connection 1) (λ w, snd w = NtEnded) (sample_run, NtIdle).
Proof.
  split; [by vm_compute|].
  apply (released_network_thread_ends sample_connection 1 sample_move true sample_run NtIdle
    NotStopping sample_run_reached).
  left. vm_compute. by eexists.
Defined.
