(* ===== verification/Registry.v ===== *)
(** * Registry: the configured products and the services found by their key

    Models [src/src/g11/market_key.hpp] and [src/src/g11/market_registry.hpp] and
    [.cpp]: the canonical order of market keys and the immutable registry of the
    services of each product.  Services are owned elsewhere: an entry holds their
    addresses, [None] for a null pointer.  [std::sort] is [merge_sort]; it may order
    entries of equal keys differently, and those are refused.  An exception is its
    message. *)

From Stdlib Require Import Ascii.
From stdpp Require Import sorting.
From S2P Require Import Prelude Wire Text.

Open Scope gateway_scope.

(** ** Market keys *)

Record MarketKey : Type := MkMarketKey {
  key_venue : Z;
  key_market : Z;
  key_symbol : string
}.

#[export] Instance MarketKey_eq_dec : EqDecision MarketKey.
Proof. solve_decision. Defined.

(** [std::lexicographical_compare] of the symbols as unsigned bytes. *)
Fixpoint symbol_less (left right : string) : bool :=
  match left, right with
  | _, EmptyString => false
  | EmptyString, String _ _ => true
  | String a left', String b right' =>
      if (code a <? code b)%Z then true
      else if (code b <? code a)%Z then false
      else symbol_less left' right'
  end.

(** [MarketKeyLess] *)
Definition key_less (left right : MarketKey) : bool :=
  if negb (bool_decide (key_venue left = key_venue right))
  then (key_venue left <? key_venue right)%Z
  else if negb (bool_decide (key_market left = key_market right))
  then (key_market left <? key_market right)%Z
  else symbol_less (key_symbol left) (key_symbol right).

Section Keys.
Context `{W : WireEnums}.

Definition spot_btcusdt_key : MarketKey := MkMarketKey VENUE_BINANCE MARKET_SPOT "BTCUSDT".
Definition usdm_btcusdt_key : MarketKey :=
  MkMarketKey VENUE_BINANCE MARKET_USD_M_PERPETUAL "BTCUSDT".
End Keys.

(** ** The order of the keys *)

Lemma code_inj a b : code a = code b → a = b.
Proof.
  unfold code. intros H. rewrite <- (ascii_N_embedding a), <- (ascii_N_embedding b). f_equal. lia.
Qed.

Lemma symbol_less_irrefl s : symbol_less s s = false.
Proof. induction s; simpl; [done|]. by rewrite Z.ltb_irrefl. Qed.

Lemma symbol_less_trans a b c :
  symbol_less a b = true → symbol_less b c = true → symbol_less a c = true.
Proof.
  revert b c. induction a as [|x a IH]; intros [|y b] [|z c]; simpl; try done.
  destruct (Z.ltb_spec (code x) (code y)), (Z.ltb_spec (code y) (code x)),
    (Z.ltb_spec (code y) (code z)), (Z.ltb_spec (code z) (code y)),
    (Z.ltb_spec (code x) (code z)), (Z.ltb_spec (code z) (code x)); try done; try lia.
  apply IH.
Qed.

Lemma symbol_less_total a b : a = b ∨ symbol_less a b = true ∨ symbol_less b a = true.
Proof.
  revert b. induction a as [|x a IH]; intros [|y b]; simpl; [by left|by right; left|by right; right|].
  destruct (Z.ltb_spec (code x) (code y)), (Z.ltb_spec (code y) (code x)); auto; try lia.
  assert (x = y) as -> by (apply code_inj; lia).
  destruct (IH b) as [->|[H1|H1]]; auto.
Qed.

(** [read_key_less] exposes the two integer comparisons. *)
Ltac read_key_less :=
  unfold key_less in *;
  repeat match goal with
    | H : context [bool_decide (?x = ?y)] |- _ => destruct (decide (x = y)) as [?|?];
        [rewrite (bool_decide_eq_true_2 (x = y)) in * by done
        |rewrite (bool_decide_eq_false_2 (x = y)) in * by done]
    | |- context [bool_decide (?x = ?y)] => destruct (decide (x = y)) as [?|?];
        [rewrite (bool_decide_eq_true_2 (x = y)) in * by done
        |rewrite (bool_decide_eq_false_2 (x = y)) in * by done]
    end;
  cbn [negb] in *; rewrite ?Z.ltb_lt in *.

Lemma key_less_irrefl k : key_less k k = false.
Proof. read_key_less; try done. apply symbol_less_irrefl. Qed.

Lemma key_less_trans a b c :
  key_less a b = true → key_less b c = true → key_less a c = true.
Proof.
  intros H1 H2. read_key_less; try congruence; try lia. by eapply symbol_less_trans.
Qed.

Lemma key_less_total a b : a = b ∨ key_less a b = true ∨ key_less b a = true.
Proof.
  destruct a as [v m s], b as [v' m' s']. read_key_less; simpl in *; subst; try done; try lia.
  destruct (symbol_less_total s s') as [->|[?|?]]; auto.
Qed.

(** ** Sorting by key *)

Section ByKey.
Context {A : Type} (key : A → MarketKey).
Implicit Types (l : list A).

Definition before (left right : A) : Prop := key_less (key left) (key right) = true.

(** What [std::sort] with this comparison may leave adjacent. *)
Definition not_after (left right : A) : Prop := ¬ before right left.

#[export] Instance before_dec a b : Decision (before a b).
Proof. unfold before. apply _. Defined.
#[export] Instance not_after_dec a b : Decision (not_after a b).
Proof. unfold not_after. apply _. Defined.

Definition same_key (left right : A) : bool := bool_decide (key left = key right).

(** [std::sort(..., MarketKeyLess)] *)
Definition sort_by_key l : list A := merge_sort not_after l.

(** [std::adjacent_find(...) != end()] with equality of keys. *)
Fixpoint adjacent_duplicate l : bool :=
  match l with
  | a :: (b :: _) as rest => same_key a b || adjacent_duplicate rest
  | _ => false
  end.

#[export] Instance before_trans : Transitive before.
Proof. intros a b c. apply key_less_trans. Qed.

#[export] Instance before_antisymm : AntiSymm (=) before.
Proof.
  intros a b H1 H2. unfold before in *.
  pose proof (key_less_trans _ _ _ H1 H2) as H. by rewrite key_less_irrefl in H.
Qed.

#[export] Instance not_after_total : Total not_after.
Proof.
  intros a b. unfold not_after, before.
  destruct (key_less (key b) (key a)) eqn:H1; [|by left].
  right. intros H2. pose proof (key_less_trans _ _ _ H1 H2) as H.
  by rewrite key_less_irrefl in H.
Qed.

#[export] Instance not_after_trans : Transitive not_after.
Proof.
  intros a b c. unfold not_after, before. intros H1 H2 H3.
  destruct (key_less_total (key b) (key a)) as [He|[?|H]]; [|done|].
  - by rewrite <- He in H3.
  - by destruct (H2 (key_less_trans _ _ _ H3 H)).
Qed.

(** Elements in this order with different keys are in the strict order. *)
Lemma not_after_before a b : not_after a b → key a ≠ key b → before a b.
Proof. intros H Hk. by destruct (key_less_total (key a) (key b)) as [?|[?|?]]. Qed.

Lemma sort_by_key_perm l : sort_by_key l ≡ₚ l.
Proof. apply merge_sort_Permutation. Qed.

Lemma sort_by_key_sorted l : StronglySorted not_after (sort_by_key l).
Proof. apply (StronglySorted_merge_sort not_after). Qed.

Lemma sorted_keys_nodup l : StronglySorted before l → NoDup (key <$> l).
Proof.
  induction 1 as [|e l Hs IH He]; simpl; constructor; [|done].
  intros (x & Hx & Hin)%list_elem_of_fmap. rewrite Forall_forall in He.
  specialize (He x Hin). unfold before in He. by rewrite Hx, key_less_irrefl in He.
Qed.

(** Where elements are sorted, distinct keys are strictly increasing. *)
Lemma sorted_strict l :
  StronglySorted not_after l → NoDup (key <$> l) → StronglySorted before l.
Proof.
  induction 1 as [|e l Hs IH He]; intros Hk; constructor.
  - apply IH. by apply NoDup_cons in Hk as [_ ?].
  - apply NoDup_cons in Hk as [Hk _]. rewrite Forall_forall in He |- *. intros x Hx.
    apply not_after_before; [by apply He|]. intros Heq. destruct Hk. rewrite Heq.
    by apply list_elem_of_fmap_2.
Qed.

(** Sorting elements of distinct keys puts them in the strict order of their keys. *)
Lemma sort_strict l : NoDup (key <$> l) → StronglySorted before (sort_by_key l).
Proof.
  intros Hk. apply sorted_strict; [apply sort_by_key_sorted|].
  by rewrite (sort_by_key_perm l).
Qed.

(** Where elements are sorted, comparing neighbours finds every duplicate. *)
Lemma adjacent_duplicate_spec l :
  StronglySorted not_after l → adjacent_duplicate l = false ↔ NoDup (key <$> l).
Proof.
  induction 1 as [|a [|b l] Hs IH Ha]; simpl.
  - split; [constructor|done].
  - split; [intros _; apply NoDup_singleton|done].
  - rewrite orb_false_iff. unfold same_key at 1. rewrite bool_decide_eq_false.
    change (key b :: (key <$> l)) with (key <$> b :: l).
    rewrite NoDup_cons, <- IH. split; intros [H1 H2]; (split; [|done]).
    + intros Hk. change (key a ∈ key <$> b :: l) in Hk.
      apply list_elem_of_fmap in Hk as (x & Hx & Hin). apply IH in H2.
      pose proof (sorted_strict _ Hs H2) as Hb.
      assert (Hab : before a b) by (apply not_after_before; [by inversion Ha|done]).
      assert (before a x) as Hax.
      { apply elem_of_cons in Hin as [->|Hin]; [done|].
        apply StronglySorted_inv in Hb as [_ Hb]. rewrite Forall_forall in Hb.
        etrans; [exact Hab|by apply Hb]. }
      unfold before in Hax. by rewrite Hx, key_less_irrefl in Hax.
    + intros Heq. apply H1. rewrite Heq. simpl. by left.
Qed.

Lemma sort_adjacent_duplicate l :
  adjacent_duplicate (sort_by_key l) = false ↔ NoDup (key <$> l).
Proof.
  rewrite adjacent_duplicate_spec by apply sort_by_key_sorted. by rewrite (sort_by_key_perm l).
Qed.

(** The sorted permutation of elements of distinct keys is unique. *)
Lemma sort_by_key_unique l r :
  NoDup (key <$> l) → r = sort_by_key l ↔ r ≡ₚ l ∧ StronglySorted before r.
Proof.
  intros Hk. split.
  - intros ->. split; [apply sort_by_key_perm|by apply sort_strict].
  - intros [Hp Hs]. eapply StronglySorted_unique; [exact before_antisymm|done|by apply sort_strict|].
    by rewrite Hp, sort_by_key_perm.
Qed.
End ByKey.

(** ** Registry *)

Definition kMaximumConfiguredProducts : nat := 8.

Record MarketServices : Type := MkMarketServices {
  services_key : MarketKey;
  services_runtime : option Z;
  services_recovery : option Z;
  services_event_publication : option Z
}.

Definition null_service (entry : MarketServices) : bool :=
  bool_decide (services_runtime entry = None) || bool_decide (services_recovery entry = None)
  || bool_decide (services_event_publication entry = None).

Definition aliases (entry earlier : MarketServices) : bool :=
  bool_decide (services_runtime earlier = services_runtime entry)
  || bool_decide (services_recovery earlier = services_recovery entry)
  || bool_decide (services_event_publication earlier = services_event_publication entry).

(** The loop of the constructor; [earlier] are the entries already checked. *)
Fixpoint check_entries (earlier rest : list MarketServices) : unit + string :=
  match rest with
  | [] => inl tt
  | entry :: rest =>
      fail_if match last earlier with Some previous => same_key services_key previous entry | None => false end
        with "configured registry keys must be unique" ;;
      fail_if null_service entry with "configured registry services must be non-null" ;;
      fail_if existsb (aliases entry) earlier
        with "configured registry services must not alias between products" ;;
      check_entries (earlier ++ [entry]) rest
  end.

(** [MarketRuntimeRegistry::MarketRuntimeRegistry]: its [entries_]. *)
Definition make_registry (entries : list MarketServices) : list MarketServices + string :=
  fail_if bool_decide (entries = [])
          || bool_decide (kMaximumConfiguredProducts < length entries)
    with "configured registry requires between one and eight entries" ;;
  let entries := sort_by_key services_key entries in
  let? _ := check_entries [] entries in
  inl entries.

(** [MarketRuntimeRegistry::find] *)
Definition find_services (entries : list MarketServices) (key : MarketKey)
  : option MarketServices :=
  snd <$> list_find (λ entry, services_key entry = key) entries.

(** ** What the registry accepts *)

(** The entries a registry can be made of. *)
Record registrable (entries : list MarketServices) : Prop := {
  reg_size : 1 ≤ length entries ≤ kMaximumConfiguredProducts;
  reg_keys : NoDup (services_key <$> entries);
  reg_services : Forall (λ e, null_service e = false) entries;
  reg_runtimes : NoDup (services_runtime <$> entries);
  reg_recoveries : NoDup (services_recovery <$> entries);
  reg_publications : NoDup (services_event_publication <$> entries)
}.

Lemma registrable_perm l l' : l ≡ₚ l' → registrable l → registrable l'.
Proof.
  intros Hp [Hn Hk Hs Hr Hc He]. split.
  - by rewrite <- Hp.
  - by rewrite <- Hp.
  - by rewrite <- Hp.
  - by rewrite <- Hp.
  - by rewrite <- Hp.
  - by rewrite <- Hp.
Qed.

Lemma existsb_aliases_false e l :
  existsb (aliases e) l = false ↔
  services_runtime e ∉ (services_runtime <$> l) ∧
  services_recovery e ∉ (services_recovery <$> l) ∧
  services_event_publication e ∉ (services_event_publication <$> l).
Proof.
  induction l as [|x l IH]; simpl; [split; [intros _; split_all; apply not_elem_of_nil|done]|].
  rewrite orb_false_iff, IH, !not_elem_of_cons. unfold aliases.
  rewrite !orb_false_iff, !bool_decide_eq_false. split; intros; split_all; try intros ?; by intuition.
Qed.

Lemma nodup_fmap_snoc {A} (f : MarketServices → A) l e :
  NoDup (f <$> l ++ [e]) ↔ NoDup (f <$> l) ∧ f e ∉ (f <$> l).
Proof.
  rewrite fmap_app, NoDup_app. simpl. split.
  - intros (H1 & H2 & _). split; [done|]. intros H. eapply H2; [exact H|]. by left.
  - intros (H1 & H2). split_all; [done| |by apply NoDup_singleton].
    intros x Hx ->%list_elem_of_singleton. done.
Qed.

(** Where entries are sorted, comparing neighbours is enough. *)
Lemma sorted_snoc_keys l e :
  StronglySorted (before services_key) l →
  StronglySorted (not_after services_key) (l ++ [e]) →
  match last l with Some previous => same_key services_key previous e | None => false end = false ↔
  StronglySorted (before services_key) (l ++ [e]).
Proof.
  intros Hl Hn. rewrite StronglySorted_app.
  destruct (last l) as [x|] eqn:Hx.
  - apply last_Some in Hx as [l' ->]. unfold same_key. rewrite bool_decide_eq_false. split.
    + intros Hk. split_all; [|done|repeat constructor].
      assert (Hxe : before services_key x e).
      { apply StronglySorted_app in Hn as (Hn & _ & _). apply not_after_before; [|done].
        apply Hn; [apply elem_of_app; right; by left|by left]. }
      intros y z Hy ->%list_elem_of_singleton.
      apply elem_of_app in Hy as [Hy| ->%list_elem_of_singleton]; [|done].
      apply StronglySorted_app in Hl as (Hl & _ & _).
      etrans; [apply Hl; [done|by left]|done].
    + intros (H & _ & _) Hk.
      assert (Hxe : before services_key x e) by (apply H; [apply elem_of_app; right; by left|by left]).
      unfold before in Hxe. by rewrite Hk, key_less_irrefl in Hxe.
  - apply last_None in Hx as ->. split; [|done]. intros _.
    split_all; [by intros ?? ?%not_elem_of_nil|constructor|repeat constructor].
Qed.

(** The entries a completed loop has seen. *)
Record checked (l : list MarketServices) : Prop := {
  ch_sorted : StronglySorted (before services_key) l;
  ch_services : Forall (λ e, null_service e = false) l;
  ch_runtimes : NoDup (services_runtime <$> l);
  ch_recoveries : NoDup (services_recovery <$> l);
  ch_publications : NoDup (services_event_publication <$> l)
}.

Lemma checked_nil : checked [].
Proof. split; constructor. Qed.

Lemma checked_prefix l l' : checked (l ++ l') → checked l.
Proof.
  intros [Hs Hn Hr Hc He]. rewrite fmap_app in Hr, Hc, He. split.
  - by eapply StronglySorted_app_1_l.
  - by apply Forall_app in Hn as [? _].
  - by apply NoDup_app in Hr as [? _].
  - by apply NoDup_app in Hc as [? _].
  - by apply NoDup_app in He as [? _].
Qed.

Lemma checked_snoc l e :
  checked l → StronglySorted (not_after services_key) (l ++ [e]) →
  checked (l ++ [e]) ↔
  match last l with Some previous => same_key services_key previous e | None => false end = false ∧
  null_service e = false ∧ existsb (aliases e) l = false.
Proof.
  intros [Hs Hn Hr Hc He] Hsorted.
  rewrite (sorted_snoc_keys l e Hs Hsorted), existsb_aliases_false. split.
  - intros [Hs' Hn' Hr' Hc' He']. rewrite nodup_fmap_snoc in Hr', Hc', He'.
    apply Forall_app in Hn' as [_ Hn']. split_all; try tauto. by inversion Hn'.
  - intros (H1 & H2 & H3 & H4 & H5). split; [done| | | |].
    + by apply Forall_snoc.
    + by apply nodup_fmap_snoc.
    + by apply nodup_fmap_snoc.
    + by apply nodup_fmap_snoc.
Qed.

Lemma check_entries_spec rest earlier :
  checked earlier → StronglySorted (not_after services_key) (earlier ++ rest) →
  check_entries earlier rest = inl tt ↔ checked (earlier ++ rest).
Proof.
  revert earlier. induction rest as [|e rest IH]; intros earlier Hch Hs; simpl.
  - rewrite app_nil_r. by split.
  - rewrite !fail_if_inl.
    replace (earlier ++ e :: rest) with ((earlier ++ [e]) ++ rest) in * by (by rewrite <- app_assoc).
    pose proof (checked_snoc earlier e Hch (StronglySorted_app_1_l _ _ _ Hs)) as Hsnoc. split.
    + intros (H1 & H2 & H3 & H4). apply IH; [|done|done]. by apply Hsnoc.
    + intros H. pose proof (checked_prefix _ _ H) as Hc.
      apply Hsnoc in Hc as (H1 & H2 & H3). split_all; [done..|].
      apply IH; [|done|done]. by eapply checked_prefix.
Qed.

(** What [make_registry] accepts and answers. *)
Lemma make_registry_iff (entries r : list MarketServices) :
  make_registry entries = inl r ↔
  registrable entries ∧ r ≡ₚ entries ∧ StronglySorted (before services_key) r.
Proof.
  unfold make_registry. rewrite fail_if_inl, sum_bind_inl.
  rewrite orb_false_iff, !bool_decide_eq_false.
  set (l := sort_by_key services_key entries).
  assert (Hp : l ≡ₚ entries) by apply sort_by_key_perm.
  assert (Hs : StronglySorted (not_after services_key) l) by apply sort_by_key_sorted.
  split.
  - intros ((Hne & Hle) & [] & Hc & [= <-]).
    apply (check_entries_spec l [] checked_nil Hs) in Hc. simpl in Hc.
    destruct Hc as [H1 H2 H3 H4 H5]. split_all; [|done|done].
    apply (registrable_perm l); [done|]. split; try done; [|by apply sorted_keys_nodup].
    rewrite Hp. destruct entries; [done|simpl in *; lia].
  - intros (Hr & Hrp & Hrs). pose proof Hr as [Hn Hk _ _ _ _].
    assert (r = l) as -> by (by apply sort_by_key_unique).
    split; [split; [|lia]|].
    { intros ->. simpl in Hn. lia. }
    exists tt. split; [|done]. apply (check_entries_spec l [] checked_nil Hs). simpl.
    apply (registrable_perm _ l) in Hr as [_ _ H2 H3 H4 H5]; [|done].
    split; done.
Qed.

(** Looking up a key in a registry. *)
Lemma find_services_spec entries key e :
  NoDup (services_key <$> entries) →
  find_services entries key = Some e ↔ e ∈ entries ∧ services_key e = key.
Proof.
  intros Hk. unfold find_services. split.
  - intros H. apply fmap_Some in H as ([i x] & H & ->).
    apply list_find_Some in H as (H & ? & _). split; [by eapply list_elem_of_lookup_2|done].
  - intros (Hin & <-). destruct (list_find _ entries) as [[i x]|] eqn:H.
    + apply list_find_Some in H as (Hx & Heq & _). simpl. f_equal.
      apply list_elem_of_lookup in Hin as [j Hj].
      assert (i = j) as ->; [|congruence].
      eapply NoDup_lookup; [exact Hk| |]; rewrite list_lookup_fmap; [by rewrite Hx|].
      rewrite Hj. simpl. by rewrite Heq.
    + apply list_find_None in H. rewrite Forall_forall in H. by destruct (H e Hin).
Qed.

Lemma registry_keys entries r : make_registry entries = inl r → NoDup (services_key <$> r).
Proof. intros (_ & _ & Hs)%make_registry_iff. by apply sorted_keys_nodup. Qed.

(** Whatever the order in which the products were configured, every key finds the
    same services, which are those configured for it. *)
Lemma registry_finds_what_was_configured (entries r : list MarketServices) key e :
  make_registry entries = inl r →
  find_services r key = Some e ↔ e ∈ entries ∧ services_key e = key.
Proof.
  intros Hr. rewrite find_services_spec by (by eapply registry_keys).
  apply make_registry_iff in Hr as (_ & Hp & _). by rewrite Hp.
Qed.

(** C25: A registry is made exactly of one to eight products with distinct keys and
    non-null services that no two products share; its entries are then the given ones in
    the strict canonical order of their keys, in whatever order they were given, and a
    key finds the services configured for it. *)
Theorem registry_spec (entries r : list MarketServices) :
  make_registry entries = inl r ↔
  registrable entries ∧ r ≡ₚ entries ∧ StronglySorted (before services_key) r ∧
  (∀ key e, find_services r key = Some e ↔ e ∈ entries ∧ services_key e = key).
Proof.
  split.
  - intros Hr. pose proof (proj1 (make_registry_iff entries r) Hr) as (H1 & H2 & H3).
    split_all; [done..|]. intros key e. by apply registry_finds_what_was_configured.
  - intros (H1 & H2 & H3 & _). by apply make_registry_iff.
Qed.

(** ** Witnesses: two products given in the wrong order *)

Definition sample_services : list MarketServices :=
  [MkMarketServices (MkMarketKey 1 2 "BTCUSDT") (Some 11%Z) (Some 12%Z) (Some 13%Z);
   MkMarketServices (MkMarketKey 1 1 "ETHUSDT") (Some 21%Z) (Some 22%Z) (Some 23%Z);
   MkMarketServices (MkMarketKey 1 1 "BTCUSDT") (Some 31%Z) (Some 32%Z) (Some 33%Z)].

Definition sample_registry : list MarketServices := default [] (
  match make_registry sample_services with inl r => Some r | inr _ => None end).

Lemma sample_registry_made : make_registry sample_services = inl sample_registry.
Proof. by vm_compute. Qed.

Lemma registry_finds_what_was_configured_witness :
  services_key <$> sample_registry
    = [MkMarketKey 1 1 "BTCUSDT"; MkMarketKey 1 1 "ETHUSDT"; MkMarketKey 1 2 "BTCUSDT"] ∧
  (services_runtime <$> find_services sample_registry (MkMarketKey 1 2 "BTCUSDT"))
    = Some (Some 11%Z).
Proof.
  split; [by vm_compute|].
  rewrite (proj2 (registry_finds_what_was_configured sample_services sample_registry
                    (MkMarketKey 1 2 "BTCUSDT")
                    (MkMarketServices (MkMarketKey 1 2 "BTCUSDT") (Some 11%Z) (Some 12%Z) (Some 13%Z))
                    sample_registry_made));
    [reflexivity|split; [by left|reflexivity]].
Defined.
