(* ===== verification/Metadata.v ===== *)
(** * Metadata: the numeric specification of every configured product

    Models [src/src/production/production_metadata.hpp] and [.cpp]: one document per
    configured market is fetched, every product is resolved in it, in canonical order,
    and the first failure ends the start of the daemon.  The two fetches are arguments:
    what the network would answer ([fetch]), and the log says which were asked. *)

From stdpp Require Import sorting.
From S2P Require Import Prelude Ring Wire Text Json Session OrderBookPublication.
From S2P Require Import EventPublication Programs Projection MarketRuntime Recovery.
From S2P Require Import SpotProtocol UsdmProtocol Routes Registry.

Open Scope gateway_scope.

Inductive MetadataStage : Type :=
| SpotFetch
| SpotParse
| UsdMFetch
| UsdMParse.

#[export] Instance MetadataStage_eq_dec : EqDecision MetadataStage.
Proof. solve_decision. Defined.

Record MetadataError : Type := MkMetadataError {
  me_stage : MetadataStage;
  me_product : option MarketKey;
  me_message : string
}.

Section Acquisition.
Context `{W : WireEnums} `{N : NumericLibrary} `{J : JsonLibrary}.

(** [core::NumericSpec] *)
Record NumericSpec : Type := MkNumericSpec {
  numeric_price_scale : DecimalScale;
  numeric_quantity_scale : DecimalScale
}.

Definition numeric_spec (metadata : SpotMetadata) : NumericSpec :=
  MkNumericSpec (price_scale metadata) (quantity_scale metadata).

Record ResolvedProductSpec : Type := MkResolvedProductSpec {
  resolved_key : MarketKey;
  resolved_numeric_spec : NumericSpec
}.

Definition network_message (error : NetworkError) : string :=
  ne_stage error +:+ ": " +:+ ne_message error.

Definition protocol_message (error : ProtocolError) : string :=
  pe_field error +:+ ": " +:+ pe_message error.

Definition has_market (market_keys : list MarketKey) (market : Z) : bool :=
  existsb (λ key, (key_market key =? market)%Z) market_keys.

(** The body of a market's document when the market is configured. *)
Definition fetch_body (wanted : bool) (stage : MetadataStage)
  (response : string + NetworkError) : option string + MetadataError :=
  if wanted then
    match response with
    | inr error => inr (MkMetadataError stage None (network_message error))
    | inl body => inl (Some body)
    end
  else inl None.

(** One iteration of the loop over the products.  A product's market has been fetched
    ([fetched_bodies]), so that [*spot_body] and [*usdm_body] are engaged. *)
Definition resolve_product (spot_body usdm_body : option string) (key : MarketKey)
  : ResolvedProductSpec + MetadataError :=
  fail_if negb (key_venue key =? VENUE_BINANCE)%Z
    with MkMetadataError SpotParse (Some key) "unsupported configured venue" ;;
  if (key_market key =? MARKET_SPOT)%Z then
    fail_if bool_decide (make_spot_transport_routes (key_symbol key) = None)
      with MkMetadataError SpotParse (Some key)
             "Spot symbol cannot be represented by a Binance route" ;;
    match parse_exchange_info (default "" spot_body) (key_symbol key) with
    | inr failure => inr (MkMetadataError SpotParse (Some key) (protocol_message failure))
    | inl metadata => inl (MkResolvedProductSpec key (numeric_spec metadata))
    end
  else if (key_market key =? MARKET_USD_M_PERPETUAL)%Z then
    fail_if bool_decide (make_usdm_transport_routes (key_symbol key) = None)
      with MkMetadataError UsdMParse (Some key)
             "USD-M symbol cannot be represented by a Binance route" ;;
    match parse_usdm_exchange_info (default "" usdm_body) (key_symbol key) with
    | inr failure => inr (MkMetadataError UsdMParse (Some key) (protocol_message failure))
    | inl metadata => inl (MkResolvedProductSpec key (numeric_spec metadata))
    end
  else inr (MkMetadataError SpotParse (Some key) "unsupported configured market").

Fixpoint resolve_products (spot_body usdm_body : option string) (keys : list MarketKey)
  (products : list ResolvedProductSpec) : list ResolvedProductSpec + MetadataError :=
  match keys with
  | [] => inl products
  | key :: rest =>
      let? product := resolve_product spot_body usdm_body key in
      resolve_products spot_body usdm_body rest (products ++ [product])
  end.

(** The fetches that are made, in order, and the result. *)
Definition acquire_production_metadata (market_keys : list MarketKey)
  (fetch : MetadataStage → string + NetworkError)
  : list MetadataStage * (list ResolvedProductSpec + MetadataError) :=
  let wants_spot := has_market market_keys MARKET_SPOT in
  let wants_usdm := has_market market_keys MARKET_USD_M_PERPETUAL in
  match fetch_body wants_spot SpotFetch (fetch SpotFetch) with
  | inr error => ([SpotFetch], inr error)
  | inl spot_body =>
      ((if wants_spot then [SpotFetch] else []) ++ (if wants_usdm then [UsdMFetch] else []),
       let? usdm_body := fetch_body wants_usdm UsdMFetch (fetch UsdMFetch) in
       resolve_products spot_body usdm_body (sort_by_key id market_keys) [])
  end.

(** ** What is resolved *)

(** A product's numeric specification according to its market's document. *)
Definition resolved_from (fetch : MetadataStage → string + NetworkError) (key : MarketKey)
  (spec : NumericSpec) : Prop :=
  key_venue key = VENUE_BINANCE ∧ spot_stream_symbol (key_symbol key) ≠ None ∧
  ∃ body metadata, spec = numeric_spec metadata ∧
    ((key_market key = MARKET_SPOT ∧ fetch SpotFetch = inl body ∧
      parse_exchange_info body (key_symbol key) = inl metadata) ∨
     (key_market key = MARKET_USD_M_PERPETUAL ∧ fetch UsdMFetch = inl body ∧
      parse_usdm_exchange_info body (key_symbol key) = inl metadata)).

Lemma has_market_spec keys market :
  has_market keys market = true ↔ ∃ key, key ∈ keys ∧ key_market key = market.
Proof.
  unfold has_market. rewrite existsb_exists. setoid_rewrite Z.eqb_eq.
  by setoid_rewrite <- list_elem_of_In.
Qed.

(** The bodies after the two fetches: present exactly for the configured markets. *)
Definition fetched_bodies (fetch : MetadataStage → string + NetworkError)
  (keys : list MarketKey) (spot_body usdm_body : option string) : Prop :=
  (∀ key, key ∈ keys → key_market key = MARKET_SPOT →
    ∃ body, spot_body = Some body ∧ fetch SpotFetch = inl body) ∧
  (∀ key, key ∈ keys → key_market key = MARKET_USD_M_PERPETUAL →
    ∃ body, usdm_body = Some body ∧ fetch UsdMFetch = inl body).

Lemma fetch_body_engaged keys market stage response body :
  fetch_body (has_market keys market) stage response = inl body →
  ∀ key, key ∈ keys → key_market key = market → ∃ b, body = Some b ∧ response = inl b.
Proof.
  unfold fetch_body. intros H key Hin Hk.
  rewrite (proj2 (has_market_spec keys market)) in H by (by exists key).
  destruct response as [b|]; [|done]. injection H as <-. by exists b.
Qed.

Lemma spot_routes_none symbol :
  make_spot_transport_routes symbol = None ↔ spot_stream_symbol symbol = None.
Proof. unfold make_spot_transport_routes. by destruct (spot_stream_symbol symbol). Qed.

Lemma usdm_routes_none symbol :
  make_usdm_transport_routes symbol = None ↔ spot_stream_symbol symbol = None.
Proof.
  unfold make_usdm_transport_routes, usdm_stream_symbol. by destruct (spot_stream_symbol symbol).
Qed.

Lemma resolve_product_spec `{!WireEnumsOk W} fetch keys spot_body usdm_body key product :
  fetched_bodies fetch keys spot_body usdm_body → key ∈ keys →
  resolve_product spot_body usdm_body key = inl product ↔
  resolved_key product = key ∧ resolved_from fetch key (resolved_numeric_spec product).
Proof.
  intros [Hspot Husdm] Hin. unfold resolve_product, resolved_from.
  assert (Hm : MARKET_SPOT ≠ MARKET_USD_M_PERPETUAL).
  { pose proof markets_distinct as H. rewrite !NoDup_cons, !not_elem_of_cons in H. tauto. }
  rewrite fail_if_inl, negb_false_iff, Z.eqb_eq.
  destruct (Z.eqb_spec (key_market key) MARKET_SPOT) as [Hs|Hs];
    [|destruct (Z.eqb_spec (key_market key) MARKET_USD_M_PERPETUAL) as [Hu|Hu]].
  - destruct (Hspot key Hin Hs) as (body & -> & Hf).
    rewrite fail_if_inl, bool_decide_eq_false, spot_routes_none. simpl. split.
    + intros (Hv & Hr & H). destruct (parse_exchange_info body (key_symbol key)) as [m|] eqn:Hp; [|done].
      injection H as <-. split_all; [done..|]. exists body, m. split; [done|]. by left.
    + intros (Hk & Hv & Hr & body' & m & Hspec & [(_ & Hf' & Hp)|(Hu & _)]); [|congruence].
      split_all; [done..|]. rewrite Hf in Hf'. injection Hf' as <-. rewrite Hp.
      destruct product. simpl in *. by subst.
  - destruct (Husdm key Hin Hu) as (body & -> & Hf).
    rewrite fail_if_inl, bool_decide_eq_false, usdm_routes_none. simpl. split.
    + intros (Hv & Hr & H).
      destruct (parse_usdm_exchange_info body (key_symbol key)) as [m|] eqn:Hp; [|done].
      injection H as <-. split_all; [done..|]. exists body, m. split; [done|]. by right.
    + intros (Hk & Hv & Hr & body' & m & Hspec & [(? & _)|(_ & Hf' & Hp)]); [done|].
      split_all; [done..|]. rewrite Hf in Hf'. injection Hf' as <-. rewrite Hp.
      destruct product. simpl in *. by subst.
  - split; [by intros (_ & ?)|]. by intros (_ & _ & _ & ? & ? & _ & [(? & _)|(? & _)]).
Qed.

Lemma resolve_products_spec `{!WireEnumsOk W} fetch all spot_body usdm_body keys before_ products :
  fetched_bodies fetch all spot_body usdm_body → (∀ key, key ∈ keys → key ∈ all) →
  resolve_products spot_body usdm_body keys before_ = inl products ↔
  ∃ new, products = before_ ++ new ∧
    Forall2 (λ key p, resolved_key p = key ∧ resolved_from fetch key (resolved_numeric_spec p))
      keys new.
Proof.
  intros Hb. revert before_. induction keys as [|key keys IH]; intros before_ Hin; simpl.
  - split.
    + intros [= <-]. exists []. by rewrite app_nil_r.
    + intros (new & -> & H%Forall2_nil_inv_l). by rewrite H, app_nil_r.
  - rewrite sum_bind_inl. setoid_rewrite (resolve_product_spec fetch all); [|done|apply Hin; by left].
    setoid_rewrite IH; [|intros; apply Hin; by right]. split.
    + intros (p & Hp & new & -> & Hnew). exists (p :: new). rewrite <- app_assoc.
      split; [done|]. by constructor.
    + intros (new & -> & H). apply Forall2_cons_inv_l in H as (p & new' & Hp & Hnew & ->).
      exists p. split; [done|]. exists new'. by rewrite <- app_assoc.
Qed.

(** The products acquired, in canonical order. *)
Lemma acquired_products `{!WireEnumsOk W} keys fetch log products :
  acquire_production_metadata keys fetch = (log, inl products) →
  Forall2 (λ key p, resolved_key p = key ∧ resolved_from fetch key (resolved_numeric_spec p))
    (sort_by_key id keys) products.
Proof.
  unfold acquire_production_metadata.
  destruct (fetch_body _ SpotFetch _) as [sb|] eqn:Hs; [|done].
  intros [= _ H]. apply sum_bind_inl in H as (ub & Hu & H).
  apply (resolve_products_spec fetch keys) in H as (new & -> & Hnew);
    [done|split; by eapply fetch_body_engaged|].
  intros key. by rewrite sort_by_key_perm.
Qed.

(** C36: The daemon resolves its products exactly when every one of them, in canonical
    order, is a routable Binance product that its market's document lists as tradable;
    each gets the quanta of that document, and each configured market is fetched once. *)
Theorem acquire_production_metadata_spec `{!WireEnumsOk W} (keys : list MarketKey)
  (fetch : MetadataStage → string + NetworkError) (log : list MetadataStage)
  (products : list ResolvedProductSpec) :
  acquire_production_metadata keys fetch = (log, inl products) ↔
  log = (if has_market keys MARKET_SPOT then [SpotFetch] else [])
        ++ (if has_market keys MARKET_USD_M_PERPETUAL then [UsdMFetch] else []) ∧
  (∀ stage, stage ∈ log → ∃ body, fetch stage = inl body) ∧
  Forall2 (λ key p, resolved_key p = key ∧ resolved_from fetch key (resolved_numeric_spec p))
    (sort_by_key id keys) products.
Proof.
  unfold acquire_production_metadata.
  assert (Hsort : ∀ key, key ∈ sort_by_key id keys → key ∈ keys).
  { intros key. by rewrite sort_by_key_perm. }
  set (ws := has_market keys MARKET_SPOT). set (wu := has_market keys MARKET_USD_M_PERPETUAL).
  split.
  - destruct (fetch_body ws SpotFetch (fetch SpotFetch)) as [sb|] eqn:Hs; [|done].
    intros [= <- H]. apply sum_bind_inl in H as (ub & Hu & H).
    apply (resolve_products_spec fetch keys) in H as (new & -> & Hnew); [|split|done].
    + split_all; [done| |done]. intros stage [Hin|Hin]%elem_of_app.
      * destruct ws; [|by apply not_elem_of_nil in Hin].
        apply list_elem_of_singleton in Hin as ->. unfold fetch_body in Hs.
        destruct (fetch SpotFetch) as [b|]; [by exists b|done].
      * destruct wu; [|by apply not_elem_of_nil in Hin].
        apply list_elem_of_singleton in Hin as ->. unfold fetch_body in Hu.
        destruct (fetch UsdMFetch) as [b|]; [by exists b|done].
    + by eapply fetch_body_engaged.
    + by eapply fetch_body_engaged.
  - intros (-> & Hlog & Hall).
    assert (Hs : ∃ sb, fetch_body ws SpotFetch (fetch SpotFetch) = inl sb).
    { unfold fetch_body. destruct ws; [|by eexists].
      destruct (Hlog SpotFetch) as [b ->]; [apply elem_of_app; left; by left|by eexists]. }
    assert (Hu : ∃ ub, fetch_body wu UsdMFetch (fetch UsdMFetch) = inl ub).
    { unfold fetch_body. destruct wu; [|by eexists].
      destruct (Hlog UsdMFetch) as [b ->]; [apply elem_of_app; right; by left|by eexists]. }
    destruct Hs as [sb Hs], Hu as [ub Hu]. rewrite Hs, Hu. simpl. f_equal.
    apply (resolve_products_spec fetch keys); [split; by eapply fetch_body_engaged|done|].
    by exists products.
Qed.
End Acquisition.
