(* ===== verification/GrpcRequests.v ===== *)
(** * GrpcRequests: what the RPC service accepts and what it writes

    Models the stateless part of [src/src/g7/grpc_service.hpp] and [.cpp]: the check of
    the listening address, the validation of the three requests and the construction of
    the stream items from a channel's publications.  The Protobuf messages are records
    of the fields read or set.  [boost::asio::ip::make_address] is a parameter
    ([AddressLibrary]).  [std::isspace] is that of the C locale. *)

From Stdlib Require Import Ascii.
From S2P Require Import Prelude Ring Wire Text Session OrderBookPublication OrderBookSession.
From S2P Require Import EventPublication EventSession Registry.

Open Scope gateway_scope.

(** ** The listening address *)

Class AddressLibrary : Type := {
  Address : Type;
  (** [make_address(text, error)]: [None] when [error] is set. *)
  make_address : string → option Address;
  is_loopback : Address → bool;
  is_v6 : Address → bool
}.

(** [text.back()] *)
Fixpoint last_char (s : string) : option ascii :=
  match s with
  | EmptyString => None
  | String c EmptyString => Some c
  | String _ rest => last_char rest
  end.

Definition bracketed_host (host : string) : bool :=
  bool_decide (String.get 0 host = Some "["%char) && bool_decide (last_char host = Some "]"%char).

Definition valid_loopback_listen_address `{A : AddressLibrary} (address : string)
  (allow_ephemeral_port : bool) : bool :=
  match rfind_char ":" address with
  | None => false
  | Some colon =>
      let host := take_string colon address in
      let port := drop_string (colon + 1) address in
      let bracketed := bracketed_host host in
      let host := if bracketed then take_string (String.length host - 2) (drop_string 1 host)
                  else host in
      match parse_decimal u32_max port with
      | None => false
      | Some number =>
          if (65535 <? number)%Z || ((number =? 0)%Z && negb allow_ephemeral_port)
             || bool_decide (is_Some (find_char "%" host))
          then false
          else match make_address host with
               | Some ip => is_loopback ip && eqb bracketed (is_v6 ip)
               | None => false
               end
      end
  end.

(** ** Identifiers and version lists *)

Definition is_alphanumeric (c : ascii) : bool :=
  in_range "A" "Z" c || in_range "a" "z" c || in_range "0" "9" c.

Definition identifier_character (c : ascii) : bool :=
  is_alphanumeric c || bool_decide (c = "."%char) || bool_decide (c = "_"%char)
  || bool_decide (c = ":"%char) || bool_decide (c = "/"%char) || bool_decide (c = "-"%char).

Definition identifier_safe (value : string) : bool :=
  if bool_decide (value = "") || bool_decide (128 < String.length value) then false else
  if negb match value with String first _ => is_alphanumeric first | EmptyString => false end
  then false
  else all_chars identifier_character value.

Definition contains_version (versions : list string) (expected : string) : bool :=
  existsb (λ version, bool_decide (version = expected)) versions.

(** [std::isspace] *)
Definition is_space (c : ascii) : bool :=
  bool_decide (c = " "%char) || ((9 <=? code c)%Z && (code c <=? 13)%Z).

Definition version_text (version : string) : bool :=
  match version, last_char version with
  | String front _, Some back => negb (is_space front) && negb (is_space back)
  | _, _ => false
  end.

(** The loop; [earlier] are the versions before [index]. *)
Fixpoint version_list_from (earlier versions : list string) : bool :=
  match versions with
  | [] => true
  | version :: rest =>
      if negb (version_text version) then false
      else if contains_version earlier version then false
      else version_list_from (earlier ++ [version]) rest
  end.

Definition valid_version_list (versions : list string) : bool := version_list_from [] versions.

(** ** Requests *)

Record OrderBookSubscriptionRequest : Type := MkOrderBookSubscriptionRequest {
  obr_request_id : string;
  obr_schema_version : string;
  obr_venue : Z;
  obr_market : Z;
  obr_symbol : string;
  obr_initial_snapshot_mode : Z;
  obr_depth_limit : option Z;
  obr_supported_snapshot_schema_versions : list string;
  obr_supported_update_schema_versions : list string
}.

Record EventSelector : Type := MkEventSelector {
  sel_venue : Z;
  sel_market : Z;
  sel_symbol : string;
  sel_stream : Z
}.

Record EventSubscriptionRequest : Type := MkEventSubscriptionRequest {
  esr_request_id : string;
  esr_schema_version : string;
  esr_delivery_mode : Z;
  esr_selectors : list EventSelector;
  esr_supported_payload_schema_versions : list string
}.

Record GatewayStatusRequest : Type := MkGatewayStatusRequest {
  gsr_request_id : string;
  gsr_schema_version : string
}.

Definition kStatusRequestSchema : string := "gateway-status-request.v1".

Inductive RequestValidationError : Type :=
| InvalidArgument
| FailedPrecondition.

Section Requests.
Context `{W : WireEnums}.

Definition required_event_schema (stream : Z) : option string :=
  if (stream =? STREAM_DIFF_DEPTH)%Z then Some kDepthEventSchema
  else if (stream =? STREAM_AGG_TRADE)%Z then Some kAggTradeEventSchema
  else if (stream =? STREAM_BOOK_TICKER)%Z then Some kBookTickerEventSchema
  else None.

Definition validate_order_book_request_impl (request : OrderBookSubscriptionRequest)
  (gateway_instance_id : string) (allow_usdm require_legacy_btcusdt : bool)
  : ValidatedOrderBookSubscription + RequestValidationError :=
  let supported_market :=
    (obr_market request =? MARKET_SPOT)%Z
    || (allow_usdm && (obr_market request =? MARKET_USD_M_PERPETUAL)%Z) in
  fail_if negb (identifier_safe gateway_instance_id) with InvalidArgument ;;
  fail_if negb (identifier_safe (obr_request_id request))
          || negb (bool_decide (obr_schema_version request = kOrderBookRequestSchema))
          || negb (obr_venue request =? VENUE_BINANCE)%Z || negb supported_market
          || (require_legacy_btcusdt && negb (bool_decide (obr_symbol request = "BTCUSDT")))
          || negb (obr_initial_snapshot_mode request =? INITIAL_SNAPSHOT_MODE_REQUIRED)%Z
          || match obr_depth_limit request with Some limit => (limit <=? 0)%Z | None => false end
          || negb (valid_version_list (obr_supported_snapshot_schema_versions request))
          || negb (valid_version_list (obr_supported_update_schema_versions request))
    with InvalidArgument ;;
  fail_if negb (contains_version (obr_supported_snapshot_schema_versions request) kSnapshotSchema)
          || negb (contains_version (obr_supported_update_schema_versions request) kUpdateSchema)
    with FailedPrecondition ;;
  inl (MkValidatedOrderBookSubscription (obr_request_id request) gateway_instance_id
         (obr_depth_limit request)).

Definition validate_order_book_request (request : OrderBookSubscriptionRequest)
  (gateway_instance_id : string) : ValidatedOrderBookSubscription + RequestValidationError :=
  validate_order_book_request_impl request gateway_instance_id false true.

Definition validate_g11_order_book_request (request : OrderBookSubscriptionRequest)
  (gateway_instance_id : string) : ValidatedOrderBookSubscription + RequestValidationError :=
  validate_order_book_request_impl request gateway_instance_id true false.

Definition validate_event_request_impl (request : EventSubscriptionRequest)
  (gateway_instance_id : string) (allow_usdm require_legacy_btcusdt : bool)
  : ValidatedEventSubscription + RequestValidationError :=
  fail_if negb (identifier_safe gateway_instance_id)
          || negb (identifier_safe (esr_request_id request))
          || negb (bool_decide (esr_schema_version request = kEventRequestSchema))
          || negb (esr_delivery_mode request =? DELIVERY_MODE_CONTIGUOUS_EVENTS)%Z
          || negb (bool_decide (length (esr_selectors request) = 1))
          || bool_decide (esr_supported_payload_schema_versions request = [])
          || negb (valid_version_list (esr_supported_payload_schema_versions request))
    with InvalidArgument ;;
  match esr_selectors request with
  | selector :: _ =>
      let required_schema := required_event_schema (sel_stream selector) in
      let spot := (sel_market selector =? MARKET_SPOT)%Z in
      let usdm := allow_usdm && (sel_market selector =? MARKET_USD_M_PERPETUAL)%Z in
      let supported_stream :=
        (spot && bool_decide (is_Some required_schema))
        || (usdm && (sel_stream selector =? STREAM_DIFF_DEPTH)%Z) in
      fail_if negb (sel_venue selector =? VENUE_BINANCE)%Z
              || (require_legacy_btcusdt && negb (bool_decide (sel_symbol selector = "BTCUSDT")))
              || negb supported_stream
        with InvalidArgument ;;
      match required_schema with
      | None => inr InvalidArgument
      | Some schema =>
          fail_if negb (contains_version (esr_supported_payload_schema_versions request) schema)
            with FailedPrecondition ;;
          inl (MkValidatedEventSubscription (esr_request_id request) (sel_stream selector) schema)
      end
  | [] => inr InvalidArgument
  end.

Definition validate_event_request (request : EventSubscriptionRequest)
  (gateway_instance_id : string) : ValidatedEventSubscription + RequestValidationError :=
  validate_event_request_impl request gateway_instance_id false true.

Definition validate_g11_event_request (request : EventSubscriptionRequest)
  (gateway_instance_id : string) : ValidatedEventSubscription + RequestValidationError :=
  validate_event_request_impl request gateway_instance_id true false.

Definition validate_gateway_status_request (request : GatewayStatusRequest) : bool :=
  identifier_safe (gsr_request_id request)
  && bool_decide (gsr_schema_version request = kStatusRequestSchema).
End Requests.

(** ** Stream items *)

(** [oneof] of [OrderBookStreamItem] and of [GatewayEventEnvelope]. *)
Inductive StreamItemBody (Snapshot : Type) : Type :=
| ItemSubscriptionAccepted (accepted : SubscriptionAccepted)
| ItemSnapshot (snapshot : Snapshot)
| ItemDepthUpdate (update : DepthUpdate)
| ItemConsumerGap (gap : ConsumerGapNotice).
Arguments ItemSubscriptionAccepted {Snapshot} _.
Arguments ItemSnapshot {Snapshot} _.
Arguments ItemDepthUpdate {Snapshot} _.
Arguments ItemConsumerGap {Snapshot} _.

Record OrderBookStreamItem (Snapshot : Type) : Type := MkOrderBookStreamItem {
  item_delivery : DeliveryMetadata;
  item_body : StreamItemBody Snapshot
}.
Arguments MkOrderBookStreamItem {Snapshot} _ _.
Arguments item_delivery {Snapshot} _.
Arguments item_body {Snapshot} _.

Inductive EnvelopeBody : Type :=
| EnvSubscriptionAccepted (accepted : SubscriptionAccepted)
| EnvDepthUpdate (update : DepthUpdate)
| EnvAggTrade (trade : AggTrade)
| EnvBookTicker (ticker : BookTicker)
| EnvConsumerGap (gap : ConsumerGapNotice).

Record GatewayEventEnvelope : Type := MkGatewayEventEnvelope {
  env_delivery : DeliveryMetadata;
  env_body : EnvelopeBody
}.

(** [populate_delivery_metadata] and [populate_event_delivery_metadata] *)
Definition delivery_metadata (gateway_instance_id subscription_id : string)
  (session_sequence : Z) (connection_generation : option Z) (published_at : PublicationTime)
  : DeliveryMetadata :=
  MkDeliveryMetadata kProtocolVersion gateway_instance_id subscription_id connection_generation
    session_sequence (utc_ns published_at) (monotonic_ns published_at).

Section Items.
Context `{W : WireEnums} {Snapshot : Type}.

Definition materialize_stream_item_for (channel : SubscriberChannel.Channel Snapshot)
  (publication : SubscriberChannel.PeekedPublication Snapshot) (market : Z) (symbol : string)
  : outcome (OrderBookStreamItem Snapshot) :=
  let metadata := delivery_metadata (SubscriberChannel.gateway_instance_id channel)
                    (SubscriberChannel.subscription_id channel) in
  match SubscriberChannel.peeked_ordinary publication, SubscriberChannel.peeked_terminal publication with
  | None, None => Threw
  | Some pointer, _ =>
      let record := sp_obj pointer in
      let metadata := metadata (SubscriberChannel.session_sequence record)
                        (SubscriberChannel.connection_generation record)
                        (SubscriberChannel.published_at record) in
      match SubscriberChannel.payload record with
      | SubscriberChannel.PayloadAccepted accepted =>
          Returned (MkOrderBookStreamItem metadata (ItemSubscriptionAccepted accepted))
      | SubscriberChannel.PayloadSnapshot snapshot =>
          Returned (MkOrderBookStreamItem metadata (ItemSnapshot snapshot))
      | SubscriberChannel.PayloadDepthUpdate (Some update) =>
          Returned (MkOrderBookStreamItem metadata (ItemDepthUpdate (sp_obj update)))
      | SubscriberChannel.PayloadDepthUpdate None => Threw
      end
  | None, Some terminal =>
      Returned (MkOrderBookStreamItem
        (metadata (td_session_sequence terminal) (td_connection_generation terminal)
           (td_published_at terminal))
        (ItemConsumerGap
           (MkConsumerGapNotice kConsumerGapSchema (SubscriberChannel.subscription_id channel)
              (utc_ns (td_published_at terminal)) (td_reason terminal)
              (td_recovery_action terminal) market symbol STREAM_DIFF_DEPTH)))
  end.

(** [materialize_stream_item]: the single product, and a product of the registry. *)
Definition materialize_stream_item (channel : SubscriberChannel.Channel Snapshot)
  (publication : SubscriberChannel.PeekedPublication Snapshot) (key : option MarketKey)
  : outcome (OrderBookStreamItem Snapshot) :=
  match key with
  | Some key =>
      materialize_stream_item_for channel publication (key_market key) (key_symbol key)
  | None => materialize_stream_item_for channel publication MARKET_SPOT "BTCUSDT"
  end.

Definition materialize_event_envelope_for (channel : EventSubscriberChannel.Channel)
  (publication : PeekedEventPublication) (market : Z) (symbol : string)
  : outcome GatewayEventEnvelope :=
  let metadata := delivery_metadata (EventSubscriberChannel.gateway_instance_id channel)
                    (EventSubscriberChannel.subscription_id channel) in
  match ev_peeked_ordinary publication, ev_peeked_terminal publication with
  | None, None => Threw
  | Some pointer, _ =>
      let record := sp_obj pointer in
      let metadata := metadata (ev_session_sequence record) (ev_connection_generation record)
                        (ev_published_at record) in
      match ev_payload record with
      | EvPayloadAccepted accepted =>
          Returned (MkGatewayEventEnvelope metadata (EnvSubscriptionAccepted accepted))
      | EvPayloadEvent None => Threw
      | EvPayloadEvent (Some event) =>
          if negb (normalized_event_stream (sp_obj event)
                   =? EventSubscriberChannel.stream channel)%Z
          then Threw
          else Returned (MkGatewayEventEnvelope metadata
                 match sp_obj event with
                 | EvDepthUpdate depth => EnvDepthUpdate depth
                 | EvAggTrade trade => EnvAggTrade trade
                 | EvBookTicker ticker => EnvBookTicker ticker
                 end)
      end
  | None, Some terminal =>
      Returned (MkGatewayEventEnvelope
        (metadata (et_session_sequence terminal) (Some (et_connection_generation terminal))
           (et_published_at terminal))
        (EnvConsumerGap
           (MkConsumerGapNotice kConsumerGapSchema
              (EventSubscriberChannel.subscription_id channel)
              (utc_ns (et_published_at terminal)) (et_reason terminal)
              (et_recovery_action terminal) market symbol
              (EventSubscriberChannel.stream channel))))
  end.

Definition materialize_event_envelope (channel : EventSubscriberChannel.Channel)
  (publication : PeekedEventPublication) (key : option MarketKey)
  : outcome GatewayEventEnvelope :=
  match key with
  | Some key =>
      materialize_event_envelope_for channel publication (key_market key) (key_symbol key)
  | None => materialize_event_envelope_for channel publication MARKET_SPOT "BTCUSDT"
  end.
End Items.

(** ** Identifiers, version lists *)

Lemma contains_version_spec versions expected :
  contains_version versions expected = true ↔ expected ∈ versions.
Proof.
  unfold contains_version. rewrite existsb_exists. setoid_rewrite bool_decide_eq_true. split.
  - intros (v & Hin & ->). by apply list_elem_of_In.
  - intros Hin. exists expected. split; [by apply list_elem_of_In|done].
Qed.

Lemma version_list_from_spec versions earlier :
  version_list_from earlier versions = true ↔
  Forall (λ v, version_text v = true) versions ∧
  NoDup versions ∧ ∀ v, v ∈ versions → v ∉ earlier.
Proof.
  revert earlier. induction versions as [|v versions IH]; intros earlier; simpl.
  - split; [|done]. intros _. split_all; [constructor|constructor|by intros ? ?%not_elem_of_nil].
  - rewrite Forall_cons, NoDup_cons. destruct (version_text v); simpl; [|by split; [|intros [[] _]]].
    destruct (contains_version earlier v) eqn:Hc.
    + split; [done|]. intros (_ & _ & H). apply contains_version_spec in Hc.
      by destruct (H v ltac:(by left)).
    + assert (Hn : v ∉ earlier).
      { intros Hin. apply contains_version_spec in Hin. congruence. }
      rewrite IH. split.
      * intros (Hv & Hnd & He). split_all; [done|done| |done|].
        -- intros Hin. apply (He v Hin). apply elem_of_app. right. by left.
        -- intros w [->|Hin]%elem_of_cons; [done|]. intros Hw. apply (He w Hin).
           apply elem_of_app. by left.
      * intros ((_ & Hv) & (Hnv & Hnd) & He). split_all; [done|done|].
        intros w Hin [Hw|Hw%list_elem_of_singleton]%elem_of_app.
        -- by apply (He w); [right|].
        -- by subst.
Qed.

Lemma valid_version_list_spec versions :
  valid_version_list versions = true ↔
  Forall (λ v, version_text v = true) versions ∧ NoDup versions.
Proof.
  unfold valid_version_list. rewrite version_list_from_spec. split; [tauto|].
  intros [? ?]. split_all; [done|done|]. intros v _. apply not_elem_of_nil.
Qed.

(** ** What the validators accept *)

Section Validation.
Context `{W : WireEnums}.

(** The order-book requests that are understood; [allow_usdm] and [legacy] as in the
    source. *)
Record order_book_request_ok (allow_usdm legacy : bool) (r : OrderBookSubscriptionRequest)
  (gateway_instance_id : string) : Prop := {
  oro_gateway : identifier_safe gateway_instance_id = true;
  oro_request_id : identifier_safe (obr_request_id r) = true;
  oro_schema : obr_schema_version r = kOrderBookRequestSchema;
  oro_venue : obr_venue r = VENUE_BINANCE;
  oro_market : obr_market r = MARKET_SPOT ∨ allow_usdm = true ∧ obr_market r = MARKET_USD_M_PERPETUAL;
  oro_symbol : legacy = true → obr_symbol r = "BTCUSDT";
  oro_mode : obr_initial_snapshot_mode r = INITIAL_SNAPSHOT_MODE_REQUIRED;
  oro_limit : ∀ limit, obr_depth_limit r = Some limit → (0 < limit)%Z;
  oro_snapshots : Forall (λ v, version_text v = true) (obr_supported_snapshot_schema_versions r) ∧
                  NoDup (obr_supported_snapshot_schema_versions r);
  oro_updates : Forall (λ v, version_text v = true) (obr_supported_update_schema_versions r) ∧
                NoDup (obr_supported_update_schema_versions r)
}.

(** Both payload schemas are supported by the client. *)
Definition order_book_negotiable (r : OrderBookSubscriptionRequest) : Prop :=
  kSnapshotSchema ∈ obr_supported_snapshot_schema_versions r ∧
  kUpdateSchema ∈ obr_supported_update_schema_versions r.

(** The two checks of the source, as propositions. *)
Lemma order_book_checks allow_usdm legacy r gateway_instance_id :
  ∃ b1 b2 : bool,
    validate_order_book_request_impl r gateway_instance_id allow_usdm legacy
    = (if b1 then inr InvalidArgument else if b2 then inr FailedPrecondition
       else inl (MkValidatedOrderBookSubscription (obr_request_id r) gateway_instance_id
                   (obr_depth_limit r))) ∧
    (b1 = false ↔ order_book_request_ok allow_usdm legacy r gateway_instance_id) ∧
    (b2 = false ↔ order_book_negotiable r).
Proof.
  unfold validate_order_book_request_impl. cbv zeta.
  match goal with |- context [if ?a then _ else if ?b then _ else if ?c then _ else _] =>
    exists (a || b), c; split; [by destruct a, b|] end.
  rewrite !orb_false_iff, !negb_false_iff. split.
  - destruct r as [id schema venue market symbol mode limit snaps ups]; cbn [obr_request_id
      obr_schema_version obr_venue obr_market obr_symbol obr_initial_snapshot_mode obr_depth_limit
      obr_supported_snapshot_schema_versions obr_supported_update_schema_versions].
    rewrite !valid_version_list_spec, !orb_true_iff, !andb_true_iff, !andb_false_iff, !negb_false_iff,
      !bool_decide_eq_true, !Z.eqb_eq.
    split.
    + intros (Hg & (((((((Hi & Hs) & Hv) & Hm) & Hl) & Hd) & Hlim) & Hsn) & Hup).
      split; try done.
      * intros ->. by destruct Hl.
      * intros l ?. simpl in *. subst. apply Z.leb_gt in Hlim. done.
    + intros [Hg Hi Hs Hv Hm Hl Hd Hlim [] []]. simpl in *. split_all; try done.
      * destruct legacy; [right; by apply Hl|by left].
      * destruct limit as [l|]; [|done]. apply Z.leb_gt. by apply Hlim.
  - by rewrite !contains_version_spec.
Qed.

(** A value behind two guards. *)
Lemma guarded_accepts {A} (b1 b2 : bool) (a s : A) :
  (if b1 then inr InvalidArgument else if b2 then inr FailedPrecondition else inl a) = inl s ↔
  b1 = false ∧ b2 = false ∧ s = a.
Proof. destruct b1, b2; split; try done; try (by intros (? & ? & ?)); [by intros [= <-]|by intros (_ & _ & ->)]. Qed.

Lemma guarded_negotiates {A} (b1 b2 : bool) (a : A) :
  (if b1 then inr InvalidArgument else if b2 then inr FailedPrecondition else inl a)
    = inr FailedPrecondition ↔ b1 = false ∧ ¬ b2 = false.
Proof. destruct b1, b2; split; try done; by intros (? & ?). Qed.

(** An order-book request is accepted exactly when it is understood and the client
    supports both payload schemas, and then yields the subscription it describes; it is
    refused as a failed negotiation exactly when only the latter fails. *)
Theorem order_book_request_spec allow_usdm legacy r gateway_instance_id :
  let answer := validate_order_book_request_impl r gateway_instance_id allow_usdm legacy in
  (∀ subscription, answer = inl subscription ↔
     order_book_request_ok allow_usdm legacy r gateway_instance_id ∧ order_book_negotiable r ∧
     subscription = MkValidatedOrderBookSubscription (obr_request_id r) gateway_instance_id
                      (obr_depth_limit r)) ∧
  (answer = inr FailedPrecondition ↔
     order_book_request_ok allow_usdm legacy r gateway_instance_id ∧ ¬ order_book_negotiable r).
Proof.
  destruct (order_book_checks allow_usdm legacy r gateway_instance_id) as (b1 & b2 & -> & H1 & H2).
  cbv zeta. split; [intros subscription|]; rewrite <- H1, <- H2;
    [apply guarded_accepts|apply guarded_negotiates].
Qed.

(** The event requests that are understood. *)
Record event_request_ok (allow_usdm legacy : bool) (r : EventSubscriptionRequest)
  (gateway_instance_id : string) (selector : EventSelector) (schema : string) : Prop := {
  ero_gateway : identifier_safe gateway_instance_id = true;
  ero_request_id : identifier_safe (esr_request_id r) = true;
  ero_schema_version : esr_schema_version r = kEventRequestSchema;
  ero_mode : esr_delivery_mode r = DELIVERY_MODE_CONTIGUOUS_EVENTS;
  ero_selector : esr_selectors r = [selector];
  ero_versions : esr_supported_payload_schema_versions r ≠ [] ∧
                 Forall (λ v, version_text v = true) (esr_supported_payload_schema_versions r) ∧
                 NoDup (esr_supported_payload_schema_versions r);
  ero_venue : sel_venue selector = VENUE_BINANCE;
  ero_symbol : legacy = true → sel_symbol selector = "BTCUSDT";
  ero_stream : required_event_schema (sel_stream selector) = Some schema;
  ero_market : sel_market selector = MARKET_SPOT ∨
               allow_usdm = true ∧ sel_market selector = MARKET_USD_M_PERPETUAL ∧
               sel_stream selector = STREAM_DIFF_DEPTH
}.

(** The checks of the source for one selector. *)
Lemma event_checks allow_usdm legacy r gateway_instance_id :
  (∃ b1 b2 selector schema,
    validate_event_request_impl r gateway_instance_id allow_usdm legacy
    = (if b1 : bool then inr InvalidArgument else if b2 : bool then inr FailedPrecondition
       else inl (MkValidatedEventSubscription (esr_request_id r) (sel_stream selector) schema)) ∧
    (b1 = false ↔ event_request_ok allow_usdm legacy r gateway_instance_id selector schema) ∧
    (b2 = false ↔ schema ∈ esr_supported_payload_schema_versions r) ∧
    esr_selectors r = [selector] ∧ required_event_schema (sel_stream selector) = Some schema) ∨
  validate_event_request_impl r gateway_instance_id allow_usdm legacy = inr InvalidArgument ∧
  ∀ selector schema, ¬ event_request_ok allow_usdm legacy r gateway_instance_id selector schema.
Proof.
  destruct r as [id version mode selectors versions].
  unfold validate_event_request_impl. cbn [esr_request_id esr_schema_version esr_delivery_mode
    esr_selectors esr_supported_payload_schema_versions].
  destruct selectors as [|selector [|other rest]].
  1, 3: right; rewrite ?orb_true_r; split; [by repeat case_match|by intros ?? []].
  destruct (required_event_schema (sel_stream selector)) as [schema|] eqn:Hschema.
  - left. match goal with |- context [if ?a then _ else if ?b then _ else if ?c then _ else _] =>
      exists (a || b), c, selector, schema; split; [by destruct a, b|] end.
    rewrite !orb_false_iff, !negb_false_iff, contains_version_spec, valid_version_list_spec,
      !orb_true_iff, !andb_true_iff, !andb_false_iff, !negb_false_iff, !bool_decide_eq_true,
      bool_decide_eq_false, !Z.eqb_eq.
    split; [|done]. split.
    + intros (((((((Hg & Hi) & Hs) & Hm) & _) & Hne) & Hv & Hn) & ((Hve & Hl) & Hst)).
      split; simpl; try done; [by intros ->; destruct Hl|tauto].
    + intros [Hg Hi Hs Hm _ (Hne & Hv & Hnd) Hve Hsy Hst Hma]. simpl in *.
      assert (legacy = false ∨ sel_symbol selector = "BTCUSDT") by (destruct legacy; eauto).
      assert (is_Some (Some schema)) by eauto. tauto.
  - right. split; [by repeat case_match|]. intros ?? []. simpl in *. congruence.
Qed.

(** An event request is accepted exactly when it is understood, with one selector of
    a supported stream, and the client supports the payload schema of that stream; it is
    refused as a failed negotiation exactly when only the latter fails. *)
Theorem event_request_spec allow_usdm legacy r gateway_instance_id :
  let answer := validate_event_request_impl r gateway_instance_id allow_usdm legacy in
  (∀ subscription, answer = inl subscription ↔
     ∃ selector schema, event_request_ok allow_usdm legacy r gateway_instance_id selector schema ∧
       schema ∈ esr_supported_payload_schema_versions r ∧
       subscription = MkValidatedEventSubscription (esr_request_id r) (sel_stream selector) schema) ∧
  (answer = inr FailedPrecondition ↔
     ∃ selector schema, event_request_ok allow_usdm legacy r gateway_instance_id selector schema ∧
       schema ∉ esr_supported_payload_schema_versions r).
Proof.
  destruct (event_checks allow_usdm legacy r gateway_instance_id)
    as [(b1 & b2 & sel & sch & -> & H1 & H2 & Hsel & Hsch)|[-> Hno]].
  - assert (Hone : ∀ sel' sch', event_request_ok allow_usdm legacy r gateway_instance_id sel' sch' →
                     sel' = sel ∧ sch' = sch) by (intros ?? [ ]; split; congruence).
    cbv zeta. split; [intros subscription|];
      rewrite ?guarded_accepts, ?guarded_negotiates, H1, H2; (split; [by eauto|]);
      intros (sel' & sch' & Hok & Hv); by destruct (Hone sel' sch' Hok) as [-> ->].
  - split; [intros subscription|]; (split; [done|]); intros (? & ? & []%Hno & _).
Qed.

(** The requests of the single-product service are those of the multi-product
    service for Spot BTCUSDT: with the same answer whenever they are understood. *)
Theorem legacy_requests_are_spot_btcusdt r e gateway_instance_id a b :
  a ≠ inr InvalidArgument → b ≠ inr InvalidArgument →
  (validate_order_book_request r gateway_instance_id = a ↔
   validate_g11_order_book_request r gateway_instance_id = a ∧
   obr_market r = MARKET_SPOT ∧ obr_symbol r = "BTCUSDT") ∧
  (validate_event_request e gateway_instance_id = b ↔
   validate_g11_event_request e gateway_instance_id = b ∧
   ∃ selector, esr_selectors e = [selector] ∧
     sel_market selector = MARKET_SPOT ∧ sel_symbol selector = "BTCUSDT").
Proof.
  intros Ha Hb. split.
  - assert (Hok : order_book_request_ok false true r gateway_instance_id ↔
              order_book_request_ok true false r gateway_instance_id ∧
              obr_market r = MARKET_SPOT ∧ obr_symbol r = "BTCUSDT").
    { split.
      - intros [Hg Hi Hs Hv Hm Hl Hd Hlim Hsn Hup]. destruct Hm as [Hm|[]]; [|done].
        split; [split; try done; by left|]. split; [done|by apply Hl].
      - intros [[Hg Hi Hs Hv Hm Hl Hd Hlim Hsn Hup] [Hma Hsy]]. split; try done. by left. }
    pose proof (order_book_request_spec false true r gateway_instance_id) as [L1 L2].
    pose proof (order_book_request_spec true false r gateway_instance_id) as [G1 G2].
    unfold validate_order_book_request, validate_g11_order_book_request.
    destruct a as [s|[]]; [|done|]; [rewrite L1, G1|rewrite L2, G2]; rewrite Hok; tauto.
  - assert (Hok : ∀ sel sch, event_request_ok false true e gateway_instance_id sel sch ↔
              event_request_ok true false e gateway_instance_id sel sch ∧
              sel_market sel = MARKET_SPOT ∧ sel_symbol sel = "BTCUSDT").
    { intros sel sch. split.
      - intros [Hg Hi Hs Hm Hsel Hv Hve Hsy Hst [Hma|[]]]; [|done].
        split; [split; try done; by left|]. split; [done|by apply Hsy].
      - intros [[Hg Hi Hs Hm Hsel Hv Hve Hsy Hst _] [Hma Hs']]. split; try done. by left. }
    pose proof (event_request_spec false true e gateway_instance_id) as [L1 L2].
    pose proof (event_request_spec true false e gateway_instance_id) as [G1 G2].
    unfold validate_event_request, validate_g11_event_request.
    destruct b as [s|[]]; [|done|]; [rewrite L1, G1|rewrite L2, G2]; setoid_rewrite Hok; split.
    1, 3: intros (sel & sch & (Hg & Hma & Hsy) & Hrest); split; [by eauto|];
      exists sel; split; [by eapply ero_selector|done].
    all: intros [(sel & sch & Hg & Hrest) (sel' & Hsel & Hma & Hsy)];
      (assert (sel' = sel) as -> by (pose proof (ero_selector _ _ _ _ _ _ Hg); congruence));
      by exists sel, sch.
Qed.
End Validation.

(** ** Witness *)

Section Sample.
#[local] Existing Instance sample_enums.

Definition sample_book_request : OrderBookSubscriptionRequest :=
  MkOrderBookSubscriptionRequest "request-1" kOrderBookRequestSchema 1 1 "BTCUSDT" 1 (Some 20%Z)
    [kSnapshotSchema; "other.v2"] [kUpdateSchema].
(** An event request whose client supports another schema. *)
Definition sample_trade_request : EventSubscriptionRequest :=
  MkEventSubscriptionRequest "request-2" kEventRequestSchema 1
    [MkEventSelector 1 1 "BTCUSDT" 2] ["agg-trade.v9"].

Lemma legacy_requests_are_spot_btcusdt_witness :
  validate_order_book_request sample_book_request "gw-1"
    = inl (MkValidatedOrderBookSubscription "request-1" "gw-1" (Some 20%Z)) ∧
  validate_event_request sample_trade_request "gw-1" = inr FailedPrecondition.
Proof.
  pose proof (legacy_requests_are_spot_btcusdt sample_book_request sample_trade_request "gw-1"
    (inl (MkValidatedOrderBookSubscription "request-1" "gw-1" (Some 20%Z)))
    (inr FailedPrecondition) ltac:(discriminate) ltac:(discriminate)) as [H1 H2].
  split.
  - apply H1. split; [vm_compute; reflexivity|]. split; reflexivity.
  - apply H2. split; [vm_compute; reflexivity|].
    exists (MkEventSelector 1 1 "BTCUSDT" 2). split; [reflexivity|]. split; reflexivity.
Defined.
End Sample.
