(* ===== verification/GrpcStreams.v ===== *)
(** * GrpcStreams: the streaming RPC handlers

    Models [SubscribeOrderBook] and [SubscribeEvents] of
    [src/src/g7/grpc_service.cpp]: one handler per call, which registers its context,
    validates the request, selects the product, is admitted to a subscriber channel and
    then peeks, writes and acknowledges until the client, the channel or the server ends
    the stream.  Both handlers run the same loop ([serve]) over the interface
    [SessionChannel] of [Session]; [StreamHandler] holds what differs.

    What the gRPC library, the client and the rest of the server decide is read from
    fields of the call ([..._answer], [cancelled], [selected]) that the others may
    change between any two sections of the handler ([others]).  The calls that the
    contexts of the service serve are modelled in [GrpcService]. *)

From Stdlib Require Import Ascii.
From S2P Require Import Prelude Ring Wire Text Session OrderBookPublication OrderBookSession.
From S2P Require Import EventPublication EventSession Registry GrpcRequests Programs Projection.
From S2P Require Import MarketRuntime.

Open Scope gateway_scope.

(** ** Statuses *)

Inductive StatusCode : Type :=
| OK
| CANCELLED
| INVALID_ARGUMENT
| DEADLINE_EXCEEDED
| RESOURCE_EXHAUSTED
| FAILED_PRECONDITION
| INTERNAL
| UNAVAILABLE.

#[export] Instance StatusCode_eq_dec : EqDecision StatusCode.
Proof. solve_decision. Defined.

Record Status : Type := MkStatus {
  status_code : StatusCode;
  status_message : string
}.

Definition status_ok : Status := MkStatus OK "".

Inductive TrackResult : Type :=
| Tracked
| TrackClosed
| TrackFull.

#[export] Instance TrackResult_eq_dec : EqDecision TrackResult.
Proof. solve_decision. Defined.

(** The last part of [finalize_context]. *)
Definition finalized_status (selected_for_try_cancel : bool) (proposed_status : Status) : Status :=
  if bool_decide (status_code proposed_status = OK) && selected_for_try_cancel
  then MkStatus CANCELLED "server shutdown" else proposed_status.

Definition map_admission_error (error : SubscriptionAdmissionError) : Status :=
  match error with
  | SaNotLive => MkStatus UNAVAILABLE "market runtime is not Live/Synchronized"
  | SaPendingLimit | SaActiveLimit =>
      MkStatus RESOURCE_EXHAUSTED "bounded order-book subscription capacity is full"
  | SaInvalidDepthLimit => MkStatus INVALID_ARGUMENT "invalid depth_limit"
  | SaShuttingDown | SaStopped | SaNotStarted =>
      MkStatus UNAVAILABLE "order-book publication is unavailable"
  | SaClockError | SaIdExhausted | SaInternalError =>
      MkStatus INTERNAL "order-book subscription admission failed"
  end.

Definition map_event_admission_error (error : EventSubscriptionAdmissionError) : Status :=
  match error with
  | EeSourceUnavailable | EeShuttingDown => MkStatus UNAVAILABLE "event source is unavailable"
  | EeActiveLimit =>
      MkStatus RESOURCE_EXHAUSTED "bounded event subscription capacity is full"
  | EeClockError | EeIdExhausted | EeInternalError =>
      MkStatus INTERNAL "event subscription admission failed"
  end.

(** ** What the two streams do differently *)

(** [stream_idle]: the status with which the handler leaves when nothing is queued,
    from the state of the channel; [stream_ends]: leaving after the acknowledgement of
    this publication. *)
Class StreamHandler (C P Item Sub Error : Type) : Type := {
  stream_idle : C → option Status;
  stream_materialize : option MarketKey → C → P → outcome Item;
  stream_ends : P → bool;
  stream_admission_error : Error → Status;
  text_shutting_down : string;
  text_full : string;
  text_malformed : string;
  text_negotiation : string;
  text_unsupported_market : string;
  text_not_configured : string;
  text_missing_channel : string;
  text_materialize : string;
  text_seam : string;
  text_mismatch : string
}.

Section Handler.
Context {C P Item Sub Error : Type} `{Ops : SessionChannel C P}
  `{H : !StreamHandler C P Item Sub Error}.

(** One call.  [tracked]: the context is in [contexts_]; [asked]: the service that was
    asked for an admission; [channel]: the admitted channel; [written]: the items
    [Write] accepted; [closed]: the channel was closed from the writer; [released]: the
    runtime was notified, or the publication has removed the channel. *)
Record Call : Type := MkCall {
  tracked : bool;
  asked : option (Z * Sub);
  channel : option C;
  written : list Item;
  closed : bool;
  released : bool;
  track_answer : TrackResult;
  admit_answer : outcome (option C + Error);
  cancelled : bool;
  write_answer : outcome bool;
  selected : bool
}.
#[export] Instance Call_eta : Eta Call :=
  λ r, MkCall (tracked r) (asked r) (channel r) (written r) (closed r) (released r)
    (track_answer r) (admit_answer r) (cancelled r) (write_answer r) (selected r).

Abbreviation Thread := (prog Call).

(** [track_context(context)] *)
Definition track_context : Thread TrackResult :=
  atomically (λ s, (s <| tracked := bool_decide (track_answer s = Tracked) |>, track_answer s)).

(** [finalize]: the context is erased and a successful status of a selected context
    becomes a cancellation. *)
Definition finalize (proposed_status : Status) : Thread Status :=
  atomically (λ s, (s <| tracked := false |>, finalized_status (selected s) proposed_status)).

(** [~Untrack] of an exception. *)
Definition untrack_context : Thread () := modify (λ s, s <| tracked := false |>).

(** The admission asked of the selected service. *)
Definition ask_admission (service : Z) (subscription : Sub) : Thread (outcome (option C + Error)) :=
  atomically (λ s,
    (s <| asked := Some (service, subscription) |>
       <| channel := match admit_answer s with Returned (inl c) => c | _ => None end |>,
     admit_answer s)).

(** [writer->Write(item)], or the override of the tests. *)
Definition write (item : Item) : Thread (outcome bool) :=
  atomically (λ s,
    (match write_answer s with
     | Returned true => s <| written ::= λ l, l ++ [item] |>
     | _ => s
     end, write_answer s)).

Definition acknowledge_publication (publication : P) : Thread AcknowledgeResult :=
  atomically (λ s,
    match channel s with
    | Some c => let '(c', r) := sc_acknowledge publication c in (s <| channel := Some c' |>, r)
    | None => (s, AckClosed)
    end).

(** The destructor of [CloseSubscription]. *)
Definition close_subscription : Thread () :=
  modify (λ s, s <| channel ::= fmap sc_close_from_writer |> <| closed := true |>) ;;
  modify (λ s, s <| released := true |>).

Definition client_cancelled : Status := MkStatus CANCELLED "client cancelled".

(** The loop, for at most [fuel] rounds; [None] when they are not enough. *)
Fixpoint serve (key : option MarketKey) (fuel : nat) : Thread (option Status) :=
  match fuel with
  | 0 => mret None
  | S fuel =>
      is_cancelled ← read cancelled;
      if is_cancelled : bool then Some <$> finalize client_cancelled else
      peeked ← read (λ s, channel s ≫= sc_peek);
      match peeked with
      | None =>
          idle ← read (λ s, channel s ≫= stream_idle);
          match idle with
          | Some status => Some <$> finalize status
          | None => serve key fuel
          end
      | Some publication =>
          item ← read (λ s, match channel s with
                            | Some c => stream_materialize key c publication
                            | None => Threw
                            end);
          match item with
          | Threw => Some <$> finalize (MkStatus INTERNAL text_materialize)
          | Returned item =>
              wrote ← write item;
              match wrote with
              | Threw => Some <$> finalize (MkStatus INTERNAL text_seam)
              | Returned write_succeeded =>
                  is_cancelled ← read cancelled;
                  if is_cancelled || negb write_succeeded then
                    is_cancelled ← read cancelled;
                    Some <$> finalize (if is_cancelled : bool then client_cancelled else status_ok)
                  else
                    acknowledged ← acknowledge_publication publication;
                    match acknowledged with
                    | AckMismatch => Some <$> finalize (MkStatus INTERNAL text_mismatch)
                    | AckClosed => Some <$> finalize status_ok
                    | AckAcknowledged =>
                        if stream_ends publication then Some <$> finalize status_ok
                        else serve key fuel
                    end
              end
          end
      end
  end.

(** From the selected service to the end of the stream. *)
Definition serve_admitted (key : option MarketKey) (service : option Z) (subscription : Sub)
  (fuel : nat) : Thread (outcome (option Status)) :=
  match service with
  | None => (Returned ∘ Some) <$> finalize (MkStatus UNAVAILABLE text_not_configured)
  | Some service =>
      admission ← ask_admission service subscription;
      match admission with
      | Threw => untrack_context ;; mret Threw
      | Returned (inr failure) => (Returned ∘ Some) <$> finalize (stream_admission_error failure)
      | Returned (inl None) => (Returned ∘ Some) <$> finalize (MkStatus INTERNAL text_missing_channel)
      | Returned (inl (Some _)) =>
          status ← serve key fuel;
          (match status with Some _ => close_subscription | None => mret () end) ;;
          mret (Returned status)
      end
  end.

(** The common course of the handlers: [validated] is the outcome of the validation and
    [service_of] the member of [MarketServices] that serves this stream. *)
Definition handle (arguments : bool) (validated : Sub + RequestValidationError)
  (registry : option (list MarketServices)) (service_of : MarketServices → option Z)
  (single : option Z) (key : MarketKey) (fuel : nat) : Thread (outcome (option Status)) :=
  if negb arguments then mret (Returned (Some (MkStatus INVALID_ARGUMENT "null RPC argument"))) else
  tracked ← track_context;
  match tracked with
  | TrackClosed => mret (Returned (Some (MkStatus UNAVAILABLE text_shutting_down)))
  | TrackFull => mret (Returned (Some (MkStatus RESOURCE_EXHAUSTED text_full)))
  | Tracked =>
      match validated with
      | inr InvalidArgument => (Returned ∘ Some) <$> finalize (MkStatus INVALID_ARGUMENT text_malformed)
      | inr FailedPrecondition =>
          (Returned ∘ Some) <$> finalize (MkStatus FAILED_PRECONDITION text_negotiation)
      | inl subscription =>
          match registry with
          | None => serve_admitted None single subscription fuel
          | Some entries =>
              match find_services entries key with
              | None =>
                  (Returned ∘ Some) <$> finalize (MkStatus INVALID_ARGUMENT text_unsupported_market)
              | Some services =>
                  serve_admitted (Some (services_key services)) (service_of services)
                    subscription fuel
              end
          end
      end
  end.
End Handler.
Arguments Call : clear implicits.

(** ** The handler alone *)

Section Alone.
Context {C P Item Sub Error : Type} `{Ops : SessionChannel C P}
  `{H : !StreamHandler C P Item Sub Error}.

(** A client that stays and takes what it is given. *)
Definition patient (s : Call C Item Sub Error) : Prop :=
  cancelled s = false ∧ write_answer s = Returned true.

(** A round that delivers a publication. *)
Lemma run_round key fuel (s : Call C Item Sub Error) c c' p item r :
  patient s → channel s = Some c → sc_peek c = Some p →
  stream_materialize key c p = Returned item → sc_acknowledge p c = (c', r) →
  run (serve key (S fuel)) s
  = let s' := s <| written ::= λ l, l ++ [item] |> <| channel := Some c' |> in
    match r with
    | AckMismatch => run (Some <$> finalize (MkStatus INTERNAL text_mismatch)) s'
    | AckClosed => run (Some <$> finalize status_ok) s'
    | AckAcknowledged =>
        if stream_ends p then run (Some <$> finalize status_ok) s' else run (serve key fuel) s'
    end.
Proof.
  destruct s as [tr ask ch wr cl re ta aa ca wa se]. intros [Hca Hwa] Hc Hp Hm Ha.
  simpl in *. subst. simpl. rewrite Hp. simpl. rewrite Hm. simpl. rewrite Ha. simpl.
  destruct r; [|done|done]. by destruct (stream_ends p).
Qed.
End Alone.

(** ** The two handlers *)

Section Handlers.
Context `{W : WireEnums} {Snapshot : Type}.

#[export] Instance order_book_handler :
  StreamHandler (SubscriberChannel.Channel Snapshot) (SubscriberChannel.PeekedPublication Snapshot)
    (OrderBookStreamItem Snapshot) ValidatedOrderBookSubscription SubscriptionAdmissionError := {|
  stream_idle c :=
    if bool_decide (SubscriberChannel.state c = SubClosed) then Some status_ok else None;
  stream_materialize key c p := materialize_stream_item c p key;
  stream_ends := SubscriberChannel.is_terminal;
  stream_admission_error := map_admission_error;
  text_shutting_down := "order-book publication is shutting down";
  text_full := "bounded G7 handler tracking is full";
  text_malformed := "unsupported or malformed order-book request";
  text_negotiation := "required payload schema negotiation unavailable";
  text_unsupported_market := "unsupported order-book market";
  text_not_configured := "order-book runtime is unavailable";
  text_missing_channel := "accepted channel is missing";
  text_materialize := "failed to materialize order-book stream item";
  text_seam := "subscriber writer test seam failed";
  text_mismatch := "subscriber peek/ack invariant failed"
|}.

#[export] Instance event_handler :
  StreamHandler EventSubscriberChannel.Channel PeekedEventPublication GatewayEventEnvelope
    ValidatedEventSubscription EventSubscriptionAdmissionError := {|
  stream_idle c :=
    if bool_decide (EventSubscriberChannel.state c = EcTerminalUnavailable)
    then Some (MkStatus UNAVAILABLE "event source terminated permanently")
    else if bool_decide (EventSubscriberChannel.state c = EcClosed) then Some status_ok
    else None;
  stream_materialize key c p := materialize_event_envelope c p key;
  stream_ends _ := false;
  stream_admission_error := map_event_admission_error;
  text_shutting_down := "event publication is shutting down";
  text_full := "bounded gRPC handler tracking is full";
  text_malformed := "unsupported or malformed event request";
  text_negotiation := "required event payload schema unavailable";
  text_unsupported_market := "unsupported event market";
  text_not_configured := "G9 event publication is not configured";
  text_missing_channel := "accepted event channel is missing";
  text_materialize := "failed to materialize event stream item";
  text_seam := "event subscriber writer test seam failed";
  text_mismatch := "event subscriber peek/ack invariant failed"
|}.

Definition SubscribeOrderBook (arguments : bool) (request : OrderBookSubscriptionRequest)
  (gateway_instance_id : string) (registry : option (list MarketServices)) (runtime : option Z)
  (fuel : nat)
  : prog (Call (SubscriberChannel.Channel Snapshot) (OrderBookStreamItem Snapshot)
            ValidatedOrderBookSubscription SubscriptionAdmissionError) (outcome (option Status)) :=
  handle arguments
    (match registry with
     | Some _ => validate_g11_order_book_request request gateway_instance_id
     | None => validate_order_book_request request gateway_instance_id
     end)
    registry services_runtime runtime
    (MkMarketKey (obr_venue request) (obr_market request) (obr_symbol request)) fuel.

Definition SubscribeEvents (arguments : bool) (request : EventSubscriptionRequest)
  (gateway_instance_id : string) (registry : option (list MarketServices))
  (event_publication : option Z) (fuel : nat)
  : prog (Call EventSubscriberChannel.Channel GatewayEventEnvelope ValidatedEventSubscription
            EventSubscriptionAdmissionError) (outcome (option Status)) :=
  let selector := hd (MkEventSelector 0 0 "" 0) (esr_selectors request) in
  handle arguments
    (match registry with
     | Some _ => validate_g11_event_request request gateway_instance_id
     | None => validate_event_request request gateway_instance_id
     end)
    registry services_event_publication event_publication
    (MkMarketKey (sel_venue selector) (sel_market selector) (sel_symbol selector)) fuel.
End Handlers.

(** ** What a stream promises *)

(** The laws of [StreamHandler]: whatever the channel still has to deliver can be
    written, a notice that ends the stream is never acknowledged as one of several, and a
    channel closed by the handler gives nothing any more. *)
Class StreamHandlerOk (C P Item Sub Error : Type) `{Ops : SessionChannel C P}
  `{Ok : !SessionChannelOk C P} `{H : !StreamHandler C P Item Sub Error} : Type := {
  item_sequence : Item → Z;
  item_last : Item → bool;
  sh_materialize key base c items p :
    sc_inv base c items → p ∈ items →
    ∃ item, stream_materialize key c p = Returned item ∧ item_sequence item = sc_sequence p;
  sh_last key c p item c' :
    stream_materialize key c p = Returned item → item_last item = true →
    snd (sc_acknowledge p c') ≠ AckAcknowledged;
  sh_idle c status : stream_idle c = Some status → status_code status ≠ INTERNAL;
  sh_closed c c' : rtc sc_producer (sc_close_from_writer c) c' → sc_peek c' = None
}.

Section Contract.
Context {C P Item Sub Error : Type} `{HOk : StreamHandlerOk C P Item Sub Error}.
(** The admissions the handler may ask for. *)
Context (may_ask : Z → Sub → Prop).
Abbreviation Call := (Call C Item Sub Error).
Implicit Types (s : Call) (c : C) (p : P).

(** An admission answers a channel that was staged and published, and no other. *)
Definition answer_sound s : Prop :=
  ∀ c, admit_answer s = Returned (inl (Some c)) → ∃ items, sc_inv 1 c items.

(** What the rest of the program may do to a call. *)
Record others s s' : Prop := {
  ot_tracked : tracked s' = tracked s;
  ot_asked : asked s' = asked s;
  ot_channel : option_Forall2 (rtc sc_producer) (channel s) (channel s');
  ot_written : written s' = written s;
  ot_closed : closed s' = closed s;
  ot_released : released s' = released s;
  ot_answer : answer_sound s → answer_sound s'
}.

(** The items written so far are numbered 1, 2, ... and none follows a last one, the
    channel is sound and only an allowed admission was asked for. *)
Record call_inv s : Prop := {
  cl_written : item_sequence <$> written s = seqZ 1 (length (written s));
  cl_last : Forall (λ item, item_last item = false) (removelast (written s));
  cl_channel : ∀ c, channel s = Some c → ∃ base items, sc_inv base c items;
  cl_answer : answer_sound s;
  cl_asked : ∀ service sub, asked s = Some (service, sub) → may_ask service sub
}.

Lemma producers base c items c' :
  sc_inv base c items → rtc sc_producer c c' →
  ∃ items', sc_inv base c' items' ∧ items `prefix_of` items'.
Proof.
  intros Hi Hr. revert items Hi. induction Hr as [c|c c1 c2 Hp Hr IH]; intros items Hi; [by exists items|].
  destruct (sc_inv_producer _ _ _ _ Hi Hp) as (l1 & Hi1 & H1).
  destruct (IH _ Hi1) as (l2 & Hi2 & H2). exists l2. split; [done|by etrans].
Qed.

Lemma others_channel s s' c' :
  others s s' → channel s' = Some c' → ∃ c, channel s = Some c ∧ rtc sc_producer c c'.
Proof. intros Ho Hc. pose proof (ot_channel _ _ Ho) as Hrel. rewrite Hc in Hrel. inversion Hrel; eauto. Qed.

Lemma others_inv s s' : others s s' → call_inv s → call_inv s'.
Proof.
  intros Ho [Hw Hl Hc Ha Hk]. split.
  - by rewrite (ot_written _ _ Ho).
  - by rewrite (ot_written _ _ Ho).
  - intros c' Hc'. destruct (others_channel _ _ _ Ho Hc') as (c & Hcc & Hr).
    destruct (Hc c Hcc) as (base & items & Hi).
    destruct (producers _ _ _ _ Hi Hr) as (items' & Hi' & _). eauto.
  - by apply (ot_answer _ _ Ho).
  - by rewrite (ot_asked _ _ Ho).
Qed.

Definition base_of s : Z := (1 + length (written s))%Z.

(** No last item was written; one was, if any, for [p]. *)
Definition ongoing s : Prop := Forall (λ item, item_last item = false) (written s).
Definition ongoing_after p s : Prop :=
  (∃ c', snd (sc_acknowledge p c') = AckAcknowledged) → ongoing s.

(** The handler holds nothing; it holds [p]; it has written [p]. *)
Definition ready s : Prop :=
  ongoing s ∧ ∃ c items, channel s = Some c ∧ sc_inv (base_of s) c items ∧ True.
Definition holding p s : Prop :=
  ongoing s ∧ ∃ c items, channel s = Some c ∧ sc_inv (base_of s) c items ∧ items !! 0 = Some p.
Definition wrote p s : Prop :=
  ongoing_after p s ∧
  ∃ c items, channel s = Some c ∧ sc_inv (base_of s - 1) c items ∧ items !! 0 = Some p.

Abbreviation stable := (Programs.stable call_inv others).
Abbreviation triple := (Programs.triple call_inv others).

(** Where the queue starts is not changed by the others. *)
Lemma stable_queue (start : Call → Z) (Q : list P → Prop) :
  (∀ s s', others s s' → start s' = start s) →
  (∀ l l', l `prefix_of` l' → Q l → Q l') →
  stable (λ s, ∃ c items, channel s = Some c ∧ sc_inv (start s) c items ∧ Q items).
Proof.
  intros Hstart HQ s s' _ _ (c & items & Hc & Hi & Hq) Ho.
  pose proof (ot_channel _ _ Ho) as Hrel. rewrite Hc in Hrel. inversion Hrel as [? c' Hr Heq Hc'|]; subst.
  destruct (producers _ _ _ _ Hi Hr) as (items' & Hi' & Hpre).
  exists c', items'. rewrite (Hstart _ _ Ho). split_all; [done|done|by eapply HQ].
Qed.

Lemma others_base s s' : others s s' → base_of s' = base_of s.
Proof. intros Ho. unfold base_of. by rewrite (ot_written _ _ Ho). Qed.

Lemma stable_written (Q : list Item → Prop) : stable (λ s, Q (written s)).
Proof. intros s s' _ _ HQ Ho. by rewrite (ot_written _ _ Ho). Qed.

Lemma stable_ready : stable ready.
Proof.
  apply stable_and; [apply (stable_written (Forall (λ item, item_last item = false)))|].
  by apply (stable_queue base_of (λ _, True) others_base).
Qed.

Lemma stable_holding p : stable (holding p).
Proof.
  apply stable_and; [apply (stable_written (Forall (λ item, item_last item = false)))|].
  apply stable_queue; [apply others_base|]. intros. by eapply prefix_lookup_Some.
Qed.

Lemma stable_wrote p : stable (wrote p).
Proof.
  apply stable_and.
  { apply (stable_written (λ w, (∃ c', snd (sc_acknowledge p c') = AckAcknowledged) →
                                Forall (λ item, item_last item = false) w)). }
  apply (stable_queue (λ s, base_of s - 1)%Z); [|intros; by eapply prefix_lookup_Some].
  intros s s' Ho. by rewrite (others_base _ _ Ho).
Qed.

#[local] Hint Resolve stable_ready stable_holding stable_wrote : gateway.

(** The handler is about to leave: [leaving] is what closes the stream. *)
Definition left_with (r : option Status) s : Prop :=
  match r with
  | Some status => tracked s = false ∧ is_Some (channel s) ∧
                   (status_code status = INTERNAL → status_message status = text_seam)
  | None => True
  end.

Lemma holding_ready p s : holding p s → ready s.
Proof. intros (? & c & l & ? & ? & _). split; [done|]. by exists c, l. Qed.

Definition admitted s : Prop := is_Some (channel s).

Lemma stable_admitted : stable admitted.
Proof.
  intros s s' _ _ [c Hc] Ho. pose proof (ot_channel _ _ Ho) as Hrel. rewrite Hc in Hrel.
  inversion Hrel. by eexists.
Qed.

#[local] Hint Resolve stable_admitted : gateway.

Lemma holding_admitted p s : holding p s → admitted s.
Proof. intros (_ & c & l & Hc & _). by exists c. Qed.
Lemma wrote_admitted p s : wrote p s → admitted s.
Proof. intros (_ & c & l & Hc & _). by exists c. Qed.
Lemma ready_admitted s : ready s → admitted s.
Proof. intros (_ & c & l & Hc & _). by exists c. Qed.

Lemma triple_finalize Pre status :
  (∀ s, Pre s → admitted s) → stable Pre →
  (status_code status = INTERNAL → status_message status = text_seam) →
  triple Pre (Some <$> finalize status) left_with.
Proof.
  intros HP Hst Hcode. apply (triple_bind _ _ (λ status', left_with (Some status'))).
  - apply triple_atomically; [done|]. intros s [Hw Hl Hc Ha Hk] Hs. cbn [fst snd]. split; [done|].
    unfold left_with, finalized_status. split_all; [done|exact (HP _ Hs)|].
    case_bool_decide as Hok; simpl; [|done]. destruct (selected s); simpl; [done|].
    by rewrite Hok.
  - intros status'. apply triple_ret. done.
Qed.

(** A publication the handler holds is the next to be delivered, and can be written. *)
Lemma held_sequence p s : holding p s → sc_sequence p = base_of s.
Proof.
  intros (_ & c & items & _ & Hi & Hp). destruct items as [|p' items]; simplify_eq/=.
  pose proof (sc_inv_sequence _ _ _ Hi) as Hs. simpl in Hs. rewrite seqZ_cons in Hs by lia.
  by injection Hs.
Qed.

Lemma triple_peek :
  triple ready (read (λ s, channel s ≫= sc_peek))
    (λ r s, match r with Some p => holding p s | None => ready s end).
Proof.
  apply triple_read; [auto with gateway|]. intros s _ (Ho & c & items & Hc & Hi & _). rewrite Hc. simpl.
  destruct (sc_peek c) as [p|] eqn:Hp; (split; [done|]); exists c, items; split_all; try done.
  by eapply sc_inv_peek.
Qed.

Lemma triple_materialize key p :
  triple (holding p)
    (read (λ s, match channel s with Some c => stream_materialize key c p | None => Threw end))
    (λ r s, holding p s ∧ ∃ item, r = Returned item ∧ item_sequence item = sc_sequence p ∧
       (item_last item = true → ∀ c', snd (sc_acknowledge p c') ≠ AckAcknowledged)).
Proof.
  apply triple_read; [auto with gateway|]. intros s _ Hh. split; [done|].
  destruct Hh as (_ & c & items & Hc & Hi & Hp). rewrite Hc.
  destruct (sh_materialize key (base_of s) c items p Hi ltac:(by eapply list_elem_of_lookup_2))
    as (item & Hit & Hseq).
  exists item. split; [done|]. split; [done|]. intros Hl c'. by eapply sh_last.
Qed.

Lemma triple_write p item :
  item_sequence item = sc_sequence p →
  (item_last item = true → ∀ c', snd (sc_acknowledge p c') ≠ AckAcknowledged) →
  triple (holding p) (write item)
    (λ r s, match r with Returned true => wrote p s | _ => holding p s end).
Proof.
  intros Hseq Hlast. apply triple_atomically; [auto with gateway|]. intros s [Hw Hl Hc Ha Hk] Hh.
  cbn [fst snd]. destruct (write_answer s) as [[]|]; [|by split..]. pose proof Hh as [Ho _]. split.
  - split; [|unfold ongoing in Ho; simpl; by rewrite removelast_last|done..].
    simpl. rewrite fmap_app. simpl. rewrite Hseq, (held_sequence _ _ Hh).
    pose proof (seqZ_delivered (item_sequence <$> written s) (base_of s)) as Hd.
    rewrite !length_app, !length_fmap in Hd. rewrite length_app. apply Hd; [done|].
    unfold base_of. done.
  - destruct Hh as (_ & c & items & Hcc & Hi & Hp). split.
    { intros (c' & Hack). apply Forall_snoc; [exact Ho|].
      apply not_true_is_false. intros Hlt. exact (Hlast Hlt c' Hack). }
    exists c, items. split_all; [done| |done].
    unfold base_of in *. simpl. rewrite length_app. simpl.
    replace (1 + (length (written s) + 1)%nat - 1)%Z with (1 + length (written s))%Z by lia. done.
Qed.

Lemma triple_acknowledge p :
  triple (wrote p) (acknowledge_publication p)
    (λ r s, r ≠ AckMismatch ∧ admitted s ∧ (r = AckAcknowledged → ready s)).
Proof.
  apply triple_atomically; [auto with gateway|]. intros s [Hw Hl Hc Ha Hk] (Ho & c & items & Hcc & Hi & Hp).
  rewrite Hcc. destruct items as [|p' items]; simplify_eq/=.
  destruct (sc_acknowledge p c) as [c' r] eqn:Hack.
  destruct (sc_inv_acknowledge _ _ _ _ _ _ Hi Hack) as (Hm & Hok & base' & items' & Hi').
  cbn [fst snd]. split.
  - split; [done|done| |done..]. intros c1 [= <-]. eauto.
  - split_all; [done|by eexists|]. intros Hr.
    split; [apply Ho; exists c; by rewrite Hack|]. exists c', items. split; [done|]. split; [|done].
    replace (base_of _) with (base_of s - 1 + 1)%Z by (unfold base_of; simpl; lia). by apply Hok.
Qed.

#[local] Hint Resolve ready_admitted holding_admitted wrote_admitted : gateway.

Lemma triple_none Pre : triple Pre (mret None) left_with.
Proof. by apply triple_ret. Qed.

(** A section that only reads, from an assertion that implies [admitted]. *)
Lemma triple_leave_after Pre {A} (f : Call → A) (status : A → Status) :
  stable Pre → (∀ s, Pre s → admitted s) →
  (∀ a, status_code (status a) = INTERNAL → status_message (status a) = text_seam) →
  triple Pre (a ← read f; Some <$> finalize (status a)) left_with.
Proof.
  intros Hst Hadm Hcode. apply (triple_bind _ _ (λ _, Pre)).
  - by apply triple_read.
  - intros a. exact (triple_finalize Pre (status a) Hadm Hst (Hcode a)).
Qed.

Lemma triple_round key p (again : prog Call (option Status)) :
  triple ready again left_with →
  triple (holding p)
    (item ← read (λ s, match channel s with
                       | Some c => stream_materialize key c p
                       | None => Threw
                       end);
     match item with
     | Threw => Some <$> finalize (MkStatus INTERNAL text_materialize)
     | Returned item =>
         wrote ← write item;
         match wrote with
         | Threw => Some <$> finalize (MkStatus INTERNAL text_seam)
         | Returned write_succeeded =>
             is_cancelled ← read cancelled;
             if is_cancelled || negb write_succeeded then
               is_cancelled ← read cancelled;
               Some <$> finalize (if is_cancelled : bool then client_cancelled else status_ok)
             else
               acknowledged ← acknowledge_publication p;
               match acknowledged with
               | AckMismatch => Some <$> finalize (MkStatus INTERNAL text_mismatch)
               | AckClosed => Some <$> finalize status_ok
               | AckAcknowledged =>
                   if stream_ends p then Some <$> finalize status_ok else again
               end
         end
     end) left_with.
Proof.
  intros Hagain. eapply triple_bind; [apply triple_materialize|]. intros item s Hi [Hh (it & -> & Hseq & Hlast)].
  revert s Hi Hh. apply (triple_bind (holding p) _ _ _ _ (triple_write p it Hseq Hlast)).
  intros [ok|]; [|apply triple_finalize; eauto with gateway].
  set (Pre := λ s, if ok : bool then wrote p s else holding p s).
  assert (HPre : stable Pre) by (destruct ok; unfold Pre; auto with gateway).
  assert (Hadm : ∀ s, Pre s → admitted s) by (intros s; destruct ok; unfold Pre; eauto with gateway).
  apply (triple_bind _ _ (λ _, Pre)).
  { eapply triple_conseq; [apply (triple_read Pre cancelled (λ _, Pre)); [done|done]| |done].
    intros s _. by destruct ok. }
  intros c. destruct (c || negb ok) eqn:Hleave.
  { apply triple_leave_after; [done|done|by intros []]. }
  apply orb_false_iff in Hleave as [_ Hok]. apply negb_false_iff in Hok. subst ok.
  eapply triple_bind; [apply triple_acknowledge|]. intros r s Hi (Hm & Ha & Hr).
  destruct r; [|exact (triple_finalize admitted status_ok ltac:(done) stable_admitted ltac:(done) s Hi Ha)|done].
  destruct (stream_ends p); [|by apply Hagain; auto].
  exact (triple_finalize admitted status_ok ltac:(done) stable_admitted ltac:(done) s Hi Ha).
Qed.

Lemma triple_serve key fuel : triple ready (serve key fuel) left_with.
Proof.
  induction fuel as [|fuel IH]; cbn [serve]; [apply triple_none|].
  apply (triple_bind _ _ (λ _, ready)); [apply triple_read; auto with gateway|].
  intros [|]; [by apply triple_finalize; eauto with gateway|].
  eapply triple_bind; [apply triple_peek|]. intros [p|]; [by apply triple_round|].
  apply (triple_bind _ _ (λ r s, ready s ∧ ∀ st, r = Some st → status_code st ≠ INTERNAL)).
  - apply triple_read; [auto with gateway|]. intros s _ Hs. split; [done|].
    destruct Hs as (_ & c & items & Hc & _). rewrite Hc. simpl. intros st. apply sh_idle.
  - intros [st|] s Hi [Hr Hst]; [|by apply IH].
    specialize (Hst st eq_refl). revert s Hi Hr. apply triple_finalize; eauto with gateway. done.
Qed.

(** *** The whole handler *)

(** A call that has just arrived. *)
Definition fresh s : Prop := channel s = None ∧ written s = [].

Lemma stable_fresh : stable fresh.
Proof.
  intros s s' _ _ [Hc Hw] Ho. split; [|by rewrite (ot_written _ _ Ho)].
  pose proof (ot_channel _ _ Ho) as Hrel. rewrite Hc in Hrel. by inversion Hrel.
Qed.

(** A channel that gives nothing any more, whatever its producer does. *)
Definition exhausted s : Prop :=
  ∀ c c', channel s = Some c → rtc sc_producer c c' → sc_peek c' = None.

(** What a handler that has ended leaves behind. *)
Record finished (status : option Status) s : Prop := {
  fi_tracked : tracked s = false;
  fi_closed : admitted s → exhausted s ∧ released s = true;
  fi_refused : channel s = None → written s = [];
  fi_status : admitted s → ∀ st, status = Some st → status_code st = INTERNAL →
              status_message st = text_seam
}.

Definition ended (r : outcome (option Status)) s : Prop :=
  match r with
  | Returned None => True
  | Returned (Some st) => finished (Some st) s
  | Threw => finished None s
  end.

Lemma stable_ended r : stable (ended r).
Proof.
  assert (Hf : ∀ st, stable (finished st)).
  { intros st s s' Hi Hi' [Ht Hcl Hr Hs] Ho.
    assert (Hadm : admitted s' → admitted s).
    { intros [c' Hc']. destruct (others_channel _ _ _ Ho Hc') as (c & Hc & _). by exists c. }
    split.
    - by rewrite (ot_tracked _ _ Ho).
    - intros Ha. destruct (Hcl (Hadm Ha)) as [He Hrel].
      split; [|by rewrite (ot_released _ _ Ho)].
      intros c1 c2 Hc1 Hp. destruct (others_channel _ _ _ Ho Hc1) as (c & Hc & Hp').
      eapply He; [done|by etrans].
    - rewrite (ot_written _ _ Ho). intros Hn. apply Hr.
      pose proof (ot_channel _ _ Ho) as Hrel. rewrite Hn in Hrel. by inversion Hrel.
    - intros Ha. apply Hs. by apply Hadm. }
  destruct r as [[st|]|]; [apply Hf|done|apply Hf].
Qed.

#[local] Hint Resolve stable_fresh stable_ended : gateway.

Lemma fresh_finished st s : fresh s → tracked s = false → finished st s.
Proof. intros [Hc Hw] Ht. split; try done; intros [c Hcc]; congruence. Qed.

(** Refusals before the admission. *)
Lemma triple_refuse status :
  triple fresh ((Returned ∘ Some) <$> finalize status) ended.
Proof.
  apply (triple_bind _ _ (λ st, finished (Some st))).
  - apply triple_atomically; [auto with gateway|]. intros s [Hw Hl Hc Ha Hk] Hf. cbn [fst snd].
    split; [done|]. by apply fresh_finished.
  - intros st. by apply triple_ret.
Qed.

Lemma stable_exhausted : stable exhausted.
Proof.
  intros s s' _ _ He Ho c1 c2 Hc1 Hp.
  destruct (others_channel _ _ _ Ho Hc1) as (c & Hc & Hp'). eapply He; [done|by etrans].
Qed.

Lemma stable_left st : stable (left_with st).
Proof.
  intros s s' Hi Hi' Hl Ho. destruct st as [st|]; [|done]. destruct Hl as (Ht & Ha & Hs).
  split; [by rewrite (ot_tracked _ _ Ho)|]. split; [exact (stable_admitted s s' Hi Hi' Ha Ho)|done].
Qed.

#[local] Hint Resolve stable_exhausted stable_left stable_and : gateway.

(** The handler has left its loop: the channel is closed, then its owner told. *)
Lemma triple_close_subscription st :
  triple (left_with (Some st)) close_subscription (λ _, finished (Some st)).
Proof.
  apply (triple_bind _ _ (λ _ s, left_with (Some st) s ∧ exhausted s)).
  - apply triple_modify; [auto with gateway|]. intros s [Hw Hl Hc Ha Hk] (Ht & [c Hcc] & Hs). split.
    + split; [done|done| |done..]. simpl. rewrite Hcc. intros c' [= <-].
      destruct (Hc c Hcc) as (base & items & Hi). by eapply sc_inv_close.
    + split; [split; [done|]; split; [|done]; eexists; simpl; by rewrite Hcc|].
      intros c1 c2. simpl. rewrite Hcc. intros [= <-]. apply sh_closed.
  - intros _. apply triple_modify; [auto with gateway|].
    intros s [Hw Hl Hc Ha Hk] [(Ht & Hadm & Hs) He]. split; [by split|]. split; try done.
    + intros Hn. destruct Hadm as [c Hcc]. simpl in Hn. congruence.
    + intros _ st' [= <-]. done.
Qed.

Lemma triple_ask service sub :
  may_ask service sub →
  triple fresh (ask_admission service sub)
    (λ r s, match r with Returned (inl (Some _)) => ready s | _ => fresh s end).
Proof.
  intros Hmay. apply triple_atomically; [auto with gateway|].
  intros s [Hw Hl Hc Ha Hk] [Hn He]. cbn [fst snd].
  assert (Hk' : ∀ service' sub', Some (service, sub) = Some (service', sub') → may_ask service' sub')
    by by intros ?? [= <- <-].
  destruct (admit_answer s) as [[[c|]|e]|] eqn:Hans.
  - destruct (Ha c Hans) as (items & Hi). split.
    + split; [done|done| |exact Ha|done]. intros c' [= <-]. eauto.
    + split; [unfold ongoing; simpl; by rewrite He|].
      exists c, items. split; [done|]. unfold base_of. simpl. by rewrite He.
  - split; [|by split]. split; [done|done|done|exact Ha|done].
  - split; [|by split]. split; [done|done|done|exact Ha|done].
  - split; [|by split]. split; [done|done|done|exact Ha|done].
Qed.

Lemma triple_admitted key service sub fuel :
  (∀ a, service = Some a → may_ask a sub) →
  triple fresh (serve_admitted key service sub fuel) ended.
Proof.
  intros Hmay. unfold serve_admitted. destruct service as [a|]; [|apply triple_refuse].
  eapply triple_bind; [apply triple_ask; by apply Hmay|].
  intros [[[c|]|e]|]; [|apply triple_refuse|apply triple_refuse|].
  - eapply triple_bind; [apply triple_serve|]. intros [st|].
    + eapply triple_bind; [apply triple_close_subscription|]. intros []. by apply triple_ret.
    + apply (triple_bind _ _ (λ _ _, True)); [by apply triple_ret|]. intros []. by apply triple_ret.
  - apply (triple_bind _ _ (λ _, finished None)).
    + apply triple_modify; [auto with gateway|]. intros s [Hw Hl Hc Ha Hk] Hf.
      split; [done|]. by apply fresh_finished.
    + intros []. by apply triple_ret.
Qed.

(** The context was not admitted: nothing was registered. *)
Definition untouched s : Prop := fresh s ∧ tracked s = false.

Lemma triple_handle arguments validated registry service_of single key fuel :
  (∀ sub a, validated = inl sub →
     match registry with
     | Some entries => ∃ services, find_services entries key = Some services ∧
                                   service_of services = Some a
     | None => single = Some a
     end → may_ask a sub) →
  triple untouched (handle arguments validated registry service_of single key fuel) ended.
Proof.
  intros Hmay. unfold handle. destruct arguments; cbn [negb].
  2: { apply triple_ret. intros s _ [Hf Ht]. by apply fresh_finished. }
  assert (Hst : stable untouched).
  { intros s s' Hi Hi' [Hf Ht] Ho. split; [exact (stable_fresh s s' Hi Hi' Hf Ho)|by rewrite (ot_tracked _ _ Ho)]. }
  apply (triple_bind _ _ (λ r s, fresh s ∧ (r ≠ Tracked → tracked s = false))).
  { apply triple_atomically; [done|]. intros s [Hw Hl Hc Ha Hk] [Hf Ht]. cbn [fst snd].
    split; [done|]. split; [done|]. simpl. intros Hr. by apply bool_decide_eq_false. }
  assert (Hno : ∀ r st, r ≠ Tracked →
            triple (λ s, fresh s ∧ (r ≠ Tracked → tracked s = false)) (mret (Returned (Some st))) ended).
  { intros r st Hr. apply triple_ret. intros s _ [Hf Ht]. apply fresh_finished; [done|by apply Ht]. }
  intros [| |]; [|by apply Hno|by apply Hno].
  apply (triple_conseq _ fresh _ _ ended); [|by intros s _ []|done].
  destruct validated as [sub|[]]; [|apply triple_refuse|apply triple_refuse].
  destruct registry as [entries|].
  - destruct (find_services entries key) as [services|] eqn:Hfind; [|apply triple_refuse].
    apply triple_admitted. intros a Hs. apply (Hmay sub a eq_refl). by exists services.
  - apply triple_admitted. intros a Hs. by apply (Hmay sub a eq_refl).
Qed.

(** *** Any interleaving *)

#[export] Instance others_refl : Reflexive others.
Proof. intros s. by split. Qed.

#[export] Instance others_trans : Transitive others.
Proof.
  intros s1 s2 s3 [H1 H2 H3 H4 H5 H6 H7] [G1 G2 G3 G4 G5 G6 G7]. split; try congruence; [|by auto].
  destruct H3; inversion G3; constructor. by etrans.
Qed.

(** A call that has just arrived: nothing was done for it. *)
Definition call_start s : Prop :=
  channel s = None ∧ written s = [] ∧ tracked s = false ∧ asked s = None ∧ answer_sound s.

Lemma handler_contract arguments validated registry service_of single key fuel s0 s (thread : prog Call (outcome (option Status))) :
  (∀ sub a, validated = inl sub →
     match registry with
     | Some entries => ∃ services, find_services entries key = Some services ∧
                                   service_of services = Some a
     | None => single = Some a
     end → may_ask a sub) →
  call_start s0 →
  star (interleave others) (s0, handle arguments validated registry service_of single key fuel)
       (s, thread) →
  call_inv s ∧ (∀ r, thread = Done r → ended r s).
Proof.
  intros Hmay (Hc & Hw & Ht & Ha & Hans) Hstar.
  assert (Hi0 : call_inv s0).
  { split; [by rewrite Hw|by rewrite Hw|by rewrite Hc|done|by rewrite Ha]. }
  pose proof (triple_handle arguments validated registry service_of single key fuel Hmay s0 Hi0
                ltac:(by split)) as Hsafe.
  destruct (safe_interleaved _ _ _ _ _ _ _ others_refl others_trans others_inv Hi0 Hsafe Hstar)
    as [Hi (s1 & Hr & Hs)].
  split; [done|]. intros r ->. destruct Hs as [Hi1 He]. exact (stable_ended r s1 s Hi1 Hi He Hr).
Qed.
End Contract.

(** ** The order-book stream and the event stream *)

Section Streams.
Context `{W : WireEnums} {Snapshot : Type}.

Lemma order_book_materializes key base c items p :
  sc_inv base c items → p ∈ items →
  ∃ item, materialize_stream_item (Snapshot := Snapshot) c p key = Returned item ∧
          dm_session_sequence (item_delivery item) = sc_sequence p.
Proof.
  intros (q & Hi & <-) Hp. apply elem_of_app in Hp as [Hp|Hp].
  - apply list_elem_of_fmap in Hp as (r & -> & Hr).
    pose proof (proj1 (Forall_forall _ _) (ci_payload _ _ _ Hi) r Hr) as Hpl. cbn beta in Hpl.
    unfold materialize_stream_item, materialize_stream_item_for. cbn.
    destruct key; destruct (SubscriberChannel.payload (sp_obj r)) as [| |[u|]];
      solve [done|eexists; by split].
  - destruct (SubscriberChannel.terminal c) as [t|]; simpl in Hp; [|by apply not_elem_of_nil in Hp].
    apply list_elem_of_singleton in Hp as ->.
    destruct key; (eexists; by split).
Qed.

Lemma closed_stays_closed c c' :
  rtc sc_producer (SubscriberChannel.close_from_writer (Snapshot := Snapshot) c) c' →
  SubscriberChannel.state c' = SubClosed.
Proof.
  intros Hr. remember (SubscriberChannel.close_from_writer c) as c0 eqn:Hc0.
  assert (Hst : SubscriberChannel.state c0 = SubClosed) by by subst. clear Hc0.
  induction Hr as [|c0 c1 c2 Hp Hr IH]; [done|]. apply IH.
  destruct Hp; unfold SubscriberChannel.admit_update, SubscriberChannel.terminalize;
    rewrite ?Hst; simpl; done.
Qed.

(** [item.has_consumer_gap()] *)
Definition has_consumer_gap (item : OrderBookStreamItem Snapshot) : bool :=
  match item_body item with ItemConsumerGap _ => true | _ => false end.

Lemma order_book_notice_is_last key c p item c' :
  materialize_stream_item c p key = Returned item → has_consumer_gap item = true →
  snd (SubscriberChannel.acknowledge p c') ≠ AckAcknowledged.
Proof.
  destruct p as [[r|] t].
  - unfold materialize_stream_item, materialize_stream_item_for. cbn [SubscriberChannel.peeked_ordinary].
    destruct key; destruct (SubscriberChannel.payload (sp_obj r)) as [| |[u|]];
      intros [= <-] Hgap; discriminate.
  - intros _ _. unfold SubscriberChannel.acknowledge. cbn [SubscriberChannel.peeked_ordinary].
    by repeat case_match.
Qed.

#[export] Instance order_book_handler_ok :
  StreamHandlerOk (SubscriberChannel.Channel Snapshot)
    (SubscriberChannel.PeekedPublication Snapshot) (OrderBookStreamItem Snapshot)
    ValidatedOrderBookSubscription SubscriptionAdmissionError.
Proof.
  refine {| item_sequence item := dm_session_sequence (item_delivery item);
            item_last := has_consumer_gap |}.
  - intros key base c items p. apply order_book_materializes.
  - intros key c p item c'. apply order_book_notice_is_last.
  - intros c st. simpl. case_bool_decide; [|done]. by intros [= <-].
  - intros c c' Hr%closed_stays_closed. simpl. unfold SubscriberChannel.peek.
    by rewrite bool_decide_eq_true_2.
Defined.

(** *** The order-book handler *)

(** The service that answers a request: the registered one, or the only one. *)
Definition serves (service_of : MarketServices → option Z) (registry : option (list MarketServices))
  (single : option Z) (key : MarketKey) (service : Z) : Prop :=
  match registry with
  | Some entries => ∃ services, find_services entries key = Some services ∧
                                service_of services = Some service
  | None => single = Some service
  end.

Definition order_book_key (request : OrderBookSubscriptionRequest) : MarketKey :=
  MkMarketKey (obr_venue request) (obr_market request) (obr_symbol request).

Definition order_book_validation (registry : option (list MarketServices))
  (request : OrderBookSubscriptionRequest) (gateway_instance_id : string) :=
  match registry with
  | Some _ => validate_g11_order_book_request request gateway_instance_id
  | None => validate_order_book_request request gateway_instance_id
  end.

(** C22: Whatever the client, the owner of the channel and the server do between two
    sections of the handler: the items written to an order-book subscriber carry the
    session sequences 1, 2, ..., n, and nothing follows a consumer-gap notice; an
    admission is asked only for a request that was validated, and only of the runtime
    registered for its product; and once the handler has returned its context is no longer tracked, its channel is closed for good and
    its runtime was notified, and no internal error was answered that the writer itself
    did not cause. *)
Theorem order_book_handler_contract arguments request gateway_instance_id registry runtime fuel
  (s0 s : Call (SubscriberChannel.Channel Snapshot) (OrderBookStreamItem Snapshot) _ _) thread :
  call_start s0 →
  star (interleave others)
    (s0, SubscribeOrderBook arguments request gateway_instance_id registry runtime fuel)
    (s, thread) →
  (dm_session_sequence ∘ item_delivery <$> written s) = seqZ 1 (length (written s)) ∧
  Forall (λ item, has_consumer_gap item = false) (removelast (written s)) ∧
  (∀ service subscription, asked s = Some (service, subscription) →
     order_book_validation registry request gateway_instance_id = inl subscription ∧
     serves services_runtime registry runtime (order_book_key request) service) ∧
  (∀ r, thread = Done r → ended r s).
Proof.
  intros H0 Hstar. unfold SubscribeOrderBook in Hstar.
  destruct (handler_contract (λ a sub,
      order_book_validation registry request gateway_instance_id = inl sub ∧
      serves services_runtime registry runtime (order_book_key request) a)
    _ _ _ _ _ _ _ _ _ _ (λ sub a Hv Hs, conj Hv Hs) H0 Hstar) as [[Hw Hl _ _ Ha] He].
  by split_all.
Qed.

(** *** Draining a terminated channel *)

Lemma order_book_front base c r q :
  channel_inv base c (r :: q) → SubscriberChannel.state (Snapshot := Snapshot) c ≠ SubClosed →
  sc_peek c = Some (SubscriberChannel.MkPeekedPublication (Some r) None).
Proof.
  intros Hi Hst. pose proof (ring_repr_size _ _ (ci_repr _ _ _ Hi)) as Hsz. simpl in Hsz.
  simpl. unfold SubscriberChannel.peek. rewrite bool_decide_eq_false_2 by done.
  rewrite (bool_decide_eq_false_2 (size _ = 0)) by lia. simpl.
  by rewrite (ring_front_repr _ _ (ci_repr _ _ _ Hi)) by lia.
Qed.

Lemma order_book_last base c t :
  channel_inv base c [] → SubscriberChannel.state (Snapshot := Snapshot) c ≠ SubClosed →
  SubscriberChannel.terminal c = Some t →
  sc_peek c = Some (SubscriberChannel.MkPeekedPublication None (Some t)) ∧
  ∃ c', sc_acknowledge (SubscriberChannel.MkPeekedPublication None (Some t)) c = (c', AckClosed).
Proof.
  intros Hi Hst Ht. pose proof (ring_repr_size _ _ (ci_repr _ _ _ Hi)) as Hsz. simpl in Hsz.
  simpl. unfold SubscriberChannel.peek, SubscriberChannel.acknowledge. simpl.
  rewrite bool_decide_eq_false_2, Hsz, Ht by done. simpl.
  rewrite !bool_decide_eq_true_2 by done. split; [done|by eexists].
Qed.

Lemma order_book_drains key q :
  ∀ fuel base c t (s : Call (SubscriberChannel.Channel Snapshot) (OrderBookStreamItem Snapshot) _ _),
  patient s → channel s = Some c → channel_inv base c q →
  SubscriberChannel.state c ≠ SubClosed → SubscriberChannel.terminal c = Some t →
  length q < fuel →
  ∃ items,
    written (fst (run (serve key fuel) s)) = written s ++ items ∧
    Forall2 (λ p item, materialize_stream_item c p key = Returned item) (channel_items c q) items ∧
    snd (run (serve key fuel) s) = Some (finalized_status (selected s) status_ok).
Proof.
  induction q as [|r q IH]; intros [|fuel] base c t s Hp Hc Hi Hst Ht Hf; try (simpl in Hf; lia).
  - destruct (order_book_last base c t Hi Hst Ht) as (Hpeek & c' & Hack).
    destruct (order_book_materializes key base c (channel_items c [])
                (SubscriberChannel.MkPeekedPublication None (Some t))) as (item & Hit & _).
    { by exists []. }
    { unfold channel_items. rewrite Ht. by left. }
    rewrite (run_round (H := order_book_handler) key fuel s c c' _ item _ Hp Hc Hpeek Hit Hack).
    exists [item]. split_all; [done| |done].
    unfold channel_items. rewrite Ht. simpl. by repeat constructor.
  - pose proof (order_book_front base c r q Hi Hst) as Hpeek.
    destruct (acknowledge_ordinary_inv base c (r :: q) r Hi eq_refl Hst) as (q' & Hack & [= <-] & Hi').
    destruct (order_book_materializes key base c (channel_items c (r :: q))
                (SubscriberChannel.MkPeekedPublication (Some r) None)) as (item & Hit & _).
    { by exists (r :: q). }
    { by left. }
    rewrite (run_round (H := order_book_handler) key fuel s c _ _ item _ Hp Hc Hpeek Hit Hack).
    cbn [stream_ends order_book_handler SubscriberChannel.is_terminal].
    set (s' := s <| written ::= λ l, l ++ [item] |>
                 <| channel := Some (SubscriberChannel.ring_pop_locked c) |>).
    destruct (IH fuel (base + 1)%Z _ t s' Hp eq_refl Hi' Hst Ht ltac:(simpl in Hf; lia))
      as (items & Hw & Hall & Hs).
    exists (item :: items). split_all.
    + etrans; [exact Hw|]. simpl. by rewrite <- app_assoc.
    + by constructor.
    + exact Hs.
Qed.


Lemma event_materializes key base c items p :
  sc_inv base c items → p ∈ items →
  ∃ item, materialize_event_envelope c p key = Returned item ∧
          dm_session_sequence (env_delivery item) = sc_sequence p.
Proof.
  intros (q & Hi & <-) Hp. apply elem_of_app in Hp as [Hp|Hp].
  - apply list_elem_of_fmap in Hp as (r & -> & Hr).
    pose proof (proj1 (Forall_forall _ _) (ec_payload _ _ _ Hi) r Hr) as Hpl. cbn beta in Hpl.
    unfold materialize_event_envelope, materialize_event_envelope_for. cbn.
    destruct key; destruct (ev_payload (sp_obj r)) as [|[e|]]; try solve [done|eexists; by split];
      injection Hpl as ->; rewrite Z.eqb_refl; (eexists; by split).
  - destruct (EventSubscriberChannel.terminal c) as [t|]; simpl in Hp; [|by apply not_elem_of_nil in Hp].
    apply list_elem_of_singleton in Hp as ->.
    destruct key; (eexists; by split).
Qed.

Lemma event_closed_stays_closed c c' :
  rtc sc_producer (EventSubscriberChannel.close_from_writer c) c' →
  EventSubscriberChannel.state c' = EcClosed.
Proof.
  intros Hr. remember (EventSubscriberChannel.close_from_writer c) as c0 eqn:Hc0.
  assert (Hst : EventSubscriberChannel.state c0 = EcClosed) by by subst. clear Hc0.
  induction Hr as [|c0 c1 c2 Hp Hr IH]; [done|]. apply IH.
  destruct Hp; unfold EventSubscriberChannel.admit_event,
    EventSubscriberChannel.terminalize_replacement, EventSubscriberChannel.close_unavailable;
    rewrite ?Hst; simpl; done.
Qed.

(** [item.has_consumer_gap()] *)
Definition env_has_consumer_gap (item : GatewayEventEnvelope) : bool :=
  match env_body item with EnvConsumerGap _ => true | _ => false end.

Lemma event_notice_is_last key c p item c' :
  materialize_event_envelope c p key = Returned item → env_has_consumer_gap item = true →
  snd (EventSubscriberChannel.acknowledge p c') ≠ AckAcknowledged.
Proof.
  destruct p as [[r|] t].
  - unfold materialize_event_envelope, materialize_event_envelope_for. cbn [ev_peeked_ordinary].
    destruct key; destruct (ev_payload (sp_obj r)) as [|[[? [?|?|?]]|]];
      try (case_match; [done|]); intros [= <-] Hgap; discriminate.
  - intros _ _. unfold EventSubscriberChannel.acknowledge. cbn [ev_peeked_ordinary].
    by repeat case_match.
Qed.

#[export] Instance event_handler_ok :
  StreamHandlerOk EventSubscriberChannel.Channel PeekedEventPublication GatewayEventEnvelope
    ValidatedEventSubscription EventSubscriptionAdmissionError.
Proof.
  refine {| item_sequence item := dm_session_sequence (env_delivery item);
            item_last := env_has_consumer_gap |}.
  - intros key base c items p. apply event_materializes.
  - intros key c p item c'. apply event_notice_is_last.
  - intros c st. simpl. repeat case_bool_decide; try done; by intros [= <-].
  - intros c c' Hr%event_closed_stays_closed. simpl. unfold EventSubscriberChannel.peek.
    by rewrite bool_decide_eq_true_2.
Defined.
End Streams.

(** *** The event handler *)

Section EventStreams.
Context `{W : WireEnums}.

Definition event_key (request : EventSubscriptionRequest) : MarketKey :=
  let selector := hd (MkEventSelector 0 0 "" 0) (esr_selectors request) in
  MkMarketKey (sel_venue selector) (sel_market selector) (sel_symbol selector).

Definition event_validation (registry : option (list MarketServices))
  (request : EventSubscriptionRequest) (gateway_instance_id : string) :=
  match registry with
  | Some _ => validate_g11_event_request request gateway_instance_id
  | None => validate_event_request request gateway_instance_id
  end.

(** C23: The same holds of an event subscriber: contiguous session sequences from 1,
    nothing after a notice, an admission only for a validated request and of the publication registered for its
    product, and everything released once the handler has returned. *)
Theorem event_handler_contract arguments request gateway_instance_id registry publication fuel
  (s0 s : Call EventSubscriberChannel.Channel GatewayEventEnvelope _ _) thread :
  call_start s0 →
  star (interleave others)
    (s0, SubscribeEvents arguments request gateway_instance_id registry publication fuel)
    (s, thread) →
  (dm_session_sequence ∘ env_delivery <$> written s) = seqZ 1 (length (written s)) ∧
  Forall (λ item, env_has_consumer_gap item = false) (removelast (written s)) ∧
  (∀ service subscription, asked s = Some (service, subscription) →
     event_validation registry request gateway_instance_id = inl subscription ∧
     serves services_event_publication registry publication (event_key request) service) ∧
  (∀ r, thread = Done r → ended r s).
Proof.
  intros H0 Hstar. unfold SubscribeEvents in Hstar.
  destruct (handler_contract (λ a sub,
      event_validation registry request gateway_instance_id = inl sub ∧
      serves services_event_publication registry publication (event_key request) a)
    _ _ _ _ _ _ _ _ _ _ (λ sub a Hv Hs, conj Hv Hs) H0 Hstar) as [[Hw Hl _ _ Ha] He].
  by split_all.
Qed.
End EventStreams.

(** ** Witnesses *)

Section Samples.
#[local] Existing Instance sample_enums.

(** A slow consumer: two records queued, the notice reserved. *)
Definition slow_channel : SubscriberChannel.Channel unit :=
  fst (SubscriberChannel.admit_update (Some sample_update) (Some 1%Z) sample_time (Some 3%Z)
         sample_channel).

Lemma slow_channel_inv : ∃ q, channel_inv 1 slow_channel q ∧ length q = 2.
Proof.
  destruct (stage_initial_inv sample_channel sample_channel_staged) as (q & Hi & _).
  destruct (admit_update_inv 1 sample_channel q sample_update (Some 1%Z) sample_time (Some 3%Z) Hi)
    as (q' & Hi' & _).
  exists q'. split; [exact Hi'|]. by rewrite <- (ring_repr_size _ _ (ci_repr _ _ _ Hi')).
Qed.

Abbreviation SampleCall :=
  (Call (SubscriberChannel.Channel unit) (OrderBookStreamItem unit)
     ValidatedOrderBookSubscription SubscriptionAdmissionError).

Definition sample_call : SampleCall :=
  MkCall false None None [] false false Tracked (Returned (inl (Some slow_channel))) false
    (Returned true) false.

Definition sample_request : OrderBookSubscriptionRequest :=
  MkOrderBookSubscriptionRequest "request-1" "order-book-subscription-request.v1" 1 1 "BTCUSDT" 1
    (Some 20%Z) ["local-order-book-snapshot.v1"] ["depth-update.v1"].

Lemma sample_call_start : call_start sample_call.
Proof.
  unfold call_start. split_all; try done. intros c [= <-]. destruct slow_channel_inv as (q & Hi & _).
  eexists. exists q. by split.
Qed.

Definition sample_run : SampleCall * outcome (option Status) :=
  run (SubscribeOrderBook true sample_request "gw-1" None (Some 7%Z) 3) sample_call.

Lemma order_book_handler_contract_witness :
  (dm_session_sequence ∘ item_delivery <$> written (fst sample_run)) = [1; 2; 3]%Z ∧
  snd sample_run = Returned (Some status_ok) ∧ ended (snd sample_run) (fst sample_run).
Proof.
  split; [vm_compute; reflexivity|]. split; [vm_compute; reflexivity|].
  exact (proj2 (proj2 (proj2 (order_book_handler_contract true sample_request "gw-1" None (Some 7%Z) 3
           sample_call (fst sample_run) (Done (snd sample_run)) sample_call_start
           (run_interleaved others (SubscribeOrderBook true sample_request "gw-1" None (Some 7%Z) 3)
              sample_call)))) _ eq_refl).
Defined.

Definition admitted_call : SampleCall := sample_call <| channel := Some slow_channel |>.


(** An event subscriber of generation 3, its accepted record queued. *)
Abbreviation SampleEventCall :=
  (Call EventSubscriberChannel.Channel GatewayEventEnvelope ValidatedEventSubscription
     EventSubscriptionAdmissionError).

Definition sample_event_call : SampleEventCall :=
  MkCall false None None [] false false Tracked (Returned (inl (Some sample_ev_channel))) false
    (Returned true) false.

Definition sample_event_request : EventSubscriptionRequest :=
  MkEventSubscriptionRequest "request-1" "event-subscription-request.v1" 1
    [MkEventSelector 1 1 "BTCUSDT" 1] ["depth-update.v1"].

Abbreviation sample_event_thread :=
  (SubscribeEvents true sample_event_request "gw-1" None (Some 7%Z) 3).

Lemma sample_event_call_start : call_start sample_event_call.
Proof.
  unfold call_start. split_all; try done. intros c [= <-].
  exact (ev_staged_inv sample_ev_channel sample_ev_channel_staged).
Qed.

(** The handler has written the accepted record and has just found the channel empty. *)
Definition found_empty : SampleEventCall * prog SampleEventCall (outcome (option Status)) :=
  run_sections 10 (sample_event_call, sample_event_thread).

(** Meanwhile an event is admitted and the source closes for good. *)
Definition overtake (c : EventSubscriberChannel.Channel) : EventSubscriberChannel.Channel :=
  fst (EventSubscriberChannel.close_unavailable
    (fst (EventSubscriberChannel.admit_event (Some (sample_event 9)) sample_ev_time (Some 4%Z) c))).

Definition overtaken : SampleEventCall := fst found_empty <| channel ::= fmap overtake |>.

Lemma overtaking (o : option EventSubscriberChannel.Channel) :
  option_Forall2 (rtc sc_producer) o (overtake <$> o).
Proof.
  destruct o as [c|]; constructor.
  eapply rtc_l; [apply (owner_admits_event c (Some (sample_event 9)) sample_ev_time (Some 4%Z))|].
  eapply rtc_l; [apply owner_closes_unavailable|]. constructor.
Qed.

Lemma overtaken_reached :
  star (interleave others) (sample_event_call, sample_event_thread)
       (fst (run (snd found_empty) overtaken), Done (snd (run (snd found_empty) overtaken))).
Proof.
  eapply star_trans; [apply (sections_interleaved others 10)|].
  change (run_sections 10 (sample_event_call, sample_event_thread)) with found_empty.
  rewrite (surjective_pairing found_empty). cbn [fst snd].
  eapply star_step; [|apply (run_interleaved others (snd found_empty) overtaken)].
  apply others_act. split; [done|done| |done..]. apply overtaking.
Qed.

(** The handler reads the channel twice, first its queue and then its state: an event
    admitted in between, just before the source closes for good, is never written,
    although the client reads everything and the channel would still give the event. *)
Theorem unavailable_can_overtake_an_event :
  ∃ s : SampleEventCall,
    star (interleave others) (sample_event_call, sample_event_thread)
      (s, Done (Returned (Some (MkStatus UNAVAILABLE "event source terminated permanently")))) ∧
    patient s ∧ length (written s) = 1 ∧
    EventSubscriberChannel.next_session_sequence <$> channel s = Some 3%Z.
Proof.
  exists (fst (run (snd found_empty) overtaken)). split_all.
  - replace (Returned _) with (snd (run (snd found_empty) overtaken)) by (vm_compute; reflexivity).
    exact overtaken_reached.
  - split; vm_compute; reflexivity.
  - vm_compute. reflexivity.
  - vm_compute. reflexivity.
Qed.

Lemma event_handler_contract_witness :
  (dm_session_sequence ∘ env_delivery <$> written (fst (run (snd found_empty) overtaken))) = [1]%Z ∧
  ended (snd (run (snd found_empty) overtaken)) (fst (run (snd found_empty) overtaken)).
Proof.
  split; [vm_compute; reflexivity|].
  exact (proj2 (proj2 (proj2 (event_handler_contract true sample_event_request "gw-1" None (Some 7%Z) 3
           sample_event_call (fst (run (snd found_empty) overtaken)) _
           sample_event_call_start overtaken_reached))) _ eq_refl).
Defined.
End Samples.
