(* ===== verification/DaemonConfig.v ===== *)
(** * DaemonConfig: the command line and the configuration file

    Models [src/src/production/daemon_config.hpp] and [.cpp]: the options of the daemon,
    the strict reading of its JSON file and the products it configures.  Files and the
    decoder are parameters ([FileSystem], [EventJsonLibrary]); running out of memory is
    not modelled.  [load_daemon_config_spec] characterises the accepted files. *)

From stdpp Require Import sorting.
From S2P Require Import Prelude Wire Text Config Json Registry GrpcRequests.

Open Scope gateway_scope.

(** ** The environment *)

(** What [std::ifstream] finds at a path it can open: the bytes up to the end of the
    file, or up to an unrecoverable read error. *)
Record FileContents : Type := MkFileContents {
  file_bytes : string;
  file_bad : bool
}.

Class FileSystem : Type := { open_file : string → option FileContents }.

(** [Json::parse(contents, callback, false, false)] with a callback that keeps
    everything: the calls of the callback in order (depth, event, parsed value) and the
    result, [None] for a discarded value.  The members of an object are listed in the
    order in which [items()] visits them. *)
Inductive ParseEvent : Type :=
| ObjectStart
| ObjectEnd
| ArrayStart
| ArrayEnd
| KeyEvent
| ValueEvent.

#[export] Instance ParseEvent_eq_dec : EqDecision ParseEvent.
Proof. solve_decision. Defined.

Class EventJsonLibrary : Type := {
  json_parse_events : string → list (Z * ParseEvent * Json) * option Json
}.

(** ** Results *)

Definition kMaximumDaemonConfigBytes : Z := 64 * 1024.

Record DaemonConfig : Type := MkDaemonConfig {
  daemon_grpc_listen : string;
  daemon_market_keys : list MarketKey
}.

Inductive DaemonConfigResult : Type :=
| DaemonConfigured (config : DaemonConfig)
| HelpRequested
| DaemonConfigFailed (message : string).

Section Loading.
Context `{W : WireEnums} `{A : AddressLibrary} `{F : FileSystem} `{E : EventJsonLibrary}.

Definition read_config_file (path : string) : string + string :=
  match open_file path with
  | None => inr "unable to open config file"
  | Some contents =>
      let size := Z.of_nat (String.length (file_bytes contents)) in
      let count := Z.min size (kMaximumDaemonConfigBytes + 1) in
      fail_if file_bad contents && (size <? kMaximumDaemonConfigBytes + 1)%Z
        with "unable to read config file" ;;
      fail_if (kMaximumDaemonConfigBytes <? count)%Z with "config file exceeds 64 KiB limit" ;;
      inl (take_string (Z.to_nat count) (file_bytes contents))
  end.

(** The callback of [parse_strict_json]: the keys inserted so far and whether one was
    already there. *)
Definition key_callback (state : gset string * bool) (call : Z * ParseEvent * Json)
  : gset string * bool :=
  match call with
  | (1%Z, KeyEvent, JsonString key) =>
      ({[ key ]} ∪ fst state, snd state || bool_decide (key ∈ fst state))
  | _ => state
  end.

Definition parse_strict_json (contents : string) : Json + string :=
  let '(calls, parsed) := json_parse_events contents in
  let '(_, duplicate_top_level_key) := foldl key_callback (∅, false) calls in
  match parsed with
  | None => inr "malformed JSON"
  | Some root =>
      fail_if duplicate_top_level_key with "duplicate top-level JSON key" ;;
      inl root
  end.

(** [required], in the order of the set. *)
Definition required : list string := ["grpc_listen"; "spot_symbols"; "usdm_symbols"].

Fixpoint reject_unknown (members : list (string * Json)) : unit + string :=
  match members with
  | [] => inl tt
  | (key, _) :: rest =>
      fail_if negb (bool_decide (key ∈ required))
        with (String.append "unknown top-level key: " key) ;;
      reject_unknown rest
  end.

Fixpoint require_keys (keys : list string) (root : Json) : unit + string :=
  match keys with
  | [] => inl tt
  | key :: rest =>
      fail_if negb (contains root key)
        with (String.append "missing required top-level key: " key) ;;
      require_keys rest root
  end.

Definition validate_keys (root : Json) : unit + string :=
  match root with
  | JsonObject members =>
      let? _ := reject_unknown members in
      require_keys required root
  | _ => inr "config root must be an object"
  end.

(** The loop of [symbols]; [result] is what it has pushed. *)
Fixpoint read_symbols (elements : list Json) (result : list string) (field : string)
  : list string + string :=
  match elements with
  | [] => inl result
  | JsonString symbol :: rest =>
      fail_if bool_decide (symbol = "") with (String.append field " contains an empty symbol") ;;
      read_symbols rest (result ++ [symbol]) field
  | _ => inr (String.append field " must be an array of strings")
  end.

Definition symbols (root : Json) (field : string) : list string + string :=
  match at_member root field with
  | JsonArray elements => read_symbols elements [] field
  | _ => inr (String.append field " must be an array of strings")
  end.

(** The keys pushed for the two lists. *)
Definition configured_keys (spot usdm : list string) : list MarketKey :=
  (MkMarketKey VENUE_BINANCE MARKET_SPOT <$> spot)
  ++ (MkMarketKey VENUE_BINANCE MARKET_USD_M_PERPETUAL <$> usdm).

(** [load_daemon_config] after the decoding. *)
Definition read_daemon_config (root : Json) : DaemonConfig + string :=
  let? _ := validate_keys root in
  match at_member root "grpc_listen" with
  | JsonString listen =>
      fail_if bool_decide (listen = "") with "grpc_listen must not be empty" ;;
      match parse_listen_endpoint listen with
      | inr error =>
          inr (String.append "invalid grpc_listen ["
                (String.append (config_error_field error)
                  (String.append "]: " (config_error_message error))))
      | inl _ =>
          fail_if negb (valid_loopback_listen_address listen false)
            with "grpc_listen must use a numeric loopback address and a port in 1..65535" ;;
          let? spot := symbols root "spot_symbols" in
          let? usdm := symbols root "usdm_symbols" in
          let keys := configured_keys spot usdm in
          fail_if bool_decide (keys = []) || bool_decide (kMaximumConfiguredProducts < length keys)
            with "configured products require between one and eight symbols" ;;
          let keys := sort_by_key id keys in
          fail_if adjacent_duplicate id keys
            with "configured products contain a duplicate exact MarketKey" ;;
          inl (MkDaemonConfig listen keys)
      end
  | _ => inr "grpc_listen must be a string"
  end.

Definition load_daemon_config (config_path : string) : DaemonConfig + string :=
  let? contents := read_config_file config_path in
  let? root := parse_strict_json contents in
  read_daemon_config root.

(** ** The command line *)

(** The loop of [parse_daemon_config]; [config_path] is engaged once [config_seen]. *)
Fixpoint read_options (arguments : list string) (config_path : option string)
  : option string + string :=
  match arguments with
  | [] => inl config_path
  | option :: rest =>
      fail_if negb (bool_decide (option = "--config"))
        with (String.append "unknown option: " option) ;;
      fail_if bool_decide (is_Some config_path) with "duplicate option: --config" ;;
      match rest with
      | value :: rest =>
          fail_if bool_decide (value = "") with "missing value for option: --config" ;;
          read_options rest (Some value)
      | [] => inr "missing value for option: --config"
      end
  end.

(** [argv] starts with the name of the program. *)
Definition parse_daemon_config (argv : list string) : DaemonConfigResult :=
  if bool_decide (length argv = 2) && bool_decide (argv !! 1 = Some "--help") then HelpRequested
  else
    match read_options (tail argv) None with
    | inr message => DaemonConfigFailed message
    | inl None => DaemonConfigFailed "--config is required"
    | inl (Some config_path) =>
        match load_daemon_config config_path with
        | inl config => DaemonConfigured config
        | inr message => DaemonConfigFailed message
        end
    end.
End Loading.

(** ** What is accepted *)

Section Specification.
Context `{W : WireEnums} `{A : AddressLibrary} `{F : FileSystem} `{E : EventJsonLibrary}.

Lemma take_string_all s : take_string (String.length s) s = s.
Proof. induction s as [|c s IH]; simpl; [done|by rewrite IH]. Qed.

Lemma read_config_file_spec path bytes :
  read_config_file path = inl bytes ↔
  open_file path = Some (MkFileContents bytes false) ∧
  (String.length bytes <= kMaximumDaemonConfigBytes)%Z.
Proof.
  unfold read_config_file. destruct (open_file path) as [[b bad]|]; cbn [file_bytes file_bad];
    [|split; [done|by intros []]].
  rewrite !fail_if_inl, andb_false_iff, !Z.ltb_ge.
  assert (Hall : (String.length b <= kMaximumDaemonConfigBytes)%Z →
    take_string (Z.to_nat (Z.min (String.length b) (kMaximumDaemonConfigBytes + 1))) b = b).
  { intros H. rewrite Z.min_l by lia. rewrite Nat2Z.id. apply take_string_all. }
  split.
  - intros (H1 & H2 & H3). rewrite Hall in H3 by lia. injection H3 as ->.
    split; [|lia]. destruct H1 as [->|H1]; [done|lia].
  - intros [[= -> ->] Hn]. split; [by left|]. split; [lia|]. by rewrite Hall.
Qed.

(** The keys of the top-level object as they stand in the text. *)
Definition top_level_key (call : Z * ParseEvent * Json) : option string :=
  match call with (1%Z, KeyEvent, JsonString key) => Some key | _ => None end.
Definition top_level_keys (calls : list (Z * ParseEvent * Json)) : list string :=
  omap top_level_key calls.

Lemma key_callback_step state call :
  key_callback state call =
  match top_level_key call with
  | Some key => ({[ key ]} ∪ fst state, snd state || bool_decide (key ∈ fst state))
  | None => state
  end.
Proof. destruct call as [[depth event] parsed]. simpl. break_all; done. Qed.

Lemma key_callback_fold calls seen dup :
  snd (foldl key_callback (seen, dup) calls) = false ↔
  dup = false ∧ NoDup (top_level_keys calls) ∧ (∀ key, key ∈ top_level_keys calls → key ∉ seen).
Proof.
  revert seen dup. induction calls as [|call calls IH]; intros seen dup; simpl.
  - split; [|tauto]. intros ->. split_all; [done|constructor|]. by intros key ?%not_elem_of_nil.
  - rewrite key_callback_step. unfold top_level_keys in *. simpl.
    destruct (top_level_key call) as [key|]; simpl; rewrite IH; [|done].
    rewrite orb_false_iff, bool_decide_eq_false, NoDup_cons. split.
    + intros ((-> & Hk) & Hnd & Hall). split_all; [done| |done|].
      * intros Hin. apply (Hall key Hin). apply elem_of_union. left. by apply elem_of_singleton.
      * intros k [->|Hin]%elem_of_cons; [done|]. intros Hs. apply (Hall k Hin).
        apply elem_of_union. by right.
    + intros (-> & (Hn & Hnd) & Hall). split_all; [done| |done|].
      * apply Hall. by left.
      * intros k Hin [->%elem_of_singleton|Hs]%elem_of_union; [done|].
        apply (Hall k); [by right|done].
Qed.

Lemma parse_strict_json_spec contents root :
  parse_strict_json contents = inl root ↔
  ∃ calls, json_parse_events contents = (calls, Some root) ∧ NoDup (top_level_keys calls).
Proof.
  unfold parse_strict_json. destruct (json_parse_events contents) as [calls parsed].
  pose proof (key_callback_fold calls ∅ false) as Hfold.
  destruct (foldl key_callback (∅, false) calls) as [seen dup]. simpl in Hfold.
  destruct parsed as [r|]; [|split; [done|by intros (? & [= <- ] & ?)]].
  rewrite fail_if_inl, Hfold. split.
  - intros ((_ & Hnd & _) & [= ->]). by exists calls.
  - intros (? & [= <- ->] & Hnd). split_all; [done|done| |done].
    intros k _. apply not_elem_of_empty.
Qed.

(** The document of a configuration: an object of exactly the three members. *)
Definition config_document (root : Json) (listen : string) (spot usdm : list string) : Prop :=
  (∃ members, root = JsonObject members ∧ ∀ key, key ∈ members.*1 → key ∈ required) ∧
  carries root [("grpc_listen", JsonString listen);
                ("spot_symbols", JsonArray (JsonString <$> spot));
                ("usdm_symbols", JsonArray (JsonString <$> usdm))] ∧
  ("" ∉ spot) ∧ ("" ∉ usdm).

Lemma reject_unknown_spec members :
  reject_unknown members = inl tt ↔ ∀ key, key ∈ members.*1 → key ∈ required.
Proof.
  induction members as [|[k v] members IH]; simpl.
  - split; [|done]. by intros _ key ?%not_elem_of_nil.
  - rewrite fail_if_inl, negb_false_iff, bool_decide_eq_true, IH. split.
    + by intros [Hk H] key [->|Hin]%elem_of_cons; [|apply H].
    + intros H. split; [apply H; by left|]. intros key Hin. apply H. by right.
Qed.

Lemma require_keys_spec keys root :
  require_keys keys root = inl tt ↔ ∀ key, key ∈ keys → contains root key = true.
Proof.
  induction keys as [|k keys IH]; simpl.
  - split; [|done]. by intros _ key ?%not_elem_of_nil.
  - rewrite fail_if_inl, negb_false_iff, IH. split.
    + by intros [Hk H] key [->|Hin]%elem_of_cons; [|apply H].
    + intros H. split; [apply H; by left|]. intros key Hin. apply H. by right.
Qed.

Lemma read_symbols_spec elements before_ field result :
  read_symbols elements before_ field = inl result ↔
  ∃ new, elements = JsonString <$> new ∧ ("" ∉ new) ∧ result = before_ ++ new.
Proof.
  revert before_. induction elements as [|e elements IH]; intros before_; simpl.
  - split.
    + intros [= <-]. exists []. rewrite app_nil_r. split_all; [done|apply not_elem_of_nil|done].
    + intros ([|] & Hm & _ & ->); [by rewrite app_nil_r|done].
  - split.
    + intros H. destruct e as [| | | | |symbol| |]; try done.
      rewrite fail_if_inl, bool_decide_eq_false, IH in H. destruct H as (Hne & new & -> & Hn & ->).
      exists (symbol :: new). split_all; [done| |by rewrite <- app_assoc].
      apply not_elem_of_cons. by split.
    + intros ([|symbol new] & Hm & Hn & ->); [done|]. injection Hm as -> ->.
      apply not_elem_of_cons in Hn as [Hne Hn]. cbn.
      rewrite fail_if_inl, bool_decide_eq_false. split; [done|]. apply IH.
      exists new. split_all; [done|done|by rewrite <- app_assoc].
Qed.

Lemma symbols_spec root field result :
  contains root field = true →
  symbols root field = inl result ↔
  find root field = Some (JsonArray (JsonString <$> result)) ∧ ("" ∉ result).
Proof.
  intros Hc. rewrite <- at_member_spec by done. unfold symbols. split.
  - destruct (at_member root field); try done. rewrite read_symbols_spec.
    by intros (new & -> & Hn & ->).
  - intros [-> Hn]. apply read_symbols_spec. by exists result.
Qed.

Lemma validate_keys_spec root :
  validate_keys root = inl tt ↔
  (∃ members, root = JsonObject members ∧ ∀ key, key ∈ members.*1 → key ∈ required) ∧
  ∀ key, key ∈ required → contains root key = true.
Proof.
  unfold validate_keys. destruct root as [| | | | | | |members];
    try (split; [done|by intros [(? & ? & ?) ?]]).
  rewrite sum_bind_inl. split.
  - intros ([] & H1 & H2). rewrite reject_unknown_spec in H1. rewrite require_keys_spec in H2.
    split; [|done]. by exists members.
  - intros [(? & [= <-] & H1) H2]. exists tt.
    split; [by apply reject_unknown_spec|by apply require_keys_spec].
Qed.

(** Distinct symbols in each market are distinct products. *)
Lemma configured_keys_nodup `{!WireEnumsOk W} spot usdm :
  NoDup (configured_keys spot usdm) ↔ NoDup spot ∧ NoDup usdm.
Proof.
  assert (Hm : MARKET_SPOT ≠ MARKET_USD_M_PERPETUAL).
  { pose proof markets_distinct as H. rewrite !NoDup_cons, !not_elem_of_cons in H. tauto. }
  unfold configured_keys. rewrite NoDup_app. split.
  - intros (H1 & _ & H2). split; by eapply NoDup_fmap_1.
  - intros [H1 H2]. split_all.
    + apply NoDup_fmap_2; [|done]. by intros ?? [=].
    + intros k (s & -> & _)%list_elem_of_fmap (s' & Heq & _)%list_elem_of_fmap.
      by injection Heq as ? _.
    + apply NoDup_fmap_2; [|done]. by intros ?? [=].
Qed.

Lemma configured_keys_length spot usdm :
  length (configured_keys spot usdm) = length spot + length usdm.
Proof. unfold configured_keys. by rewrite length_app, !length_fmap. Qed.

(** The documents accepted by [read_daemon_config]. *)
Lemma read_daemon_config_spec `{!WireEnumsOk W} root config :
  read_daemon_config root = inl config ↔
  ∃ spot usdm,
    config_document root (daemon_grpc_listen config) spot usdm ∧
    (∃ endpoint, parse_listen_endpoint (daemon_grpc_listen config) = inl endpoint) ∧
    valid_loopback_listen_address (daemon_grpc_listen config) false = true ∧
    1 ≤ length spot + length usdm ≤ kMaximumConfiguredProducts ∧
    NoDup spot ∧ NoDup usdm ∧
    daemon_market_keys config ≡ₚ configured_keys spot usdm ∧
    StronglySorted (before id) (daemon_market_keys config).
Proof.
  unfold read_daemon_config. rewrite sum_bind_inl. split.
  - intros ([] & (Hobj & Hkeys)%validate_keys_spec & H).
    destruct (at_member root "grpc_listen") as [| | | | |listen| |] eqn:Hl; try done.
    rewrite at_member_spec in Hl by (apply Hkeys; by left).
    rewrite fail_if_inl in H. destruct H as [_ H].
    destruct (parse_listen_endpoint listen) as [endpoint|] eqn:Hp; [|done].
    rewrite fail_if_inl, negb_false_iff, sum_bind_inl in H. destruct H as (Hloop & spot & Hs & H).
    rewrite sum_bind_inl in H. destruct H as (usdm & Hu & H).
    rewrite symbols_spec in Hs by (apply Hkeys; right; by left).
    rewrite symbols_spec in Hu by (apply Hkeys; right; right; by left).
    rewrite fail_if_inl, orb_false_iff, !bool_decide_eq_false in H. destruct H as ((Hne & Hn) & H).
    rewrite fail_if_inl, sort_adjacent_duplicate, list_fmap_id in H. destruct H as (Hnd & [= <-]).
    rewrite configured_keys_length in Hn. simpl.
    assert (length spot + length usdm ≠ 0).
    { rewrite <- configured_keys_length. by destruct (configured_keys spot usdm). }
    exists spot, usdm. split_all; [|by exists endpoint|done|lia|lia| | |apply sort_by_key_perm|].
    + destruct Hs, Hu. unfold config_document. split_all; [done| |done|done]. by repeat constructor.
    + by apply configured_keys_nodup in Hnd as [? _].
    + by apply configured_keys_nodup in Hnd as [_ ?].
    + apply sort_strict. by rewrite list_fmap_id.
  - destruct config as [listen keys]. simpl.
    intros (spot & usdm & (Hobj & Hc & Hs & Hu) & [endpoint Hp] & Hloop & Hn & Hsn & Hun & Hk & Hsort).
    assert (Hcs : ∀ key, key ∈ required → contains root key = true).
    { intros key Hin. eapply required_key; [|exact Hin]. by refine (carries_keys root _ _ Hc). }
    unfold carries in Hc. rewrite !Forall_cons in Hc. destruct Hc as (Hl & Hsf & Huf & _). simpl in *.
    exists tt. split; [by apply validate_keys_spec|].
    apply at_member_spec in Hl as ->; [|apply Hcs; by left].
    rewrite fail_if_inl, bool_decide_eq_false. split; [by destruct listen|].
    rewrite Hp, fail_if_inl, Hloop, sum_bind_inl. split; [done|].
    exists spot. split; [apply symbols_spec; [apply Hcs; right; by left|done]|].
    rewrite sum_bind_inl. exists usdm.
    split; [apply symbols_spec; [apply Hcs; right; right; by left|done]|].
    assert (Hnd : NoDup (id <$> configured_keys spot usdm))
      by (rewrite list_fmap_id; by apply configured_keys_nodup).
    rewrite !fail_if_inl, orb_false_iff, !bool_decide_eq_false, sort_adjacent_duplicate.
    rewrite configured_keys_length. split_all; [|lia|done|].
    + intros H. apply (f_equal length) in H. rewrite configured_keys_length in H. simpl in H. lia.
    + do 2 f_equal. symmetry. by apply sort_by_key_unique.
Qed.

(** The products of a loaded configuration. *)
Lemma loaded_keys `{!WireEnumsOk W} path config :
  load_daemon_config path = inl config →
  1 ≤ length (daemon_market_keys config) ≤ kMaximumConfiguredProducts ∧
  StronglySorted (before id) (daemon_market_keys config).
Proof.
  unfold load_daemon_config. rewrite sum_bind_inl. setoid_rewrite sum_bind_inl.
  intros (bytes & _ & root & _ & (spot & usdm & _ & _ & _ & Hn & _ & _ & Hp & Hs)
    %read_daemon_config_spec).
  split; [|exact Hs]. rewrite Hp, configured_keys_length. exact Hn.
Qed.

(** C35: The daemon accepts a configuration file exactly when it can be read, is at most
    64 KiB long and holds a JSON object of exactly the members [grpc_listen],
    [spot_symbols] and [usdm_symbols], none repeated, with a numeric loopback endpoint
    and one to eight products, no symbol empty or listed twice in its market; the
    products are then those, in canonical order. *)
Theorem load_daemon_config_spec `{!WireEnumsOk W} (path : string) (config : DaemonConfig) :
  load_daemon_config path = inl config ↔
  ∃ bytes calls root spot usdm,
    open_file path = Some (MkFileContents bytes false) ∧
    (String.length bytes <= kMaximumDaemonConfigBytes)%Z ∧
    json_parse_events bytes = (calls, Some root) ∧ NoDup (top_level_keys calls) ∧
    config_document root (daemon_grpc_listen config) spot usdm ∧
    (∃ endpoint, parse_listen_endpoint (daemon_grpc_listen config) = inl endpoint) ∧
    valid_loopback_listen_address (daemon_grpc_listen config) false = true ∧
    1 ≤ length spot + length usdm ≤ kMaximumConfiguredProducts ∧
    NoDup spot ∧ NoDup usdm ∧
    daemon_market_keys config ≡ₚ configured_keys spot usdm ∧
    StronglySorted (before id) (daemon_market_keys config).
Proof.
  unfold load_daemon_config. rewrite sum_bind_inl. setoid_rewrite sum_bind_inl. split.
  - intros (bytes & [Hf Hn]%read_config_file_spec & root & (calls & Hp & Hd)%parse_strict_json_spec
            & (spot & usdm & H)%read_daemon_config_spec).
    by exists bytes, calls, root, spot, usdm.
  - intros (bytes & calls & root & spot & usdm & Hf & Hn & Hp & Hd & H).
    exists bytes. split; [by apply read_config_file_spec|].
    exists root. split; [apply parse_strict_json_spec; by exists calls|].
    apply read_daemon_config_spec. by exists spot, usdm.
Qed.

(** The one command line that configures a daemon. *)
Lemma read_options_spec arguments path :
  read_options arguments None = inl (Some path) ↔
  arguments = ["--config"; path] ∧ path ≠ EmptyString.
Proof.
  split.
  - destruct arguments as [|option [|value rest]]; simpl; [done| |];
      rewrite !fail_if_inl, negb_false_iff, bool_decide_eq_true; intros (-> & H); [done|].
    destruct H as [Hne%bool_decide_eq_false H].
    destruct rest as [|option rest]; simpl in H; [by injection H as ->|].
    by destruct (negb (bool_decide (option = "--config"))).
  - intros [-> Hne]. simpl. by rewrite bool_decide_eq_false_2.
Qed.

Lemma parse_daemon_config_spec argv config :
  parse_daemon_config argv = DaemonConfigured config ↔
  ∃ program path, argv = [program; "--config"; path] ∧ path ≠ EmptyString ∧
    load_daemon_config path = inl config.
Proof.
  unfold parse_daemon_config. split.
  - intros H. destruct (bool_decide (length argv = 2) && _); [done|].
    destruct (read_options (tail argv) None) as [[path|]|] eqn:Ho; [|done|done].
    apply read_options_spec in Ho as [Ha Hne].
    destruct (load_daemon_config path) as [c|] eqn:Hl; [|done]. injection H as ->.
    destruct argv as [|program argv]; [done|]. simpl in Ha. subst. by exists program, path.
  - intros (program & path & -> & Hne & Hl). simpl.
    rewrite bool_decide_eq_false_2 by done. simpl.
    by rewrite Hl.
Qed.
End Specification.

(** ** Witness: two Spot products given in the wrong order *)

Definition sample_config_text : string :=
  "{grpc_listen: 127.0.0.1:50051, spot_symbols: [ETHUSDT, BTCUSDT], usdm_symbols: [BTCUSDT]}".

Definition sample_document : Json := JsonObject
  [("grpc_listen", JsonString "127.0.0.1:50051");
   ("spot_symbols", JsonArray [JsonString "ETHUSDT"; JsonString "BTCUSDT"]);
   ("usdm_symbols", JsonArray [JsonString "BTCUSDT"])].

Definition sample_events : EventJsonLibrary := {|
  json_parse_events text :=
    if bool_decide (text = sample_config_text)
    then ([(0%Z, ObjectStart, JsonNull); (1%Z, KeyEvent, JsonString "grpc_listen");
           (1%Z, KeyEvent, JsonString "spot_symbols"); (1%Z, KeyEvent, JsonString "usdm_symbols");
           (0%Z, ObjectEnd, sample_document)], Some sample_document)
    else ([], None) |}.

Definition sample_files : FileSystem := {|
  open_file path := if bool_decide (path = "gateway.json")
                    then Some (MkFileContents sample_config_text false) else None |}.

Definition sample_loopback : AddressLibrary := {|
  Address := string;
  make_address text := if bool_decide (text = "127.0.0.1") then Some text else None;
  is_loopback _ := true;
  is_v6 _ := false |}.

Definition sample_config : DaemonConfig := MkDaemonConfig "127.0.0.1:50051"
  [MkMarketKey 1 1 "BTCUSDT"; MkMarketKey 1 1 "ETHUSDT"; MkMarketKey 1 2 "BTCUSDT"].

Lemma load_daemon_config_spec_witness :
  load_daemon_config (W := sample_enums) (A := sample_loopback) (F := sample_files)
    (E := sample_events) "gateway.json" = inl sample_config ∧
  ∃ root spot usdm, config_document root "127.0.0.1:50051" spot usdm ∧
    1 ≤ length spot + length usdm ≤ 8 ∧
    StronglySorted (before id) (daemon_market_keys sample_config).
Proof.
  pose proof sample_enums_ok as Hok.
  assert (H : load_daemon_config (W := sample_enums) (A := sample_loopback) (F := sample_files)
                (E := sample_events) "gateway.json" = inl sample_config) by (by vm_compute).
  split; [exact H|].
  apply load_daemon_config_spec in H
    as (bytes & calls & root & spot & usdm & _ & _ & _ & _ & Hd & _ & _ & Hn & _ & _ & _ & Hs).
  exists root, spot, usdm. split; [exact Hd|]. split; [exact Hn|exact Hs].
Defined.
