(* ===== verification/GatewayStatus.v ===== *)
(** * GatewayStatus: the status snapshot of the gateway

    Models [GatewayStatusAssembler] of [src/src/g10/gateway_status.hpp] and [.cpp]: the
    baseline taken when the server starts, and [collect], which observes one product
    after the other and builds the snapshot.  The collection is a thread ([prog]) over a
    state [S]; what it asks of the products and of the clock is the interface
    [StatusWorld], whose promises are [StatusWorldOk].  [Products] at the end is the
    state of the components as they are modelled here, and discharges them.

    The deadline and the stop token are part of what an observation answers; an
    observation may take several critical sections of the observed component. *)

From S2P Require Import Prelude Ring Wire Session OrderBookPublication OrderBookSession.
From S2P Require Import EventPublication EventSession EventGenerations Programs Projection.
From S2P Require Import MarketRuntime RuntimeInvariants Recovery RecoveryProtocol Registry.

Open Scope gateway_scope.

Definition kStatusSnapshotSchema : string := "gateway-status-snapshot.v1".

Inductive StatusSnapshotError : Type :=
| StartBaselineUnavailable
| StClockError
| MonotonicClockRegression
| InvalidObservation
| ObservationTimeout.

#[export] Instance StatusSnapshotError_eq_dec : EqDecision StatusSnapshotError.
Proof. solve_decision. Defined.

(** ** The messages *)

Record MarketStatus : Type := MkMarketStatus {
  ms_venue : Z;
  ms_market : Z;
  ms_symbol : string;
  ms_state : Z;
  ms_last_event_utc_ns : option Z;
  ms_connection_generation : option Z;
  ms_active_subscription_count : Z
}.

Record GatewayStatusSnapshot : Type := MkGatewayStatusSnapshot {
  gs_schema_version : string;
  gs_gateway_instance_id : string;
  gs_observed_time_utc_ns : Z;
  gs_uptime_seconds : Z;
  gs_markets : list MarketStatus;
  gs_total_active_subscriptions : Z
}.

Section Status.
Context `{W : WireEnums} `{L : ProjectionLibrary}.

Definition map_runtime_state (state : RuntimeState) : option Z :=
  match state with
  | RsConstructed => Some STREAM_LIFECYCLE_STATE_ACCEPTED
  | RsBuffering | RsAwaitingBridge => Some STREAM_LIFECYCLE_STATE_SNAPSHOT_PENDING
  | RsLive => Some STREAM_LIFECYCLE_STATE_LIVE
  | RsNeedsResync => Some STREAM_LIFECYCLE_STATE_RESYNC_IN_PROGRESS
  | RsFaulted => Some STREAM_LIFECYCLE_STATE_DEGRADED
  | RsStopping => Some STREAM_LIFECYCLE_STATE_CLOSING
  | RsStopped => Some STREAM_LIFECYCLE_STATE_CLOSED
  end.

Definition valid_recovery_observation (observation : RecoveryObservation) : bool :=
  bool_decide (ro_active_transport_count observation ≤ 1)
  && (bool_decide (ro_active_transport_count observation = 0)
      || negb (ro_connection_generation observation =? 0)%Z).

Record CollectedMarket : Type := MkCollectedMarket {
  cm_venue : Z;
  cm_market : Z;
  cm_symbol : string;
  cm_runtime : RuntimeObservation;
  cm_recovery : RecoveryObservation;
  cm_event_publication : EventPublicationObservation
}.

(** The check of one market in [collect]. *)
Definition valid_market (market : CollectedMarket) : bool :=
  bool_decide (is_Some (map_runtime_state (obs_state (cm_runtime market))))
  && valid_recovery_observation (cm_recovery market)
  && bool_decide (obs_resident_subscription_count (cm_runtime market)
                  ≤ kMaximumActiveSubscriptions)
  && bool_decide (obs_active_subscriptions (cm_event_publication market)
                  ≤ kMaximumActiveEventSubscriptions).

(** When the applied order book may be reported as fresh: the time of its last event. *)
Definition last_event_utc_ns (m : CollectedMarket) : option Z :=
  match obs_last_applied_depth (cm_runtime m) with
  | Some depth =>
      if bool_decide (obs_state (cm_runtime m) = RsLive)
         && bool_decide (obs_projection_status (cm_runtime m) = Synchronized)
         && bool_decide (ro_state (cm_recovery m) = RyLive)
         && bool_decide (ro_active_transport_count (cm_recovery m) = 1)
         && bool_decide (applied_connection_generation depth
                         = Some (ro_connection_generation (cm_recovery m)))
      then applied_receive_time_utc_ns depth else None
  | None => None
  end.

Definition active_subscriptions (m : CollectedMarket) : nat :=
  obs_resident_subscription_count (cm_runtime m)
  + obs_active_subscriptions (cm_event_publication m).

Definition market_status (m : CollectedMarket) (state : Z) : MarketStatus :=
  MkMarketStatus (cm_venue m) (cm_market m) (cm_symbol m) state (last_event_utc_ns m)
    (if bool_decide (ro_active_transport_count (cm_recovery m) = 1)
     then Some (ro_connection_generation (cm_recovery m)) else None)
    (active_subscriptions m).

(** The loop that fills the snapshot.  [*mapped_state] is defined for every market that
    passed the check. *)
Fixpoint add_markets (markets : list CollectedMarket) (snapshot : GatewayStatusSnapshot)
  : GatewayStatusSnapshot :=
  match markets with
  | [] => snapshot
  | m :: rest =>
      let status := market_status m (default 0%Z (map_runtime_state (obs_state (cm_runtime m)))) in
      add_markets rest
        (MkGatewayStatusSnapshot (gs_schema_version snapshot) (gs_gateway_instance_id snapshot)
           (gs_observed_time_utc_ns snapshot) (gs_uptime_seconds snapshot)
           (gs_markets snapshot ++ [status])
           (u64_wrap (gs_total_active_subscriptions snapshot + active_subscriptions m)))
  end.

Definition make_snapshot (gateway_instance_id : string) (baseline : Z) (observed_at : ClockSample)
  (markets : list CollectedMarket) : GatewayStatusSnapshot :=
  add_markets markets
    (MkGatewayStatusSnapshot kStatusSnapshotSchema gateway_instance_id
       (sample_utc_ns observed_at) ((sample_monotonic_ns observed_at - baseline) / 1000000000)
       [] 0).

(** ** The assembler *)

(** The three components of the single-product constructor. *)
Record SingleProduct : Type := MkSingleProduct {
  single_runtime : option Z;
  single_recovery : option Z;
  single_event_publication : option Z
}.

(** [registry] or the single product, and the baseline. *)
Record Assembler : Type := MkAssembler {
  as_registry : option (list MarketServices);
  as_single : SingleProduct;
  as_gateway_instance_id : string;
  start_baseline_monotonic_ns : option Z
}.
#[export] Instance Assembler_eta : Eta Assembler :=
  λ a, MkAssembler (as_registry a) (as_single a) (as_gateway_instance_id a)
    (start_baseline_monotonic_ns a).

(** The constructors; [publication_id] is [gateway_instance_id()] of the publication at
    an address, [clock] whether the clock is set.  [None] is [std::invalid_argument]. *)
Definition make_single (publication_id : Z → string) (runtime recovery event_publication : Z)
  (clock : bool) (gateway_instance_id : string) : option Assembler :=
  if negb clock || negb (bool_decide (publication_id event_publication = gateway_instance_id))
  then None
  else Some (MkAssembler None
               (MkSingleProduct (Some runtime) (Some recovery) (Some event_publication))
               gateway_instance_id None).

Definition make_for_registry (publication_id : Z → string) (entries : list MarketServices)
  (clock : bool) (gateway_instance_id : string) : option Assembler :=
  if negb clock then None
  else if existsb (λ entry, match services_event_publication entry with
                            | Some p => negb (bool_decide (publication_id p = gateway_instance_id))
                            | None => false
                            end) entries
  then None
  else Some (MkAssembler (Some entries) (MkSingleProduct None None None) gateway_instance_id None).

(** What the assembler is given: its own state within the state of the program, the
    three observations of a product ([observe_until] answers [None] when the deadline or
    the stop token came first) and the clock. *)
Class StatusWorld (S : Type) : Type := {
  sw_assembler : S → Assembler;
  sw_update : (Assembler → Assembler) → S → S;
  sw_observe_runtime : Z → prog S (outcome (option RuntimeObservation));
  sw_observe_recovery : Z → prog S (outcome (option RecoveryObservation));
  sw_observe_events : Z → prog S EventPublicationObservation;
  sw_clock : S → S * outcome ClockSample
}.

Section Collect.
Context {S : Type} `{SW : !StatusWorld S}.

Definition clear_start_baseline : prog S () :=
  modify (sw_update (λ a, a <| start_baseline_monotonic_ns := None |>)).

(** The clock is read before the lock. *)
Definition prepare_start_baseline : prog S bool :=
  sample ← atomically sw_clock;
  match sample with
  | Returned sample =>
      modify (sw_update (λ a,
        a <| start_baseline_monotonic_ns := Some (sample_monotonic_ns sample) |>)) ;;
      mret true
  | Threw => clear_start_baseline ;; mret false
  end.

(** One product: its runtime, its recovery, its event publication. *)
Definition collect_market (venue market : Z) (symbol : string) (runtime recovery events : Z)
  : prog S (outcome (CollectedMarket + StatusSnapshotError)) :=
  let! runtime := sw_observe_runtime runtime in
  match runtime with
  | None => mret (Returned (inr ObservationTimeout))
  | Some runtime =>
      let! recovery := sw_observe_recovery recovery in
      match recovery with
      | None => mret (Returned (inr ObservationTimeout))
      | Some recovery =>
          events ← sw_observe_events events;
          mret (Returned (inl (MkCollectedMarket venue market symbol runtime recovery events)))
      end
  end.

(** The loop over the registry.  Its constructor refuses null services, so that the last
    case is not reached. *)
Fixpoint collect_entries (entries : list MarketServices)
  : prog S (outcome (list CollectedMarket + StatusSnapshotError)) :=
  match entries with
  | [] => mret (Returned (inl []))
  | entry :: rest =>
      match services_runtime entry, services_recovery entry, services_event_publication entry with
      | Some runtime, Some recovery, Some events =>
          let! collected :=
            collect_market (key_venue (services_key entry)) (key_market (services_key entry))
              (key_symbol (services_key entry)) runtime recovery events in
          match collected with
          | inr error => mret (Returned (inr error))
          | inl market =>
              let! others := collect_entries rest in
              mret (Returned match others with
                             | inl markets => inl (market :: markets)
                             | inr error => inr error
                             end)
          end
      | _, _, _ => mret Threw
      end
  end.

Definition collect_markets (assembler : Assembler)
  : prog S (outcome (list CollectedMarket + StatusSnapshotError)) :=
  match as_registry assembler with
  | Some entries => collect_entries entries
  | None =>
      match as_single assembler with
      | MkSingleProduct (Some runtime) (Some recovery) (Some events) =>
          let! collected := collect_market VENUE_BINANCE MARKET_SPOT "BTCUSDT" runtime recovery events in
          mret (Returned match collected with
                         | inl market => inl [market]
                         | inr error => inr error
                         end)
      | _ => mret (Returned (inr InvalidObservation))
      end
  end.

(** [collect]; the members read first never change. *)
Definition collect : prog S (outcome (GatewayStatusSnapshot + StatusSnapshotError)) :=
  assembler ← read sw_assembler;
  let! collected := collect_markets assembler in
  match collected with
  | inr error => mret (Returned (inr error))
  | inl markets =>
      if existsb (λ market, negb (valid_market market)) markets
      then mret (Returned (inr InvalidObservation)) else
      baseline ← read (λ s, start_baseline_monotonic_ns (sw_assembler s));
      match baseline with
      | None => mret (Returned (inr StartBaselineUnavailable))
      | Some baseline =>
          sample ← atomically sw_clock;
          match sample with
          | Threw => mret (Returned (inr StClockError))
          | Returned observed_at =>
              if (sample_monotonic_ns observed_at <? baseline)%Z
              then mret (Returned (inr MonotonicClockRegression))
              else mret (Returned (inl (make_snapshot (as_gateway_instance_id assembler) baseline
                                          observed_at markets)))
          end
      end
  end.
End Collect.
End Status.

(** ** What a snapshot promises *)

Section Contract.
Context `{W : WireEnums} `{L : ProjectionLibrary} {S : Type} `{SW : !StatusWorld S}.
Context (I : S → Prop) (R : S → S → Prop).
Abbreviation triple := (Programs.triple I R).

(** What the constructors of the assembler fix. *)
Definition config (a : Assembler) : Assembler := a <| start_baseline_monotonic_ns := None |>.

(** The promises of the observed components, under any interference [R]. *)
Class StatusWorldOk : Prop := {
  so_runtime a : triple (λ _, True) (sw_observe_runtime a)
    (λ r _, ∀ o, r = Returned (Some o) →
       obs_resident_subscription_count o ≤ kMaximumActiveSubscriptions);
  so_recovery a : triple (λ _, True) (sw_observe_recovery a)
    (λ r _, ∀ o, r = Returned (Some o) → valid_recovery_observation o = true);
  so_events a : triple (λ _, True) (sw_observe_events a)
    (λ o _, obs_active_subscriptions o ≤ kMaximumActiveEventSubscriptions);
  so_clock s : I s → I (fst (sw_clock s));
  so_config s s' : R s s' → config (sw_assembler s') = config (sw_assembler s)
}.
Context `{SOk : !StatusWorldOk}.

Definition market_key (m : CollectedMarket) : MarketKey :=
  MkMarketKey (cm_venue m) (cm_market m) (cm_symbol m).
Definition status_key (m : MarketStatus) : MarketKey :=
  MkMarketKey (ms_venue m) (ms_market m) (ms_symbol m).

(** The markets collected for these entries. *)
Definition collected_for (keys : list MarketKey) (markets : list CollectedMarket) : Prop :=
  market_key <$> markets = keys ∧ Forall (λ m, valid_market m = true) markets.

(** A result that does not depend on the state. *)
Definition only {A} (V : A → Prop) (a : A) (_ : S) : Prop := V a.

Lemma triple_pure {A} (V : A → Prop) (a : A) (P : S → Prop) :
  V a → triple P (mret a) (only V).
Proof. intros H. by apply triple_ret. Qed.

Definition collected_market (key : MarketKey) (r : outcome (CollectedMarket + StatusSnapshotError))
  : Prop :=
  match r with
  | Returned (inl m) => market_key m = key ∧ valid_market m = true
  | Returned (inr e) => e = ObservationTimeout
  | Threw => True
  end.

(** Sections one after the other, each result with its own promise. *)
Lemma triple_seq {A B} (p : prog S A) (k : A → prog S B) (V : A → Prop) (V' : B → Prop) :
  triple (λ _, True) p (only V) → (∀ a, V a → triple (λ _, True) (k a) (only V')) →
  triple (λ _, True) (p ≫= k) (only V').
Proof.
  intros Hp Hk. eapply triple_bind; [exact Hp|]. intros a s Hi Ha. by apply Hk.
Qed.

Lemma triple_seq_throw {A B} (p : prog S (outcome A)) (k : A → prog S (outcome B))
  (V : A → Prop) (V' : outcome B → Prop) :
  triple (λ _, True) p (only (λ r, ∀ a, r = Returned a → V a)) → V' Threw →
  (∀ a, V a → triple (λ _, True) (k a) (only V')) →
  triple (λ _, True) (bind_throw p k) (only V').
Proof.
  intros Hp Ht Hk. eapply triple_seq; [exact Hp|]. intros [a|] Ha; [by apply Hk, Ha|].
  by apply triple_pure.
Qed.

Lemma triple_collect_market key a b c :
  triple (λ _, True) (collect_market (key_venue key) (key_market key) (key_symbol key) a b c)
    (only (collected_market key)).
Proof.
  unfold collect_market.
  eapply (triple_seq_throw _ _ (λ r, ∀ o, r = Some o →
            obs_resident_subscription_count o ≤ kMaximumActiveSubscriptions)); [| done |].
  { eapply triple_conseq; [apply so_runtime|done|]. intros r s _ Hr ? -> ? ->. by apply Hr. }
  intros [runtime|] Hr; [|by apply triple_pure]. specialize (Hr _ eq_refl).
  eapply (triple_seq_throw _ _ (λ r, ∀ o, r = Some o → valid_recovery_observation o = true)); [|done|].
  { eapply triple_conseq; [apply so_recovery|done|]. intros r s _ Hv ? -> ? ->. by apply Hv. }
  intros [recovery|] Hv; [|by apply triple_pure]. specialize (Hv _ eq_refl).
  eapply triple_seq; [apply so_events|]. intros events He. apply triple_pure.
  split; [by destruct key|]. unfold valid_market. simpl.
  rewrite Hv, !bool_decide_eq_true_2 by (first [done|destruct (obs_state runtime); by eexists]). done.
Qed.

Definition collected_markets (keys : list MarketKey)
  (r : outcome (list CollectedMarket + StatusSnapshotError)) : Prop :=
  match r with
  | Returned (inl markets) => collected_for keys markets
  | Returned (inr e) => e = ObservationTimeout
  | Threw => True
  end.

Lemma triple_collect_entries entries :
  triple (λ _, True) (collect_entries entries) (only (collected_markets (services_key <$> entries))).
Proof.
  induction entries as [|e entries IH]; cbn [collect_entries].
  { apply triple_pure. by split. }
  destruct (services_runtime e) as [a|], (services_recovery e) as [b|],
    (services_event_publication e) as [c|]; try by apply triple_pure.
  eapply (triple_seq_throw _ _ (λ r, collected_market (services_key e) (Returned r))); [|done|].
  { eapply triple_conseq; [apply (triple_collect_market (services_key e))|done|]. by intros r s _ Hr o ->. }
  intros [m|error] Hm; [|by apply triple_pure].
  eapply (triple_seq_throw _ _ (λ r, collected_markets (services_key <$> entries) (Returned r))); [|done|].
  { eapply triple_conseq; [exact IH|done|]. by intros r s _ Hr o ->. }
  intros [markets|error] Hms; [|by apply triple_pure].
  apply triple_pure. destruct Hm as [Hk Hv], Hms as [Hks Hvs].
  split; [|by constructor]. rewrite !fmap_cons. by f_equal.
Qed.

(** What the assembler was constructed for. *)
Definition product_keys (a : Assembler) : list MarketKey :=
  match as_registry a with
  | Some entries => services_key <$> entries
  | None => [spot_btcusdt_key]
  end.

Record configured (a : Assembler) : Prop := {
  cf_single : as_registry a = None →
              ∃ r y e, as_single a = MkSingleProduct (Some r) (Some y) (Some e);
  cf_products : length (product_keys a) ≤ kMaximumConfiguredProducts
}.

Lemma triple_collect_markets a :
  configured a →
  triple (λ _, True) (collect_markets a) (only (collected_markets (product_keys a))).
Proof.
  intros Hc. unfold collect_markets, product_keys.
  destruct (as_registry a) as [entries|] eqn:Hreg; [apply triple_collect_entries|].
  destruct (cf_single _ Hc Hreg) as (r & y & e & ->).
  eapply (triple_seq_throw _ _ (λ r, collected_market spot_btcusdt_key (Returned r))); [|done|].
  { eapply triple_conseq; [apply (triple_collect_market spot_btcusdt_key)|done|].
    by intros ? s _ Hr o ->. }
  intros [m|error] Hm; apply triple_pure; [|done]. destruct Hm as [Hk Hv].
  split; [by rewrite <- Hk|by repeat constructor].
Qed.

(** The counts of a snapshot. *)
Definition total_active (markets : list CollectedMarket) : nat :=
  foldr (λ m n, active_subscriptions m + n) 0 markets.

Lemma add_markets_spec markets : ∀ snapshot,
  Forall (λ m, valid_market m = true) markets →
  (0 <= gs_total_active_subscriptions snapshot)%Z →
  (gs_total_active_subscriptions snapshot + total_active markets <= u64_max)%Z →
  let result := add_markets markets snapshot in
  gs_markets result = gs_markets snapshot ++
    ((λ m, market_status m (default 0%Z (map_runtime_state (obs_state (cm_runtime m))))) <$> markets) ∧
  gs_total_active_subscriptions result
    = (gs_total_active_subscriptions snapshot + total_active markets)%Z ∧
  gs_schema_version result = gs_schema_version snapshot ∧
  gs_gateway_instance_id result = gs_gateway_instance_id snapshot ∧
  gs_observed_time_utc_ns result = gs_observed_time_utc_ns snapshot ∧
  gs_uptime_seconds result = gs_uptime_seconds snapshot.
Proof.
  induction markets as [|m markets IH]; intros snapshot Hv H0 Hmax; cbn [add_markets].
  { unfold total_active. simpl. rewrite app_nil_r. split_all; try done. lia. }
  inversion Hv as [|? ? Hm Hms]; subst. unfold total_active in *. simpl in Hmax.
  assert (Hwrap : u64_wrap (gs_total_active_subscriptions snapshot + active_subscriptions m)
                  = (gs_total_active_subscriptions snapshot + active_subscriptions m)%Z).
  { unfold u64_wrap. apply Z.mod_small. unfold u64_max in Hmax. lia. }
  edestruct IH as (Hg & Ht & H1 & H2 & H3 & H4); [done| | |].
  3: { cbv zeta. rewrite Hg, Ht, H1, H2, H3, H4. simpl. rewrite Hwrap, <- app_assoc.
       split_all; try done. lia. }
  - simpl. rewrite Hwrap. lia.
  - simpl. rewrite Hwrap. lia.
Qed.

(** What is promised to the reader of a snapshot. *)
Record snapshot_ok (a : Assembler) (snapshot : GatewayStatusSnapshot) : Prop := {
  sn_schema : gs_schema_version snapshot = kStatusSnapshotSchema;
  sn_gateway : gs_gateway_instance_id snapshot = as_gateway_instance_id a;
  sn_products : status_key <$> gs_markets snapshot = product_keys a;
  sn_uptime : (0 <= gs_uptime_seconds snapshot)%Z;
  sn_counts : Forall (λ m, (0 <= ms_active_subscription_count m <= 16)%Z) (gs_markets snapshot);
  sn_total : gs_total_active_subscriptions snapshot
             = foldr Z.add 0%Z (ms_active_subscription_count <$> gs_markets snapshot);
  sn_fresh : Forall (λ m, is_Some (ms_last_event_utc_ns m) →
               ms_state m = STREAM_LIFECYCLE_STATE_LIVE ∧ is_Some (ms_connection_generation m))
             (gs_markets snapshot)
}.

Lemma valid_market_counts m : valid_market m = true → active_subscriptions m ≤ 16.
Proof.
  unfold valid_market. rewrite !andb_true_iff, !bool_decide_eq_true.
  unfold active_subscriptions, kMaximumActiveSubscriptions, kMaximumActiveEventSubscriptions. lia.
Qed.

Lemma total_active_bound markets :
  Forall (λ m, valid_market m = true) markets → total_active markets ≤ 16 * length markets.
Proof.
  unfold total_active. induction 1 as [|m markets Hm Hms IH]; simpl; [lia|].
  pose proof (valid_market_counts m Hm). lia.
Qed.

Lemma market_status_fresh m state :
  is_Some (last_event_utc_ns m) → map_runtime_state (obs_state (cm_runtime m)) = Some state →
  let status := market_status m state in
  ms_state status = STREAM_LIFECYCLE_STATE_LIVE ∧ is_Some (ms_connection_generation status).
Proof.
  unfold last_event_utc_ns. intros Hfresh Hstate.
  destruct (obs_last_applied_depth (cm_runtime m)); [|by destruct Hfresh].
  destruct (_ && _ && _ && _ && _) eqn:Hb; [|by destruct Hfresh].
  rewrite !andb_true_iff, !bool_decide_eq_true in Hb. destruct Hb as ((((Hl & _) & _) & Ha) & _).
  simpl. rewrite (bool_decide_eq_true_2 _ Ha). rewrite Hl in Hstate. injection Hstate as <-.
  split; [done|by eexists].
Qed.

Lemma make_snapshot_ok a baseline observed_at markets :
  configured a → collected_for (product_keys a) markets →
  (sample_monotonic_ns observed_at <? baseline)%Z = false →
  snapshot_ok a (make_snapshot (as_gateway_instance_id a) baseline observed_at markets).
Proof.
  intros Hc [Hk Hv] Ht. apply Z.ltb_ge in Ht. unfold make_snapshot.
  set (empty := MkGatewayStatusSnapshot _ _ _ _ _ _).
  assert (Hlen : length markets ≤ 8).
  { pose proof (cf_products _ Hc) as Hn. rewrite <- Hk, length_fmap in Hn. exact Hn. }
  pose proof (total_active_bound markets Hv) as Hmax.
  destruct (add_markets_spec markets empty Hv) as (Hm & Htot & Hs & Hg & _ & Hu);
    [simpl; lia|simpl; unfold u64_max; lia|].
  split; rewrite ?Hm, ?Htot, ?Hs, ?Hg, ?Hu; simpl; try done.
  - rewrite <- Hk, <- list_fmap_compose. apply list_fmap_ext. by intros.
  - apply Z.div_pos; lia.
  - apply Forall_fmap. eapply Forall_impl; [exact Hv|]. intros m Hmv. simpl.
    pose proof (valid_market_counts m Hmv). lia.
  - clear. induction markets as [|m markets IH]; [done|].
    rewrite !fmap_cons. cbn [foldr total_active ms_active_subscription_count market_status].
    rewrite <- IH. unfold total_active. simpl. lia.
  - apply Forall_fmap. eapply Forall_impl; [exact Hv|]. intros m Hmv Hf. cbn [compose] in *.
    apply market_status_fresh; [exact Hf|]. by destruct (obs_state (cm_runtime m)).
Qed.

Definition answered (a : Assembler)
  (r : outcome (GatewayStatusSnapshot + StatusSnapshotError)) : Prop :=
  match r with
  | Returned (inl snapshot) => snapshot_ok a snapshot
  | Returned (inr error) => error ≠ InvalidObservation
  | Threw => True
  end.

(** Only what the constructors fixed matters. *)
Lemma configured_config a a' : config a' = config a → configured a → configured a'.
Proof. destruct a, a'. intros [= -> -> ->] [Hs Hp]. by split. Qed.

Lemma answered_config a a' r : config a' = config a → answered a' r → answered a r.
Proof.
  destruct a, a'. intros [= -> -> ->]. destruct r as [[snapshot|e]|]; [|done|done].
  by intros [].
Qed.

Lemma triple_collect a :
  configured a →
  triple (λ s, config (sw_assembler s) = config a) collect (only (answered a)).
Proof.
  intros Hc. unfold collect.
  apply (triple_bind _ _ (only (λ a', config a' = config a))).
  { apply triple_read; [|done]. intros s s' _ _ Hs Hr. by rewrite (so_config _ _ Hr). }
  intros a' s Hi Ha. eapply safe_mono; [|eapply (triple_seq_throw _ _
    (λ r, collected_markets (product_keys a') (Returned r)) (answered a')); [|done| |exact Hi|done]].
  - intros r s' [Hi' Hr]. split; [done|]. by eapply answered_config.
  - eapply triple_conseq; [apply triple_collect_markets; by eapply configured_config|done|].
    by intros r s' _ Hr o ->.
  - intros [markets|error] Hm; [|apply triple_pure; by rewrite Hm].
    destruct (existsb _ markets) eqn:Hbad.
    { exfalso. apply existsb_exists in Hbad as (m & Hin & Hv). destruct Hm as [_ Hall].
      rewrite (proj1 (Forall_forall _ _) Hall m) in Hv by by apply list_elem_of_In. done. }
    eapply triple_seq; [by apply (triple_read _ _ (only (λ _, True)))|]. intros [baseline|] _; [|by apply triple_pure].
    eapply (triple_seq _ _ (λ _, True)).
    { apply triple_atomically; [done|]. intros s1 Hi1 _. split; [by apply so_clock|done]. }
    intros [observed_at|] _; [|by apply triple_pure].
    destruct (_ <? _)%Z eqn:Ht; apply triple_pure; [done|].
    by apply make_snapshot_ok; [eapply configured_config| |].
Qed.

(** Whatever happens between two sections of [collect]. *)
Lemma collect_interleaved a s0 s r :
  Reflexive R → Transitive R → (∀ s s', R s s' → I s → I s') →
  configured a → I s0 → config (sw_assembler s0) = config a →
  star (interleave R) (s0, collect) (s, Done r) → answered a r.
Proof.
  intros Hrefl Htrans Hkeep Hc Hi Ha Hstar.
  destruct (safe_interleaved I R collect (Done r) _ s0 s Hrefl Htrans Hkeep Hi
              (triple_collect a Hc s0 Hi Ha) Hstar) as (_ & s1 & _ & _ & Hr). exact Hr.
Qed.
End Contract.

(** ** The modelled components keep these promises *)

(** [RuntimeObservation observe_until] of a runtime: the target, then the section that
    returns. *)
Definition observe_runtime_until `{L : ProjectionLibrary} (cancelled : bool)
  : prog Impl.Runtime (option RuntimeObservation) :=
  target ← read Impl.observe_target;
  atomically (λ s, Impl.observe_finish target (Impl.observe_ready target s) cancelled s).

Section Products.
Context `{W : WireEnums} `{L : ProjectionLibrary} {X : Type} `{RW : !RecoveryWorld X}.
Abbreviation Coordinator := (@Coordination.Coordinator L (Traced X)).

(** The components of the program, by address; [pr_cancelled]: the deadline has passed or
    the stop was requested. *)
Record Products : Type := MkProducts {
  pr_assembler : Assembler;
  pr_runtimes : gmap Z Impl.Runtime;
  pr_coordinators : gmap Z Coordinator;
  pr_publications : gmap Z EventPublication.Publication;
  pr_cancelled : bool;
  pr_clock : outcome ClockSample
}.
#[export] Instance Products_eta : Eta Products :=
  λ s, MkProducts (pr_assembler s) (pr_runtimes s) (pr_coordinators s) (pr_publications s)
    (pr_cancelled s) (pr_clock s).

Definition zoom_runtime {A} (a : Z) (p : prog Impl.Runtime A) (dead : A) : prog Products A :=
  zoom (λ s, pr_runtimes s !! a) (λ r s, s <| pr_runtimes ::= <[a := r]> |>) p dead.
Definition zoom_coordinator {A} (a : Z) (p : prog Coordinator A) (dead : A) : prog Products A :=
  zoom (λ s, pr_coordinators s !! a) (λ c s, s <| pr_coordinators ::= <[a := c]> |>) p dead.

#[export] Instance products_world : StatusWorld Products := {|
  sw_assembler := pr_assembler;
  sw_update f s := s <| pr_assembler ::= f |>;
  sw_observe_runtime a :=
    cancelled ← read pr_cancelled;
    Returned <$> zoom_runtime a (observe_runtime_until cancelled) None;
  sw_observe_recovery a :=
    cancelled ← read pr_cancelled;
    if cancelled : bool then mret (Returned None)
    else (λ r, match r with Returned o => Returned (Some o) | Threw => Threw end)
           <$> zoom_coordinator a Coordination.observe Threw;
  sw_observe_events a :=
    read (λ s, match pr_publications s !! a with
               | Some p => EventPublication.observe p
               | None => MkEventPublicationObservation EsClosed None 0
               end);
  sw_clock s := (s, pr_clock s)
|}.

(** Every component is in a state its own threads and callers can bring it to. *)
Definition reachable_runtime (r : Impl.Runtime) : Prop :=
  maximum_active_subscriptions (publication (Impl.limits r)) ≤ kMaximumActiveSubscriptions ∧
  ∃ clock alloc_ok w0 w, runtime_start w0 ∧ star (runtime_step clock alloc_ok) w0 w ∧ rt w = r.

Definition reachable_coordinator (c : Coordinator) : Prop :=
  (ro_active_transport_count (Coordination.observation c) = 0 ∨
   ro_connection_generation (Coordination.observation c) ≠ 0%Z) ∧
  ∃ w0 t, recovery_start w0 ∧ star (recovery_step (λ _ _, True)) w0 (c, t).

Definition reachable_publication (p : EventPublication.Publication) : Prop :=
  ∃ w0 w, world_start w0 ∧ star world_step w0 w ∧ w_pub w = p.

Record products_ok (s : Products) : Prop := {
  po_runtimes : map_Forall (λ _, reachable_runtime) (pr_runtimes s);
  po_coordinators : map_Forall (λ _, reachable_coordinator) (pr_coordinators s);
  po_publications : map_Forall (λ _, reachable_publication) (pr_publications s)
}.

(** The rest of the program moves the components through such states. *)
Definition products_move (s s' : Products) : Prop :=
  config (pr_assembler s') = config (pr_assembler s) ∧ (products_ok s → products_ok s').

Lemma runtime_residents r :
  reachable_runtime r →
  obs_resident_subscription_count (Impl.observation r) ≤ kMaximumActiveSubscriptions.
Proof.
  intros (Hlim & clock & alloc_ok & w0 & w & H0 & Hstar & <-).
  assert (Hw : world_ok w).
  { eapply (star_invariant _ world_ok); eauto using runtime_step_ok, runtime_start_ok. }
  unfold world_ok in Hw. destruct (owner w) as [|p|p|].
  - rewrite (fi_resident _ Hw). lia.
  - destruct Hw as [Hi _]. pose proof (ri_resident _ Hi). lia.
  - destruct Hw as [Hi _]. pose proof (ri_resident _ Hi). lia.
  - pose proof (ri_resident _ Hw). lia.
Qed.

Lemma runtime_observation_promise cancelled :
  promises reachable_runtime (observe_runtime_until cancelled)
    (λ r, ∀ o, r = Some o → obs_resident_subscription_count o ≤ kMaximumActiveSubscriptions).
Proof.
  apply (promises_bind _ _ _ (λ _, True)); [by apply promises_read|]. intros target _.
  apply promises_atomically. intros r Hr.
  set (finished := Impl.observe_finish target (Impl.observe_ready target r) cancelled r).
  assert (Hr' : reachable_runtime (fst finished)).
  { destruct Hr as (Hlim & clock & alloc_ok & w0 & [r' o] & H0 & Hstar & <-). split.
    - subst finished. unfold Impl.observe_finish. by case_match.
    - exists clock, alloc_ok, w0, (MkRuntimeWorld (fst finished) o).
      split_all; [done| |done]. eapply star_trans; [exact Hstar|].
      apply star_one, step_caller, call_observe. }
  split; [done|]. intros o Ho. pose proof (runtime_residents _ Hr') as Hres.
  replace o with (Impl.observation (fst finished)); [done|].
  subst finished. unfold Impl.observe_finish in *. case_match; [done|]. by injection Ho.
Qed.

(** A section of the coordinator's observers. *)
Lemma reachable_coordinator_call {A} (f : Traced X → Traced X * A) (c : Coordinator) :
  (∀ t, trace (fst (f t)) = trace t) → reachable_coordinator c →
  reachable_coordinator (fst (run (Coordination.call f) c)).
Proof.
  intros Hf (Hg & w0 & t & H0 & Hstar). split; [done|]. exists w0, t. split; [done|].
  eapply star_trans; [exact Hstar|]. apply star_one, step_other. simpl.
  set (x := fst (f (Coordination.world c))).
  replace x with (MkTraced (inner x) (trace (Coordination.world c)))
    by (unfold x; rewrite <- (Hf (Coordination.world c)); by destruct (fst (f (Coordination.world c)))).
  by apply other_world.
Qed.

Lemma recovery_observation_promise :
  promises reachable_coordinator Coordination.observe
    (λ r, ∀ o, r = Returned o → valid_recovery_observation o = true).
Proof.
  assert (Hvalid : ∀ c : Coordinator, reachable_coordinator c →
            valid_recovery_observation (Coordination.observation c) = true).
  { intros c (Hg & w0 & t & H0 & Hstar).
    destruct (recovery_reachable_ok _ _ _ H0 Hstar) as [[_ Hr _ _ _] _]. cbn [fst] in Hr.
    unfold valid_recovery_observation. rewrite bool_decide_eq_true_2 by apply (re_transports _ Hr).
    simpl. apply orb_true_iff. rewrite bool_decide_eq_true, negb_true_iff, Z.eqb_neq. exact Hg. }
  apply (promises_bind _ _ _ (λ o, valid_recovery_observation o = true)); [by apply promises_read|].
  intros copy Hcopy. apply (promises_bind _ _ _ (λ _, True)); [by apply promises_read|].
  intros [attempt|] _; [|by intros o [= <-]].
  destruct (_ || _); [by intros o [= <-]|].
  apply (promises_bind _ _ _ (λ _, True)).
  - apply promises_atomically. intros c Hc. split; [|done].
    by apply (reachable_coordinator_call (w_attempt_observe attempt) c).
  - intros [transport|] _; [|done]. intros o [= <-]. unfold Coordination.observe_overlay.
    by case_match.
Qed.

(** The limits of a publication are those of its constructor. *)
Lemma world_step_limits w w' :
  world_step w w' → EventPublication.limits (w_pub w') = EventPublication.limits (w_pub w).
Proof.
  destruct 1; simpl; try done;
    unfold EventPublication.open_generation, EventPublication.quiesce_generation,
      EventPublication.close_generation_replaced, EventPublication.close_generation_permanently,
      EventPublication.admit_subscription, EventPublication.remove, EventPublication.shutdown in *;
    repeat case_match; by simplify_eq/=.
Qed.

Lemma publication_residents p :
  reachable_publication p →
  obs_active_subscriptions (EventPublication.observe p) ≤ kMaximumActiveEventSubscriptions.
Proof.
  intros (w0 & w & H0 & Hstar & <-). pose proof (world_reachable_inv _ _ H0 Hstar) as Hi.
  assert (Hl : EventPublication.limits (w_pub w) = EventPublication.limits (w_pub w0)).
  { clear H0 Hi. induction Hstar as [|w1 w2 w3 Hs _ IH]; [done|].
    by rewrite IH, (world_step_limits _ _ Hs). }
  pose proof (wi_limit _ Hi) as Hlim. rewrite Hl in Hlim. destruct H0 as (gid & lim & Hm & _).
  unfold EventPublication.make in Hm. destruct (_ || _) eqn:Hb in Hm; [done|].
  injection Hm as Hm. rewrite <- Hm in Hlim. simpl in *. etrans; [exact Hlim|].
  rewrite !orb_false_iff, !bool_decide_eq_false in Hb. destruct Hb. lia.
Qed.

#[export] Instance products_keep : StatusWorldOk products_ok products_move.
Proof.
  split.
  - intros a. eapply triple_bind; [by apply (triple_read _ _ (λ _ _, True))|]. intros cancelled.
    eapply triple_bind.
    + apply (triple_zoom _ _ reachable_runtime); [| | |apply (runtime_observation_promise cancelled)];
        [by intros s r [Hr _ _] Hs; apply (map_Forall_lookup_1 _ _ _ _ Hr Hs)| |done].
      intros s r r' [Hr Hc Hp] _ Hr'. split; [|done..]. by apply map_Forall_insert_2.
    + intros r. apply triple_ret. by intros s _ Hr o [= ->]; apply Hr.
  - intros a. eapply triple_bind; [by apply (triple_read _ _ (λ _ _, True))|].
    intros [|]; [by apply triple_ret; intros s _ _ o|].
    eapply triple_bind.
    + apply (triple_zoom _ _ reachable_coordinator); [| | |apply recovery_observation_promise];
        [by intros s c [_ Hc _] Hs; apply (map_Forall_lookup_1 _ _ _ _ Hc Hs)| |done].
      intros s c c' [Hr Hc Hp] _ Hc'. split; [done| |done]. by apply map_Forall_insert_2.
    + intros [r|]; apply triple_ret; [|done]. by intros s _ Hr o [= ->]; apply Hr.
  - intros a. apply triple_read; [done|]. intros s [_ _ Hp] _.
    destruct (pr_publications s !! a) as [p|] eqn:Hs; [|simpl; unfold kMaximumActiveEventSubscriptions; lia].
    apply publication_residents. exact (map_Forall_lookup_1 _ _ _ _ Hp Hs).
  - done.
  - by intros s s' [Hc _].
Qed.

#[export] Instance products_move_refl : Reflexive products_move.
Proof. by intros s. Qed.

#[export] Instance products_move_trans : Transitive products_move.
Proof. intros s1 s2 s3 [H1 K1] [H2 K2]. split; [by rewrite H2|auto]. Qed.

End Products.

(** ** Witness: one product, collected alone *)

Section Sample.
#[local] Existing Instance sample_enums.
#[local] Existing Instance SampleProjection.library.
#[local] Existing Instance SampleWorld.world.

Definition one_product : list MarketServices :=
  [MkMarketServices spot_btcusdt_key (Some 31%Z) (Some 32%Z) (Some 33%Z)].

Definition sample_assembler : Assembler :=
  MkAssembler (Some one_product) (MkSingleProduct None None None) "gw-1" (Some 1%Z).

Definition sample_products : Products (X := SampleWorld.Env) :=
  MkProducts sample_assembler {[31%Z := runtime4]} {[32%Z := coordinator0]}
    {[33%Z := w_pub sample_world]} false (Returned (MkClockSample 77 5000000001)).

Lemma sample_products_ok : products_ok sample_products.
Proof.
  split; apply map_Forall_singleton.
  - split; [vm_compute; lia|]. exists sample_clock, sample_alloc.
    by eexists _, _; split; [exact runtime0_start|split; [exact runtime4_reachable|reflexivity]].
  - split; [by left|]. exists (coordinator0, CoordinatorNone), CoordinatorNone.
    split; [exact coordinator0_start|constructor].
  - exists sample_world0, sample_world.
    split; [exact sample_world_start|split; [exact sample_world_run|reflexivity]].
Qed.

Definition collected : Products (X := SampleWorld.Env) * outcome (GatewayStatusSnapshot + StatusSnapshotError) :=
  run collect sample_products.

End Sample.
