(* ===== verification/GrpcService.v ===== *)
(** * GrpcService: the contexts of the RPC service and its shutdown

    Models the state of [OrderBookGrpcService] ([src/src/g7/grpc_service.hpp] and
    [.cpp]): the tracked contexts, the single status slot and [begin_shutdown], and the
    server that hosts it.  The stream handlers are those of [GrpcStreams]; here a call
    is seen only through what it does to the service: it is tracked, it is finalized (or
    untracked by an exception) and it returns.  [server_step] interleaves the calls, the
    status requests and the shutdown, section by section.

    A [grpc::ServerContext] lives as long as its call: [try_cancel] of a context whose
    call has returned is a use after free, recorded in [dangling]. *)

From S2P Require Import Prelude Ring Wire Session OrderBookPublication EventPublication Programs.
From S2P Require Import Projection MarketRuntime Recovery Registry GrpcRequests GrpcStreams GatewayStatus.

Open Scope gateway_scope.

Definition kMaximumGrpcTrackedContexts : nat := 48.

Record TrackedContext : Type := MkTrackedContext {
  tc_context : Z;
  tc_selected : bool
}.

(** How far a streaming call has come; [Finalized selected status]: the status the
    handler returns, unless it left by an exception. *)
Inductive CallPhase : Type :=
| Arrived
| Serving
| Finalized (selected : bool) (status : option Status).

(** The calls the shutdown makes on a product. *)
Class ProductServices (P : Type) : Type := {
  ps_close_publication_admission : Z → prog P ();
  ps_shutdown_publication : Z → prog P ();
  ps_shutdown_events : Z → prog P ()
}.

(** ** The service *)

Section Service.
Context `{W : WireEnums} `{L : ProjectionLibrary} {P : Type}.
Context `{PS : !ProductServices P} `{SW : !StatusWorld P}.

(** The members of the service, then what it acts on: the calls in progress, the
    contexts that are cancelled (by the client, its deadline or [TryCancel]) and the
    products. *)
Record Service : Type := MkService {
  market_registry : option (list MarketServices);
  single_runtime : option Z;
  single_event_publication : option Z;
  maximum_tracked_contexts : nat;
  status_configured : bool;
  status_inflight : bool;
  status_stop : bool;
  contexts : list TrackedContext;
  admission_open : bool;
  shutdown_started : bool;
  cancellation_snapshot_active : bool;
  calls : gmap Z CallPhase;
  cancelled_contexts : gset Z;
  dangling : bool;
  products : P
}.
#[export] Instance Service_eta : Eta Service :=
  λ s, MkService (market_registry s) (single_runtime s) (single_event_publication s)
    (maximum_tracked_contexts s) (status_configured s) (status_inflight s) (status_stop s)
    (contexts s) (admission_open s) (shutdown_started s) (cancellation_snapshot_active s)
    (calls s) (cancelled_contexts s) (dangling s) (products s).

Abbreviation Thread := (prog Service).

(** The common part of the constructors: the checks of the identifier and of the limits.
    [idle] is the idle interval in milliseconds; [None] is [std::invalid_argument]. *)
Definition valid_options (gateway_instance_id : string) (idle : Z) (maximum : nat) : bool :=
  identifier_safe gateway_instance_id && (0 <? idle)%Z && negb (bool_decide (maximum = 0))
  && bool_decide (maximum ≤ kMaximumGrpcTrackedContexts).

Definition initial_service (registry : option (list MarketServices)) (runtime events : option Z)
  (maximum : nat) (status : bool) (p : P) : Service :=
  MkService registry runtime events maximum status false false [] true false false ∅ ∅ false p.

(** A runtime, then also an event publication, then also the status. *)
Definition make_g7 (runtime : Z) (gateway_instance_id : string) (idle : Z) (maximum : nat) (p : P)
  : option Service :=
  if valid_options gateway_instance_id idle maximum
  then Some (initial_service None (Some runtime) None maximum false p) else None.

Definition make_g9 (publication_id : Z → string) (runtime events : Z)
  (gateway_instance_id : string) (idle : Z) (maximum : nat) (p : P) : option Service :=
  s ← make_g7 runtime gateway_instance_id idle maximum p;
  if bool_decide (publication_id events = gateway_instance_id)
  then Some (s <| single_event_publication := Some events |>) else None.

Definition make_g10 (publication_id : Z → string) (runtime recovery events : Z) (clock : bool)
  (gateway_instance_id : string) (idle : Z) (maximum : nat) (p : P) : option Service :=
  s ← make_g9 publication_id runtime events gateway_instance_id idle maximum p;
  a ← make_single publication_id runtime recovery events clock gateway_instance_id;
  Some (s <| status_configured := true |> <| products ::= sw_update (λ _, a) |>).

(** A registry, whose publications share the identifier. *)
Definition make_g11 (publication_id : Z → string) (entries : list MarketServices) (clock : bool)
  (gateway_instance_id : string) (idle : Z) (maximum : nat) (p : P) : option Service :=
  if negb (valid_options gateway_instance_id idle maximum) then None else
  if existsb (λ entry, match services_event_publication entry with
                       | Some e => negb (bool_decide (publication_id e = gateway_instance_id))
                       | None => false
                       end) entries then None else
  a ← make_for_registry publication_id entries clock gateway_instance_id;
  Some (initial_service (Some entries) None None maximum true p
          <| products ::= sw_update (λ _, a) |>).

(** *** Contexts *)

Definition track_context (context : Z) (s : Service) : Service * TrackResult :=
  if negb (admission_open s) then (s, TrackClosed)
  else if bool_decide (length (contexts s) = maximum_tracked_contexts s) then (s, TrackFull)
  else (s <| contexts ::= λ l, l ++ [MkTrackedContext context false] |>, Tracked).

(** [std::find_if] by context. *)
Definition find_context (context : Z) (s : Service) : option TrackedContext :=
  snd <$> list_find (λ entry, tc_context entry = context) (contexts s).

(** [contexts_.erase(found)]: the first entry of the context. *)
Fixpoint erase_context (context : Z) (l : list TrackedContext) : list TrackedContext :=
  match l with
  | [] => []
  | entry :: rest => if decide (tc_context entry = context) then rest
                     else entry :: erase_context context rest
  end.

(** [finalize_context] after its wait for the end of the cancellation snapshot. *)
Definition finalize_context (context : Z) (proposed_status : Status) (s : Service)
  : Service * (bool * Status) :=
  let selected := match find_context context s with
                  | Some entry => tc_selected entry
                  | None => false
                  end in
  (s <| contexts ::= erase_context context |>, (selected, finalized_status selected proposed_status)).

Definition untrack_context (context : Z) (s : Service) : Service :=
  s <| contexts ::= erase_context context |>.

(** *** Shutdown *)

(** A thread of the products; they are always there, so that [dead] is not reached. *)
Definition on_products {A} (p : prog P A) (dead : A) : Thread A :=
  zoom (λ s, Some (products s)) (λ x s, s <| products := x |>) p dead.

(** The first section of [begin_shutdown]: whether it had started before. *)
Definition shutdown_begin (s : Service) : Service * bool :=
  if shutdown_started s then (s, true)
  else (s <| shutdown_started := true |> <| admission_open := false |>, false).

(** [entry.runtime->...] of every entry; a checked registry has no null service. *)
Definition for_each_service (service : MarketServices → option Z) (entries : list MarketServices)
  (act : Z → prog P ()) : Thread () :=
  for_each entries (λ entry, match service entry with
                             | Some a => on_products (act a) ()
                             | None => mret ()
                             end).

Definition shut_products (registry : option (list MarketServices)) (runtime events : option Z)
  : Thread () :=
  match registry with
  | Some entries =>
      for_each_service services_runtime entries ps_close_publication_admission ;;
      for_each_service services_runtime entries ps_shutdown_publication ;;
      for_each_service services_event_publication entries ps_shutdown_events
  | None =>
      match runtime with
      | Some a => on_products (ps_close_publication_admission a) () ;;
                  on_products (ps_shutdown_publication a) ()
      | None => mret ()
      end ;;
      match events with
      | Some e => on_products (ps_shutdown_events e) ()
      | None => mret ()
      end
  end.

(** The section that selects every tracked context. *)
Definition select_contexts (s : Service) : Service * list Z :=
  (s <| cancellation_snapshot_active := true |>
     <| contexts ::= fmap (λ entry, MkTrackedContext (tc_context entry) true) |>,
   tc_context <$> contexts s).

(** [context->TryCancel()] *)
Definition try_cancel (context : Z) (s : Service) : Service :=
  if bool_decide (is_Some (calls s !! context))
  then s <| cancelled_contexts ::= λ c, {[context]} ∪ c |>
  else s <| dangling := true |>.

(** [begin_shutdown]; the notification at the end wakes the handlers that wait. *)
Definition begin_shutdown : Thread () :=
  already ← atomically shutdown_begin;
  if already : bool then mret () else
  modify (λ s, s <| status_stop := true |>) ;;
  members ← read (λ s, (market_registry s, single_runtime s, single_event_publication s));
  (let '(registry, runtime, events) := members in shut_products registry runtime events) ;;
  selected ← atomically select_contexts;
  for_each selected (λ context, modify (try_cancel context)) ;;
  modify (λ s, s <| cancellation_snapshot_active := false |>).

(** *** The status request *)

(** The section that takes the slot; [Some] is the refusal. *)
Definition take_status_slot (s : Service) : Service * option Status :=
  if negb (admission_open s)
  then (s, Some (MkStatus UNAVAILABLE "gateway status admission is shutting down"))
  else if negb (status_configured s)
  then (s, Some (MkStatus UNAVAILABLE "gateway status is not configured"))
  else if status_inflight s
  then (s, Some (MkStatus RESOURCE_EXHAUSTED "gateway status request is already in progress"))
  else (s <| status_inflight := true |>, None).

Definition release_status_slot (s : Service) : Service := s <| status_inflight := false |>.

Definition is_cancelled (context : Z) (s : Service) : bool :=
  bool_decide (context ∈ cancelled_contexts s).

(** What a collection is answered with; [stopping]: [status_stop_] was requested. *)
Definition collected_status (result : outcome (GatewayStatusSnapshot + StatusSnapshotError))
  (stopping : bool) : Status * option GatewayStatusSnapshot :=
  match result with
  | Returned (inl snapshot) => (status_ok, Some snapshot)
  | Returned (inr error) =>
      if stopping then (MkStatus UNAVAILABLE "gateway status is shutting down", None)
      else if bool_decide (error = ObservationTimeout)
      then (MkStatus DEADLINE_EXCEEDED "gateway owner observation deadline exceeded", None)
      else (MkStatus INTERNAL "gateway status observation is invalid", None)
  | Threw => (MkStatus INTERNAL "gateway status assembly failed", None)
  end.

(** Between the two ends of [StatusSlotGuard]. *)
Definition answer_status (context : Z) : Thread (Status * option GatewayStatusSnapshot) :=
  gone ← read (is_cancelled context);
  if gone : bool then mret (client_cancelled, None) else
  result ← on_products collect Threw;
  match result with
  | Threw => mret (collected_status Threw false)
  | Returned _ =>
      gone ← read (is_cancelled context);
      if gone : bool then mret (client_cancelled, None) else
      stopping ← read status_stop;
      mret (collected_status result stopping)
  end.

(** [GetGatewayStatus]: the status and the response it fills. *)
Definition GetGatewayStatus (arguments : bool) (request : GatewayStatusRequest) (context : Z)
  : Thread (Status * option GatewayStatusSnapshot) :=
  if negb arguments then mret (MkStatus INVALID_ARGUMENT "null RPC argument", None) else
  if negb (validate_gateway_status_request request)
  then mret (MkStatus INVALID_ARGUMENT "unsupported or malformed gateway status request", None) else
  refused ← atomically take_status_slot;
  match refused with
  | Some status => mret (status, None)
  | None =>
      answer ← answer_status context;
      modify release_status_slot ;;
      mret answer
  end.

Definition prepare_status_start : Thread bool :=
  configured ← read status_configured;
  if configured : bool then on_products prepare_start_baseline false else mret true.

Definition clear_status_start : Thread () :=
  configured ← read status_configured;
  if configured : bool then on_products clear_start_baseline () else mret ().
End Service.
Arguments Service : clear implicits.

(** ** The host *)

Section Host.
Context `{W : WireEnums} `{L : ProjectionLibrary} {P : Type} `{A : AddressLibrary}.
Context `{PS : !ProductServices P} `{SW : !StatusWorld P}.

(** [OrderBookGrpcServer]; [host_server]: whether [server_] is set. *)
Record Host : Type := MkHost {
  host_service : Service P;
  host_server : bool;
  selected_port : Z;
  host_down : bool
}.
#[export] Instance Host_eta : Eta Host :=
  λ h, MkHost (host_service h) (host_server h) (selected_port h) (host_down h).

Definition on_service {B} (p : prog (Service P) B) (dead : B) : prog Host B :=
  zoom (λ h, Some (host_service h)) (λ s h, h <| host_service := s |>) p dead.

(** [start]; [built] is the answer of [BuildAndStart] (whether there is a server, or an
    exception) and [port] what it stores in [selected_port_]. *)
Definition start (listen_address : string) (built : outcome bool) (port : Z) : prog Host bool :=
  refused ← read (λ h, host_server h || host_down h
                       || negb (valid_loopback_listen_address listen_address true));
  if refused : bool then mret false else
  prepared ← on_service prepare_status_start false;
  if negb prepared then mret false else
  match built with
  | Threw => on_service clear_status_start () ;; mret false
  | Returned server =>
      if server && (0 <? port)%Z
      then modify (λ h, h <| host_server := true |> <| selected_port := port |>) ;; mret true
      else modify (λ h, h <| host_server := false |> <| selected_port := 0%Z |>) ;;
           on_service clear_status_start () ;; mret false
  end.

(** [shutdown]; [Shutdown] and [Wait] return when the calls in progress have. *)
Definition shutdown : prog Host () :=
  down ← read host_down;
  if down : bool then mret () else
  modify (λ h, h <| host_down := true |>) ;;
  on_service begin_shutdown () ;;
  modify (λ h, h <| host_server := false |>).
End Host.
Arguments Host : clear implicits.

(** ** The server: calls, status requests and the shutdown *)

Section Server.
Context `{W : WireEnums} `{L : ProjectionLibrary} {P : Type}.
Context `{PS : !ProductServices P} `{SW : !StatusWorld P}.
(** What the products do by themselves. *)
Context (products_move : P → P → Prop).
Abbreviation Service := (Service P).
Abbreviation Thread := (prog Service).
Abbreviation Answer := (Status * option GatewayStatusSnapshot)%type.
Implicit Types (s : Service) (c : Z).

Definition serving s c : Prop := calls s !! c = Some Serving.

(** One section of a streaming call, of its client, or a move of the products.  A
    finalization waits for the end of the cancellation snapshot. *)
Inductive call_step : Service → Service → Prop :=
| call_tracked c s s' :
    calls s !! c = Some Arrived → track_context c s = (s', Tracked) →
    call_step s (s' <| calls ::= <[c := Serving]> |>)
| call_refused c s s' refusal status :
    calls s !! c = Some Arrived → track_context c s = (s', refusal) → refusal ≠ Tracked →
    call_step s (s' <| calls ::= <[c := Finalized false (Some status)]> |>)
| call_finalized c proposed s s' selected status :
    serving s c → cancellation_snapshot_active s = false →
    finalize_context c proposed s = (s', (selected, status)) →
    call_step s (s' <| calls ::= <[c := Finalized selected (Some status)]> |>)
| call_threw c s selected :
    serving s c → cancellation_snapshot_active s = false →
    call_step s (untrack_context c s <| calls ::= <[c := Finalized selected None]> |>)
| call_returns c s selected status :
    calls s !! c = Some (Finalized selected status) →
    call_step s (s <| calls ::= delete c |>)
| call_client_cancels c s : call_step s (s <| cancelled_contexts ::= λ l, {[c]} ∪ l |>)
| call_products x s : products_move (products s) x → call_step s (s <| products := x |>).

Record Server : Type := MkServer {
  sv_service : Service;
  sv_shutdown : Thread ();
  sv_status : gmap Z (Thread Answer)
}.

(** A context is new: no call in progress has it.  [begin_shutdown] is called by one
    thread at a time; a call made while another runs returns at its first section. *)
Inductive server_step : Server → Server → Prop :=
| server_call_arrives c s t m :
    calls s !! c = None → m !! c = None →
    server_step (MkServer s t m)
      (MkServer (s <| calls ::= <[c := Arrived]> |> <| cancelled_contexts ::= λ l, l ∖ {[c]} |>) t m)
| server_call s s' t m : call_step s s' → server_step (MkServer s t m) (MkServer s' t m)
| server_shuts_down s m u :
    server_step (MkServer s (Done u) m) (MkServer s begin_shutdown m)
| server_shutdown_section s f k m :
    server_step (MkServer s (Step f k) m) (MkServer (f s) (k s) m)
| server_status_arrives c arguments request s t m :
    calls s !! c = None → m !! c = None →
    server_step (MkServer s t m) (MkServer s t (<[c := GetGatewayStatus arguments request c]> m))
| server_status_section c s t m f k :
    m !! c = Some (Step f k) →
    server_step (MkServer s t m) (MkServer (f s) t (<[c := k s]> m))
| server_status_returns c s t m answer :
    m !! c = Some (Done answer) → server_step (MkServer s t m) (MkServer s t (delete c m)).

Definition server_start (v : Server) : Prop :=
  ∃ registry runtime events maximum status p,
    sv_service v = initial_service registry runtime events maximum status p ∧
    maximum ≤ kMaximumGrpcTrackedContexts ∧ sv_shutdown v = Done () ∧ sv_status v = ∅.

(** *** The invariant of the service *)

Abbreviation tracked s := (tc_context <$> contexts s).

Record service_ok s : Prop := {
  so_tracked : ∀ c, c ∈ tracked s ↔ serving s c;
  so_nodup : NoDup (tracked s);
  so_bound : length (contexts s) ≤ maximum_tracked_contexts s ≤ kMaximumGrpcTrackedContexts;
  so_started : shutdown_started s = negb (admission_open s);
  so_snapshot : cancellation_snapshot_active s = true → admission_open s = false;
  so_status : ∀ c status, calls s !! c = Some (Finalized true (Some status)) →
              status_code status ≠ OK;
  so_dangling : dangling s = false
}.

(** What the calls and the status requests leave to the shutdown: it alone opens and
    closes; once admission is closed no call is added, and during the snapshot none
    leaves. *)
Record during s s' : Prop := {
  du_admission : admission_open s' = admission_open s;
  du_snapshot : cancellation_snapshot_active s' = cancellation_snapshot_active s;
  du_closed : admission_open s = false → ∀ c, serving s' c →
              serving s c ∧ (c ∈ cancelled_contexts s → c ∈ cancelled_contexts s');
  du_frozen : cancellation_snapshot_active s = true → ∀ c, serving s c → serving s' c
}.

#[export] Instance during_refl : Reflexive during.
Proof. intros s. by split. Qed.

#[export] Instance during_trans : Transitive during.
Proof.
  intros s1 s2 s3 [A1 B1 C1 D1] [A2 B2 C2 D2]. split; [congruence|congruence| |].
  - intros Ha c Hs. destruct (C2 ltac:(congruence) c Hs) as [H2 H2'].
    destruct (C1 Ha c H2) as [H1 H1']. split; [done|auto].
  - intros Hb c Hs. apply D2; [congruence|]. by apply D1.
Qed.

Lemma erase_context_elem c l d :
  NoDup (tc_context <$> l) →
  d ∈ tc_context <$> erase_context c l ↔ d ∈ tc_context <$> l ∧ d ≠ c.
Proof.
  induction l as [|e l IH]; cbn [erase_context]; [by rewrite elem_of_nil; split; [|intros []]|].
  rewrite fmap_cons, NoDup_cons. intros [Hn Hnd]. destruct (decide (tc_context e = c)) as [<-|Hne].
  - rewrite elem_of_cons. split; [intros Hd; split; [by right|by intros ->]|by intros [[->|] ?]].
  - rewrite fmap_cons, !elem_of_cons, IH by done. split; [intros [->|[? ?]]; auto|].
    intros [[->|?] ?]; auto.
Qed.

Lemma erase_context_sublist c l : erase_context c l `sublist_of` l.
Proof.
  induction l as [|e l IH]; cbn [erase_context]; [done|].
  destruct (decide _); [by apply sublist_cons|by apply sublist_skip].
Qed.

(** A call leaves the tracked contexts. *)
Lemma leave_ok s c phase :
  service_ok s → serving s c → phase ≠ Serving →
  (∀ status, phase = Finalized true (Some status) → status_code status ≠ OK) →
  service_ok (untrack_context c s <| calls ::= <[c := phase]> |>).
Proof.
  intros [Ht Hn Hb Ho Hs Hst Hd] Hc Hph Hok. unfold untrack_context. split; simpl; try done.
  - intros d. rewrite erase_context_elem by done. rewrite Ht. unfold serving. simpl.
    destruct (decide (d = c)) as [->|Hne].
    + rewrite lookup_insert_eq. split; [by intros []|congruence].
    + rewrite lookup_insert_ne by done. split; [by intros []|done].
  - eapply sublist_NoDup; [exact Hn|]. apply fmap_sublist, erase_context_sublist.
  - pose proof (sublist_length _ _ (erase_context_sublist c (contexts s))). lia.
  - intros d st [[-> ->]|[_ ?]]%lookup_insert_Some; [by apply Hok|by eapply Hst].
Qed.

(** Nothing the invariant is about. *)
Record same_calls s s' : Prop := {
  sa_contexts : contexts s' = contexts s;
  sa_calls : calls s' = calls s;
  sa_maximum : maximum_tracked_contexts s' = maximum_tracked_contexts s;
  sa_started : shutdown_started s' = shutdown_started s;
  sa_admission : admission_open s' = admission_open s;
  sa_snapshot : cancellation_snapshot_active s' = cancellation_snapshot_active s;
  sa_dangling : dangling s' = dangling s;
  sa_cancelled : cancelled_contexts s ⊆ cancelled_contexts s'
}.

Lemma same_calls_ok s s' : same_calls s s' → service_ok s → service_ok s'.
Proof.
  intros [Hc Hca Hm Hst Ha Hsn Hd _] [].
  split; unfold serving in *; by rewrite ?Hc, ?Hca, ?Hm, ?Hst, ?Ha, ?Hsn, ?Hd.
Qed.

Lemma same_calls_during s s' : same_calls s s' → during s s'.
Proof.
  intros [Hc Hca Hm Hst Ha Hsn Hd Hcl]. split; [done|done| |].
  - intros _ c. unfold serving. rewrite Hca. split; [done|]. apply Hcl.
  - intros _ c. unfold serving. by rewrite Hca.
Qed.

(** Another phase for a call that was not and will not be serving. *)
Lemma phase_ok s c phase :
  service_ok s → ¬ serving s c → phase ≠ Serving →
  (∀ status, phase = Finalized true (Some status) → status_code status ≠ OK) →
  service_ok (s <| calls ::= <[c := phase]> |>) ∧ during s (s <| calls ::= <[c := phase]> |>).
Proof.
  intros [Ht Hn Hb Ho Hs Hst Hd] Hc Hph Hok.
  assert (Hsv : ∀ d, serving (s <| calls ::= <[c := phase]> |>) d ↔ serving s d).
  { intros d. unfold serving in *. simpl. destruct (decide (d = c)) as [->|Hne].
    - rewrite lookup_insert_eq. split; [congruence|done].
    - by rewrite lookup_insert_ne. }
  split.
  - split; try done.
    + intros d. by rewrite Hsv, <- Ht.
    + intros d st Hl. simpl in Hl. apply lookup_insert_Some in Hl as [[-> ->]|[_ ?]];
        [by apply Hok|by eapply Hst].
  - split; try done.
    + intros _ d Hd'. split; [by apply Hsv|done].
    + intros _ d Hd'. by apply Hsv.
Qed.

Lemma untracked_during s c phase :
  phase ≠ Serving → cancellation_snapshot_active s = false →
  during s (untrack_context c s <| calls ::= <[c := phase]> |>).
Proof.
  intros Hph Hsn. split; try done.
  - intros _ d Hd. unfold serving in *. simpl in *. destruct (decide (d = c)) as [->|Hne].
    + rewrite lookup_insert_eq in Hd. congruence.
    + by rewrite lookup_insert_ne in Hd.
  - congruence.
Qed.

Lemma call_step_ok s s' : service_ok s → call_step s s' → service_ok s' ∧ during s s'.
Proof.
  intros Hi Hstep. destruct Hstep as
    [c s s' Ha Htr|c s s' refusal status Ha Htr Hr|c proposed s s' selected status Hc Hsn Hf
    |c s selected Hc Hsn|c s selected status Hc|c s|x s Hp].
  - unfold track_context in Htr. destruct (negb (admission_open s)) eqn:Hop; [done|].
    apply negb_false_iff in Hop. case_bool_decide as Hfull; [done|]. injection Htr as <-.
    assert (Hns : ¬ serving s c) by (unfold serving; congruence).
    destruct Hi as [Ht Hn Hb Ho Hs Hst Hd]. split.
    + split; simpl; try done.
      * intros d. rewrite fmap_app, elem_of_app, Ht. simpl. rewrite list_elem_of_singleton.
        unfold serving. simpl. destruct (decide (d = c)) as [->|Hne].
        -- rewrite lookup_insert_eq. split; [done|by right].
        -- rewrite lookup_insert_ne by done. split; [by intros [|]|by left].
      * rewrite fmap_app. apply NoDup_app. split_all; [done| |apply NoDup_singleton].
        intros d Hd' ->%list_elem_of_singleton. by apply Hns, Ht.
      * rewrite length_app. simpl. lia.
      * intros d st [[_ ?]|[_ ?]]%lookup_insert_Some; [done|by eapply Hst].
    + split; simpl; try done; [congruence|].
      intros _ d Hd'. unfold serving in *. simpl. destruct (decide (d = c)) as [->|Hne];
        [by rewrite lookup_insert_eq|by rewrite lookup_insert_ne].
  - assert (s' = s) as ->.
    { unfold track_context in Htr. repeat case_match; by simplify_eq. }
    apply phase_ok; [done|by unfold serving; congruence|done|done].
  - unfold finalize_context in Hf. injection Hf as <- <- <-.
    split; [|by apply (untracked_during s c)].
    apply leave_ok; [done|done|done|]. intros st [= Hsel <-]. unfold finalized_status.
    rewrite Hsel. case_bool_decide; simpl; [done|]. done.
  - split; [|by apply untracked_during]. by apply leave_ok.
  - assert (Hsv : ∀ d, serving (s <| calls ::= delete c |>) d ↔ serving s d).
    { intros d. unfold serving in *. simpl. destruct (decide (d = c)) as [->|Hne].
      - rewrite lookup_delete_eq. split; congruence.
      - by rewrite lookup_delete_ne. }
    destruct Hi as [Ht Hn Hb Ho Hs Hst Hd]. split.
    + split; try done; [intros d; by rewrite Hsv, <- Ht|].
      intros d st Hl. simpl in Hl. apply lookup_delete_Some in Hl as [_ ?]. by eapply Hst.
    + split; try done; [|intros _ d; apply Hsv]. intros _ d. by rewrite Hsv.
  - assert (Hsame : same_calls s (s <| cancelled_contexts ::= λ l, {[c]} ∪ l |>)).
    { split; try done. simpl. apply union_subseteq_r. }
    split; [by eapply same_calls_ok|by apply same_calls_during].
  - assert (Hsame : same_calls s (s <| products := x |>)) by by split.
    split; [by eapply same_calls_ok|by apply same_calls_during].
Qed.

(** *** The shutdown *)

Abbreviation stable := (Programs.stable service_ok during).
Abbreviation triple := (Programs.triple service_ok during).

(** Admission is closed, and every call still being served is cancelled. *)
Record shut s : Prop := {
  sh_admission : admission_open s = false;
  sh_snapshot : cancellation_snapshot_active s = false;
  sh_cancelled : ∀ c, serving s c → c ∈ cancelled_contexts s
}.

(** Admission is closed, nothing selected yet. *)
Definition closed s : Prop := admission_open s = false ∧ cancellation_snapshot_active s = false.

(** The contexts [l] are still to be cancelled. *)
Record cancelling (l : list Z) s : Prop := {
  cg_admission : admission_open s = false;
  cg_snapshot : cancellation_snapshot_active s = true;
  cg_alive : Forall (serving s) l;
  cg_covered : ∀ c, serving s c → c ∈ l ∨ c ∈ cancelled_contexts s
}.

(** Between two calls of [begin_shutdown]. *)
Definition rested s : Prop :=
  cancellation_snapshot_active s = false ∧ (shutdown_started s = true → shut s).

Lemma stable_closed : stable closed.
Proof. intros s s' _ _ [Ha Hs] []. split; congruence. Qed.

Lemma stable_cancelling l : stable (cancelling l).
Proof.
  intros s s' _ _ [Ha Hs Hal Hc] Hd. split.
  - by rewrite (du_admission _ _ Hd).
  - by rewrite (du_snapshot _ _ Hd).
  - eapply Forall_impl; [exact Hal|]. intros c. by apply (du_frozen _ _ Hd).
  - intros c Hsv. destruct (du_closed _ _ Hd Ha c Hsv) as [Hsv' Hk].
    destruct (Hc c Hsv'); auto.
Qed.

Lemma stable_shut : stable shut.
Proof.
  intros s s' _ _ [Ha Hs Hc] Hd. split.
  - by rewrite (du_admission _ _ Hd).
  - by rewrite (du_snapshot _ _ Hd).
  - intros c Hsv. destruct (du_closed _ _ Hd Ha c Hsv) as [Hsv' Hk]. auto.
Qed.

Lemma stable_rested : stable rested.
Proof.
  intros s s' Hi Hi' [Hs Hr] Hd. split; [by rewrite (du_snapshot _ _ Hd)|].
  rewrite (so_started _ Hi'), (du_admission _ _ Hd), <- (so_started _ Hi). intros Hst.
  exact (stable_shut s s' Hi Hi' (Hr Hst) Hd).
Qed.
#[local] Hint Resolve stable_closed stable_cancelling stable_shut stable_rested : gateway.

(** A move of the products by the shutdown thread. *)
Lemma triple_on_products {A} (Pre : Service → Prop) (p : prog P A) dead :
  stable Pre → (∀ s x, Pre s → Pre (s <| products := x |>)) →
  triple Pre (on_products p dead) (λ _, Pre).
Proof.
  intros Hst Hpre s Hi Hs. revert s Hi Hs. unfold on_products.
  induction p as [a|f k IH]; intros s Hi Hs; [by split|]. intros s' Hr Hi'.
  pose proof (Hst _ _ Hi Hi' Hs Hr) as Hs'.
  assert (Hi2 : service_ok (s' <| products := f (products s') |>))
    by (eapply same_calls_ok; [|exact Hi']; by split).
  split; [exact Hi2|]. apply IH; [exact Hi2|by apply Hpre].
Qed.

Lemma closed_products s x : closed s → closed (s <| products := x |>).
Proof. done. Qed.

Lemma triple_for_each_service service entries act :
  triple closed (for_each_service service entries act) (λ _, closed).
Proof.
  unfold for_each_service. induction entries as [|e entries IH]; cbn [for_each]; [by apply triple_ret|].
  apply (triple_bind _ _ (λ _, closed)); [|intros []; exact IH].
  destruct (service e); [|by apply triple_ret].
  apply triple_on_products; [apply stable_closed|apply closed_products].
Qed.

Lemma triple_shut_products registry runtime events :
  triple closed (shut_products registry runtime events) (λ _, closed).
Proof.
  assert (Hone : ∀ p : prog P (), triple closed (on_products p ()) (λ _, closed)).
  { intros p. apply triple_on_products; [apply stable_closed|apply closed_products]. }
  unfold shut_products. destruct registry as [entries|].
  - eapply triple_bind; [apply triple_for_each_service|]. intros [].
    eapply triple_bind; [apply triple_for_each_service|]. intros []. apply triple_for_each_service.
  - eapply (triple_bind _ _ (λ _, closed)).
    + destruct runtime as [a|]; [|by apply triple_ret].
      eapply triple_bind; [apply Hone|]. intros []. apply Hone.
    + intros []. destruct events; [apply Hone|by apply triple_ret].
Qed.

(** [TryCancel] of one context that is still alive. *)
Lemma triple_try_cancel c l :
  triple (cancelling (c :: l)) (modify (try_cancel c)) (λ _, cancelling l).
Proof.
  apply triple_modify; [apply stable_cancelling|]. intros s Hi [Ha Hs Hal Hc].
  apply Forall_cons in Hal as [Hcs Hal]. unfold try_cancel.
  rewrite bool_decide_eq_true_2 by (rewrite Hcs; by eexists).
  split; [eapply same_calls_ok; [|exact Hi]; split; try done; simpl; apply union_subseteq_r|].
  split; try done. intros d Hd. destruct (Hc d Hd) as [[->|Hin]%elem_of_cons|Hin].
  - right. simpl. apply elem_of_union. left. by apply elem_of_singleton.
  - by left.
  - right. simpl. apply elem_of_union. by right.
Qed.

Lemma triple_cancel_all l :
  triple (cancelling l) (for_each l (λ c, modify (try_cancel c))) (λ _, cancelling []).
Proof.
  induction l as [|c l IH]; cbn [for_each]; [by apply triple_ret|].
  eapply triple_bind; [apply triple_try_cancel|]. intros []. exact IH.
Qed.

Lemma triple_begin_shutdown : triple rested begin_shutdown (λ _ s, shutdown_started s = true ∧ shut s).
Proof.
  unfold begin_shutdown.
  apply (triple_bind _ _ (λ already s, if already : bool then shutdown_started s = true ∧ shut s
                                       else closed s)).
  { apply triple_atomically; [apply stable_rested|]. intros s Hi [Hs Hr]. unfold shutdown_begin.
    destruct (shutdown_started s) eqn:Hst; [by split; [|split; [|apply Hr]]|].
    split; [|by split]. destruct Hi. by split. }
  intros [|]; [by apply triple_ret|].
  apply (triple_bind _ _ (λ _, closed)).
  { apply triple_modify; [apply stable_closed|]. intros s Hi Hc.
    split; [|done]. eapply same_calls_ok; [|exact Hi]. by split. }
  intros []. apply (triple_bind _ _ (λ _, closed)); [by apply triple_read; [apply stable_closed|]|].
  intros [[registry runtime] events].
  eapply triple_bind; [apply triple_shut_products|]. intros [].
  apply (triple_bind _ _ cancelling).
  { apply triple_atomically; [apply stable_closed|]. intros s Hi [Ha Hs]. cbn [fst snd select_contexts].
    pose proof Hi as [Ht Hn Hb Ho Hsn Hst Hd].
    assert (Hk : tc_context <$> ((λ entry, MkTrackedContext (tc_context entry) true) <$> contexts s)
                 = tracked s) by (rewrite <- list_fmap_compose; by apply list_fmap_ext).
    split.
    - split; simpl; rewrite ?Hk, ?length_fmap; done.
    - split; [done|done| |]; simpl.
      + apply Forall_forall. intros c Hc. by apply Ht.
      + intros c Hc. left. by apply Ht. }
  intros l. eapply triple_bind; [apply triple_cancel_all|]. intros [].
  apply triple_modify; [apply stable_cancelling|]. intros s [Ht Hn Hb Ho Hsn Hst Hd] [Ha Hs Hal Hc].
  split; [by split|]. split; [simpl; rewrite Ho; by rewrite Ha|].
  split; [done|done|]. intros c Hcs. by destruct (Hc c Hcs) as [?%not_elem_of_nil|].
Qed.

(** *** The status slot *)

(** A thread that touches nothing but the slot and the products, and that holds the slot
    ([held]) exactly from the section that takes it to the one that releases it. *)
Fixpoint slot_thread {A} (held : bool) (p : Thread A) : Prop :=
  match p with
  | Done _ => held = false
  | Step f k => ∀ s, same_calls s (f s) ∧ ∃ held', slot_thread held' (k s) ∧
      ((held' = held ∧ status_inflight (f s) = status_inflight s) ∨
       (held = false ∧ held' = true ∧ status_inflight s = false ∧ status_inflight (f s) = true) ∨
       (held = true ∧ held' = false ∧ status_inflight (f s) = false))
  end.

(** A section that does not touch the slot. *)
Definition same_slot s s' : Prop := status_inflight s' = status_inflight s.
Definition slotless_step s s' : Prop := same_calls s s' ∧ same_slot s s'.
Abbreviation slotless := (every slotless_step).

#[export] Instance same_slot_refl : Reflexive same_slot.
Proof. done. Qed.
#[export] Instance slotless_refl : Reflexive slotless_step.
Proof. by split. Qed.

Lemma slotless_on_products {A} (p : prog P A) dead : slotless (on_products p dead).
Proof. unfold on_products. induction p as [a|f k IH]; [done|]. intros s. split; [by split|apply IH]. Qed.

Lemma slotless_same {A} (p : Thread A) : slotless p → every same_slot p.
Proof. induction p as [a|f k IH]; [done|]. intros H s. destruct (H s) as [[_ ?] ?]. split; auto. Qed.

(** The slot is held around such a thread. *)
Lemma slot_thread_held {A B} (p : Thread A) (k : A → Thread B) :
  slotless p → (∀ a, slot_thread true (k a)) → slot_thread true (p ≫= k).
Proof.
  intros Hp Hk. induction p as [a|f q IH]; [apply Hk|]. intros s.
  destruct (Hp s) as ([H1 H2] & H3). split; [done|]. exists true. split; [by apply IH|by left].
Qed.

Lemma answer_status_slotless c : slotless (answer_status c).
Proof.
  unfold answer_status. apply every_bind; [by apply every_read|]. intros [|]; [done|].
  apply every_bind; [apply slotless_on_products|]. intros [r|]; [|done].
  apply every_bind; [by apply every_read|]. intros [|]; [done|].
  apply every_bind; [by apply every_read|]. done.
Qed.

Lemma status_slot arguments request c : slot_thread false (GetGatewayStatus arguments request c).
Proof.
  unfold GetGatewayStatus. destruct arguments; [|done]. cbn [negb].
  destruct (negb (validate_gateway_status_request request)); [done|].
  intros s. unfold take_status_slot.
  destruct (negb (admission_open s)); [by split; [|exists false; split; [|left]]|].
  destruct (negb (status_configured s)); [by split; [|exists false; split; [|left]]|].
  destruct (status_inflight s) eqn:Hin; [by split; [|exists false; split; [|left]]|].
  split; [by split|]. exists true. split; [|by right; left].
  apply slot_thread_held; [apply answer_status_slotless|]. intros a s'.
  split; [by split|]. exists false. split; [done|by right; right].
Qed.

Lemma begin_shutdown_slot : every same_slot begin_shutdown.
Proof.
  assert (Hone : ∀ p : prog P (), every same_slot (on_products p ())).
  { intros p. apply slotless_same, slotless_on_products. }
  assert (Hall : ∀ service entries act, every same_slot (for_each_service service entries act)).
  { intros service entries act. apply every_for_each. intros e. by destruct (service e). }
  unfold begin_shutdown. apply every_bind.
  { apply every_atomically. intros s. unfold shutdown_begin. by case_match. }
  intros [|]; [done|]. apply every_bind; [by apply every_modify|]. intros [].
  apply every_bind; [by apply every_read|]. intros [[registry runtime] events].
  apply every_bind.
  { unfold shut_products. destruct registry as [entries|]; [by repeat (apply every_bind; [done|intros []])|].
    apply every_bind; [|intros []; by destruct events].
    destruct runtime; [|done]. by apply every_bind. }
  intros []. apply every_bind; [by apply every_atomically|]. intros l.
  apply every_bind; [|intros []; by apply every_modify].
  apply every_for_each. intros c. apply every_modify. intros s. unfold try_cancel. by case_match.
Qed.

(** No thread is in both positions. *)
Lemma slot_exclusive {A} (p : Thread A) s : slot_thread true p → slot_thread false p → False.
Proof.
  induction p as [a|f k IH]; intros H1 H2; [done|].
  set (s' := s <| status_inflight := true |>).
  destruct (H1 s') as (_ & h1 & Hk1 & [[-> E1]|[(E & _)|(_ & -> & E1)]]); [|done|];
    destruct (H2 s') as (_ & h2 & Hk2 & [[-> E2]|[(_ & -> & E & _)|(E & _)]]); try done.
  - by eapply IH.
  - change (status_inflight s') with true in E2. congruence.
Qed.

(** Which status request holds the slot. *)
Record slot_ok s (m : gmap Z (Thread Answer)) : Prop := {
  sl_holder : ∃ holder, status_inflight s = bool_decide (is_Some holder) ∧
    (∀ h, holder = Some h → is_Some (m !! h)) ∧
    ∀ c p, m !! c = Some p → slot_thread (bool_decide (holder = Some c)) p
}.

(** *** Every interleaving *)

Record server_ok (v : Server) : Prop := {
  sr_service : service_ok (sv_service v);
  sr_shutdown : ∃ s0, during s0 (sv_service v) ∧
    safe service_ok during (sv_shutdown v) (λ _ s, service_ok s ∧ rested s) s0;
  sr_slotless : every same_slot (sv_shutdown v);
  sr_slot : slot_ok (sv_service v) (sv_status v)
}.

(** A step that is not the shutdown's. *)
Lemma other_section s s' t m m' :
  server_ok (MkServer s t m) → service_ok s' → during s s' → slot_ok s' m' →
  server_ok (MkServer s' t m').
Proof.
  intros [Hi (s0 & Hd & Hs) Hsl0 _] Hi' Hd' Hsl. split; [done| |done|done]. exists s0. split; [by etrans|done].
Qed.

Lemma slot_frame s s' m : status_inflight s' = status_inflight s → slot_ok s m → slot_ok s' m.
Proof. intros Heq [(h & Hh & Hm & Hp)]. split. exists h. by rewrite Heq. Qed.

Lemma call_step_inflight s s' : call_step s s' → status_inflight s' = status_inflight s.
Proof.
  destruct 1 as [c s s' _ Ht|c s s' r st _ Ht _|c p s s' sel st _ _ Hf|c s sel _ _|c s sel st _|c s|x s _];
    try done.
  - unfold track_context in Ht. repeat case_match; by simplify_eq.
  - unfold track_context in Ht. repeat case_match; by simplify_eq.
  - unfold finalize_context in Hf. by injection Hf as <- _ _.
Qed.

Lemma arrival_ok s c :
  service_ok s → calls s !! c = None →
  let s' := s <| calls ::= <[c := Arrived]> |> <| cancelled_contexts ::= λ l, l ∖ {[c]} |> in
  service_ok s' ∧ during s s'.
Proof.
  intros Hi Hc. destruct (phase_ok s c Arrived Hi) as [Hi1 Hd1]; [by unfold serving; congruence|done|done|].
  split; [by destruct Hi1; split|]. destruct Hd1 as [? ? Hcl ?]. split; [done|done| |done].
  intros Ha d Hs. destruct (Hcl Ha d Hs) as [Hs' _]. split; [exact Hs'|].
  intros Hin. simpl. apply elem_of_difference. split; [done|].
  intros ->%elem_of_singleton. unfold serving in Hs'. congruence.
Qed.

Lemma status_section_ok s t m c f k :
  server_ok (MkServer s t m) → m !! c = Some (Step f k) →
  server_ok (MkServer (f s) t (<[c := k s]> m)).
Proof.
  intros Hok Hc. pose proof Hok as [Hi _ _ [(holder & Hh & Hm & Hp)]]. cbn [sv_service sv_status] in *.
  destruct (Hp c _ Hc s) as (Hsame & held & Hk & Hcase).
  eapply other_section; [exact Hok|by eapply same_calls_ok|by apply same_calls_during|].
  assert (Hin : ∀ h, is_Some (m !! h) → is_Some (<[c := k s]> m !! h)).
  { intros h Hsome. destruct (decide (h = c)) as [->|]; [by rewrite lookup_insert_eq|].
    by rewrite lookup_insert_ne. }
  destruct Hcase as [[-> Heq]|[(Hf & -> & Hs0 & Hs1)|(Ht & -> & Hs1)]].
  - split. exists holder. split_all; [by rewrite Heq|by auto|].
    intros d p [[-> <-]|[Hne Hd]]%lookup_insert_Some; [done|by apply Hp].
  - assert (holder = None) as -> by (destruct holder; [rewrite bool_decide_eq_true_2 in Hh by eauto; congruence|done]).
    split. exists (Some c). rewrite Hs1. split_all; [done| |].
    + intros h [= <-]. apply Hin. by eexists.
    + intros d p [[-> <-]|[Hne Hd]]%lookup_insert_Some; [by rewrite bool_decide_eq_true_2|].
      rewrite bool_decide_eq_false_2 by congruence. by apply (Hp d).
  - apply bool_decide_eq_true in Ht. subst holder.
    split. exists None. rewrite Hs1. split_all; [done|done|].
    intros d p [[-> <-]|[Hne Hd]]%lookup_insert_Some; [done|].
    pose proof (Hp d p Hd) as Hd'. by rewrite bool_decide_eq_false_2 in Hd' by congruence.
Qed.

Lemma server_step_ok v v' : server_ok v → server_step v v' → server_ok v'.
Proof.
  intros Hok Hstep. destruct Hstep as [c s t m Hc Hm|s s' t m Hcall|s m u|s f k m
    |c arguments request s t m Hc Hm|c s t m f k Hc|c s t m answer Hc]; pose proof Hok as [Hi Hsh Hkeep Hsl];
    cbn [sv_service sv_shutdown sv_status] in *.
  - destruct (arrival_ok s c Hi Hc). apply (other_section s _ t m m); [done|done|done|].
    by apply (slot_frame s).
  - destruct (call_step_ok s s' Hi Hcall). apply (other_section s _ t m m); [done|done|done|].
    eapply slot_frame; [by apply call_step_inflight|done].
  - split; [done| |apply begin_shutdown_slot|done]. exists s. split; [reflexivity|].
    destruct Hsh as (s0 & Hd & Hi0 & Hr).
    eapply safe_mono; [|exact (triple_begin_shutdown s Hi (stable_rested s0 s Hi0 Hi Hr Hd))].
    intros a s' [Hi' [Hst Hsh']]. split; [done|]. split; [apply Hsh'|done].
  - destruct Hsh as (s0 & Hd & Hs). destruct (Hs s Hd Hi) as [Hi' Hk].
    destruct (Hkeep s). split; [done|by exists (f s)|done|by eapply slot_frame].
  - split; [done|done|done|]. destruct Hsl as [(holder & Hh & Hin & Hp)].
    assert (Hne : holder ≠ Some c) by (intros ->; destruct (Hin c eq_refl); congruence).
    split. exists holder. cbn [sv_service sv_status]. split_all; [done| |].
    + intros h Hh'. rewrite lookup_insert_ne by congruence. by apply Hin.
    + intros d p [[<- <-]|[_ Hd]]%lookup_insert_Some; [|by apply Hp].
      rewrite bool_decide_eq_false_2 by done. apply status_slot.
  - by apply status_section_ok.
  - split; [done|done|done|]. destruct Hsl as [(holder & Hh & Hin & Hp)].
    assert (Hne : holder ≠ Some c).
    { intros ->. pose proof (Hp c _ Hc) as Hs. by rewrite bool_decide_eq_true_2 in Hs. }
    split. exists holder. cbn [sv_service sv_status]. split_all; [done| |].
    + intros h Hh'. rewrite lookup_delete_ne by congruence. by apply Hin.
    + intros d p [_ Hd]%lookup_delete_Some. by apply Hp.
Qed.

Lemma server_start_ok v : server_start v → server_ok v.
Proof.
  intros (registry & runtime & events & maximum & status & p & Hs & Hmax & Hsh & Hm).
  destruct v as [s t m]. cbn [sv_service sv_shutdown sv_status] in *. subst. split.
  - split; simpl; try done; [|by apply NoDup_nil_2|by split; [lia|]].
    intros c. unfold serving. simpl. rewrite elem_of_nil, lookup_empty. by split.
  - exists (initial_service registry runtime events maximum status p).
    split; [reflexivity|]. split; [|by split].
    split; simpl; try done; [|by apply NoDup_nil_2|by split; [lia|]].
    intros c. unfold serving. simpl. rewrite elem_of_nil, lookup_empty. by split.
  - done.
  - split. exists None. split_all; [done|done|]. simpl. intros c q. by rewrite lookup_empty.
Qed.

Lemma server_reachable_ok v0 v : server_start v0 → star server_step v0 v → server_ok v.
Proof.
  intros H0 Hstar. eapply (star_invariant _ server_ok); eauto using server_step_ok, server_start_ok.
Qed.

(** The thread has returned from its last call, if any. *)
Definition shutdown_returned (v : Server) : Prop := sv_shutdown v = Done ().

(** C26: In any interleaving of streaming calls, status requests, clients and the
    shutdown: [TryCancel] is never called on a context whose call has returned, the
    tracked contexts are exactly the calls being served, within the limit, and no call
    that the shutdown selected returns success. *)
Theorem shutdown_cancels_only_live_calls v0 v :
  server_start v0 → star server_step v0 v →
  let s := sv_service v in
  dangling s = false ∧
  (∀ c, c ∈ tracked s ↔ serving s c) ∧ NoDup (tracked s) ∧
  length (contexts s) ≤ maximum_tracked_contexts s ≤ kMaximumGrpcTrackedContexts ∧
  (∀ c status, calls s !! c = Some (Finalized true (Some status)) → status_code status ≠ OK).
Proof. intros H0 Hstar. by destruct (server_reachable_ok _ _ H0 Hstar) as [[] _ _ _]. Qed.

(** C27: Once [begin_shutdown] has returned, no call is tracked any more, every call still
    being served has been cancelled, no finalization has to wait, and when the calls and
    the status requests have returned nothing is tracked and the status slot is free: the
    assertions of the server's shutdown hold. *)
Theorem shutdown_misses_no_call v0 v :
  server_start v0 → star server_step v0 v →
  let s := sv_service v in
  shutdown_started s = true → shutdown_returned v →
  (∀ c, fst (track_context c s) = s ∧ snd (track_context c s) = TrackClosed) ∧
  (∀ c, serving s c → c ∈ cancelled_contexts s) ∧
  cancellation_snapshot_active s = false ∧
  (calls s = ∅ → sv_status v = ∅ → contexts s = [] ∧ status_inflight s = false).
Proof.
  intros H0 Hstar s Hst Hret. unfold s in *. clear s. destruct (server_reachable_ok _ _ H0 Hstar) as [Hi (s0 & Hd & Hs) _ Hsl].
  unfold shutdown_returned in Hret. rewrite Hret in Hs. destruct Hs as [Hi0 Hr].
  destruct (stable_rested _ _ Hi0 Hi Hr Hd) as [_ Hshut]. destruct (Hshut Hst) as [Ha Hsn Hc].
  split_all; [|done|done|].
  - intros c. unfold track_context. by rewrite Ha.
  - intros Hcalls Hm. destruct Hsl as [(holder & Hh & Hin & _)]. split.
    + destruct (contexts (sv_service v)) as [|e l] eqn:Hl; [done|].
      assert (Hin' : tc_context e ∈ tracked (sv_service v)) by (rewrite Hl; by left).
      apply (so_tracked _ Hi) in Hin'. unfold serving in Hin'.
      rewrite Hcalls, lookup_empty in Hin'. done.
    + rewrite Hh. destruct holder as [h|]; [|done].
      destruct (Hin h eq_refl) as [q Hq]. by rewrite Hm, lookup_empty in Hq.
Qed.

(** The status of the products is collected by one request at a time: two requests
    never hold the slot together. *)
Theorem status_requests_exclude_each_other v0 v c d p q :
  server_start v0 → star server_step v0 v →
  sv_status v !! c = Some p → sv_status v !! d = Some q →
  slot_thread true p → slot_thread true q → c = d.
Proof.
  intros H0 Hstar Hc Hd Hp Hq. destruct (server_reachable_ok _ _ H0 Hstar) as [_ _ _ Hsl].
  destruct Hsl as [(holder & _ & _ & Hall)].
  assert (Hone : ∀ e r, sv_status v !! e = Some r → slot_thread true r → holder = Some e).
  { intros e r He Hr. pose proof (Hall e r He) as Hr'. case_bool_decide; [done|].
    destruct (slot_exclusive r (sv_service v) Hr Hr'). }
  pose proof (Hone c p Hc Hp). pose proof (Hone d q Hd Hq). congruence.
Qed.

(** The shutdown thread running alone. *)
Lemma shutdown_runs s t m :
  star server_step (MkServer s t m) (MkServer (fst (run t s)) (Done ()) m).
Proof.
  revert s. induction t as [[]|f k IH]; intros s; [constructor|].
  eapply star_step; [apply server_shutdown_section|apply IH].
Qed.

(** C28: A handler that waits to finalize is never blocked for good: from every reachable
    state the sections left to the shutdown thread, which are finitely many and wait for
    no call, end the cancellation snapshot, after which every call being served can
    finalize. *)
Theorem finalization_is_never_blocked v0 v :
  server_start v0 → star server_step v0 v →
  let s' := fst (run (sv_shutdown v) (sv_service v)) in
  star server_step v (MkServer s' (Done ()) (sv_status v)) ∧
  cancellation_snapshot_active s' = false ∧
  ∀ c proposed, serving s' c → ∃ s'', call_step s' s'' ∧ ¬ serving s'' c ∧
    calls s'' !! c = Some (Finalized (fst (snd (finalize_context c proposed s')))
                             (Some (snd (snd (finalize_context c proposed s'))))).
Proof.
  intros H0 Hstar s'.
  assert (Hrun : star server_step v (MkServer s' (Done ()) (sv_status v))).
  { destruct v as [s t m]. apply shutdown_runs. }
  assert (Hok : server_ok (MkServer s' (Done ()) (sv_status v))).
  { eapply server_reachable_ok; [exact H0|]. by eapply star_trans. }
  assert (Hsn : cancellation_snapshot_active s' = false).
  { destruct Hok as [Hi (s0 & Hd & [Hi0 Hr]) _ _]. exact (proj1 (stable_rested _ _ Hi0 Hi Hr Hd)). }
  split_all; [done|done|]. intros c proposed Hc.
  destruct (finalize_context c proposed s') as [s1 [selected status]] eqn:Hf.
  exists (s1 <| calls ::= <[c := Finalized selected (Some status)]> |>).
  split; [by eapply call_finalized|]. cbn [fst snd]. unfold serving. simpl.
  rewrite lookup_insert_eq. by split.
Qed.
End Server.

(** ** Witness: a call is served while the server shuts down *)

Section Sample.
#[local] Existing Instance sample_enums.
#[local] Existing Instance SampleProjection.library.

(** A program without products. *)
Definition idle_products : ProductServices Assembler := {|
  ps_close_publication_admission _ := mret ();
  ps_shutdown_publication _ := mret ();
  ps_shutdown_events _ := mret ()
|}.
Definition idle_status : StatusWorld Assembler := {|
  sw_assembler := id;
  sw_update f := f;
  sw_observe_runtime _ := mret (Returned None);
  sw_observe_recovery _ := mret (Returned None);
  sw_observe_events _ := mret (MkEventPublicationObservation EsClosed None 0);
  sw_clock s := (s, Threw)
|}.
#[local] Existing Instance idle_products.
#[local] Existing Instance idle_status.
Abbreviation Sample := (Service Assembler).
Abbreviation steps := (star (server_step (P := Assembler) (λ _ _, False))).

Definition sample_start : Server :=
  MkServer (initial_service (Some sample_registry) None None 2 true sample_assembler) (Done ()) ∅.

Lemma sample_start_ok : server_start sample_start.
Proof.
  exists (Some sample_registry), None, None, 2, true, sample_assembler. repeat split.
  unfold kMaximumGrpcTrackedContexts. lia.
Qed.

(** The call 5 is tracked. *)
Definition sample_serving : Sample :=
  fst (track_context 5 (sv_service sample_start <| calls ::= <[5%Z := Arrived]> |>
                          <| cancelled_contexts ::= λ l, l ∖ {[5%Z]} |>))
    <| calls ::= <[5%Z := Serving]> |>.

Lemma sample_serving_reached : steps sample_start (MkServer sample_serving (Done ()) ∅).
Proof.
  eapply star_step; [by apply (server_call_arrives _ 5)|].
  apply star_one, server_call. by eapply (call_tracked _ 5).
Qed.

(** The shutdown runs to its end. *)
Definition sample_shut : Sample := fst (run begin_shutdown sample_serving).

Lemma sample_shut_reached : steps sample_start (MkServer sample_shut (Done ()) ∅).
Proof.
  eapply star_trans; [exact sample_serving_reached|].
  eapply star_step; [apply server_shuts_down|]. apply shutdown_runs.
Qed.

(** The call ends with a success of its own. *)
Definition sample_ended : Sample :=
  fst (finalize_context 5 status_ok sample_shut)
    <| calls ::= <[5%Z := Finalized true (Some (MkStatus CANCELLED "server shutdown"))]> |>.

Lemma sample_ended_reached : steps sample_start (MkServer sample_ended (Done ()) ∅).
Proof.
  eapply star_trans; [exact sample_shut_reached|]. apply star_one, server_call.
  by apply (call_finalized _ 5 status_ok).
Qed.

Lemma shutdown_cancels_only_live_calls_witness :
  calls sample_ended !! 5%Z = Some (Finalized true (Some (MkStatus CANCELLED "server shutdown"))) ∧
  dangling sample_ended = false ∧ length (contexts sample_ended) ≤ 2 ≤ 48.
Proof.
  destruct (shutdown_cancels_only_live_calls _ _ _ sample_start_ok sample_ended_reached)
    as (Hd & _ & _ & Hl & _).
  split; [reflexivity|]. exact (conj Hd Hl).
Defined.

Lemma shutdown_misses_no_call_witness :
  contexts sample_shut = [MkTrackedContext 5 true] ∧ 5%Z ∈ cancelled_contexts sample_shut ∧
  snd (track_context 6 sample_shut) = TrackClosed.
Proof.
  destruct (shutdown_misses_no_call _ _ _ sample_start_ok sample_shut_reached eq_refl eq_refl)
    as (Ht & Hc & _ & _).
  split; [reflexivity|]. exact (conj (Hc 5%Z eq_refl) (proj2 (Ht 6%Z))).
Defined.

Lemma finalization_is_never_blocked_witness :
  ∃ s : Sample, calls s !! 5%Z = Some (Finalized true (Some (MkStatus CANCELLED "server shutdown"))).
Proof.
  destruct (finalization_is_never_blocked _ _ _ sample_start_ok sample_shut_reached)
    as (_ & _ & Hall).
  destruct (Hall 5%Z status_ok eq_refl) as (s & _ & _ & Hs). exists s. exact Hs.
Defined.

(** Two status requests; the first holds the slot. *)
Definition sample_request : GatewayStatusRequest :=
  MkGatewayStatusRequest "request-1" kStatusRequestSchema.

Definition sample_asked : Server :=
  let begun := run_sections 1 (sample_serving, GetGatewayStatus true sample_request 7) in
  MkServer (fst begun) (Done ()) {[7%Z := snd begun]}.

Lemma sample_asked_reached : steps sample_start sample_asked.
Proof.
  eapply star_trans; [exact sample_serving_reached|].
  eapply star_step; [by apply (server_status_arrives _ 7 true sample_request)|].
  eapply star_step; [by eapply (server_status_section _ 7)|].
  unfold sample_asked. rewrite insert_insert_eq. constructor.
Qed.

Lemma status_requests_exclude_each_other_witness :
  ∃ p, sv_status sample_asked !! 7%Z = Some p ∧ slot_thread true p ∧
       ∀ d q, sv_status sample_asked !! d = Some q → slot_thread true q → 7%Z = d.
Proof.
  eexists. split; [reflexivity|].
  assert (Hp : slot_thread true (snd (run_sections 1 (sample_serving, GetGatewayStatus true sample_request 7)))).
  { apply slot_thread_held; [apply answer_status_slotless|]. intros a s'.
    split; [by split|]. exists false. split; [done|by right; right]. }
  split; [exact Hp|]. intros d q Hd Hq.
  exact (status_requests_exclude_each_other _ _ _ 7 d _ q sample_start_ok sample_asked_reached
           eq_refl Hd Hp Hq).
Defined.
End Sample.
