(* ===== verification/Products.v ===== *)
(** * Products: the configured products and their registry

    Models [src/src/g11/multi_market_runtime.hpp] and [.cpp]: the checks of a product, the
    construction of its runtime, event publication and coordinator, the set of one to
    eight products with its registry, and the set's start and shutdown.  A component
    lives at an address; [products_of] places the components of a set in the state of
    [GatewayStatus.Products], on which the threads of the set act.  The projection's
    constructor is a parameter ([ProjectionConstruction]); [environment] is what the
    coordinator of a product can reach.

    At the end, [started_daemon_is_well_formed] follows a configuration from its file to
    the RPC service. *)

From stdpp Require Import sorting.
From S2P Require Import Prelude Ring Wire Text Json Session OrderBookPublication OrderBookSession.
From S2P Require Import EventPublication EventSession EventGenerations Programs Projection.
From S2P Require Import MarketRuntime RuntimeInvariants Recovery RecoveryProtocol.
From S2P Require Import Config SpotProtocol UsdmProtocol Routes Registry Metadata.
From S2P Require Import GrpcRequests DaemonConfig GatewayStatus GrpcService.

Open Scope gateway_scope.

(** ** Products *)

Inductive ProductKind : Type :=
| PkSpot
| PkUsdMPerpetual.

(** [core::BookProjection]'s constructor and [adapter::ExpectedIdentity]. *)
Class ProjectionConstruction `{L : ProjectionLibrary} `{N : NumericLibrary} : Type := {
  book_projection : NumericSpec → SequencePolicyKind → BookProjection;
  expected_identity : string → SequencePolicyKind → ExpectedIdentity
}.

(** An identity is an aggregate: it has the symbol it was given. *)
Class ProjectionConstructionOk `{L : ProjectionLibrary} `{N : NumericLibrary}
  (PC : ProjectionConstruction) : Prop := {
  identity_keeps_symbol symbol policy : identity_symbol (expected_identity symbol policy) = symbol
}.

Record ProductRuntimeOptions : Type := MkProductRuntimeOptions {
  runtime_limits : RuntimeLimits;
  owner_starts_paused : bool;
  event_limits : EventPublicationLimits;
  rotation_age : Z
}.

(** [ProductRuntimeOptions{}] *)
Definition default_options : ProductRuntimeOptions :=
  MkProductRuntimeOptions
    (MkRuntimeLimits 64 64
       (MkPublicationLimits kMaximumActiveSubscriptions kOrdinaryQueueCapacity
          kPendingAdmissionCapacity))
    false
    (MkEventPublicationLimits kMaximumActiveEventSubscriptions kEventOrdinaryQueueCapacity)
    kPlannedRotationAge.

(** What a constructor throws. *)
Inductive ConstructionError : Type :=
| InvalidProduct (message : string)
| UnsupportedMarket
| InvalidRuntime
| InvalidEventPublication
| InvalidRecovery
| InvalidSet (message : string)
| InvalidRegistry (message : string).

Definition or_throw {A} (e : ConstructionError) (o : option A) : A + ConstructionError :=
  match o with Some a => inl a | None => inr e end.

Section Construction.
Context `{W : WireEnums} `{L : ProjectionLibrary} `{N : NumericLibrary}.
Context `{PC : !ProjectionConstruction} {X : Type} `{RW : !RecoveryWorld X}.
Abbreviation Coordinator := (@Coordination.Coordinator L (Traced X)).

Record ProductRuntimeSpec : Type := MkProductRuntimeSpec {
  spec_key : MarketKey;
  spec_numeric_spec : NumericSpec;
  spec_options : ProductRuntimeOptions
}.

Definition validate_product_key (key : MarketKey) : MarketKey + ConstructionError :=
  fail_if negb (key_venue key =? VENUE_BINANCE)%Z
    with InvalidProduct "ProductRuntime requires Binance venue" ;;
  fail_if bool_decide (key_symbol key = "")
    with InvalidProduct "ProductRuntime symbol must be non-empty" ;;
  if (key_market key =? MARKET_SPOT)%Z then
    fail_if bool_decide (spot_stream_symbol (key_symbol key) = None)
      with InvalidProduct "ProductRuntime Spot symbol cannot be represented by a Binance route" ;;
    inl key
  else if (key_market key =? MARKET_USD_M_PERPETUAL)%Z then
    fail_if bool_decide (usdm_stream_symbol (key_symbol key) = None)
      with InvalidProduct "ProductRuntime USD-M symbol cannot be represented by a Binance route" ;;
    inl key
  else inr (InvalidProduct "ProductRuntime requires Spot or USD-M perpetual market").

Definition product_kind_for (key : MarketKey) : ProductKind + ConstructionError :=
  if (key_market key =? MARKET_SPOT)%Z then inl PkSpot
  else if (key_market key =? MARKET_USD_M_PERPETUAL)%Z then inl PkUsdMPerpetual
  else inr UnsupportedMarket.

Definition policy_for (key : MarketKey) : SequencePolicyKind + ConstructionError :=
  if (key_market key =? MARKET_SPOT)%Z then inl SpkSpot
  else if (key_market key =? MARKET_USD_M_PERPETUAL)%Z then inl SpkUsdMPerpetual
  else inr UnsupportedMarket.

Definition identity_for (key : MarketKey) : ExpectedIdentity + ConstructionError :=
  let? policy := policy_for key in
  inl (expected_identity (key_symbol key) policy).

Definition legacy_key_for (kind : ProductKind) : MarketKey :=
  match kind with PkSpot => spot_btcusdt_key | PkUsdMPerpetual => usdm_btcusdt_key end.

Definition two_product_specifications (spot usdm : NumericSpec)
  (spot_options usdm_options : ProductRuntimeOptions) : list ProductRuntimeSpec :=
  [MkProductRuntimeSpec spot_btcusdt_key spot spot_options;
   MkProductRuntimeSpec usdm_btcusdt_key usdm usdm_options].

(** The addresses of the runtime, the coordinator and the event publication inside one
    allocated [ProductRuntime]. *)
Record Addresses : Type := MkAddresses {
  runtime_at : Z;
  recovery_at : Z;
  event_publication_at : Z
}.

Record ProductRuntime : Type := MkProductRuntime {
  product_key : MarketKey;
  product_at : Addresses;
  product_runtime : Impl.Runtime;
  product_event_publication : EventPublication.Publication;
  product_recovery : Coordinator
}.

(** [ProductRuntime::ProductRuntime]; [clock] tells whether the clock is set. *)
Definition make_product (environment : MarketKey → X) (clock : bool)
  (gateway_instance_id : string) (at_ : Addresses) (specification : ProductRuntimeSpec)
  : ProductRuntime + ConstructionError :=
  let options := spec_options specification in
  let? key := validate_product_key (spec_key specification) in
  let? identity := identity_for key in
  let? policy := policy_for key in
  let? runtime := or_throw InvalidRuntime
    (Impl.make (runtime_limits options) clock identity
       (book_projection (spec_numeric_spec specification) policy) (owner_starts_paused options)) in
  let? event_publication := or_throw InvalidEventPublication
    (EventPublication.make gateway_instance_id clock (event_limits options)) in
  let? recovery := or_throw InvalidRecovery
    (Coordination.make clock (Some (rotation_age options)) true true true true
       (MkTraced (environment key) [])) in
  inl (MkProductRuntime key at_ runtime event_publication recovery).

(** ** The set *)

Record ConfiguredProductRuntimeSet : Type := MkProductSet {
  owners : list ProductRuntime;
  registry : list MarketServices
}.

Definition prepare (specifications : list ProductRuntimeSpec)
  : list ProductRuntimeSpec + ConstructionError :=
  fail_if bool_decide (specifications = [])
          || bool_decide (kMaximumConfiguredProducts < length specifications)
    with InvalidSet "configured products require between one and eight specifications" ;;
  let specifications := sort_by_key spec_key specifications in
  fail_if adjacent_duplicate spec_key specifications
    with InvalidSet "configured product specifications must have unique MarketKeys" ;;
  inl specifications.

(** The loop of [construct_owners]; the [n]-th product is allocated at [allocated n]. *)
Fixpoint construct_owners (environment : MarketKey → X) (clock : bool)
  (gateway_instance_id : string) (allocated : nat → Addresses) (n : nat)
  (specifications : list ProductRuntimeSpec) : list ProductRuntime + ConstructionError :=
  match specifications with
  | [] => inl []
  | specification :: rest =>
      let? owner := make_product environment clock gateway_instance_id (allocated n) specification in
      let? owners := construct_owners environment clock gateway_instance_id allocated (S n) rest in
      inl (owner :: owners)
  end.

Definition registry_entry (owner : ProductRuntime) : MarketServices :=
  MkMarketServices (product_key owner) (Some (runtime_at (product_at owner)))
    (Some (recovery_at (product_at owner))) (Some (event_publication_at (product_at owner))).

Definition make_registry_entries (owners : list ProductRuntime) : list MarketServices :=
  registry_entry <$> owners.

(** [ConfiguredProductRuntimeSet::ConfiguredProductRuntimeSet] *)
Definition make_product_set (environment : MarketKey → X) (clock : bool)
  (gateway_instance_id : string) (allocated : nat → Addresses)
  (specifications : list ProductRuntimeSpec) : ConfiguredProductRuntimeSet + ConstructionError :=
  let? prepared := prepare specifications in
  let? owners := construct_owners environment clock gateway_instance_id allocated 0 prepared in
  match make_registry (make_registry_entries owners) with
  | inl registry => inl (MkProductSet owners registry)
  | inr message => inr (InvalidRegistry message)
  end.

(** [ConfiguredProductRuntimeSet::find] *)
Definition find_product (set : ConfiguredProductRuntimeSet) (key : MarketKey)
  : option ProductRuntime :=
  snd <$> list_find (λ owner, product_key owner = key) (owners set).

(** [make_product_runtime_specs] of [src/src/production/production_metadata.cpp]. *)
Definition make_product_runtime_specs (products : list ResolvedProductSpec)
  : list ProductRuntimeSpec :=
  (λ p, MkProductRuntimeSpec (resolved_key p) (resolved_numeric_spec p) default_options)
    <$> sort_by_key resolved_key products.

(** The components where they are, for an assembler not built yet. *)
Definition products_of (set : ConfiguredProductRuntimeSet) (sample : outcome ClockSample)
  : Products (X := X) :=
  MkProducts (MkAssembler None (MkSingleProduct None None None) "" None)
    (list_to_map ((λ o, (runtime_at (product_at o), product_runtime o)) <$> owners set))
    (list_to_map ((λ o, (recovery_at (product_at o), product_recovery o)) <$> owners set))
    (list_to_map ((λ o, (event_publication_at (product_at o), product_event_publication o))
                    <$> owners set))
    false sample.
End Construction.

(** ** What the constructors accept *)

Section Constructible.
Context `{W : WireEnums} `{!WireEnumsOk W} `{L : ProjectionLibrary} `{N : NumericLibrary}.
Context `{PC : !ProjectionConstruction} `{!ProjectionConstructionOk PC}.
Context {X : Type} `{RW : !RecoveryWorld X}.
Implicit Types (key : MarketKey) (specification : ProductRuntimeSpec).
Implicit Types (environment : MarketKey → X).

(** A product of Binance with a stream name. *)
Definition routable key : Prop :=
  key_venue key = VENUE_BINANCE ∧
  (key_market key = MARKET_SPOT ∨ key_market key = MARKET_USD_M_PERPETUAL) ∧
  spot_stream_symbol (key_symbol key) ≠ None.

(** Options that no constructor refuses. *)
Record usable (o : ProductRuntimeOptions) : Prop := {
  us_ingress : ingress_capacity (runtime_limits o) ≠ 0;
  us_bootstrap : bootstrap_capacity (runtime_limits o) ≠ 0;
  us_active : maximum_active_subscriptions (publication (runtime_limits o)) ≠ 0;
  us_queue : ordinary_queue_capacity (publication (runtime_limits o)) ≠ 0;
  us_pending : pending_admission_capacity (publication (runtime_limits o)) ≠ 0;
  us_event_active :
    1 ≤ ev_maximum_active_subscriptions (event_limits o) ≤ kMaximumActiveEventSubscriptions;
  us_event_queue :
    1 ≤ ev_ordinary_queue_capacity (event_limits o) ≤ kEventOrdinaryQueueCapacity;
  us_rotation : (0 < rotation_age o)%Z
}.

Lemma default_options_usable : usable default_options.
Proof. split; (done || (split; apply (bool_decide_unpack _); by vm_compute)). Qed.

Lemma markets_differ : MARKET_SPOT ≠ MARKET_USD_M_PERPETUAL.
Proof. pose proof markets_distinct as H. rewrite !NoDup_cons, !not_elem_of_cons in H. tauto. Qed.

Lemma validate_product_key_spec key key' :
  validate_product_key key = inl key' ↔ key' = key ∧ routable key.
Proof.
  pose proof markets_differ as Hm. unfold validate_product_key, routable, usdm_stream_symbol.
  assert (He : key_symbol key = "" → spot_stream_symbol (key_symbol key) = None) by (by intros ->).
  rewrite !fail_if_inl, negb_false_iff, bool_decide_eq_false, Z.eqb_eq.
  destruct (Z.eqb_spec (key_market key) MARKET_SPOT) as [Hs|Hs];
    [|destruct (Z.eqb_spec (key_market key) MARKET_USD_M_PERPETUAL) as [Hu|Hu]].
  - rewrite fail_if_inl, bool_decide_eq_false. split; [intros (? & ? & ? & [= ->]); tauto|].
    intros (-> & ? & _ & ?). split_all; auto.
  - rewrite fail_if_inl, bool_decide_eq_false. split; [intros (? & ? & ? & [= ->]); tauto|].
    intros (-> & ? & _ & ?). split_all; auto.
  - split; [by intros (_ & _ & ?)|]. by intros (_ & _ & [?|?] & _).
Qed.

Lemma policy_for_routable key : routable key → ∃ policy, policy_for key = inl policy.
Proof.
  intros (_ & [Hm|Hm] & _); unfold policy_for; rewrite Hm.
  - exists SpkSpot. by rewrite Z.eqb_refl.
  - exists SpkUsdMPerpetual. rewrite Z.eqb_refl.
    rewrite (proj2 (Z.eqb_neq _ _)) by (intros H; by apply markets_differ). done.
Qed.

(** What a constructed product is. *)
Record constructed (environment : MarketKey → X) (gateway_instance_id : string) (at_ : Addresses)
  specification (o : ProductRuntime) : Prop := {
  co_routable : routable (spec_key specification);
  co_key : product_key o = spec_key specification;
  co_at : product_at o = at_;
  co_runtime : ∃ identity fresh,
    Impl.make (runtime_limits (spec_options specification)) true identity fresh
      (owner_starts_paused (spec_options specification)) = Some (product_runtime o);
  co_events :
    EventPublication.make gateway_instance_id true (event_limits (spec_options specification))
    = Some (product_event_publication o);
  co_recovery :
    Coordination.make true (Some (rotation_age (spec_options specification))) true true true true
      (MkTraced (environment (spec_key specification)) []) = Some (product_recovery o)
}.

Lemma or_throw_inl {A} e (o : option A) a : or_throw e o = inl a ↔ o = Some a.
Proof. destruct o; simpl; split; by intros [= ->]. Qed.

Lemma make_product_constructed environment gid at_ specification o :
  make_product environment true gid at_ specification = inl o →
  constructed environment gid at_ specification o.
Proof.
  unfold make_product, identity_for. rewrite sum_bind_inl.
  intros (key & [-> Hr]%validate_product_key_spec & H).
  destruct (policy_for_routable _ Hr) as [policy Hp]. rewrite Hp in H. cbn [sum_bind] in H.
  apply sum_bind_inl in H as (runtime & H1%or_throw_inl & H).
  apply sum_bind_inl in H as (events & H2%or_throw_inl & H).
  apply sum_bind_inl in H as (recovery & H3%or_throw_inl & [= <-]).
  split; try done. by eexists _, _.
Qed.

Lemma make_runtime_total o symbol (identity : ExpectedIdentity) fresh :
  usable o → identity_symbol identity = symbol → symbol ≠ "" →
  ∃ r, Impl.make (runtime_limits o) true identity fresh (owner_starts_paused o) = Some r.
Proof.
  intros [H1 H2 H3 H4 H5 _ _ _] Hi Hs. unfold Impl.make. rewrite Hi.
  rewrite !bool_decide_eq_false_2 by done. by eexists.
Qed.

Lemma make_product_total environment gid at_ specification :
  gid ≠ "" → routable (spec_key specification) → usable (spec_options specification) →
  ∃ o, make_product environment true gid at_ specification = inl o.
Proof.
  intros Hgid Hr Hu. unfold make_product, identity_for.
  rewrite (proj2 (validate_product_key_spec _ _) (conj eq_refl Hr)). cbn [sum_bind].
  destruct (policy_for_routable _ Hr) as [policy Hp]. rewrite Hp. cbn [sum_bind].
  destruct (make_runtime_total _ _ (expected_identity (key_symbol (spec_key specification)) policy)
    (book_projection (spec_numeric_spec specification) policy) Hu (identity_keeps_symbol _ _))
    as [r ->]; [intros Hs; destruct Hr as (_ & _ & Hr); by rewrite Hs in Hr|].
  cbn [or_throw sum_bind]. unfold EventPublication.make, Coordination.make.
  destruct (us_event_active _ Hu), (us_event_queue _ Hu). pose proof (us_rotation _ Hu).
  rewrite !bool_decide_eq_false_2 by (done || lia).
  rewrite (proj2 (Z.leb_gt _ _)) by lia. by eexists.
Qed.

(** The components of a product start in their initial states. *)
Lemma constructed_reachable environment gid at_ specification o :
  maximum_active_subscriptions (publication (runtime_limits (spec_options specification)))
    ≤ kMaximumActiveSubscriptions →
  constructed environment gid at_ specification o →
  reachable_runtime (product_runtime o) ∧ reachable_coordinator (product_recovery o) ∧
  reachable_publication (product_event_publication o).
Proof.
  intros Hmax [_ _ _ (identity & fresh & Hr) He Hy]. split_all.
  - split.
    + unfold Impl.make in Hr. destruct (_ || _) in Hr; [done|]. by injection Hr as <-.
    + exists (λ _, None), (λ _, false), (MkRuntimeWorld (product_runtime o) OwnerNone),
        (MkRuntimeWorld (product_runtime o) OwnerNone).
      split_all; [|constructor|done].
      by exists (runtime_limits (spec_options specification)), identity, fresh,
        (owner_starts_paused (spec_options specification)).
  - split.
    + left. unfold Coordination.make in Hy. repeat case_match; try done. by injection Hy as <-.
    + exists (product_recovery o, CoordinatorNone), CoordinatorNone. split; [|constructor].
      by exists (Some (rotation_age (spec_options specification))), true,
        (environment (spec_key specification)).
  - exists (MkWorld (product_event_publication o) ∅),
      (MkWorld (product_event_publication o) ∅).
    split_all; [|constructor|done]. by eexists _, _.
Qed.

(** ** The set *)

(** Two live objects never share an address. *)
Record fresh_addresses (allocated : nat → Addresses) : Prop := {
  fa_runtimes : Inj (=) (=) (λ n, runtime_at (allocated n));
  fa_recoveries : Inj (=) (=) (λ n, recovery_at (allocated n));
  fa_publications : Inj (=) (=) (λ n, event_publication_at (allocated n))
}.

(** The owners of a list of specifications. *)
Definition built environment (gid : string) (allocated : nat → Addresses)
  (specifications : list ProductRuntimeSpec) (l : list ProductRuntime) : Prop :=
  length l = length specifications ∧
  ∀ i o, l !! i = Some o → ∃ specification, specifications !! i = Some specification ∧
    constructed environment gid (allocated i) specification o.

Lemma construct_owners_built environment gid allocated n specifications l :
  construct_owners environment true gid allocated n specifications = inl l →
  built environment gid (λ i, allocated (n + i)) specifications l.
Proof.
  revert n l. induction specifications as [|specification rest IH]; intros n l.
  - intros [= <-]. by split.
  - cbn [construct_owners]. rewrite sum_bind_inl. intros (o & Ho & H).
    apply sum_bind_inl in H as (l' & [Hlen Hl']%IH & [= <-]).
    apply make_product_constructed in Ho. split; [simpl; by rewrite Hlen|].
    intros [|i] o' Hi; simpl in *.
    + injection Hi as <-. exists specification. by rewrite Nat.add_0_r.
    + destruct (Hl' i o' Hi) as (sp & Hsp & Hc). exists sp. split; [done|].
      by rewrite <- Nat.add_succ_comm.
Qed.

Lemma construct_owners_total environment gid allocated n specifications :
  gid ≠ "" →
  Forall (λ s, routable (spec_key s) ∧ usable (spec_options s)) specifications →
  ∃ l, construct_owners environment true gid allocated n specifications = inl l.
Proof.
  intros Hgid Hall. revert n. induction Hall as [|s rest [Hr Hu] _ IH]; intros n; [by eexists|].
  cbn [construct_owners].
  destruct (make_product_total environment gid (allocated n) s Hgid Hr Hu) as [o ->]. cbn [sum_bind].
  destruct (IH (S n)) as [l ->]. by eexists.
Qed.

Lemma built_keys environment gid allocated specifications l :
  built environment gid allocated specifications l →
  product_key <$> l = spec_key <$> specifications.
Proof.
  intros [Hlen Hb]. apply list_eq_same_length with (length l);
    [by rewrite length_fmap|by rewrite length_fmap|].
  intros i x y _. rewrite !list_lookup_fmap, !fmap_Some. intros (o & Ho & ->) (s & Hs & ->).
  destruct (Hb i o Ho) as (s' & Hs' & Hc). rewrite (co_key _ _ _ _ _ Hc). congruence.
Qed.

Lemma built_distinct environment gid allocated specifications l (f : Addresses → Z) :
  Inj (=) (=) (λ n, f (allocated n)) →
  built environment gid allocated specifications l →
  NoDup ((λ o, f (product_at o)) <$> l).
Proof.
  intros Hf [_ Hb]. apply NoDup_alt. intros i j x.
  rewrite !list_lookup_fmap, !fmap_Some. intros (o & Ho & ->) (o' & Ho' & Heq).
  destruct (Hb i o Ho) as (? & _ & Hc), (Hb j o' Ho') as (? & _ & Hc').
  rewrite (co_at _ _ _ _ _ Hc), (co_at _ _ _ _ _ Hc') in Heq. by apply Hf.
Qed.

(** The registry's constructor accepts the entries of a built set as they are. *)
Lemma make_registry_built environment gid allocated specifications l :
  fresh_addresses allocated →
  1 ≤ length specifications ≤ kMaximumConfiguredProducts →
  StronglySorted (before spec_key) specifications →
  built environment gid allocated specifications l →
  make_registry (make_registry_entries l) = inl (make_registry_entries l).
Proof.
  intros [H1 H2 H3] Hn Hs Hb. pose proof Hb as [Hlen _].
  assert (Hkeys : services_key <$> make_registry_entries l = spec_key <$> specifications).
  { rewrite <- (built_keys _ _ _ _ _ Hb). unfold make_registry_entries. by rewrite <- list_fmap_compose. }
  assert (Hnd : ∀ (g : MarketServices → option Z) f, (∀ o : ProductRuntime (X := X), g (registry_entry o) = Some (f (product_at o))) →
            Inj (=) (=) (λ n, f (allocated n)) → NoDup (g <$> make_registry_entries l)).
  { intros g f Hg Hf. unfold make_registry_entries. rewrite <- list_fmap_compose.
    replace (g ∘ registry_entry <$> l) with (Some <$> ((λ o, f (product_at o)) <$> l)).
    - apply NoDup_fmap_2; [by intros ?? [=]|]. by eapply built_distinct.
    - rewrite <- list_fmap_compose. apply list_fmap_ext. intros i o _. simpl. by rewrite Hg. }
  apply make_registry_iff. split_all; [|done|].
  - split.
    + unfold make_registry_entries. rewrite length_fmap. lia.
    + rewrite Hkeys. by apply sorted_keys_nodup.
    + apply Forall_fmap, Forall_true. intros o. done.
    + by apply (Hnd _ runtime_at).
    + by apply (Hnd _ recovery_at).
    + by apply (Hnd _ event_publication_at).
  - apply sorted_strict; [|rewrite Hkeys; by apply sorted_keys_nodup].
    assert (Hsort : ∀ (ks : list MarketKey) (es : list MarketServices), services_key <$> es = ks →
              StronglySorted (before id) ks → StronglySorted (not_after services_key) es).
    { intros ks es <-. induction es as [|e es IH]; simpl; intros H; [constructor|].
      apply StronglySorted_inv in H as [Hes He]. constructor; [by apply IH|].
      change (Forall (before id (services_key e)) (services_key <$> es)) in He.
      rewrite Forall_fmap in He. eapply Forall_impl; [exact He|]. intros x Hlt Hgt.
      pose proof (key_less_trans _ _ _ Hlt Hgt) as H. simpl in H. by rewrite key_less_irrefl in H. }
    apply (Hsort _ _ Hkeys). clear - Hs. induction Hs as [|s l Hl IH Hall]; simpl; constructor; [done|].
    rewrite Forall_fmap. exact Hall.
Qed.

Lemma prepare_spec specifications prepared :
  prepare specifications = inl prepared ↔
  prepared = sort_by_key spec_key specifications ∧
  1 ≤ length specifications ≤ kMaximumConfiguredProducts ∧ NoDup (spec_key <$> specifications).
Proof.
  unfold prepare. rewrite !fail_if_inl, orb_false_iff, !bool_decide_eq_false, sort_adjacent_duplicate.
  assert (Hne : specifications ≠ [] ↔ 1 ≤ length specifications)
    by (destruct specifications; simpl; split; (done || lia)).
  rewrite Hne. split.
  - intros ([? ?] & ? & [= <-]). split_all; (done || lia).
  - intros (-> & [? ?] & ?). split_all; (done || lia).
Qed.

(** A set is constructed exactly from one to eight distinct routable products; its
    registry is then the entries of its owners, in canonical order. *)
Lemma make_product_set_spec environment gid allocated specifications :
  gid ≠ "" → fresh_addresses allocated →
  Forall (λ s, usable (spec_options s)) specifications →
  ((∃ set, make_product_set environment true gid allocated specifications = inl set) ↔
   1 ≤ length specifications ≤ kMaximumConfiguredProducts ∧
   NoDup (spec_key <$> specifications) ∧ Forall (λ s, routable (spec_key s)) specifications) ∧
  ∀ set, make_product_set environment true gid allocated specifications = inl set →
    built environment gid allocated (sort_by_key spec_key specifications) (owners set) ∧
    registry set = make_registry_entries (owners set).
Proof.
  intros Hgid Hfresh Hu. unfold make_product_set.
  assert (Hset : ∀ set, (let? prepared := prepare specifications in
     let? owners := construct_owners environment true gid allocated 0 prepared in
     match make_registry (make_registry_entries owners) with
     | inl registry => inl (MkProductSet owners registry)
     | inr message => inr (InvalidRegistry message)
     end) = inl set →
    1 ≤ length specifications ≤ kMaximumConfiguredProducts ∧ NoDup (spec_key <$> specifications) ∧
    built environment gid allocated (sort_by_key spec_key specifications) (owners set) ∧
    registry set = make_registry_entries (owners set)).
  { intros set (prepared & (-> & Hn & Hnd)%prepare_spec & H)%sum_bind_inl.
    apply sum_bind_inl in H as (l & Hb%construct_owners_built & H). simpl in Hb.
    rewrite (make_registry_built environment gid allocated (sort_by_key spec_key specifications))
      in H; [|done|by rewrite sort_by_key_perm|by apply sort_strict|done].
    by injection H as <-. }
  split; [split|].
  - intros [set (Hn & Hnd & [Hlen Hb] & _)%Hset]. split_all; [lia|lia|done|].
    rewrite <- (sort_by_key_perm spec_key specifications). apply Forall_lookup. intros i s Hs.
    destruct (lookup_lt_is_Some_2 (owners set) i) as [o Ho].
    { rewrite Hlen. by eapply lookup_lt_Some. }
    destruct (Hb i o Ho) as (s' & Hs' & Hc). replace s with s' by congruence.
    exact (co_routable _ _ _ _ _ Hc).
  - intros (Hn & Hnd & Hr).
    rewrite (proj2 (prepare_spec specifications _) (conj eq_refl (conj Hn Hnd))). cbn [sum_bind].
    destruct (construct_owners_total environment gid allocated 0 (sort_by_key spec_key specifications))
      as [l Hl]; [done| |].
    { rewrite sort_by_key_perm. by apply Forall_and. }
    rewrite Hl. cbn [sum_bind]. apply construct_owners_built in Hl. simpl in Hl.
    rewrite (make_registry_built environment gid allocated (sort_by_key spec_key specifications));
      [by eexists|done|by rewrite sort_by_key_perm|by apply sort_strict|done].
  - intros set (_ & _ & ? & ?)%Hset. done.
Qed.

(** ** The state of a set *)

Lemma forall_list_to_map {A} (P : A → Prop) (l : list (Z * A)) :
  Forall (λ x, P (snd x)) l → map_Forall (λ _, P) (list_to_map l : gmap Z A).
Proof.
  intros Hl a x Hx. apply elem_of_list_to_map_2 in Hx.
  rewrite Forall_forall in Hl. exact (Hl _ Hx).
Qed.

(** Every component of a set stands at its address in its initial state. *)
Lemma products_of_ok environment gid allocated specifications set sample :
  Forall (λ s, maximum_active_subscriptions (publication (runtime_limits (spec_options s)))
               ≤ kMaximumActiveSubscriptions) specifications →
  built environment gid allocated specifications (owners set) →
  products_ok (products_of set sample).
Proof.
  intros Hmax [_ Hb].
  assert (Hall : Forall (λ o, reachable_runtime (product_runtime o) ∧
            reachable_coordinator (product_recovery o) ∧
            reachable_publication (product_event_publication o)) (owners set)).
  { apply Forall_lookup. intros i o Ho. destruct (Hb i o Ho) as (s & Hs & Hc).
    apply (constructed_reachable environment gid (allocated i) s); [|done].
    rewrite Forall_lookup in Hmax. exact (Hmax i s Hs). }
  split; simpl; apply forall_list_to_map, Forall_fmap; eapply Forall_impl; try exact Hall;
    simpl; tauto.
Qed.

Lemma publication_found environment gid allocated specifications set sample o :
  fresh_addresses allocated → built environment gid allocated specifications (owners set) →
  o ∈ owners set →
  pr_publications (products_of set sample) !! event_publication_at (product_at o)
  = Some (product_event_publication o).
Proof.
  intros [_ _ H3] Hb Hin. simpl. apply elem_of_list_to_map_1.
  - rewrite <- list_fmap_compose. simpl. by eapply (built_distinct _ _ _ _ _ event_publication_at).
  - by apply (list_elem_of_fmap_2 (λ o, (event_publication_at (product_at o),
                                         product_event_publication o))).
Qed.

(** The identifier of the publication at an address. *)
Definition publication_id (p : Products (X := X)) (a : Z) : string :=
  match pr_publications p !! a with
  | Some publication => EventPublication.pub_gateway_instance_id publication
  | None => ""
  end.

Lemma publication_id_found environment gid allocated specifications set sample entry :
  fresh_addresses allocated → built environment gid allocated specifications (owners set) →
  entry ∈ make_registry_entries (owners set) →
  ∃ a, services_event_publication entry = Some a ∧
    publication_id (products_of set sample) a = gid.
Proof.
  intros Hf Hb (o & -> & Ho)%list_elem_of_fmap. eexists. split; [reflexivity|].
  unfold publication_id. rewrite (publication_found _ _ _ _ _ _ _ Hf Hb Ho).
  destruct Hb as [_ Hb]. apply list_elem_of_lookup in Ho as [i Hi].
  destruct (Hb i o Hi) as (s & _ & Hc). pose proof (co_events _ _ _ _ _ Hc) as He.
  unfold EventPublication.make in He. destruct (_ || _) in He; [done|]. by injection He as <-.
Qed.
End Constructible.

(** ** From the configuration file to the service *)

Section Startup.
Context `{W : WireEnums} `{!WireEnumsOk W} `{L : ProjectionLibrary} `{N : NumericLibrary}.
Context `{PC : !ProjectionConstruction} `{!ProjectionConstructionOk PC}.
Context {X : Type} `{RW : !RecoveryWorld X} `{PS : !ProductServices (Products (X := X))}.
Context `{A : AddressLibrary} `{F : FileSystem} `{E : EventJsonLibrary} `{J : JsonLibrary}.
Implicit Types (environment : MarketKey → X).

Lemma resolved_specifications keys fetch log resolved :
  StronglySorted (before id) keys →
  acquire_production_metadata keys fetch = (log, inl resolved) →
  let specifications := make_product_runtime_specs resolved in
  spec_key <$> specifications = keys ∧
  Forall (λ s, routable (spec_key s)) specifications ∧
  Forall (λ s, spec_options s = default_options) specifications.
Proof.
  intros Hs Hall%acquired_products.
  assert (Hnd : NoDup (id <$> keys)) by by apply sorted_keys_nodup.
  replace (sort_by_key id keys) with keys in Hall by (by apply sort_by_key_unique).
  assert (Hkeys : resolved_key <$> resolved = keys).
  { clear - Hall. induction Hall as [|k p ks ps [Hk _] _ IH]; [done|]. by rewrite fmap_cons, Hk, IH. }
  assert (Hr : Forall (λ p, routable (resolved_key p)) resolved).
  { clear - Hall. induction Hall as [|k p ks ps [<- (Hv & Hsym & body & m & _ & Hm)] _ IH];
      constructor; [|done]. unfold routable. split_all; [done| |done].
    destruct Hm as [(? & _)|(? & _)]; [by left|by right]. }
  assert (Hsorted : sort_by_key resolved_key resolved = resolved).
  { symmetry. apply sort_by_key_unique; [rewrite Hkeys; by rewrite list_fmap_id in Hnd|].
    split; [done|]. clear - Hs Hkeys. revert resolved Hkeys.
    induction Hs as [|k ks Hs IH Hk]; intros [|p ps] [= ]; subst; constructor; [by apply IH|].
    rewrite Forall_fmap in Hk. exact Hk. }
  simpl. unfold make_product_runtime_specs. rewrite Hsorted. split_all.
  - rewrite <- list_fmap_compose. rewrite <- Hkeys. by apply list_fmap_ext.
  - apply Forall_fmap. exact Hr.
  - apply Forall_fmap. by apply Forall_true.
Qed.

(** Once its configuration has been loaded and its products resolved, the daemon's
    constructors succeed: the product set and the RPC service are built without an
    exception, the registry holds exactly the configured products in canonical order,
    each found by its key, and the service starts from well-formed components. *)
Theorem started_daemon_is_well_formed path config fetch log resolved environment gid idle
  maximum allocated sample :
  load_daemon_config path = inl config →
  acquire_production_metadata (daemon_market_keys config) fetch = (log, inl resolved) →
  valid_options gid idle maximum = true →
  fresh_addresses allocated →
  ∃ set service,
    make_product_set environment true gid allocated (make_product_runtime_specs resolved)
      = inl set ∧
    make_g11 (publication_id (products_of set sample)) (registry set) true gid idle maximum
      (products_of set sample) = Some service ∧
    services_key <$> registry set = daemon_market_keys config ∧
    (∀ key, is_Some (find_services (registry set) key) ↔ key ∈ daemon_market_keys config) ∧
    market_registry service = Some (registry set) ∧
    configured (pr_assembler (products service)) ∧ products_ok (products service).
Proof.
  intros [Hlen Hs]%loaded_keys Hmeta Hopt Hfresh.
  pose proof (sorted_keys_nodup _ _ Hs) as Hnd. rewrite list_fmap_id in Hnd.
  destruct (resolved_specifications _ _ _ _ Hs Hmeta) as (Hkeys & Hr & Hdef).
  set (specs := make_product_runtime_specs resolved) in *.
  assert (Hgid : gid ≠ "").
  { intros ->. unfold valid_options in Hopt. by rewrite !andb_true_iff in Hopt; destruct Hopt as [[[? _] _] _]. }
  assert (Hu : Forall (λ s, usable (spec_options s)) specs).
  { eapply Forall_impl; [exact Hdef|]. intros s ->. exact default_options_usable. }
  destruct (make_product_set_spec environment gid allocated specs Hgid Hfresh Hu) as [[_ Hex] Hset].
  destruct Hex as [set Hmake].
  { assert (length specs = length (daemon_market_keys config)) as ->
      by (by rewrite <- Hkeys, length_fmap).
    split_all; [lia|lia|by rewrite Hkeys|done]. }
  destruct (Hset set Hmake) as [Hb Hreg].
  assert (Hrk : services_key <$> registry set = daemon_market_keys config).
  { rewrite Hreg. unfold make_registry_entries. rewrite <- list_fmap_compose.
    change (product_key <$> owners set = daemon_market_keys config).
    rewrite (built_keys _ _ _ _ _ Hb), <- Hkeys. f_equal. symmetry.
    apply sort_by_key_unique; [by rewrite Hkeys|]. split; [done|].
    clear - Hs Hkeys. revert Hkeys. generalize specs. induction Hs as [|k ks Hs IH Hk];
      intros [|sp sps] [= ]; subst; constructor; [by apply IH|].
    rewrite Forall_fmap in Hk. exact Hk. }
  exists set. unfold make_g11, make_for_registry. rewrite Hopt. cbn [negb].
  assert (Hids : existsb (λ entry, match services_event_publication entry with
      | Some e => negb (bool_decide (publication_id (products_of set sample) e = gid))
      | None => false end) (registry set) = false).
  { apply not_true_is_false. intros (entry & Hin%list_elem_of_In & H)%existsb_exists.
    rewrite Hreg in Hin.
    destruct (publication_id_found _ _ _ _ set sample entry Hfresh Hb Hin) as (a & He & Ha).
    by rewrite He, Ha, bool_decide_eq_true_2 in H. }
  rewrite Hids. eexists. split; [done|]. split; [reflexivity|].
  split_all; [done| |done| |].
  - intros key. rewrite <- Hrk. split.
    + intros [e He]. apply find_services_spec in He as [Hin <-]; [|by rewrite Hrk].
      by apply list_elem_of_fmap_2.
    + intros (e & -> & Hin)%list_elem_of_fmap. exists e. apply find_services_spec; [by rewrite Hrk|done].
  - split; [done|]. unfold product_keys. simpl. rewrite Hrk. lia.
  - destruct (products_of_ok environment gid allocated (sort_by_key spec_key specs) set sample)
      as [H1 H2 H3]; [|done|by split].
    rewrite sort_by_key_perm. eapply Forall_impl; [exact Hdef|]. intros s ->. simpl. done.
Qed.
End Startup.

(** ** Witness: the three products of the sample configuration *)

Section Sample.
#[local] Existing Instance sample_enums.
#[local] Existing Instance SampleProjection.library.
#[local] Existing Instance sample_numeric.
#[local] Existing Instance SampleWorld.world.
#[local] Existing Instance sample_loopback.
#[local] Existing Instance sample_files.
#[local] Existing Instance sample_events.

Definition sample_filters : Json := JsonArray
  [JsonObject [("filterType", JsonString "PRICE_FILTER"); ("tickSize", JsonString "0.01")];
   JsonObject [("filterType", JsonString "LOT_SIZE"); ("stepSize", JsonString "0.001")]].

Definition sample_listing (symbol : string) : Json := JsonObject
  [("symbol", JsonString symbol); ("status", JsonString "TRADING");
   ("isSpotTradingAllowed", JsonBoolean true); ("contractType", JsonString "PERPETUAL");
   ("filters", sample_filters)].

(** Both documents list the two symbols. *)
Definition sample_exchange : JsonLibrary := {|
  json_parse _ := Returned (Some (JsonObject
    [("symbols", JsonArray [sample_listing "BTCUSDT"; sample_listing "ETHUSDT"])])) |}.
#[local] Existing Instance sample_exchange.

Definition sample_construction : ProjectionConstruction := {|
  book_projection _ _ := SampleProjection.MkBook AwaitingBaseline None;
  expected_identity symbol _ := symbol |}.
#[local] Existing Instance sample_construction.

Lemma sample_construction_ok : ProjectionConstructionOk sample_construction.
Proof. by split. Qed.

Definition sample_services_world : ProductServices (Products (X := SampleWorld.Env)) := {|
  ps_close_publication_admission _ := mret ();
  ps_shutdown_publication _ := mret ();
  ps_shutdown_events _ := mret () |}.
#[local] Existing Instance sample_services_world.

Definition sample_fetch (stage : MetadataStage) : string + NetworkError := inl "exchangeInfo".

Definition sample_allocated (n : nat) : Addresses :=
  MkAddresses (10 * Z.of_nat n + 1) (10 * Z.of_nat n + 2) (10 * Z.of_nat n + 3).

Lemma sample_allocated_fresh : fresh_addresses sample_allocated.
Proof. split; intros n m; simpl; lia. Qed.

Definition sample_resolved : list ResolvedProductSpec :=
  (λ key, MkResolvedProductSpec key (MkNumericSpec 2%Z 3%Z)) <$> daemon_market_keys sample_config.

Lemma sample_acquired :
  acquire_production_metadata (daemon_market_keys sample_config) sample_fetch
  = ([SpotFetch; UsdMFetch], inl sample_resolved).
Proof. by vm_compute. Qed.

Lemma sample_loaded : load_daemon_config "gateway.json" = inl sample_config.
Proof. by vm_compute. Qed.

Lemma sample_options : valid_options "gw-1" 100 48 = true.
Proof. by vm_compute. Qed.

Lemma acquire_production_metadata_spec_witness :
  Forall2 (λ key p, resolved_key p = key ∧ resolved_from sample_fetch key (resolved_numeric_spec p))
    (sort_by_key id (daemon_market_keys sample_config)) sample_resolved.
Proof.
  pose proof sample_enums_ok as Hok.
  exact (proj2 (proj2 (proj1 (acquire_production_metadata_spec (daemon_market_keys sample_config)
    sample_fetch [SpotFetch; UsdMFetch] sample_resolved) sample_acquired))).
Defined.

Lemma started_daemon_is_well_formed_witness :
  ∃ set (service : GrpcService.Service (Products (X := SampleWorld.Env))),
    services_key <$> registry (X := SampleWorld.Env) set = daemon_market_keys sample_config ∧
    products_ok (products service).
Proof.
  pose proof sample_enums_ok as Hok. pose proof sample_construction_ok as Hpc.
  destruct (started_daemon_is_well_formed (X := SampleWorld.Env) "gateway.json" sample_config
    sample_fetch [SpotFetch; UsdMFetch] sample_resolved (λ _, SampleWorld.MkEnv 0 false) "gw-1" 100 48
    sample_allocated Threw sample_loaded sample_acquired sample_options sample_allocated_fresh)
    as (set & service & _ & _ & Hk & _ & _ & _ & Hp).
  exists set, service. split; [exact Hk|exact Hp].
Defined.
End Sample.
