(* ===== verification/Assembly.v ===== *)
(** * Assembly: the coordinator of a product on the event publication of the product

    Models [coordinator_options] and the event sinks of
    [src/src/g11/multi_market_runtime.cpp]: the three callbacks through which the recovery
    coordinator of [Recovery] opens, quiesces and closes the source generations of the
    publication of [EventPublication], and the shutdown of the product set.
    [Wired] is what the coordinator reaches: the publication with its channels, and the
    rest (the runtime, the attempts, the clock), which answers through [RecoveryWorld].

    [coordinator_and_publication_agree]: in every interleaving of the coordinator with
    its callers, with the RPC handlers and the publishers, the two components agree on
    the source generation, and the publication answers every callback. *)

From S2P Require Import Prelude Ring Wire Text Json Session OrderBookPublication.
From S2P Require Import EventPublication EventSession EventGenerations Programs Projection.
From S2P Require Import MarketRuntime Recovery RecoveryProtocol Transport.
From S2P Require Import Registry GrpcRequests GatewayStatus GrpcService Products.

Open Scope gateway_scope.
Import Coordination.

(** The publication with its channels, and the rest. *)
Record Wired (Y : Type) : Type := MkWired {
  source : World;
  rest : Y
}.
Arguments MkWired {Y} _ _.
Arguments source {Y} _.
Arguments rest {Y} _.
#[export] Instance Wired_eta {Y} : Eta (Wired Y) := λ x, MkWired (source x) (rest x).

(** What the callbacks meet: the publication's clock, and whether another thread shuts
    the publication down between the two calls of [quiesce]. *)
Class SourceEnvironment (Y : Type) : Type := {
  se_sample : Y → Y * option EventPublicationTime;
  se_shutdown_between : Y → Y * bool
}.

(** ** The callbacks *)

Section Callbacks.
Context `{W : WireEnums} {Y : Type} `{SE : !SourceEnvironment Y}.
Implicit Types (x : Wired Y).

Definition lifecycle_open (generation : Z) x : Wired Y * outcome bool :=
  let w := source x in
  let r := EventPublication.open_generation generation (w_pub w) in
  (x <| source := MkWorld (fst r) (w_store w) |>, Returned (snd r)).

Definition shutdown_source (w : World) : World :=
  let r := EventPublication.shutdown (w_pub w) (w_store w) in MkWorld (fst r) (snd r).

Definition lifecycle_quiesce (generation : Z) x : Wired Y * outcome bool :=
  if bool_decide (obs_source_state (EventPublication.observe (w_pub (source x))) = EsShutdown)
  then (x, Returned true)
  else
    let '(y, shut) := se_shutdown_between (rest x) in
    let w := if shut : bool then shutdown_source (source x) else source x in
    let r := EventPublication.quiesce_generation generation (w_pub w) in
    (MkWired (MkWorld (fst r) (w_store w)) y, Returned (snd r)).

Definition lifecycle_close (generation : Z) (o : SourceGenerationCloseOutcome) x
  : Wired Y * outcome bool :=
  let w := source x in
  match o with
  | CloseGlobalShutdown => (x <| source := shutdown_source w |>, Returned true)
  | CloseReplacement =>
      let '(y, sampled) := se_sample (rest x) in
      let '(p, st, closed) :=
        EventPublication.close_generation_replaced sampled generation (w_pub w) (w_store w) in
      (MkWired (MkWorld p st) y, Returned closed)
  | ClosePermanentFailure =>
      let '(p, st, closed) :=
        EventPublication.close_generation_permanently generation (w_pub w) (w_store w) in
      (x <| source := MkWorld p st |>, Returned closed)
  end.

(** The event sink of both attempts: a publication that refuses an event as impossible is
    an invariant failure, everything else goes on. *)
Definition normalized_event_sink (sampled : option EventPublicationTime) (allocs : Z → option Z)
  (event : option (shared_ptr NormalizedMarketEvent)) (generation : Z) (w : World)
  : World * NormalizedEventSinkResult :=
  let r := EventPublication.publish sampled allocs event generation (w_pub w) (w_store w) in
  (MkWorld (w_pub w) (fst r),
   if bool_decide (snd r = EpInvariantFailure) then SinkInvariantFailure else SinkContinue).

(** Everything else goes to the rest. *)
Definition apart {A} (f : Y → Y * A) x : Wired Y * A :=
  (x <| rest := fst (f (rest x)) |>, snd (f (rest x))).

Context `{L : ProjectionLibrary} `{RW : !RecoveryWorld Y}.

#[export] Instance wired_world : RecoveryWorld (Wired Y) := {
  w_clock := apart w_clock;
  w_runtime_start := apart w_runtime_start;
  w_runtime_stop := λ x, x <| rest := w_runtime_stop (rest x) |>;
  w_runtime_observe := apart w_runtime_observe;
  w_wait_until_live_or_recovery_required := apart w_wait_until_live_or_recovery_required;
  w_wait_until_recovery_required := apart w_wait_until_recovery_required;
  w_wait_until_recovery_required_for := λ d, apart (w_wait_until_recovery_required_for d);
  w_submit_transport_failure := apart w_submit_transport_failure;
  w_reset_for_rebootstrap := apart w_reset_for_rebootstrap;
  w_reset_live_for_planned_rebootstrap := apart w_reset_live_for_planned_rebootstrap;
  w_attempt_factory := λ g, apart (w_attempt_factory g);
  w_attempt_start := λ a, apart (w_attempt_start a);
  w_attempt_stop := λ a x, x <| rest := w_attempt_stop a (rest x) |>;
  w_attempt_observe := λ a, apart (w_attempt_observe a);
  w_lifecycle_open := lifecycle_open;
  w_lifecycle_quiesce := lifecycle_quiesce;
  w_lifecycle_close := lifecycle_close;
  w_wait_backoff := λ d x, x <| rest := w_wait_backoff d (rest x) |>;
  w_copies := apart w_copies;
  w_what := λ x, w_what (rest x)
}.
End Callbacks.

(** ** The shutdown of the set *)

Section SetShutdown.
Context `{W : WireEnums} `{L : ProjectionLibrary} `{N : NumericLibrary}.
Context {X P : Type} `{RW : !RecoveryWorld X} `{PS : !ProductServices P}.
Context (stop_recovery : Z → prog P ()).
Implicit Types (owners : list (@ProductRuntime L X)).

(** [ConfiguredProductRuntimeSet::shutdown_publications], [::stop] *)
Definition shutdown_publications owners : prog P () :=
  for_each owners (λ o, ps_close_publication_admission (runtime_at (product_at o))) ;;
  for_each owners (λ o, ps_shutdown_publication (runtime_at (product_at o))) ;;
  for_each owners (λ o, ps_shutdown_events (event_publication_at (product_at o))).

Definition stop_set owners : prog P () :=
  shutdown_publications owners ;;
  for_each owners (λ o, stop_recovery (recovery_at (product_at o))).

(** [ProductRuntime::shutdown_publications], [::stop] *)
Definition shutdown_product (o : @ProductRuntime L X) : prog P () :=
  ps_close_publication_admission (runtime_at (product_at o)) ;;
  ps_shutdown_publication (runtime_at (product_at o)) ;;
  ps_shutdown_events (event_publication_at (product_at o)).

Definition stop_product (o : @ProductRuntime L X) : prog P () :=
  shutdown_product o ;; stop_recovery (recovery_at (product_at o)).
End SetShutdown.

(** ** The agreement *)

Section Agreement.
Context `{W : WireEnums} `{L : ProjectionLibrary} {Y : Type}.
Context `{SE : !SourceEnvironment Y} `{RW : !RecoveryWorld Y}.
Abbreviation State := (@Coordinator L (Traced (Wired Y))).
Implicit Types (s : State) (x : Wired Y).

(** What the RPC handlers, the publishers and a shutdown of the publications do to the
    publication meanwhile. *)
Inductive others_step : World → World → Prop :=
| others_admit sampled ac ar sub p st p' st' r :
    (∀ a, ac = Some a → st !! a = None) →
    EventPublication.admit_subscription sampled ac ar sub p st = (p', st', r) →
    others_step (MkWorld p st) (MkWorld p' st')
| others_publish sampled allocs e g w :
    others_step w (fst (normalized_event_sink sampled allocs e g w))
| others_remove ch p st : others_step (MkWorld p st) (MkWorld (EventPublication.remove ch p) st)
| others_shutdown w : others_step w (shutdown_source w)
| others_handler a c c' p st :
    st !! a = Some c → handler_call c c' → others_step (MkWorld p st) (MkWorld p (<[a := c']> st)).

Definition meanwhile x x' : Prop := star others_step (source x) (source x').

Definition publication_of s : EventPublication.Publication := w_pub (source (inner (world s))).
Definition down s : Prop := EventPublication.source_state (publication_of s) = EsShutdown.

(** The coordinator and the publication have the same generation open, or quiesced. *)
Definition agrees s : Prop :=
  down s ∨
  (source_generation_open s = None → source_generation_quiesced s = false) ∧
  match source_of s with
  | None => EventPublication.source_state (publication_of s) = EsClosed ∨
            EventPublication.source_state (publication_of s) = EsPermanentlyClosed
  | Some (g, quiesced) =>
      EventPublication.source_state (publication_of s) = (if quiesced : bool then EsQuiesced else EsOpen) ∧
      EventPublication.source_generation (publication_of s) = Some g
  end.

(** A callback the publication refused, and the source it was for; the clock may fail a
    replacement. *)
Definition refusal (c : WorldCall) : option (Z * bool) :=
  match c with
  | CallQuiesce g false => Some (g, false)
  | CallClose g ClosePermanentFailure false | CallClose g CloseGlobalShutdown false => Some (g, true)
  | _ => None
  end.

(** One section of the coordinator or of its callers. *)
Record sectioned s s' : Prop := {
  sd_agrees : agrees s → agrees s';
  sd_down : down s → down s';
  sd_source : star world_step (source (inner (world s))) (source (inner (world s')));
  sd_calls : trace (world s') = trace (world s) ∨
    ∃ c, trace (world s') = c :: trace (world s) ∧
         ∀ src, refusal c = Some src → agrees s → source_of s = Some src → down s'
}.

Lemma sectioned_same s s' :
  source (inner (world s')) = source (inner (world s)) →
  source_generation_open s' = source_generation_open s →
  source_generation_quiesced s' = source_generation_quiesced s →
  (trace (world s') = trace (world s) ∨
   ∃ c, trace (world s') = c :: trace (world s) ∧ refusal c = None) →
  sectioned s s'.
Proof.
  intros Hs Ho Hq Ht. split.
  - unfold agrees, down, publication_of, source_of. by rewrite Hs, Ho, Hq.
  - unfold down, publication_of. by rewrite Hs.
  - rewrite Hs. constructor.
  - destruct Ht as [Ht|(c & Ht & Hc)]; [by left|right]. exists c. split; [done|]. congruence.
Qed.

#[local] Instance sectioned_refl : Reflexive sectioned.
Proof. intros s. apply sectioned_same; auto. Qed.

Abbreviation all_sections p := (every sectioned p).

Lemma all_sections_modify (f : State → State) :
  (∀ s, world (f s) = world s ∧ source_generation_open (f s) = source_generation_open s ∧
        source_generation_quiesced (f s) = source_generation_quiesced s) →
  all_sections (modify f).
Proof.
  intros Hf. apply every_modify. intros s. destruct (Hf s) as (Hw & Ho & Hq).
  apply sectioned_same; rewrite ?Hw; auto.
Qed.

Lemma all_sections_atomically {A} (f : State → State * A) :
  (∀ s, world (fst (f s)) = world s ∧
        source_generation_open (fst (f s)) = source_generation_open s ∧
        source_generation_quiesced (fst (f s)) = source_generation_quiesced s) →
  all_sections (atomically f).
Proof.
  intros Hf. apply every_atomically. intros s. destruct (Hf s) as (Hw & Ho & Hq).
  apply sectioned_same; rewrite ?Hw; auto.
Qed.

Lemma sections_read {A} (f : State → A) : all_sections (read f).
Proof. apply every_read, sectioned_refl. Qed.

(** A call on the rest. *)
Lemma sections_call {A} (f : Traced (Wired Y) → Traced (Wired Y) * A) :
  (∀ t, source (inner (fst (f t))) = source (inner t) ∧
        (trace (fst (f t)) = trace t ∨ ∃ c, trace (fst (f t)) = c :: trace t ∧ refusal c = None)) →
  all_sections (call f).
Proof.
  intros Hf. apply every_atomically. intros s. destruct (Hf (world s)).
  by apply sectioned_same.
Qed.

(** *** The three callbacks *)

Lemma shutdown_source_down w : EventPublication.source_state (w_pub (shutdown_source w)) = EsShutdown.
Proof.
  unfold shutdown_source, EventPublication.shutdown. by case_bool_decide.
Qed.

Lemma shutdown_source_step w : star world_step w (shutdown_source w).
Proof. destruct w as [p st]. apply star_one, step_shutdown. Qed.

Lemma open_section g :
  all_sections (call_source (w_lifecycle_open g) (λ s, s <| source_generation_open := Some g |>)).
Proof.
  apply every_atomically. intros s. destruct s as [[[[p st] y] tr] pl lc o q ob a b c tk aa lk].
  cbn. unfold EventPublication.open_generation.
  destruct (_ || _) eqn:Hg; simpl.
  - apply sectioned_same; simpl; [done|done|done|]. right. by eexists.
  - rewrite !orb_false_iff, !bool_decide_eq_false in Hg. destruct Hg as [[[[[Hz H1] H2] H3] H4] H5].
    split; simpl.
    + intros [Hd|[Hq Hs]]; [done|]. right. cbn in *. destruct o as [g0|]; simpl in *.
      * destruct Hs as [Hs _]. by destruct q.
      * rewrite Hq by done. by split.
    + done.
    + apply star_one. pose proof (step_open g p st) as Hstep. unfold EventPublication.open_generation in Hstep.
      rewrite Hz, !bool_decide_eq_false_2 in Hstep by done. simpl in Hstep. by rewrite H5 in Hstep.
    + right. eexists. split; [done|]. done.
Qed.

Lemma quiesce_section g :
  all_sections (call_source (w_lifecycle_quiesce g) (λ s, s <| source_generation_quiesced := true |>)).
Proof.
  apply every_atomically. intros s. destruct s as [[[w y] tr] pl lc o q ob a b c tk aa lk].
  cbn. unfold logged, lifecycle_quiesce. simpl.
  case_bool_decide as Hd; simpl.
  { split; simpl; [by left|done|constructor|]. right. by eexists. }
  destruct (se_shutdown_between y) as [y' shut]. simpl.
  set (w1 := if shut then shutdown_source w else w).
  assert (Hw1 : star world_step w w1 ∧
    (EventPublication.source_state (w_pub w1) = EsShutdown ∨ w1 = w)).
  { unfold w1. destruct shut; [|by split; [constructor|right]].
    split; [apply shutdown_source_step|left; apply shutdown_source_down]. }
  destruct Hw1 as [Hstar Hw1]. destruct w1 as [p1 st1].
  assert (Hstar' : star world_step w (MkWorld (fst (EventPublication.quiesce_generation g p1)) st1)).
  { eapply star_trans; [exact Hstar|]. apply star_one, step_quiesce. }
  unfold EventPublication.quiesce_generation in *.
  destruct (negb _ || negb _) eqn:Hr; simpl in *.
  - destruct Hw1 as [Hsh|Hsame].
    + split; simpl; [by left|done|exact Hstar'|]. right. by eexists.
    + split; simpl.
      * intros Ha. unfold agrees, down, publication_of, source_of in *. simpl in *.
        rewrite <- Hsame in Ha. exact Ha.
      * intros Hx. unfold down, publication_of in *. simpl in *. by rewrite <- Hsame in Hx.
      * exact Hstar'.
      * right. eexists. split; [done|]. intros src [= <-] Ha Hsrc. exfalso.
        unfold agrees, down, publication_of, source_of in *. simpl in *. rewrite <- Hsame in Ha, Hd.
        simpl in *. destruct Ha as [Ha|[_ Ha]]; [done|]. rewrite Hsrc in Ha. destruct Ha as [Ha Hg].
        by rewrite Ha, Hg, !bool_decide_eq_true_2 in Hr.
  - apply orb_false_iff in Hr as [Hr1 Hr2]. rewrite negb_false_iff, bool_decide_eq_true in Hr1, Hr2.
    split; simpl.
    + unfold agrees, down, publication_of, source_of. simpl. destruct Hw1 as [Hsh|Hsame]; [congruence|].
      rewrite <- Hsame. simpl. intros [Ha|[Hq Ha]]; [congruence|]. right.
      destruct o as [g0|]; simpl in *.
      * destruct Ha as [_ Ha]. by split.
      * by destruct Ha; congruence.
    + unfold down, publication_of. simpl. destruct Hw1 as [Hsh|Hsame]; [congruence|].
      rewrite <- Hsame. simpl. congruence.
    + exact Hstar'.
    + right. eexists. by split.
Qed.

(** A close that is answered leaves the source closed; a refused one leaves it alone. *)
Lemma close_cases g o x :
  let r := lifecycle_close g o x in
  star world_step (source x) (source (fst r)) ∧
  match snd r with
  | Returned true =>
      let st := EventPublication.source_state (w_pub (source (fst r))) in
      st = EsShutdown ∨
      (EventPublication.source_state (w_pub (source x)) = EsQuiesced ∧
       EventPublication.source_generation (w_pub (source x)) = Some g ∧
       (st = EsClosed ∨ st = EsPermanentlyClosed))
  | _ => source (fst r) = source x ∧
      (o = CloseReplacement ∨ o = ClosePermanentFailure ∧
       ¬ (EventPublication.source_state (w_pub (source x)) = EsQuiesced ∧
          EventPublication.source_generation (w_pub (source x)) = Some g))
  end.
Proof.
  destruct x as [[p st] y]. destruct o; simpl.
  - destruct (se_sample y) as [y' sampled].
    destruct (EventPublication.close_generation_replaced sampled g p st) as [[p' st'] r] eqn:Hc.
    simpl. split; [by apply star_one; eapply step_replaced|].
    unfold EventPublication.close_generation_replaced in Hc.
    destruct sampled as [at_time|]; [|injection Hc as <- <- <-; auto].
    destruct (negb _ || negb _) eqn:Hr; injection Hc as <- <- <-; [auto|].
    apply orb_false_iff in Hr as [Hr1 Hr2]. rewrite negb_false_iff, bool_decide_eq_true in Hr1, Hr2.
    right. split_all; [done|done|by left].
  - destruct (EventPublication.close_generation_permanently g p st) as [[p' st'] r] eqn:Hc.
    simpl. split; [by apply star_one; eapply step_permanent|].
    unfold EventPublication.close_generation_permanently in Hc.
    destruct (negb _ || negb _) eqn:Hr; injection Hc as <- <- <-.
    + split; [done|right; split; [done|]]. intros [H1 H2].
      by rewrite H1, H2, !bool_decide_eq_true_2 in Hr.
    + apply orb_false_iff in Hr as [Hr1 Hr2]. rewrite negb_false_iff, bool_decide_eq_true in Hr1, Hr2.
      right. split_all; [done|done|by right].
  - split; [apply shutdown_source_step|]. left.
    exact (shutdown_source_down (MkWorld p st)).
Qed.

Lemma refused_section g o s x' :
  source x' = source (inner (world s)) →
  star world_step (source (inner (world s))) (source x') →
  (o = CloseReplacement ∨ o = ClosePermanentFailure ∧
   ¬ (EventPublication.source_state (publication_of s) = EsQuiesced ∧
      EventPublication.source_generation (publication_of s) = Some g)) →
  sectioned s (s <| world := MkTraced x' (CallClose g o false :: trace (world s)) |>).
Proof.
  intros Hsame Hstar Ho. split; simpl; [| |done|].
  - unfold agrees, down, publication_of, source_of. simpl. by rewrite Hsame.
  - unfold down, publication_of. simpl. by rewrite Hsame.
  - right. eexists. split; [done|]. intros src Hsrc Ha Hs.
    destruct Ho as [-> | [-> Ho]]; simpl in Hsrc; [done|]. injection Hsrc as <-.
    destruct Ha as [Ha|[_ Ha]].
    + unfold down, publication_of in *. simpl. by rewrite Hsame.
    + rewrite Hs in Ha. by destruct Ho.
Qed.

Lemma close_section g o :
  all_sections (call_source (w_lifecycle_close g o)
    (λ s, s <| source_generation_open := None |> <| source_generation_quiesced := false |>)).
Proof.
  apply every_atomically. intros s. destruct s as [[x tr] pl lc so q ob a b c tk aa lk].
  pose proof (close_cases g o x) as Hc. cbn. unfold logged. simpl.
  destruct (lifecycle_close g o x) as [x' r]. simpl in *. destruct Hc as [Hstar Hc].
  destruct r as [[|]|]; simpl in *; [|destruct Hc as [Hsame Ho]..].
  - split; simpl; [| |done|right; eexists; split; [done|intros src; by destruct o]].
    + intros _. destruct Hc as [Hc|(_ & _ & Hc)]; [by left|]. right. by split.
    + unfold down, publication_of. simpl. intros Hd. destruct Hc as [Hc|(Hq & _)]; [done|congruence].
  - exact (refused_section g o (MkCoordinator (MkTraced x tr) pl lc so q ob a b c tk aa lk) x'
             Hsame Hstar Ho).
  - exact (refused_section g o (MkCoordinator (MkTraced x tr) pl lc so q ob a b c tk aa lk) x'
             Hsame Hstar Ho).
Qed.
End Agreement.

(** ** Every section of the coordinator *)

Create HintDb wired discriminated.
#[export] Hint Resolve sections_read open_section quiesce_section close_section : wired.

Ltac wired_call :=
  apply sections_call; intros; split;
  [reflexivity|first [left; reflexivity|right; eexists; split; reflexivity]].

Ltac wired_tac :=
  repeat (intros; first
    [ exact I | solve [auto with wired] | apply every_bind | wired_call
    | apply all_sections_modify; by intros | case_match ]; cbn [negb]).

Section Programs.
Context `{W : WireEnums} `{L : ProjectionLibrary} {Y : Type}.
Context `{SE : !SourceEnvironment Y} `{RW : !RecoveryWorld Y}.
Abbreviation State := (@Coordinator L (Traced (Wired Y))).
Abbreviation all_sections p := (every (sectioned (Y := Y) (L := L)) p).

Lemma sections_shutdown_seen : all_sections shutdown_seen.
Proof. unfold shutdown_seen. wired_tac. Qed.
#[local] Hint Resolve sections_shutdown_seen : wired.

Lemma sections_set_terminal c error exhausted : all_sections (set_terminal c error exhausted).
Proof.
  apply all_sections_modify. intros s. unfold terminal_commit. by destruct (shutdown_requested s).
Qed.
#[local] Hint Resolve sections_set_terminal : wired.

Lemma all_sections_persist transport : all_sections (modify (persist_event transport)).
Proof.
  apply all_sections_modify. intros s. unfold persist_event. by destruct (to_last_event_utc_ns transport).
Qed.
#[local] Hint Resolve all_sections_persist : wired.

Lemma sections_quiesce_attempt a : all_sections (quiesce_attempt a).
Proof.
  unfold quiesce_attempt, quiesce_source. wired_tac.
  apply all_sections_modify. intros s. by case_bool_decide.
Qed.
#[local] Hint Resolve sections_quiesce_attempt : wired.

Lemma sections_close o : all_sections (close_source_generation o).
Proof. unfold close_source_generation. wired_tac. Qed.
#[local] Hint Resolve sections_close : wired.

Lemma sections_create g : all_sections (create_attempt g).
Proof. unfold create_attempt. wired_tac. Qed.
#[local] Hint Resolve sections_create : wired.

Lemma sections_end a : all_sections (end_with_shutdown a).
Proof. unfold end_with_shutdown. wired_tac. Qed.
#[local] Hint Resolve sections_end : wired.

Lemma sections_timing a : all_sections (generation_timing a).
Proof. unfold generation_timing, try_catch. wired_tac. Qed.
#[local] Hint Resolve sections_timing : wired.

Lemma sections_watch g a timing : all_sections (watch_generation g a timing).
Proof.
  unfold watch_generation, open_source_generation, try_mark_live, watch_rotation,
    watch_until_recovery, wait_for_rotation_or_recovery, try_catch.
  wired_tac; apply all_sections_atomically; intros s; unfold live_commit, rotating_commit; by case_match.
Qed.
#[local] Hint Resolve sections_watch : wired.

Lemma sections_lock {A} (p : prog State A) : all_sections p → all_sections (with_lock p).
Proof. intros Hp. unfold with_lock. wired_tac. Qed.

Lemma sections_planned_reset g transport runtime : all_sections (planned_reset g transport runtime).
Proof.
  unfold planned_reset. apply every_bind; [apply sections_lock|intros]; wired_tac.
Qed.
#[local] Hint Resolve sections_planned_reset : wired.

Lemma sections_record g c transport runtime : all_sections (record_failure g c transport runtime).
Proof. unfold record_failure. wired_tac. Qed.
#[local] Hint Resolve sections_record : wired.

Lemma sections_commit decision transport : all_sections (commit_backoff decision transport).
Proof. unfold commit_backoff. apply sections_lock. wired_tac. Qed.
#[local] Hint Resolve sections_commit : wired.

Lemma sections_reset : all_sections reset_section.
Proof. unfold reset_section. apply sections_lock. wired_tac. Qed.
#[local] Hint Resolve sections_reset : wired.

Lemma sections_rebootstrap g : all_sections (rebootstrap g).
Proof.
  unfold rebootstrap, observe, wait_backoff.
  wired_tac; apply all_sections_atomically; intros s; unfold recovering_commit; by case_match.
Qed.
#[local] Hint Resolve sections_rebootstrap : wired.

Lemma sections_settle g a due : all_sections (settle_generation g a due).
Proof. unfold settle_generation, reflect_terminal_error, recover. wired_tac. Qed.
#[local] Hint Resolve sections_settle : wired.

Lemma sections_coordinator g : all_sections (coordinator_step g).
Proof.
  unfold coordinator_step, coordinator_iteration, close_source_after_exception. wired_tac.
Qed.

Lemma sections_joined p :
  p = forget stop_joined ∨ (∃ retained, p = forget (quiesce_joined retained)) → all_sections p.
Proof.
  intros [-> | [retained ->]]; unfold forget, stop_joined, quiesce_joined, take_attempt, retire_attempt;
    wired_tac; apply every_modify; intros s;
    (apply sectioned_same; [done..|]); first [by left|right; by eexists].
Qed.

Lemma sections_start : all_sections start.
Proof.
  unfold start. wired_tac. apply all_sections_atomically. intros s. unfold start_begin.
  repeat case_match; done.
Qed.
End Programs.

(** ** The coordinator, its callers and the publication *)

Section System.
Context `{W : WireEnums} `{L : ProjectionLibrary} {Y : Type}.
Context `{SE : !SourceEnvironment Y} `{RW : !RecoveryWorld Y}.
Abbreviation State := (@Coordinator L (Traced (Wired Y))).
Abbreviation step := (recovery_step (X := Wired Y) meanwhile).
Implicit Types (s : State).

(** The others never change the source, but to shut it down. *)
Definition moves (w w' : World) : Prop :=
  EventPublication.source_state (w_pub w') = EsShutdown ∨
  (EventPublication.source_state (w_pub w') = EventPublication.source_state (w_pub w) ∧
   EventPublication.source_generation (w_pub w') = EventPublication.source_generation (w_pub w)).

Lemma others_step_moves w w' : others_step w w' → world_step w w' ∧ moves w w'.
Proof.
  destruct 1 as [sampled ac ar sub p st p' st' r Hf Ha|sampled allocs e g [p st]|ch p st|[p st]
    |a c c' p st Hc Hh].
  - split; [by eapply step_admit|]. right. simpl.
    destruct (admit_cases _ _ _ _ _ _ _ _ _ Ha) as [[-> _]|H]; [done|].
    by destruct H as (? & ? & ? & _ & _ & _ & _ & _ & _ & -> & _).
  - split; [apply step_publish|by right].
  - split; [apply step_remove|]. right. by destruct ch.
  - split; [apply step_shutdown|]. left. apply shutdown_source_down.
  - split; [by apply (step_handler a c c')|by right].
Qed.

Lemma meanwhile_moves w w' : star others_step w w' → star world_step w w' ∧ moves w w'.
Proof.
  induction 1 as [w|w w1 w2 H1 _ [IH1 IH2]]; [split; [constructor|by right]|].
  destruct (others_step_moves _ _ H1) as [Hs Hm]. split; [by eapply star_step|].
  destruct IH2 as [?|[E1 E2]]; [by left|]. unfold moves. rewrite E1, E2. exact Hm.
Qed.

Lemma other_sectioned s s' : other_step meanwhile s s' → sectioned s s'.
Proof.
  destruct 1 as [s Hl|s Hl|s Hd|a s Hd|x s Hx].
  - unfold stop_begin. repeat case_match; simpl; apply sectioned_same; auto.
  - unfold quiesce_begin. repeat case_match; simpl; apply sectioned_same; auto.
  - apply sectioned_same; auto.
  - apply sectioned_same; try done. right. by eexists.
  - destruct (meanwhile_moves _ _ Hx) as [Hstar Hm]. split; simpl; [| |done|by left].
    + unfold agrees, down, publication_of, source_of. simpl. destruct Hm as [?|[-> ->]]; auto.
    + unfold down, publication_of. simpl. destruct Hm as [?|[-> _]]; auto.
Qed.

Lemma start_sectioned s s' r : run start s = (s', r) → sectioned s s'.
Proof.
  unfold start. rewrite run_bind, run_atomically. unfold start_begin.
  destruct (stopped s); [by intros [= <- <-]; apply sectioned_same; auto|].
  destruct (started s); [by intros [= <- <-]; apply sectioned_same; auto|].
  cbn [fst snd]. rewrite run_bind. unfold call.
  rewrite run_atomically. cbn [fst snd]. destruct (snd _).
  1: by intros [= <- <-]; apply sectioned_same; auto.
  all: rewrite run_bind, run_modify; intros [= <- <-]; apply sectioned_same; auto.
Qed.

(** The rest of the program of the thread. *)
Definition thread_sections (t : CoordinatorThread) : Prop :=
  match t with
  | CoordinatorRunning p => every (sectioned (Y := Y) (L := L)) p
  | CoordinatorJoined p => every (sectioned (Y := Y) (L := L)) p
  | _ => True
  end.

Lemma step_sectioned w w' :
  step w w' → thread_sections (snd w) → sectioned (fst w) (fst w') ∧ thread_sections (snd w').
Proof.
  intros Hstep Ht.
  destruct Hstep as [s s' r Hrun|s s' t Ho|s f k|s g|s|s t Hx Hst Hsd|s retained Hst Hsd|s f k|s u];
    cbn [fst snd thread_sections] in *.
  - split; [by eapply start_sectioned|]. destruct r; try done. apply sections_coordinator.
  - split; [by apply other_sectioned|done].
  - apply Ht.
  - split; [by apply sectioned_same; auto|]. apply sections_coordinator.
  - split; [by apply sectioned_same; auto|done].
  - split; [by apply sectioned_same; auto|]. apply sections_joined. by left.
  - split; [by apply sectioned_same; auto|]. apply sections_joined. right. by eexists.
  - apply Ht.
  - split; [by apply sectioned_same; auto|done].
Qed.

(** Agreement, and no refused callback before the shutdown. *)
Definition answered s : Prop :=
  ∀ c src, c ∈ trace (world s) → refusal c = Some src → down s.

Definition wired_ok (w : State * CoordinatorThread) : Prop :=
  system_ok w ∧ thread_sections (snd w) ∧ agrees (fst w) ∧ answered (fst w).

Lemma refused_source c p p' src :
  protocol_step c p = Some p' → refusal c = Some src → p_source p = Some src.
Proof.
  destruct c as [| | | |g ok|g o ok|]; simpl; try done.
  - destruct ok; [done|]. destruct (bool_decide _ && _) eqn:Hb; [|done].
    apply andb_true_iff in Hb as [Hb _]. apply bool_decide_eq_true in Hb. intros _ [= <-]. done.
  - case_bool_decide as Hb; [|done]. intros _. destruct o, ok; try done; by intros [= <-].
Qed.

Lemma wired_step w w' : step w w' → wired_ok w → wired_ok w'.
Proof.
  intros Hstep (Hok & Ht & Ha & Hn). pose proof (recovery_step_ok _ _ _ Hstep Hok) as Hok'.
  destruct (step_sectioned _ _ Hstep Ht) as [[S1 S2 S3 S4] Ht'].
  unfold wired_ok. split_all; [done|done|by apply S1|].
  intros c src Hc Hr. destruct S4 as [Hs|(c1 & Hs & Hdown)]; rewrite Hs in Hc.
  - apply S2. by eapply Hn.
  - apply elem_of_cons in Hc as [->|Hc]; [|apply S2; by eapply Hn].
    apply (Hdown src Hr Ha).
    destruct Hok as [[(p & Hf) _ _ _ _] _], Hok' as [[(p' & Hf') _ _ _ _] _].
    pose proof (fo_monitor _ _ Hf') as Hm. rewrite Hs in Hm. simpl in Hm.
    rewrite (fo_monitor _ _ Hf) in Hm. simpl in Hm.
    rewrite <- (fo_source _ _ Hf). by eapply refused_source.
Qed.

Lemma wired_start w :
  recovery_start w → world_start (source (inner (world (fst w)))) → wired_ok w.
Proof.
  intros Hs (gid & lim & Hmake & _). pose proof (recovery_start_ok _ Hs) as Hok.
  destruct w as [s t]. destruct Hs as (planned & configured & x & Hm & Ht). cbn [fst snd] in *. subst t.
  assert (Hf : source_generation_open s = None ∧ source_generation_quiesced s = false ∧
               world s = MkTraced x []).
  { unfold make in Hm. repeat case_match; try done; by injection Hm as <-. }
  destruct Hf as (Ho & Hq & Hx). rewrite Hx in Hmake. split; [done|]. split; [done|].
  cbn [fst]. split.
  - right. split; [done|]. unfold source_of, publication_of. rewrite Ho, Hx. cbn.
    unfold EventPublication.make in Hmake. destruct (_ || _); [done|]. left. by injection Hmake as <-.
  - intros c src Hc. rewrite Hx in Hc. by apply elem_of_nil in Hc.
Qed.

Lemma wired_reached w0 w :
  recovery_start w0 → world_start (source (inner (world (fst w0)))) → star step w0 w → wired_ok w.
Proof.
  intros H0 Hw Hstar. apply (star_invariant step wired_ok) in Hstar; [done| |by apply wired_start].
  intros w1 w2 H1 H2. by eapply wired_step.
Qed.

(** The publication's own theorems hold in the composition. *)
Lemma publication_reached w0 w :
  recovery_start w0 → world_start (source (inner (world (fst w0)))) → star step w0 w →
  star world_step (source (inner (world (fst w0)))) (source (inner (world (fst w)))).
Proof.
  intros H0 Hw Hstar. pose proof (wired_start _ H0 Hw) as Hok. clear H0 Hw.
  induction Hstar as [w|w w1 w2 H1 _ IH]; [constructor|].
  pose proof (wired_step _ _ H1 Hok) as Hok1. destruct Hok as (_ & Ht & _).
  destruct (step_sectioned _ _ H1 Ht) as [[_ _ S3 _] _].
  eapply star_trans; [exact S3|]. by apply IH.
Qed.

End System.

(** ** Witness: a generation that is opened, quiesced and replaced *)

Section Sample.
#[local] Existing Instance SampleProjection.library.
#[local] Existing Instance SampleWorld.world.
#[local] Existing Instance sample_enums.

#[local] Instance sample_environment : SourceEnvironment SampleWorld.Env := {|
  se_sample e := (e, Some (MkPublicationTime 1 (Some 1%Z)));
  se_shutdown_between e := (e, false) |}.

Abbreviation WiredState := (Coordinator (X := Traced (Wired SampleWorld.Env))).

Definition wired0 : WiredState :=
  MkCoordinator
    (MkTraced (MkWired (MkWorld (EventPublication.MkPublication "gw-1" sample_limits EsClosed None 1 []) ∅)
                 (SampleWorld.MkEnv 0 false)) [])
    None true None false initial_recovery_observation false false false false None false.
Definition wired1 : WiredState := fst (run start wired0).
Definition wired2 : WiredState := fst (run (coordinator_step 1) wired1).

Lemma wired0_start :
  recovery_start (wired0, CoordinatorNone) ∧ world_start (source (inner (world wired0))).
Proof.
  split; [by exists None, true, (inner (world wired0))|]. by exists "gw-1", sample_limits.
Qed.

Lemma wired_thread (p : prog WiredState (option Z)) (s : WiredState) :
  star (recovery_step meanwhile) (s, CoordinatorRunning p)
       (fst (run p s), CoordinatorRunning (Done (snd (run p s)))).
Proof.
  revert s. induction p as [a|f k IH]; intros s; [constructor|].
  eapply star_step; [apply step_thread|]. apply IH.
Qed.

Lemma wired2_reachable :
  star (recovery_step meanwhile) (wired0, CoordinatorNone)
       (wired2, CoordinatorRunning (Done (snd (run (coordinator_step 1) wired1)))).
Proof.
  eapply star_step; [|apply wired_thread].
  apply (step_start _ wired0 wired1 RtStarted). vm_compute. reflexivity.
Qed.

Lemma wired2_calls :
  trace (world wired2)
  = [CallReset true; CallClose 1 CloseReplacement true; CallQuiesce 1 true; CallStop 1;
     CallOpen 1 true; CallStart 1; CallCreate 1 (Some 1%Z)] ∧
  EventPublication.source_generation (publication_of wired2) = Some 1%Z.
Proof. split; vm_compute; reflexivity. Qed.

End Sample.
