(* ===== verification/GatewayLifecycle.v ===== *)
(** * GatewayLifecycle: start and stop of the whole gateway

    Models [ProductionGateway] of [src/src/production/production_gateway.hpp] and [.cpp]:
    the construction, [start] with its wait for the first synchronization of every
    product and its rollback, [request_stop], [stop] and [observe].  The products and the
    RPC server are behind [GatewayWorld]; what they are is in [Products] and
    [GrpcService].

    [start] and [stop] hold [lifecycle_mutex_], so that at most one of them runs;
    [request_stop] and the rest of the program act between any two of its sections
    ([lifecycle_step]). *)

From S2P Require Import Prelude Ring Wire Text Session OrderBookPublication Programs Projection.
From S2P Require Import EventPublication MarketRuntime Recovery Registry GatewayStatus GrpcRequests GrpcService.

Open Scope gateway_scope.

Inductive GatewayState : Type :=
| GwConstructed
| GwStarting
| GwServing
| GwStopping
| GwStopped.

#[export] Instance GatewayState_eq_dec : EqDecision GatewayState.
Proof. solve_decision. Defined.

Inductive StartCode : Type :=
| ScServing
| ScAlreadyStarted
| ScStopRequested
| ScProductStartFailed
| ScProductInitialFailure
| ScInitialStartupTimeout
| ScGrpcBindFailed.

#[export] Instance StartCode_eq_dec : EqDecision StartCode.
Proof. solve_decision. Defined.

(** [production::StartResult] *)
Record GatewayStartResult : Type := MkGatewayStartResult {
  start_code : StartCode;
  start_product : option MarketKey
}.

(** [to_string] *)
Definition gateway_state_text (state : GatewayState) : string :=
  match state with
  | GwConstructed => "constructed"
  | GwStarting => "starting"
  | GwServing => "serving"
  | GwStopping => "stopping"
  | GwStopped => "stopped"
  end.

Definition start_code_text (code : StartCode) : string :=
  match code with
  | ScServing => "serving"
  | ScAlreadyStarted => "already-started"
  | ScStopRequested => "stop-requested"
  | ScProductStartFailed => "product-start-failed"
  | ScProductInitialFailure => "product-initial-failure"
  | ScInitialStartupTimeout => "initial-startup-timeout"
  | ScGrpcBindFailed => "grpc-bind-failed"
  end.

Section Observations.
Context `{L : ProjectionLibrary}.

(** [initial_live] and [initial_failure], from the two observations; [None]: the owner
    did not answer in time. *)
Definition initial_live (recovery : option RecoveryObservation)
  (runtime : option RuntimeObservation) : bool :=
  match recovery, runtime with
  | Some recovery, Some runtime =>
      bool_decide (ro_state recovery = RyLive) && negb (ro_terminal recovery)
      && (1 <=? ro_connection_generation recovery)%Z
      && bool_decide (ro_active_transport_count recovery = 1)
      && bool_decide (obs_state runtime = RsLive)
      && bool_decide (obs_projection_status runtime = Synchronized)
      && negb (bool_decide (obs_owner_thread_id runtime = no_thread))
  | _, _ => false
  end.

Definition initial_failure (recovery : option RecoveryObservation)
  (runtime : option RuntimeObservation) : bool :=
  match recovery with
  | Some recovery => ro_terminal recovery || ro_exhausted recovery
                     || bool_decide (ro_state recovery = RyStopped)
  | None => false
  end
  || match runtime with
     | Some runtime => bool_decide (obs_state runtime = RsFaulted)
                       || bool_decide (obs_state runtime = RsStopped)
     | None => false
     end.

Record ProductObservation : Type := MkProductObservation {
  po_key : MarketKey;
  po_recovery : RecoveryObservation;
  po_runtime : RuntimeObservation;
  po_events : EventPublicationObservation
}.

Record GatewayObservation : Type := MkGatewayObservation {
  go_state : GatewayState;
  go_selected_port : Z;
  go_tracked_contexts : nat;
  go_context_limit : nat;
  go_products : list ProductObservation
}.
End Observations.

(** The products, in the order of the set, and the server, as the gateway calls them.
    A call may throw ([outcome]); [gw_external_stop] is the caller's predicate. *)
Class GatewayWorld `{L : ProjectionLibrary} (S : Type) : Type := {
  gw_products : list MarketKey;
  gw_start_product : MarketKey → S → S * outcome RecoveryStartResult;
  gw_observe_recovery : MarketKey → S → S * outcome (option RecoveryObservation);
  gw_observe_runtime : MarketKey → S → S * outcome (option RuntimeObservation);
  gw_observe_events : MarketKey → S → S * EventPublicationObservation;
  gw_startup_now : S → S * outcome Z;
  gw_external_stop : S → S * outcome bool;
  gw_server_start : string → S → S * outcome bool;
  gw_server_shutdown : S → S;
  gw_stop_products : S → S;
  gw_selected_port : S → Z;
  gw_tracked_contexts : S → nat
}.

Section Gateway.
Context `{A : AddressLibrary} `{L : ProjectionLibrary} {S : Type} `{GW : !GatewayWorld S}.

(** The members that change, then what they act on. *)
Record Gateway : Type := MkGateway {
  gateway_state : GatewayState;
  gateway_stop_requested : bool;
  graph : S
}.
#[export] Instance Gateway_eta : Eta Gateway :=
  λ g, MkGateway (gateway_state g) (gateway_stop_requested g) (graph g).
Abbreviation Thread := (prog Gateway).
Implicit Types (g : Gateway).

(** The constructor's checks; [timeout] in nanoseconds, [now] whether the function is
    set, [ephemeral] the seam of the tests.  [None] is [std::invalid_argument]. *)
Definition make_gateway (timeout : Z) (now : bool) (listen_address : string) (ephemeral : bool)
  (s : S) : option Gateway :=
  if (timeout <=? 0)%Z then None
  else if negb now then None
  else if negb (valid_loopback_listen_address listen_address ephemeral) then None
  else Some (MkGateway GwConstructed false s).

(** A call on the products, the server or the caller. *)
Definition gateway_call {B} (f : S → S * B) : Thread B :=
  atomically (λ g, (g <| graph := fst (f (graph g)) |>, snd (f (graph g)))).

Definition set_gateway_state (state : GatewayState) : Thread () :=
  modify (λ g, g <| gateway_state := state |>).

(** [stop_requested] *)
Definition stop_requested : Thread (outcome bool) :=
  requested ← read gateway_stop_requested;
  if requested : bool then mret (Returned true) else gateway_call gw_external_stop.

(** [shutdown_graph] *)
Definition shutdown_graph : Thread () :=
  modify (λ g, g <| graph := gw_server_shutdown (graph g) |>) ;;
  modify (λ g, g <| graph := gw_stop_products (graph g) |>).

Definition rollback : Thread () :=
  set_gateway_state GwStopping ;;
  shutdown_graph ;;
  set_gateway_state GwStopped.

(** The [catch] block of [start]. *)
Definition rollback_and_rethrow {B} : Thread (outcome B) := rollback ;; mret Threw.

(** [ConfiguredProductRuntimeSet::start] *)
Fixpoint start_products (products : list MarketKey)
  (results : list (MarketKey * RecoveryStartResult))
  : Thread (outcome (list (MarketKey * RecoveryStartResult))) :=
  match products with
  | [] => mret (Returned results)
  | key :: rest =>
      let! result := gateway_call (gw_start_product key) in
      start_products rest (results ++ [(key, result)])
  end.

(** The loop of [start] over the results: the first product that did not start. *)
Fixpoint first_not_started (results : list (MarketKey * RecoveryStartResult))
  : option MarketKey :=
  match results with
  | [] => None
  | (key, RtStarted) :: rest => first_not_started rest
  | (key, _) :: _ => Some key
  end.

Definition observe_product (key : MarketKey)
  : Thread (outcome (option RecoveryObservation * option RuntimeObservation)) :=
  let! recovery := gateway_call (gw_observe_recovery key) in
  let! runtime := gateway_call (gw_observe_runtime key) in
  mret (Returned (recovery, runtime)).

Fixpoint find_initial_failure (products : list MarketKey) : Thread (outcome (option MarketKey)) :=
  match products with
  | [] => mret (Returned None)
  | key :: rest =>
      let! observed := observe_product key in
      if initial_failure observed.1 observed.2 then mret (Returned (Some key))
      else find_initial_failure rest
  end.

(** The conjunction is short-circuit: after a product that is not live no other is
    observed. *)
Fixpoint all_initially_live (products : list MarketKey) : Thread (outcome bool) :=
  match products with
  | [] => mret (Returned true)
  | key :: rest =>
      let! observed := observe_product key in
      if initial_live observed.1 observed.2 then all_initially_live rest
      else mret (Returned false)
  end.

(** The loop of [wait_for_initial_live], for at most [fuel] rounds ([None] when they do
    not suffice); the timed wait at the end of a round changes nothing. *)
Fixpoint wait_for_initial_live (deadline : Z) (fuel : nat)
  : Thread (outcome (option GatewayStartResult)) :=
  match fuel with
  | O => mret (Returned None)
  | Datatypes.S fuel =>
      let! requested := stop_requested in
      if requested : bool then mret (Returned (Some (MkGatewayStartResult ScStopRequested None))) else
      let! failed := find_initial_failure gw_products in
      match failed with
      | Some key => mret (Returned (Some (MkGatewayStartResult ScProductInitialFailure (Some key))))
      | None =>
          let! all_live := all_initially_live gw_products in
          let! now := gateway_call gw_startup_now in
          if (deadline <=? now)%Z
          then mret (Returned (Some (MkGatewayStartResult ScInitialStartupTimeout None)))
          else if all_live : bool then mret (Returned (Some (MkGatewayStartResult ScServing None)))
          else wait_for_initial_live deadline fuel
      end
  end.

(** A result of [start] after a rollback. *)
Definition rolled_back (code : StartCode) (product : option MarketKey)
  : Thread (outcome (option GatewayStartResult)) :=
  rollback ;; mret (Returned (Some (MkGatewayStartResult code product))).

(** The body of the [try] block. *)
Definition start_body (timeout : Z) (listen_address : string) (fuel : nat)
  : Thread (outcome (option GatewayStartResult)) :=
  let! requested := stop_requested in
  if requested : bool then rolled_back ScStopRequested None else
  let! now := gateway_call gw_startup_now in
  let! starts := start_products gw_products [] in
  match first_not_started starts with
  | Some key => rolled_back ScProductStartFailed (Some key)
  | None =>
      let! initial := wait_for_initial_live (now + timeout) fuel in
      match initial with
      | None => mret (Returned None)
      | Some initial =>
          if negb (bool_decide (start_code initial = ScServing))
          then rolled_back (start_code initial) (start_product initial) else
          let! requested := stop_requested in
          if requested : bool then rolled_back ScStopRequested None else
          let! bound := gateway_call (gw_server_start listen_address) in
          if negb bound then rolled_back ScGrpcBindFailed None else
          let! requested := stop_requested in
          if requested : bool then rolled_back ScStopRequested None else
          set_gateway_state GwServing ;;
          mret (Returned (Some (MkGatewayStartResult ScServing None)))
      end
  end.

(** The first section of [start]: [false] when it was called before. *)
Definition start_begin (g : Gateway) : Gateway * bool :=
  if bool_decide (gateway_state g = GwConstructed)
  then (g <| gateway_state := GwStarting |>, true) else (g, false).

(** [start], under [lifecycle_mutex_]. *)
Definition gateway_start (timeout : Z) (listen_address : string) (fuel : nat)
  : Thread (outcome (option GatewayStartResult)) :=
  first ← atomically start_begin;
  if negb first then mret (Returned (Some (MkGatewayStartResult ScAlreadyStarted None))) else
  result ← start_body timeout listen_address fuel;
  match result with
  | Returned _ => mret result
  | Threw => rollback_and_rethrow
  end.

Definition request_stop (g : Gateway) : Gateway := g <| gateway_stop_requested := true |>.

(** The first section of [stop] under its locks: [true] when it goes on. *)
Definition stop_enter (g : Gateway) : Gateway * bool :=
  if bool_decide (gateway_state g = GwStopped) then (g, false)
  else (g <| gateway_state := GwStopping |>, true).

(** [stop], under [lifecycle_mutex_]; it has called [request_stop] before. *)
Definition gateway_stop : Thread () :=
  proceed ← atomically stop_enter;
  if negb proceed then mret () else
  shutdown_graph ;;
  set_gateway_state GwStopped.

(** [observe_products]: an owner that does not answer in time is an exception. *)
Fixpoint observe_products (products : list MarketKey) (observations : list ProductObservation)
  : Thread (outcome (list ProductObservation)) :=
  match products with
  | [] => mret (Returned observations)
  | key :: rest =>
      let! runtime := gateway_call (gw_observe_runtime key) in
      let! recovery := gateway_call (gw_observe_recovery key) in
      match runtime, recovery with
      | Some runtime, Some recovery =>
          events ← gateway_call (gw_observe_events key);
          observe_products rest (observations ++ [MkProductObservation key recovery runtime events])
      | _, _ => mret Threw
      end
  end.

(** [observe] *)
Definition gateway_observe : Thread (outcome GatewayObservation) :=
  state ← read gateway_state;
  port ← read (λ g, gw_selected_port (graph g));
  contexts ← read (λ g, gw_tracked_contexts (graph g));
  let! products := observe_products gw_products [] in
  mret (Returned (MkGatewayObservation state port contexts kMaximumGrpcTrackedContexts products)).
End Gateway.
Arguments Gateway : clear implicits.

(** ** The calls on the graph *)

(** The calls that matter, with their answers. *)
Inductive GatewayCall : Type :=
| GcStartProduct (key : MarketKey) (answer : outcome RecoveryStartResult)
| GcServerStart (answer : outcome bool)
| GcServerShutdown
| GcStopProducts.

(** A world that records them, the latest first. *)
Record Logged (S : Type) : Type := MkLogged {
  inside : S;
  call_log : list GatewayCall
}.
Arguments MkLogged {S} _ _.
Arguments inside {S} _.
Arguments call_log {S} _.

Section Log.
Context `{L : ProjectionLibrary} {S : Type} `{GW : !GatewayWorld S}.

Definition unlogged {B} (f : S → S * B) (t : Logged S) : Logged S * B :=
  (MkLogged (fst (f (inside t))) (call_log t), snd (f (inside t))).

Definition logged {B} (call : B → GatewayCall) (f : S → S * B) (t : Logged S) : Logged S * B :=
  (MkLogged (fst (f (inside t))) (call (snd (f (inside t))) :: call_log t), snd (f (inside t))).

#[export] Instance logged_world : GatewayWorld (Logged S) := {|
  gw_products := gw_products;
  gw_start_product key := logged (GcStartProduct key) (gw_start_product key);
  gw_observe_recovery key := unlogged (gw_observe_recovery key);
  gw_observe_runtime key := unlogged (gw_observe_runtime key);
  gw_observe_events key := unlogged (gw_observe_events key);
  gw_startup_now := unlogged gw_startup_now;
  gw_external_stop := unlogged gw_external_stop;
  gw_server_start address := logged GcServerStart (gw_server_start address);
  gw_server_shutdown t := MkLogged (gw_server_shutdown (inside t)) (GcServerShutdown :: call_log t);
  gw_stop_products t := MkLogged (gw_stop_products (inside t)) (GcStopProducts :: call_log t);
  gw_selected_port t := gw_selected_port (inside t);
  gw_tracked_contexts t := gw_tracked_contexts (inside t)
|}.

(** How far the graph has come: the first [n] products have been started, all of them
    with success if [ok]; the server listens; the server is down; everything is down. *)
Inductive GraphPhase : Type :=
| PhStarting (n : nat) (ok : bool)
| PhBound
| PhServerDown
| PhDown.

Definition product_started (answer : outcome RecoveryStartResult) : bool :=
  match answer with Returned RtStarted => true | _ => false end.
Definition server_bound (answer : outcome bool) : bool :=
  match answer with Returned b => b | Threw => false end.

(** The order in which the graph may be driven: every product once, in order; the server
    once, and only over products that have all started; then the server's shutdown and
    the stop of the products, once each and in this order. *)
Definition graph_call (products : list MarketKey) (phase : GraphPhase) (call : GatewayCall) : option GraphPhase :=
  match phase, call with
  | PhStarting n ok, GcStartProduct key answer =>
      if bool_decide (products !! n = Some key)
      then Some (PhStarting (n + 1) (ok && product_started answer)) else None
  | PhStarting n true, GcServerStart answer =>
      if bool_decide (n = length products)
      then Some (if server_bound answer then PhBound else PhStarting n false)
      else None
  | PhStarting _ _, GcServerShutdown | PhBound, GcServerShutdown => Some PhServerDown
  | PhServerDown, GcStopProducts => Some PhDown
  | _, _ => None
  end.

Fixpoint graph_phase (products : list MarketKey) (log : list GatewayCall) : option GraphPhase :=
  match log with
  | [] => Some (PhStarting 0 true)
  | call :: earlier => phase ← graph_phase products earlier; graph_call products phase call
  end.
End Log.

(** ** Interleaving *)

Section Interleaving.
Context `{A : AddressLibrary} `{L : ProjectionLibrary} {S : Type} `{GW : !GatewayWorld S}.
(** What the products, the server and the clock do by themselves. *)
Context (graph_move : S → S → Prop) (timeout : Z) (listen_address : string) (fuel : nat).
Abbreviation State := (Gateway (Logged S)).
Implicit Types (g : State).

(** Who holds [lifecycle_mutex_], and what is left of its call. *)
Inductive Holder : Type :=
| Nobody
| InStart (p : prog State (outcome (option GatewayStartResult)))
| InStop (p : prog State ()).

(** What may happen between two sections of the holder: a request to stop, and moves of
    the graph that make none of the recorded calls. *)
Inductive others : State → State → Prop :=
| other_request g : others g (request_stop g)
| other_move g s : graph_move (inside (graph g)) s →
    others g (g <| graph := MkLogged s (call_log (graph g)) |>).

(** One section of the calls on the gateway.  A [start] that has used up its fuel is
    still waiting. *)
Inductive lifecycle_step : State * Holder → State * Holder → Prop :=
| ls_start g : lifecycle_step (g, Nobody) (g, InStart (gateway_start timeout listen_address fuel))
| ls_start_section g f k : lifecycle_step (g, InStart (Step f k)) (f g, InStart (k g))
| ls_start_end g r : r ≠ Returned None → lifecycle_step (g, InStart (Done r)) (g, Nobody)
| ls_stop g : lifecycle_step (request_stop g, Nobody) (request_stop g, InStop gateway_stop)
| ls_stop_section g f k : lifecycle_step (g, InStop (Step f k)) (f g, InStop (k g))
| ls_stop_end g : lifecycle_step (g, InStop (Done ())) (g, Nobody)
| ls_others g g' h : others g g' → lifecycle_step (g, h) (g', h).

Definition lifecycle_start (w : State * Holder) : Prop :=
  gateway_state (fst w) = GwConstructed ∧ call_log (graph (fst w)) = [] ∧ snd w = Nobody.

(** *** The invariant of every section *)

Abbreviation phase_of := (graph_phase (gw_products (S := S))).

(** What each state tells about the graph. *)
Definition consistent (st : GatewayState) (phase : GraphPhase) : Prop :=
  match st with
  | GwConstructed => phase = PhStarting 0 true
  | GwStarting => match phase with PhStarting _ _ | PhBound => True | _ => False end
  | GwServing => phase = PhBound
  | GwStopping => True
  | GwStopped => phase = PhDown
  end.

Definition log_ok g : Prop :=
  ∃ phase, phase_of (call_log (graph g)) = Some phase ∧ consistent (gateway_state g) phase.

Definition standing (st : GatewayState) (phase : GraphPhase) g : Prop :=
  gateway_state g = st ∧ phase_of (call_log (graph g)) = Some phase ∧ consistent st phase.

(** What the holder relies on. *)
Definition undisturbed g g' : Prop :=
  gateway_state g' = gateway_state g ∧ call_log (graph g') = call_log (graph g).

Abbreviation triple := (triple log_ok undisturbed).

#[local] Instance undisturbed_refl : Reflexive undisturbed.
Proof. by split. Qed.
#[local] Instance undisturbed_trans : Transitive undisturbed.
Proof. intros g1 g2 g3 [H1 H2] [H3 H4]. split; congruence. Qed.

Lemma others_undisturbed g g' : others g g' → undisturbed g g'.
Proof. by destruct 1. Qed.

Lemma standing_stable st phase : stable log_ok undisturbed (standing st phase).
Proof. intros g g' _ _ (<- & H & Hc) [H1 H2]. unfold standing; split_all; [done|by rewrite H2|done]. Qed.

(** The graph is still to be shut down. *)
Definition unfinished (st : GatewayState) g : Prop :=
  ∃ phase, standing st phase g ∧ match phase with PhStarting _ _ | PhBound => True | _ => False end.

Lemma unfinished_stable st : stable log_ok undisturbed (unfinished st).
Proof.
  intros g g' Hi Hi' (phase & H & Hp) Hr. exists phase. split; [|done].
  exact (standing_stable st phase g g' Hi Hi' H Hr).
Qed.

Hint Resolve standing_stable unfinished_stable : core.

Lemma standing_ok st phase g : standing st phase g → log_ok g.
Proof. intros (<- & H & Hc). by exists phase. Qed.

Lemma triple_set_state P st phase (Q : () → State → Prop) :
  stable log_ok undisturbed P →
  (∀ g, P g → phase_of (call_log (graph g)) = Some phase) → consistent st phase →
  (∀ g, standing st phase g → Q () g) →
  triple P (set_gateway_state st) Q.
Proof.
  intros Hst Hp Hc HQ. apply triple_modify; [done|]. intros g Hi HP.
  assert (H : standing st phase (g <| gateway_state := st |>))
    by (unfold standing; split_all; [done|exact (Hp g HP)|done]).
  split; [exact (standing_ok _ _ _ H)|by apply HQ].
Qed.

Lemma triple_unlogged {B} st phase (f : S → S * B) :
  triple (standing st phase) (gateway_call (unlogged f)) (λ _, standing st phase).
Proof. apply triple_atomically; [done|]. intros g Hi Hs. done. Qed.

(** An unlogged call that may throw, where an exception leaves an unfinished graph. *)
Lemma triple_quiet {B} st phase (f : S → S * outcome B) :
  match phase with PhStarting _ _ | PhBound => True | _ => False end →
  triple (standing st phase) (gateway_call (unlogged f))
    (either (λ _, standing st phase) (unfinished st)).
Proof.
  intros Hp. eapply triple_conseq; [apply triple_unlogged|done|].
  intros [b|] g _ Hs; [done|]. by exists phase.
Qed.

(** *** The parts of [start] and [stop] *)

Lemma triple_shutdown_graph :
  triple (unfinished GwStopping) shutdown_graph (λ _, standing GwStopping PhDown).
Proof.
  unfold shutdown_graph. eapply (triple_bind _ _ (λ _, standing GwStopping PhServerDown)).
  - apply triple_modify; [done|]. intros g _ (phase & (Hs & Hp & _) & Hd).
    assert (H : standing GwStopping PhServerDown (g <| graph := gw_server_shutdown (graph g) |>)).
    { unfold standing; split_all; [done| |done]. simpl. rewrite Hp. by destruct phase as [? []| | |]. }
    split; [exact (standing_ok _ _ _ H)|exact H].
  - intros []. apply triple_modify; [done|]. intros g _ (Hs & Hp & _).
    assert (H : standing GwStopping PhDown (g <| graph := gw_stop_products (graph g) |>)).
    { unfold standing; split_all; [done| |done]. simpl. by rewrite Hp. }
    split; [exact (standing_ok _ _ _ H)|exact H].
Qed.

Lemma triple_finish st :
  triple (unfinished st)
    (set_gateway_state GwStopping ;; shutdown_graph ;; set_gateway_state GwStopped)
    (λ _, standing GwStopped PhDown).
Proof.
  eapply (triple_bind _ _ (λ _, unfinished GwStopping)).
  - apply triple_modify; [done|]. intros g Hi (phase & (_ & Hp & _) & Hd).
    assert (H : standing GwStopping phase (g <| gateway_state := GwStopping |>)) by done.
    split; [exact (standing_ok _ _ _ H)|]. by exists phase.
  - intros []. eapply triple_bind; [apply triple_shutdown_graph|]. intros [].
    apply (triple_set_state _ _ PhDown); [done|by intros g (_ & ? & _)|done|done].
Qed.

(** What [start] may end with. *)
Definition start_ended (r : option GatewayStartResult) g : Prop :=
  match r with
  | Some r =>
      if bool_decide (start_code r = ScServing) then standing GwServing PhBound g
      else start_code r ≠ ScAlreadyStarted ∧ standing GwStopped PhDown g
  | None => unfinished GwStarting g
  end.

Lemma triple_rolled_back code product :
  code ≠ ScServing → code ≠ ScAlreadyStarted →
  triple (unfinished GwStarting) (rolled_back code product)
    (either start_ended (unfinished GwStarting)).
Proof.
  intros H1 H2. unfold rolled_back. eapply triple_bind; [apply triple_finish|]. intros [].
  apply triple_ret. intros g _ Hs. simpl. by rewrite bool_decide_eq_false_2.
Qed.

Lemma standing_unfinished st phase g :
  match phase with PhStarting _ _ | PhBound => True | _ => False end →
  standing st phase g → unfinished st g.
Proof. intros Hp Hs. by exists phase. Qed.

Lemma triple_stop_requested st phase :
  match phase with PhStarting _ _ | PhBound => True | _ => False end →
  triple (standing st phase) stop_requested (either (λ _, standing st phase) (unfinished st)).
Proof.
  intros Hp. unfold stop_requested.
  apply (triple_bind _ _ (λ _, standing st phase)); [by apply triple_read|]. intros [].
  - by apply triple_ret.
  - by apply triple_quiet.
Qed.

Lemma triple_observe_product st phase key :
  match phase with PhStarting _ _ | PhBound => True | _ => False end →
  triple (standing st phase) (observe_product key) (either (λ _, standing st phase) (unfinished st)).
Proof.
  intros Hp. unfold observe_product. eapply triple_throw; [by apply triple_quiet|]. intros recovery.
  eapply triple_throw; [by apply triple_quiet|]. intros runtime. by apply triple_ret.
Qed.

Lemma triple_find_initial_failure st phase products :
  match phase with PhStarting _ _ | PhBound => True | _ => False end →
  triple (standing st phase) (find_initial_failure products)
    (either (λ _, standing st phase) (unfinished st)).
Proof.
  intros Hp. induction products as [|key products IH]; cbn [find_initial_failure];
    [by apply triple_ret|].
  eapply triple_throw; [by apply triple_observe_product|]. intros observed.
  destruct (initial_failure _ _); [by apply triple_ret|done].
Qed.

Lemma triple_all_initially_live st phase products :
  match phase with PhStarting _ _ | PhBound => True | _ => False end →
  triple (standing st phase) (all_initially_live products)
    (either (λ _, standing st phase) (unfinished st)).
Proof.
  intros Hp. induction products as [|key products IH]; cbn [all_initially_live];
    [by apply triple_ret|].
  eapply triple_throw; [by apply triple_observe_product|]. intros observed.
  destruct (initial_live _ _); [done|by apply triple_ret].
Qed.

Abbreviation all_products := (gw_products (S := S)).

Definition all_started (results : list (MarketKey * RecoveryStartResult)) : bool :=
  forallb (λ r, product_started (Returned r.2)) results.

Lemma first_not_started_none results :
  first_not_started results = None ↔ all_started results = true.
Proof.
  induction results as [|[key []] results IH]; simpl; try done.
Qed.

Lemma triple_start_product n ok key :
  all_products !! n = Some key →
  triple (standing GwStarting (PhStarting n ok)) (gateway_call (gw_start_product key))
    (either (λ r, standing GwStarting (PhStarting (n + 1) (ok && product_started (Returned r))))
       (unfinished GwStarting)).
Proof.
  intros Hk. apply triple_atomically; [done|]. intros g _ (Hs & Hp & _).
  set (r := gw_start_product key (inside (graph g))).
  assert (H : standing GwStarting (PhStarting (n + 1) (ok && product_started (snd r)))
    (g <| graph := MkLogged (fst r) (GcStartProduct key (snd r) :: call_log (graph g)) |>)).
  { unfold standing; split_all; [done| |done]. simpl. rewrite Hp. simpl. by destruct ok; rewrite bool_decide_eq_true_2. }
  split; [exact (standing_ok _ _ _ H)|]. revert H. subst r. simpl.
  destruct (snd (gw_start_product key (inside (graph g)))); simpl; [done|].
  by apply standing_unfinished.
Qed.

Lemma triple_start_products rest earlier results :
  all_products = earlier ++ rest →
  triple (standing GwStarting (PhStarting (length earlier) (all_started results)))
    (start_products rest results)
    (either (λ results', standing GwStarting
                           (PhStarting (length all_products) (all_started results')))
       (unfinished GwStarting)).
Proof.
  revert earlier results. induction rest as [|key rest IH]; intros earlier results Hp;
    cbn [start_products].
  - apply triple_ret. intros g _ Hs. cbn [either]. by rewrite Hp, app_nil_r.
  - eapply triple_throw.
    { apply triple_start_product. rewrite Hp. by apply list_lookup_middle. }
    intros r. eapply triple_conseq; [apply (IH (earlier ++ [key]))| |done].
    + by rewrite <- app_assoc.
    + intros g _ Hs. rewrite length_app. simpl. unfold all_started in *. rewrite forallb_app. simpl.
      by rewrite andb_true_r.
Qed.

(** The wait neither starts nor stops anything. *)
Lemma triple_wait deadline n st phase :
  match phase with PhStarting _ _ | PhBound => True | _ => False end →
  triple (standing st phase) (wait_for_initial_live deadline n)
    (either (λ r g, standing st phase g ∧ ∀ a, r = Some a → start_code a ≠ ScAlreadyStarted)
       (unfinished st)).
Proof.
  intros Hp. induction n as [|n IH]; cbn [wait_for_initial_live]; [by apply triple_ret|].
  eapply triple_throw; [by apply triple_stop_requested|]. intros [].
  { apply triple_ret. intros g _ Hs. split; [done|]. by intros a [= <-]. }
  eapply triple_throw; [by apply triple_find_initial_failure|]. intros [key|].
  { apply triple_ret. intros g _ Hs. split; [done|]. by intros a [= <-]. }
  eapply triple_throw; [by apply triple_all_initially_live|]. intros live.
  eapply triple_throw; [by apply triple_quiet|]. intros now.
  destruct (deadline <=? now)%Z; [|destruct live; [|exact IH]];
    (apply triple_ret; intros g _ Hs; split; [done|]; by intros a [= <-]).
Qed.

Lemma triple_server_start address :
  triple (standing GwStarting (PhStarting (length all_products) true))
    (gateway_call (gw_server_start address))
    (either (λ bound : bool, standing GwStarting
                        (if bound then PhBound else PhStarting (length all_products) false))
       (unfinished GwStarting)).
Proof.
  apply triple_atomically; [done|]. intros g _ (Hs & Hp & _).
  set (r := gw_server_start address (inside (graph g))).
  assert (H : standing GwStarting
      (if server_bound (snd r) then PhBound else PhStarting (length all_products) false)
      (g <| graph := MkLogged (fst r) (GcServerStart (snd r) :: call_log (graph g)) |>)).
  { unfold standing; split_all; [done| |by destruct (server_bound _)]. simpl. rewrite Hp. simpl.
    by rewrite bool_decide_eq_true_2. }
  split; [exact (standing_ok _ _ _ H)|]. revert H. subst r. simpl.
  destruct (snd (gw_server_start address (inside (graph g)))); simpl; [done|].
  by apply standing_unfinished.
Qed.

Lemma triple_rollback_from phase code product :
  match phase with PhStarting _ _ | PhBound => True | _ => False end →
  code ≠ ScServing → code ≠ ScAlreadyStarted →
  triple (standing GwStarting phase) (rolled_back code product)
    (either start_ended (unfinished GwStarting)).
Proof.
  intros Hp H1 H2. eapply triple_conseq; [by apply triple_rolled_back| |done].
  intros g _. by apply standing_unfinished.
Qed.

Lemma triple_start_body :
  triple (standing GwStarting (PhStarting 0 true)) (start_body timeout listen_address fuel)
    (either start_ended (unfinished GwStarting)).
Proof.
  unfold start_body. eapply triple_throw; [by apply triple_stop_requested|].
  intros []; [by apply triple_rollback_from|].
  eapply triple_throw; [by apply triple_quiet|]. intros now.
  eapply triple_throw; [by apply (triple_start_products _ [] [])|]. intros results.
  destruct (first_not_started results) as [key|] eqn:Hall; [by apply triple_rollback_from|].
  apply first_not_started_none in Hall. rewrite Hall.
  eapply triple_throw; [by apply triple_wait|]. intros [initial|];
    [|apply triple_ret; by intros g _ [Hs _]; eapply standing_unfinished; [|exact Hs]].
  destruct (bool_decide_reflect (start_code initial = ScServing)) as [Hc|Hc]; cbn [negb].
  2: { destruct (decide (start_code initial = ScAlreadyStarted)) as [Ha|Ha].
       - intros g _ [_ H]. by destruct (H initial).
       - eapply triple_conseq; [by apply (triple_rollback_from (PhStarting (length all_products) true))| |done].
         by intros g _ [H _]. }
  eapply triple_conseq; [|by intros g _ [H _]; exact H|done].
  eapply triple_throw; [by apply triple_stop_requested|]. intros []; [by apply triple_rollback_from|].
  eapply triple_throw; [apply triple_server_start|]. intros []; cbn [negb];
    [|by apply triple_rollback_from].
  eapply triple_throw; [by apply triple_stop_requested|]. intros []; [by apply triple_rollback_from|].
  eapply (triple_bind _ _ (λ _, standing GwServing PhBound)).
  { by apply (triple_set_state _ _ PhBound); [|by intros g (_ & ? & _)| |]. }
  intros []. apply triple_ret. by intros g _ Hs.
Qed.

(** *** The calls as a whole *)

(** Where the gateway is when nobody holds the lock. *)
Definition resting g : Prop :=
  standing GwConstructed (PhStarting 0 true) g ∨ standing GwServing PhBound g
  ∨ standing GwStopped PhDown g.

Lemma resting_stable : stable log_ok undisturbed resting.
Proof.
  intros g g' Hi Hi' H Hr. unfold resting in *.
  destruct H as [H|[H|H]]; [left|right; left|right; right];
    exact (standing_stable _ _ g g' Hi Hi' H Hr).
Qed.

(** What [start] promises when it returns. *)
Definition start_returned (r : outcome (option GatewayStartResult)) g : Prop :=
  match r with
  | Returned (Some r) =>
      if bool_decide (start_code r = ScServing) then standing GwServing PhBound g
      else if bool_decide (start_code r = ScAlreadyStarted)
      then standing GwServing PhBound g ∨ standing GwStopped PhDown g
      else standing GwStopped PhDown g
  | Returned None => unfinished GwStarting g
  | Threw => standing GwStopped PhDown g
  end.

Lemma triple_gateway_start :
  triple resting (gateway_start timeout listen_address fuel) start_returned.
Proof.
  unfold gateway_start.
  eapply (triple_bind _ _ (λ first, if first : bool then standing GwStarting (PhStarting 0 true)
                                    else λ g, standing GwServing PhBound g ∨ standing GwStopped PhDown g)).
  { apply triple_atomically; [apply resting_stable|]. intros g Hi H. unfold start_begin.
    destruct H as [(Hs & Hp & _)|[H|H]].
    - rewrite Hs, bool_decide_eq_true_2 by done.
      assert (H : standing GwStarting (PhStarting 0 true) (g <| gateway_state := GwStarting |>)) by done.
      split; [exact (standing_ok _ _ _ H)|done].
    - rewrite (proj1 H), bool_decide_eq_false_2 by done. split; [done|]. by left.
    - rewrite (proj1 H), bool_decide_eq_false_2 by done. split; [done|]. by right. }
  intros []; cbn [negb]; [|by apply triple_ret].
  eapply triple_bind; [apply triple_start_body|]. intros [r|].
  - apply triple_ret. intros g _ H. destruct r as [r|]; [|done]. simpl in *.
    destruct (bool_decide (start_code r = ScServing)); [done|]. destruct H as [Ha H].
    by rewrite bool_decide_eq_false_2.
  - unfold rollback_and_rethrow, rollback. eapply triple_bind; [apply triple_finish|]. intros [].
    by apply triple_ret.
Qed.

Lemma triple_gateway_stop : triple resting gateway_stop (λ _, standing GwStopped PhDown).
Proof.
  unfold gateway_stop.
  eapply (triple_bind _ _ (λ proceed, if proceed : bool then unfinished GwStopping
                                      else standing GwStopped PhDown)).
  { apply triple_atomically; [apply resting_stable|]. intros g Hi H. unfold stop_enter.
    destruct (decide (gateway_state g = GwStopped)) as [Hst|Hst].
    - rewrite bool_decide_eq_true_2 by done. split; [done|].
      by destruct H as [(Hs & _)|[(Hs & _)|H]]; [congruence..|].
    - rewrite bool_decide_eq_false_2 by done.
      assert (H' : unfinished GwStopping (g <| gateway_state := GwStopping |>)).
      { destruct H as [(_ & Hp & _)|[(_ & Hp & _)|(Hs & _)]]; [|exists PhBound; by split|done].
        exists (PhStarting 0 true). by split. }
      split; [|done]. destruct H' as (phase & H' & _). exact (standing_ok _ _ _ H'). }
  intros []; cbn [negb]; [|by apply triple_ret].
  eapply triple_bind; [apply triple_shutdown_graph|]. intros [].
  apply (triple_set_state _ _ PhDown); [done|by intros g (_ & ? & _)|done|done].
Qed.

(** *** Every reachable state *)

Definition system_ok (w : State * Holder) : Prop :=
  log_ok (fst w) ∧
  match snd w with
  | Nobody => resting (fst w)
  | InStart p => ∃ g0, undisturbed g0 (fst w) ∧
      safe log_ok undisturbed p (λ r g, log_ok g ∧ start_returned r g) g0
  | InStop p => ∃ g0, undisturbed g0 (fst w) ∧
      safe log_ok undisturbed p (λ _ g, log_ok g ∧ standing GwStopped PhDown g) g0
  end.

Lemma standing_undisturbed st phase g g' :
  undisturbed g g' → standing st phase g → standing st phase g'.
Proof. intros [H1 H2] (Hs & Hp & Hc). unfold standing; split_all; [congruence|by rewrite H2|done]. Qed.

Lemma unfinished_undisturbed st g g' : undisturbed g g' → unfinished st g → unfinished st g'.
Proof. intros Hr (phase & H & Hp). exists phase. split; [by eapply standing_undisturbed|done]. Qed.

Lemma start_returned_undisturbed r g g' :
  undisturbed g g' → start_returned r g → start_returned r g'.
Proof.
  intros Hr. destruct r as [[r|]|]; simpl.
  - destruct (bool_decide _); [by apply standing_undisturbed|].
    destruct (bool_decide _); [|by apply standing_undisturbed].
    by intros [H|H]; [left|right]; eapply standing_undisturbed.
  - by apply unfinished_undisturbed.
  - by apply standing_undisturbed.
Qed.

Lemma log_ok_undisturbed g g' : undisturbed g g' → log_ok g → log_ok g'.
Proof. intros [H1 H2] (phase & Hp & Hc). exists phase. by rewrite H1, H2. Qed.

Lemma resting_undisturbed g g' : undisturbed g g' → resting g → resting g'.
Proof.
  intros Hr [H|[H|H]]; [left|right; left|right; right]; by eapply standing_undisturbed.
Qed.

Lemma start_returned_resting r g : r ≠ Returned None → start_returned r g → resting g.
Proof.
  intros Hne. unfold resting. destruct r as [[r|]|]; simpl; [|done|by right; right].
  destruct (bool_decide _); [by right; left|]. destruct (bool_decide _); [|by right; right].
  intros [H|H]; [by right; left|by right; right].
Qed.

Lemma lifecycle_step_ok w w' : system_ok w → lifecycle_step w w' → system_ok w'.
Proof.
  intros [Hi H] Hstep. destruct Hstep; cbn [fst snd] in *.
  - split; [done|]. exists g. split; [done|]. by apply triple_gateway_start.
  - destruct H as (g0 & Hr & Hs). destruct (Hs g Hr Hi) as [Hi' Hs']. split; [done|].
    by exists (f g).
  - destruct H as (g0 & Hr & _ & Hs). split; [done|].
    eapply start_returned_resting; [done|]. by eapply start_returned_undisturbed.
  - split; [done|]. exists (request_stop g). split; [done|]. by apply triple_gateway_stop.
  - destruct H as (g0 & Hr & Hs). destruct (Hs g Hr Hi) as [Hi' Hs']. split; [done|].
    by exists (f g).
  - destruct H as (g0 & Hr & _ & Hs). split; [done|]. right; right.
    by eapply standing_undisturbed.
  - pose proof (others_undisturbed _ _ H0) as Hr.
    split; [by eapply log_ok_undisturbed|]. destruct h as [|p|p]; simpl in *.
    + by eapply resting_undisturbed.
    + destruct H as (g0 & Hr0 & Hs). exists g0. split; [by etrans|done].
    + destruct H as (g0 & Hr0 & Hs). exists g0. split; [by etrans|done].
Qed.

Lemma lifecycle_start_ok w : lifecycle_start w → system_ok w.
Proof.
  destruct w as [g h]. intros (Hs & Hl & Hh). simpl in *. subst h.
  assert (H : standing GwConstructed (PhStarting 0 true) g) by (unfold standing; split_all; [done|by rewrite Hl|done]).
  split; [exact (standing_ok _ _ _ H)|by left].
Qed.

Lemma lifecycle_reachable_ok w0 w : lifecycle_start w0 → star lifecycle_step w0 w → system_ok w.
Proof.
  intros H0 Hstar. eapply (star_invariant lifecycle_step system_ok); [|exact Hstar|].
  - intros w1 w2 H1 Hstep. by eapply lifecycle_step_ok.
  - by apply lifecycle_start_ok.
Qed.

(** C30: However [start], [stop] and [request_stop] are called and interleaved, the gateway
    drives its graph in order: every product is started at most once, in canonical
    order, the server only after all have started, and the server's shutdown and the
    stop of the products happen at most once each, in this order and last; a gateway
    that is serving has a listening server, a stopped one has shut everything down. *)
Theorem gateway_drives_the_graph_in_order w0 w :
  lifecycle_start w0 → star lifecycle_step w0 w →
  ∃ phase, phase_of (call_log (graph (fst w))) = Some phase ∧
    consistent (gateway_state (fst w)) phase.
Proof. intros H0 Hstar. by destruct (lifecycle_reachable_ok _ _ H0 Hstar). Qed.

(** C31: A call of [start] that returns has either left everything running and reports
    [Serving], or reports another code or an exception and has shut everything down
    again; only a repeated call changes nothing. *)
Theorem gateway_start_is_all_or_nothing w0 g r :
  lifecycle_start w0 → star lifecycle_step w0 (g, InStart (Done r)) → start_returned r g.
Proof.
  intros H0 Hstar. destruct (lifecycle_reachable_ok _ _ H0 Hstar) as [_ (g0 & Hr & _ & Hs)].
  by eapply start_returned_undisturbed.
Qed.
End Interleaving.

(** ** The start ends *)

Section Deadline.
Context `{A : AddressLibrary} `{L : ProjectionLibrary} {S : Type} `{GW : !GatewayWorld S}.
Context (ticks : S → Z).
Implicit Types (g : Gateway S).

(** A steady clock, which shows [ticks] and moves on with every reading. *)
Record steady : Prop := {
  st_shows : ∀ s t, snd (gw_startup_now s) = Returned t → t = ticks s;
  st_advances : ∀ s, (ticks s < ticks (fst (gw_startup_now s)))%Z;
  st_start : ∀ key s, (ticks s <= ticks (fst (gw_start_product key s)))%Z;
  st_recovery : ∀ key s, (ticks s <= ticks (fst (gw_observe_recovery key s)))%Z;
  st_runtime : ∀ key s, (ticks s <= ticks (fst (gw_observe_runtime key s)))%Z;
  st_stop : ∀ s, (ticks s <= ticks (fst (gw_external_stop s)))%Z
}.
Context (Hclock : steady).

(** The others may do anything, but not set the clock back. *)
Definition forward g g' : Prop := (ticks (graph g) <= ticks (graph g'))%Z.

Definition past (t : Z) g : Prop := (t <= ticks (graph g))%Z.

Abbreviation triple := (triple (λ _ : Gateway S, True) forward).

Lemma past_stable t : stable (λ _ : Gateway S, True) forward (past t).
Proof. intros g g' _ _ H Hr. unfold past, forward in *. lia. Qed.
Hint Resolve past_stable : core.

Lemma triple_forward {B} t (f : S → S * B) :
  (∀ s, (ticks s <= ticks (fst (f s)))%Z) →
  triple (past t) (gateway_call f) (λ _, past t).
Proof.
  intros Hf. apply triple_atomically; [done|]. intros g _ H. split; [done|]. unfold past in *.
  simpl. specialize (Hf (graph g)). lia.
Qed.

Lemma triple_forward_throw {B} t (f : S → S * outcome B) :
  (∀ s, (ticks s <= ticks (fst (f s)))%Z) →
  triple (past t) (gateway_call f) (either (λ _, past t) (λ _, True)).
Proof.
  intros Hf. eapply triple_conseq; [by apply (triple_forward t)|done|]. by intros [].
Qed.

Lemma triple_requested t :
  triple (past t) stop_requested (either (λ _, past t) (λ _, True)).
Proof.
  apply (triple_bind _ _ (λ _, past t)); [by apply triple_read|]. intros [].
  - by apply triple_ret.
  - apply triple_forward_throw, (st_stop Hclock).
Qed.

Lemma triple_observed t key :
  triple (past t) (observe_product key) (either (λ _, past t) (λ _, True)).
Proof.
  eapply triple_throw; [apply triple_forward_throw, (st_recovery Hclock)|]. intros recovery.
  eapply triple_throw; [apply triple_forward_throw, (st_runtime Hclock)|]. intros runtime.
  by apply triple_ret.
Qed.

Lemma triple_failure_search t products :
  triple (past t) (find_initial_failure products) (either (λ _, past t) (λ _, True)).
Proof.
  induction products as [|key products IH]; cbn [find_initial_failure]; [by apply triple_ret|].
  eapply triple_throw; [apply triple_observed|]. intros observed.
  destruct (initial_failure _ _); [by apply triple_ret|done].
Qed.

Lemma triple_live_search t products :
  triple (past t) (all_initially_live products) (either (λ _, past t) (λ _, True)).
Proof.
  induction products as [|key products IH]; cbn [all_initially_live]; [by apply triple_ret|].
  eapply triple_throw; [apply triple_observed|]. intros observed.
  destruct (initial_live _ _); [done|by apply triple_ret].
Qed.

(** A reading, which is not before [t], and after which the clock has moved on. *)
Lemma triple_now t :
  triple (past t) (gateway_call gw_startup_now)
    (either (λ now g, (t <= now)%Z ∧ past (now + 1) g) (λ _, True)).
Proof.
  apply triple_atomically; [done|]. intros g _ H. split; [done|].
  pose proof (st_advances Hclock (graph g)) as Ha.
  pose proof (st_shows Hclock (graph g)) as Hs. unfold past in *. simpl.
  destruct (snd (gw_startup_now (graph g))) as [now|]; simpl; [|lia].
  rewrite (Hs now eq_refl). lia.
Qed.

Definition answered {B} (r : outcome (option B)) : Prop := r ≠ Returned None.

Lemma either_answered {B} (E : Gateway S → Prop) (r : outcome (option B)) g :
  either (λ r _, r ≠ None) E r g → answered r.
Proof. destruct r as [r|]; [|done]. simpl. unfold answered. congruence. Qed.

(** Every round takes the clock one tick closer to the deadline. *)
Lemma triple_wait_ends deadline n t :
  (deadline < t + Z.of_nat n)%Z → n ≠ 0 →
  triple (past t) (wait_for_initial_live deadline n) (either (λ r _, r ≠ None) (λ _, True)).
Proof.
  revert t. induction n as [|n IH]; intros t Hn Hpos; [done|]. cbn [wait_for_initial_live].
  eapply triple_throw; [apply (triple_requested t)|].
  intros []; [by apply triple_ret|].
  eapply triple_throw; [apply (triple_failure_search t)|].
  intros [key|]; [by apply triple_ret|].
  eapply triple_throw; [apply (triple_live_search t)|].
  intros live.
  eapply triple_throw; [apply (triple_now t)|].
  intros now. destruct (Z.leb_spec deadline now) as [Hd|Hd]; [by apply triple_ret|].
  destruct live; [by apply triple_ret|].
  intros g Hi [Ht Hp]. apply (IH (now + 1)%Z); [lia|lia|done|done].
Qed.

Lemma triple_start_results t products results :
  triple (past t) (start_products products results) (either (λ _, past t) (λ _, True)).
Proof.
  revert results. induction products as [|key products IH]; intros results;
    cbn [start_products]; [by apply triple_ret|].
  eapply triple_throw; [apply triple_forward_throw, (st_start Hclock)|]. intros r. apply IH.
Qed.

(** What a program answers in whatever states it runs. *)
Lemma triple_always {B} P (p : prog (Gateway S) B) (V : B → Prop) :
  promises (λ _, True) p V → triple P p (λ b _, V b).
Proof.
  intros Hp g _ _. revert g. induction p as [b|f k IH]; intros g; simpl in *; [done|].
  intros g' _ _. destruct (Hp g' I) as [_ Hk]. split; [done|by apply IH].
Qed.

Lemma promises_any {B} (p : prog (Gateway S) B) : promises (λ _, True) p (λ _, True).
Proof. induction p as [b|f k IH]; simpl; [done|]. intros g _. by split. Qed.

Lemma promises_throw {B C} (p : prog (Gateway S) (outcome B))
  (k : B → prog (Gateway S) (outcome (option C))) :
  (∀ b, promises (λ _, True) (k b) answered) →
  promises (λ _, True) (let! b := p in k b) answered.
Proof.
  intros Hk. unfold bind_throw. eapply promises_bind; [apply promises_any|].
  intros [b|] _; [apply Hk|done].
Qed.

Lemma rolled_back_answers code product :
  promises (λ _ : Gateway S, True) (rolled_back code product) answered.
Proof. by repeat split. Qed.

Lemma triple_body_ends timeout listen_address fuel t :
  (0 < timeout <= Z.of_nat fuel)%Z →
  triple (past t) (start_body timeout listen_address fuel) (λ r _, answered r).
Proof.
  intros Hf. unfold start_body.
  assert (Hstop : ∀ (k : bool → prog (Gateway S) (outcome (option GatewayStartResult))) t Q,
    (∀ b, triple (past t) (k b) Q) → (∀ g, Q Threw g) →
    triple (past t) (let! b := stop_requested in k b) Q).
  { intros k t0 Q Hk HQ. unfold bind_throw. eapply triple_bind; [apply triple_requested|].
    intros [b|]; [apply Hk|]. by apply triple_ret. }
  apply Hstop; [|done]. intros []; [apply triple_always, rolled_back_answers|].
  unfold bind_throw at 1. eapply triple_bind; [apply triple_now|]. intros [now|]; [|by apply triple_ret].
  unfold bind_throw at 1.
  eapply (triple_bind _ _ (either (λ _, past (now + 1)) (λ _, True))).
  { eapply triple_conseq; [apply triple_start_results|by intros g _ [_ H]|done]. }
  intros [starts|]; [|by apply triple_ret].
  destruct (first_not_started starts) as [key|]; [apply triple_always, rolled_back_answers|].
  unfold bind_throw at 1. eapply triple_bind; [apply triple_wait_ends; lia|].
  intros [[initial|]|]; [|by intros g _ []|by apply triple_ret].
  destruct (negb _); [apply triple_always, rolled_back_answers|].
  apply triple_always, promises_throw. intros []; [apply rolled_back_answers|].
  apply promises_throw. intros []; cbn [negb]; [|apply rolled_back_answers].
  apply promises_throw. intros []; [apply rolled_back_answers|]. by repeat split.
Qed.

(** C32: While the clock advances, [start] always ends with an answer: its wait for the
    first synchronization gives up at the deadline, after at most as many rounds as the
    timeout has clock ticks, whatever the products and the callers of [request_stop] do
    meanwhile. *)
Theorem gateway_start_ends timeout listen_address fuel g g' r :
  (0 < timeout <= Z.of_nat fuel)%Z →
  star (interleave forward) (g, gateway_start timeout listen_address fuel) (g', Done r) →
  r ≠ Returned None.
Proof.
  intros Hf Hstar.
  destruct (safe_interleaved (λ _, True) forward (gateway_start timeout listen_address fuel)
    (Done r) (λ r _, True ∧ answered r) g g') as [_ (g0 & _ & _ & H)]; try done.
  - intros g1. unfold forward. lia.
  - intros g1 g2 g3. unfold forward. lia.
  - assert (Hs : triple (past (ticks (graph g))) (gateway_start timeout listen_address fuel)
              (λ r _, answered r)).
    { unfold gateway_start. eapply (triple_bind _ _ (λ _, past (ticks (graph g)))).
      { apply triple_atomically; [done|]. intros g1 _ H. split; [done|].
        unfold start_begin. by case_match. }
      intros []; cbn [negb]; [|by apply triple_ret].
      eapply triple_bind; [by apply triple_body_ends|]. intros [r1|].
      - by apply triple_ret.
      - apply triple_always. by repeat split. }
    apply (Hs g I). unfold past. lia.
Qed.
End Deadline.

(** ** Witness: one product that is live at once *)

Section Sample.
#[local] Existing Instance sample_enums.
#[local] Existing Instance SampleProjection.library.

Definition sample_live_recovery : RecoveryObservation :=
  initial_recovery_observation <| ro_state := RyLive |> <| ro_connection_generation := 1%Z |>
    <| ro_active_transport_count := 1 |>.

Definition sample_live_runtime : RuntimeObservation :=
  Impl.initial_observation (MkRuntimeLimits 4 4 (MkPublicationLimits 1 1 1))
    <| obs_state := RsLive |> <| obs_projection_status := Synchronized |>
    <| obs_owner_thread_id := owner_thread |>.

(** The state is the clock. *)
Definition sample_world : GatewayWorld Z := {|
  gw_products := [spot_btcusdt_key];
  gw_start_product _ s := (s, Returned RtStarted);
  gw_observe_recovery _ s := (s, Returned (Some sample_live_recovery));
  gw_observe_runtime _ s := (s, Returned (Some sample_live_runtime));
  gw_observe_events _ s := (s, MkEventPublicationObservation EsClosed None 0);
  gw_startup_now s := ((s + 1)%Z, Returned s);
  gw_external_stop s := (s, Returned false);
  gw_server_start _ s := (s, Returned true);
  gw_server_shutdown s := s;
  gw_stop_products s := s;
  gw_selected_port _ := 50051%Z;
  gw_tracked_contexts _ := 0 |}.
#[local] Existing Instance sample_world.

Definition sample_gateway : Gateway (Logged Z) := MkGateway GwConstructed false (MkLogged 0%Z []).

Definition sample_run : Gateway (Logged Z) * outcome (option GatewayStartResult) :=
  run (gateway_start 10 "127.0.0.1:50051" 10) sample_gateway.

(** A call that runs without the others. *)
Lemma start_alone (p : prog (Gateway (Logged Z)) (outcome (option GatewayStartResult))) g :
  star (lifecycle_step (λ _ _, True) 10 "127.0.0.1:50051" 10) (g, InStart p)
    (fst (run p g), InStart (Done (snd (run p g)))).
Proof.
  revert g. induction p as [r|f k IH]; intros g; [constructor|].
  eapply star_step; [apply ls_start_section|apply IH].
Qed.

Lemma sample_started :
  star (lifecycle_step (λ _ _, True) 10 "127.0.0.1:50051" 10) (sample_gateway, Nobody)
    (fst sample_run, InStart (Done (snd sample_run))).
Proof. eapply star_step; [apply ls_start|apply start_alone]. Qed.

Lemma sample_constructed : lifecycle_start (sample_gateway, Nobody).
Proof. done. Qed.

Lemma gateway_drives_the_graph_in_order_witness :
  gateway_state (fst sample_run) = GwServing ∧
  ∃ phase, graph_phase [spot_btcusdt_key] (call_log (graph (fst sample_run))) = Some phase ∧
    consistent (gateway_state (fst sample_run)) phase.
Proof.
  split; [by vm_compute|].
  exact (gateway_drives_the_graph_in_order (λ _ _, True) 10 "127.0.0.1:50051" 10
           (sample_gateway, Nobody) (fst sample_run, InStart (Done (snd sample_run)))
           sample_constructed sample_started).
Defined.

Lemma gateway_start_is_all_or_nothing_witness :
  snd sample_run = Returned (Some (MkGatewayStartResult ScServing None)) ∧
  start_returned (snd sample_run) (fst sample_run).
Proof.
  split; [by vm_compute|].
  exact (gateway_start_is_all_or_nothing (λ _ _, True) 10 "127.0.0.1:50051" 10
           (sample_gateway, Nobody) (fst sample_run) (snd sample_run)
           sample_constructed sample_started).
Defined.

Lemma sample_steady : steady (λ s : Z, s).
Proof.
  split; simpl.
  - by intros s t [= ->].
  - intros s. lia.
  - intros key s. lia.
  - intros key s. lia.
  - intros key s. lia.
  - intros s. lia.
Qed.

Definition plain_gateway : Gateway Z := MkGateway GwConstructed false 0%Z.

Lemma gateway_start_ends_witness :
  (0 < 10 <= Z.of_nat 10)%Z ∧
  snd (run (gateway_start 10 "127.0.0.1:50051" 10) plain_gateway) ≠ Returned None.
Proof.
  split; [lia|].
  apply (gateway_start_ends (λ s : Z, s) sample_steady 10 "127.0.0.1:50051" 10 plain_gateway
           (fst (run (gateway_start 10 "127.0.0.1:50051" 10) plain_gateway))); [lia|].
  exact (run_interleaved _ (gateway_start 10 "127.0.0.1:50051" 10) plain_gateway).
Defined.
End Sample.
