(* ===== verification/Diagnostics.v ===== *)
(** * Diagnostics: the log lines of the daemon

    Models the text output of [src/src/production/daemon_runtime.cpp]: the names of the
    enumerators, the escaping of texts that come from the network, the line written for
    each retained failure and the totals of a shutdown.  The names of the Protobuf
    enumerators and the contents of the adapter's errors and gaps belong to libraries
    ([DiagnosticLibrary]); the enumerations of those libraries are those the switch
    statements list.

    [write_escaped_roundtrip]: an escaped text can be read back.
    [failures_are_printable_lines]: whatever the network sent, a failure is one line. *)

From Stdlib Require Import Ascii.
From S2P Require Import Prelude Ring Wire Text Session OrderBookPublication Programs Projection.
From S2P Require Import EventPublication MarketRuntime Recovery Registry GrpcRequests.
From S2P Require Import GatewayLifecycle.

Open Scope gateway_scope.

(** ** Names *)

Definition cause_name (value : RecoveryCause) : string :=
  match value with
  | RcNeedsResync => "needs-resync"
  | RcTransportFailure => "transport-failure"
  | RcSnapshotFailure => "snapshot-failure"
  | RcIngressOverflow => "ingress-overflow"
  | RcBootstrapBufferOverflow => "bootstrap-buffer-overflow"
  | RcProtocol => "protocol"
  | RcServerShutdown => "server-shutdown"
  | RcHttp429 => "http-429"
  | RcHttp418 => "http-418"
  | RcHttp5xx => "http-5xx"
  | RcTerminalHttp4xx => "terminal-http-4xx"
  | RcInternalFailure => "internal-failure"
  end.

Definition network_error_name (value : NetworkErrorCode) : string :=
  match value with
  | NeTimeout => "timeout"
  | NeDns => "dns"
  | NeTcp => "tcp"
  | NeTls => "tls"
  | NeWebSocketHandshake => "websocket-handshake"
  | NeWebSocketRead => "websocket-read"
  | NeHttpWrite => "http-write"
  | NeHttpRead => "http-read"
  | NeHttpStatus => "http-status"
  | NeProtocol => "protocol"
  | NeRuntimeAdmission => "runtime-admission"
  | NeServerShutdown => "server-shutdown"
  | NeInternal => "internal"
  end.

Definition runtime_state_name (value : RuntimeState) : string :=
  match value with
  | RsConstructed => "constructed"
  | RsBuffering => "buffering"
  | RsAwaitingBridge => "awaiting-bridge"
  | RsLive => "live"
  | RsNeedsResync => "needs-resync"
  | RsFaulted => "faulted"
  | RsStopping => "stopping"
  | RsStopped => "stopped"
  end.

Definition fault_reason_name (value : FaultReason) : string :=
  match value with
  | IngressOverflow => "ingress-overflow"
  | BootstrapBufferOverflow => "bootstrap-buffer-overflow"
  | FrAdapterError => "adapter-error"
  | TransportFailure => "transport-failure"
  | SnapshotFailure => "snapshot-failure"
  | ProjectionRejected => "projection-rejected"
  | FrClockError => "clock-error"
  | FrInternalError => "internal-error"
  end.

Definition projection_status_name (value : ProjectionStatus) : string :=
  match value with
  | AwaitingBaseline => "awaiting-baseline"
  | PsAwaitingBridge => "awaiting-bridge"
  | Synchronized => "synchronized"
  | PsNeedsResync => "needs-resync"
  end.

Inductive GapReason : Type :=
| SpotBootstrapForwardGap
| SpotLiveForwardGap
| FuturesBootstrapRangeMiss
| FuturesMissingPreviousFinal
| FuturesPreviousFinalMismatch.

Definition gap_reason_name (value : GapReason) : string :=
  match value with
  | SpotBootstrapForwardGap => "spot-bootstrap-forward-gap"
  | SpotLiveForwardGap => "spot-live-forward-gap"
  | FuturesBootstrapRangeMiss => "futures-bootstrap-range-miss"
  | FuturesMissingPreviousFinal => "futures-missing-previous-final"
  | FuturesPreviousFinalMismatch => "futures-previous-final-mismatch"
  end.

Definition policy_name (value : SequencePolicyKind) : string :=
  match value with
  | SpkSpot => "spot"
  | SpkUsdMPerpetual => "usdm-perpetual"
  end.

Inductive AdapterErrorCode : Type :=
| AeUnsupportedVenue
| AeUnsupportedMarket
| AeUnexpectedStream
| AeIdentityMismatch
| AeUnsupportedSchemaVersion
| AeUnspecifiedEnum
| AeUnknownEnumValue
| AeInvalidUpdateRange
| AeMissingRequiredField
| AeInvalidIdentifier
| AeInvalidDecimal
| AeNegativeQuantity
| AeNonPositivePrice
| AeScaleMismatch
| AeNumericOverflow
| AeInvalidDepthLimit
| AeInvalidOrdering
| AeUnsupportedProjectionState
| AeMissingLastUpdateId
| AeInvalidGapContext
| AeInvalidHostQualityCombination
| AeContractsVersionMismatch
| AeProjectionNumericSpecMismatch
| AeProjectionPolicyMismatch.

Definition adapter_error_name (value : AdapterErrorCode) : string :=
  match value with
  | AeUnsupportedVenue => "unsupported-venue"
  | AeUnsupportedMarket => "unsupported-market"
  | AeUnexpectedStream => "unexpected-stream"
  | AeIdentityMismatch => "identity-mismatch"
  | AeUnsupportedSchemaVersion => "unsupported-schema-version"
  | AeUnspecifiedEnum => "unspecified-enum"
  | AeUnknownEnumValue => "unknown-enum-value"
  | AeInvalidUpdateRange => "invalid-update-range"
  | AeMissingRequiredField => "missing-required-field"
  | AeInvalidIdentifier => "invalid-identifier"
  | AeInvalidDecimal => "invalid-decimal"
  | AeNegativeQuantity => "negative-quantity"
  | AeNonPositivePrice => "non-positive-price"
  | AeScaleMismatch => "scale-mismatch"
  | AeNumericOverflow => "numeric-overflow"
  | AeInvalidDepthLimit => "invalid-depth-limit"
  | AeInvalidOrdering => "invalid-ordering"
  | AeUnsupportedProjectionState => "unsupported-projection-state"
  | AeMissingLastUpdateId => "missing-last-update-id"
  | AeInvalidGapContext => "invalid-gap-context"
  | AeInvalidHostQualityCombination => "invalid-host-quality-combination"
  | AeContractsVersionMismatch => "contracts-version-mismatch"
  | AeProjectionNumericSpecMismatch => "projection-numeric-spec-mismatch"
  | AeProjectionPolicyMismatch => "projection-policy-mismatch"
  end.

Inductive AdapterField : Type :=
| AfNone
| AfVenue
| AfMarket
| AfStream
| AfSymbol
| AfSchemaVersion
| AfProducer
| AfProducerVersion
| AfRequestId
| AfConnectionId
| AfFirstUpdateId
| AfFinalUpdateId
| AfPreviousFinalUpdateId
| AfBidPrice
| AfBidQuantity
| AfAskPrice
| AfAskQuantity
| AfQualityFlag
| AfProjectionPriceScale
| AfProjectionQuantityScale
| AfProjectionPolicy
| AfDepthLimit
| AfSnapshotSource
| AfLastUpdateId
| AfCurrentGap
| AfGapRecoveryState
| AfHostQualityFact.

Definition adapter_field_name (value : AdapterField) : string :=
  match value with
  | AfNone => "none"
  | AfVenue => "venue"
  | AfMarket => "market"
  | AfStream => "stream"
  | AfSymbol => "symbol"
  | AfSchemaVersion => "schema-version"
  | AfProducer => "producer"
  | AfProducerVersion => "producer-version"
  | AfRequestId => "request-id"
  | AfConnectionId => "connection-id"
  | AfFirstUpdateId => "first-update-id"
  | AfFinalUpdateId => "final-update-id"
  | AfPreviousFinalUpdateId => "previous-final-update-id"
  | AfBidPrice => "bid-price"
  | AfBidQuantity => "bid-quantity"
  | AfAskPrice => "ask-price"
  | AfAskQuantity => "ask-quantity"
  | AfQualityFlag => "quality-flag"
  | AfProjectionPriceScale => "projection-price-scale"
  | AfProjectionQuantityScale => "projection-quantity-scale"
  | AfProjectionPolicy => "projection-policy"
  | AfDepthLimit => "depth-limit"
  | AfSnapshotSource => "snapshot-source"
  | AfLastUpdateId => "last-update-id"
  | AfCurrentGap => "current-gap"
  | AfGapRecoveryState => "gap-recovery-state"
  | AfHostQualityFact => "host-quality-fact"
  end.

(** What the lines read from the libraries' types. *)
Class DiagnosticLibrary `{L : ProjectionLibrary} : Type := {
  venue_name : Z → string;
  market_name : Z → string;
  adapter_code : AdapterError → AdapterErrorCode;
  adapter_field : AdapterError → AdapterField;
  (** the text of the decimal error and its offset *)
  adapter_decimal_error : AdapterError → option (string * Z);
  adapter_raw_enum : AdapterError → option Z;
  gap_reason : GapInfo → GapReason;
  gap_policy : GapInfo → SequencePolicyKind;
  gap_last_accepted_final : GapInfo → Z;
  gap_incoming_first : GapInfo → Z;
  gap_incoming_final : GapInfo → Z;
  gap_incoming_previous_final : GapInfo → option Z
}.

(** ** Escaping *)

Definition kRecoveryDiagnosticStringLimit : nat := 256.

Definition quote : ascii := "034"%char.
Definition backslash : ascii := "\"%char.
Definition newline : ascii := "010"%char.

(** [hex[value]] *)
Definition hex_digit (value : Z) : ascii :=
  default "0"%char (String.get (Z.to_nat value) "0123456789ABCDEF").

(** One iteration of [write_escaped]. *)
Definition escape_char (c : ascii) : string :=
  let byte := code c in
  if bool_decide (c = backslash) then String backslash (String backslash EmptyString)
  else if bool_decide (c = quote) then String backslash (String quote EmptyString)
  else if bool_decide (c = newline) then String backslash (String "n"%char EmptyString)
  else if bool_decide (c = "013"%char) then String backslash (String "r"%char EmptyString)
  else if bool_decide (c = "009"%char) then String backslash (String "t"%char EmptyString)
  else if (0x20 <=? byte)%Z && (byte <=? 0x7E)%Z then String c EmptyString
  else String backslash (String "x"%char
         (String (hex_digit (Z.shiftr byte 4)) (String (hex_digit (Z.land byte 0x0F)) EmptyString))).

Fixpoint escape (value : string) : string :=
  match value with
  | EmptyString => EmptyString
  | String c rest => escape_char c +:+ escape rest
  end.

Definition write_escaped (value : string) : string :=
  String quote (escape (take_string kRecoveryDiagnosticStringLimit value)
                +:+ String quote EmptyString).

(** ** Lines *)

Definition yes_no (b : bool) : string := if b then "yes" else "no".

(** A text and the mark of its truncation: [size] compared with the limit. *)
Definition write_bounded_string (name value : string) : string :=
  " " +:+ name +:+ "=" +:+ write_escaped value +:+ " " +:+ name +:+ "_truncated="
  +:+ yes_no (bool_decide (kRecoveryDiagnosticStringLimit < String.length value)).

Definition write_absent_string (name : string) : string :=
  " " +:+ name +:+ "=none " +:+ name +:+ "_truncated=no".

(** [output << *value], or [none]. *)
Definition number_or_none (value : option Z) : string :=
  match value with Some n => pretty n | None => "none" end.

Section Lines.
Context `{L : ProjectionLibrary} `{D : !DiagnosticLibrary}.

Definition network_part (error : option NetworkError) : string :=
  match error with
  | Some error =>
      " network_error_code=" +:+ network_error_name (ne_code error)
      +:+ write_bounded_string "network_stage" (ne_stage error)
      +:+ write_bounded_string "network_message" (ne_message error)
      +:+ " network_http_status=" +:+ number_or_none (ne_http_status error)
      +:+ match ne_retry_after error with
          | Some text => write_bounded_string "network_retry_after" text
          | None => write_absent_string "network_retry_after"
          end
  | None =>
      " network_error_code=none" +:+ write_absent_string "network_stage"
      +:+ write_absent_string "network_message" +:+ " network_http_status=none"
      +:+ write_absent_string "network_retry_after"
  end.

Definition adapter_part (error : option AdapterError) : string :=
  match error with
  | Some error =>
      " adapter_error_code=" +:+ adapter_error_name (adapter_code error)
      +:+ " adapter_error_field=" +:+ adapter_field_name (adapter_field error)
      +:+ " adapter_decimal_error="
      +:+ match adapter_decimal_error error with
          | Some (text, offset) => text +:+ " adapter_decimal_offset=" +:+ pretty offset
          | None => "none adapter_decimal_offset=none"
          end
      +:+ " adapter_raw_enum=" +:+ number_or_none (adapter_raw_enum error)
  | None =>
      " adapter_error_code=none adapter_error_field=none adapter_decimal_error=none"
      +:+ " adapter_decimal_offset=none adapter_raw_enum=none"
  end.

Definition gap_part (gap : option GapInfo) : string :=
  match gap with
  | Some gap =>
      " gap_reason=" +:+ gap_reason_name (gap_reason gap)
      +:+ " gap_policy=" +:+ policy_name (gap_policy gap)
      +:+ " gap_last_accepted_final=" +:+ pretty (gap_last_accepted_final gap)
      +:+ " gap_incoming_first=" +:+ pretty (gap_incoming_first gap)
      +:+ " gap_incoming_final=" +:+ pretty (gap_incoming_final gap)
      +:+ " gap_incoming_previous_final=" +:+ number_or_none (gap_incoming_previous_final gap)
  | None =>
      " gap_reason=none gap_policy=none gap_last_accepted_final=none gap_incoming_first=none"
      +:+ " gap_incoming_final=none gap_incoming_previous_final=none"
  end.

Definition write_failure (key : MarketKey) (index : nat) (failure : RecoveryFailureDiagnostic)
  : string :=
  "gateway_recovery_failure venue=" +:+ venue_name (key_venue key)
  +:+ " market=" +:+ market_name (key_market key)
  +:+ write_bounded_string "symbol" (key_symbol key)
  +:+ " index=" +:+ pretty (Z.of_nat index)
  +:+ " generation=" +:+ pretty (diag_connection_generation failure)
  +:+ " cause=" +:+ cause_name (diag_cause failure)
  +:+ " runtime_state=" +:+ runtime_state_name (diag_runtime_state failure)
  +:+ " projection_status=" +:+ projection_status_name (diag_projection_status failure)
  +:+ " fault_reason=" +:+ match diag_fault_reason failure with
                           | Some reason => fault_reason_name reason
                           | None => "none"
                           end
  +:+ network_part (diag_network_error failure)
  +:+ adapter_part (diag_adapter_error failure)
  +:+ gap_part (diag_last_gap failure)
  +:+ String newline EmptyString.

(** The loop of [write_product_failures] from [index] on. *)
Fixpoint write_failures (key : MarketKey) (index : nat) (failures : list RecoveryFailureDiagnostic)
  : string :=
  match failures with
  | [] => EmptyString
  | failure :: rest => write_failure key index failure +:+ write_failures key (S index) rest
  end.

Definition write_product_failures (key : MarketKey) (recovery : RecoveryObservation) : string :=
  let size := Nat.min (ro_failure_history_size recovery) (length (ro_failure_history recovery)) in
  write_failures key 0 (take size (ro_failure_history recovery)).

Fixpoint write_recovery_failure_diagnostics (products : list ProductObservation) : string :=
  match products with
  | [] => EmptyString
  | product :: rest =>
      write_product_failures (po_key product) (po_recovery product)
      +:+ write_recovery_failure_diagnostics rest
  end.

Definition write_product_identity (key : MarketKey) : string :=
  " venue=" +:+ venue_name (key_venue key) +:+ " market=" +:+ market_name (key_market key)
  +:+ write_bounded_string "symbol" (key_symbol key).

(** [totals] *)
Record GatewayTotals : Type := MkGatewayTotals {
  total_transports : nat;
  total_subscriptions : nat;
  owners_joined : bool
}.

Definition add_totals (result : GatewayTotals) (product : ProductObservation) : GatewayTotals :=
  MkGatewayTotals
    (total_transports result + ro_active_transport_count (po_recovery product))
    (total_subscriptions result + (obs_resident_subscription_count (po_runtime product)
                                   + obs_active_subscriptions (po_events product)))
    (owners_joined result && obs_owner_joined (po_runtime product)).

Definition totals (products : list ProductObservation) : GatewayTotals :=
  foldl add_totals (MkGatewayTotals 0 0 true) products.
End Lines.

(** ** Reading an escaped text back *)

(** The value of a hexadecimal digit, and a text up to its closing quote with what
    follows it: the reader of the lines. *)
Definition hex_value (c : ascii) : option Z :=
  if (48 <=? code c)%Z && (code c <=? 57)%Z then Some (code c - 48)%Z
  else if (65 <=? code c)%Z && (code c <=? 70)%Z then Some (code c - 55)%Z
  else None.

Definition unescape_char (c : ascii) : option ascii :=
  if bool_decide (c = backslash) then Some backslash
  else if bool_decide (c = quote) then Some quote
  else if bool_decide (c = "n"%char) then Some newline
  else if bool_decide (c = "r"%char) then Some "013"%char
  else if bool_decide (c = "t"%char) then Some "009"%char
  else None.

Definition cons_text (c : ascii) (r : option (string * string)) : option (string * string) :=
  prod_map (String c) id <$> r.

Fixpoint read_body (text : string) : option (string * string) :=
  match text with
  | EmptyString => None
  | String c rest =>
      if bool_decide (c = quote) then Some (EmptyString, rest)
      else if bool_decide (c = backslash) then
        match rest with
        | String d after =>
            if bool_decide (d = "x"%char) then
              match after with
              | String h (String l after) =>
                  match hex_value h, hex_value l with
                  | Some high, Some low =>
                      cons_text (ascii_of_nat (Z.to_nat (16 * high + low))) (read_body after)
                  | _, _ => None
                  end
              | _ => None
              end
            else match unescape_char d with
                 | Some c => cons_text c (read_body after)
                 | None => None
                 end
        | EmptyString => None
        end
      else cons_text c (read_body rest)
  end.

Definition read_escaped (text : string) : option (string * string) :=
  match text with
  | String c rest => if bool_decide (c = quote) then read_body rest else None
  | EmptyString => None
  end.

Lemma read_escape_char c text : read_body (escape_char c +:+ text) = cons_text c (read_body text).
Proof. destruct c as [[] [] [] [] [] [] [] []]; reflexivity. Qed.

Lemma read_escape value text :
  read_body (escape value +:+ String quote text) = Some (value, text).
Proof.
  induction value as [|c value IH]; [reflexivity|]. simpl escape.
  rewrite string_app_assoc, read_escape_char, IH. reflexivity.
Qed.

(** An escaped text in a line can be read back whatever it holds and whatever
    follows it: its first 256 bytes come out, and the reader stops after its closing
    quote. *)
Theorem write_escaped_roundtrip (value text : string) :
  read_escaped (write_escaped value +:+ text)
  = Some (take_string kRecoveryDiagnosticStringLimit value, text).
Proof.
  unfold write_escaped.
  change (read_body ((escape (take_string kRecoveryDiagnosticStringLimit value)
    +:+ String quote EmptyString) +:+ text) =
    Some (take_string kRecoveryDiagnosticStringLimit value, text)).
  rewrite string_app_assoc. apply read_escape.
Qed.

(** ** Every failure is one printable line *)

Definition printable (c : ascii) : bool := (0x20 <=? code c)%Z && (code c <=? 0x7E)%Z.

Definition clean (s : string) : Prop := all_chars printable s = true.

Lemma clean_app s t : clean s → clean t → clean (s +:+ t).
Proof. unfold clean. intros Hs Ht. by rewrite all_chars_app, Hs, Ht. Qed.

Lemma clean_cons c s : printable c = true → clean s → clean (String c s).
Proof. unfold clean. intros Hc Hs. simpl. by rewrite Hc, Hs. Qed.

Lemma clean_escape value : clean (escape value).
Proof.
  induction value as [|c value IH]; [reflexivity|]. simpl escape. apply clean_app; [|done].
  destruct c as [[] [] [] [] [] [] [] []]; reflexivity.
Qed.

Lemma clean_weaken p s : (∀ c, p c = true → printable c = true) → all_chars p s = true → clean s.
Proof.
  unfold clean. intros Hp. induction s as [|c s IH]; [done|]. simpl. rewrite andb_true_iff. intros [Hc Hs].
  by rewrite (Hp c Hc), IH.
Qed.

Lemma clean_pretty_N (n : N) : clean (pretty n).
Proof.
  eapply clean_weaken; [|apply pretty_digits].
  intros [[] [] [] [] [] [] [] []]; simpl; try discriminate; reflexivity.
Qed.

Lemma clean_pretty (z : Z) : clean (pretty z).
Proof.
  unfold pretty, pretty_Z. destruct z as [|p|p]; [reflexivity|apply clean_pretty_N|].
  apply clean_app; [reflexivity|apply clean_pretty_N].
Qed.

Lemma clean_number_or_none value : clean (number_or_none value).
Proof. destruct value; [apply clean_pretty|reflexivity]. Qed.

Lemma clean_write_escaped value : clean (write_escaped value).
Proof.
  unfold write_escaped. apply clean_cons; [reflexivity|]. apply clean_app; [|reflexivity].
  apply clean_escape.
Qed.

Create HintDb clean discriminated.
#[local] Hint Resolve clean_app clean_pretty clean_number_or_none clean_write_escaped : clean.
#[local] Hint Extern 2 (clean _) => reflexivity : clean.

(** A text that is a chain of pieces. *)
Ltac clean_pieces := repeat (apply clean_app; [auto with clean|]); auto with clean.

Lemma clean_write_bounded_string name value :
  clean name → clean (write_bounded_string name value).
Proof.
  intros Hn. unfold write_bounded_string, yes_no. clean_pieces. by case_bool_decide.
Qed.

Lemma clean_write_absent_string name : clean name → clean (write_absent_string name).
Proof. intros Hn. unfold write_absent_string. clean_pieces. Qed.
#[local] Hint Resolve clean_write_bounded_string clean_write_absent_string : clean.

(** The names the libraries give are plain. *)
Class DiagnosticNamesOk `{L : ProjectionLibrary} (D : DiagnosticLibrary) : Prop := {
  venue_name_clean z : clean (venue_name z);
  market_name_clean z : clean (market_name z);
  decimal_error_clean error text offset :
    adapter_decimal_error error = Some (text, offset) → clean text
}.

Fixpoint unlines (lines : list string) : string :=
  match lines with
  | [] => EmptyString
  | line :: rest => line +:+ String newline EmptyString +:+ unlines rest
  end.

Lemma unlines_app l k : unlines (l ++ k) = unlines l +:+ unlines k.
Proof.
  induction l as [|a l IH]; [done|]. simpl. by rewrite IH, !string_app_assoc.
Qed.

(** A text that is one line. *)
Definition one_line (text : string) : Prop := ∃ line, clean line ∧ text = unlines [line].

Lemma one_line_app s t : clean s → one_line t → one_line (s +:+ t).
Proof.
  intros Hs (line & Hl & ->). exists (s +:+ line). split; [by apply clean_app|].
  simpl. by rewrite !string_app_assoc.
Qed.

Lemma one_line_end : one_line (String newline EmptyString).
Proof. by exists EmptyString. Qed.

Section OneLine.
Context `{L : ProjectionLibrary} {D : DiagnosticLibrary} `{!DiagnosticNamesOk D}.

Lemma clean_names :
  (∀ v, clean (cause_name v)) ∧ (∀ v, clean (network_error_name v)) ∧
  (∀ v, clean (runtime_state_name v)) ∧ (∀ v, clean (fault_reason_name v)) ∧
  (∀ v, clean (projection_status_name v)) ∧ (∀ v, clean (gap_reason_name v)) ∧
  (∀ v, clean (policy_name v)) ∧ (∀ v, clean (adapter_error_name v)) ∧
  (∀ v, clean (adapter_field_name v)).
Proof. split_and!; by intros []. Qed.

Lemma clean_network_part error : clean (network_part error).
Proof.
  destruct clean_names as (_ & Hn & _). destruct error as [error|]; simpl; [|clean_pieces].
  clean_pieces. destruct (ne_retry_after error); auto with clean.
Qed.

Lemma clean_adapter_part error : clean (adapter_part error).
Proof.
  destruct clean_names as (_ & _ & _ & _ & _ & _ & _ & Hc & Hf).
  destruct error as [error|]; simpl; [|clean_pieces]. clean_pieces.
  destruct (adapter_decimal_error error) as [[text offset]|] eqn:E; [|auto with clean].
  apply clean_app; [by eapply decimal_error_clean|clean_pieces].
Qed.

Lemma clean_gap_part gap : clean (gap_part gap).
Proof.
  destruct clean_names as (_ & _ & _ & _ & _ & Hr & Hp & _).
  destruct gap as [gap|]; simpl; clean_pieces.
Qed.

Lemma write_failure_one_line key index failure : one_line (write_failure key index failure).
Proof.
  destruct clean_names as (Hc & _ & Hr & Hf & Hp & _). unfold write_failure.
  pose proof (venue_name_clean (key_venue key)). pose proof (market_name_clean (key_market key)).
  pose proof (clean_network_part (diag_network_error failure)).
  pose proof (clean_adapter_part (diag_adapter_error failure)).
  pose proof (clean_gap_part (diag_last_gap failure)).
  repeat (apply one_line_app;
          [by destruct (diag_fault_reason failure); auto with clean|]).
  apply one_line_end.
Qed.

Lemma write_failures_lines key index failures : ∃ lines,
  write_failures key index failures = unlines lines ∧ Forall clean lines ∧
  length lines = length failures.
Proof.
  revert index. induction failures as [|failure rest IH]; intros index; [by exists []|].
  destruct (write_failure_one_line key index failure) as (line & Hline & Heq).
  destruct (IH (S index)) as (lines & Hrest & Hclean & Hlen).
  exists (line :: lines). simpl write_failures. rewrite Heq, Hrest. split_and!.
  - simpl. by rewrite !string_app_assoc.
  - by constructor.
  - simpl. by rewrite Hlen.
Qed.

(** The failures a product's observation retains. *)
Definition retained (product : ProductObservation) : nat :=
  Nat.min (ro_failure_history_size (po_recovery product))
          (length (ro_failure_history (po_recovery product))).

(** Whatever the exchange and the configuration sent (symbols, stages, messages,
    Retry-After), the failure report is one line of printable ASCII per retained failure
    and nothing else: no text can forge a line or break one. *)
Theorem failures_are_printable_lines (products : list ProductObservation) : ∃ lines,
  write_recovery_failure_diagnostics products = unlines lines ∧ Forall clean lines ∧
  length lines = sum_list (retained <$> products).
Proof.
  induction products as [|product rest (lines & IH & Hclean & Hlen)]; [by exists []|].
  unfold write_recovery_failure_diagnostics; fold write_recovery_failure_diagnostics.
  unfold write_product_failures.
  edestruct (write_failures_lines (po_key product) 0) as (front & -> & Hfront & Hf).
  exists (front ++ lines). rewrite IH, unlines_app, length_app, Hf, Hlen, length_take.
  split_and!; [done|by apply Forall_app|]. rewrite fmap_cons. cbn [sum_list_with].
  change (id (retained product)) with (retained product). unfold retained at 2. lia.
Qed.
End OneLine.

(** ** A concrete report *)

Section Sample.
#[local] Existing Instance SampleProjection.library.

#[local] Instance sample_diagnostics : DiagnosticLibrary := {|
  venue_name _ := "VENUE_BINANCE";
  market_name _ := "MARKET_SPOT";
  adapter_code _ := AeInvalidDecimal;
  adapter_field _ := AfLastUpdateId;
  adapter_decimal_error error := if error : bool then Some ("syntax", 3%Z) else None;
  adapter_raw_enum _ := None;
  gap_reason _ := SpotLiveForwardGap;
  gap_policy _ := SpkSpot;
  gap_last_accepted_final _ := 7%Z;
  gap_incoming_first _ := 9%Z;
  gap_incoming_final _ := 12%Z;
  gap_incoming_previous_final _ := None |}.

#[local] Instance sample_names : DiagnosticNamesOk sample_diagnostics.
Proof.
  split; [reflexivity..|]. simpl. intros [] text offset; [|discriminate]. by intros [= <- <-].
Qed.

(** A message that holds a line break, a quote and a byte outside ASCII. *)
Definition hostile_failure : RecoveryFailureDiagnostic :=
  MkRecoveryFailureDiagnostic 1 RcTransportFailure
    (Some (MkNetworkError NeWebSocketRead "websocket-read"
       ("closed" +:+ String newline (String quote (String "200"%char EmptyString))) None None))
    RsFaulted AwaitingBaseline None None None.

Definition hostile_product : ProductObservation :=
  MkProductObservation (MkMarketKey 1 1 "BTCUSDT")
    (initial_recovery_observation <| ro_failure_history := [hostile_failure] |>
       <| ro_failure_history_size := 1 |>)
    (Impl.initial_observation (MkRuntimeLimits 4 4 (MkPublicationLimits 1 1 1)))
    (MkEventPublicationObservation EsClosed None 0).

Lemma failures_are_printable_lines_witness : ∃ lines,
  write_recovery_failure_diagnostics [hostile_product] = unlines lines ∧ Forall clean lines ∧
  length lines = 1.
Proof. apply (failures_are_printable_lines [hostile_product]). Defined.

Example hostile_message :
  write_escaped ("closed" +:+ String newline (String quote (String "200"%char EmptyString)))
  = String quote ("closed" +:+ String backslash ("n" +:+ String backslash (String quote
      (String backslash ("xC8" +:+ String quote EmptyString))))).
Proof. reflexivity. Qed.
End Sample.
