(* ===== verification/Daemon.v ===== *)
(** * Daemon: the process around the gateway

    Models [src/src/production/termination_signals.cpp], [run_production_service] of
    [src/src/production/daemon_runtime.cpp] and [main] of [src/app/gatewayd/main.cpp]:
    the latch of the termination signals, the construction of the gateway from the
    resolved products, its start, the wait for a signal, the stop, what is printed and
    the exit code.  The gateway is the one of [GatewayLifecycle], over a world whose
    external stop request is the latch; the constructors are those of [Products] and
    [GrpcService].

    [daemon_leaves_nothing_running]: whatever the products, the signals and the clock do,
    a daemon that ends has shut its graph down, and its exit code says why. *)

From Stdlib Require Import Ascii.
From S2P Require Import Prelude Ring Wire Text Json Session OrderBookPublication Programs.
From S2P Require Import Projection EventPublication MarketRuntime Recovery RecoveryProtocol Config SpotProtocol.
From S2P Require Import UsdmProtocol Routes Registry Metadata GrpcRequests DaemonConfig.
From S2P Require Import GatewayStatus GrpcService Products GatewayLifecycle Diagnostics.

Open Scope gateway_scope.

(** ** Termination signals *)

(** The numbers of the signals. *)
Definition SIGINT : Z := 2.
Definition SIGUSR1 : Z := 10.
Definition SIGTERM : Z := 15.

Record TerminationSignals : Type := MkTerminationSignals {
  requested : bool;
  signal : Z
}.
#[export] Instance TerminationSignals_eta : Eta TerminationSignals :=
  λ s, MkTerminationSignals (requested s) (signal s).
#[export] Instance TerminationSignals_eq_dec : EqDecision TerminationSignals.
Proof. solve_decision. Defined.

Definition no_signal : TerminationSignals := MkTerminationSignals false 0.

(** One round of [loop]: [sigwait] has answered [result] and [received]; [true]: the loop
    goes on. *)
Definition signal_round (result received : Z) (s : TerminationSignals)
  : TerminationSignals * bool :=
  if (result =? 0)%Z && ((received =? SIGINT)%Z || (received =? SIGTERM)%Z)
  then (if requested s then s else MkTerminationSignals true received, true)
  else if (result =? 0)%Z && (received =? SIGUSR1)%Z then (s, true)
  else if negb (result =? 0)%Z then (MkTerminationSignals true (-1), false)
  else (s, true).

(** [loop], on the answers of [sigwait] until the destructor stops the thread. *)
Fixpoint signal_loop (answers : list (Z * Z)) (s : TerminationSignals) : TerminationSignals :=
  match answers with
  | [] => s
  | (result, received) :: rest =>
      let '(s, continue) := signal_round result received s in
      if continue then signal_loop rest s else s
  end.

(** ** What the daemon acts on *)

(** The latch, and the rest of the world of the gateway. *)
Record Signalled (S : Type) : Type := MkSignalled {
  signals : TerminationSignals;
  beyond : S
}.
Arguments MkSignalled {S} _ _.
Arguments signals {S} _.
Arguments beyond {S} _.
#[export] Instance Signalled_eta {S} : Eta (Signalled S) :=
  λ w, MkSignalled (signals w) (beyond w).

(** A world with the latch in it: the world itself, or one that is recorded. *)
Class Latched (T : Type) : Type := {
  latch : T → TerminationSignals;
  set_latch : TerminationSignals → T → T
}.

#[export] Instance signalled_latched {S} : Latched (Signalled S) := {|
  latch := signals;
  set_latch l w := w <| signals := l |> |}.

#[export] Instance logged_latched {T} `{!Latched T} : Latched (Logged T) := {|
  latch t := latch (inside t);
  set_latch l t := MkLogged (set_latch l (inside t)) (call_log t) |}.

Section SignalledWorld.
Context `{L : ProjectionLibrary} {S : Type} `{GW : !GatewayWorld S}.

Definition passed {B} (f : S → S * B) (w : Signalled S) : Signalled S * B :=
  (w <| beyond := fst (f (beyond w)) |>, snd (f (beyond w))).

(** [[&signals] { return signals.requested(); }] *)
#[export] Instance signalled_world : GatewayWorld (Signalled S) := {|
  gw_products := gw_products;
  gw_start_product key := passed (gw_start_product key);
  gw_observe_recovery key := passed (gw_observe_recovery key);
  gw_observe_runtime key := passed (gw_observe_runtime key);
  gw_observe_events key := passed (gw_observe_events key);
  gw_startup_now := passed gw_startup_now;
  gw_external_stop w := (w, Returned (requested (signals w)));
  gw_server_start address := passed (gw_server_start address);
  gw_server_shutdown w := w <| beyond ::= gw_server_shutdown |>;
  gw_stop_products w := w <| beyond ::= gw_stop_products |>;
  gw_selected_port w := gw_selected_port (beyond w);
  gw_tracked_contexts w := gw_tracked_contexts (beyond w)
|}.
End SignalledWorld.

Inductive Stream : Type :=
| Output
| Errors.

#[export] Instance Stream_eq_dec : EqDecision Stream.
Proof. solve_decision. Defined.

(** The gateway (before its construction only its world means anything), and what has
    been printed, in order. *)
Record DaemonState (T : Type) : Type := MkDaemonState {
  gateway : Gateway T;
  printed : list (Stream * string)
}.
Arguments MkDaemonState {T} _ _.
Arguments gateway {T} _.
Arguments printed {T} _.
#[export] Instance DaemonState_eta {T} : Eta (DaemonState T) :=
  λ s, MkDaemonState (gateway s) (printed s).

(** [g7::generate_gateway_instance_id], from four words of the random device. *)
Fixpoint hex_word (digits : nat) (word : Z) : string :=
  match digits with
  | O => EmptyString
  | Datatypes.S digits =>
      String (default "0"%char (String.get (Z.to_nat (Z.land (Z.shiftr word (4 * Z.of_nat digits)) 15))
                                  "0123456789abcdef"))
        (hex_word digits word)
  end.

Definition generate_gateway_instance_id (words : Z * Z * Z * Z) : string :=
  let '(a, b, c, d) := words in
  "gw-" +:+ hex_word 8 a +:+ hex_word 8 b +:+ hex_word 8 c +:+ hex_word 8 d.

(** [GatewayOptions]; [go_startup_now]: the function is set. *)
Record GatewayOptions : Type := MkGatewayOptions {
  go_initial_startup_timeout : Z;
  go_idle_interval : Z;
  go_tracked_context_limit : nat;
  go_allow_ephemeral_listen : bool;
  go_startup_now : bool
}.

(** [GatewayOptions{}]: nanoseconds, and milliseconds for the idle interval. *)
Definition default_gateway_options : GatewayOptions :=
  MkGatewayOptions 60000000000 250 kMaximumGrpcTrackedContexts false true.

(** ** The service *)

Section Service.
Context `{W : WireEnums} `{L : ProjectionLibrary} `{N : NumericLibrary} `{J : JsonLibrary}.
Context `{A : AddressLibrary} `{F : FileSystem} `{E : EventJsonLibrary}.
Context `{PC : !ProjectionConstruction} {X : Type} `{RW : !RecoveryWorld X}.
Context `{D : !DiagnosticLibrary} {T : Type} `{GW : !GatewayWorld T} `{LT : !Latched T}.
(** Where the components of the products are placed, and what their coordinators reach. *)
Context (environment : MarketKey → X) (allocated : nat → Addresses).
(** [BMD_GATEWAY_PERFORMANCE_BASELINE_OUTPUT]; the random device; [error.what()]. *)
Context (baseline_output : option string) (entropy : Z * Z * Z * Z) (what : string).
Abbreviation State := (DaemonState T).
Abbreviation Thread := (prog State).
Implicit Types (s : State).

Definition line (text : string) : string := text +:+ String newline EmptyString.

Definition print (stream : Stream) (text : string) : Thread () :=
  modify (λ s, s <| printed ::= λ l, l ++ [(stream, text)] |>).

Definition on_gateway {B} : prog (Gateway T) B → Thread B :=
  within gateway (λ g s, s <| gateway := g |>).

Definition legacy_performance_composition (market_keys : list MarketKey) : bool :=
  bool_decide (market_keys = [spot_btcusdt_key; usdm_btcusdt_key]).

Definition performance_baseline_preflight (market_keys : list MarketKey) : Thread bool :=
  if bool_decide (default EmptyString baseline_output ≠ EmptyString)
     && negb (legacy_performance_composition market_keys)
  then print Errors (line "performance_baseline_export=unsupported reason=composition") ;;
       mret false
  else mret true.

(** [ProductionGateway::ProductionGateway]: the members, then the checks; [None] is an
    exception. *)
Definition construct_gateway (specifications : list ProductRuntimeSpec) (instance_id : string)
  (listen_address : string) (o : GatewayOptions) (w : T)
  : option (Gateway T) :=
  match make_product_set environment true instance_id allocated specifications with
  | inr _ => None
  | inl set =>
      let products := products_of (X := X) set Threw in
      _ ← make_g11 (publication_id products) (registry set) true instance_id
            (go_idle_interval o) (go_tracked_context_limit o) products;
      make_gateway (go_initial_startup_timeout o) (go_startup_now o) listen_address
        (go_allow_ephemeral_listen o) w
  end.

(** [TerminationSignals::wait], for at most [fuel] wake-ups ([None]: still waiting). *)
Fixpoint wait_signal (fuel : nat) : Thread (option Z) :=
  match fuel with
  | O => mret None
  | Datatypes.S fuel =>
      l ← read (λ s, latch (graph (gateway s)));
      if requested l then mret (Some (signal l)) else wait_signal fuel
  end.

Definition final_counts (final : GatewayObservation) : string :=
  let t := totals (go_products final) in
  " contexts=" +:+ pretty (Z.of_nat (go_tracked_contexts final))
  +:+ " transports=" +:+ pretty (Z.of_nat (total_transports t))
  +:+ " subscriptions=" +:+ pretty (Z.of_nat (total_subscriptions t))
  +:+ " owners_joined=" +:+ yes_no (owners_joined t).

Definition signal_name (received : Z) : string :=
  if (received =? SIGINT)%Z then "SIGINT"
  else if (received =? SIGTERM)%Z then "SIGTERM" else "signal-wait-error".

(** The lines that announce the service, its end and what is left. *)
Definition serving_line (product_count : nat) (serving : GatewayObservation) (instance_id : string)
  : string :=
  "gateway_state=serving products=" +:+ pretty (Z.of_nat product_count)
  +:+ " grpc_port=" +:+ pretty (go_selected_port serving)
  +:+ " context_limit=" +:+ pretty (Z.of_nat (go_context_limit serving))
  +:+ " gateway_instance_id=" +:+ instance_id.

Definition stopping_line (received : Z) : string :=
  "gateway_state=stopping signal=" +:+ signal_name received.

Definition stopped_line (final : GatewayObservation) : string :=
  "gateway_state=stopped" +:+ final_counts final.

(** After a start that did not lead to [Serving]. *)
Definition not_serving (started : GatewayStartResult) : Thread (outcome (option Z)) :=
  let! final := on_gateway gateway_observe in
  if bool_decide (start_code started = ScStopRequested)
  then print Output (line ("gateway_state=stopped startup_result="
                           +:+ start_code_text (start_code started) +:+ final_counts final)) ;;
       mret (Returned (Some 0%Z))
  else print Errors (line ("gateway_start=failed reason=" +:+ start_code_text (start_code started)
                           +:+ match start_product started with
                               | Some key => write_product_identity key
                               | None => EmptyString
                               end)) ;;
       print Errors (write_recovery_failure_diagnostics (go_products final)) ;;
       mret (Returned (Some 1%Z)).

Definition stop_gateway : Thread () := on_gateway (modify request_stop ;; gateway_stop).

Definition serve_until_signal (product_count : nat) (instance_id : string) (fuel : nat)
  : Thread (outcome (option Z)) :=
  let! serving := on_gateway gateway_observe in
  print Output (line (serving_line product_count serving instance_id)) ;;
  received ← wait_signal fuel;
  match received with
  | None => mret (Returned None)
  | Some received =>
      print Output (line (stopping_line received)) ;;
      on_gateway (modify request_stop) ;;
      stop_gateway ;;
      let! final := on_gateway gateway_observe in
      print Errors (write_recovery_failure_diagnostics (go_products final)) ;;
      print Output (line (stopped_line final)) ;;
      mret (Returned (Some (if (received =? -1)%Z then 1%Z else 0%Z)))
  end.

Definition with_gateway (o : GatewayOptions) (listen_address instance_id : string)
  (product_count fuel : nat) : Thread (outcome (option Z)) :=
  let! started := on_gateway (gateway_start (go_initial_startup_timeout o) listen_address fuel) in
  match started with
  | None => mret (Returned None)
  | Some started =>
      if negb (bool_decide (start_code started = ScServing)) then not_serving started
      else serve_until_signal product_count instance_id fuel
  end.

(** [run_production_service]: its exit code, or an exception; [None]: still running.  The
    gateway is destroyed, and so stopped, however the scope is left. *)
Definition run_production_service (config : DaemonConfig)
  (specifications : list ProductRuntimeSpec) (o : GatewayOptions) (fuel : nat)
  : Thread (outcome (option Z)) :=
  ready ← performance_baseline_preflight (daemon_market_keys config);
  if negb ready then mret (Returned (Some 1%Z)) else
  let instance_id := generate_gateway_instance_id entropy in
  let product_count := length specifications in
  print Output (line ("gateway_state=starting stage=runtime products="
                      +:+ pretty (Z.of_nat product_count)
                      +:+ " grpc_listen=" +:+ daemon_grpc_listen config)) ;;
  constructed ← atomically (λ s,
    match construct_gateway specifications instance_id (daemon_grpc_listen config) o
            (graph (gateway s)) with
    | Some g => (s <| gateway := g |>, true)
    | None => (s, false)
    end);
  if negb constructed then mret Threw else
  result ← with_gateway o (daemon_grpc_listen config) instance_id product_count fuel;
  match result with
  | Returned None => mret result
  | _ => stop_gateway ;; mret result
  end.

(** [to_string(MetadataStage)] *)
Definition metadata_stage_text (stage : MetadataStage) : string :=
  match stage with
  | SpotFetch => "spot-fetch"
  | SpotParse => "spot-parse"
  | UsdMFetch => "usdm-fetch"
  | UsdMParse => "usdm-parse"
  end.

Definition print_daemon_usage : string :=
  line "Usage: bmd-gatewayd --config PATH" +:+ line EmptyString
  +:+ line "Loads one strict startup-only JSON configuration file.".

(** The [try] block of [main]; [blocked]: the signals could be blocked and their thread
    started. *)
Definition main_body (config : DaemonConfig) (blocked : bool)
  (fetch : MetadataStage → string + NetworkError) (fuel : nat) : Thread (outcome (option Z)) :=
  ready ← performance_baseline_preflight (daemon_market_keys config);
  if negb ready then mret (Returned (Some 1%Z)) else
  if negb blocked then mret Threw else
  modify (λ s, s <| gateway ::= λ g, g <| graph ::= set_latch no_signal |> |>) ;;
  print Output (line ("gateway_state=starting stage=metadata products="
                      +:+ pretty (Z.of_nat (length (daemon_market_keys config))))) ;;
  match snd (acquire_production_metadata (daemon_market_keys config) fetch) with
  | inr error =>
      print Errors (line ("metadata=failed stage=" +:+ metadata_stage_text (me_stage error)
                          +:+ match me_product error with
                              | Some key => write_product_identity key
                              | None => EmptyString
                              end
                          +:+ " message=" +:+ me_message error)) ;;
      mret (Returned (Some 1%Z))
  | inl products =>
      stop ← read (λ s, requested (latch (graph (gateway s))));
      if stop : bool
      then print Output (line ("gateway_state=stopped startup_result=stop-requested "
                               +:+ "contexts=0 transports=0 subscriptions=0 owners_joined=yes")) ;;
           mret (Returned (Some 0%Z))
      else run_production_service config (make_product_runtime_specs products)
             default_gateway_options fuel
  end.

(** [main]; [None]: still running. *)
Definition main (argv : list string) (blocked : bool)
  (fetch : MetadataStage → string + NetworkError) (fuel : nat) : Thread (option Z) :=
  match parse_daemon_config argv with
  | HelpRequested => print Output print_daemon_usage ;; mret (Some 0%Z)
  | DaemonConfigFailed message =>
      print Errors (line ("configuration_error=" +:+ message)) ;;
      print Errors print_daemon_usage ;;
      mret (Some 2%Z)
  | DaemonConfigured config =>
      result ← main_body config blocked fetch fuel;
      match result with
      | Returned code => mret code
      | Threw => print Errors (line ("gateway_fatal=" +:+ what)) ;; mret (Some 1%Z)
      end
  end.
End Service.

(** ** The latch *)

Section Latch.
Implicit Types (s : TerminationSignals) (answers : list (Z * Z)).

Definition is_termination (answer : Z * Z) : Prop :=
  answer.1 = 0%Z ∧ (answer.2 = SIGINT ∨ answer.2 = SIGTERM).
Definition is_error (answer : Z * Z) : Prop := answer.1 ≠ 0%Z.

#[local] Instance is_termination_dec answer : Decision (is_termination answer).
Proof. unfold is_termination. apply _. Defined.

Lemma signal_round_termination result received s :
  is_termination (result, received) →
  signal_round result received s
  = (if requested s then s else MkTerminationSignals true received, true).
Proof.
  intros [Hr Ht]. cbn [fst snd] in *. subst. unfold signal_round.
  by destruct Ht as [-> | ->].
Qed.

Lemma signal_round_error result received s :
  is_error (result, received) →
  signal_round result received s = (MkTerminationSignals true (-1), false).
Proof. intros H%Z.eqb_neq. cbn [fst] in H. unfold signal_round. by rewrite H. Qed.

Lemma signal_round_other result received s :
  ¬ is_error (result, received) → ¬ is_termination (result, received) →
  signal_round result received s = (s, true).
Proof.
  unfold is_error, is_termination, signal_round. cbn [fst snd]. intros He Ht.
  destruct (Z.eqb_spec result 0) as [Hr|]; [|done]. cbn [andb negb].
  destruct (Z.eqb_spec received SIGINT); [tauto|]. destruct (Z.eqb_spec received SIGTERM); [tauto|].
  by destruct (received =? SIGUSR1)%Z.
Qed.

Lemma signal_round_requested result received s :
  requested s = true → requested (fst (signal_round result received s)) = true.
Proof. intros H. unfold signal_round. repeat case_match; simpl; congruence. Qed.

(** The latch keeps the first termination signal that was delivered, whatever is
    delivered after it, and is set exactly when there was one; an error of [sigwait]
    replaces it by -1 and ends the thread. *)
Lemma latched_signal_spec answers :
  (∀ answer, answer ∈ answers → ¬ is_error answer) →
  signal_loop answers no_signal
  = match list_find is_termination answers with
    | Some (_, (_, received)) => MkTerminationSignals true received
    | None => no_signal
    end ∧
  ∀ result received rest, is_error (result, received) →
    signal_loop (answers ++ (result, received) :: rest) no_signal = MkTerminationSignals true (-1).
Proof.
  enough (H : ∀ s, (requested s = false → s = no_signal) →
    (∀ answer, answer ∈ answers → ¬ is_error answer) →
    signal_loop answers s = (if requested s then s else
      match list_find is_termination answers with
      | Some (_, (_, received)) => MkTerminationSignals true received
      | None => no_signal
      end) ∧
    ∀ result received rest, is_error (result, received) →
      signal_loop (answers ++ (result, received) :: rest) s = MkTerminationSignals true (-1)).
  { intros Hn. by apply (H no_signal). }
  induction answers as [|[result received] answers IH]; intros s Hs Hn.
  - split; [destruct (requested s) eqn:Hr; auto|]. intros result received rest He.
    cbn [app signal_loop]. by rewrite signal_round_error.
  - assert (He : ¬ is_error (result, received)) by (apply Hn; by left).
    assert (Hn' : ∀ answer, answer ∈ answers → ¬ is_error answer) by (intros a Ha; apply Hn; by right).
    cbn [app signal_loop list_find]. destruct (decide (is_termination (result, received))) as [Ht|Ht].
    + rewrite signal_round_termination by done. destruct (requested s) eqn:Hr.
      * destruct (IH s) as [H1 H2]; [congruence|done|]. by rewrite Hr in H1.
      * by apply (IH (MkTerminationSignals true received)).
    + rewrite signal_round_other by done. destruct (IH s Hs Hn') as [H1 H2]. split; [|done].
      rewrite H1. destruct (requested s); [done|].
      by destruct (list_find is_termination answers) as [[? [? ?]]|].
Qed.
End Latch.

(** ** What the programs of the gateway keep *)

Section Kept.
Context `{A : AddressLibrary} `{L : ProjectionLibrary} {S : Type} `{GW : !GatewayWorld S}.
Abbreviation G := (Gateway (Logged (Signalled S))).
Implicit Types (g : G).

Definition asked g : Prop := requested (latch (graph g)) = true.

(** The latch, and whether a stop of the gateway was requested. *)
Definition same_requests g g' : Prop :=
  latch (graph g') = latch (graph g) ∧ gateway_stop_requested g' = gateway_stop_requested g.

#[local] Instance same_requests_refl : Reflexive same_requests.
Proof. by split. Qed.

Abbreviation keeps := (every same_requests).

Lemma keeps_unlogged {B} (f : S → S * B) : keeps (gateway_call (unlogged (passed f))).
Proof. by apply every_atomically. Qed.

Lemma keeps_logged {B} (call : B → GatewayCall) (f : S → S * B) :
  keeps (gateway_call (logged call (passed f))).
Proof. by apply every_atomically. Qed.

Lemma keeps_external : keeps (gateway_call gw_external_stop).
Proof. by apply every_atomically. Qed.

Lemma keeps_state st : keeps (set_gateway_state (S := Logged (Signalled S)) st).
Proof. by apply every_modify. Qed.

Lemma keeps_bind_throw {B C} (p : prog G (outcome B)) (k : B → prog G (outcome C)) :
  keeps p → (∀ b, keeps (k b)) → keeps (let! b := p in k b).
Proof. intros Hp Hk. apply every_bind; [done|]. intros [b|]; [apply Hk|done]. Qed.

Lemma keeps_shutdown_graph : keeps shutdown_graph.
Proof. apply every_bind; [|intros []]; by apply every_modify. Qed.

Lemma keeps_rollback : keeps rollback.
Proof.
  apply every_bind; [apply keeps_state|]. intros [].
  apply every_bind; [apply keeps_shutdown_graph|]. intros []. apply keeps_state.
Qed.

Lemma keeps_rolled_back code product : keeps (rolled_back code product).
Proof. apply every_bind; [apply keeps_rollback|done]. Qed.

Lemma keeps_stop_requested : keeps stop_requested.
Proof. apply every_bind; [by apply every_read|]. intros []; [done|apply keeps_external]. Qed.

Lemma keeps_observe_product key : keeps (observe_product key).
Proof.
  apply keeps_bind_throw; [apply keeps_unlogged|]. intros recovery.
  apply keeps_bind_throw; [apply keeps_unlogged|done].
Qed.

Lemma keeps_find_initial_failure products : keeps (find_initial_failure products).
Proof.
  induction products as [|key products IH]; cbn [find_initial_failure]; [done|].
  apply keeps_bind_throw; [apply keeps_observe_product|]. intros observed. by case_match.
Qed.

Lemma keeps_all_initially_live products : keeps (all_initially_live products).
Proof.
  induction products as [|key products IH]; cbn [all_initially_live]; [done|].
  apply keeps_bind_throw; [apply keeps_observe_product|]. intros observed. by case_match.
Qed.

Lemma keeps_start_products products results : keeps (start_products products results).
Proof.
  revert results. induction products as [|key products IH]; intros results;
    cbn [start_products]; [done|].
  apply keeps_bind_throw; [apply keeps_logged|]. intros r. apply IH.
Qed.

Lemma keeps_gateway_stop : keeps gateway_stop.
Proof.
  apply every_bind.
  - apply every_atomically. intros g. unfold stop_enter. by case_match.
  - intros []; cbn [negb]; [|done].
    apply every_bind; [apply keeps_shutdown_graph|]. intros []. apply keeps_state.
Qed.

Lemma keeps_observe_products products observations : keeps (observe_products products observations).
Proof.
  revert observations. induction products as [|key products IH]; intros observations;
    cbn [observe_products]; [done|].
  apply keeps_bind_throw; [apply keeps_unlogged|]. intros [runtime|];
    (apply keeps_bind_throw; [apply keeps_unlogged|]); intros [recovery|]; try done.
  apply every_bind; [apply keeps_unlogged|]. intros events. apply IH.
Qed.

Lemma keeps_gateway_observe : keeps gateway_observe.
Proof.
  unfold gateway_observe. do 3 (apply every_bind; [by apply every_read|]; intros ?).
  apply keeps_bind_throw; [apply keeps_observe_products|done].
Qed.

(** *** A start that was given up was asked to *)

(** What the gateway undergoes while one of its programs runs. *)
Definition rely g g' : Prop :=
  undisturbed g g' ∧ gateway_stop_requested g' = gateway_stop_requested g ∧ (asked g → asked g').

Definition fresh g : Prop := gateway_stop_requested g = false.

Abbreviation triple := (triple (λ _ : G, True) rely).

Definition fresh_and_asked g : Prop := fresh g ∧ asked g.

Lemma fresh_kept {B} (p : prog G B) : keeps p → triple fresh p (λ _, fresh).
Proof.
  apply triple_kept; unfold fresh; [by intros g g' (_ & -> & _)|by intros g g' [_ ->]].
Qed.

Lemma asked_kept {B} (p : prog G B) : keeps p → triple fresh_and_asked p (λ _, fresh_and_asked).
Proof.
  unfold fresh_and_asked, fresh.
  apply triple_kept; [intros g g' (_ & -> & H) [? ?]; auto|].
  unfold asked. intros g g' [-> ->]. done.
Qed.

Lemma fresh_stable : stable (λ _ : G, True) rely fresh.
Proof. intros g g' _ _ H (_ & Hf & _). unfold fresh. by rewrite Hf. Qed.

(** The answers of [start] that blame a request. *)
Definition given_up (r : outcome (option GatewayStartResult)) : Prop :=
  match r with Returned (Some r) => start_code r = ScStopRequested | _ => False end.

Definition blamed (r : outcome (option GatewayStartResult)) g : Prop :=
  fresh g ∧ (given_up r → asked g).

Lemma blamed_ret r : ¬ given_up r → triple fresh (mret r) blamed.
Proof. intros Hr. apply triple_ret. intros g _ H. by split. Qed.

Lemma blamed_throw {B} (p : prog G (outcome B)) k :
  keeps p → (∀ b, triple fresh (k b) blamed) → triple fresh (let! b := p in k b) blamed.
Proof.
  intros Hp Hk. eapply triple_bind; [by apply fresh_kept|]. intros [b|]; [apply Hk|].
  apply blamed_ret. tauto.
Qed.

Lemma blamed_asked (p : prog G (outcome (option GatewayStartResult))) :
  keeps p → triple fresh_and_asked p blamed.
Proof.
  intros Hp. eapply triple_conseq; [by apply asked_kept|done|]. intros r g _ [? ?]. by split.
Qed.

Lemma blamed_rolled_back code product :
  code ≠ ScStopRequested → triple fresh (rolled_back code product) blamed.
Proof.
  intros Hc. eapply triple_bind; [apply fresh_kept, keeps_rollback|]. intros [].
  by apply blamed_ret.
Qed.

Lemma triple_stop_asked :
  triple fresh stop_requested (λ r g, fresh g ∧ (r = Returned true → asked g)).
Proof.
  unfold stop_requested.
  eapply (triple_bind _ _ (λ requested g, fresh g ∧ requested = false)).
  { apply triple_read; [apply fresh_stable|]. by intros g _ H. }
  intros []; [by intros g _ []|].
  apply (triple_conseq _ fresh _ _ (λ r g, fresh g ∧ (r = Returned true → asked g)));
    [|by intros g _ []|done].
  apply triple_atomically; [apply fresh_stable|]. intros g _ H. split; [done|].
  split; [done|]. by intros [= ?].
Qed.

Lemma blamed_stop (k : bool → prog G (outcome (option GatewayStartResult))) :
  keeps (k true) → triple fresh (k false) blamed →
  triple fresh (let! b := stop_requested in k b) blamed.
Proof.
  intros Ht Hf. eapply triple_bind; [apply triple_stop_asked|]. intros [[]|].
  - eapply triple_conseq; [by apply blamed_asked| |done]. intros g _ [Hg H]. split; auto.
  - eapply triple_conseq; [exact Hf| |done]. by intros g _ [H _].
  - eapply triple_conseq; [apply (blamed_ret Threw); tauto| |done]. by intros g _ [H _].
Qed.

Lemma blamed_wait deadline n : triple fresh (wait_for_initial_live deadline n) blamed.
Proof.
  induction n as [|n IH]; cbn [wait_for_initial_live]; [by apply blamed_ret; tauto|].
  apply blamed_stop; [done|].
  apply blamed_throw; [apply keeps_find_initial_failure|]. intros [key|]; [by apply blamed_ret|].
  apply blamed_throw; [apply keeps_all_initially_live|]. intros live.
  apply blamed_throw; [apply keeps_unlogged|]. intros now.
  destruct (deadline <=? now)%Z; [by apply blamed_ret|].
  destruct live; [by apply blamed_ret|exact IH].
Qed.

Lemma blamed_start_body timeout address n : triple fresh (start_body timeout address n) blamed.
Proof.
  unfold start_body. apply blamed_stop; [apply keeps_rolled_back|].
  apply blamed_throw; [apply keeps_unlogged|]. intros now.
  apply blamed_throw; [apply keeps_start_products|]. intros starts.
  destruct (first_not_started starts) as [key|]; [by apply blamed_rolled_back|].
  eapply triple_bind; [apply blamed_wait|]. intros [[initial|]|].
  2,3: eapply triple_conseq; [apply blamed_ret|by intros g _ [H _]|done]; tauto.
  destruct (bool_decide_reflect (start_code initial = ScServing)) as [Hc|Hc]; cbn [negb].
  - eapply triple_conseq; [|by intros g _ [H _]; exact H|done].
    apply blamed_stop; [apply keeps_rolled_back|].
    apply blamed_throw; [apply keeps_logged|]. intros []; cbn [negb]; [|by apply blamed_rolled_back].
    apply blamed_stop; [apply keeps_rolled_back|].
    eapply triple_bind; [apply fresh_kept, keeps_state|]. intros []. by apply blamed_ret.
  - destruct (decide (start_code initial = ScStopRequested)) as [Hs|Hs].
    + eapply triple_conseq; [apply blamed_asked, keeps_rolled_back| |done].
      intros g _ [Hf Ha]. split; auto.
    + eapply triple_conseq; [by apply blamed_rolled_back|by intros g _ [H _]|done].
Qed.

Lemma blamed_start timeout address n : triple fresh (gateway_start timeout address n) blamed.
Proof.
  unfold gateway_start. eapply (triple_bind _ _ (λ _, fresh)).
  { apply fresh_kept, every_atomically. intros g. unfold start_begin. by case_match. }
  intros []; cbn [negb]; [|by apply blamed_ret].
  eapply triple_bind; [apply blamed_start_body|]. intros [r|].
  - apply triple_ret. by intros g _ H.
  - eapply triple_conseq; [|by intros g _ [H _]; exact H|done].
    eapply triple_bind; [apply fresh_kept, keeps_rollback|]. intros []. apply blamed_ret. tauto.
Qed.
End Kept.

(** ** The service and the process *)

Section Ending.
Context `{W : WireEnums} `{L : ProjectionLibrary} `{N : NumericLibrary} `{J : JsonLibrary}.
Context `{A : AddressLibrary} `{F : FileSystem} `{E : EventJsonLibrary}.
Context `{PC : !ProjectionConstruction} {X : Type} `{RW : !RecoveryWorld X}.
Context `{D : !DiagnosticLibrary} {S : Type} `{GW : !GatewayWorld S}.
Context (environment : MarketKey → X) (allocated : nat → Addresses).
Context (baseline_output : option string) (entropy : Z * Z * Z * Z) (what : string).
(** What the products, the server and the clock do by themselves. *)
Context (graph_move : S → S → Prop).
Abbreviation G := (Gateway (Logged (Signalled S))).
Abbreviation State := (DaemonState (Logged (Signalled S))).
Implicit Types (g : G) (s : State).

(** What happens between two sections of the main thread. *)
Inductive meanwhile : State → State → Prop :=
| graph_moves s x :
    graph_move (beyond (inside (graph (gateway s)))) x →
    meanwhile s (s <| gateway ::= λ g, g <| graph ::= λ t,
                   MkLogged (inside t <| beyond := x |>) (call_log t) |> |>)
| signal_arrives s result received :
    meanwhile s (s <| gateway ::= λ g, g <| graph ::=
                   set_latch (fst (signal_round result received (latch (graph g)))) |> |>).

Definition log_kept s : Prop := log_ok (gateway s).
Definition others s s' : Prop := rely (gateway s) (gateway s') ∧ printed s' = printed s.

#[local] Instance rely_refl : Reflexive (@rely S).
Proof. intros g. by split_and!. Qed.
#[local] Instance rely_trans : Transitive (@rely S).
Proof.
  intros g1 g2 g3 ([? ?] & ? & ?) ([? ?] & ? & ?). unfold rely, undisturbed.
  split_and!; [congruence..|auto].
Qed.

#[local] Instance others_refl : Reflexive others.
Proof. by intros s. Qed.
#[local] Instance others_trans : Transitive others.
Proof. intros s1 s2 s3 [? ?] [? ?]. split; [by etrans|congruence]. Qed.

Lemma meanwhile_others s s' : meanwhile s s' → others s s'.
Proof.
  destruct 1 as [s x H|s result received]; [done|]. split; [|done].
  split_and!; [done|done|]. apply signal_round_requested.
Qed.

Lemma others_log s s' : others s s' → log_kept s → log_kept s'.
Proof. intros [[H _] _]. by apply log_ok_undisturbed. Qed.

(** The daemon in terms of its gateway: [P] of the gateway, and if [b] a signal has been
    latched, and if [rep] the last line reports the shutdown. *)
Definition reported s : Prop :=
  ∃ earlier text, printed s = earlier ++ [(Output, line ("gateway_state=stopped" +:+ text))].

Definition holds (P : G → Prop) (b : bool) g : Prop := P g ∧ (b = true → asked g).

Definition after (P : G → Prop) (b rep : bool) s : Prop :=
  holds P b (gateway s) ∧ (rep = true → reported s).

Abbreviation gtriple := (triple log_ok rely).
Abbreviation triple := (triple log_kept others).
Abbreviation gstable := (stable log_ok rely).

Lemma holds_stable P b : gstable P → gstable (holds P b).
Proof.
  intros HP g g' Hi Hi' [H Hb] Hr. split; [exact (HP g g' Hi Hi' H Hr)|].
  destruct Hr as (_ & _ & Ha). auto.
Qed.

Lemma after_stable P b rep : gstable P → stable log_kept others (after P b rep).
Proof.
  intros HP s s' Hi Hi' [H Hrep] [Hr Hp]. split; [exact (holds_stable P b HP _ _ Hi Hi' H Hr)|].
  intros Hb. destruct (Hrep Hb) as (earlier & text & He). exists earlier, text. congruence.
Qed.

Lemma standing_rely st phase : gstable (standing st phase).
Proof. intros g g' _ _ H [Hr _]. by eapply standing_undisturbed. Qed.

Lemma resting_rely : gstable resting.
Proof. intros g g' _ _ H [Hr _]. by eapply resting_undisturbed. Qed.

Hint Resolve standing_rely resting_rely holds_stable after_stable : core.

(** *** The calls on the gateway *)

Lemma on_gateway_after {B} P b rep (p : prog G B) Q :
  gtriple (holds P b) p (λ a, holds (Q a) b) →
  triple (after P b rep) (on_gateway p) (λ a, after (Q a) b rep).
Proof.
  intros Hp. apply (triple_within gateway (λ g s, s <| gateway := g |>) log_ok rely
    log_kept others (λ s, rep = true → reported s) (holds P b) p (λ a, holds (Q a) b)); [done|by intros s s' [H _]| | |done].
  - intros s g Hi Hf Hg. by split_and!.
  - intros s s' _ _ H [_ Hp'] Hrep. destruct (H Hrep) as (earlier & text & He).
    exists earlier, text. congruence.
Qed.

Lemma asked_or_not_kept {B} b (p : prog G B) :
  every same_requests p → Programs.triple (λ _, True) rely (λ g, b = true → asked g) p
    (λ _ g, b = true → asked g).
Proof.
  apply triple_kept; [intros g g' (_ & _ & H) ? ?; auto|].
  unfold asked. intros g g' [-> _] ? ?; auto.
Qed.

(** A triple of [GatewayLifecycle], and the latch. *)
Lemma gtriple_holds {B} P b (p : prog G B) Q :
  Programs.triple log_ok undisturbed P p Q → every same_requests p →
  gtriple (holds P b) p (λ a, holds (Q a) b).
Proof.
  intros Hp Hk. apply (triple_conj log_ok rely undisturbed rely); [|done|by apply asked_or_not_kept].
  intros g g' H. split; [by destruct H|done].
Qed.

Lemma stop_gateway_after b rep :
  triple (after resting b rep) stop_gateway (λ _, after (standing GwStopped PhDown) b rep).
Proof.
  apply (on_gateway_after resting b rep _ (λ _, standing GwStopped PhDown)).
  apply (triple_bind _ _ (λ _, holds resting b)).
  - apply triple_modify; [by apply holds_stable|]. intros g Hi H. by split.
  - intros []. apply (gtriple_holds resting b gateway_stop (λ _, standing GwStopped PhDown));
      [apply triple_gateway_stop|apply keeps_gateway_stop].
Qed.

Lemma observe_after st phase b rep :
  triple (after (standing st phase) b rep) (on_gateway gateway_observe)
    (λ _, after (standing st phase) b rep).
Proof.
  apply (on_gateway_after _ b rep _ (λ _, standing st phase)).
  apply (gtriple_holds _ b _ (λ _, standing st phase)); [|apply keeps_gateway_observe].
  assert (Hrs : Programs.stable log_ok undisturbed (standing (S := Signalled S) st phase))
    by apply standing_stable.
  unfold gateway_observe. do 3 (apply (triple_bind _ _ (λ _, standing st phase)); [by apply triple_read|]; intros ?).
  unfold bind_throw. apply (triple_bind _ _ (λ _, standing st phase));
    [|intros [products|]; by apply triple_ret].
  generalize (@nil ProductObservation). generalize (gw_products (S := Logged (Signalled S))).
  intros products. induction products as [|key products IH]; intros observations;
    cbn [observe_products]; [by apply triple_ret|].
  apply (triple_bind _ _ (λ _, standing st phase)); [apply triple_unlogged|].
  intros [runtime|]; [|by apply triple_ret].
  apply (triple_bind _ _ (λ _, standing st phase)); [apply triple_unlogged|].
  intros [recovery|]; [|by apply triple_ret].
  destruct runtime, recovery; try by apply triple_ret.
  apply (triple_bind _ _ (λ _, standing st phase)); [apply triple_unlogged|]. intros events. apply IH.
Qed.

(** *** What is printed *)

Lemma print_after P b rep stream text :
  gstable P → triple (after P b rep) (print stream text) (λ _, after P b false).
Proof. intros HP. apply triple_modify; [by apply after_stable|]. by intros s Hi [H _]. Qed.

Lemma report_after P b rep text :
  gstable P →
  triple (after P b rep) (print Output (line ("gateway_state=stopped" +:+ text)))
    (λ _, after P b true).
Proof.
  intros HP. apply triple_modify; [by apply after_stable|]. intros s Hi [H _].
  split; [done|]. split; [done|]. intros _. by exists (printed s), text.
Qed.

Lemma wait_after st phase b rep n :
  triple (after (standing st phase) b rep) (wait_signal n)
    (λ r, after (standing st phase) (bool_decide (is_Some r)) rep).
Proof.
  induction n as [|n IH]; cbn [wait_signal].
  - apply triple_ret. intros s _ [[H _] Hrep]. by split.
  - apply (triple_bind _ _ (λ l s, after (standing st phase) b rep s ∧
                                   (requested l = true → asked (gateway s)))).
    { apply triple_read; [by apply after_stable|]. intros s _ H. by split. }
    intros l. destruct (requested l).
    + apply triple_ret. intros s _ [[[H _] Hrep] Hl]. split; [|done]. split; [done|].
      intros _. by apply Hl.
    + eapply triple_conseq; [exact IH|by intros s _ [H _]|done].
Qed.

(** *** The service *)

(** What an exit code tells while the gateway is still there. *)
Definition verdict (P : G → Prop) (r : outcome (option Z)) s : Prop :=
  match r with
  | Returned None => True
  | Threw => P (gateway s)
  | Returned (Some code) =>
      code = 1%Z ∧ P (gateway s) ∨ code = 0%Z ∧ after P true true s
  end.

Lemma verdict_threw P b rep : triple (after P b rep) (mret Threw) (verdict P).
Proof. apply triple_ret. by intros s _ [[H _] _]. Qed.

Lemma verdict_failed P b rep : triple (after P b rep) (mret (Returned (Some 1%Z))) (verdict P).
Proof. apply triple_ret. intros s _ [[H _] _]. by left. Qed.

Lemma verdict_done P : triple (after P true true) (mret (Returned (Some 0%Z))) (verdict P).
Proof. apply triple_ret. intros s _ H. by right. Qed.

Lemma verdict_weaken (P Q : G → Prop) r s : (∀ g, P g → Q g) → verdict P r s → verdict Q r s.
Proof.
  intros HPQ. destruct r as [[code|]|]; cbn [verdict]; [|done|apply HPQ].
  intros [[-> H]|[-> [[H Ha] Hr]]]; [left|right; repeat split]; auto.
Qed.

(** An observation, whose exception ends the service. *)
Lemma observe_verdict st phase b rep (k : GatewayObservation → prog State (outcome (option Z))) :
  (∀ observation, triple (after (standing st phase) b rep) (k observation)
                    (verdict (standing st phase))) →
  triple (after (standing st phase) b rep) (let! o := on_gateway gateway_observe in k o)
    (verdict (standing st phase)).
Proof.
  intros Hk. unfold bind_throw. eapply triple_bind; [apply observe_after|].
  intros [observation|]; [apply Hk|]. apply verdict_threw.
Qed.

Lemma not_serving_verdict st phase started :
  triple (after (standing st phase) (bool_decide (start_code started = ScStopRequested)) false)
    (not_serving started) (verdict (standing st phase)).
Proof.
  unfold not_serving. apply observe_verdict. intros final.
  destruct (bool_decide (start_code started = ScStopRequested)).
  - eapply triple_bind; [by apply report_after|]. intros []. apply verdict_done.
  - eapply triple_bind; [by apply print_after|]. intros [].
    eapply triple_bind; [by apply print_after|]. intros []. apply verdict_failed.
Qed.

Lemma resting_cases st phase g :
  (st, phase) ∈ [(GwServing, PhBound); (GwStopped, PhDown)] → standing st phase g → resting g.
Proof.
  intros Hin H. rewrite !elem_of_cons, elem_of_nil in Hin.
  destruct Hin as [[= -> ->]|[[= -> ->]|[]]]; [by right; left|by right; right].
Qed.

Lemma serve_verdict count instance_id n :
  triple (after (standing GwServing PhBound) false false)
    (serve_until_signal count instance_id n) (verdict resting).
Proof.
  unfold serve_until_signal, bind_throw at 1. eapply triple_bind; [apply observe_after|].
  intros [serving|].
  2: { apply triple_ret. intros s _ [[H _] _]. by right; left. }
  eapply triple_bind; [by apply print_after|]. intros [].
  eapply triple_bind; [apply wait_after|].
  intros [received|]; [rewrite bool_decide_eq_true_2 by eauto|by apply triple_ret].
  eapply triple_bind; [by apply print_after|]. intros [].
  apply (triple_bind _ _ (λ _, after (standing GwServing PhBound) true false)).
  { apply (on_gateway_after _ true false _ (λ _, standing GwServing PhBound)).
    apply triple_modify; [by apply holds_stable|]. intros g Hi H. split; [exact Hi|exact H]. }
  intros []. apply (triple_bind _ _ (λ _, after (standing GwStopped PhDown) true false)).
  { eapply triple_conseq; [apply (stop_gateway_after true false)| |done].
    intros s _ [[H Ha] Hr]. split; [split; [by right; left|done]|done]. }
  intros []. eapply (triple_conseq _ _ _ _ (verdict (standing GwStopped PhDown))); [|done|].
  2: { intros r s _. apply verdict_weaken. intros g H. by right; right. }
  apply observe_verdict. intros final.
  eapply triple_bind; [by apply print_after|]. intros [].
  eapply triple_bind; [by apply report_after|]. intros [].
  destruct (received =? -1)%Z; [apply verdict_failed|apply verdict_done].
Qed.

(** The gateway before it is started. *)
Definition untouched g : Prop := standing GwConstructed (PhStarting 0 true) g ∧ fresh g.

Lemma untouched_rely : gstable untouched.
Proof.
  intros g g' _ _ [H Hf] [Hr [Hq _]]. split; [by eapply standing_undisturbed|].
  unfold fresh. by rewrite Hq.
Qed.
Hint Resolve untouched_rely : core.

Lemma start_after timeout address n :
  triple (after untouched false false) (on_gateway (gateway_start timeout address n))
    (λ r, after (λ g, start_returned r g ∧ blamed r g) false false).
Proof.
  apply on_gateway_after.
  assert (H : gtriple (λ g, resting g ∧ fresh g) (gateway_start timeout address n)
                (λ r g, start_returned r g ∧ blamed r g)).
  { apply (triple_conj log_ok rely undisturbed rely); [|apply triple_gateway_start|apply blamed_start].
    intros g g' H. split; [by destruct H|done]. }
  eapply triple_conseq; [exact H| |]; unfold holds.
  - intros g _ [[Hs Hf] _]. split; [by left|done].
  - intros r g _ Hq. by split.
Qed.

Lemma with_gateway_verdict o address instance_id count n :
  triple (after untouched false false) (with_gateway o address instance_id count n)
    (verdict resting).
Proof.
  unfold with_gateway, bind_throw. eapply triple_bind; [apply start_after|].
  intros [[started|]|]; [|by apply triple_ret|].
  2: { apply triple_ret. intros s _ [[[H _] _] _]. by right; right. }
  destruct (bool_decide (start_code started = ScServing)) eqn:Hc; cbn [negb].
  - eapply triple_conseq; [apply serve_verdict| |done].
    intros s _ [[[H _] _] Hr]. cbn [start_returned] in H. rewrite Hc in H.
    split; [split; [exact H|done]|exact Hr].
  - intros s Hi [[[H [_ Hb]] _] Hr]. cbn [start_returned] in H. rewrite Hc in H.
    assert (Hin : ∃ st phase, (st, phase) ∈ [(GwServing, PhBound); (GwStopped, PhDown)] ∧
                    standing st phase (gateway s)).
    { destruct (bool_decide (start_code started = ScAlreadyStarted)); [destruct H as [H|H]|];
        eexists _, _; (split; [|exact H]); rewrite !elem_of_cons; auto. }
    destruct Hin as (st & phase & Hin & Hs).
    apply (triple_conseq (after (standing st phase) (bool_decide (start_code started = ScStopRequested)) false)
      _ _ _ _ (not_serving_verdict st phase started)); [done| |done|].
    + intros r s' _. apply verdict_weaken. intros g. by apply resting_cases.
    + split; [split; [done|]|done]. intros Hq%bool_decide_eq_true. by apply Hb.
Qed.

(** The destructor of the gateway, at the end of its scope. *)
Lemma leave_scope_verdict r :
  triple (verdict resting r)
    (match r with Returned None => mret r | _ => stop_gateway ;; mret r end)
    (verdict (standing GwStopped PhDown)).
Proof.
  assert (Hstop : ∀ b rep (r : outcome (option Z)) s, log_kept s → after resting b rep s →
    (∀ s, after (standing GwStopped PhDown) b rep s → verdict (standing GwStopped PhDown) r s) →
    safe log_kept others (stop_gateway ;; mret r)
      (λ a s', log_kept s' ∧ verdict (standing GwStopped PhDown) a s') s).
  { intros b rep r0 s Hi H Hv.
    refine (triple_bind _ _ _ _ _ (stop_gateway_after b rep) _ s Hi H).
    intros []. apply triple_ret. intros s' _ H'. by apply Hv. }
  intros s Hi H. destruct r as [[code|]|]; cbn [verdict] in H.
  - destruct H as [[-> H]|[-> H]].
    + apply (Hstop false false); [done|done|]. intros s' [[H' _] _]. by left.
    + apply (Hstop true true); [done|done|]. intros s' H'. by right.
  - by split.
  - apply (Hstop false false); [done|done|]. by intros s' [[H' _] _].
Qed.

(** What is left of the gateway at the end: never started, or shut down. *)
Definition ended g : Prop :=
  standing GwConstructed (PhStarting 0 true) g ∨ standing GwStopped PhDown g.

Lemma untouched_ended g : untouched g → ended g.
Proof. intros [H _]. by left. Qed.

Lemma preflight_after keys rep :
  triple (after untouched false rep) (performance_baseline_preflight baseline_output keys)
    (λ _, after untouched false false).
Proof.
  unfold performance_baseline_preflight. case_match.
  - eapply triple_bind; [by apply print_after|]. intros []. by apply triple_ret.
  - apply triple_ret. by intros s _ [Hs _].
Qed.

(** An exit before the gateway is started. *)
Lemma early_verdict :
  triple (after untouched false false) (mret (Returned (Some 1%Z))) (verdict ended).
Proof.
  eapply triple_conseq; [apply (verdict_failed untouched)|done|].
  intros r s _. apply verdict_weaken, untouched_ended.
Qed.

Lemma early_threw : triple (after untouched false false) (mret Threw) (verdict ended).
Proof.
  eapply triple_conseq; [apply (verdict_threw untouched)|done|].
  intros r s _. apply verdict_weaken, untouched_ended.
Qed.

Lemma construct_untouched specifications instance_id address o w g :
  construct_gateway environment allocated specifications instance_id address o w = Some g →
  g = MkGateway GwConstructed false w.
Proof.
  unfold construct_gateway. destruct (make_product_set _ _ _ _ _) as [set|]; [|done].
  intros (service & _ & H)%bind_Some. unfold make_gateway in H. by repeat case_match; simplify_eq.
Qed.

Lemma service_verdict config specifications o n :
  triple (after untouched false false)
    (run_production_service environment allocated baseline_output entropy config specifications o n)
    (verdict ended).
Proof.
  unfold run_production_service. eapply triple_bind; [apply preflight_after|].
  intros []; cbn [negb]; [|apply early_verdict].
  eapply triple_bind; [by apply print_after|]. intros [].
  apply (triple_bind _ _ (λ _, after untouched false false)).
  { apply triple_atomically; [by apply after_stable|]. intros s Hi Ha.
    case_match eqn:Hc; [|by split]. apply construct_untouched in Hc as ->.
    destruct Ha as [[[(Hs & Hp & Hcons) Hf] _] _].
    assert (Hst : standing GwConstructed (PhStarting 0 true)
                    (MkGateway GwConstructed false (graph (gateway s)))) by done.
    split; [exact (standing_ok _ _ _ Hst)|]. by split. }
  intros []; cbn [negb]; [|apply early_threw].
  eapply triple_bind; [apply with_gateway_verdict|]. intros r.
  eapply triple_conseq; [apply leave_scope_verdict|done|].
  intros r' s _. apply verdict_weaken. intros g H. by right.
Qed.

Lemma main_body_verdict config blocked fetch n :
  triple (after untouched false false)
    (main_body environment allocated baseline_output entropy config blocked fetch n)
    (verdict ended).
Proof.
  unfold main_body. eapply triple_bind; [apply preflight_after|].
  intros []; cbn [negb]; [|apply early_verdict]. destruct blocked; cbn [negb]; [|apply early_threw].
  apply (triple_bind _ _ (λ _, after untouched false false)).
  { apply triple_modify; [by apply after_stable|]. intros s Hi [[H _] _].
    split; [exact Hi|]. by split; [split; [exact H|]|]. }
  intros []. eapply triple_bind; [by apply print_after|]. intros [].
  destruct (snd (acquire_production_metadata _ _)) as [products|error].
  - apply (triple_bind _ _ (λ stop, after untouched stop false)).
    { apply triple_read; [by apply after_stable|]. intros s _ [[H _] Hr].
      by split; [split; [exact H|]|]. }
    intros []; [|apply service_verdict].
    eapply triple_bind; [by apply report_after|]. intros [].
    eapply triple_conseq; [apply (verdict_done untouched)|done|].
    intros r s _. apply verdict_weaken, untouched_ended.
  - eapply triple_bind; [by apply print_after|]. intros []. apply early_verdict.
Qed.

(** What the exit code of the process tells. *)
Definition exit_code_means (argv : list string) (code : Z) s : Prop :=
  match code with
  | 0%Z => parse_daemon_config argv = HelpRequested ∨ asked (gateway s) ∧ reported s
  | 1%Z => ∃ config, parse_daemon_config argv = DaemonConfigured config
  | 2%Z => ∃ message, parse_daemon_config argv = DaemonConfigFailed message
  | _ => False
  end.

Definition exited argv (r : option Z) s : Prop :=
  ∀ code, r = Some code → ended (gateway s) ∧ exit_code_means argv code s.

Lemma main_exited argv blocked fetch n :
  triple (after untouched false false)
    (main environment allocated baseline_output entropy what argv blocked fetch n) (exited argv).
Proof.
  unfold main. destruct (parse_daemon_config argv) as [config| |message] eqn:Hp.
  - eapply triple_bind; [apply main_body_verdict|]. intros [code|].
    + apply triple_ret. intros s _ Hv code' ->. cbn [verdict] in Hv.
      destruct Hv as [[-> H]|[-> [[H Ha] Hr]]]; (split; [done|]); [by exists config|right; auto].
    + apply (triple_bind _ _ (λ _ s, ended (gateway s))).
      * apply triple_modify; [|by intros s Hi H]. intros s s' _ _ H [[Hr _] _].
        destruct H as [H|H]; [left|right]; by eapply standing_undisturbed.
      * intros []. apply triple_ret. intros s _ H code [= <-]. split; [done|by exists config].
  - eapply triple_bind; [by apply print_after|]. intros []. apply triple_ret.
    intros s _ [[H _] _] code [= <-]. split; [by apply untouched_ended|by left].
  - eapply triple_bind; [by apply print_after|]. intros [].
    eapply triple_bind; [by apply print_after|]. intros []. apply triple_ret.
    intros s _ [[H _] _] code [= <-]. split; [by apply untouched_ended|by exists message].
Qed.

Lemma star_others {B} (w w' : State * prog State B) :
  star (interleave meanwhile) w w' → star (interleave others) w w'.
Proof.
  induction 1 as [w|w1 w2 w3 H _ IH]; [constructor|]. eapply star_step; [|exact IH].
  destruct H as [s f k|s s' p H]; constructor. by apply meanwhile_others.
Qed.

Lemma exited_others argv r s s' : others s s' → exited argv r s → exited argv r s'.
Proof.
  intros [Hr Hp] H code Hc. destruct (H code Hc) as [He Hm]. split.
  - destruct Hr as [Hr _]. destruct He as [He|He]; [left|right]; by eapply standing_undisturbed.
  - unfold exit_code_means in *. repeat case_match; try done.
    destruct Hm as [Hm|[Ha (earlier & text & Hrep)]]; [by left|right]. split.
    + destruct Hr as (_ & _ & Hr). by apply Hr.
    + exists earlier, text. congruence.
Qed.

Lemma untouched_log g :
  graph_phase (gw_products (S := S)) (call_log (graph g)) = Some (PhStarting 0 true) →
  call_log (graph g) = [].
Proof.
  destruct (call_log (graph g)) as [|call log]; [done|]. cbn [graph_phase].
  intros (phase & _ & H)%bind_Some. exfalso.
  destruct phase as [n []| | |], call as [key answer|answer| |]; simpl in H; try done;
    repeat case_match; simplify_eq; lia.
Qed.

End Ending.

(** ** The construction *)

Section Construction.
Context `{W : WireEnums} `{!WireEnumsOk W} `{L : ProjectionLibrary} `{N : NumericLibrary}.
Context `{J : JsonLibrary} `{A : AddressLibrary} `{F : FileSystem} `{E : EventJsonLibrary}.
Context `{PC : !ProjectionConstruction} `{!ProjectionConstructionOk PC}.
Context {X : Type} `{RW : !RecoveryWorld X} `{PS : !ProductServices (Products (X := X))}.
Context {T : Type} `{GW : !GatewayWorld T}.

Lemma hex_word_length n word : String.length (hex_word n word) = n.
Proof. induction n as [|n IH]; [done|]. cbn [hex_word String.length]. by rewrite IH. Qed.

Lemma hex_digit_safe n : identifier_character (default "0"%char (String.get n "0123456789abcdef")) = true.
Proof. do 16 (destruct n as [|n]; [reflexivity|]). reflexivity. Qed.

Lemma hex_word_safe n word : all_chars identifier_character (hex_word n word) = true.
Proof.
  induction n as [|n IH]; [done|]. cbn [hex_word all_chars]. by rewrite hex_digit_safe.
Qed.

(** A generated identifier is one the server accepts. *)
Lemma generated_id_safe words : identifier_safe (generate_gateway_instance_id words) = true.
Proof.
  destruct words as [[[a b] c] d]. unfold generate_gateway_instance_id.
  set (body := hex_word 8 a +:+ hex_word 8 b +:+ hex_word 8 c +:+ hex_word 8 d).
  assert (Hl : String.length body = 32).
  { unfold body. by rewrite !length_append, !hex_word_length. }
  assert (Hc : all_chars identifier_character body = true).
  { unfold body. by rewrite !all_chars_app, !hex_word_safe. }
  clearbody body. unfold identifier_safe. rewrite length_append, Hl.
  change (all_chars identifier_character body = true). exact Hc.
Qed.

Lemma loaded_listen path config :
  load_daemon_config path = inl config →
  valid_loopback_listen_address (daemon_grpc_listen config) false = true.
Proof.
  unfold load_daemon_config. rewrite sum_bind_inl. setoid_rewrite sum_bind_inl.
  by intros (bytes & _ & root & _ & (spot & usdm & _ & _ & Hl & _)%read_daemon_config_spec).
Qed.

(** C34: Once the configuration has been loaded and its products resolved, the daemon
    constructs its gateway without an exception, whatever identifier it draws: the
    product set and the RPC service are built, hold exactly the configured products in
    canonical order, each found by its key, and start from well-formed components. *)
Theorem resolved_daemon_is_constructed (environment : MarketKey → X) allocated words
  path config fetch log resolved (w : T) :
  load_daemon_config path = inl config →
  acquire_production_metadata (daemon_market_keys config) fetch = (log, inl resolved) →
  fresh_addresses allocated →
  let gid := generate_gateway_instance_id words in
  let specifications := make_product_runtime_specs resolved in
  construct_gateway environment allocated specifications gid (daemon_grpc_listen config)
    default_gateway_options w = Some (MkGateway GwConstructed false w) ∧
  ∃ set service,
    make_product_set environment true gid allocated specifications = inl set ∧
    make_g11 (publication_id (products_of set Threw)) (registry set) true gid 250
      kMaximumGrpcTrackedContexts (products_of set Threw) = Some service ∧
    services_key <$> registry set = daemon_market_keys config ∧
    (∀ key, is_Some (find_services (registry set) key) ↔ key ∈ daemon_market_keys config) ∧
    products_ok (products service).
Proof.
  intros Hload Hmeta Hfresh gid specifications.
  assert (Hopt : valid_options gid 250 kMaximumGrpcTrackedContexts = true).
  { unfold valid_options, gid. by rewrite generated_id_safe. }
  destruct (started_daemon_is_well_formed path config fetch log resolved environment gid 250
    kMaximumGrpcTrackedContexts allocated Threw Hload Hmeta Hopt Hfresh)
    as (set & service & Hset & Hg11 & Hkeys & Hfind & _ & _ & Hok).
  split; [|by exists set, service].
  unfold construct_gateway, specifications. rewrite Hset. cbn [go_idle_interval go_tracked_context_limit
    default_gateway_options]. rewrite Hg11. cbn [mbind option_bind].
  unfold make_gateway. cbn [go_allow_ephemeral_listen default_gateway_options].
  by rewrite (loaded_listen _ _ Hload).
Qed.
End Construction.

(** ** Witness: a daemon that serves three products until it is terminated *)

Section Sample.
#[local] Existing Instance sample_enums.
#[local] Existing Instance SampleProjection.library.
#[local] Existing Instance sample_numeric.
#[local] Existing Instance SampleWorld.world.
#[local] Existing Instance sample_loopback.
#[local] Existing Instance sample_files.
#[local] Existing Instance sample_events.
#[local] Existing Instance sample_exchange.
#[local] Existing Instance sample_construction.
#[local] Existing Instance sample_services_world.
#[local] Existing Instance sample_diagnostics.

(** The products are live at once; the state is the clock. *)
Definition three_products : GatewayWorld Z := {|
  gw_products := daemon_market_keys sample_config;
  gw_start_product _ s := (s, Returned RtStarted);
  gw_observe_recovery _ s := (s, Returned (Some sample_live_recovery));
  gw_observe_runtime _ s := (s, Returned (Some sample_live_runtime));
  gw_observe_events _ s := (s, MkEventPublicationObservation EsClosed None 0);
  gw_startup_now s := ((s + 1)%Z, Returned s);
  gw_external_stop s := (s, Returned false);
  gw_server_start _ s := (s, Returned true);
  gw_server_shutdown s := s;
  gw_stop_products s := s;
  gw_selected_port _ := 50051%Z;
  gw_tracked_contexts _ := 0 |}.
#[local] Existing Instance three_products.

Abbreviation SampleState := (DaemonState (Logged (Signalled Z))).
Definition sample_argv : list string := ["bmd-gatewayd"; "--config"; "gateway.json"].
Definition sample_words : Z * Z * Z * Z := (1%Z, 2%Z, 3%Z, 4%Z).

Definition sample_main : prog SampleState (option Z) :=
  main (λ _, SampleWorld.MkEnv 0 false) sample_allocated None sample_words EmptyString sample_argv
    true sample_fetch 1.

Definition before_main : SampleState :=
  MkDaemonState (MkGateway GwConstructed false (MkLogged (MkSignalled no_signal 0%Z) [])) [].

(** The daemon has announced that it serves, and is about to wait. *)
Definition serving_daemon : SampleState * prog SampleState (option Z) :=
  run_sections 46 (before_main, sample_main).

(** [SIGTERM] arrives. *)
Definition terminated : SampleState :=
  (fst serving_daemon) <| gateway ::= λ g, g <| graph ::=
    set_latch (fst (signal_round 0 SIGTERM (latch (graph g)))) |> |>.

Definition last_state : SampleState := fst (run (snd serving_daemon) terminated).

Lemma sample_exit : snd (run (snd serving_daemon) terminated) = Some 0%Z.
Proof. by vm_compute. Qed.

Lemma sample_last_line :
  last (printed last_state) = Some (Output,
    line "gateway_state=stopped contexts=0 transports=3 subscriptions=0 owners_joined=no").
Proof. by vm_compute. Qed.

Lemma sample_daemon_run :
  star (interleave (meanwhile (λ _ _, False))) (before_main, sample_main)
    (last_state, Done (snd (run (snd serving_daemon) terminated))).
Proof.
  apply (star_trans _ _ (fst serving_daemon, snd serving_daemon)).
  - rewrite <- surjective_pairing. apply sections_interleaved.
  - unfold last_state, terminated. generalize serving_daemon. intros [s p].
    eapply star_step; [apply others_act, signal_arrives|]. apply run_interleaved.
Qed.


(** An error of [sigwait] is an exit code of 1 while the daemon serves, but passes for a
    requested stop when it comes before. *)
Lemma wait_error_during_start_exits_successfully :
  let fails (w : SampleState * prog SampleState (option Z)) :=
    let s := fst w <| gateway ::= λ g, g <| graph ::=
               set_latch (fst (signal_round 1 0 (latch (graph g)))) |> |> in
    snd (run (snd w) s) in
  fails (run_sections 5 (before_main, sample_main)) = Some 0%Z ∧
  fails serving_daemon = Some 1%Z.
Proof. split; by vm_compute. Qed.

Lemma resolved_daemon_is_constructed_witness :
  ∃ g : Gateway Z,
    construct_gateway (λ _, SampleWorld.MkEnv 0 false) sample_allocated
      (make_product_runtime_specs sample_resolved) (generate_gateway_instance_id sample_words)
      (daemon_grpc_listen sample_config) default_gateway_options 0%Z = Some g.
Proof.
  pose proof sample_enums_ok as Hok. pose proof sample_construction_ok as Hpc.
  exists (MkGateway GwConstructed false 0%Z).
  exact (proj1 (resolved_daemon_is_constructed (λ _, SampleWorld.MkEnv 0 false) sample_allocated
    sample_words "gateway.json" sample_config sample_fetch [SpotFetch; UsdMFetch] sample_resolved 0%Z
    sample_loaded sample_acquired sample_allocated_fresh)).
Defined.
End Sample.
