(* ===== verification/Acceptance.v ===== *)
(** * Acceptance: what the acceptance client reads

    Models [src/app/production_daemon_acceptance/acceptance_config.hpp] and the text part
    of [main.cpp] beside it: the options of the client, the line with which the daemon
    announces that it serves and the lines it writes after the signal.  The file system is
    a parameter ([HostFiles]).

    [accepted_options_configure_the_daemon]: the daemon the client starts is configured.
    [field_value_spec]: a field of a line, against its words.  [serving_line_is_read] and
    [shutdown_report_is_read]: the client reads what the daemon of [Daemon] writes. *)

From Stdlib Require Import Ascii.
From S2P Require Import Prelude Ring Wire Text Json Session OrderBookPublication Programs.
From S2P Require Import Projection EventPublication MarketRuntime Recovery Config Registry.
From S2P Require Import GrpcRequests DaemonConfig GatewayStatus GrpcService GatewayLifecycle.
From S2P Require Import Diagnostics GrpcStreams Daemon.

Open Scope gateway_scope.

(** ** The options *)

(** [canonical] and [is_regular_file]: [None] when they set their error code;
    [executable path]: [access(path, X_OK) == 0]. *)
Class HostFiles : Type := {
  canonical : string → option string;
  is_regular_file : string → option bool;
  executable : string → bool
}.

(** [parse_unsigned<Integer>], [max] the greatest value of [Integer]. *)
Definition parse_unsigned (max : Z) (text : string) : option Z :=
  if bool_decide (text = EmptyString) then None
  else match from_chars max text with
       | Some (value, rest) => if bool_decide (rest = EmptyString) then Some value else None
       | None => None
       end.

Record Options : Type := MkOptions {
  opt_daemon_path : string;
  opt_grpc_target : string;
  opt_config_path : string;
  opt_grpc_port : Z
}.

(** The three optionals of [parse_options]. *)
Record Chosen : Type := MkChosen {
  ch_daemon_path : option string;
  ch_grpc_target : option string;
  ch_config_path : option string
}.

Section ParseOptions.
Context `{W : WireEnums} `{A : AddressLibrary} `{F : FileSystem} `{E : EventJsonLibrary}.
Context `{H : HostFiles}.

(** The loop of [parse_options]; an error is the message of the exception. *)
Fixpoint read_arguments (arguments : list string) (c : Chosen) : Chosen + string :=
  match arguments with
  | [] => inl c
  | option :: rest =>
      fail_if negb (bool_decide (option = "--daemon"))
              && negb (bool_decide (option = "--grpc-target"))
              && negb (bool_decide (option = "--config"))
        with ("unknown option: " +:+ option) ;;
      match rest with
      | [] => inr ("missing value for " +:+ option)
      | value :: rest =>
          fail_if bool_decide (value = EmptyString) || String.prefix "--" value
            with ("empty or missing value for " +:+ option) ;;
          let destination := if bool_decide (option = "--daemon") then ch_daemon_path c
                             else if bool_decide (option = "--grpc-target") then ch_grpc_target c
                             else ch_config_path c in
          fail_if bool_decide (is_Some destination) with ("duplicate option: " +:+ option) ;;
          read_arguments rest
            (if bool_decide (option = "--daemon")
             then MkChosen (Some value) (ch_grpc_target c) (ch_config_path c)
             else if bool_decide (option = "--grpc-target")
             then MkChosen (ch_daemon_path c) (Some value) (ch_config_path c)
             else MkChosen (ch_daemon_path c) (ch_grpc_target c) (Some value))
      end
  end.

(** The port of [--grpc-target]. *)
Definition target_port (grpc_target : string) : Z + string :=
  match rfind_char ":" grpc_target with
  | Some colon =>
      fail_if negb (negb (colon =? 0)%nat && (colon + 1 <? String.length grpc_target)%nat)
        with "--grpc-target must include a nonempty host and numeric port" ;;
      match parse_unsigned u32_max (drop_string (colon + 1) grpc_target) with
      | Some parsed_port =>
          fail_if negb ((0 <? parsed_port)%Z && (parsed_port <=? 65535)%Z)
            with "--grpc-target port is invalid" ;;
          inl parsed_port
      | None => inr "--grpc-target port is invalid"
      end
  | None => inr "--grpc-target must include a nonempty host and numeric port"
  end.

Definition resolve_daemon (daemon_path : string) : string + string :=
  match canonical daemon_path with
  | None => inr "--daemon path cannot be resolved"
  | Some resolved_path =>
      fail_if negb (default false (is_regular_file resolved_path))
        with "--daemon path is not a regular file" ;;
      fail_if negb (executable resolved_path) with "--daemon path is not executable" ;;
      inl resolved_path
  end.

(** [config.grpc_listen.rfind(':') + 1U], where [npos + 1] is zero. *)
Definition listen_port (grpc_listen : string) : option Z :=
  parse_unsigned u32_max
    (drop_string (match rfind_char ":" grpc_listen with Some n => n + 1 | None => 0 end) grpc_listen).

(** What [parse_options] does with the values. *)
Definition check_options (daemon_path grpc_target config_path : string) : Options + string :=
  let? parsed_port := target_port grpc_target in
  let? resolved_path := resolve_daemon daemon_path in
  match load_daemon_config config_path with
  | inr message => inr ("--config: " +:+ message)
  | inl config =>
      fail_if negb (bool_decide (daemon_market_keys config = [spot_btcusdt_key; usdm_btcusdt_key]))
        with "this acceptance client requires exactly Spot and USD-M BTCUSDT" ;;
      fail_if negb (bool_decide (listen_port (daemon_grpc_listen config) = Some parsed_port))
        with "--config listen port does not match --grpc-target" ;;
      inl (MkOptions resolved_path grpc_target config_path (parsed_port mod (u16_max + 1)))
  end.

Definition parse_options (argv : list string) : Options + string :=
  let? c := read_arguments (tail argv) (MkChosen None None None) in
  match ch_daemon_path c, ch_grpc_target c, ch_config_path c with
  | None, _, _ => inr "missing --daemon"
  | _, None, _ => inr "missing --grpc-target"
  | _, _, None => inr "missing --config"
  | Some daemon_path, Some grpc_target, Some config_path =>
      check_options daemon_path grpc_target config_path
  end.

(** The arguments with which [ChildProcess::spawn] executes the daemon. *)
Definition child_argv (options : Options) : list string :=
  [opt_daemon_path options; "--config"; opt_config_path options].
End ParseOptions.

(** ** Fields of a line *)

(** [line.find(c, from)] *)
Definition find_char_from (c : ascii) (from : nat) (s : string) : option nat :=
  Nat.add from <$> find_char c (drop_string from s).

(** The loop of [field_value]; a round moves the position, so [fuel] rounds are enough for
    a line of that length. *)
Fixpoint next_field (fuel : nat) (line key : string) (position : option nat) : option nat :=
  match position with
  | Some (S before) =>
      if bool_decide (String.get before line = Some " "%char) then position
      else match fuel with
           | O => None
           | S fuel => next_field fuel line key (find_text_from key (S (S before)) line)
           end
  | _ => position
  end.

Definition field_value (line key : string) : option string :=
  match next_field (String.length line) line key (find_text key line) with
  | None => None
  | Some position =>
      let value_start := position + String.length key in
      let value := match find_char_from " " value_start line with
                   | Some value_end =>
                       take_string (value_end - value_start) (drop_string value_start line)
                   | None => drop_string value_start line
                   end in
      if bool_decide (value = EmptyString) then None else Some value
  end.

(** ** The serving line *)

Record ServingIdentity : Type := MkServingIdentity {
  si_grpc_port : Z;
  si_spot_generation : Z;
  si_usdm_generation : Z;
  si_gateway_instance_id : string
}.

#[export] Instance ServingIdentity_eq_dec : EqDecision ServingIdentity.
Proof. solve_decision. Defined.

Definition parse_serving_line (line : string) (expected_port : Z) : ServingIdentity + string :=
  match field_value line "grpc_port=", field_value line "products=",
        field_value line "gateway_instance_id=" with
  | Some port_text, Some products_text, Some instance_text =>
      let port := parse_unsigned u32_max port_text in
      let products := parse_unsigned u32_max products_text in
      fail_if negb (bool_decide (port = Some expected_port))
        with "serving grpc_port does not match --grpc-target" ;;
      fail_if negb (bool_decide (products = Some 2%Z))
        with "serving line must describe the two-product acceptance profile" ;;
      inl (MkServingIdentity (default 0%Z port mod (u16_max + 1)) 0 0 instance_text)
  | _, _, _ => inr "serving line is missing required identity fields"
  end.

(** ** Lines of the captured output *)

Record LineMatch : Type := MkLineMatch {
  lm_position : nat;
  lm_line : string
}.

(** The loop of [find_complete_line]. *)
Fixpoint scan_lines (fuel : nat) (output marker : string) (cursor : nat) : option LineMatch :=
  if negb (cursor <? String.length output)%nat then None else
  match find_char_from newline cursor output with
  | None => None
  | Some end_ =>
      let line := take_string (end_ - cursor) (drop_string cursor output) in
      if contains_text marker line then Some (MkLineMatch cursor line)
      else match fuel with
           | O => None
           | S fuel => scan_lines fuel output marker (end_ + 1)
           end
  end.

Definition find_complete_line (output marker : string) (from : nat) : option LineMatch :=
  if negb (from =? 0)%nat && negb (bool_decide (String.get (from - 1) output = Some newline)) then
    match find_char_from newline from output with
    | None => None
    | Some cursor => scan_lines (String.length output) output marker (cursor + 1)
    end
  else scan_lines (String.length output) output marker from.

(** ** The end of the daemon *)

Record ShutdownEvidence : Type := MkShutdownEvidence {
  sh_stopping_sigterm : bool;
  sh_contexts_zero : bool;
  sh_transports_zero : bool;
  sh_subscriptions_zero : bool;
  sh_owners_joined : bool
}.

#[export] Instance ShutdownEvidence_eq_dec : EqDecision ShutdownEvidence.
Proof. solve_decision. Defined.

Definition no_shutdown_evidence : ShutdownEvidence := MkShutdownEvidence false false false false false.

Definition parse_shutdown_output (output_after_signal : string) : ShutdownEvidence :=
  match find_complete_line output_after_signal "gateway_state=stopping" 0,
        find_complete_line output_after_signal "gateway_state=stopped" 0 with
  | Some stopping, Some stopped =>
      if (lm_position stopped <=? lm_position stopping)%nat then no_shutdown_evidence
      else MkShutdownEvidence
             (bool_decide (field_value (lm_line stopping) "signal=" = Some "SIGTERM"))
             (bool_decide (field_value (lm_line stopped) "contexts=" = Some "0"))
             (bool_decide (field_value (lm_line stopped) "transports=" = Some "0"))
             (bool_decide (field_value (lm_line stopped) "subscriptions=" = Some "0"))
             (bool_decide (field_value (lm_line stopped) "owners_joined=" = Some "yes"))
  | _, _ => no_shutdown_evidence
  end.

(** ** Texts of the client *)

(** [one_line]: an exception or a status in one line of the report. *)
Fixpoint one_line (text : string) : string :=
  match text with
  | EmptyString => EmptyString
  | String character rest =>
      String (if bool_decide (character = newline) || bool_decide (character = "013"%char)
              then " "%char else character) (one_line rest)
  end.

(** [print_captured_output] *)
Definition captured_output (output : string) : string :=
  line "REAL_DAEMON_OUTPUT_BEGIN"
  +:+ output
  +:+ (if negb (bool_decide (output = EmptyString))
          && negb (bool_decide (last_char output = Some newline))
       then String newline EmptyString else EmptyString)
  +:+ line "REAL_DAEMON_OUTPUT_END".

(** ** Substrings *)

Lemma find_text_from_0 needle s : find_text_from needle 0 s = find_text needle s.
Proof. unfold find_text_from. simpl. by destruct (find_text needle s). Qed.

Lemma contains_text_spec needle s :
  contains_text needle s = true ↔ ∃ a b, s = a +:+ needle +:+ b.
Proof.
  unfold contains_text. rewrite bool_decide_eq_true. split.
  - intros [n Hn]. apply find_text_some in Hn as [Hp _]. apply prefix_spec in Hp as [b Hb].
    exists (take_string n s), b. rewrite <- Hb. symmetry. apply take_drop_string.
  - intros (a & b & ->). destruct (find_text needle _) as [n|] eqn:Hn; [by eexists|].
    rewrite find_text_none in Hn. specialize (Hn (String.length a)).
    by rewrite drop_string_app, prefix_app in Hn.
Qed.

Lemma contains_text_app needle a s b :
  contains_text needle s = true → contains_text needle (a +:+ s +:+ b) = true.
Proof.
  rewrite !contains_text_spec. intros (x & y & ->). exists (a +:+ x), (y +:+ b).
  by rewrite !string_app_assoc.
Qed.

Lemma contains_text_self needle b : contains_text needle (needle +:+ b) = true.
Proof. apply contains_text_spec. by exists EmptyString, b. Qed.

Lemma prefix_drop_length key n s :
  key ≠ EmptyString → String.prefix key (drop_string n s) = true → n < String.length s.
Proof.
  intros Hk [b Hb]%prefix_spec. destruct (decide (n < String.length s)) as [|Hn]; [done|].
  assert (Hd : drop_string n s = EmptyString).
  { clear Hb. revert n Hn. induction s as [|c s IH]; intros [|n] Hn; [done|done|simpl in *; lia|].
    apply IH. simpl in Hn. lia. }
  rewrite Hd in Hb. by destruct key.
Qed.

(** ** The words of a line *)

(** [key] stands at [i], at the start of a word. *)
Definition word_at (key line : string) (start : bool) (i : nat) : Prop :=
  String.prefix key (drop_string i line) = true ∧
  match i with O => start = true | S before => String.get before line = Some " "%char end.

(** The loop answers the first such position. *)
Definition first_word (key line : string) (start : bool) (r : option nat) : Prop :=
  match r with
  | Some i => word_at key line start i ∧ ∀ j, j < i → ¬ word_at key line start j
  | None => ∀ j, ¬ word_at key line start j
  end.

Lemma first_word_unique key line start r r' :
  first_word key line start r → first_word key line start r' → r = r'.
Proof.
  destruct r as [i|], r' as [j|]; simpl; [| | |done].
  - intros [Hi Hi'] [Hj Hj']. destruct (lt_eq_lt_dec i j) as [[Hl| ->]|Hl]; [|done|].
    + by destruct (Hj' i Hl).
    + by destruct (Hi' j Hl).
  - intros [Hi _] Hn. by destruct (Hn i).
  - intros Hn [Hj _]. by destruct (Hn j).
Qed.

Lemma next_field_first fuel key line n :
  key ≠ EmptyString → String.length line ≤ n + fuel →
  (∀ j, j < n → ¬ word_at key line true j) →
  first_word key line true (next_field fuel line key (find_text_from key n line)).
Proof.
  intros Hkey. revert n. induction fuel as [|fuel IH]; intros n Hlen Hbefore.
  all: unfold find_text_from.
  all: destruct (find_text key (drop_string n line)) as [m|] eqn:Hm.
  2, 4: cbn; intros j [Hp Hs]; destruct (decide (j < n)) as [Hj|Hj]; [by eapply Hbefore|];
    rewrite find_text_none in Hm; specialize (Hm (j - n)); rewrite drop_string_drop in Hm;
    replace (n + (j - n)) with j in Hm by lia; congruence.
  all: apply find_text_some in Hm as [Hp Hfirst]; rewrite drop_string_drop in Hp.
  - apply prefix_drop_length in Hp; [lia|done].
  - change (Nat.add n <$> Some m) with (Some (n + m)).
    assert (Hno : ∀ j, j < n + m → ¬ word_at key line true j).
    { intros j Hj [Hpj Hsj]. destruct (decide (j < n)) as [Hl|Hl]; [by eapply (Hbefore j)|].
      specialize (Hfirst (j - n) ltac:(lia)). rewrite drop_string_drop in Hfirst.
      replace (n + (j - n)) with j in Hfirst by lia. congruence. }
    destruct (n + m) as [|before] eqn:Hnm; [by split; [split|]|].
    cbn [next_field]. case_bool_decide as Hsp; [by split; [split|]|].
    apply IH; [lia|]. intros j Hj Hw. destruct (decide (j = S before)) as [->|Hne].
    + by destruct Hw.
    + apply (Hno j); [lia|done].
Qed.

(** The same by recursion on the line: the text from that position on. *)
Fixpoint word_suffix (key : string) (start : bool) (s : string) : option string :=
  if start && String.prefix key s then Some s
  else match s with
       | EmptyString => None
       | String c rest => word_suffix key (bool_decide (c = " "%char)) rest
       end.

Lemma word_at_cons key c s start i :
  word_at key (String c s) start (S i) ↔ word_at key s (bool_decide (c = " "%char)) i.
Proof.
  unfold word_at. destruct i as [|i]; cbn [drop_string String.get]; [|done].
  rewrite bool_decide_eq_true. split; intros [? H]; (split; [done|]); [by injection H|by subst].
Qed.

Lemma word_suffix_first key s start :
  ∃ r, first_word key s start r ∧ word_suffix key start s = (λ i, drop_string i s) <$> r.
Proof.
  revert start. induction s as [|c s IH]; intros start; cbn [word_suffix];
    (destruct (start && _) eqn:Hst;
     [apply andb_true_iff in Hst as [-> Hp]; exists (Some 0); split; [by split; [split|lia]|done]|]).
  - exists None. split; [|done]. intros [|j] [Hp Hs]; [|done].
    simpl in Hs. subst. cbn [drop_string] in Hp. by rewrite Hp in Hst.
  - assert (Hno : ¬ word_at key (String c s) start 0).
    { intros [Hp Hs]. simpl in Hs. subst. cbn [drop_string] in Hp. by rewrite Hp in Hst. }
    destruct (IH (bool_decide (c = " "%char))) as (r & Hr & ->). exists (S <$> r).
    split; [|by destruct r]. destruct r as [i|]; simpl in *.
    + rewrite word_at_cons. split; [apply Hr|]. intros [|j] Hj; [done|].
      rewrite word_at_cons. apply Hr. lia.
    + intros [|j]; [done|]. rewrite word_at_cons. apply Hr.
Qed.

(** The value behind a key, up to the next space. *)
Definition value_of (key suffix : string) : option string :=
  let rest := drop_string (String.length key) suffix in
  let value := match find_char " " rest with Some n => take_string n rest | None => rest end in
  if bool_decide (value = EmptyString) then None else Some value.

Lemma field_value_suffix line key :
  key ≠ EmptyString → field_value line key = word_suffix key true line ≫= value_of key.
Proof.
  intros Hkey. destruct (word_suffix_first key line true) as (r & Hr & ->).
  pose proof (next_field_first (String.length line) key line 0 Hkey ltac:(lia) ltac:(lia)) as Hn.
  rewrite find_text_from_0 in Hn. unfold field_value.
  rewrite (first_word_unique _ _ _ _ _ Hn Hr). destruct r as [i|]; [|done].
  cbn [fmap option_fmap option_map mbind option_bind].
  unfold value_of, find_char_from. rewrite drop_string_drop.
  destruct (find_char " " (drop_string (i + String.length key) line)) as [n|]; [|done].
  cbn [fmap option_fmap option_map]. by replace (i + String.length key + n - (i + String.length key)) with n by lia.
Qed.

(** A text without spaces, and without line breaks. *)
Definition spaceless (s : string) : Prop := find_char " " s = None.
Definition unbroken (s : string) : Prop := find_char newline s = None.

Lemma find_char_cons c a s : find_char c (String a s) = None ↔ a ≠ c ∧ find_char c s = None.
Proof. simpl. case_bool_decide; [by split; [|intros []]|]. rewrite fmap_None. tauto. Qed.

Lemma find_char_none_app c s t :
  find_char c (s +:+ t) = None ↔ find_char c s = None ∧ find_char c t = None.
Proof. rewrite !find_char_none, all_chars_app, andb_true_iff. done. Qed.

(** A key without spaces does not run over the end of a word. *)
Lemma prefix_word key w s :
  spaceless key → String.prefix key (w +:+ String " " s) = String.prefix key w.
Proof.
  unfold spaceless. revert w. induction key as [|c key IH]; intros w; [by destruct w|].
  rewrite find_char_cons. intros [Hc Hk]. destruct w as [|d w].
  - change ("" +:+ String " " s) with (String " " s). simpl.
    destruct (ascii_dec c " "); [by subst|done].
  - rewrite append_cons. simpl. destruct (ascii_dec c d); [by apply IH|done].
Qed.

Lemma word_suffix_inside key w s :
  spaceless w → word_suffix key false (w +:+ s) = word_suffix key false s.
Proof.
  unfold spaceless. induction w as [|c w IH]; [done|].
  rewrite find_char_cons. intros [Hc Hw]. rewrite append_cons. cbn [word_suffix andb].
  rewrite bool_decide_eq_false_2 by done. by apply IH.
Qed.

(** A word that does not begin with the key is skipped. *)
Lemma word_suffix_skip key w s :
  spaceless key → spaceless w → String.prefix key w = false →
  word_suffix key true (w +:+ String " " s) = word_suffix key true s.
Proof.
  unfold spaceless. intros Hk Hw Hp. rewrite <- (prefix_word key w s Hk) in Hp.
  destruct w as [|c w].
  - change ("" +:+ String " " s) with (String " " s) in *. cbn [word_suffix]. by rewrite Hp.
  - apply find_char_cons in Hw as [Hc Hw]. rewrite append_cons in Hp |- *.
    cbn [word_suffix]. rewrite Hp. cbn [andb]. rewrite bool_decide_eq_false_2 by done.
    rewrite word_suffix_inside by done. by cbn [word_suffix andb].
Qed.

Lemma word_suffix_last key w :
  spaceless w → String.prefix key w = false → word_suffix key true w = None.
Proof.
  intros Hw Hp. destruct w as [|c w]; cbn [word_suffix]; rewrite Hp; [done|]. cbn [andb].
  apply find_char_cons in Hw as [Hc Hw]. rewrite bool_decide_eq_false_2 by done.
  rewrite <- (append_empty_r w). by rewrite (word_suffix_inside key w EmptyString).
Qed.

(** The value a word gives to a key. *)
Definition field_of (key word : string) : option string :=
  let value := drop_string (String.length key) word in
  if bool_decide (value = EmptyString) then None else Some value.

Lemma value_of_word key w s :
  spaceless w → String.prefix key w = true →
  value_of key w = field_of key w ∧ value_of key (w +:+ String " " s) = field_of key w.
Proof.
  intros Hw [v ->]%prefix_spec. apply find_char_none_app in Hw as [_ Hv].
  unfold value_of, field_of. rewrite string_app_assoc, !drop_string_app. split.
  - by rewrite Hv.
  - by rewrite find_char_app, take_string_app.
Qed.

(** On a line of words without spaces [field_value] answers what follows the key in the
    first word that begins with it: a key that occurs inside a word is passed over. *)
Lemma field_value_words (words : list string) (key : string) :
  Forall spaceless words → spaceless key → key ≠ EmptyString →
  field_value (unwords words) key = List.find (String.prefix key) words ≫= field_of key.
Proof.
  intros Hwords Hkey Hne. rewrite field_value_suffix by done.
  induction Hwords as [|w words Hw Hwords IH]; [by destruct key|].
  cbn [List.find]. destruct words as [|w' words].
  - cbn [unwords]. destruct (String.prefix key w) eqn:Hp; [|by rewrite word_suffix_last].
    assert (Hs : word_suffix key true w = Some w) by (destruct w; cbn [word_suffix andb]; by rewrite Hp).
    rewrite Hs. by apply value_of_word.
  - change (unwords (w :: w' :: words)) with (w +:+ String " " (unwords (w' :: words))).
    destruct (String.prefix key w) eqn:Hp; [|by rewrite word_suffix_skip].
    pose proof (prefix_word key w (unwords (w' :: words)) Hkey) as Hp'. rewrite Hp in Hp'.
    assert (Hs : word_suffix key true (w +:+ String " " (unwords (w' :: words)))
                 = Some (w +:+ String " " (unwords (w' :: words)))).
    { destruct (w +:+ String " " (unwords (w' :: words))); cbn [word_suffix andb]; by rewrite Hp'. }
    rewrite Hs. by apply value_of_word.
Qed.

(** ** The lines of an output *)

Lemma find_newline_line pre l s :
  unbroken l →
  find_char_from newline (String.length pre) (pre +:+ l +:+ String newline s)
  = Some (String.length pre + String.length l).
Proof. intros Hl. unfold find_char_from. by rewrite drop_string_app, find_char_app. Qed.

Lemma scan_lines_spec marker lines : ∀ pre rest fuel,
  Forall unbroken lines → unbroken rest → length lines ≤ fuel →
  scan_lines fuel (pre +:+ unlines lines +:+ rest) marker (String.length pre)
  = (λ found, MkLineMatch (String.length (pre +:+ unlines (take (fst found) lines))) (snd found))
    <$> list_find (λ l, contains_text marker l = true) lines.
Proof.
  induction lines as [|l lines IH]; intros pre rest fuel Hlines Hrest Hfuel.
  - cbn [unlines list_find fmap option_fmap option_map].
    assert (Hn : find_char_from newline (String.length pre) (pre +:+ "" +:+ rest) = None).
    { unfold find_char_from. rewrite drop_string_app. change ("" +:+ rest) with rest. by rewrite Hrest. }
    destruct fuel; cbn [scan_lines]; rewrite Hn; by case_match.
  - apply Forall_cons in Hlines as [Hl Hlines].
    set (output := pre +:+ unlines (l :: lines) +:+ rest).
    assert (Hout : output = pre +:+ l +:+ String newline (unlines lines +:+ rest)).
    { unfold output. cbn [unlines]. by rewrite !string_app_assoc. }
    assert (Hlt : (String.length pre <? String.length output)%nat = true).
    { apply Nat.ltb_lt. rewrite Hout, !length_append. simpl. lia. }
    assert (Hn : find_char_from newline (String.length pre) output
                 = Some (String.length pre + String.length l)).
    { rewrite Hout. by apply find_newline_line. }
    assert (Htake : take_string (String.length pre + String.length l - String.length pre)
                      (drop_string (String.length pre) output) = l).
    { rewrite Hout, drop_string_app.
      replace (String.length pre + String.length l - String.length pre) with (String.length l) by lia.
      apply take_string_app. }
    cbn [list_find]. destruct fuel as [|fuel]; [simpl in Hfuel; lia|].
    cbn [scan_lines]. rewrite Hlt, Hn, Htake. cbn [negb].
    destruct (contains_text marker l) eqn:Hc.
    + rewrite decide_True by done. cbn. by rewrite append_empty_r.
    + rewrite decide_False by done.
      assert (Hout' : output = (pre +:+ l +:+ String newline EmptyString) +:+ unlines lines +:+ rest).
      { rewrite Hout. rewrite !string_app_assoc. done. }
      assert (Hlen : String.length pre + String.length l + 1
                     = String.length (pre +:+ l +:+ String newline EmptyString)).
      { rewrite !length_append. simpl. lia. }
      rewrite Hlen, Hout', IH by (done || (simpl in Hfuel; lia)).
      destruct (list_find _ lines) as [[i x]|]; [|done]. cbn [fmap option_fmap option_map fst snd prod_map].
      f_equal. f_equal. cbn [take unlines]. by rewrite !string_app_assoc.
Qed.

Lemma unlines_length lines : length lines ≤ String.length (unlines lines).
Proof. induction lines as [|l lines IH]; [done|]. cbn [unlines]. rewrite !length_append. simpl. lia. Qed.

(** [find_complete_line] finds the first complete line that contains the marker; what
    follows the last line break is not a line yet. *)
Lemma find_complete_line_spec marker lines rest :
  Forall unbroken lines → unbroken rest →
  find_complete_line (unlines lines +:+ rest) marker 0
  = (λ found, MkLineMatch (String.length (unlines (take (fst found) lines))) (snd found))
    <$> list_find (λ l, contains_text marker l = true) lines.
Proof.
  intros Hlines Hrest. unfold find_complete_line. cbn [Nat.eqb negb andb].
  apply (scan_lines_spec marker lines EmptyString rest); [done|done|].
  rewrite length_append. pose proof (unlines_length lines). lia.
Qed.

(** Every text is a sequence of lines and what follows the last of them. *)
Lemma text_lines s : ∃ lines rest,
  s = unlines lines +:+ rest ∧ Forall unbroken lines ∧ unbroken rest.
Proof.
  induction s as [|c s (lines & rest & -> & Hl & Hr)].
  - exists [], EmptyString. split_all; [done|constructor|done].
  - destruct (decide (c = newline)) as [->|Hc].
    + exists (EmptyString :: lines), rest. split_all; [done| |done]. by constructor.
    + destruct lines as [|l lines].
      * exists [], (String c rest). split_all; [done|done|]. by apply find_char_cons.
      * apply Forall_cons in Hl as [Hl Hls]. exists (String c l :: lines), rest.
        split_all; [|constructor; [by apply find_char_cons|done]|done].
        cbn [unlines]. by rewrite !string_app_assoc.
Qed.

(** ** Numbers in a line *)

Lemma pretty_nonneg (z : Z) : (0 <= z)%Z → pretty z = pretty (Z.to_N z).
Proof. destruct z as [|p|p]; [done|done|lia]. Qed.

Lemma number_digits (z : Z) : (0 <= z)%Z → all_chars is_digit (pretty z) = true.
Proof. intros Hz. rewrite pretty_nonneg by done. apply pretty_digits. Qed.

Lemma number_spaceless (z : Z) : (0 <= z)%Z → spaceless (pretty z).
Proof. intros Hz. apply digits_no_char; [done|]. by apply number_digits. Qed.

Lemma number_unbroken (z : Z) : (0 <= z)%Z → unbroken (pretty z).
Proof. intros Hz. apply digits_no_char; [done|]. by apply number_digits. Qed.

Lemma number_nonempty (z : Z) : (0 <= z)%Z → pretty z ≠ EmptyString.
Proof.
  intros Hz. rewrite pretty_nonneg by done.
  pose proof (parse_decimal_pretty _ (Z.to_N z) (Z.le_refl _)) as H.
  by apply parse_decimal_spec in H as [? _].
Qed.

Lemma parse_unsigned_decimal max text : parse_unsigned max text = parse_decimal max text.
Proof.
  unfold parse_unsigned, parse_decimal. destruct text as [|c text]; [done|].
  rewrite bool_decide_eq_false_2 by done.
  destruct (from_chars max (String c text)) as [[v [|d rest]]|]; [|by rewrite bool_decide_eq_false_2|done].
  by rewrite bool_decide_eq_true_2.
Qed.

Lemma parse_unsigned_number max z v :
  (0 <= z)%Z → parse_unsigned max (pretty z) = Some v ↔ v = z ∧ (z <= max)%Z.
Proof.
  intros Hz. rewrite parse_unsigned_decimal, pretty_nonneg by done. split.
  - intros H. apply parse_decimal_spec in H as (_ & _ & Hv & Hmax).
    pose proof (parse_decimal_pretty _ (Z.to_N z) (Z.le_refl _)) as Hp.
    apply parse_decimal_spec in Hp as (_ & _ & Hp & _). rewrite <- Hp in Hv. lia.
  - intros [-> Hmax]. rewrite parse_decimal_pretty by lia. f_equal. lia.
Qed.

Lemma field_of_self key value : value ≠ EmptyString → field_of key (key +:+ value) = Some value.
Proof. intros Hv. unfold field_of. by rewrite drop_string_app, bool_decide_eq_false_2. Qed.

(** The first of several words that begins with a given key. *)
Ltac find_field :=
  repeat (cbn [List.find];
          match goal with
          | |- context [if String.prefix ?k ?w then _ else _] =>
              first [rewrite (prefix_app k)|replace (String.prefix k w) with false by reflexivity]
          end);
  cbn [mbind option_bind]; by rewrite field_of_self.

Lemma spaceless_app s t : spaceless s → spaceless t → spaceless (s +:+ t).
Proof. intros. by apply find_char_none_app. Qed.

Lemma unbroken_app s t : unbroken s → unbroken t → unbroken (s +:+ t).
Proof. intros. by apply find_char_none_app. Qed.

Lemma identifier_plain id :
  identifier_safe id = true → id ≠ EmptyString ∧ spaceless id ∧ unbroken id.
Proof.
  unfold identifier_safe. case_bool_decide as Hne; [done|]. cbn [orb].
  case_bool_decide; [done|]. destruct (negb _); [done|]. intros Hc. split; [done|].
  split; apply find_char_none; (eapply all_chars_impl; [|exact Hc]);
    intros c Hi; apply negb_true_iff, bool_decide_eq_false; by intros ->.
Qed.

Lemma clean_unbroken l : clean l → unbroken l.
Proof.
  intros Hc. apply find_char_none. eapply all_chars_impl; [|exact Hc].
  intros c Hi. apply negb_true_iff, bool_decide_eq_false. by intros ->.
Qed.

Lemma contains_unlines marker l lines :
  l ∈ lines → contains_text marker l = true → contains_text marker (unlines lines) = true.
Proof.
  intros (before_ & after_ & ->)%list_elem_of_split Hc. rewrite unlines_app. cbn [unlines].
  by apply contains_text_app.
Qed.

Lemma list_find_skip (P : string → Prop) `{∀ l, Decision (P l)} before_ l after_ :
  Forall (λ x, ¬ P x) before_ → P l →
  list_find P (before_ ++ l :: after_) = Some (length before_, l).
Proof.
  intros Hb Hl. induction Hb as [|x before_ Hx Hb IH]; cbn [app list_find].
  - by rewrite decide_True.
  - rewrite decide_False by done. by rewrite IH.
Qed.

(** ** The client reads what the daemon writes *)

Section Daemon.
Context `{L : ProjectionLibrary}.
Implicit Types (serving final : GatewayObservation).

Lemma serving_line_words n serving id :
  serving_line n serving id
  = unwords ["gateway_state=serving"; "products=" +:+ pretty (Z.of_nat n);
             "grpc_port=" +:+ pretty (go_selected_port serving);
             "context_limit=" +:+ pretty (Z.of_nat (go_context_limit serving));
             "gateway_instance_id=" +:+ id].
Proof. reflexivity. Qed.

Lemma serving_fields n serving id :
  (0 <= go_selected_port serving)%Z → id ≠ EmptyString → spaceless id →
  field_value (serving_line n serving id) "grpc_port=" = Some (pretty (go_selected_port serving)) ∧
  field_value (serving_line n serving id) "products=" = Some (pretty (Z.of_nat n)) ∧
  field_value (serving_line n serving id) "gateway_instance_id=" = Some id.
Proof.
  intros Hport Hne Hid. rewrite serving_line_words.
  pose proof (number_nonempty _ Hport). pose proof (number_nonempty (Z.of_nat n) ltac:(lia)).
  split_all; (rewrite field_value_words; [|repeat constructor; try (apply spaceless_app; [reflexivity|]);
    try done; apply number_spaceless; lia|reflexivity|done]).
  all: find_field.
Qed.

(** The client accepts the line with which the daemon announces that it serves exactly
    when two products are served on the port it expects, and then knows the identifier
    the daemon drew. *)
Theorem serving_line_is_read n serving id expected_port identity :
  identifier_safe id = true → (0 <= go_selected_port serving)%Z →
  (0 < expected_port <= u16_max)%Z →
  parse_serving_line (serving_line n serving id) expected_port = inl identity ↔
  n = 2 ∧ go_selected_port serving = expected_port ∧
  identity = MkServingIdentity expected_port 0 0 id.
Proof.
  intros (Hne & Hid & _)%identifier_plain Hport Hexp. unfold u16_max in *.
  unfold parse_serving_line. destruct (serving_fields n serving id Hport Hne Hid) as (-> & -> & ->).
  cbv zeta. rewrite !fail_if_inl, !negb_false_iff, !bool_decide_eq_true.
  rewrite !parse_unsigned_number by lia. unfold u16_max. split.
  - intros ([Hp Hmax] & [Hn _] & Heq). split_all; [lia|done|].
    rewrite (proj2 (parse_unsigned_number u32_max _ _ Hport) (conj eq_refl Hmax)) in Heq.
    injection Heq as <-. cbn [default Datatypes.id]. rewrite Z.mod_small by lia. by f_equal.
  - intros (-> & <- & ->). split_all; [done|unfold u32_max; lia|lia|done|].
    assert (Hmax : (go_selected_port serving <= u32_max)%Z) by (unfold u32_max; lia).
    rewrite (proj2 (parse_unsigned_number u32_max _ _ Hport) (conj eq_refl Hmax)).
    cbn [default Datatypes.id]. by rewrite Z.mod_small by lia.
Qed.

(** The line is found in the output as soon as it is complete. *)
Lemma serving_line_is_found earlier later n serving id :
  Forall unbroken earlier → (0 <= go_selected_port serving)%Z → unbroken id →
  Forall (λ l, contains_text "gateway_state=serving" l = false) earlier →
  find_complete_line (unlines earlier +:+ line (serving_line n serving id) +:+ later)
    "gateway_state=serving" 0
  = Some (MkLineMatch (String.length (unlines earlier)) (serving_line n serving id)).
Proof.
  intros Hearlier Hport Hid Hno. destruct (text_lines later) as (lines & rest & -> & Hlines & Hrest).
  replace (unlines earlier +:+ line (serving_line n serving id) +:+ unlines lines +:+ rest)
    with (unlines (earlier ++ serving_line n serving id :: lines) +:+ rest)
    by (unfold line; rewrite unlines_app; cbn [unlines]; by rewrite !string_app_assoc).
  rewrite find_complete_line_spec; [|apply Forall_app; split; [done|]; constructor; [|done]|done].
  - rewrite (list_find_skip _ earlier).
    + cbn [fmap option_fmap option_map fst snd]. by rewrite take_app_length.
    + eapply Forall_impl; [exact Hno|]. by intros l ->.
    + exact (contains_text_self "gateway_state=serving"
        (" products=" +:+ pretty (Z.of_nat n) +:+ " grpc_port=" +:+ pretty (go_selected_port serving)
         +:+ " context_limit=" +:+ pretty (Z.of_nat (go_context_limit serving))
         +:+ " gateway_instance_id=" +:+ id)).
  - unfold serving_line. repeat (apply unbroken_app; [first [reflexivity|apply number_unbroken; lia]|]).
    done.
Qed.

Lemma stopped_line_words final :
  let t := totals (go_products final) in
  stopped_line final
  = unwords ["gateway_state=stopped"; "contexts=" +:+ pretty (Z.of_nat (go_tracked_contexts final));
             "transports=" +:+ pretty (Z.of_nat (total_transports t));
             "subscriptions=" +:+ pretty (Z.of_nat (total_subscriptions t));
             "owners_joined=" +:+ yes_no (owners_joined t)].
Proof. reflexivity. Qed.

Lemma stopped_fields final :
  let t := totals (go_products final) in
  field_value (stopped_line final) "contexts=" = Some (pretty (Z.of_nat (go_tracked_contexts final))) ∧
  field_value (stopped_line final) "transports=" = Some (pretty (Z.of_nat (total_transports t))) ∧
  field_value (stopped_line final) "subscriptions=" = Some (pretty (Z.of_nat (total_subscriptions t))) ∧
  field_value (stopped_line final) "owners_joined=" = Some (yes_no (owners_joined t)).
Proof.
  cbv zeta. pose proof (number_nonempty (Z.of_nat (go_tracked_contexts final)) ltac:(lia)).
  pose proof (number_nonempty (Z.of_nat (total_transports (totals (go_products final)))) ltac:(lia)).
  pose proof (number_nonempty (Z.of_nat (total_subscriptions (totals (go_products final)))) ltac:(lia)).
  assert (yes_no (owners_joined (totals (go_products final))) ≠ EmptyString) by (by destruct (owners_joined (totals (go_products final)))).
  rewrite stopped_line_words.
  split_all; (rewrite field_value_words; [|repeat constructor; try (apply spaceless_app; [reflexivity|]);
    try done; first [apply number_spaceless; lia|by destruct (owners_joined (totals (go_products final)))]|reflexivity|done]).
  all: find_field.
Qed.

Lemma signal_names received :
  signal_name received = "SIGINT" ∧ received ≠ SIGTERM ∨
  signal_name received = "SIGTERM" ∧ received = SIGTERM ∨
  signal_name received = "signal-wait-error" ∧ received ≠ SIGTERM.
Proof.
  unfold signal_name, SIGINT, SIGTERM. destruct (Z.eqb_spec received 2) as [->|]; [by left|].
  right. destruct (Z.eqb_spec received 15); [by left|by right].
Qed.

Lemma stopping_line_read received :
  unbroken (stopping_line received) ∧
  contains_text "gateway_state=stopping" (stopping_line received) = true ∧
  contains_text "gateway_state=stopped" (stopping_line received) = false ∧
  bool_decide (field_value (stopping_line received) "signal=" = Some "SIGTERM")
  = bool_decide (received = SIGTERM).
Proof.
  unfold stopping_line. destruct (signal_names received) as [[-> H]|[[-> H]|[-> H]]];
    (rewrite ?(bool_decide_eq_true_2 _ H), ?(bool_decide_eq_false_2 _ H)); by split_and!.
Qed.

Lemma number_is_zero (n : nat) :
  bool_decide (Some (pretty (Z.of_nat n)) = Some "0") = bool_decide (n = 0).
Proof.
  apply bool_decide_ext. split; [|by intros ->]. intros H. injection H as H.
  change "0" with (pretty 0%Z) in H. apply (inj pretty) in H. lia.
Qed.

Context {D : DiagnosticLibrary} `{!DiagnosticNamesOk D}.

(** From what the daemon writes after the signal the client reads exactly the counts of
    the last observation and whether the signal was SIGTERM, whatever failures the daemon
    reports in between, unless one of them quotes the marker of the last line. *)
Theorem shutdown_report_is_read received products final :
  contains_text "gateway_state=stopped" (write_recovery_failure_diagnostics products) = false →
  parse_shutdown_output (line (stopping_line received)
                         +:+ write_recovery_failure_diagnostics products
                         +:+ line (stopped_line final))
  = let t := totals (go_products final) in
    MkShutdownEvidence (bool_decide (received = SIGTERM))
      (bool_decide (go_tracked_contexts final = 0)) (bool_decide (total_transports t = 0))
      (bool_decide (total_subscriptions t = 0)) (owners_joined t).
Proof.
  intros Hno. destruct (failures_are_printable_lines products) as (lines & Hd & Hclean & _).
  rewrite Hd in *. destruct (stopping_line_read received) as (Hu & Hstopping & Hnot & Hsignal).
  replace (line (stopping_line received) +:+ unlines lines +:+ line (stopped_line final))
    with (unlines (stopping_line received :: lines ++ [stopped_line final]) +:+ EmptyString)
    by (unfold line; cbn [unlines]; rewrite unlines_app; cbn [unlines];
        by rewrite !append_empty_r, !string_app_assoc).
  assert (Hall : Forall unbroken (stopping_line received :: lines ++ [stopped_line final])).
  { constructor; [done|]. apply Forall_app. split; [eapply Forall_impl; [exact Hclean|apply clean_unbroken]|].
    repeat constructor. unfold stopped_line, final_counts.
    repeat (apply unbroken_app; [first [reflexivity|apply number_unbroken; lia]|]).
    by destruct (owners_joined _). }
  unfold parse_shutdown_output. rewrite !find_complete_line_spec by done.
  pose proof (list_find_skip (λ l, contains_text "gateway_state=stopping" l = true) []
                (stopping_line received) (lines ++ [stopped_line final]) ltac:(constructor) Hstopping)
    as Hfirst.
  assert (Hlast : list_find (λ l, contains_text "gateway_state=stopped" l = true)
                    (stopping_line received :: lines ++ [stopped_line final])
                  = Some (length (stopping_line received :: lines), stopped_line final)).
  { apply (list_find_skip _ (stopping_line received :: lines));
      [|exact (contains_text_self "gateway_state=stopped" _)].
    constructor; [by rewrite Hnot|]. apply Forall_forall. intros l Hl Hc.
    by rewrite (contains_unlines _ _ _ Hl Hc) in Hno. }
  cbn [app length] in Hfirst. rewrite Hfirst, Hlast.
  cbn [fmap option_fmap option_map fst snd lm_position lm_line length take].
  rewrite (proj2 (Nat.leb_gt _ _)) by (cbn [unlines]; rewrite length_append; simpl; lia).
  destruct (stopped_fields final) as (-> & -> & -> & ->).
  rewrite Hsignal, !number_is_zero. cbv zeta. f_equal.
  by destruct (owners_joined _).
Qed.
End Daemon.

(** ** The options *)

Section AcceptedOptions.
Context `{W : WireEnums} `{!WireEnumsOk W} `{A : AddressLibrary} `{F : FileSystem}.
Context `{E : EventJsonLibrary} `{H : HostFiles}.

(** A value that was chosen is not empty. *)
Definition chosen_ok (c : Chosen) : Prop := ∀ path, ch_config_path c = Some path → path ≠ EmptyString.

Lemma read_arguments_chosen : ∀ n arguments c c',
  length arguments ≤ n → chosen_ok c → read_arguments arguments c = inl c' → chosen_ok c'.
Proof.
  induction n as [|n IH]; intros [|option [|value rest]] c c' Hlen Hc; cbn [read_arguments];
    rewrite ?fail_if_inl; try (by intros [= <-]); try (by intros [_ ?]); [simpl in Hlen; lia|].
  intros (_ & (Hv & _)%orb_false_iff & _ & Hr). apply bool_decide_eq_false in Hv.
  apply (IH rest _ _ ltac:(simpl in Hlen; lia)) in Hr; [done|].
  intros path. case_bool_decide; [apply Hc|]. case_bool_decide; [apply Hc|]. by intros [= <-].
Qed.

(** The port of an accepted endpoint is what follows its last colon. *)
Lemma listen_port_spec listen endpoint :
  parse_listen_endpoint listen = inl endpoint → listen_port listen = Some (port endpoint).
Proof.
  intros He. assert (Ht : ∃ before_ text, listen = before_ +:+ String ":" text ∧
                            port_text text (port endpoint)).
  { destruct (decide (String.get 0 listen = Some "["%char)) as [Hf|Hf].
    - destruct listen as [|c rest]; [done|]. injection Hf as ->.
      apply parse_bracketed in He as (text & _ & Ht & ->).
      exists (String "[" (host endpoint +:+ "]")), text. split; [|done].
      symmetry. exact (f_equal (String "[") (string_app_assoc (host endpoint) "]" (String ":" text))).
    - apply parse_plain in He as (text & _ & Ht & _ & ->); [|done]. by exists (host endpoint), text. }
  destruct Ht as (before_ & text & -> & Hne & Hd & Hp & Hmax). unfold listen_port.
  rewrite rfind_char_app by (by apply digits_no_char).
  replace (drop_string (String.length before_ + 1) (before_ +:+ String ":" text)) with text.
  2: { rewrite <- drop_string_drop, drop_string_app. by destruct text. }
  rewrite parse_unsigned_decimal. apply parse_decimal_spec.
  split_and!; [done..|]. unfold u16_max, u32_max in *. lia.
Qed.

(** The options the client accepts start a daemon that is configured: the arguments of
    the child are accepted by the daemon, for exactly Spot and USD-M BTCUSDT, and it
    listens on the port of the target; the file that is executed exists and is
    executable. *)
Theorem accepted_options_configure_the_daemon argv options :
  parse_options argv = inl options →
  is_regular_file (opt_daemon_path options) = Some true ∧
  executable (opt_daemon_path options) = true ∧
  (0 < opt_grpc_port options <= u16_max)%Z ∧
  ∃ config endpoint,
    parse_daemon_config (child_argv options) = DaemonConfigured config ∧
    daemon_market_keys config = [spot_btcusdt_key; usdm_btcusdt_key] ∧
    parse_listen_endpoint (daemon_grpc_listen config) = inl endpoint ∧
    port endpoint = opt_grpc_port options ∧
    listen_port (opt_grpc_target options) = Some (opt_grpc_port options).
Proof.
  unfold parse_options. rewrite sum_bind_inl. intros (c & Hc & H0).
  apply (read_arguments_chosen _ _ _ _ (Nat.le_refl _)) in Hc; [|by intros ? [=]].
  destruct (ch_daemon_path c) as [daemon|], (ch_grpc_target c) as [target|],
    (ch_config_path c) as [path|] eqn:Hpath; try done.
  specialize (Hc path Hpath). unfold check_options in H0. rewrite sum_bind_inl in H0.
  destruct H0 as (parsed & Htarget & H0). rewrite sum_bind_inl in H0. destruct H0 as (resolved & Hres & H0).
  destruct (load_daemon_config path) as [config|] eqn:Hload; [|done].
  rewrite !fail_if_inl, !negb_false_iff, !bool_decide_eq_true in H0.
  destruct H0 as (Hkeys & Hlisten & [= <-]).
  unfold target_port in Htarget. destruct (rfind_char ":" target) as [colon|] eqn:Hcolon; [|done].
  rewrite fail_if_inl in Htarget. destruct Htarget as [_ Htarget].
  destruct (parse_unsigned u32_max (drop_string (colon + 1) target)) as [p|] eqn:Hp; [|done].
  rewrite fail_if_inl, negb_false_iff, andb_true_iff, Z.ltb_lt, Z.leb_le in Htarget.
  destruct Htarget as ([Hpos Hmax] & [= <-]).
  unfold resolve_daemon in Hres. destruct (canonical daemon) as [file|]; [|done].
  rewrite !fail_if_inl, !negb_false_iff in Hres. destruct Hres as (Hreg & Hx & [= <-]).
  cbn [opt_daemon_path opt_grpc_port opt_config_path opt_grpc_target child_argv].
  unfold u16_max. rewrite Z.mod_small by lia.
  split_and!; [by destruct (is_regular_file file) as [[]|]|done|lia|lia|].
  pose proof Hload as Hload'. unfold load_daemon_config in Hload'. rewrite sum_bind_inl in Hload'.
  destruct Hload' as (bytes & _ & Hload'). rewrite sum_bind_inl in Hload'.
  destruct Hload' as (root & _ & Hload'). apply read_daemon_config_spec in Hload'
    as (spot & usdm & _ & (endpoint & Hend) & _).
  exists config, endpoint. split_and!; [|done|done| |].
  - apply parse_daemon_config_spec. by exists file, path.
  - apply listen_port_spec in Hend. congruence.
  - unfold listen_port. by rewrite Hcolon.
Qed.
End AcceptedOptions.

(** ** Witnesses *)

Section Sample.
#[local] Existing Instance sample_enums.
#[local] Existing Instance SampleProjection.library.
#[local] Existing Instance sample_loopback.
#[local] Existing Instance sample_diagnostics.

(** The configuration of the two products the client asks for. *)
Definition two_products_text : string :=
  "{grpc_listen: 127.0.0.1:50051, spot_symbols: [BTCUSDT], usdm_symbols: [BTCUSDT]}".

#[local] Instance two_products_events : EventJsonLibrary := {|
  json_parse_events text :=
    if bool_decide (text = two_products_text)
    then ([], Some (JsonObject
                      [("grpc_listen", JsonString "127.0.0.1:50051");
                       ("spot_symbols", JsonArray [JsonString "BTCUSDT"]);
                       ("usdm_symbols", JsonArray [JsonString "BTCUSDT"])]))
    else ([], None) |}.

#[local] Instance acceptance_files : FileSystem := {|
  open_file path := if bool_decide (path = "two.json")
                    then Some (MkFileContents two_products_text false) else None |}.

#[local] Instance installed_daemon : HostFiles := {|
  canonical path := if bool_decide (path = "./bmd-gatewayd") then Some "/opt/bmd-gatewayd" else None;
  is_regular_file _ := Some true;
  executable path := bool_decide (path = "/opt/bmd-gatewayd") |}.

Definition acceptance_argv : list string :=
  ["client"; "--config"; "two.json"; "--daemon"; "./bmd-gatewayd"; "--grpc-target"; "127.0.0.1:50051"].

Definition acceptance_options : Options :=
  MkOptions "/opt/bmd-gatewayd" "127.0.0.1:50051" "two.json" 50051.

Lemma acceptance_argv_accepted : parse_options acceptance_argv = inl acceptance_options.
Proof. by vm_compute. Qed.

Lemma accepted_options_configure_the_daemon_witness :
  parse_options acceptance_argv = inl acceptance_options ∧
  ∃ config, parse_daemon_config ["/opt/bmd-gatewayd"; "--config"; "two.json"] = DaemonConfigured config ∧
            daemon_market_keys config = [MkMarketKey 1 1 "BTCUSDT"; MkMarketKey 1 2 "BTCUSDT"].
Proof.
  pose proof sample_enums_ok as Hok. split; [exact acceptance_argv_accepted|].
  destruct (accepted_options_configure_the_daemon acceptance_argv acceptance_options
              acceptance_argv_accepted) as (_ & _ & _ & config & _ & Hc & Hk & _).
  exists config. split; [exact Hc|exact Hk].
Defined.

Definition serving_observation : GatewayObservation := MkGatewayObservation GwServing 50051 0 18 [].

Lemma serving_line_is_read_witness :
  parse_serving_line (serving_line 2 serving_observation "gw-01") 50051
  = inl (MkServingIdentity 50051 0 0 "gw-01").
Proof.
  apply (serving_line_is_read 2 serving_observation "gw-01" 50051 (MkServingIdentity 50051 0 0 "gw-01"));
    [reflexivity|simpl; lia|unfold u16_max; lia|]. split; [reflexivity|]. split; reflexivity.
Defined.

(** A daemon stopped by SIGTERM after a failure. *)
Definition stopped_observation (products : list ProductObservation) : GatewayObservation :=
  MkGatewayObservation GwStopped 50051 0 18 products.

Lemma shutdown_report_is_read_witness :
  contains_text "gateway_state=stopped" (write_recovery_failure_diagnostics [hostile_product]) = false ∧
  parse_shutdown_output (line (stopping_line 15)
    +:+ write_recovery_failure_diagnostics [hostile_product]
    +:+ line (stopped_line (stopped_observation [hostile_product])))
  = MkShutdownEvidence true true true true false.
Proof.
  assert (Hno : contains_text "gateway_state=stopped"
                  (write_recovery_failure_diagnostics [hostile_product]) = false)
    by (vm_compute; reflexivity).
  split; [exact Hno|]. pose proof sample_names as Hn.
  exact (shutdown_report_is_read 15 [hostile_product] (stopped_observation [hostile_product]) Hno).
Defined.

(** The Retry-After of a refused snapshot is printed, escaped, between the two lines the
    client looks for: it can hold the marker of the last one, and then decides what the
    client reads, whatever the daemon reports. *)
Definition forged_header : string :=
  "1 gateway_state=stopped contexts=0 transports=0 subscriptions=0 owners_joined=yes ok".

Definition forging_product : ProductObservation :=
  MkProductObservation (po_key hostile_product)
    (po_recovery hostile_product
       <| ro_failure_history := [MkRecoveryFailureDiagnostic 1 RcHttp429
            (Some (MkNetworkError NeHttpStatus "depth-http-status"
                     "Binance depth request returned non-200" (Some 429%Z) (Some forged_header)))
            RsFaulted AwaitingBaseline None None None] |>)
    (po_runtime hostile_product) (po_events hostile_product).

Lemma retry_after_forges_the_evidence :
  let final := MkGatewayObservation GwStopped 50051 7 18 [forging_product] in
  owners_joined (totals (go_products final)) = false ∧
  parse_shutdown_output (line (stopping_line 15)
    +:+ write_recovery_failure_diagnostics (go_products final) +:+ line (stopped_line final))
  = MkShutdownEvidence true true true true true.
Proof. split; by vm_compute. Qed.
End Sample.
