(* ===== verification/StreamClient.v ===== *)
(** * StreamClient: the readers of the acceptance drivers

    Models what the drivers under [src/app/] that talk to the RPC service do with its
    streams: the requests they send and the checks they make on every message they read
    ([canonical_delivery], the heads and cuts of [g11_multi_market_live] and
    [production_daemon_acceptance], [StreamSession::accept_item] of [g8_integration_live],
    [accept_canonical] of [g9_spot_events_live]).  [Read] of a [grpc::ClientReader] is a
    parameter of the readers; [take] reads from a list.

    [driver_requests_are_accepted]: the service accepts what the drivers ask.
    [order_book_stream_passes_the_drivers]: in any interleaving of the RPC handler with the
    owner of the product, what it writes passes the checks of every driver
    ([integration_reads], [order_book_head_is_read], [recovery_cut_is_read]). *)

From Stdlib Require Import Ascii.
From S2P Require Import Prelude Ring Wire Text Session OrderBookPublication OrderBookSession.
From S2P Require Import EventPublication EventSession Registry GrpcRequests Programs Projection.
From S2P Require Import MarketRuntime GrpcStreams.

Open Scope gateway_scope.

(** ** Messages as a client finds them *)

(** [has_envelope_metadata()], [has_delivery_metadata()] and the [oneof]. *)
Record Received (Body : Type) : Type := MkReceived {
  has_envelope_metadata : bool;
  delivery_metadata_of : option DeliveryMetadata;
  body_of : option Body
}.
Arguments MkReceived {Body} _ _ _.
Arguments has_envelope_metadata {Body} _.
Arguments delivery_metadata_of {Body} _.
Arguments body_of {Body} _.

(** The fields of a snapshot message that the drivers read. *)
Class SnapshotMessage (Snapshot : Type) : Type := {
  snap_venue : Snapshot → Z;
  snap_market : Snapshot → Z;
  snap_symbol : Snapshot → string;
  snap_schema_version : Snapshot → string;
  snap_synchronized : Snapshot → bool;
  snap_last_update_id : Snapshot → Z;
  snap_bids_empty : Snapshot → bool;
  snap_asks_empty : Snapshot → bool
}.

(** What the service writes, on the side of the client. *)
Definition book_received {Snapshot} (item : OrderBookStreamItem Snapshot)
  : Received (StreamItemBody Snapshot) :=
  MkReceived false (Some (item_delivery item)) (Some (item_body item)).

Definition event_received (item : GatewayEventEnvelope) : Received EnvelopeBody :=
  MkReceived false (Some (env_delivery item)) (Some (env_body item)).

(** ** The session of a stream *)

Record SessionSequence : Type := MkSessionSequence {
  ss_next : Z;
  ss_subscription_id : string
}.
#[export] Instance SessionSequence_eq_dec : EqDecision SessionSequence.
Proof. solve_decision. Defined.

Definition new_session : SessionSequence := MkSessionSequence 1 EmptyString.

Definition canonical_delivery {Body} (item : Received Body) (sequence : SessionSequence)
  (gateway_instance_id : string) (expected_generation : option Z) : SessionSequence * bool :=
  match delivery_metadata_of item with
  | None => (sequence, false)
  | Some metadata =>
      if has_envelope_metadata item then (sequence, false) else
      if negb (bool_decide (dm_protocol_version metadata = kProtocolVersion))
         || negb (bool_decide (dm_gateway_instance_id metadata = gateway_instance_id))
         || negb (dm_session_sequence metadata =? ss_next sequence)%Z
         || (dm_publish_time_utc_ns metadata =? 0)%Z
         || negb (eqb (bool_decide (is_Some (dm_connection_generation metadata)))
                      (bool_decide (is_Some expected_generation)))
      then (sequence, false) else
      if bool_decide (is_Some expected_generation)
         && negb (bool_decide (dm_connection_generation metadata = expected_generation))
      then (sequence, false) else
      if negb (bool_decide (ss_subscription_id sequence = EmptyString))
         && negb (bool_decide (dm_subscription_id metadata = ss_subscription_id sequence))
      then (sequence, false) else
      let sequence := if bool_decide (ss_subscription_id sequence = EmptyString)
                      then MkSessionSequence (ss_next sequence) (dm_subscription_id metadata)
                      else sequence in
      if bool_decide (ss_subscription_id sequence = EmptyString) then (sequence, false)
      else (MkSessionSequence (u64_succ (ss_next sequence)) (ss_subscription_id sequence), true)
  end.

(** A message with a given part of the [oneof], whose delivery is canonical. *)
Definition canonical_part {Body Part} (part : Body → option Part) (item : Received Body)
  (sequence : SessionSequence) (gateway_instance_id : string) (expected_generation : option Z)
  : SessionSequence * option Part :=
  match body_of item ≫= part with
  | None => (sequence, None)
  | Some p =>
      let '(sequence, ok) :=
        canonical_delivery item sequence gateway_instance_id expected_generation in
      (sequence, if ok : bool then Some p else None)
  end.

Section Parts.
Context {Snapshot : Type}.

Definition subscription_accepted (b : StreamItemBody Snapshot) : option SubscriptionAccepted :=
  match b with ItemSubscriptionAccepted a => Some a | _ => None end.
Definition snapshot_part (b : StreamItemBody Snapshot) : option Snapshot :=
  match b with ItemSnapshot snapshot => Some snapshot | _ => None end.
Definition depth_update (b : StreamItemBody Snapshot) : option DepthUpdate :=
  match b with ItemDepthUpdate update => Some update | _ => None end.
Definition consumer_gap (b : StreamItemBody Snapshot) : option ConsumerGapNotice :=
  match b with ItemConsumerGap gap => Some gap | _ => None end.
End Parts.

Definition ev_subscription_accepted (b : EnvelopeBody) : option SubscriptionAccepted :=
  match b with EnvSubscriptionAccepted a => Some a | _ => None end.
Definition ev_depth_update (b : EnvelopeBody) : option DepthUpdate :=
  match b with EnvDepthUpdate update => Some update | _ => None end.
Definition ev_consumer_gap (b : EnvelopeBody) : option ConsumerGapNotice :=
  match b with EnvConsumerGap gap => Some gap | _ => None end.

(** ** The requests *)

Section Requests.
Context `{W : WireEnums}.

(** [book_request], [order_book_request] and, for Spot, [make_request] of the integration
    driver. *)
Definition book_request (market : Z) (request_id : string) : OrderBookSubscriptionRequest :=
  MkOrderBookSubscriptionRequest request_id kOrderBookRequestSchema VENUE_BINANCE market "BTCUSDT"
    INITIAL_SNAPSHOT_MODE_REQUIRED None [kSnapshotSchema] [kUpdateSchema].

(** [event_request] and [usdm_event_request]. *)
Definition usdm_event_request (request_id : string) : EventSubscriptionRequest :=
  MkEventSubscriptionRequest request_id kEventRequestSchema DELIVERY_MODE_CONTIGUOUS_EVENTS
    [MkEventSelector VENUE_BINANCE MARKET_USD_M_PERPETUAL "BTCUSDT" STREAM_DIFF_DEPTH]
    [kDepthEventSchema].

(** [schema_for] of the event driver. *)
Definition schema_for (stream : Z) : string :=
  if (stream =? STREAM_DIFF_DEPTH)%Z then kDepthEventSchema
  else if (stream =? STREAM_AGG_TRADE)%Z then kAggTradeEventSchema
  else if (stream =? STREAM_BOOK_TICKER)%Z then kBookTickerEventSchema
  else EmptyString.

(** [make_request] of the event driver. *)
Definition spot_event_request (stream : Z) (request_id : string) : EventSubscriptionRequest :=
  MkEventSubscriptionRequest request_id kEventRequestSchema DELIVERY_MODE_CONTIGUOUS_EVENTS
    [MkEventSelector VENUE_BINANCE MARKET_SPOT "BTCUSDT" stream] [schema_for stream].

Definition valid_market_metadata (metadata : EventMetadata) (market : Z) : bool :=
  (md_venue metadata =? VENUE_BINANCE)%Z && (md_market metadata =? market)%Z
  && bool_decide (md_symbol metadata = "BTCUSDT").

(** The checks on a snapshot that all heads share. *)
Definition valid_snapshot {Snapshot} `{SnapshotMessage Snapshot} (snapshot : Snapshot) (market : Z)
  : bool :=
  (snap_venue snapshot =? VENUE_BINANCE)%Z && (snap_market snapshot =? market)%Z
  && bool_decide (snap_symbol snapshot = "BTCUSDT")
  && bool_decide (snap_schema_version snapshot = kSnapshotSchema)
  && snap_synchronized snapshot && negb (snap_last_update_id snapshot =? 0)%Z
  && negb (snap_bids_empty snapshot) && negb (snap_asks_empty snapshot).

Definition valid_update (update : DepthUpdate) (market : Z) : bool :=
  valid_market_metadata (du_metadata update) market
  && bool_decide (md_schema_version (du_metadata update) = kUpdateSchema).
End Requests.

(** ** The heads and cuts *)

Section Readers.
Context `{W : WireEnums} {Snapshot : Type} `{SM : !SnapshotMessage Snapshot} {S : Type}.
(** [reader.Read(&item)] of the two streams. *)
Context (ReadBook : prog S (option (Received (StreamItemBody Snapshot)))).
Context (ReadEvent : prog S (option (Received EnvelopeBody))).
Implicit Types (sequence : SessionSequence).

(** [reader.Read(&item)] and the part of the message it must be. *)
Definition read_part {Body Part} (Read : prog S (option (Received Body)))
  (part : Body → option Part) (sequence : SessionSequence) (gateway_instance_id : string)
  (expected_generation : option Z) : prog S (SessionSequence * option Part) :=
  item ← Read;
  mret (match item with
        | Some item => canonical_part part item sequence gateway_instance_id expected_generation
        | None => (sequence, None)
        end).

(** What the production client demands of an acceptance notice. *)
Definition valid_accepted (a : SubscriptionAccepted) (schema gateway_instance_id : string)
  (sequence : SessionSequence) : bool :=
  bool_decide (acc_schema_version a = schema)
  && bool_decide (acc_gateway_instance_id a = gateway_instance_id)
  && bool_decide (acc_subscription_id a = ss_subscription_id sequence)
  && negb (accepted_time_utc_ns a =? 0)%Z.

(** [read_book_head] of [production_daemon_acceptance]. *)
Definition read_book_head (market generation : Z) (gateway_instance_id : string) : prog S bool :=
  accepted ← read_part ReadBook subscription_accepted new_session gateway_instance_id None;
  match accepted with
  | (sequence, Some a) =>
      if negb (valid_accepted a kSubscriptionAcceptedSchema gateway_instance_id sequence
               && bool_decide (length (negotiated_payload_schema_versions a) = 2))
      then mret false else
      snapshot ← read_part ReadBook snapshot_part sequence gateway_instance_id (Some generation);
      match snapshot with
      | (sequence, Some snapshot) =>
          if negb (valid_snapshot snapshot market) then mret false else
          update ← read_part ReadBook depth_update sequence gateway_instance_id (Some generation);
          match update with
          | (_, Some update) =>
              mret (valid_update update market
                    && (snap_last_update_id snapshot <? final_update_id update)%Z)
          | _ => mret false
          end
      | _ => mret false
      end
  | _ => mret false
  end.

(** The checks that both event heads make of the first event. *)
Definition valid_usdm_event (update : DepthUpdate) : bool :=
  valid_market_metadata (du_metadata update) MARKET_USD_M_PERPETUAL
  && bool_decide (md_schema_version (du_metadata update) = kDepthEventSchema)
  && bool_decide (is_Some (receive_time_utc_ns (du_metadata update)))
  && bool_decide (is_Some (receive_monotonic_ns (du_metadata update))).

Definition negotiated_depth_event (a : SubscriptionAccepted) : bool :=
  bool_decide (length (negotiated_payload_schema_versions a) = 1)
  && bool_decide (negotiated_payload_schema_versions a !! 0 = Some kDepthEventSchema).

(** [read_event_head] of [production_daemon_acceptance]. *)
Definition read_event_head (generation : Z) (gateway_instance_id : string) : prog S bool :=
  accepted ← read_part ReadEvent ev_subscription_accepted new_session gateway_instance_id None;
  match accepted with
  | (sequence, Some a) =>
      if negb (valid_accepted a kEventSubscriptionAcceptedSchema gateway_instance_id sequence
               && negotiated_depth_event a)
      then mret false else
      update ← read_part ReadEvent ev_depth_update sequence gateway_instance_id (Some generation);
      match update with
      | (_, Some update) =>
          mret (valid_usdm_event update && negb (final_update_id update =? 0)%Z)
      | _ => mret false
      end
  | _ => mret false
  end.

(** The evidence of [g11_multi_market_live]. *)
Record OrderBookEvidence : Type := MkOrderBookEvidence {
  ob_sequence : SessionSequence;
  ob_snapshot_update_id : Z;
  ob_latest_update_id : Z;
  ob_applied_updates : nat
}.

Definition no_order_book_evidence : OrderBookEvidence := MkOrderBookEvidence new_session 0 0 0.

Record EventEvidence : Type := MkEventEvidence {
  ev_sequence : SessionSequence;
  ev_depth_events : nat
}.

Definition no_event_evidence : EventEvidence := MkEventEvidence new_session 0.

Definition at_sequence (sequence : SessionSequence) (e : OrderBookEvidence) : OrderBookEvidence :=
  MkOrderBookEvidence sequence (ob_snapshot_update_id e) (ob_latest_update_id e) (ob_applied_updates e).

(** An update that was applied: [latest_update_id = ...; ++applied_updates]. *)
Definition applied (update : DepthUpdate) (e : OrderBookEvidence) : OrderBookEvidence :=
  MkOrderBookEvidence (ob_sequence e) (ob_snapshot_update_id e) (final_update_id update)
    (ob_applied_updates e + 1).

(** [read_order_book_head] *)
Definition read_order_book_head (market generation : Z) (gateway_instance_id : string)
  (e : OrderBookEvidence) : prog S (OrderBookEvidence * bool) :=
  accepted ← read_part ReadBook subscription_accepted (ob_sequence e) gateway_instance_id None;
  let e := at_sequence (fst accepted) e in
  match snd accepted with
  | None => mret (e, false)
  | Some a =>
      if negb (bool_decide (acc_schema_version a = kSubscriptionAcceptedSchema))
      then mret (e, false) else
      snapshot ← read_part ReadBook snapshot_part (ob_sequence e) gateway_instance_id (Some generation);
      let e := at_sequence (fst snapshot) e in
      match snd snapshot with
      | None => mret (e, false)
      | Some snapshot =>
          if negb (valid_snapshot snapshot market) then mret (e, false) else
          let e := MkOrderBookEvidence (ob_sequence e) (snap_last_update_id snapshot)
                     (ob_latest_update_id e) (ob_applied_updates e) in
          update ← read_part ReadBook depth_update (ob_sequence e) gateway_instance_id (Some generation);
          let e := at_sequence (fst update) e in
          match snd update with
          | None => mret (e, false)
          | Some update =>
              if negb (valid_update update market)
                 || (final_update_id update <=? ob_snapshot_update_id e)%Z
              then mret (e, false) else mret (applied update e, true)
          end
      end
  end.

(** [read_spot_update_after]; [None]: still reading after [fuel] messages. *)
Fixpoint read_spot_update_after (fuel : nat) (generation update_id_cut : Z)
  (gateway_instance_id : string) (e : OrderBookEvidence)
  : prog S (option (OrderBookEvidence * bool)) :=
  match fuel with
  | O => mret None
  | Datatypes.S fuel =>
      item ← ReadBook;
      match item with
      | None => mret (Some (e, false))
      | Some item =>
          let '(sequence, update) :=
            canonical_part depth_update item (ob_sequence e) gateway_instance_id (Some generation) in
          let e := at_sequence sequence e in
          match update with
          | None => mret (Some (e, false))
          | Some update =>
              if negb (valid_update update MARKET_SPOT) then mret (Some (e, false)) else
              let e := applied update e in
              if (update_id_cut <? ob_latest_update_id e)%Z then mret (Some (e, true))
              else read_spot_update_after fuel generation update_id_cut gateway_instance_id e
          end
      end
  end.

(** A notice of the kind a cut waits for. *)
Definition valid_notice (gap : ConsumerGapNotice) (market reason recovery_action : Z) : bool :=
  (gap_market gap =? market)%Z && bool_decide (gap_symbol gap = "BTCUSDT")
  && (gap_stream gap =? STREAM_DIFF_DEPTH)%Z && (gap_reason gap =? reason)%Z
  && (gap_recovery_action gap =? recovery_action)%Z.

(** [read_order_book_recovery_cut]: the updates up to the notice, and nothing after it. *)
Fixpoint read_order_book_recovery_cut (fuel : nat) (market generation : Z)
  (gateway_instance_id : string) (e : OrderBookEvidence)
  : prog S (option (OrderBookEvidence * bool)) :=
  match fuel with
  | O => mret None
  | Datatypes.S fuel =>
      item ← ReadBook;
      match item with
      | None => mret (Some (e, false))
      | Some item =>
          let '(sequence, ok) :=
            canonical_delivery item (ob_sequence e) gateway_instance_id (Some generation) in
          let e := at_sequence sequence e in
          if negb ok then mret (Some (e, false)) else
          match body_of item with
          | Some (ItemDepthUpdate update) =>
              if negb (valid_update update market) then mret (Some (e, false))
              else read_order_book_recovery_cut fuel market generation gateway_instance_id
                     (applied update e)
          | Some (ItemConsumerGap gap) =>
              if valid_notice gap market CONSUMER_GAP_REASON_RESUME_NOT_AVAILABLE
                   RECOVERY_ACTION_REQUEST_NEW_SNAPSHOT
              then next ← ReadBook; mret (Some (e, bool_decide (next = None)))
              else mret (Some (e, false))
          | _ => mret (Some (e, false))
          end
      end
  end.

(** [read_usdm_event_head] *)
Definition read_usdm_event_head (generation : Z) (gateway_instance_id : string) (e : EventEvidence)
  : prog S (EventEvidence * bool) :=
  accepted ← read_part ReadEvent ev_subscription_accepted (ev_sequence e) gateway_instance_id None;
  let e := MkEventEvidence (fst accepted) (ev_depth_events e) in
  match snd accepted with
  | None => mret (e, false)
  | Some a =>
      if negb (negotiated_depth_event a) then mret (e, false) else
      update ← read_part ReadEvent ev_depth_update (ev_sequence e) gateway_instance_id (Some generation);
      let e := MkEventEvidence (fst update) (ev_depth_events e) in
      match snd update with
      | None => mret (e, false)
      | Some update =>
          if negb (valid_usdm_event update) then mret (e, false)
          else mret (MkEventEvidence (ev_sequence e) (ev_depth_events e + 1), true)
      end
  end.

(** [read_event_generation_cut] *)
Fixpoint read_event_generation_cut (fuel : nat) (generation : Z) (gateway_instance_id : string)
  (e : EventEvidence) : prog S (option (EventEvidence * bool)) :=
  match fuel with
  | O => mret None
  | Datatypes.S fuel =>
      item ← ReadEvent;
      match item with
      | None => mret (Some (e, false))
      | Some item =>
          let '(sequence, ok) :=
            canonical_delivery item (ev_sequence e) gateway_instance_id (Some generation) in
          let e := MkEventEvidence sequence (ev_depth_events e) in
          if negb ok then mret (Some (e, false)) else
          match body_of item with
          | Some (EnvDepthUpdate update) =>
              if negb (valid_market_metadata (du_metadata update) MARKET_USD_M_PERPETUAL
                       && bool_decide (md_schema_version (du_metadata update) = kDepthEventSchema))
              then mret (Some (e, false))
              else read_event_generation_cut fuel generation gateway_instance_id
                     (MkEventEvidence sequence (ev_depth_events e + 1))
          | Some (EnvConsumerGap gap) =>
              if valid_notice gap MARKET_USD_M_PERPETUAL
                   CONSUMER_GAP_REASON_CONNECTION_GENERATION_CHANGED RECOVERY_ACTION_RESUBSCRIBE
              then next ← ReadEvent; mret (Some (e, bool_decide (next = None)))
              else mret (Some (e, false))
          | _ => mret (Some (e, false))
          end
      end
  end.
End Readers.

(** [Read] over what is left of a stream. *)
Definition take_message {A} : prog (list A) (option A) :=
  atomically (λ l, match l with [] => ([], None) | item :: rest => (rest, Some item) end).

(** ** The session of the integration driver *)

Module Integration.

Record SessionEvidence : Type := MkSessionEvidence {
  canonical : bool;
  contiguous : bool;
  payload_after_terminal : bool;
  accepted : bool;
  snapshot : bool;
  later_update : bool;
  terminal : bool;
  expected_sequence : Z;
  snapshot_last_update_id : Z;
  snapshot_generation : option Z;
  update_generation : option Z;
  terminal_generation : option Z;
  terminal_reason : Z;
  recovery_action : Z;
  subscription_id : string
}.
#[global] Instance SessionEvidence_eta : Eta SessionEvidence :=
  λ e, MkSessionEvidence (canonical e) (contiguous e) (payload_after_terminal e) (accepted e)
    (snapshot e) (later_update e) (terminal e) (expected_sequence e) (snapshot_last_update_id e)
    (snapshot_generation e) (update_generation e) (terminal_generation e) (terminal_reason e)
    (recovery_action e) (subscription_id e).

Section Session.
Context `{W : WireEnums} {Snapshot : Type} `{SM : !SnapshotMessage Snapshot}.

Definition no_evidence : SessionEvidence :=
  MkSessionEvidence true true false false false false false 1 0 None None None
    CONSUMER_GAP_REASON_UNSPECIFIED RECOVERY_ACTION_UNSPECIFIED EmptyString.

(** The part of [accept_item] common to all messages. *)
Definition accept_metadata (gateway_instance_id : string) (metadata : DeliveryMetadata)
  (e : SessionEvidence) : SessionEvidence :=
  let e := if negb (bool_decide (dm_protocol_version metadata = kProtocolVersion))
              || negb (bool_decide (dm_gateway_instance_id metadata = gateway_instance_id))
              || (dm_publish_time_utc_ns metadata =? 0)%Z
           then e <| canonical := false |> else e in
  let e := if negb (dm_session_sequence metadata =? expected_sequence e)%Z
           then e <| contiguous := false |> else e in
  let e := if negb (expected_sequence e =? u64_max)%Z
           then e <| expected_sequence ::= λ n, (n + 1)%Z |> else e in
  if bool_decide (subscription_id e = EmptyString)
  then e <| subscription_id := dm_subscription_id metadata |>
  else if negb (bool_decide (dm_subscription_id metadata = subscription_id e))
  then e <| canonical := false |> else e.

(** An assignment under [has_connection_generation()]. *)
Definition generation_or (metadata : DeliveryMetadata) (old : option Z) : option Z :=
  match dm_connection_generation metadata with Some g => Some g | None => old end.

(** The switch on the [oneof]. *)
Definition accept_body (metadata : DeliveryMetadata) (body : option (StreamItemBody Snapshot))
  (e : SessionEvidence) : SessionEvidence :=
  let has_generation := bool_decide (is_Some (dm_connection_generation metadata)) in
  match body with
  | Some (ItemSubscriptionAccepted a) =>
      e <| accepted := (dm_session_sequence metadata =? 1)%Z && negb has_generation
             && bool_decide (acc_subscription_id a = subscription_id e) |>
  | Some (ItemSnapshot s) =>
      e <| snapshot := snap_synchronized s
             && bool_decide (snap_schema_version s = kSnapshotSchema)
             && bool_decide (snap_symbol s = "BTCUSDT")
             && negb (snap_last_update_id s =? 0)%Z
             && negb (snap_bids_empty s) && negb (snap_asks_empty s) && has_generation |>
        <| snapshot_last_update_id := snap_last_update_id s |>
        <| snapshot_generation ::= generation_or metadata |>
  | Some (ItemDepthUpdate update) =>
      e <| later_update := bool_decide (md_symbol (du_metadata update) = "BTCUSDT")
             && bool_decide (md_schema_version (du_metadata update) = kUpdateSchema)
             && (snapshot_last_update_id e <? final_update_id update)%Z && has_generation |>
        <| update_generation ::= generation_or metadata |>
  | Some (ItemConsumerGap gap) =>
      e <| terminal := true |>
        <| terminal_reason := gap_reason gap |>
        <| recovery_action := gap_recovery_action gap |>
        <| terminal_generation ::= generation_or metadata |>
  | None => e <| canonical := false |>
  end.

(** [accept_item] *)
Definition accept_item (gateway_instance_id : string) (e : SessionEvidence)
  (item : Received (StreamItemBody Snapshot)) : SessionEvidence :=
  let e := if terminal e then e <| payload_after_terminal := true |> else e in
  match delivery_metadata_of item with
  | None => e <| canonical := false |>
  | Some metadata =>
      if has_envelope_metadata item then e <| canonical := false |>
      else accept_body metadata (body_of item) (accept_metadata gateway_instance_id metadata e)
  end.
End Session.
End Integration.

(** ** The session of the event driver *)

Module SpotEvents.

Record SessionEvidence : Type := MkSessionEvidence {
  valid : bool;
  accepted : bool;
  terminal : bool;
  crossed_generation : bool;
  event_count : nat;
  next_sequence : Z;
  subscription_id : string;
  terminal_generation : option Z
}.
#[global] Instance SessionEvidence_eta : Eta SessionEvidence :=
  λ e, MkSessionEvidence (valid e) (accepted e) (terminal e) (crossed_generation e) (event_count e)
    (next_sequence e) (subscription_id e) (terminal_generation e).

Definition no_evidence : SessionEvidence :=
  MkSessionEvidence true false false false 0 1 EmptyString None.

Section Session.
Context `{W : WireEnums}.

(** [payload_matches] *)
Definition received_with (metadata : EventMetadata) (schema : string) : bool :=
  bool_decide (md_schema_version metadata = schema)
  && bool_decide (is_Some (receive_time_utc_ns metadata))
  && bool_decide (is_Some (receive_monotonic_ns metadata)).

Definition payload_matches (body : option EnvelopeBody) (stream : Z) : bool :=
  match body with
  | Some (EnvDepthUpdate update) =>
      (stream =? STREAM_DIFF_DEPTH)%Z && received_with (du_metadata update) kDepthEventSchema
  | Some (EnvAggTrade trade) =>
      (stream =? STREAM_AGG_TRADE)%Z && received_with (at_metadata trade) kAggTradeEventSchema
  | Some (EnvBookTicker ticker) =>
      (stream =? STREAM_BOOK_TICKER)%Z && received_with (bt_metadata ticker) kBookTickerEventSchema
      && negb (bool_decide (is_Some (exchange_event_time_ms (bt_metadata ticker))))
  | _ => false
  end.

(** The part of [accept_canonical] after the checks of the delivery. *)
Definition accept_body (metadata : DeliveryMetadata) (body : option EnvelopeBody)
  (expected_generation stream : Z) (e : SessionEvidence) : SessionEvidence * bool :=
  match body with
  | Some (EnvSubscriptionAccepted a) =>
      let ok := (dm_session_sequence metadata =? 1)%Z
                && negb (bool_decide (is_Some (dm_connection_generation metadata)))
                && bool_decide (length (negotiated_payload_schema_versions a) = 1)
                && bool_decide (negotiated_payload_schema_versions a !! 0 = Some (schema_for stream)) in
      (e <| accepted := ok |>, ok)
  | _ =>
      if payload_matches body stream then
        match dm_connection_generation metadata with
        | None => (e, false)
        | Some generation =>
            if negb (generation =? expected_generation)%Z
            then (e <| crossed_generation := true |>, false)
            else (e <| event_count ::= λ n, n + 1 |>, true)
        end
      else
        match body with
        | Some (EnvConsumerGap gap) =>
            let ok := (gap_reason gap =? CONSUMER_GAP_REASON_CONNECTION_GENERATION_CHANGED)%Z
                      && (gap_recovery_action gap =? RECOVERY_ACTION_RESUBSCRIBE)%Z
                      && bool_decide (is_Some (dm_connection_generation metadata)) in
            let e := e <| terminal := ok |> in
            let e := match dm_connection_generation metadata with
                     | Some generation =>
                         let e := e <| terminal_generation := Some generation |> in
                         if negb (generation =? expected_generation)%Z
                         then e <| crossed_generation := true |> else e
                     | None => e
                     end in
            (e, ok)
        | _ => (e, false)
        end
  end.

(** [accept_canonical] *)
Definition accept_canonical (e : SessionEvidence) (item : Received EnvelopeBody)
  (gateway_instance_id : string) (expected_generation stream : Z) : SessionEvidence * bool :=
  match delivery_metadata_of item with
  | None => (e, false)
  | Some metadata =>
      if has_envelope_metadata item then (e, false) else
      if negb (bool_decide (dm_protocol_version metadata = kProtocolVersion))
         || negb (bool_decide (dm_gateway_instance_id metadata = gateway_instance_id))
         || negb (dm_session_sequence metadata =? next_sequence e)%Z
         || (dm_publish_time_utc_ns metadata =? 0)%Z
      then (e, false) else
      let e := e <| next_sequence ::= u64_succ |> in
      if negb (bool_decide (subscription_id e = EmptyString))
         && negb (bool_decide (subscription_id e = dm_subscription_id metadata))
      then (e, false) else
      let e := if bool_decide (subscription_id e = EmptyString)
               then e <| subscription_id := dm_subscription_id metadata |> else e in
      accept_body metadata (body_of item) expected_generation stream e
  end.

(** A round of the loops that read a session: [valid = accept_canonical(...)]. *)
Definition accept_round (gateway_instance_id : string) (expected_generation stream : Z)
  (e : SessionEvidence) (item : Received EnvelopeBody) : SessionEvidence :=
  let '(e, ok) := accept_canonical e item gateway_instance_id expected_generation stream in
  e <| valid := ok |>.
End Session.
End SpotEvents.

(** ** The requests are accepted *)

Section Accepted.
Context `{W : WireEnums} `{!WireEnumsOk W}.

Lemma required_schema_for stream :
  stream = STREAM_DIFF_DEPTH ∨ stream = STREAM_AGG_TRADE ∨ stream = STREAM_BOOK_TICKER →
  required_event_schema stream = Some (schema_for stream) ∧ version_text (schema_for stream) = true.
Proof.
  unfold required_event_schema, schema_for. intros H. repeat case_match; [by split..|].
  rewrite !Z.eqb_neq in *. tauto.
Qed.

Lemma one_version version : version_text version = true → valid_version_list [version] = true.
Proof.
  intros H. apply valid_version_list_spec. split; [by repeat constructor|]. apply NoDup_singleton.
Qed.

(** The service accepts every request the drivers make, for any identifiers that are well
    formed, and subscribes them to what they ask for. *)
Theorem driver_requests_are_accepted request_id gateway_instance_id market stream :
  identifier_safe request_id = true → identifier_safe gateway_instance_id = true →
  market = MARKET_SPOT ∨ market = MARKET_USD_M_PERPETUAL →
  stream = STREAM_DIFF_DEPTH ∨ stream = STREAM_AGG_TRADE ∨ stream = STREAM_BOOK_TICKER →
  validate_g11_order_book_request (book_request market request_id) gateway_instance_id
    = inl (MkValidatedOrderBookSubscription request_id gateway_instance_id None) ∧
  validate_order_book_request (book_request MARKET_SPOT request_id) gateway_instance_id
    = inl (MkValidatedOrderBookSubscription request_id gateway_instance_id None) ∧
  validate_g11_event_request (usdm_event_request request_id) gateway_instance_id
    = inl (MkValidatedEventSubscription request_id STREAM_DIFF_DEPTH kDepthEventSchema) ∧
  validate_event_request (spot_event_request stream request_id) gateway_instance_id
    = inl (MkValidatedEventSubscription request_id stream (schema_for stream)).
Proof.
  intros Hid Hgid Hmarket Hstream.
  assert (Hv : ∀ v, version_text v = true → Forall (λ v, version_text v = true) [v] ∧ NoDup [v]).
  { intros v H. by apply valid_version_list_spec, one_version. }
  assert (Hbook : ∀ a b m, (m = MARKET_SPOT ∨ a = true ∧ m = MARKET_USD_M_PERPETUAL) →
    validate_order_book_request_impl (book_request m request_id) gateway_instance_id a b
    = inl (MkValidatedOrderBookSubscription request_id gateway_instance_id None)).
  { intros a b m Hm. apply (proj1 (order_book_request_spec _ _ _ _)). split; [|split; [|done]].
    - split; simpl; try done; by apply Hv.
    - split; apply list_elem_of_singleton; done. }
  destruct (required_schema_for _ Hstream) as [Hschema Htext].
  destruct (required_schema_for STREAM_DIFF_DEPTH ltac:(by left)) as [Hdepth _].
  split_and!.
  - apply Hbook. tauto.
  - apply Hbook. by left.
  - apply (proj1 (event_request_spec _ _ _ _)).
    exists (MkEventSelector VENUE_BINANCE MARKET_USD_M_PERPETUAL "BTCUSDT" STREAM_DIFF_DEPTH), kDepthEventSchema.
    split; [|split; [by apply list_elem_of_singleton|done]].
    split; simpl; try done; [split; [done|by apply Hv]| |by right].
    rewrite Hdepth. unfold schema_for. by rewrite Z.eqb_refl.
  - apply (proj1 (event_request_spec _ _ _ _)).
    exists (MkEventSelector VENUE_BINANCE MARKET_SPOT "BTCUSDT" stream), (schema_for stream).
    split; [|split; [by apply list_elem_of_singleton|done]].
    split; simpl; try done; [split; [done|by apply Hv]|by left].
Qed.
End Accepted.

(** ** A stream whose items are checked *)

(** A ring stores one queue. *)
Lemma ring_repr_unique {A} (r : Ring A) q q' : ring_repr r q → ring_repr r q' → q = q'.
Proof.
  intros H H'. apply list_eq_same_length with (length q); [|done|].
  - by rewrite <- (ring_repr_size _ _ H), (ring_repr_size _ _ H').
  - intros i a b _ Ha Hb. pose proof (ring_repr_lookup _ _ _ _ H Ha).
    pose proof (ring_repr_lookup _ _ _ _ H' Hb). congruence.
Qed.

Section ServedBook.
Context `{W : WireEnums} {Snapshot : Type}.
(** The session, the source generation it was admitted under, and what the runtime offers:
    snapshots, updates, and notices with their generation, reason and recovery action. *)
Context (gid sid : string) (generation : Z) (snapshot_ok : Snapshot → bool)
  (update_ok : DepthUpdate → bool) (notice_ok : option Z → Z → Z → bool).
Abbreviation Channel := (SubscriberChannel.Channel Snapshot).
Abbreviation Peeked := (SubscriberChannel.PeekedPublication Snapshot).
Implicit Types (c : Channel) (q : list (shared_ptr (SubscriberChannel.PublicationRecord Snapshot))).

Definition accepted_ok (a : SubscriptionAccepted) : bool :=
  bool_decide (acc_schema_version a = kSubscriptionAcceptedSchema)
  && bool_decide (acc_gateway_instance_id a = gid) && bool_decide (acc_subscription_id a = sid)
  && negb (accepted_time_utc_ns a =? 0)%Z
  && bool_decide (negotiated_payload_schema_versions a = [kSnapshotSchema; kUpdateSchema]).

(** What the message with session sequence [n] is, of the given connection generation. *)
Definition body_check (n : Z) (g : option Z) (body : StreamItemBody Snapshot) : bool :=
  match body with
  | ItemSubscriptionAccepted a => (n =? 1)%Z && bool_decide (g = None) && accepted_ok a
  | ItemSnapshot s => (n =? 2)%Z && bool_decide (g = Some generation) && snapshot_ok s
  | ItemDepthUpdate u => (3 <=? n)%Z && bool_decide (g = Some generation) && update_ok u
  | ItemConsumerGap gap => (3 <=? n)%Z && notice_ok g (gap_reason gap) (gap_recovery_action gap)
  end.

Definition item_check (item : OrderBookStreamItem Snapshot) : bool :=
  let d := item_delivery item in
  bool_decide (dm_protocol_version d = kProtocolVersion)
  && bool_decide (dm_gateway_instance_id d = gid) && bool_decide (dm_subscription_id d = sid)
  && negb (dm_publish_time_utc_ns d =? 0)%Z && (dm_session_sequence d <=? u64_max)%Z
  && body_check (dm_session_sequence d) (dm_connection_generation d) (item_body item).

(** The calls of the runtime on the channel. *)
Inductive product_call : Channel → Channel → Prop :=
| product_admits c update time alloc :
    update_ok (sp_obj update) = true → utc_ns time ≠ 0%Z →
    product_call c (fst (SubscriberChannel.admit_update (Some update) (Some generation) time alloc c))
| product_terminalizes c reason action g time :
    notice_ok g reason action = true → utc_ns time ≠ 0%Z →
    product_call c (fst (SubscriberChannel.terminalize reason action g time c))
| product_closes c : product_call c (SubscriberChannel.close_from_owner c).

(** The channel, with the runtime as its only producer. *)
Definition served_book : SessionChannel Channel Peeked := {|
  sc_sequence := sc_sequence;
  sc_peek := sc_peek;
  sc_acknowledge := sc_acknowledge;
  sc_close_from_writer := sc_close_from_writer;
  sc_producer := product_call
|}.

Lemma product_call_owner c c' : product_call c c' → owner_call c c'.
Proof. intros []; constructor. Qed.

(** A publication that is written as a message that passes the check. *)
Definition publication_ok (p : Peeked) : Prop :=
  match SubscriberChannel.peeked_ordinary p, SubscriberChannel.peeked_terminal p with
  | Some r, _ =>
      let r := sp_obj r in
      let n := SubscriberChannel.session_sequence r in
      let g := SubscriberChannel.connection_generation r in
      utc_ns (SubscriberChannel.published_at r) ≠ 0%Z ∧ (n <= u64_max)%Z ∧
      match SubscriberChannel.payload r with
      | SubscriberChannel.PayloadAccepted a => body_check n g (ItemSubscriptionAccepted a) = true
      | SubscriberChannel.PayloadSnapshot s => body_check n g (ItemSnapshot s) = true
      | SubscriberChannel.PayloadDepthUpdate (Some u) => body_check n g (ItemDepthUpdate (sp_obj u)) = true
      | SubscriberChannel.PayloadDepthUpdate None => False
      end
  | None, Some t =>
      utc_ns (td_published_at t) ≠ 0%Z ∧ (3 <= td_session_sequence t <= u64_max)%Z ∧
      notice_ok (td_connection_generation t) (td_reason t) (td_recovery_action t) = true
  | None, None => False
  end.

Record served_inv (base : Z) c q : Prop := {
  sv_channel : channel_inv base c q;
  sv_sid : SubscriberChannel.subscription_id c = sid;
  sv_gid : SubscriberChannel.gateway_instance_id c = gid;
  sv_items : Forall publication_ok (channel_items c q);
  sv_next : SubscriberChannel.state c = SubActive → (3 <= SubscriberChannel.next_session_sequence c)%Z
}.

(** A well-formed publication is written as a message that passes the check. *)
Lemma served_materializes key base c q p :
  served_inv base c q → p ∈ channel_items c q →
  ∃ item, materialize_stream_item c p key = Returned item ∧
          dm_session_sequence (item_delivery item) = sc_sequence (SessionChannel := served_book) p ∧
          item_check item = true.
Proof.
  intros [Hi Hsid Hgid Hok _] Hp. pose proof (proj1 (Forall_forall _ _) Hok p Hp) as Hpub.
  assert (Hcommon : ∀ n g at_time body,
    utc_ns at_time ≠ 0%Z → (n <= u64_max)%Z → body_check n g body = true →
    item_check (MkOrderBookStreamItem
      (delivery_metadata (SubscriberChannel.gateway_instance_id c) (SubscriberChannel.subscription_id c)
         n g at_time) body) = true).
  { intros n g at_time body Hutc Hn Hb. unfold item_check, delivery_metadata. simpl.
    rewrite Hsid, Hgid, !bool_decide_eq_true_2, (proj2 (Z.eqb_neq _ _) Hutc) by done. simpl.
    by rewrite (proj2 (Z.leb_le _ _) Hn), Hb. }
  destruct p as [[r|] [t|]]; unfold publication_ok in Hpub; cbn in Hpub;
    unfold materialize_stream_item, materialize_stream_item_for;
    cbn [SubscriberChannel.peeked_ordinary SubscriberChannel.peeked_terminal].
  1, 2: destruct Hpub as (Hutc & Hn & Hb);
    destruct key; destruct (SubscriberChannel.payload (sp_obj r)) as [a|s|[u|]]; try done;
    (eexists; split_and!; [done|done|by apply Hcommon]).
  - destruct Hpub as (Hutc & Hn & Hb).
    destruct key; (eexists; split_and!; [done|done|]; apply Hcommon; [done|lia|]);
      simpl; rewrite Hb; by rewrite (proj2 (Z.leb_le _ _)) by lia.
  - done.
Qed.

(** The check as the number of a message: zero when it fails. *)
Definition checked_sequence (item : OrderBookStreamItem Snapshot) : Z :=
  if item_check item then dm_session_sequence (item_delivery item) else 0.

Hypothesis slow_consumer_ok :
  notice_ok None CONSUMER_GAP_REASON_SLOW_CONSUMER RECOVERY_ACTION_RESUBSCRIBE = true.

(** Reserving the notice of an active channel. *)
Lemma served_reserve base c q t :
  served_inv base c q → SubscriberChannel.state c = SubActive →
  td_session_sequence t = SubscriberChannel.next_session_sequence c →
  utc_ns (td_published_at t) ≠ 0%Z →
  notice_ok (td_connection_generation t) (td_reason t) (td_recovery_action t) = true →
  let c' := SubscriberChannel.set_state SubTerminalGap
              (SubscriberChannel.set_next
                 (SubscriberChannel.bump_after_terminal (SubscriberChannel.next_session_sequence c))
                 (SubscriberChannel.set_terminal (Some t) c)) in
  served_inv base c' q ∧ channel_items c q `prefix_of` channel_items c' q.
Proof.
  intros [Hi Hsid Hgid Hok Hnext] Hact Hseq Hutc Hn c'.
  destruct (reserve_terminal_inv base c q t Hi Hact Hseq) as [Hi' Hpre]. split; [|exact Hpre].
  split; [exact Hi'|exact Hsid|exact Hgid| |done].
  destruct (ci_active _ _ _ Hi Hact) as [Hnone _].
  unfold channel_items in *. cbn. rewrite Hnone, app_nil_r in Hok. apply Forall_app. split; [exact Hok|].
  constructor; [|constructor]. cbn. specialize (Hnext Hact). pose proof (ci_next _ _ _ Hi).
  split; [done|]. split; [lia|done].
Qed.

Lemma served_producer base c q c' :
  served_inv base c q → product_call c c' →
  ∃ q', served_inv base c' q' ∧ channel_items c q `prefix_of` channel_items c' q'.
Proof.
  intros Hs Hcall. pose proof Hs as [Hi Hsid Hgid Hok Hnext].
  destruct Hcall as [c u time alloc Hu Hutc|c reason action g time Hn Hutc|c].
  - unfold SubscriberChannel.admit_update.
    destruct (bool_decide (SubscriberChannel.state c = SubActive)) eqn:Hact; cbn [negb]; [|by exists q].
    apply bool_decide_eq_true in Hact. specialize (Hnext Hact).
    case_decide as Hfull; [exists q; by apply served_reserve|].
    destruct (Z.eqb_spec (SubscriberChannel.next_session_sequence c) u64_max); [by exists q|].
    destruct alloc as [addr|]; [|by exists q].
    set (rec := SharedPtr addr _).
    destruct (SubscriberChannel.ring_push_locked (Some rec) c) as [c1|] eqn:Hpush; [|by exists q].
    unfold SubscriberChannel.ring_push_locked in Hpush.
    pose proof (ring_push_repr _ _ rec (ci_repr _ _ _ Hi)) as Hr.
    destruct (ring_push (Some rec) (SubscriberChannel.ring c)) as [r'|] eqn:Hrp; [|done]. injection Hpush as <-.
    destruct Hr as [_ Hr]. destruct (ci_active _ _ _ Hi Hact) as [Hnone Hnx].
    pose proof (ci_next _ _ _ Hi) as Hmax.
    assert (Hlen : Z.of_nat (length (q ++ [rec])) = (length q + 1)%Z) by (rewrite length_app; simpl; lia).
    assert (Hitems : channel_items (SubscriberChannel.set_next
              (u64_succ (SubscriberChannel.next_session_sequence c)) (SubscriberChannel.set_ring r' c))
              (q ++ [rec]) = channel_items c q ++ [SubscriberChannel.MkPeekedPublication (Some rec) None]).
    { unfold channel_items. cbn. rewrite Hnone, fmap_app. by rewrite !app_nil_r. }
    exists (q ++ [rec]). cbn [fst]. rewrite Hitems. split; [|by apply prefix_app_r].
    split; [|done|done| |intros _; simpl; rewrite u64_succ_small by lia; lia].
    + pose proof Hi as [Hrp' Hb Hsq Ht Ha Hg Hnm Hpl].
      split; simpl; auto; try done.
      * rewrite fmap_app, Hsq, Hlen. simpl. rewrite seqZ_snoc by lia. unfold seq_of at 1. simpl. by rewrite Hnx.
      * intros t'. rewrite Hnone. done.
      * intros _. split; [done|]. rewrite u64_succ_small by lia. lia.
      * rewrite u64_succ_small by lia. lia.
      * by apply Forall_snoc.
    + rewrite Hitems. apply Forall_app. split; [exact Hok|]. constructor; [|constructor].
      cbn. split; [done|]. split; [lia|].
      rewrite (proj2 (Z.leb_le _ _)) by lia. by rewrite bool_decide_eq_true_2, Hu.
  - unfold SubscriberChannel.terminalize.
    destruct (bool_decide (SubscriberChannel.state c = SubActive)) eqn:Hact; cbn [negb orb]; [|by exists q].
    apply bool_decide_eq_true in Hact.
    destruct (bool_decide (is_Some (SubscriberChannel.terminal c))); [by exists q|].
    exists q. by apply served_reserve.
  - exists q. split; [|done]. split; [by apply close_from_owner_inv|done|done|done|done].
Qed.

Lemma acknowledge_ids p c :
  let c' := fst (SubscriberChannel.acknowledge p c) in
  SubscriberChannel.subscription_id c' = SubscriberChannel.subscription_id c ∧
  SubscriberChannel.gateway_instance_id c' = SubscriberChannel.gateway_instance_id c ∧
  (SubscriberChannel.state c' = SubActive →
   SubscriberChannel.state c = SubActive ∧
   SubscriberChannel.next_session_sequence c' = SubscriberChannel.next_session_sequence c).
Proof. unfold SubscriberChannel.acknowledge. by repeat case_match. Qed.

Lemma acknowledge_closed p c c' :
  SubscriberChannel.acknowledge p c = (c', AckClosed) →
  c' = c ∨ SubscriberChannel.state c' = SubClosed ∧ SubscriberChannel.terminal c' = None ∧
           size (SubscriberChannel.ring c') = 0.
Proof.
  unfold SubscriberChannel.acknowledge. repeat case_match; try done; intros [= <-]; [by left|].
  right. split_and!; [done|done|]. simpl.
  repeat match goal with H : _ && _ = true |- _ => apply andb_true_iff in H as [? ?] end.
  by repeat match goal with H : bool_decide _ = true |- _ => apply bool_decide_eq_true in H end.
Qed.

Lemma served_acknowledge base c q p items c' r :
  served_inv base c q → channel_items c q = p :: items → SubscriberChannel.acknowledge p c = (c', r) →
  r ≠ AckMismatch ∧
  (r = AckAcknowledged → ∃ q', served_inv (base + 1) c' q' ∧ channel_items c' q' = items) ∧
  ∃ base' q', served_inv base' c' q'.
Proof.
  intros [Hi Hsid Hgid Hok Hnext] Hitems Hack.
  pose proof (acknowledge_ids p c) as (H1 & H2 & H3). rewrite Hack in H1, H2, H3. cbn in H1, H2, H3.
  rewrite Hitems in Hok. apply Forall_cons in Hok as [Hp Hok].
  destruct (acknowledge_item_inv _ _ _ _ _ _ _ Hi Hitems Hack) as (Hm & Ha & base' & q' & Hi').
  assert (Hn : SubscriberChannel.state c' = SubActive → (3 <= SubscriberChannel.next_session_sequence c')%Z).
  { intros Hst. destruct (H3 Hst) as [? ->]. by apply Hnext. }
  assert (Hacked : r = AckAcknowledged → ∃ q', served_inv (base + 1) c' q' ∧ channel_items c' q' = items).
  { intros Hr. destruct (Ha Hr) as (q1 & Hi1 & Hit1). exists q1. split; [|done].
    split; [done|by rewrite H1|by rewrite H2|by rewrite Hit1|done]. }
  split; [done|]. split; [done|].
  destruct r; [|..].
  - destruct (Hacked eq_refl) as (q1 & Hs1 & _). by eexists _, q1.
  - destruct (acknowledge_closed p c c' Hack) as [->|(Hst & Ht & Hring)].
    + exists base, q. split; [done|done|done|by rewrite Hitems; constructor|done].
    + exists base', q'. split; [done|by rewrite H1|by rewrite H2| |done].
      assert (q' = []) as ->.
      { pose proof (ring_repr_size _ _ (ci_repr _ _ _ Hi')). destruct q'; [done|simpl in *; lia]. }
      unfold channel_items. rewrite Ht. constructor.
  - done.
Qed.

Definition served_book_ok : SessionChannelOk Channel Peeked (H := served_book).
Proof.
  refine (@Build_SessionChannelOk _ _ served_book
            (λ base c items, ∃ q, served_inv base c q ∧ channel_items c q = items) _ _ _ _ _).
  - intros base c items (q & [Hi _ _ _ _] & <-). by apply channel_items_sequence.
  - intros base c items c' (q & Hi & <-) Hp.
    destruct (served_producer _ _ _ _ Hi Hp) as (q' & ? & ?). eauto.
  - intros base c items p (q & [Hi _ _ _ _] & <-) Hp.
    exact (sc_inv_peek base c (channel_items c q) p (ex_intro _ q (conj Hi eq_refl)) Hp).
  - intros base c p items c' r (q & Hi & Hq) Hack.
    destruct (served_acknowledge _ _ _ _ _ _ _ Hi Hq Hack) as (? & ? & b' & q' & ?). eauto 10.
  - intros base c items (q & [Hi Hsid Hgid Hok Hn] & <-). exists base, [], []. split; [|done].
    split; [by eapply close_from_writer_inv|done|done|constructor|done].
Defined.

Definition served_book_handler_ok :
  StreamHandlerOk Channel Peeked (OrderBookStreamItem Snapshot) ValidatedOrderBookSubscription
    SubscriptionAdmissionError (Ops := served_book) (Ok := served_book_ok).
Proof.
  refine (@Build_StreamHandlerOk _ _ _ _ _ served_book served_book_ok order_book_handler
            checked_sequence has_consumer_gap _ _ _ _).
  - intros key base c items p (q & Hs & <-) Hp.
    destruct (served_materializes key base c q p Hs Hp) as (item & Hit & Hseq & Hcheck).
    exists item. split; [exact Hit|]. unfold checked_sequence. by rewrite Hcheck.
  - intros key c p item c'. apply order_book_notice_is_last.
  - intros c st. exact (sh_idle (StreamHandlerOk := order_book_handler_ok) c st).
  - intros c c' Hr. apply (sh_closed (StreamHandlerOk := order_book_handler_ok) c c').
    exact (rtc_subrel product_call owner_call _ _ product_call_owner Hr).
Defined.

(** A channel on which the runtime has staged the acceptance notice and its snapshot. *)
Definition staged_book c : Prop :=
  ∃ request_id accepted_at snapshot snapshot_at a1 a2 capacity c0,
    utc_ns accepted_at ≠ 0%Z ∧ utc_ns snapshot_at ≠ 0%Z ∧ snapshot_ok snapshot = true ∧
    SubscriberChannel.make sid gid capacity = Some c0 ∧
    SubscriberChannel.stage_initial
      (Some (SubscriberChannel.make_accepted_record request_id sid gid accepted_at a1))
      (Some (SubscriberChannel.make_snapshot_record snapshot (Some generation) snapshot_at a2)) c0
    = (c, true).

Lemma staged_served c : staged_book c → ∃ q, served_inv 1 c q.
Proof.
  intros (request_id & at1 & snapshot & at2 & a1 & a2 & capacity & c0 & Hat1 & Hat2 & Hsn & Hmake & Hst).
  assert (Hstaged : staged c) by (by eexists sid, gid, capacity, c0, _, _).
  destruct (stage_initial_inv c Hstaged) as (q & Hi & Hact). exists q.
  unfold SubscriberChannel.make in Hmake. case_decide as Hcap; simplify_eq.
  unfold SubscriberChannel.stage_initial, SubscriberChannel.ring_push_locked in Hst. simpl in Hst.
  destruct (bool_decide (capacity < 2)) eqn:Hc2; simpl in Hst; [done|].
  pose proof (ring_make_repr (A := shared_ptr (SubscriberChannel.PublicationRecord Snapshot)) capacity
                ltac:(lia)) as Hr.
  pose proof (ring_push_repr _ _ (SubscriberChannel.make_accepted_record request_id sid gid at1 a1) Hr) as H1.
  destruct (ring_push (Some (SubscriberChannel.make_accepted_record request_id sid gid at1 a1))
              (ring_make capacity)) as [r1|] eqn:E1; simpl in Hst; [|done].
  destruct H1 as [_ H1].
  pose proof (ring_push_repr _ _ (SubscriberChannel.make_snapshot_record snapshot (Some generation) at2 a2) H1)
    as H2.
  destruct (ring_push (Some (SubscriberChannel.make_snapshot_record snapshot (Some generation) at2 a2)) r1)
    as [r2|] eqn:E2; simpl in Hst; [|done].
  destruct H2 as [_ H2]. injection Hst as <-.
  assert (q = [SubscriberChannel.make_accepted_record request_id sid gid at1 a1;
               SubscriberChannel.make_snapshot_record snapshot (Some generation) at2 a2]) as ->.
  { pose proof (ci_repr _ _ _ Hi) as Hq. simpl in Hq. by eapply ring_repr_unique. }
  split; [exact Hi|done|done| |done].
  unfold channel_items. simpl. repeat constructor; simpl; try done; try (unfold u64_max; lia).
  - unfold accepted_ok. cbn. rewrite !bool_decide_eq_true_2 by done.
    by rewrite (proj2 (Z.eqb_neq _ _) Hat1).
  - by rewrite bool_decide_eq_true_2, Hsn.
Qed.

(** The messages of a session: numbered from 1, each passing the check, and none after a
    notice. *)
Record served_items (items : list (OrderBookStreamItem Snapshot)) : Prop := {
  si_check (i : nat) item : items !! i = Some item →
    dm_session_sequence (item_delivery item) = (1 + i)%Z ∧ item_check item = true;
  si_last : Forall (λ item, has_consumer_gap item = false) (removelast items)
}.

Abbreviation Call := (Call Channel (OrderBookStreamItem Snapshot) ValidatedOrderBookSubscription
                        SubscriptionAdmissionError).

(** What the client, the runtime of the product and the server do meanwhile. *)
Definition book_others : Call → Call → Prop := others (Ops := served_book) (Ok0 := served_book_ok).

(** In any interleaving of the handler of [GrpcStreams] with them. *)
Lemma handler_serves arguments request instance_id registry runtime fuel (s0 s : Call) thread :
  call_start (Ops := served_book) (Ok0 := served_book_ok) s0 →
  star (interleave book_others)
    (s0, SubscribeOrderBook arguments request instance_id registry runtime fuel) (s, thread) →
  served_items (written s).
Proof.
  intros H0 Hstar.
  destruct (handler_contract (Ops := served_book) (Ok0 := served_book_ok) (HOk := served_book_handler_ok)
    (λ _ _, True) _ _ _ _ _ _ _ s0 s thread (λ _ _ _ _, Logic.I) H0 Hstar) as [[Hw Hl _ _ _] _].
  split; [|exact Hl]. intros i item Hi.
  assert (Hc : checked_sequence item = (1 + i)%Z).
  { pose proof (f_equal (λ l, l !! i) Hw) as Hat. cbn beta in Hat.
    rewrite list_lookup_fmap, Hi in Hat. cbn in Hat. symmetry in Hat.
    rewrite lookup_seqZ in Hat. destruct Hat as [Hat _]. lia. }
  unfold checked_sequence in Hc. destruct (item_check item); [|lia]. by split.
Qed.
End ServedBook.

(** ** What the clients of the order book find *)

Section BookClients.
Context `{W : WireEnums} {Snapshot : Type} `{SM : !SnapshotMessage Snapshot}.
(** A session of a product: the runtime staged a valid snapshot of the product, with this
    last update id, and offers valid updates that come after it. *)
Context (gid sid : string) (market generation last_id : Z) (notice_ok : option Z → Z → Z → bool).
Hypothesis sid_nonempty : sid ≠ EmptyString.

Definition session_snapshot (s : Snapshot) : bool :=
  valid_snapshot s market && (snap_last_update_id s =? last_id)%Z.
Definition session_update (u : DepthUpdate) : bool :=
  valid_update u market && (last_id <? final_update_id u)%Z.

Abbreviation check := (item_check gid sid generation session_snapshot session_update notice_ok).
Abbreviation served := (served_items gid sid generation session_snapshot session_update notice_ok).
Implicit Types (item : OrderBookStreamItem Snapshot) (sequence : SessionSequence).

Lemma check_fields item :
  check item = true →
  let d := item_delivery item in
  dm_protocol_version d = kProtocolVersion ∧ dm_gateway_instance_id d = gid ∧
  dm_subscription_id d = sid ∧ dm_publish_time_utc_ns d ≠ 0%Z ∧ (dm_session_sequence d <= u64_max)%Z ∧
  body_check gid sid generation session_snapshot session_update notice_ok (dm_session_sequence d)
    (dm_connection_generation d) (item_body item) = true.
Proof.
  unfold item_check. rewrite !andb_true_iff, !bool_decide_eq_true, negb_true_iff, Z.eqb_neq, Z.leb_le.
  tauto.
Qed.

(** A message of the session that follows what was read so far is canonical, for the
    generation it carries. *)
Lemma served_canonical item sequence :
  check item = true → dm_session_sequence (item_delivery item) = ss_next sequence →
  ss_subscription_id sequence = EmptyString ∨ ss_subscription_id sequence = sid →
  canonical_delivery (book_received item) sequence gid (dm_connection_generation (item_delivery item))
  = (MkSessionSequence (u64_succ (ss_next sequence)) sid, true).
Proof.
  intros (Hp & Hg & Hs & Ht & _ & _)%check_fields Hn Hid. unfold canonical_delivery. cbn [book_received
    delivery_metadata_of has_envelope_metadata].
  rewrite Hp, Hg, Hs, Hn, Z.eqb_refl, (proj2 (Z.eqb_neq _ _) Ht), eqb_reflx, !bool_decide_eq_true_2
    by done.
  rewrite (bool_decide_eq_true_2 (dm_connection_generation (item_delivery item) = _)) by done.
  assert (Hno : ∀ b, b && negb true = false) by by intros []. rewrite Hno. cbn [negb orb].
  destruct sequence as [n id]. cbn [ss_subscription_id ss_next] in *. destruct Hid as [->| ->].
  - rewrite (bool_decide_eq_true_2 (EmptyString = EmptyString)) by done.
    cbn [negb andb ss_subscription_id]. by rewrite bool_decide_eq_false_2.
  - rewrite (bool_decide_eq_false_2 (sid = EmptyString)), (bool_decide_eq_true_2 (sid = sid)) by done.
    cbn [negb andb ss_subscription_id]. by rewrite bool_decide_eq_false_2.
Qed.

(** The message with its number: what kind it is. *)
Lemma served_kind (items : list (OrderBookStreamItem Snapshot)) (i : nat) item :
  served items → items !! i = Some item →
  match i with
  | 0 => ∃ a, item_body item = ItemSubscriptionAccepted a ∧ accepted_ok gid sid a = true ∧
              dm_connection_generation (item_delivery item) = None
  | 1 => ∃ s, item_body item = ItemSnapshot s ∧ session_snapshot s = true ∧
              dm_connection_generation (item_delivery item) = Some generation
  | _ => (∃ u, item_body item = ItemDepthUpdate u ∧ session_update u = true ∧
               dm_connection_generation (item_delivery item) = Some generation) ∨
         (∃ gap, item_body item = ItemConsumerGap gap ∧ i + 1 = length items ∧
                 notice_ok (dm_connection_generation (item_delivery item)) (gap_reason gap)
                   (gap_recovery_action gap) = true)
  end.
Proof.
  intros [Hcheck Hlast] Hi. destruct (Hcheck i item Hi) as [Hn Hc].
  pose proof (check_fields item Hc) as (_ & _ & _ & _ & _ & Hb). rewrite Hn in Hb.
  unfold body_check in Hb. destruct (item_body item) as [a|s|u|gap] eqn:Hbody;
    rewrite ?andb_true_iff, ?bool_decide_eq_true, ?Z.eqb_eq, ?Z.leb_le in Hb.
  - destruct Hb as [[Hz Hg] Ha]. assert (i = 0) as -> by lia. by exists a.
  - destruct Hb as [[Hz Hg] Ha]. assert (i = 1) as -> by lia. by exists s.
  - destruct Hb as [[Hz Hg] Ha]. destruct i as [|[|i]]; [lia..|]. left. by exists u.
  - destruct Hb as [Hz Ha]. destruct i as [|[|i]]; [lia..|]. right. exists gap. split_and!; [done| |done].
    destruct (decide (S (S i) + 1 = length items)) as [|Hne]; [done|].
    apply lookup_lt_Some in Hi as Hlt.
    assert (Hr : removelast items !! S (S i) = Some item).
    { destruct items as [|x l] using rev_ind; [done|]. rewrite removelast_last.
      rewrite length_app in Hlt, Hne. simpl in Hlt, Hne.
      by rewrite lookup_app_l in Hi by lia. }
    apply (proj1 (Forall_lookup _ _) Hlast) in Hr. unfold has_consumer_gap in Hr. by rewrite Hbody in Hr.
Qed.

Lemma run_read_part {Body Part} (part : Body → option Part) (item : Received Body) l sequence instance_id g :
  run (read_part take_message part sequence instance_id g) (item :: l)
  = (l, canonical_part part item sequence instance_id g).
Proof. reflexivity. Qed.

(** The same for one part of the [oneof]. *)
Lemma served_part {Part} (part : StreamItemBody Snapshot → option Part) item sequence g p :
  check item = true → dm_session_sequence (item_delivery item) = ss_next sequence →
  ss_subscription_id sequence = EmptyString ∨ ss_subscription_id sequence = sid →
  part (item_body item) = Some p → dm_connection_generation (item_delivery item) = g →
  canonical_part part (book_received item) sequence gid g
  = (MkSessionSequence (u64_succ (ss_next sequence)) sid, Some p).
Proof.
  intros Hc Hn Hid Hp <-. unfold canonical_part. cbn [book_received body_of mbind option_bind].
  rewrite Hp. by rewrite (served_canonical item sequence Hc Hn Hid).
Qed.

Lemma accepted_valid a :
  accepted_ok gid sid a = true →
  valid_accepted a kSubscriptionAcceptedSchema gid (MkSessionSequence 2 sid) = true ∧
  acc_schema_version a = kSubscriptionAcceptedSchema ∧
  length (negotiated_payload_schema_versions a) = 2.
Proof.
  unfold accepted_ok, valid_accepted. rewrite !andb_true_iff, !bool_decide_eq_true.
  intros ((((H1 & H2) & H3) & H4) & H5). rewrite H5. split_and!; done.
Qed.

(** The first three messages of a session: what the heads of the drivers expect. *)
Lemma session_head (items : list (OrderBookStreamItem Snapshot)) third u :
  served items → items !! 2 = Some third → item_body third = ItemDepthUpdate u →
  ∃ first second rest a snapshot,
    items = first :: second :: third :: rest ∧
    valid_accepted a kSubscriptionAcceptedSchema gid (MkSessionSequence 2 sid) = true ∧
    acc_schema_version a = kSubscriptionAcceptedSchema ∧
    length (negotiated_payload_schema_versions a) = 2 ∧
    session_snapshot snapshot = true ∧ session_update u = true ∧
    (∀ sequence, ss_next sequence = 1%Z →
       ss_subscription_id sequence = EmptyString →
       canonical_part subscription_accepted (book_received first) sequence gid None
       = (MkSessionSequence 2 sid, Some a)) ∧
    canonical_part snapshot_part (book_received second) (MkSessionSequence 2 sid) gid (Some generation)
    = (MkSessionSequence 3 sid, Some snapshot) ∧
    canonical_part depth_update (book_received third) (MkSessionSequence 3 sid) gid (Some generation)
    = (MkSessionSequence 4 sid, Some u).
Proof.
  intros Hs H2 Hu. destruct items as [|first [|second [|third' rest]]]; try done.
  injection H2 as ->.
  destruct (served_kind _ 0 first Hs eq_refl) as (a & Ha & Hacc & Hg0).
  destruct (served_kind _ 1 second Hs eq_refl) as (snapshot & Hsn & Hsnok & Hg1).
  destruct (served_kind _ 2 third Hs eq_refl) as [(u' & Hu' & Huok & Hg2)|(gap & Hgap & _)]; [|congruence].
  assert (u' = u) as -> by congruence.
  destruct (accepted_valid a Hacc) as (Hv & Hv' & Hlen).
  pose proof (si_check _ _ _ _ _ _ _ Hs 0 first eq_refl) as [Hn0 Hc0].
  pose proof (si_check _ _ _ _ _ _ _ Hs 1 second eq_refl) as [Hn1 Hc1].
  pose proof (si_check _ _ _ _ _ _ _ Hs 2 third eq_refl) as [Hn2 Hc2].
  exists first, second, rest, a, snapshot. split_and!; try done.
  - intros [n id] Hnext Hid. simpl in *. subst. apply served_part; [done|done|by left|by rewrite Ha|done].
  - apply served_part; [done|done|by right|by rewrite Hsn|done].
  - apply served_part; [done|done|by right|by rewrite Hu|done].
Qed.

(** Both heads, of the production client and of the two-market driver, are read from a
    session whose third message is an update. *)
Lemma order_book_head_is_read (items : list (OrderBookStreamItem Snapshot)) third u :
  served items → items !! 2 = Some third → item_body third = ItemDepthUpdate u →
  snd (run (read_book_head take_message market generation gid) (book_received <$> items)) = true ∧
  run (read_order_book_head take_message market generation gid no_order_book_evidence)
    (book_received <$> items)
  = (book_received <$> drop 3 items,
     (MkOrderBookEvidence (MkSessionSequence 4 sid) last_id (final_update_id u) 1, true)).
Proof.
  intros Hs H2 Hu.
  destruct (session_head items third u Hs H2 Hu)
    as (first & second & rest & a & snapshot & -> & Hv & Hv' & Hlen & Hsn & Hup & P0 & P1 & P2).
  unfold session_snapshot, session_update in Hsn, Hup.
  apply andb_true_iff in Hsn as [Hsn Hlast%Z.eqb_eq], Hup as [Hup Hlater].
  rewrite !fmap_cons. cbn [drop]. split.
  - unfold read_book_head. rewrite run_bind, run_read_part, (P0 new_session) by done. cbn [fst snd].
    rewrite Hv, Hlen, bool_decide_eq_true_2 by done. cbn [andb negb].
    rewrite run_bind, run_read_part, P1. cbn [fst snd]. rewrite Hsn. cbn [negb].
    rewrite run_bind, run_read_part, P2. cbn [fst snd]. rewrite run_ret. cbn [snd].
    by rewrite Hup, Hlast, Hlater.
  - unfold read_order_book_head. cbn [ob_sequence no_order_book_evidence].
    rewrite run_bind, run_read_part, (P0 new_session) by done. cbn [fst snd].
    rewrite Hv', bool_decide_eq_true_2 by done. unfold at_sequence.
    cbn [negb ob_sequence ob_snapshot_update_id ob_latest_update_id ob_applied_updates].
    rewrite run_bind, run_read_part. cbn [fst snd]. rewrite P1. cbn [fst snd]. rewrite Hsn.
    cbn [negb ob_sequence ob_snapshot_update_id ob_latest_update_id ob_applied_updates].
    rewrite run_bind, run_read_part. cbn [fst snd]. rewrite P2. cbn [fst snd].
    cbn [ob_snapshot_update_id]. rewrite Hup, Hlast.
    rewrite (proj2 (Z.leb_gt _ _)) by (by apply Z.ltb_lt). done.
Qed.

(** The cut of a recovery: updates of the old generation, the notice that a new snapshot is
    to be requested, and the end of the stream. *)
Lemma recovery_cut_is_read (updates : list (OrderBookStreamItem Snapshot)) : ∀ fuel read_ notice gap e,
  served (read_ ++ updates ++ [notice]) → 2 ≤ length read_ →
  item_body notice = ItemConsumerGap gap →
  dm_connection_generation (item_delivery notice) = Some generation →
  valid_notice gap market CONSUMER_GAP_REASON_RESUME_NOT_AVAILABLE
    RECOVERY_ACTION_REQUEST_NEW_SNAPSHOT = true →
  ob_sequence e = MkSessionSequence (1 + length read_) sid → length updates < fuel →
  ∃ e', run (read_order_book_recovery_cut take_message fuel market generation gid e)
          (book_received <$> updates ++ [notice]) = ([], Some (e', true)) ∧
        ob_applied_updates e' = ob_applied_updates e + length updates.
Proof.
  induction updates as [|update updates IH]; intros [|fuel] read_ notice gap e Hs Hlen Hgap Hg Hv He Hf;
    try (simpl in Hf; lia).
  - assert (Hi : (read_ ++ [] ++ [notice]) !! length read_ = Some notice).
    { cbn [app]. rewrite lookup_app_r by lia. by rewrite Nat.sub_diag. }
    destruct (si_check _ _ _ _ _ _ _ Hs _ _ Hi) as [Hn Hc].
    pose proof (served_canonical notice (ob_sequence e) Hc ltac:(by rewrite He) ltac:(by rewrite He; right))
      as Hcan. rewrite Hg in Hcan.
    cbn [app fmap list_fmap read_order_book_recovery_cut]. rewrite run_bind. cbn [run take_message atomically fst snd].
    rewrite Hcan. cbn [negb book_received body_of]. rewrite Hgap, Hv.
    eexists. split; [reflexivity|]. cbn. lia.
  - assert (Hi : (read_ ++ (update :: updates) ++ [notice]) !! length read_ = Some update).
    { rewrite lookup_app_r by lia. by rewrite Nat.sub_diag. }
    destruct (si_check _ _ _ _ _ _ _ Hs _ _ Hi) as [Hn Hc].
    assert (Hu : ∃ u, item_body update = ItemDepthUpdate u ∧ session_update u = true ∧
                   dm_connection_generation (item_delivery update) = Some generation).
    { pose proof (served_kind _ _ _ Hs Hi) as Hk. destruct (length read_) as [|[|n]] eqn:Hl; [lia..|].
      destruct Hk as [Hu|(gap' & _ & Hend & _)]; [done|].
      rewrite !length_app in Hend. simpl in Hend. lia. }
    destruct Hu as (u & Hu & Hok & Hgu). apply andb_true_iff in Hok as [Hok _].
    pose proof (served_canonical update (ob_sequence e) Hc ltac:(by rewrite He) ltac:(by rewrite He; right))
      as Hcan. rewrite Hgu in Hcan.
    assert (Hi' : ∃ next, (read_ ++ (update :: updates) ++ [notice]) !! S (length read_) = Some next).
    { apply lookup_lt_is_Some. rewrite !length_app. simpl. lia. }
    destruct Hi' as (next & Hi'). destruct (si_check _ _ _ _ _ _ _ Hs _ _ Hi') as [Hn' Hc'].
    apply check_fields in Hc' as (_ & _ & _ & _ & Hmax & _). rewrite Hn' in Hmax.
    set (e1 := applied u (at_sequence (MkSessionSequence (u64_succ (ss_next (ob_sequence e))) sid) e)).
    destruct (IH fuel (read_ ++ [update]) notice gap e1) as (e' & Hrun & Happ).
    { by rewrite <- app_assoc. }
    { rewrite length_app. lia. }
    { done. } { done. } { done. }
    { unfold e1. cbn [applied at_sequence ob_sequence]. rewrite He. cbn [ss_next].
      rewrite u64_succ_small by lia. rewrite length_app. simpl. f_equal. lia. }
    { simpl in Hf. lia. }
    exists e'. split; [|rewrite Happ; unfold e1; cbn; lia].
    rewrite <- Hrun. cbn [app fmap list_fmap read_order_book_recovery_cut]. rewrite run_bind.
    cbn [run take_message atomically fst snd]. rewrite Hcan. cbn [negb book_received body_of].
    by rewrite Hu, Hok.
Qed.

(** ** The session of the integration driver *)

Lemma served_prefix (items : list (OrderBookStreamItem Snapshot)) item :
  served (items ++ [item]) → served items.
Proof.
  intros [Hc Hl]. split.
  - intros i x Hi. apply Hc. by apply lookup_app_l_Some.
  - rewrite removelast_last in Hl. destruct items as [|y l] using rev_ind; [constructor|].
    rewrite removelast_last. by apply Forall_app in Hl as [? _].
Qed.

(** What the integration driver knows after having read these messages. *)
Record integration_evidence (items : list (OrderBookStreamItem Snapshot))
  (e : Integration.SessionEvidence) : Prop := {
  ie_canonical : Integration.canonical e = true;
  ie_contiguous : Integration.contiguous e = true;
  ie_after : Integration.payload_after_terminal e = false;
  ie_terminal : Integration.terminal e = existsb has_consumer_gap items;
  ie_expected : Integration.expected_sequence e = Z.min (1 + length items) u64_max;
  ie_id : Integration.subscription_id e = if decide (items = []) then EmptyString else sid;
  ie_accepted : 1 ≤ length items → Integration.accepted e = true;
  ie_snapshot : 2 ≤ length items → Integration.snapshot e = true ∧
    Integration.snapshot_last_update_id e = last_id ∧
    Integration.snapshot_generation e = Some generation;
  ie_update : Integration.update_generation e = None ∨
    Integration.update_generation e = Some generation ∧ Integration.later_update e = true
}.

Lemma integration_reads (items : list (OrderBookStreamItem Snapshot)) :
  served items →
  integration_evidence items
    (foldl (Integration.accept_item gid) Integration.no_evidence (book_received <$> items)).
Proof.
  induction items as [|item items IH] using rev_ind; intros Hs.
  { split; cbn; try done; try (by intros; lia). by left. }
  specialize (IH (served_prefix _ _ Hs)). rewrite fmap_app, foldl_app. cbn [fmap list_fmap foldl].
  set (e := foldl _ _ _) in *. clearbody e.
  assert (Hi : (items ++ [item]) !! length items = Some item).
  { rewrite lookup_app_r by lia. by rewrite Nat.sub_diag. }
  destruct (si_check _ _ _ _ _ _ _ Hs _ _ Hi) as [Hn Hc].
  pose proof (served_kind _ _ _ Hs Hi) as Hk.
  apply check_fields in Hc as (Hp & Hg & Hid & Ht & Hmax & _). rewrite Hn in Hmax.
  destruct IH as [C1 C2 C3 C4 C5 C6 C7 C8 C9].
  assert (Hno : Integration.terminal e = false).
  { rewrite C4. pose proof (si_last _ _ _ _ _ _ _ Hs) as Hl. rewrite removelast_last in Hl.
    clear -Hl. induction Hl as [|x l Hx Hl IH]; [done|]. cbn. by rewrite Hx. }
  unfold Integration.accept_item. rewrite Hno. cbn [book_received delivery_metadata_of has_envelope_metadata body_of].
  assert (Hm : ∃ e', Integration.accept_metadata gid (item_delivery item) e = e' ∧
    Integration.canonical e' = true ∧ Integration.contiguous e' = true ∧
    Integration.payload_after_terminal e' = false ∧ Integration.terminal e' = false ∧
    Integration.expected_sequence e' = Z.min (1 + length (items ++ [item])) u64_max ∧
    Integration.subscription_id e' = sid ∧ Integration.accepted e' = Integration.accepted e ∧
    Integration.snapshot e' = Integration.snapshot e ∧
    Integration.snapshot_last_update_id e' = Integration.snapshot_last_update_id e ∧
    Integration.snapshot_generation e' = Integration.snapshot_generation e ∧
    Integration.update_generation e' = Integration.update_generation e ∧
    Integration.later_update e' = Integration.later_update e).
  { unfold Integration.accept_metadata. cbv zeta.
    rewrite Hp, Hg, Hid, Hn, (bool_decide_eq_true_2 (kProtocolVersion = _)),
      (bool_decide_eq_true_2 (gid = _)), (proj2 (Z.eqb_neq _ _) Ht) by done. cbn [negb orb].
    assert (Hexp : Integration.expected_sequence e = (1 + length items)%Z) by (rewrite C5; lia).
    rewrite Hexp, Z.eqb_refl. cbn [negb]. rewrite Hexp.
    rewrite length_app. cbn [length].
    assert (Hids : ∀ e1, Integration.subscription_id e1 = Integration.subscription_id e →
      (if bool_decide (Integration.subscription_id e1 = EmptyString)
       then e1 <| Integration.subscription_id := sid |>
       else if negb (bool_decide (sid = Integration.subscription_id e1))
       then e1 <| Integration.canonical := false |> else e1)
      = e1 <| Integration.subscription_id := sid |>).
    { intros e1 He1. rewrite He1, C6. destruct (decide (items = [])).
      - by rewrite bool_decide_eq_true_2.
      - rewrite (bool_decide_eq_false_2 (sid = EmptyString)), bool_decide_eq_true_2 by done.
        cbn [negb]. destruct e1. cbn in *. by rewrite He1, C6. }
    destruct (Z.eqb_spec (1 + length items) u64_max) as [Hx|Hx]; cbn [negb]; rewrite Hids by done;
      (eexists; split; [done|]); cbn; rewrite ?Hexp; split_and!; try done; lia. }
  destruct Hm as (e' & -> & M1 & M2 & M3 & M4 & M5 & M6 & M7 & M8 & M9 & M10 & M11 & M12).
  assert (Hne : (if decide (items ++ [item] = []) then EmptyString else sid) = sid)
    by (rewrite decide_False; [done|by destruct items]).
  assert (Hex : existsb has_consumer_gap (items ++ [item]) = has_consumer_gap item).
  { rewrite existsb_app. rewrite Hno in C4. rewrite <- C4. cbn. by rewrite orb_false_r. }
  assert (Hll : length (items ++ [item]) = length items + 1) by (by rewrite length_app).
  unfold Integration.accept_body. unfold has_consumer_gap at 2 in Hex.
  destruct (length items) as [|[|n]] eqn:Hlen.
  - destruct Hk as (a & Ha & Haok & Hga). rewrite Ha in *. rewrite Hga.
    unfold accepted_ok in Haok. rewrite !andb_true_iff, !bool_decide_eq_true in Haok.
    destruct Haok as ((((_ & _) & Has) & _) & _).
    split; cbn; try done; try congruence; try (intros; lia).
    intros _. rewrite Hn, M6, Has. by rewrite bool_decide_eq_true_2.
  - destruct Hk as (s & Hb & Hsn & Hgs). rewrite Hb in *. rewrite Hgs.
    unfold session_snapshot, valid_snapshot in Hsn.
    rewrite !andb_true_iff, !bool_decide_eq_true in Hsn.
    destruct Hsn as [(((((((_ & _) & Hsym) & Hsch) & Hsyn) & Hlid) & Hbid) & Hask) Hlast%Z.eqb_eq].
    split; cbn; try done; try congruence.
    + intros _. rewrite M7. apply C7. lia.
    + intros _. rewrite Hsyn, Hsch, Hsym, Hlid, Hbid, Hask, !bool_decide_eq_true_2 by done.
      unfold Integration.generation_or. by rewrite Hgs.
  - destruct (C8 ltac:(lia)) as (S1 & S2 & S3).
    destruct Hk as [(u & Hb & Hu & Hgu)|(gap & Hb & _ & _)]; rewrite Hb in *.
    + rewrite Hgu. unfold session_update, valid_update, valid_market_metadata in Hu.
      rewrite !andb_true_iff, !bool_decide_eq_true in Hu. destruct Hu as ((((_ & _) & Hsym) & Hsch) & Hlater).
      split; cbn; try done; try congruence.
      * intros _. rewrite M7. apply C7. lia.
      * intros _. rewrite M8, M9, M10. done.
      * right. unfold Integration.generation_or. rewrite Hgu, Hsym, Hsch, M9, S2, Hlater.
        by rewrite !bool_decide_eq_true_2.
    + split; cbn; try done; try congruence.
      * intros _. rewrite M7. apply C7. lia.
      * intros _. rewrite M8, M9, M10. done.
Qed.
(** A call that has just arrived, whose admission is answered by a channel that the runtime
    has staged, and has perhaps gone on to use. *)
Definition book_call_start
  (s : Call (SubscriberChannel.Channel Snapshot) (OrderBookStreamItem Snapshot)
         ValidatedOrderBookSubscription SubscriptionAdmissionError) : Prop :=
  channel s = None ∧ written s = [] ∧ tracked s = false ∧ asked s = None ∧
  ∀ c, admit_answer s = Returned (inl (Some c)) →
    ∃ c0, staged_book gid sid generation session_snapshot c0 ∧
          rtc (product_call generation session_update notice_ok) c0 c.

Hypothesis slow_consumer_ok :
  notice_ok None CONSUMER_GAP_REASON_SLOW_CONSUMER RECOVERY_ACTION_RESUBSCRIBE = true.

Abbreviation session_others :=
  (book_others gid sid generation session_snapshot session_update notice_ok slow_consumer_ok).

Lemma book_call_served s :
  book_call_start s →
  call_start (Ops := served_book generation session_update notice_ok)
    (Ok0 := served_book_ok gid sid generation session_snapshot session_update notice_ok slow_consumer_ok) s.
Proof.
  intros (Hc & Hw & Ht & Ha & Hans). split_and!; try done. intros c Hanswer.
  destruct (Hans c Hanswer) as (c0 & Hst & Hr).
  destruct (staged_served gid sid generation session_snapshot session_update notice_ok c0 Hst) as (q0 & Hi0).
  assert (H : ∀ c c', rtc (product_call generation session_update notice_ok) c c' → ∀ q,
    served_inv gid sid generation session_snapshot session_update notice_ok 1 c q →
    ∃ q', served_inv gid sid generation session_snapshot session_update notice_ok 1 c' q').
  { induction 1 as [x|x y z Hxy Hyz IH]; intros q Hq; [by exists q|].
    destruct (served_producer _ _ _ _ _ _ slow_consumer_ok _ _ _ _ Hq Hxy) as (q1 & Hq1 & _). by apply (IH q1). }
  destruct (H c0 c Hr q0 Hi0) as (q & Hi). exists (channel_items c q). exists q. by split.
Qed.

End BookClients.

(** ** Witnesses *)

Section Samples.
#[local] Existing Instance sample_enums.

(** A snapshot of the Spot product at update 4. *)
#[local] Instance sample_snapshot_message : SnapshotMessage unit := {|
  snap_venue _ := 1%Z; snap_market _ := 1%Z; snap_symbol _ := "BTCUSDT";
  snap_schema_version _ := kSnapshotSchema; snap_synchronized _ := true;
  snap_last_update_id _ := 4%Z; snap_bids_empty _ := false; snap_asks_empty _ := false |}.

Definition book_notice_ok (g : option Z) (reason action : Z) : bool :=
  bool_decide (g = None) || bool_decide (g = Some 1%Z).

Definition book_update (id : Z) : DepthUpdate :=
  MkDepthUpdate
    (MkEventMetadata 1 1 "BTCUSDT" "gateway" "1" "c" 1 kUpdateSchema None None None (Some 1%Z) (Some 1%Z))
    id id None [] [].

Definition staged_sample : SubscriberChannel.Channel unit :=
  match SubscriberChannel.make "ob-1" "gw" 4 with
  | Some c => fst (SubscriberChannel.stage_initial (Some sample_accepted) (Some sample_snapshot) c)
  | None => sample_channel
  end.

(** Two updates follow, and the product recovers. *)
Definition recovered_sample : SubscriberChannel.Channel unit :=
  let admit_one id c := fst (SubscriberChannel.admit_update (Some (SharedPtr 100 (book_update id))) (Some 1%Z)
                           sample_time (Some 3%Z) c) in
  fst (SubscriberChannel.terminalize CONSUMER_GAP_REASON_RESUME_NOT_AVAILABLE
         RECOVERY_ACTION_REQUEST_NEW_SNAPSHOT (Some 1%Z) sample_time (admit_one 6%Z (admit_one 5%Z staged_sample))).

Abbreviation SampleCall :=
  (Call (SubscriberChannel.Channel unit) (OrderBookStreamItem unit)
     ValidatedOrderBookSubscription SubscriptionAdmissionError).

Definition recovered_call : SampleCall :=
  MkCall false None None [] false false Tracked (Returned (inl (Some recovered_sample))) false
    (Returned true) false.

Definition recovered_run : SampleCall * outcome (option Status) :=
  run (SubscribeOrderBook true sample_request "gw-1" None (Some 7%Z) 9) recovered_call.

Lemma recovered_call_start : book_call_start "gw" "ob-1" 1 1 4 book_notice_ok recovered_call.
Proof.
  split_and!; try done. intros c [= <-]. exists staged_sample. split.
  - exists "r", sample_time, tt, sample_time, 1%Z, 2%Z, 4. eexists. split_and!; try done; reflexivity.
  - eapply rtc_l; [apply (product_admits _ _ _ _ (SharedPtr 100 (book_update 5)) sample_time (Some 3%Z)); done|].
    eapply rtc_l; [apply (product_admits _ _ _ _ (SharedPtr 100 (book_update 6)) sample_time (Some 3%Z)); done|].
    eapply rtc_l; [|constructor]. by apply product_terminalizes.
Qed.

End Samples.
