(* ===== verification/Raising.v ===== *)
(** * Raising: programs that throw, and loops without a bound of their own

    The code of the drivers under [src/app/]: one thread ([prog]) whose parts answer a
    value, throw a message, or are still in a loop after the rounds they were given.
    [runs] is the judgement for such a thread on its own; what the rest of the machine does
    is in the functions the thread calls. *)

From Stdlib Require Import Ascii.
From S2P Require Import Prelude Programs.

Open Scope gateway_scope.

(** ** Results *)

Inductive result (A : Type) : Type :=
| Ok (a : A)
| Raised (message : string)
| Unfinished.
Arguments Ok {A} _.
Arguments Raised {A} _.
Arguments Unfinished {A}.

#[export] Instance result_eq_dec `{EqDecision A} : EqDecision (result A).
Proof. solve_decision. Defined.

Section Raising.
Context {S : Type}.
Implicit Types (P J : S → Prop).

Definition ok {A} (a : A) : prog S (result A) := mret (Ok a).
Definition raise {A} (message : string) : prog S (result A) := mret (Raised message).

(** [require(condition, message)] *)
Definition require (condition : bool) (message : string) : prog S (result ()) :=
  if condition then ok () else raise message.

Definition bind_result {A B} (p : prog S (result A)) (k : A → prog S (result B)) : prog S (result B) :=
  r ← p;
  match r with
  | Ok a => k a
  | Raised message => mret (Raised message)
  | Unfinished => mret Unfinished
  end.

(** A call that does not throw. *)
Definition always {A} (p : prog S A) : prog S (result A) := Ok <$> p.

(** [try { p } catch (...) { handler }]; a loop that does not end is not caught. *)
Definition catch_all {A} (p : prog S (result A)) (handler : string → prog S (result A))
  : prog S (result A) :=
  r ← p;
  match r with
  | Raised message => handler message
  | r => mret r
  end.

(** The destructor of a local object: it runs on the way out of [p], by a return or by an
    exception. *)
Definition on_exit {A} (p : prog S (result A)) (destructor : prog S (result ())) : prog S (result A) :=
  r ← p;
  match r with
  | Unfinished => mret Unfinished
  | r => d ← destructor; match d with Ok _ => mret r | Raised m => mret (Raised m) | Unfinished => mret Unfinished end
  end.

(** ** Judgement *)

Definition runs {A} P (p : prog S A) (Q : A → S → Prop) : Prop :=
  ∀ s, P s → Q (snd (run p s)) (fst (run p s)).

(** What holds after a value, and after an exception or in a loop that goes on. *)
Definition either_way {A} (Q : A → S → Prop) (E : result () → S → Prop) (r : result A) (s : S) : Prop :=
  match r with
  | Ok a => Q a s
  | Raised message => E (Raised message) s
  | Unfinished => E Unfinished s
  end.

(** However it ends. *)
Definition keeps {A} J (p : prog S A) : Prop := runs J p (λ _, J).

Lemma runs_ret {A} P (a : A) (Q : A → S → Prop) : (∀ s, P s → Q a s) → runs P (mret a) Q.
Proof. exact id. Qed.

Lemma runs_bind {A B} P (p : prog S A) R (k : A → prog S B) Q :
  runs P p R → (∀ a, runs (R a) (k a) Q) → runs P (p ≫= k) Q.
Proof. intros Hp Hk s Hs. rewrite run_bind. exact (Hk _ _ (Hp s Hs)). Qed.

Lemma runs_conseq {A} P P' (p : prog S A) (Q Q' : A → S → Prop) :
  runs P' p Q' → (∀ s, P s → P' s) → (∀ a s, Q' a s → Q a s) → runs P p Q.
Proof. intros Hp HP HQ s Hs. exact (HQ _ _ (Hp s (HP s Hs))). Qed.

Lemma runs_atomically {A} P (f : S → S * A) (Q : A → S → Prop) :
  (∀ s, P s → Q (snd (f s)) (fst (f s))) → runs P (atomically f) Q.
Proof. exact id. Qed.

Lemma runs_read {A} P (f : S → A) (Q : A → S → Prop) :
  (∀ s, P s → Q (f s) s) → runs P (read f) Q.
Proof. exact id. Qed.

Lemma runs_modify P (f : S → S) (Q : () → S → Prop) :
  (∀ s, P s → Q () (f s)) → runs P (modify f) Q.
Proof. exact id. Qed.

Lemma runs_result {A B} P (p : prog S (result A)) R E (k : A → prog S (result B)) Q :
  runs P p (either_way R E) → (∀ a, runs (R a) (k a) (either_way Q E)) →
  runs P (bind_result p k) (either_way Q E).
Proof.
  intros Hp Hk. eapply runs_bind; [exact Hp|]. intros [a|message|]; [apply Hk|by apply runs_ret..].
Qed.

Lemma runs_cases {A B} P (p : prog S (result A)) R (k : A → prog S (result B)) (Q : result B → S → Prop) :
  runs P p R → (∀ a, runs (R (Ok a)) (k a) Q) →
  (∀ m s, R (Raised m) s → Q (Raised m) s) → (∀ s, R Unfinished s → Q Unfinished s) →
  runs P (bind_result p k) Q.
Proof.
  intros Hp Hk Hr Hu. eapply runs_bind; [exact Hp|].
  intros [a|m|]; [apply Hk|apply runs_ret, Hr|apply runs_ret, Hu].
Qed.

(** A program that answers a known value. *)
Lemma runs_known {A B} P (p : prog S (result A)) a (R : S → Prop) (k : A → prog S (result B)) Q :
  runs P p (λ r s, r = Ok a ∧ R s) → runs R (k a) Q → runs P (bind_result p k) Q.
Proof. intros Hp Hk. eapply runs_bind; [exact Hp|]. intros r s [-> Hs]. exact (Hk s Hs). Qed.

Lemma runs_catch {A} P (p : prog S (result A)) R E (h : string → prog S (result A)) Q :
  runs P p (either_way R E) → (∀ a s, R a s → Q (Ok a) s) → (∀ s, E Unfinished s → Q Unfinished s) →
  (∀ message, runs (E (Raised message)) (h message) Q) →
  runs P (catch_all p h) Q.
Proof.
  intros Hp HR HE Hh. eapply runs_bind; [exact Hp|].
  intros [a|message|]; [apply runs_ret, HR|apply Hh|apply runs_ret, HE].
Qed.

Lemma keeps_then {A B} J (p : prog S A) (k : A → prog S B) :
  keeps J p → (∀ a, keeps J (k a)) → keeps J (p ≫= k).
Proof. apply runs_bind. Qed.

Lemma keeps_fmap {A B} J (p : prog S A) (f : A → B) : keeps J p → keeps J (f <$> p).
Proof. intros Hp. apply keeps_then; [done|]. intros a. by apply runs_ret. Qed.

Lemma keeps_result {A B} J (p : prog S (result A)) (k : A → prog S (result B)) :
  keeps J p → (∀ a, keeps J (k a)) → keeps J (bind_result p k).
Proof. intros Hp Hk. apply keeps_then; [done|]. intros [a|message|]; [apply Hk|by apply runs_ret..]. Qed.

Lemma keeps_value {A} J (a : A) : keeps J (mret a).
Proof. by apply runs_ret. Qed.

Lemma keeps_reading {A} J (f : S → A) : keeps J (read f).
Proof. by apply runs_read. Qed.

Lemma keeps_require J condition message : keeps J (require condition message).
Proof. unfold require. destruct condition; apply keeps_value. Qed.

Lemma keeps_catch {A} J (p : prog S (result A)) (h : string → prog S (result A)) :
  keeps J p → (∀ message, keeps J (h message)) → keeps J (catch_all p h).
Proof. intros Hp Hh. apply keeps_then; [done|]. intros [a|message|]; [apply keeps_value|apply Hh|apply keeps_value]. Qed.

Lemma keeps_on_exit {A} J (p : prog S (result A)) destructor :
  keeps J p → keeps J destructor → keeps J (on_exit p destructor).
Proof.
  intros Hp Hd. apply keeps_then; [done|].
  intros [a|message|]; [| |apply keeps_value];
    (apply keeps_then; [done|]; intros [[]|message'|]; apply keeps_value).
Qed.

Lemma run_always {A} (p : prog S A) s : run (always p) s = (fst (run p s), Ok (snd (run p s))).
Proof. unfold always, fmap, prog_fmap. by rewrite run_bind. Qed.

(** *** What led to a value *)

Lemma run_bind_inv {A B} (p : prog S A) (k : A → prog S B) s s' b :
  run (p ≫= k) s = (s', b) → ∃ s1 a, run p s = (s1, a) ∧ run (k a) s1 = (s', b).
Proof. rewrite run_bind. intros H. by exists (fst (run p s)), (snd (run p s)); destruct (run p s). Qed.

Lemma run_result_inv {A B} (p : prog S (result A)) (k : A → prog S (result B)) s s' b :
  run (bind_result p k) s = (s', Ok b) → ∃ s1 a, run p s = (s1, Ok a) ∧ run (k a) s1 = (s', Ok b).
Proof. intros (s1 & [a|m|] & H1 & H2)%run_bind_inv; [by exists s1, a|done..]. Qed.

Lemma run_require_inv condition message s s' u :
  run (require condition message) s = (s', Ok u) → condition = true ∧ s' = s.
Proof. unfold require. destruct condition; simpl; [by intros [= <- _]|done]. Qed.

Lemma run_catch_inv {A} (p : prog S (result A)) (h : string → prog S (result A)) s s' a :
  (∀ m s s' b, run (h m) s ≠ (s', Ok b)) →
  run (catch_all p h) s = (s', Ok a) → run p s = (s', Ok a).
Proof.
  intros Hh (s1 & [b|m|] & H1 & H2)%run_bind_inv; [by injection H2 as <- <-| |done].
  destruct (Hh m s1 s' a H2).
Qed.

Lemma run_on_exit_inv {A} (p : prog S (result A)) destructor s s' a :
  run (on_exit p destructor) s = (s', Ok a) →
  ∃ s1, run p s = (s1, Ok a) ∧ run destructor s1 = (s', Ok ()).
Proof.
  intros (s1 & [b|m|] & H1 & H2)%run_bind_inv; [|by apply run_bind_inv in H2 as (? & [?|?|] & _ & ?)|done].
  apply run_bind_inv in H2 as (s2 & [[]|m|] & H2 & H3); [|done..]. injection H3 as <- <-. by exists s1.
Qed.

(** What a preorder that every section respects says of the whole run. *)
Lemma every_run {A} (G : S → S → Prop) `{!PreOrder G} (p : prog S A) s : every G p → G s (fst (run p s)).
Proof.
  revert s. induction p as [a|f k IH]; intros s Hp; [done|]. cbn [run]. destruct (Hp s) as [Hf Hk].
  etrans; [exact Hf|by apply IH].
Qed.

Lemma every_result {A B} (G : S → S → Prop) (p : prog S (result A)) (k : A → prog S (result B)) :
  every G p → (∀ a, every G (k a)) → every G (bind_result p k).
Proof. intros Hp Hk. apply every_bind; [done|]. intros [a|m|]; [apply Hk|done..]. Qed.

Lemma every_fmap {A B} (G : S → S → Prop) (p : prog S A) (f : A → B) : every G p → every G (f <$> p).
Proof. intros Hp. by apply (every_bind (G := G) p (λ a, Done (f a))). Qed.

Lemma every_always {A} (G : S → S → Prop) (p : prog S A) : every G p → every G (always p).
Proof. apply every_fmap. Qed.

Lemma every_catch {A} (G : S → S → Prop) (p : prog S (result A)) (h : string → prog S (result A)) :
  every G p → (∀ m, every G (h m)) → every G (catch_all p h).
Proof. intros Hp Hh. apply every_bind; [done|]. intros [a|m|]; [done|apply Hh|done]. Qed.

(** ** Programs that do not throw *)

Definition never_raises {A} (p : prog S (result A)) : Prop := ∀ s m, snd (run p s) ≠ Raised m.

Lemma quiet_bind {A B} (p : prog S A) (k : A → prog S (result B)) :
  (∀ a, never_raises (k a)) → never_raises (p ≫= k).
Proof. intros Hk s m. rewrite run_bind. apply Hk. Qed.

Lemma quiet_result {A B} (p : prog S (result A)) (k : A → prog S (result B)) :
  never_raises p → (∀ a, never_raises (k a)) → never_raises (bind_result p k).
Proof.
  intros Hp Hk s m. unfold bind_result. rewrite run_bind. pose proof (Hp s) as H.
  destruct (run p s) as [s' [a|m'|]]; cbn [fst snd] in *; [apply Hk|by destruct (H m')|done].
Qed.

Lemma quiet_ret {A} (r : result A) : (∀ m, r ≠ Raised m) → never_raises (mret r).
Proof. intros H s m. apply H. Qed.

Lemma quiet_ok {A} (a : A) : never_raises (ok a).
Proof. by apply quiet_ret. Qed.

Lemma quiet_unfinished {A} : never_raises (mret (M := prog S) (@Unfinished A)).
Proof. by apply quiet_ret. Qed.

Lemma quiet_always {A} (p : prog S A) : never_raises (always p).
Proof. apply quiet_bind. intros a. by apply (quiet_ret (Ok a)). Qed.

Lemma quiet_catch {A} (p : prog S (result A)) (h : string → prog S (result A)) :
  (∀ message, never_raises (h message)) → never_raises (catch_all p h).
Proof.
  intros Hh. apply quiet_bind. intros [a|message|]; [apply quiet_ok|apply Hh|apply quiet_unfinished].
Qed.
End Raising.

Notation "'let*' x ':=' p 'in' k" := (bind_result p (fun x => k))
  (at level 10, x name, p at level 100, k at level 200) : gateway_scope.
Notation "'let*' ' x ':=' p 'in' k" := (bind_result p (fun x => k))
  (at level 10, x strict pattern, p at level 100, k at level 200) : gateway_scope.
Notation "'run*' p 'in' k" := (bind_result p (fun _ => k))
  (at level 10, p at level 100, k at level 200) : gateway_scope.

#[export] Hint Resolve keeps_value keeps_reading keeps_require keeps_result keeps_then keeps_fmap keeps_catch
  keeps_on_exit : gateway.
#[export] Hint Resolve quiet_bind quiet_result quiet_ok quiet_unfinished quiet_always quiet_catch : gateway.
