(* ===== verification/ChildProcess.v ===== *)
(** * ChildProcess: the daemon as a child of the acceptance client

    Models [class ChildProcess] and [wait_for_serving] of
    [src/app/production_daemon_acceptance/main.cpp]: the pipe and the fork, the reads of
    the output, the signals, the waits and the cleanup on every way out.  The operating
    system is a parameter ([ChildOs]): each call takes the world to the next and answers
    whatever it likes, so that what the daemon and the kernel do between two calls is in the
    answers.

    [child_calls_are_disciplined]: for any operating system and any use of the object, no
    descriptor is used after it is closed, no pid is signalled or waited for after it was
    reaped, [SIGKILL] follows [SIGTERM], and the destructor leaves no descriptor open.
    [cleanup_reaps_the_child]: on a machine that keeps the promises of [FairOs] the cleanup
    ends and the child is reaped. *)

From Stdlib Require Import Ascii.
From S2P Require Import Prelude Wire Text Programs Raising Diagnostics Acceptance.

Open Scope gateway_scope.

(** ** The operating system *)

Inductive Errno : Type :=
| EINTR
| EAGAIN
| EWOULDBLOCK
| ECHILD
| OtherErrno.
#[export] Instance Errno_eq_dec : EqDecision Errno.
Proof. solve_decision. Defined.

Inductive Signal : Type := SIGTERM | SIGKILL.
#[export] Instance Signal_eq_dec : EqDecision Signal.
Proof. solve_decision. Defined.

(** [read]: a positive count with its bytes, zero, or an error. *)
Inductive ReadAnswer : Type :=
| ReadBytes (text : string)
| ReadEnd
| ReadFailed (error : Errno).

(** [waitpid]: zero, a child with its status, or an error. *)
Inductive WaitAnswer : Type :=
| WaitNone
| WaitChild (pid status : Z)
| WaitFailed (error : Errno).

(** [os_pipe]: the descriptors to read and to write; [os_fork]: what the parent gets;
    [os_nonblocking]: both [fcntl] calls succeeded; [os_waitpid pid nohang]; times are
    nanoseconds of the steady clock. *)
Class ChildOs (X : Type) : Type := {
  os_pipe : X → X * option (Z * Z);
  os_fork : X → X * option Z;
  os_close : Z → X → X;
  os_nonblocking : Z → X → X * bool;
  os_read : Z → X → X * ReadAnswer;
  os_waitpid : Z → bool → X → X * WaitAnswer;
  os_kill : Z → Signal → X → X * option Errno;
  os_now : X → X * Z;
  os_sleep : Z → X → X;
  os_dup2 : Z → Z → X → X * bool;
  os_execv : string → list string → X → X * bool;
  os_write : Z → string → X → X
}.

Definition milliseconds (n : Z) : Z := (n * 1000000)%Z.
Definition seconds (n : Z) : Z := (n * 1000000000)%Z.

Definition kStartupTimeout : Z := seconds 180.
Definition kShutdownTimeout : Z := seconds 30.
Definition kFailureCleanupTimeout : Z := seconds 15.
Definition kPollInterval : Z := milliseconds 10.
Definition STDOUT_FILENO : Z := 1.
Definition STDERR_FILENO : Z := 2.

(** ** The object *)

Record Child : Type := MkChild {
  pid : Z;
  output_descriptor : Z;
  reaped : bool;
  termination_requested : bool;
  wait_status : Z;
  output : string
}.
#[export] Instance Child_eta : Eta Child :=
  λ c, MkChild (pid c) (output_descriptor c) (reaped c) (termination_requested c) (wait_status c) (output c).

(** The initialisers of the members. *)
Definition no_child : Child := MkChild (-1) (-1) false false 0 EmptyString.

(** The object and the machine it runs on. *)
Record Process (X : Type) : Type := MkProcess {
  child : Child;
  host : X
}.
Arguments MkProcess {X} _ _.
Arguments child {X} _.
Arguments host {X} _.

Section Code.
Context {X : Type} `{OS : !ChildOs X}.
Abbreviation Thread := (prog (Process X)).

#[export] Instance Process_eta : Eta (Process X) := λ s, MkProcess (child s) (host s).

(** A call to the operating system. *)
Definition host_call {A} (f : X → X * A) : Thread A :=
  atomically (λ s, (s <| host := fst (f (host s)) |>, snd (f (host s)))).
Definition host_do (f : X → X) : Thread () := host_call (λ x, (f x, ())).

(** An assignment to a member. *)
Definition update_child (f : Child → Child) : Thread () := modify (λ s, s <| child ::= f |>).

(** How many rounds each loop is given. *)
Context (fuel : nat).

(** The process between [fork] and [execv]. *)
Inductive ChildFate : Type :=
| Executes (path : string) (argv : list string)
| Exits (code : Z).

Definition child_branch (read_end write_end : Z) (daemon_path config_path : string) : Thread ChildFate :=
  host_do (os_close read_end) ;;
  out ← host_call (os_dup2 write_end STDOUT_FILENO);
  err ← (if out : bool then host_call (os_dup2 write_end STDERR_FILENO) else mret false);
  if negb err then mret (Exits 126) else
  host_do (os_close write_end) ;;
  let child_argv := [daemon_path; "--config"; config_path] in
  executing ← host_call (os_execv daemon_path child_argv);
  if executing : bool then mret (Executes daemon_path child_argv) else
  host_do (os_write STDERR_FILENO ("daemon_execv=failed" +:+ String newline EmptyString)) ;;
  mret (Exits 127).

(** [while (waitpid(pid, &status, 0) < 0 && errno == EINTR)] *)
Fixpoint wait_for_child (rounds : nat) (p : Z) : Thread (result WaitAnswer) :=
  match rounds with
  | O => mret Unfinished
  | S rounds =>
      answer ← host_call (os_waitpid p false);
      match answer with
      | WaitFailed EINTR => wait_for_child rounds p
      | answer => ok answer
      end
  end.

(** The polling loop of [reap_spawn_failure]: [true] to return. *)
Fixpoint await_spawn_failure (rounds : nat) (p deadline : Z) : Thread (result bool) :=
  match rounds with
  | O => mret Unfinished
  | S rounds =>
      now ← host_call os_now;
      if negb (now <? deadline)%Z then ok false else
      answer ← host_call (os_waitpid p true);
      match answer with
      | WaitChild q _ => if (q =? p)%Z then ok true
                         else host_do (os_sleep kPollInterval) ;; await_spawn_failure rounds p deadline
      | WaitFailed ECHILD => ok true
      | WaitNone | WaitFailed EINTR =>
          host_do (os_sleep kPollInterval) ;; await_spawn_failure rounds p deadline
      | WaitFailed _ => ok false
      end
  end.

Definition reap_spawn_failure (p : Z) : Thread (result ()) :=
  host_call (os_kill p SIGTERM) ;;
  now ← host_call os_now;
  let* gone := await_spawn_failure fuel p (now + seconds 2)%Z in
  if gone : bool then ok () else
  host_call (os_kill p SIGKILL) ;;
  let* answer := wait_for_child fuel p in
  ok ().

(** [spawn], in the parent. *)
Definition spawn : Thread (result ()) :=
  pipe_descriptors ← host_call os_pipe;
  match pipe_descriptors with
  | None => raise "daemon output pipe failed"
  | Some (read_end, write_end) =>
      child_pid ← host_call os_fork;
      match child_pid with
      | None =>
          host_do (os_close read_end) ;; host_do (os_close write_end) ;;
          raise "daemon fork failed"
      | Some child_pid =>
          host_do (os_close write_end) ;;
          nonblocking ← host_call (os_nonblocking read_end);
          if negb nonblocking then
            host_do (os_close read_end) ;;
            run* reap_spawn_failure child_pid in
            raise "daemon output nonblocking setup failed"
          else
            update_child (λ _, no_child <| pid := child_pid |> <| output_descriptor := read_end |>) ;;
            ok ()
      end
  end.

Definition close_output : Thread () :=
  descriptor ← read (λ s, output_descriptor (child s));
  if (0 <=? descriptor)%Z then
    host_do (os_close descriptor) ;; update_child (λ c, c <| output_descriptor := (-1)%Z |>)
  else mret ().

(** The loop of [collect_available]. *)
Fixpoint collect (rounds : nat) : Thread (result ()) :=
  match rounds with
  | O => mret Unfinished
  | S rounds =>
      descriptor ← read (λ s, output_descriptor (child s));
      answer ← host_call (os_read descriptor);
      match answer with
      | ReadBytes text => update_child (λ c, c <| output ::= λ o, o +:+ text |>) ;; collect rounds
      | ReadEnd => close_output ;; ok ()
      | ReadFailed EINTR => collect rounds
      | ReadFailed (EAGAIN | EWOULDBLOCK) => ok ()
      | ReadFailed _ => raise "daemon output read failed"
      end
  end.

Definition collect_available : Thread (result ()) :=
  descriptor ← read (λ s, output_descriptor (child s));
  if (descriptor <? 0)%Z then ok () else collect fuel.

Definition collect_available_noexcept : Thread (result ()) :=
  catch_all collect_available (λ _, ok ()).

(** The [do ... while] of [poll_exit]. *)
Fixpoint poll_wait (rounds : nat) (p : Z) : Thread (result WaitAnswer) :=
  match rounds with
  | O => mret Unfinished
  | S rounds =>
      answer ← host_call (os_waitpid p true);
      match answer with
      | WaitFailed EINTR => poll_wait rounds p
      | answer => ok answer
      end
  end.

(** [reaped_ = true; wait_status_ = status] *)
Definition set_reaped (status : Z) : Thread () :=
  update_child (λ c, c <| reaped := true |> <| wait_status := status |>).

Definition poll_exit : Thread (result (option Z)) :=
  run* collect_available in
  c ← read child;
  if reaped c then ok (Some (wait_status c)) else
  let* answer := poll_wait fuel (pid c) in
  match answer with
  | WaitNone => ok None
  | WaitChild q status =>
      if negb (q =? pid c)%Z then raise "waitpid failed while polling daemon" else
      set_reaped status ;;
      run* collect_available in
      close_output ;;
      ok (Some status)
  | WaitFailed _ => raise "waitpid failed while polling daemon"
  end.

Definition require_running (stage : string) : Thread (result ()) :=
  let* status := poll_exit in
  match status with
  | Some _ => raise ("daemon exited before intended SIGTERM at " +:+ stage)
  | None => ok ()
  end.

(** The [do ... while] of [send_sigterm]. *)
Fixpoint kill_child (rounds : nat) (p : Z) : Thread (result (option Errno)) :=
  match rounds with
  | O => mret Unfinished
  | S rounds =>
      answer ← host_call (os_kill p SIGTERM);
      match answer with
      | Some EINTR => kill_child rounds p
      | answer => ok answer
      end
  end.

Definition send_sigterm : Thread (result ()) :=
  c ← read child;
  run* require (negb (reaped c)) "daemon was already reaped before SIGTERM" in
  let* answer := kill_child fuel (pid c) in
  run* require (bool_decide (answer = None)) "kill(child_pid, SIGTERM) failed" in
  always (update_child (λ c, c <| termination_requested := true |>)).

(** The loop of [wait_until]: [None] when the deadline has passed. *)
Fixpoint poll_until (rounds : nat) (deadline : Z) : Thread (result (option Z)) :=
  match rounds with
  | O => mret Unfinished
  | S rounds =>
      now ← host_call os_now;
      if negb (now <? deadline)%Z then ok None else
      let* status := poll_exit in
      match status with
      | Some status => ok (Some status)
      | None => host_do (os_sleep kPollInterval) ;; poll_until rounds deadline
      end
  end.

Definition wait_until (deadline : Z) : Thread (result Z) :=
  let* status := poll_until fuel deadline in
  match status with
  | Some status => ok status
  | None =>
      let* status := poll_exit in
      match status with
      | Some status => ok status
      | None => raise "daemon shutdown deadline expired"
      end
  end.

(** The loop of [cleanup]: [true] to return. *)
Fixpoint cleanup_wait (rounds : nat) (deadline : Z) : Thread (result bool) :=
  match rounds with
  | O => mret Unfinished
  | S rounds =>
      now ← host_call os_now;
      if negb (now <? deadline)%Z then ok false else
      p ← read (λ s, pid (child s));
      answer ← host_call (os_waitpid p true);
      let again :=
        run* collect_available_noexcept in
        host_do (os_sleep kPollInterval) ;; cleanup_wait rounds deadline in
      match answer with
      | WaitChild q status =>
          if (q =? p)%Z then
            set_reaped status ;;
            run* collect_available_noexcept in
            close_output ;; ok true
          else again
      | WaitFailed ECHILD =>
          update_child (λ c, c <| reaped := true |>) ;;
          run* collect_available_noexcept in
          close_output ;; ok true
      | WaitNone | WaitFailed EINTR => again
      | WaitFailed _ => ok false
      end
  end.

(** [cleanup], which is also the destructor and [cleanup_after_failure]. *)
Definition cleanup : Thread (result ()) :=
  c ← read child;
  if reaped c then
    run* collect_available_noexcept in
    always close_output
  else
  run* collect_available_noexcept in
  c ← read child;
  (if termination_requested c then mret () else
     answer ← host_call (os_kill (pid c) SIGTERM);
     if bool_decide (answer = None) then update_child (λ c, c <| termination_requested := true |>)
     else mret ()) ;;
  now ← host_call os_now;
  let* gone := cleanup_wait fuel (now + kFailureCleanupTimeout)%Z in
  if gone : bool then ok () else
  c ← read child;
  host_call (os_kill (pid c) SIGKILL) ;;
  let* answer := wait_for_child fuel (pid c) in
  (match answer with
   | WaitChild q status => if (q =? pid c)%Z then set_reaped status else mret ()
   | _ => mret ()
   end) ;;
  run* collect_available_noexcept in
  always close_output.

(** The loop of [wait_for_serving]: [None] when the deadline has passed. *)
Fixpoint await_serving (rounds : nat) (deadline expected_port : Z) : Thread (result (option ServingIdentity)) :=
  match rounds with
  | O => mret Unfinished
  | S rounds =>
      now ← host_call os_now;
      if negb (now <? deadline)%Z then ok None else
      run* collect_available in
      run* require_running "startup serving barrier" in
      text ← read (λ s, output (child s));
      match find_complete_line text "gateway_state=serving" 0 with
      | Some serving =>
          match parse_serving_line (lm_line serving) expected_port with
          | inl who => ok (Some who)
          | inr message => raise message
          end
      | None => host_do (os_sleep kPollInterval) ;; await_serving rounds deadline expected_port
      end
  end.

Definition wait_for_serving (expected_port : Z) : Thread (result ServingIdentity) :=
  now ← host_call os_now;
  let* serving := await_serving fuel (now + kStartupTimeout)%Z expected_port in
  match serving with
  | Some who => ok who
  | None =>
      run* require_running "startup serving deadline" in
      raise "daemon serving deadline expired"
  end.

(** ** The life of the object *)

Inductive Use : Type :=
| UseCollect
| UsePoll
| UseRequireRunning (stage : string)
| UseSigterm
| UseWait (deadline : Z)
| UseServing (expected_port : Z)
| UseCleanup.

Definition forget {A} (p : Thread (result A)) : Thread (result ()) := let* a := p in ok ().

Definition perform (use : Use) : Thread (result ()) :=
  match use with
  | UseCollect => collect_available
  | UsePoll => forget poll_exit
  | UseRequireRunning stage => require_running stage
  | UseSigterm => send_sigterm
  | UseWait deadline => forget (wait_until deadline)
  | UseServing expected_port => forget (wait_for_serving expected_port)
  | UseCleanup => cleanup
  end.

Fixpoint performs (uses : list Use) : Thread (result ()) :=
  match uses with
  | [] => ok ()
  | use :: rest => run* perform use in performs rest
  end.

(** The object is made, used until the first exception, and destroyed. *)
Definition lifetime (uses : list Use) : Thread (result ()) :=
  run* spawn in on_exit (performs uses) cleanup.
End Code.

(** ** The calls, recorded *)

Inductive OsCall : Type :=
| CallPipe (read_end write_end : Z)
| CallFork (child_pid : Z)
| CallClose (descriptor : Z)
| CallRead (descriptor : Z)
| CallWait (p : Z) (answer : WaitAnswer)
| CallKill (p : Z) (signal : Signal).

Record Logged (X : Type) : Type := MkLogged {
  machine : X;
  calls : list OsCall
}.
Arguments MkLogged {X} _ _.
Arguments machine {X} _.
Arguments calls {X} _.

(** The same operating system, with its calls written down. *)
Section Recording.
Context {X : Type} `{OS : !ChildOs X}.

Definition record (call : option OsCall) (x : X) (l : Logged X) : Logged X :=
  MkLogged x (calls l ++ option_list call).

#[export] Instance logged_os : ChildOs (Logged X) := {|
  os_pipe l := let '(x, a) := os_pipe (machine l) in
    (record ((λ '(r, w), CallPipe r w) <$> a) x l, a);
  os_fork l := let '(x, a) := os_fork (machine l) in (record (CallFork <$> a) x l, a);
  os_close d l := record (Some (CallClose d)) (os_close d (machine l)) l;
  os_nonblocking d l := let '(x, a) := os_nonblocking d (machine l) in (record None x l, a);
  os_read d l := let '(x, a) := os_read d (machine l) in (record (Some (CallRead d)) x l, a);
  os_waitpid p nohang l :=
    let '(x, a) := os_waitpid p nohang (machine l) in (record (Some (CallWait p a)) x l, a);
  os_kill p signal l :=
    let '(x, a) := os_kill p signal (machine l) in (record (Some (CallKill p signal)) x l, a);
  os_now l := let '(x, a) := os_now (machine l) in (record None x l, a);
  os_sleep d l := record None (os_sleep d (machine l)) l;
  os_dup2 d d' l := let '(x, a) := os_dup2 d d' (machine l) in (record None x l, a);
  os_execv path argv l := let '(x, a) := os_execv path argv (machine l) in (record None x l, a);
  os_write d text l := record None (os_write d text (machine l)) l
|}.
End Recording.

(** What a disciplined sequence of calls does: it reads and closes what is open, signals
    and waits for the child it has, until it was reaped, and kills what it has asked to
    terminate. *)
Record Watch : Type := MkWatch {
  w_open : list Z;
  w_child : option Z;
  w_asked : bool
}.

Definition watch_call (w : Watch) (call : OsCall) : option Watch :=
  match call with
  | CallPipe r wr => if bool_decide (w_open w = []) then Some (MkWatch [r; wr] (w_child w) (w_asked w)) else None
  | CallFork p => if bool_decide (w_child w = None) then Some (MkWatch (w_open w) (Some p) (w_asked w)) else None
  | CallClose d =>
      if bool_decide (d ∈ w_open w)
      then Some (MkWatch (filter (λ d', d' ≠ d) (w_open w)) (w_child w) (w_asked w)) else None
  | CallRead d => if bool_decide (d ∈ w_open w) then Some w else None
  | CallWait p answer =>
      if bool_decide (w_child w = Some p) then
        Some (MkWatch (w_open w)
                (match answer with WaitChild q _ => if (q =? p)%Z then None else Some p | _ => Some p end)
                (w_asked w))
      else None
  | CallKill p signal =>
      if bool_decide (w_child w = Some p) && (bool_decide (signal = SIGTERM) || w_asked w)
      then Some (MkWatch (w_open w) (w_child w) true) else None
  end.

Fixpoint watched (w : Watch) (l : list OsCall) : option Watch :=
  match l with
  | [] => Some w
  | call :: rest => w' ← watch_call w call; watched w' rest
  end.

Definition nothing_yet : Watch := MkWatch [] None false.

Lemma watched_app w l1 l2 : watched w (l1 ++ l2) = (w' ← watched w l1; watched w' l2).
Proof. revert w. induction l1 as [|c l1 IH]; intros w; simpl; [done|]. destruct (watch_call w c); simpl; [apply IH|done]. Qed.

Section Discipline.
Context {X : Type} `{OS : !ChildOs X} (fuel : nat).
(** [pipe] answers two descriptors, both valid. *)
Hypothesis pipe_ok : ∀ (x : X) r w, snd (os_pipe x) = Some (r, w) → (0 <= r)%Z ∧ (0 <= w)%Z ∧ r ≠ w.
Abbreviation State := (Process (Logged X)).
Implicit Types (s : State) (p d : Z) (have rp tr : bool).

(** The calls so far, as they were watched. *)
Definition seen (w : Watch) s : Prop := watched nothing_yet (calls (host s)) = Some w.

(** The object with this child: its descriptor is open unless it says so, [have]: the child
    was not reaped, [tr]: it was asked to terminate, which it was when the object says so. *)
Definition held have p rp tr s : Prop :=
  ∃ w, seen w s ∧
    w_open w = (if (0 <=? output_descriptor (child s))%Z then [output_descriptor (child s)] else []) ∧
    (have = true → w_child w = Some p) ∧ (tr = true → w_asked w = true) ∧
    pid (child s) = p ∧ reaped (child s) = rp ∧ (termination_requested (child s) = true → tr = true).
Definition mine p rp tr : State → Prop := held (negb rp) p rp tr.
Definition minds s : Prop := ∃ p rp tr, mine p rp tr s.

Lemma seen_record w s x call :
  seen w s → seen (default w (call ≫= watch_call w)) (s <| host := record call x (host s) |>) ∨
             (call ≫= watch_call w) = None ∧ call ≠ None.
Proof.
  intros Hs. destruct call as [call|]; simpl.
  - destruct (watch_call w call) as [w'|] eqn:Hw; [left|by right].
    unfold seen in *. simpl. rewrite watched_app, Hs. simpl. by rewrite Hw.
  - left. unfold seen in *. simpl. by rewrite app_nil_r.
Qed.

(** A call that is not watched. *)
Lemma seen_silent w s x : seen w s → seen w (s <| host := record None x (host s) |>).
Proof. intros Hs. by destruct (seen_record w s x None Hs) as [|[_ ?]]. Qed.

Lemma seen_call w w' s x call :
  seen w s → watch_call w call = Some w' → seen w' (s <| host := record (Some call) x (host s) |>).
Proof.
  intros Hs Hw. destruct (seen_record w s x (Some call) Hs) as [H|[H _]]; simpl in H; rewrite Hw in H; [exact H|done].
Qed.

(** The calls of the object, by what it must hold and holds afterwards. *)
Lemma keeps_unheard {A} (J : State → Prop) (f : X → X * A) (g : Logged X → Logged X * A) :
  (∀ l, g l = (record None (fst (f (machine l))) l, snd (f (machine l)))) →
  (∀ s x, J s → J (s <| host := record None x (host s) |>)) →
  keeps J (host_call g).
Proof. intros Hg HJ s Hs. cbn. rewrite Hg. by apply HJ. Qed.

Lemma held_silent have p rp tr s x : held have p rp tr s → held have p rp tr (s <| host := record None x (host s) |>).
Proof. intros (w & Hs & Hrest). exists w. split; [by apply seen_silent|exact Hrest]. Qed.

Lemma keeps_now have p rp tr : keeps (held have p rp tr) (host_call os_now).
Proof.
  apply (keeps_unheard _ os_now); [|apply held_silent].
  intros l. cbn. by destruct (os_now (machine l)).
Qed.

Lemma keeps_sleep have p rp tr t : keeps (held have p rp tr) (host_do (os_sleep t)).
Proof. apply (keeps_unheard _ (λ x, (os_sleep t x, ()))); [done|apply held_silent]. Qed.

Lemma keeps_update have p rp tr (f : Child → Child) :
  (∀ c, output_descriptor (f c) = output_descriptor c ∧ pid (f c) = pid c ∧ reaped (f c) = reaped c ∧
        termination_requested (f c) = termination_requested c) →
  keeps (held have p rp tr) (update_child f).
Proof.
  intros Hf s (w & Hs & Hrest). exists w. cbn. destruct (Hf (child s)) as (-> & -> & -> & ->).
  split; [exact Hs|exact Hrest].
Qed.

Lemma held_weaken have p rp tr s : held have p rp tr s → held false p rp tr s.
Proof. intros (w & Hs & Ho & Hc & Hrest). exists w. do 3 (split; [done|]). exact Hrest. Qed.

Lemma keeps_os_read have p rp tr d :
  (0 <= d)%Z →
  keeps (λ s, held have p rp tr s ∧ output_descriptor (child s) = d) (host_call (os_read d)).
Proof.
  intros Hd s [(w & Hs & Ho & Hrest) Hdesc]. cbn. destruct (os_read d (machine (host s))) as [x a].
  split; [|exact Hdesc]. exists w. split; [|by split].
  eapply seen_call; [exact Hs|]. cbn. rewrite bool_decide_eq_true_2; [done|].
  rewrite Ho, Hdesc, (proj2 (Z.leb_le _ _)) by done. by apply list_elem_of_singleton.
Qed.

(** A wait for the child: whoever it answers, the child is no longer held when it is it. *)
Lemma runs_os_waitpid p rp tr nohang :
  runs (held true p rp tr) (host_call (os_waitpid p nohang))
    (λ a s, held (match a with WaitChild q _ => negb (q =? p)%Z | _ => true end) p rp tr s).
Proof.
  intros s (w & Hs & Ho & Hc & Ha & Hrest). cbn. specialize (Hc eq_refl).
  destruct (os_waitpid p nohang (machine (host s))) as [x a]. cbn.
  eexists (MkWatch (w_open w) _ (w_asked w)). split.
  { eapply seen_call; [exact Hs|]. cbn. by rewrite Hc, bool_decide_eq_true_2. }
  cbn. split; [exact Ho|]. split; [|by split].
  destruct a as [|q st|e]; try done. by destruct (q =? p)%Z.
Qed.

Lemma runs_os_kill p rp tr signal :
  (signal = SIGTERM ∨ tr = true) →
  runs (held true p rp tr) (host_call (os_kill p signal)) (λ _, held true p rp true).
Proof.
  intros Hsig s (w & Hs & Ho & Hc & Ha & Hp & Hr & _). cbn. specialize (Hc eq_refl).
  destruct (os_kill p signal (machine (host s))) as [x a]. cbn.
  exists (MkWatch (w_open w) (w_child w) true). split.
  { eapply seen_call; [exact Hs|]. cbn. rewrite Hc, bool_decide_eq_true_2 by done. simpl.
    destruct Hsig as [->|Htr]; [done|]. by rewrite (Ha Htr), orb_true_r. }
  do 5 (split; [done|]). done.
Qed.

(** *** The operations *)

Lemma runs_close_output have p rp tr :
  runs (held have p rp tr) close_output
    (λ _ s, held have p rp tr s ∧ (output_descriptor (child s) < 0)%Z).
Proof.
  intros s (w & Hs & Ho & Hrest). unfold close_output. run_step.
  destruct (Z.leb_spec 0 (output_descriptor (child s))) as [Hd|Hd]; run_step.
  - split; [|done]. cbn. exists (MkWatch [] (w_child w) (w_asked w)). split; [|by split].
    eapply seen_call; [exact Hs|]. cbn. rewrite Ho, bool_decide_eq_true_2 by (by apply list_elem_of_singleton).
    f_equal. f_equal. rewrite filter_cons_False by (by intros ?). done.
  - split; [|lia]. exists w. split; [exact Hs|]. split; [|exact Hrest]. rewrite Ho.
    by rewrite (proj2 (Z.leb_gt _ _)).
Qed.

Lemma keeps_close_output have p rp tr : keeps (held have p rp tr) close_output.
Proof. eapply runs_conseq; [apply runs_close_output|done|]. by intros _ s [? _]. Qed.

Lemma keeps_collect have p rp tr rounds :
  runs (λ s, held have p rp tr s ∧ (0 <= output_descriptor (child s))%Z) (collect rounds)
    (λ _, held have p rp tr).
Proof.
  induction rounds as [|rounds IH]; [apply runs_ret; by intros s [? _]|].
  intros s [Hh Hd]. cbn [collect]. run_step.
  pose proof (keeps_os_read have p rp tr _ Hd s (conj Hh eq_refl)) as Hread.
  destruct (run (host_call (os_read (output_descriptor (child s)))) s) as [s' a]. cbn [fst snd] in *.
  destruct Hread as [Hh' Hd']. rewrite <- Hd' in Hd.
  destruct a as [text| |[]]; try exact (IH s' (conj Hh' Hd)); try exact Hh'.
  - run_step. apply IH. split; [|exact Hd].
    exact (keeps_update have p rp tr _ (λ c, conj eq_refl (conj eq_refl (conj eq_refl eq_refl))) s' Hh').
  - run_step. exact (keeps_close_output have p rp tr s' Hh').
Qed.

Lemma keeps_collect_available have p rp tr : keeps (held have p rp tr) (collect_available fuel).
Proof.
  intros s Hh. unfold collect_available. run_step.
  destruct (Z.ltb_spec (output_descriptor (child s)) 0) as [Hd|Hd]; [exact Hh|].
  exact (keeps_collect have p rp tr fuel s (conj Hh Hd)).
Qed.

#[local] Hint Resolve keeps_collect_available keeps_close_output keeps_now keeps_sleep : gateway.

Lemma keeps_collect_noexcept have p rp tr : keeps (held have p rp tr) (collect_available_noexcept fuel).
Proof. unfold collect_available_noexcept, ok. auto with gateway. Qed.

#[local] Hint Resolve keeps_collect_noexcept : gateway.

(** The child was answered, or is still there. *)
Definition after_wait p rp tr (r : result WaitAnswer) s : Prop :=
  match r with
  | Ok (WaitChild q _) => held (negb (q =? p)%Z) p rp tr s
  | _ => held true p rp tr s
  end.

Lemma runs_poll_wait p rp tr rounds : runs (held true p rp tr) (poll_wait rounds p) (after_wait p rp tr).
Proof.
  induction rounds as [|rounds IH]; [by apply runs_ret|]. cbn [poll_wait].
  eapply runs_bind; [apply runs_os_waitpid|].
  intros [|q st|[]]; try (by apply runs_ret); exact IH.
Qed.

Lemma runs_wait_for_child p rp tr rounds : runs (held true p rp tr) (wait_for_child rounds p) (after_wait p rp tr).
Proof.
  induction rounds as [|rounds IH]; [by apply runs_ret|]. cbn [wait_for_child].
  eapply runs_bind; [apply runs_os_waitpid|].
  intros [|q st|[]]; try (by apply runs_ret); exact IH.
Qed.

Lemma runs_set_reaped have p rp tr st : runs (held have p rp tr) (set_reaped st) (λ _, mine p true tr).
Proof.
  intros s Hh. destruct (held_weaken _ _ _ _ _ Hh) as (w & Hs & Ho & _ & Ha & Hp & _ & Ht).
  exists w. by split_and!.
Qed.

Lemma mine_minds p rp tr s : mine p rp tr s → minds s.
Proof. by exists p, rp, tr. Qed.

Lemma runs_poll_exit p rp tr :
  runs (mine p rp tr) (poll_exit fuel)
    (λ r s, match r with
            | Ok None => rp = false ∧ mine p rp tr s
            | Ok (Some _) => mine p true tr s
            | _ => ∃ rp', mine p rp' tr s
            end).
Proof.
  unfold poll_exit. eapply runs_bind; [apply keeps_collect_available|].
  intros [[]|m|]; try (apply runs_ret; by exists rp).
  intros s Hh. run_step. pose proof Hh as (_ & _ & _ & _ & _ & Hp & Hr & Ht). rewrite Hr, Hp.
  destruct rp; [exact Hh|]. unfold bind_result. run_step.
  pose proof (runs_poll_wait p false tr fuel s Hh) as Hw.
  destruct (run (poll_wait fuel p) s) as [s' [[|q st|e]|m|]]; cbn [fst snd after_wait] in *;
    try (by exists false); [by split|].
  destruct (q =? p)%Z; cbn [negb] in *; [|by exists false].
  pose proof (runs_set_reaped _ _ _ _ st s' Hw) as Hset. run_step.
  destruct (run (set_reaped st) s') as [s2 []]. cbn [fst snd] in *.
  pose proof (keeps_collect_available (negb true) p true tr s2 Hset) as Hc.
  destruct (run (collect_available fuel) s2) as [s3 [[]|m|]]; cbn [fst snd] in *; try (by exists true).
  run_step. exact (keeps_close_output (negb true) p true tr s3 Hc).
Qed.

Lemma minds_held (p : prog State (result ())) :
  (∀ q rp tr, keeps (mine q rp tr) p) → keeps minds p.
Proof. intros H s (q & rp & tr & Hm). exists q, rp, tr. exact (H q rp tr s Hm). Qed.

Lemma keeps_poll_exit : keeps minds (poll_exit fuel).
Proof.
  intros s (p & rp & tr & Hm). pose proof (runs_poll_exit p rp tr s Hm) as H.
  destruct (run (poll_exit fuel) s) as [s' [[st|]|m|]]; cbn [fst snd] in *.
  - by exists p, true, tr.
  - destruct H as [_ H]. by exists p, rp, tr.
  - destruct H as [rp' H]. by exists p, rp', tr.
  - destruct H as [rp' H]. by exists p, rp', tr.
Qed.

Lemma minds_collect_available : keeps minds (collect_available fuel).
Proof. apply minds_held. intros q rp tr. apply keeps_collect_available. Qed.

Lemma minds_now : keeps minds (host_call os_now).
Proof. intros s (p & rp & tr & Hm). exists p, rp, tr. exact (keeps_now _ p rp tr s Hm). Qed.

Lemma minds_sleep t : keeps minds (host_do (os_sleep t)).
Proof. intros s (p & rp & tr & Hm). exists p, rp, tr. exact (keeps_sleep _ p rp tr t s Hm). Qed.

#[local] Hint Resolve keeps_poll_exit minds_collect_available minds_now minds_sleep : gateway.

Lemma keeps_require_running stage : keeps minds (require_running fuel stage).
Proof. apply keeps_result; [auto with gateway|]. intros [st|]; apply keeps_value. Qed.

Lemma keeps_poll_until rounds deadline : keeps minds (poll_until fuel rounds deadline).
Proof.
  induction rounds as [|rounds IH]; cbn [poll_until]; [apply keeps_value|].
  apply keeps_then; [auto with gateway|]. intros now. destruct (negb _); [apply keeps_value|].
  apply keeps_result; [auto with gateway|]. intros [st|]; [apply keeps_value|].
  apply keeps_then; [auto with gateway|done].
Qed.

Lemma keeps_wait_until deadline : keeps minds (wait_until fuel deadline).
Proof.
  apply keeps_result; [apply keeps_poll_until|]. intros [st|]; [apply keeps_value|].
  apply keeps_result; [auto with gateway|]. intros [st|]; apply keeps_value.
Qed.

#[local] Hint Resolve keeps_require_running : gateway.

Lemma keeps_await_serving rounds deadline port : keeps minds (await_serving fuel rounds deadline port).
Proof.
  induction rounds as [|rounds IH]; cbn [await_serving]; [apply keeps_value|].
  apply keeps_then; [auto with gateway|]. intros now. destruct (negb _); [apply keeps_value|].
  apply keeps_result; [auto with gateway|]. intros _.
  apply keeps_result; [auto with gateway|]. intros _.
  apply keeps_then; [apply keeps_reading|]. intros text. destruct (find_complete_line _ _ _).
  - destruct (parse_serving_line _ _); apply keeps_value.
  - apply keeps_then; [auto with gateway|done].
Qed.

Lemma keeps_wait_for_serving port : keeps minds (wait_for_serving fuel port).
Proof.
  apply keeps_then; [auto with gateway|]. intros now.
  apply keeps_result; [apply keeps_await_serving|]. intros [who|]; [apply keeps_value|].
  apply keeps_result; [auto with gateway|]. intros _. apply keeps_value.
Qed.

Lemma runs_kill_child p tr rounds :
  runs (mine p false tr) (kill_child rounds p)
    (λ r s, ∃ tr', mine p false tr' s ∧ (r = Ok None → tr' = true)).
Proof.
  revert tr. induction rounds as [|rounds IH]; intros tr; [apply runs_ret; by exists tr|]. cbn [kill_child].
  eapply runs_bind; [apply (runs_os_kill p false tr SIGTERM); by left|].
  intros [[]|]; try (apply runs_ret; by exists true). apply (IH true).
Qed.

Lemma held_asked have p rp s :
  held have p rp true s → held have p rp true (s <| child ::= λ c, c <| termination_requested := true |> |>).
Proof.
  intros (w & Hs & Ho & Hc & Ha & Hp & Hr & _). exists w. do 6 (split; [done|]). done.
Qed.

Lemma keeps_send_sigterm : keeps minds (send_sigterm fuel).
Proof.
  intros s Hm. unfold send_sigterm. run_step. destruct (reaped (child s)) eqn:Hr; [exact Hm|].
  destruct Hm as (p & rp & tr & Hm). pose proof Hm as (_ & _ & _ & _ & _ & Hp & Hr' & _).
  assert (rp = false) as -> by congruence. rewrite Hp. cbn [negb require]. unfold bind_result, ok. run_step.
  pose proof (runs_kill_child p tr fuel s Hm) as (tr' & Hm' & Hok). run_step.
  destruct (run (kill_child fuel p) s) as [s' [a|m|]]; cbn [fst snd] in *; [|by exists p, false, tr'..].
  run_step. destruct a as [e|]; [by exists p, false, tr'|].
  rewrite bool_decide_eq_true_2 by done. run_step. rewrite (Hok eq_refl) in Hm'.
  exists p, false, true. by eapply held_asked.
Qed.

(** *** The cleanup and the birth *)

(** Everything is closed. *)
Definition spent s : Prop := ∃ w, seen w s ∧ w_open w = [].

Lemma held_spent have p rp tr s :
  held have p rp tr s → (output_descriptor (child s) < 0)%Z → spent s.
Proof.
  intros (w & Hs & Ho & _) Hd. exists w. split; [exact Hs|]. rewrite Ho. by rewrite (proj2 (Z.leb_gt _ _)).
Qed.

Definition watched_still s : Prop := ∃ w, seen w s.

Lemma minds_watched s : minds s → watched_still s.
Proof. intros (p & rp & tr & w & Hs & _). by exists w. Qed.

Lemma spent_watched s : spent s → watched_still s.
Proof. intros (w & Hs & _). by exists w. Qed.

(** Collecting what is left and closing. *)
Lemma runs_last_output {A} have p rp tr (a : A) :
  runs (held have p rp tr) (run* collect_available_noexcept fuel in close_output ;; ok a)
    (either_way (λ b s, b = a ∧ held have p rp tr s ∧ (output_descriptor (child s) < 0)%Z) (λ _, held have p rp tr)).
Proof.
  apply (runs_result _ _ (λ _, held have p rp tr)).
  - eapply runs_conseq; [apply keeps_collect_noexcept|done|].
    intros [[]|m|] s Hs; simpl; exact Hs.
  - intros []. eapply runs_bind; [apply runs_close_output|]. intros []. apply runs_ret. by intros s [? ?].
Qed.

Lemma runs_cleanup_wait p tr rounds deadline :
  runs (mine p false tr) (cleanup_wait fuel rounds deadline)
    (either_way (λ (gone : bool) s, if gone then minds s ∧ spent s else mine p false tr s)
       (λ _, minds)).
Proof.
  induction rounds as [|rounds IH]; [apply runs_ret; by exists p, false, tr|]. cbn [cleanup_wait].
  eapply runs_bind; [apply keeps_now|]. intros now. destruct (now <? deadline)%Z; cbn [negb]; [|intros s Hs; exact Hs].
  intros s Hs. run_step. pose proof Hs as (_ & _ & _ & _ & _ & Hp & _ & _). rewrite Hp.
  pose proof (runs_os_waitpid p false tr true s Hs) as Hw.
  destruct (run (host_call (os_waitpid p true)) s) as [s' a]. cbn [fst snd] in *.
  set (again := bind_result _ _) in |- *.
  assert (Hagain : ∀ s, mine p false tr s →
    either_way (λ (gone : bool) s, if gone then minds s ∧ spent s else mine p false tr s) (λ _, minds)
      (snd (run again s)) (fst (run again s))).
  { intros s1 Hs1. revert s1 Hs1. apply (runs_result _ _ (λ _, mine p false tr)).
    - eapply runs_conseq; [apply keeps_collect_noexcept|done|].
      intros [[]|m|] s1 Hs1; simpl; [exact Hs1|by exists p, false, tr..].
    - intros []. eapply runs_bind; [apply keeps_sleep|]. intros []. exact IH. }
  assert (Hlast : ∀ s have, held have p true tr s →
    either_way (λ (gone : bool) s, if gone then minds s ∧ spent s else mine p false tr s) (λ _, minds)
      (snd (run (run* collect_available_noexcept fuel in close_output ;; ok true) s))
      (fst (run (run* collect_available_noexcept fuel in close_output ;; ok true) s))).
  { intros s1 have Hs1. apply held_weaken in Hs1.
    pose proof (runs_last_output false p true tr true s1 Hs1) as H.
    destruct (run _ s1) as [s2 [b|m|]]; cbn [either_way fst snd] in *; [|by exists p, true, tr..].
    destruct H as (-> & Hh & Hd). split; [by exists p, true, tr|by eapply held_spent]. }
  destruct a as [|q st|e]; [by apply Hagain| |].
  - destruct (q =? p)%Z eqn:Hq; [|by apply Hagain]. run_step.
    exact (Hlast _ _ (runs_set_reaped _ p false tr st s' Hw)).
  - destruct e; try exact (Hagain s' Hw); try exact Hw. run_step.
    apply (Hlast _ false). destruct (held_weaken _ _ _ _ _ Hw) as (w & Hs' & Ho & _ & Ha & Hp' & _ & Ht).
    exists w. split; [exact Hs'|]. by split_and!.
Qed.

(** The last lines of every way through the cleanup. *)
Lemma runs_end have p rp tr :
  (negb rp = true → have = true) →
  runs (held have p rp tr) (run* collect_available_noexcept fuel in always close_output)
    (either_way (λ _ s, minds s ∧ spent s) (λ _, minds)).
Proof.
  intros Hhave.
  assert (Hm : ∀ s, held have p rp tr s → minds s).
  { intros s (w & Hw & Ho & Hc & Hrest). exists p, rp, tr, w. split_and!; try done; try apply Hrest.
    intros Hn. auto. }
  apply (runs_result _ _ (λ _, held have p rp tr)).
  - eapply runs_conseq; [apply keeps_collect_noexcept|done|].
    intros [[]|m|] s Hs; simpl; [exact Hs|by apply Hm..].
  - intros []. eapply runs_bind; [apply runs_close_output|]. intros [] s [Hs Hd].
    split; [by apply Hm|by eapply held_spent].
Qed.

(** The request to terminate, unless it was made. *)
Lemma runs_request p tr c :
  runs (λ s, mine p false tr s ∧ child s = c)
    (if termination_requested c then mret () else
       answer ← host_call (os_kill (pid c) SIGTERM);
       if bool_decide (answer = None) then update_child (λ c, c <| termination_requested := true |>)
       else mret ())
    (λ _, mine p false true).
Proof.
  intros s [Hs <-]. pose proof Hs as (_ & _ & _ & _ & _ & Hp & Hr & Ht).
  destruct (termination_requested (child s)); [by rewrite (Ht eq_refl) in Hs|].
  rewrite Hp. run_step. pose proof (runs_os_kill p false tr SIGTERM ltac:(by left) s Hs) as Hk.
  case_bool_decide; run_step; [by apply held_asked|exact Hk].
Qed.

(** When the child did not end in time. *)
Lemma runs_kill p :
  runs (mine p false true)
    (c ← read child;
     host_call (os_kill (pid c) SIGKILL) ;;
     let* answer := wait_for_child fuel (pid c) in
     (match answer with
      | WaitChild q status => if (q =? pid c)%Z then set_reaped status else mret ()
      | _ => mret ()
      end) ;;
     run* collect_available_noexcept fuel in
     always close_output)
    (either_way (λ _ s, minds s ∧ spent s) (λ _, minds)).
Proof.
  intros s0 Hs0. run_step. pose proof Hs0 as (_ & _ & _ & _ & _ & Hp & _ & _). rewrite Hp.
  pose proof (runs_os_kill p false true SIGKILL ltac:(by right) s0 Hs0) as Hs. run_step.
  destruct (run (host_call (os_kill p SIGKILL)) s0) as [s a0]. cbn [fst snd] in *.
  revert s Hs. apply (runs_result _ _ (λ a s, after_wait p false true (Ok a) s)).
  { eapply runs_conseq; [apply runs_wait_for_child|done|].
    intros [a|m|] s Hs; [exact Hs|by exists p, false, true..]. }
  intros a. destruct a as [|q st|e]; [by apply (runs_end true p false true)| |by apply (runs_end true p false true)].
  cbn [after_wait]. destruct (q =? p)%Z; [|by apply (runs_end true p false true)].
  eapply runs_bind; [apply runs_set_reaped|]. intros []. by apply (runs_end _ p true true).
Qed.

Lemma runs_cleanup : runs minds (cleanup fuel) (either_way (λ _ s, minds s ∧ spent s) (λ _, minds)).
Proof.
  intros s (p & rp & tr & Hs). unfold cleanup. run_step.
  pose proof Hs as (_ & _ & _ & _ & _ & _ & Hr & _). rewrite Hr.
  destruct rp; [exact (runs_end false p true tr (λ H, H) s Hs)|]. clear Hr. revert s Hs.
  apply (runs_result _ _ (λ _, mine p false tr)).
  { eapply runs_conseq; [apply keeps_collect_noexcept|done|].
    intros [[]|m|] s Hs; simpl; [exact Hs|by exists p, false, tr..]. }
  intros []. apply (runs_bind _ _ (λ c s, mine p false tr s ∧ child s = c)); [by apply runs_read|].
  intros c. eapply runs_bind; [apply runs_request|]. intros [].
  eapply runs_bind; [apply keeps_now|]. intros now.
  eapply runs_result; [apply runs_cleanup_wait|]. intros [|]; [|apply runs_kill].
  intros s Hs. exact Hs.
Qed.

(** *** The fork *)

(** Between the fork and the object: only the child is held. *)
Definition forked p asked s : Prop :=
  ∃ w, seen w s ∧ w_open w = [] ∧ w_child w = Some p ∧ (asked = true → w_asked w = true).

Lemma keeps_spawn_silent {A} p asked (f : X → X * A) (g : Logged X → Logged X * A) :
  (∀ l, g l = (record None (fst (f (machine l))) l, snd (f (machine l)))) →
  keeps (forked p asked) (host_call g).
Proof.
  intros Hg. apply (keeps_unheard _ f); [done|]. intros s x (w & Hs & Hrest). exists w.
  split; [by apply seen_silent|exact Hrest].
Qed.

Lemma forked_spent p asked s : forked p asked s → spent s.
Proof. intros (w & Hs & Ho & _). by exists w. Qed.

Lemma runs_fork_wait p asked nohang :
  runs (forked p asked) (host_call (os_waitpid p nohang))
    (λ a s, match a with WaitChild q _ => if (q =? p)%Z then spent s else forked p asked s
            | _ => forked p asked s end).
Proof.
  intros s (w & Hs & Ho & Hc & Ha). cbn.
  destruct (os_waitpid p nohang (machine (host s))) as [x a]. cbn.
  assert (Hseen : seen (MkWatch (w_open w) (match a with WaitChild q _ => if (q =? p)%Z then None else Some p
                                           | _ => Some p end) (w_asked w))
                    (s <| host := record (Some (CallWait p a)) x (host s) |>)).
  { eapply seen_call; [exact Hs|]. cbn. by rewrite Hc, bool_decide_eq_true_2. }
  destruct a as [|q st|e]; [by eexists| |by eexists]. destruct (q =? p)%Z; by eexists.
Qed.

Lemma runs_fork_kill p asked signal :
  (signal = SIGTERM ∨ asked = true) →
  runs (forked p asked) (host_call (os_kill p signal)) (λ _, forked p true).
Proof.
  intros Hsig s (w & Hs & Ho & Hc & Ha). cbn.
  destruct (os_kill p signal (machine (host s))) as [x a]. cbn.
  exists (MkWatch (w_open w) (w_child w) true). split; [|by split_and!].
  eapply seen_call; [exact Hs|]. cbn. rewrite Hc, bool_decide_eq_true_2 by done. simpl.
  destruct Hsig as [->|Htr]; [done|]. by rewrite (Ha Htr), orb_true_r.
Qed.

Lemma runs_fork_await p asked rounds deadline :
  runs (forked p asked) (await_spawn_failure rounds p deadline)
    (either_way (λ (gone : bool) s, if gone then spent s else forked p asked s) (λ _, spent)).
Proof.
  assert (Hs : ∀ t, keeps (forked p asked) (host_do (os_sleep t))).
  { intros t. by apply (keeps_spawn_silent p asked (λ x, (os_sleep t x, ()))). }
  induction rounds as [|rounds IH]; [apply runs_ret; apply forked_spent|]. cbn [await_spawn_failure].
  eapply runs_bind.
  { apply (keeps_spawn_silent p asked os_now). intros l. cbn. by destruct (os_now (machine l)). }
  intros now. destruct (now <? deadline)%Z; cbn [negb]; [|intros s H; exact H].
  eapply runs_bind; [apply runs_fork_wait|].
  assert (Hagain : runs (forked p asked) (host_do (os_sleep kPollInterval) ;; await_spawn_failure rounds p deadline)
    (either_way (λ (gone : bool) s, if gone then spent s else forked p asked s) (λ _, spent))).
  { eapply runs_bind; [apply Hs|]. intros []. exact IH. }
  intros [|q st|[]]; try exact Hagain; try (intros s H; exact H); [|intros s H; by eapply forked_spent].
  destruct (q =? p)%Z; [intros s H; exact H|exact Hagain].
Qed.

Lemma runs_fork_reap p asked rounds :
  runs (forked p asked) (wait_for_child rounds p) (λ _, spent).
Proof.
  induction rounds as [|rounds IH]; [apply runs_ret, forked_spent|]. cbn [wait_for_child].
  eapply runs_bind; [apply runs_fork_wait|].
  intros [|q st|[]]; try exact IH; try (intros s H; by eapply forked_spent).
  destruct (q =? p)%Z; intros s H; [exact H|by eapply forked_spent].
Qed.

Lemma runs_reap_spawn_failure p :
  runs (forked p false) (reap_spawn_failure fuel p) (λ _, spent).
Proof.
  eapply runs_bind; [apply (runs_fork_kill p false SIGTERM); by left|]. intros ?.
  eapply runs_bind.
  { apply (keeps_spawn_silent p true os_now). intros l. cbn. by destruct (os_now (machine l)). }
  intros now. eapply runs_conseq; [|intros s H; exact H|intros r s H; exact H].
  apply (runs_bind _ _ _ _ _ (runs_fork_await p true fuel (now + seconds 2)%Z)).
  intros [[]|m|]; [intros s H; exact H| |intros s H; exact H..].
  eapply runs_bind; [apply (runs_fork_kill p true SIGKILL); by right|]. intros ?.
  eapply runs_bind; [apply runs_fork_reap|]. intros [b|m|] s H; exact H.
Qed.

(** No object yet, after these calls. *)
Definition unborn w s : Prop := seen w s ∧ child s = no_child.

Lemma runs_unborn_close w d :
  d ∈ w_open w →
  runs (unborn w) (host_do (os_close d))
    (λ _, unborn (MkWatch (filter (λ d', d' ≠ d) (w_open w)) (w_child w) (w_asked w))).
Proof.
  intros Hd s [Hs Hc]. split; [|exact Hc]. eapply seen_call; [exact Hs|]. cbn.
  by rewrite bool_decide_eq_true_2.
Qed.

Lemma runs_unborn_pipe :
  runs (unborn nothing_yet) (host_call os_pipe)
    (λ a s, match a with
            | Some (r, wr) => unborn (MkWatch [r; wr] None false) s ∧ (0 <= r)%Z ∧ r ≠ wr
            | None => unborn nothing_yet s
            end).
Proof.
  intros s [Hs Hc]. cbn. pose proof (pipe_ok (machine (host s))) as Hpipe.
  destruct (os_pipe (machine (host s))) as [x [[r wr]|]]; cbn.
  - destruct (Hpipe r wr eq_refl) as (Hr & _ & Hne). split; [|done]. split; [|exact Hc].
    by eapply seen_call.
  - split; [by apply seen_silent|exact Hc].
Qed.

Lemma runs_unborn_fork o :
  runs (unborn (MkWatch o None false)) (host_call os_fork)
    (λ a, unborn (MkWatch o a false)).
Proof.
  intros s [Hs Hc]. cbn. destruct (os_fork (machine (host s))) as [x [p|]]; cbn; (split; [|exact Hc]).
  - by eapply seen_call.
  - by apply seen_silent.
Qed.

Lemma keeps_unborn_nonblocking w d : keeps (unborn w) (host_call (os_nonblocking d)).
Proof.
  intros s [Hs Hc]. cbn. destruct (os_nonblocking d (machine (host s))) as [x a].
  split; [by apply seen_silent|exact Hc].
Qed.

Lemma runs_spawn : runs (unborn nothing_yet) (spawn fuel) (either_way (λ _, minds) (λ _, spent)).
Proof.
  eapply runs_bind; [apply runs_unborn_pipe|]. intros [[r wr]|].
  2: { intros s [Hs _]. by exists nothing_yet. }
  intros s [Hs [Hr Hne]]. revert s Hs.
  assert (Hw : filter (λ d', d' ≠ wr) [r; wr] = [r]).
  { rewrite filter_cons_True, filter_cons_False by (try done; by intros ?). done. }
  assert (Hr' : filter (λ d', d' ≠ r) [r; wr] = [wr]).
  { rewrite filter_cons_False, filter_cons_True by (try congruence; by intros ?). done. }
  assert (Hnil : ∀ d, filter (λ d', d' ≠ d) [d] = []).
  { intros d. by rewrite filter_cons_False by (by intros ?). }
  apply (runs_bind _ _ _ _ _ (runs_unborn_fork [r; wr])). intros [p|].
  - eapply runs_bind; [apply (runs_unborn_close _ wr); by apply list_elem_of_further, list_elem_of_singleton|].
    intros []. cbn [w_open w_child w_asked]. rewrite Hw.
    eapply runs_bind; [apply keeps_unborn_nonblocking|]. intros [|]; cbn [negb].
    + intros s [Hs Hc]. exists p, false, false, (MkWatch [r] (Some p) false). split; [exact Hs|].
      cbn. rewrite (proj2 (Z.leb_le _ _)) by done. by split_and!.
    + eapply runs_bind; [apply (runs_unborn_close _ r); by apply list_elem_of_singleton|].
      intros []. cbn [w_open w_child w_asked]. rewrite Hnil.
      eapply (runs_bind _ _ (λ _, spent)).
      * eapply runs_conseq; [apply runs_reap_spawn_failure| |done].
        intros s [Hs _]. eexists. by split_and!.
      * intros [[]|m|] s Hs; exact Hs.
  - eapply runs_bind; [apply (runs_unborn_close _ r); by left|].
    intros []. cbn [w_open w_child w_asked]. rewrite Hr'.
    eapply runs_bind; [apply (runs_unborn_close _ wr); by apply list_elem_of_singleton|].
    intros []. cbn [w_open w_child w_asked]. rewrite Hnil.
    intros s [Hs _]. by eexists.
Qed.

Lemma keeps_perform use : keeps minds (perform fuel use).
Proof.
  destruct use; cbn [perform].
  - auto with gateway.
  - apply keeps_result; [auto with gateway|]. intros a. apply keeps_value.
  - apply keeps_require_running.
  - apply keeps_send_sigterm.
  - apply keeps_result; [apply keeps_wait_until|]. intros a. apply keeps_value.
  - apply keeps_result; [apply keeps_wait_for_serving|]. intros a. apply keeps_value.
  - eapply runs_conseq; [apply runs_cleanup|done|]. intros [[]|m|] s; [by intros [? _]|done|done].
Qed.

Lemma keeps_performs uses : keeps minds (performs fuel uses).
Proof.
  induction uses as [|use uses IH]; cbn [performs]; [apply keeps_value|].
  apply keeps_result; [apply keeps_perform|done].
Qed.

Lemma quiet_cleanup : never_raises (cleanup (X := Logged X) fuel).
Proof.
  assert (Hc : never_raises (collect_available_noexcept (X := Logged X) fuel)).
  { apply quiet_catch. intros m. apply quiet_ok. }
  assert (He : never_raises (run* collect_available_noexcept (X := Logged X) fuel in always close_output)).
  { auto with gateway. }
  assert (Hl : ∀ rounds deadline, never_raises (cleanup_wait (X := Logged X) fuel rounds deadline)).
  { induction rounds as [|rounds IH]; intros deadline; cbn [cleanup_wait]; [apply quiet_unfinished|].
    apply quiet_bind. intros now. destruct (negb _); [apply quiet_ok|]. apply quiet_bind. intros p.
    apply quiet_bind. intros a. set (again := bind_result _ _).
    assert (never_raises again) by (apply quiet_result; [done|]; intros _; apply quiet_bind; auto).
    destruct a as [|q st|[]]; auto with gateway. destruct (q =? p)%Z; auto 6 with gateway. }
  assert (Hw : ∀ rounds p, never_raises (wait_for_child (X := Logged X) rounds p)).
  { induction rounds as [|rounds IH]; intros p; cbn [wait_for_child]; [apply quiet_unfinished|].
    apply quiet_bind. intros [|q st|[]]; auto with gateway. }
  apply quiet_bind. intros c. destruct (reaped c); [done|]. apply quiet_result; [done|]. intros [].
  apply quiet_bind. intros c'. apply quiet_bind. intros []. apply quiet_bind. intros now.
  apply quiet_result; [done|]. intros [|]; auto 8 with gateway.
Qed.

(** Whatever the operating system answers and however the object is used: the calls are
    disciplined.  Nothing is read from or closed twice, no pid is signalled or waited for
    after [waitpid] has answered it, [SIGKILL] is only sent to a child that was sent
    [SIGTERM], and when the object is gone, by a return or an exception, both ends of the
    pipe are closed. *)
Theorem child_calls_are_disciplined uses (x : X) :
  let '(s, r) := run (lifetime fuel uses) (MkProcess no_child (MkLogged x [])) in
  ∃ w, watched nothing_yet (calls (host s)) = Some w ∧ (r ≠ Unfinished → w_open w = []).
Proof.
  assert (H : runs (unborn nothing_yet) (lifetime fuel uses)
    (λ r s, watched_still s ∧ (r ≠ Unfinished → spent s))).
  { unfold lifetime. eapply runs_bind; [apply runs_spawn|].
    intros [[]|m|]; [|by apply runs_ret; intros s Hs; split; [apply spent_watched|]..].
    eapply runs_bind; [apply keeps_performs|].
    assert (Hd : ∀ r : result (), r ≠ Unfinished → runs minds
      (d ← cleanup fuel; match d with Ok _ => mret r | Raised m => mret (Raised m) | Unfinished => mret Unfinished end)
      (λ r s, watched_still s ∧ (r ≠ Unfinished → spent s))).
    { intros r Hr s Hs. rewrite run_bind. pose proof (runs_cleanup s Hs) as Hc. pose proof (quiet_cleanup s) as Hq.
      destruct (run (cleanup fuel) s) as [s' [[]|m|]]; cbn [fst snd either_way] in *.
      - destruct Hc as [Hm Hsp]. split; [by apply minds_watched|done].
      - by destruct (Hq m).
      - by split; [apply minds_watched|]. }
    intros [[]|m|]; [by apply Hd..|]. intros s Hs. by split; [apply minds_watched|]. }
  specialize (H (MkProcess no_child (MkLogged x [])) (conj eq_refl eq_refl)).
  destruct (run _ _) as [s r]. cbn [fst snd] in H. destruct H as [(w & Hw) Hr].
  destruct (decide (r = Unfinished)) as [->|Hne].
  - by exists w.
  - destruct (Hr Hne) as (w' & Hw' & Ho). exists w'. by split.
Qed.
End Discipline.

(** ** On a machine that keeps its promises *)

(** The clock does not go back and passes while a thread sleeps; only so many reads in a row
    give data or are interrupted; a child is there until [waitpid] has answered it, is not
    denied while it is there, and is answered by a wait that is not interrupted too often. *)
Class FairOs (X : Type) `{OS : !ChildOs X} : Type := {
  fo_clock : X → Z;
  fo_child : X → option Z;
  fo_reads : X → nat;
  fo_waits : X → nat;
  fo_bound : nat;
  fo_reads_bound x : fo_reads x ≤ fo_bound;
  fo_waits_bound x : fo_waits x ≤ fo_bound;
  fo_now x : snd (os_now x) = fo_clock (fst (os_now x)) ∧ (fo_clock x <= fo_clock (fst (os_now x)))%Z ∧
             fo_child (fst (os_now x)) = fo_child x;
  fo_sleep d x : (fo_clock x + d <= fo_clock (os_sleep d x))%Z ∧ fo_child (os_sleep d x) = fo_child x;
  fo_close d x : (fo_clock x <= fo_clock (os_close d x))%Z ∧ fo_child (os_close d x) = fo_child x;
  fo_kill p signal x : (fo_clock x <= fo_clock (fst (os_kill p signal x)))%Z ∧
                       fo_child (fst (os_kill p signal x)) = fo_child x;
  fo_read d x : (fo_clock x <= fo_clock (fst (os_read d x)))%Z ∧
                fo_child (fst (os_read d x)) = fo_child x ∧
                match snd (os_read d x) with
                | ReadBytes _ | ReadFailed EINTR => fo_reads (fst (os_read d x)) < fo_reads x
                | _ => True
                end;
  fo_pipe x : fo_child (fst (os_pipe x)) = fo_child x;
  fo_nonblocking d x : fo_child (fst (os_nonblocking d x)) = fo_child x;
  fo_fork x : fo_child (fst (os_fork x)) = match snd (os_fork x) with Some p => Some p | None => fo_child x end;
  fo_wait p nohang x : fo_child x = Some p →
    (fo_clock x <= fo_clock (fst (os_waitpid p nohang x)))%Z ∧
    match snd (os_waitpid p nohang x) with
    | WaitChild q _ => q = p ∧ fo_child (fst (os_waitpid p nohang x)) = None
    | WaitNone => nohang = true ∧ fo_child (fst (os_waitpid p nohang x)) = Some p
    | WaitFailed EINTR => fo_waits (fst (os_waitpid p nohang x)) < fo_waits x ∧
                          fo_child (fst (os_waitpid p nohang x)) = Some p
    | WaitFailed _ => False
    end
}.

Section Fair.
Context {X : Type} `{OS : !ChildOs X} `{Fair : !FairOs X} (fuel : nat).
Abbreviation State := (Process X).
Implicit Types (s : State) (p t : Z) (rp : bool).

(** The child the machine has, the object's, and a time that has come. *)
Definition at_time c p rp t s : Prop :=
  fo_child (host s) = c ∧ pid (child s) = p ∧ reaped (child s) = rp ∧ (t <= fo_clock (host s))%Z.

Lemma keeps_member c p rp t (f : Child → Child) :
  (∀ x, pid (f x) = pid x ∧ reaped (f x) = reaped x) →
  keeps (at_time c p rp t) (update_child f).
Proof.
  intros Hf s (Hc & Hp & Hr & Ht). destruct (Hf (child s)) as [H1 H2]. unfold at_time. cbn.
  by rewrite H1, H2.
Qed.

Lemma fair_close_output c p rp t :
  runs (at_time c p rp t) close_output
    (λ _ s, at_time c p rp t s ∧ (output_descriptor (child s) < 0)%Z).
Proof.
  intros s (Hc & Hp & Hr & Ht). unfold close_output. run_step.
  destruct (Z.leb_spec 0 (output_descriptor (child s))) as [Hd|Hd]; run_step; [|by split; [|lia]].
  destruct (fo_close (output_descriptor (child s)) (host s)) as [H1 H2]. split; [|done].
  unfold at_time. cbn. rewrite H2. split_and!; try done. lia.
Qed.

Lemma fair_collect c p rp t rounds :
  runs (λ s, at_time c p rp t s ∧ fo_reads (host s) < rounds) (collect rounds)
    (λ r s, at_time c p rp t s ∧ r ≠ Unfinished).
Proof.
  induction rounds as [|rounds IH]; [intros s [_ H]; lia|].
  intros s [(Hc & Hp & Hr & Ht) Hn]. cbn [collect]. run_step. cbn [host_call run atomically fst snd].
  pose proof (fo_read (output_descriptor (child s)) (host s)) as (H1 & H2 & H3).
  destruct (os_read (output_descriptor (child s)) (host s)) as [x a]. cbn [fst snd] in *.
  set (s' := s <| host := x |>).
  assert (Hs' : at_time c p rp t s') by (unfold at_time; cbn; rewrite H2; split_and!; try done; lia).
  destruct a as [text| |[]]; try (by split).
  - run_step. apply IH. split; [|cbn; lia].
    apply (keeps_member c p rp t); [by intros []|exact Hs'].
  - run_step. split; [apply (fair_close_output c p rp t s' Hs')|done].
  - apply IH. split; [exact Hs'|cbn; lia].
Qed.

Hypothesis enough_reads : fo_bound < fuel.

Lemma fair_collect_noexcept c p rp t :
  runs (at_time c p rp t) (collect_available_noexcept fuel) (λ r s, r = Ok () ∧ at_time c p rp t s).
Proof.
  intros s Hs. unfold collect_available_noexcept, catch_all, collect_available. run_step.
  destruct (output_descriptor (child s) <? 0)%Z; [by split|]. run_step.
  pose proof (fo_reads_bound (host s)) as Hreads.
  assert (Hn : fo_reads (host s) < fuel) by lia.
  pose proof (fair_collect c p rp t fuel s (conj Hs Hn)) as [H1 H2].
  destruct (run (collect fuel) s) as [s' [[]|m|]]; cbn [fst snd] in *; [by split..|done].
Qed.

(** The last lines. *)
Lemma fair_end {A} c p rp t (a : A) :
  runs (at_time c p rp t) (run* collect_available_noexcept fuel in close_output ;; ok a)
    (λ r s, r = Ok a ∧ at_time c p rp t s ∧ (output_descriptor (child s) < 0)%Z).
Proof.
  eapply runs_known; [apply fair_collect_noexcept|]. intros s Hs. run_step.
  by split; [|apply (fair_close_output c p rp t s Hs)].
Qed.

Lemma fair_now c p rp t :
  runs (at_time c p rp t) (host_call os_now) (λ now s, at_time c p rp now s ∧ (t <= now)%Z).
Proof.
  intros s (Hc & Hp & Hr & Ht). cbn. destruct (fo_now (host s)) as (H1 & H2 & H3).
  unfold at_time. cbn. rewrite H3, H1. split_and!; try done; lia.
Qed.

Lemma fair_sleep c p rp t d :
  runs (at_time c p rp t) (host_do (os_sleep d)) (λ _, at_time c p rp (t + d)).
Proof.
  intros s (Hc & Hp & Hr & Ht). cbn. destruct (fo_sleep d (host s)) as (H1 & H2).
  unfold at_time. cbn. rewrite H2. split_and!; try done; lia.
Qed.

Lemma fair_kill c p rp t q signal :
  runs (at_time c p rp t) (host_call (os_kill q signal)) (λ _, at_time c p rp t).
Proof.
  intros s (Hc & Hp & Hr & Ht). cbn. destruct (fo_kill q signal (host s)) as (H1 & H2).
  unfold at_time. cbn. rewrite H2. split_and!; try done; lia.
Qed.

Lemma fair_set_reaped c p rp t st : runs (at_time c p rp t) (set_reaped st) (λ _, at_time c p true t).
Proof. intros s (Hc & Hp & Hr & Ht). by split_and!. Qed.

(** Reaped and closed. *)
Definition finished p s : Prop :=
  fo_child (host s) = None ∧ reaped (child s) = true ∧ (output_descriptor (child s) < 0)%Z.

(** The rounds the loop needs until its deadline. *)
Lemma fair_cleanup_wait p deadline rounds : ∀ t,
  0 < rounds → (deadline <= t + (Z.of_nat rounds - 1) * kPollInterval)%Z →
  runs (at_time (Some p) p false t) (cleanup_wait fuel rounds deadline)
    (λ r s, r = Ok true ∧ finished p s ∨ r = Ok false ∧ ∃ t, at_time (Some p) p false t s).
Proof.
  induction rounds as [|rounds IH]; intros t Hpos Hdl; [lia|]. cbn [cleanup_wait].
  eapply runs_bind; [apply fair_now|]. intros now s [Hs Hnow].
  destruct (Z.ltb_spec now deadline) as [Hlt|Hge]; cbn [negb].
  2: { right. split; [done|by exists now]. }
  run_step. destruct Hs as (Hc & Hp & Hr & Ht). rewrite Hp. cbn [host_call run atomically fst snd].
  destruct (fo_wait p true (host s) Hc) as [H1 H2].
  destruct (os_waitpid p true (host s)) as [x a]. cbn [fst snd] in *. set (s' := s <| host := x |>).
  set (again := bind_result _ _).
  assert (Hruns : runs (at_time (Some p) p false now) again
    (λ r s, r = Ok true ∧ finished p s ∨ r = Ok false ∧ ∃ t, at_time (Some p) p false t s)).
  { eapply runs_known; [apply fair_collect_noexcept|].
    apply (runs_bind _ _ (λ _, at_time (Some p) p false (now + kPollInterval))); [apply fair_sleep|].
    intros []. apply IH; unfold kPollInterval, milliseconds in *; nia. }
  assert (Hagain : fo_child x = Some p → _) by
    (intros Hx; apply (Hruns s'); unfold at_time; cbn; split_and!; try done; lia).
  destruct a as [|q st|[]]; try done; try (apply Hagain; apply H2).
  destruct H2 as [-> Hx]. rewrite Z.eqb_refl. run_step.
  assert (Hs' : at_time None p true (fo_clock x) (fst (run (set_reaped st) s'))) by (unfold at_time; cbn; by split_and!).
  destruct (run (set_reaped st) s') as [s1 []]. cbn [fst snd] in *.
  pose proof (fair_collect_noexcept None p true _ s1 Hs') as [Hq Hs2]. unfold bind_result.
  run_step. destruct (run (collect_available_noexcept fuel) s1) as [s2 r]. cbn [fst snd] in *. subst r.
  run_step. destruct (fair_close_output None p true _ s2 Hs2) as [(E1 & E2 & E3 & E4) Hd].
  left. by split_and!.
Qed.

Lemma fair_wait_for_child p t rounds :
  runs (λ s, at_time (Some p) p false t s ∧ fo_waits (host s) < rounds) (wait_for_child rounds p)
    (λ r s, ∃ st, r = Ok (WaitChild p st) ∧ at_time None p false t s).
Proof.
  induction rounds as [|rounds IH]; [intros s [_ H]; lia|]. intros s [(Hc & Hp & Hr & Ht) Hn].
  cbn [wait_for_child]. run_step. cbn [host_call run atomically fst snd].
  destruct (fo_wait p false (host s) Hc) as [H1 H2].
  destruct (os_waitpid p false (host s)) as [x a]. cbn [fst snd] in *.
  assert (Hat : ∀ c, fo_child x = c → at_time c p false t (s <| host := x |>)).
  { intros c Hx. unfold at_time. cbn. split_and!; try done. lia. }
  destruct a as [|q st|[]]; try done; [by destruct H2| |].
  - destruct H2 as [-> Hx]. exists st. split; [done|by apply Hat].
  - destruct H2 as [Hlt Hx]. apply IH. split; [by apply Hat|cbn; lia].
Qed.

(** The last lines of every way through the cleanup. *)
Lemma fair_last p t :
  runs (at_time None p true t) (run* collect_available_noexcept fuel in always close_output)
    (λ r s, r = Ok () ∧ finished p s).
Proof.
  eapply runs_known; [apply fair_collect_noexcept|]. intros s1 Hs1.
  destruct (fair_close_output None p true t s1 Hs1) as [(E1 & E2 & E3 & E4) Hd].
  rewrite run_always. destruct (run close_output s1) as [s2 []]. by split_and!.
Qed.

(** When the child did not end in time. *)
Lemma fair_kill_child p t :
  runs (at_time (Some p) p false t)
    (c ← read child;
     host_call (os_kill (pid c) SIGKILL) ;;
     let* answer := wait_for_child fuel (pid c) in
     (match answer with
      | WaitChild q status => if (q =? pid c)%Z then set_reaped status else mret ()
      | _ => mret ()
      end) ;;
     run* collect_available_noexcept fuel in
     always close_output)
    (λ r s, r = Ok () ∧ finished p s).
Proof.
  intros s0 Hs0. run_step. assert (Hp : pid (child s0) = p) by apply Hs0. rewrite Hp. run_step.
  pose proof (fair_kill (Some p) p false t p SIGKILL s0 Hs0) as Hs.
  destruct (run (host_call (os_kill p SIGKILL)) s0) as [s a0]. cbn [fst snd] in *.
  revert s Hs. apply (runs_cases _ _ (λ r s, ∃ st, r = Ok (WaitChild p st) ∧ at_time None p false t s) _
    (λ r s, r = Ok () ∧ finished p s)).
  - intros s Hs. apply (fair_wait_for_child p t fuel). split; [exact Hs|].
    pose proof (fo_waits_bound (host s)). lia.
  - intros a. apply (runs_bind _ _ (λ _, at_time None p true t)); [|intros []; apply fair_last].
    intros s (st & [= ->] & Hs). rewrite Z.eqb_refl. exact (fair_set_reaped None p false t st s Hs).
  - intros m s (st & ? & _). done.
  - intros s (st & ? & _). done.
Qed.

Hypothesis enough_waits : 1501 ≤ fuel.

Lemma fair_cleanup s :
  fo_child (host s) = (if reaped (child s) then None else Some (pid (child s))) →
  snd (run (cleanup fuel) s) = Ok () ∧ finished (pid (child s)) (fst (run (cleanup fuel) s)).
Proof.
  set (p := pid (child s)). intros Hc. unfold cleanup. run_step.
  destruct (reaped (child s)) eqn:Hr.
  { apply (fair_last p (fo_clock (host s)) s). by split_and!. }
  assert (Hs : at_time (Some p) p false (fo_clock (host s)) s) by by split_and!.
  revert Hs. generalize (fo_clock (host s)). clear Hr Hc. clearbody p. intros t Hs. revert s Hs.
  apply (runs_known (at_time (Some p) p false t) _ () (at_time (Some p) p false t) _
    (λ r s, r = Ok () ∧ finished p s)); [apply fair_collect_noexcept|].
  apply (runs_bind _ _ (λ c s, at_time (Some p) p false t s ∧ child s = c)); [by apply runs_read|].
  intros c. apply (runs_bind _ _ (λ _, at_time (Some p) p false t)).
  { intros s [Hs _]. destruct (termination_requested c); [exact Hs|]. run_step.
    pose proof (fair_kill (Some p) p false t (pid c) SIGTERM s Hs) as Hk.
    case_bool_decide; [|exact Hk]. apply (keeps_member (Some p) p false t); [by intros []|exact Hk]. }
  intros []. apply (runs_bind _ _ (λ now, at_time (Some p) p false now)).
  { eapply runs_conseq; [apply fair_now|done|]. by intros now s [Hs _]. }
  intros now. eapply runs_cases.
  { apply fair_cleanup_wait; [lia|]. unfold kFailureCleanupTimeout, seconds, kPollInterval, milliseconds. nia. }
  - intros gone s [[[= ->] Hf]|[[= ->] [t' Hs]]]; [by split|]. exact (fair_kill_child p t' s Hs).
  - intros m s [[? _]|[? _]]; done.
  - intros s [[? _]|[? _]]; done.
Qed.

(** On such a machine the cleanup ends, whatever the daemon does, and the child is gone:
    it was answered by [waitpid], the object knows it, and the pipe is closed.  A daemon
    that ignores [SIGTERM] is killed after [kFailureCleanupTimeout]. *)
Theorem cleanup_reaps_the_child s :
  fo_child (host s) = (if reaped (child s) then None else Some (pid (child s))) →
  snd (run (cleanup fuel) s) = Ok () ∧ finished (pid (child s)) (fst (run (cleanup fuel) s)).
Proof. apply fair_cleanup. Qed.
End Fair.

(** ** Who holds the child

    Whatever is done with the object, a child that was not reaped is the one the object
    names. *)

Section Holds.
Context {X : Type} `{OS : !ChildOs X} `{Fair : !FairOs X} (fuel : nat).
Abbreviation State := (Process X).
Implicit Types (s : State) (p : Z).

Definition knows s : Prop := fo_child (host s) = if reaped (child s) then None else Some (pid (child s)).

(** A section that neither waits nor touches what the object knows of the child. *)
Definition calm s s' : Prop :=
  fo_child (host s') = fo_child (host s) ∧ pid (child s') = pid (child s) ∧ reaped (child s') = reaped (child s).

#[export] Instance calm_preorder : PreOrder calm.
Proof. split; [done|]. intros s1 s2 s3 (A1 & B1 & C1) (A2 & B2 & C2). unfold calm. by rewrite A2, B2, C2. Qed.

Abbreviation calmly p := (every (S := State) calm p).

Lemma calm_keeps {A} (p : prog State A) : calmly p → keeps knows p.
Proof.
  intros Hp s Hs. destruct (every_run calm p s Hp) as (A1 & B1 & C1).
  unfold knows. by rewrite A1, B1, C1.
Qed.

Lemma calm_call {A} (f : X → X * A) : (∀ x, fo_child (fst (f x)) = fo_child x) → calmly (host_call f).
Proof. intros Hf s. split; [|done]. split_and!; [apply Hf|done|done]. Qed.

Lemma calm_update (f : Child → Child) :
  (∀ c, pid (f c) = pid c ∧ reaped (f c) = reaped c) → calmly (update_child f).
Proof. intros Hf s. destruct (Hf (child s)). split; [by split_and!|done]. Qed.

Lemma calm_read {A} (f : State → A) : calmly (read f).
Proof. apply every_read. exact _. Qed.

Lemma calm_now : calmly (host_call os_now).
Proof. apply calm_call. intros x. apply fo_now. Qed.

Lemma calm_sleep t : calmly (host_do (os_sleep t)).
Proof. apply calm_call. intros x. apply fo_sleep. Qed.

Lemma calm_kill p signal : calmly (host_call (os_kill p signal)).
Proof. apply calm_call. intros x. apply fo_kill. Qed.

Lemma calm_close_output : calmly close_output.
Proof.
  apply every_bind; [apply calm_read|]. intros d. destruct (0 <=? d)%Z; [|done].
  apply every_bind; [apply calm_call; intros x; apply fo_close|]. intros []. by apply calm_update.
Qed.

Lemma calm_collect rounds : calmly (collect rounds).
Proof.
  induction rounds as [|rounds IH]; [done|]. cbn [collect]. apply every_bind; [apply calm_read|]. intros d.
  apply every_bind; [apply calm_call; intros x; apply fo_read|]. intros [text| |[]]; try exact IH; try done.
  apply every_bind; [apply calm_close_output|done].
Qed.

Lemma calm_collect_available : calmly (collect_available fuel).
Proof. apply every_bind; [apply calm_read|]. intros d. destruct (d <? 0)%Z; [done|apply calm_collect]. Qed.

(** The wait of a poll: the child is answered or still there. *)
Lemma held_poll_wait rounds p :
  runs (λ s, fo_child (host s) = Some p ∧ pid (child s) = p ∧ reaped (child s) = false) (poll_wait rounds p)
    (λ r s, pid (child s) = p ∧ reaped (child s) = false ∧
            match r with
            | Ok (WaitChild q _) => q = p ∧ fo_child (host s) = None
            | _ => fo_child (host s) = Some p
            end).
Proof.
  induction rounds as [|rounds IH]; [intros s (? & ? & ?); by split_and!|]. intros s (Hc & Hp & Hr).
  cbn [poll_wait]. run_step. cbn [host_call run atomically fst snd].
  destruct (fo_wait p true (host s) Hc) as [_ Hw]. destruct (os_waitpid p true (host s)) as [x a].
  cbn [fst snd] in *. destruct a as [|q st|[]]; try done; cbn.
  - destruct Hw. by split_and!.
  - apply IH. destruct Hw. by split_and!.
Qed.

Lemma knows_poll_exit : keeps knows (poll_exit fuel).
Proof.
  apply keeps_result; [apply calm_keeps, calm_collect_available|]. intros []. intros s Hs.
  run_step. unfold knows in Hs. destruct (reaped (child s)) eqn:Hr; [unfold knows; cbn; by rewrite Hr|].
  revert Hr Hs. set (p := pid (child s)). assert (Hp : pid (child s) = p) by done. clearbody p. intros Hr Hs.
  revert s Hs Hp Hr. intros s Hs Hp Hr. unfold bind_result. run_step.
  destruct (held_poll_wait fuel p s (conj Hs (conj Hp Hr))) as (Hp' & Hr' & Hw).
  destruct (run (poll_wait fuel p) s) as [s' [[|q st|e]|m|]]; cbn [fst snd] in *;
    try (unfold knows; cbn; by rewrite Hr', Hp').
  destruct Hw as [-> Hnone]. rewrite Z.eqb_refl. cbn [negb].
  assert (Hk : knows (fst (run (set_reaped st) s'))) by (unfold knows; cbn; exact Hnone).
  rewrite run_bind. destruct (run (set_reaped st) s') as [s2 []]. cbn [fst snd] in *. revert s2 Hk.
  change (keeps knows (run* collect_available fuel in close_output ;; ok (Some st))).
  apply keeps_result; [apply calm_keeps, calm_collect_available|]. intros [].
  apply keeps_then; [apply calm_keeps, calm_close_output|]. intros []. apply keeps_value.
Qed.

Lemma knows_require_running stage : keeps knows (require_running fuel stage).
Proof. apply keeps_result; [apply knows_poll_exit|]. intros [st|]; apply keeps_value. Qed.

Lemma calm_send_sigterm : calmly (send_sigterm fuel).
Proof.
  assert (Hk : ∀ rounds p, calmly (kill_child rounds p)).
  { induction rounds as [|rounds IH]; intros p; cbn [kill_child]; [done|].
    apply every_bind; [apply calm_kill|]. intros [[]|]; try done. }
  apply every_bind; [apply calm_read|]. intros c. apply every_result; [by destruct (negb _)|]. intros [].
  apply every_result; [apply Hk|]. intros a. apply every_result; [by case_bool_decide|]. intros [].
  apply every_always. by apply calm_update.
Qed.

Lemma knows_poll_until rounds deadline : keeps knows (poll_until fuel rounds deadline).
Proof.
  induction rounds as [|rounds IH]; cbn [poll_until]; [apply keeps_value|].
  apply keeps_then; [apply calm_keeps, calm_now|]. intros now. destruct (negb _); [apply keeps_value|].
  apply keeps_result; [apply knows_poll_exit|]. intros [st|]; [apply keeps_value|].
  apply keeps_then; [apply calm_keeps, calm_sleep|done].
Qed.

Lemma knows_wait_until deadline : keeps knows (wait_until fuel deadline).
Proof.
  apply keeps_result; [apply knows_poll_until|]. intros [st|]; [apply keeps_value|].
  apply keeps_result; [apply knows_poll_exit|]. intros [st|]; apply keeps_value.
Qed.

Lemma knows_await_serving rounds deadline port : keeps knows (await_serving fuel rounds deadline port).
Proof.
  induction rounds as [|rounds IH]; cbn [await_serving]; [apply keeps_value|].
  apply keeps_then; [apply calm_keeps, calm_now|]. intros now. destruct (negb _); [apply keeps_value|].
  apply keeps_result; [apply calm_keeps, calm_collect_available|]. intros _.
  apply keeps_result; [apply knows_require_running|]. intros _.
  apply keeps_then; [apply keeps_reading|]. intros text. destruct (find_complete_line _ _ _).
  - destruct (parse_serving_line _ _); apply keeps_value.
  - apply keeps_then; [apply calm_keeps, calm_sleep|done].
Qed.

Lemma knows_wait_for_serving port : keeps knows (wait_for_serving fuel port).
Proof.
  apply keeps_then; [apply calm_keeps, calm_now|]. intros now.
  apply keeps_result; [apply knows_await_serving|]. intros [who|]; [apply keeps_value|].
  apply keeps_result; [apply knows_require_running|]. intros _. apply keeps_value.
Qed.

(** *** The fork *)

Definition has_child c s : Prop := fo_child (host s) = c.

Lemma has_call {A} c (f : X → X * A) :
  (∀ x, fo_child (fst (f x)) = fo_child x) → keeps (has_child c) (host_call f).
Proof. intros Hf s Hs. unfold has_child in *. cbn. by rewrite Hf. Qed.

Lemma has_close c d : keeps (has_child c) (host_do (os_close d)).
Proof. apply has_call. intros x. apply fo_close. Qed.
Lemma has_sleep c t : keeps (has_child c) (host_do (os_sleep t)).
Proof. apply has_call. intros x. apply fo_sleep. Qed.
Lemma has_now c : keeps (has_child c) (host_call os_now).
Proof. apply has_call. intros x. apply fo_now. Qed.
Lemma has_kill c p signal : keeps (has_child c) (host_call (os_kill p signal)).
Proof. apply has_call. intros x. apply fo_kill. Qed.

Lemma fork_await p rounds deadline :
  runs (has_child (Some p)) (await_spawn_failure rounds p deadline)
    (λ r, match r with Ok true => has_child None | Ok false => has_child (Some p)
              | Raised _ => λ _, False | Unfinished => λ _, True end).
Proof.
  induction rounds as [|rounds IH]; [done|]. cbn [await_spawn_failure].
  eapply runs_bind; [apply has_now|]. intros now. destruct (negb _); [intros s Hs; exact Hs|].
  intros s Hs. run_step. cbn [host_call run atomically fst snd].
  destruct (fo_wait p true (host s) Hs) as [_ Hw]. destruct (os_waitpid p true (host s)) as [x a].
  cbn [fst snd] in *. set (s' := s <| host := x |>).
  assert (Hagain : runs (has_child (Some p)) (host_do (os_sleep kPollInterval) ;; await_spawn_failure rounds p deadline)
    (λ r, match r with Ok true => has_child None | Ok false => has_child (Some p)
              | Raised _ => λ _, False | Unfinished => λ _, True end)).
  { eapply runs_bind; [apply has_sleep|]. intros []. exact IH. }
  destruct a as [|q st|[]]; try done.
  - apply (Hagain s'). apply Hw.
  - destruct Hw as [-> Hn]. rewrite Z.eqb_refl. exact Hn.
  - apply (Hagain s'). apply Hw.
Qed.

Lemma fork_wait p rounds :
  runs (has_child (Some p)) (wait_for_child rounds p)
    (λ r, match r with Unfinished => λ _, True | _ => has_child None end).
Proof.
  induction rounds as [|rounds IH]; [done|]. intros s Hs. cbn [wait_for_child]. run_step.
  cbn [host_call run atomically fst snd].
  destruct (fo_wait p false (host s) Hs) as [_ Hw]. destruct (os_waitpid p false (host s)) as [x a].
  cbn [fst snd] in *. destruct a as [|q st|[]]; try done.
  - by destruct Hw.
  - by destruct Hw.
  - apply IH. by destruct Hw.
Qed.

Lemma fork_reap p :
  runs (has_child (Some p)) (reap_spawn_failure fuel p)
    (λ r, match r with Unfinished => λ _, True | _ => has_child None end).
Proof.
  eapply runs_bind; [apply has_kill|]. intros ?. eapply runs_bind; [apply has_now|]. intros now.
  eapply runs_cases; [apply fork_await| | |done].
  - intros [|]; [intros s Hs; exact Hs|]. eapply runs_bind; [apply has_kill|]. intros ?.
    eapply runs_cases; [apply fork_wait|intros b s Hs; exact Hs|done|done].
  - done.
Qed.

(** No child, or the object that knows it. *)
Lemma knows_spawn :
  runs (has_child None) (spawn fuel)
    (λ r, match r with Ok _ => knows | Raised _ => has_child None | Unfinished => λ _, True end).
Proof.
  eapply runs_bind; [apply has_call; intros x; apply fo_pipe|]. intros [[r w]|]; [|intros s Hs; exact Hs].
  apply (runs_bind _ _ (λ a, has_child a)).
  { intros s Hs. unfold has_child in *. cbn. rewrite fo_fork, Hs. by destruct (snd (os_fork (host s))). }
  intros [p|].
  - eapply runs_bind; [apply has_close|]. intros [].
    eapply runs_bind; [apply has_call; intros x; apply fo_nonblocking|]. intros [|]; cbn [negb].
    + intros s Hs. exact Hs.
    + eapply runs_bind; [apply has_close|]. intros [].
      eapply runs_cases; [apply fork_reap| |done|done]. intros [] s Hs. exact Hs.
  - eapply runs_bind; [apply has_close|]. intros []. eapply runs_bind; [apply has_close|].
    intros [] s Hs. exact Hs.
Qed.

(** The cleanup, from whatever the object knows. *)
Lemma knows_cleanup :
  fo_bound < fuel → 1501 ≤ fuel →
  runs knows (cleanup fuel) (λ r s, r = Ok () ∧ knows s ∧ has_child None s).
Proof.
  intros H1 H2 s Hs. destruct (fair_cleanup fuel H1 H2 s Hs) as [Hr (Hn & Hre & _)].
  split; [exact Hr|]. split; [|exact Hn]. unfold knows. by rewrite Hre.
Qed.
End Holds.

(** ** Witnesses: a daemon that says one word and ignores the request to terminate *)

Record SampleHost : Type := MkSampleHost {
  sa_clock : Z;
  sa_child : option Z;
  sa_unread : bool
}.

Section Samples.
#[local] Instance sample_os : ChildOs SampleHost := {|
  os_pipe h := (h, Some (3%Z, 4%Z));
  os_fork h := (MkSampleHost (sa_clock h) (Some 77%Z) (sa_unread h), Some 77%Z);
  os_close _ h := h;
  os_nonblocking _ h := (h, true);
  os_read _ h := if sa_unread h then (MkSampleHost (sa_clock h) (sa_child h) false, ReadBytes "x")
                 else (h, ReadFailed EAGAIN);
  os_waitpid p nohang h :=
    if nohang : bool then (h, WaitNone)
    else (MkSampleHost (sa_clock h) None (sa_unread h), WaitChild p 9);
  os_kill _ _ h := (h, None);
  os_now h := (h, sa_clock h);
  os_sleep d h := MkSampleHost (sa_clock h + d) (sa_child h) (sa_unread h);
  os_dup2 _ _ h := (h, true);
  os_execv _ _ h := (h, true);
  os_write _ _ h := h
|}.

#[local] Instance sample_fair : FairOs SampleHost.
Proof.
  refine {| fo_clock := sa_clock; fo_child := sa_child;
            fo_reads h := if sa_unread h then 1 else 0; fo_waits _ := 0; fo_bound := 1 |};
    intros; repeat match goal with
                   | x : SampleHost |- _ => destruct x as [? ? []]
                   | b : bool |- _ => destruct b
                   end; simpl in *; try split_and!; try done; lia.
Defined.

Definition sample_born : Process SampleHost :=
  MkProcess (MkChild 77 3 false false 0 EmptyString) (MkSampleHost 0 (Some 77%Z) true).

Lemma cleanup_reaps_the_child_witness :
  snd (run (cleanup 1501) sample_born) = Ok () ∧ finished 77 (fst (run (cleanup 1501) sample_born)).
Proof.
  assert (Hreads : fo_bound (X := SampleHost) < 1501) by (cbn; lia).
  exact (cleanup_reaps_the_child 1501 Hreads ltac:(lia) sample_born eq_refl).
Defined.

(** The object is asked for its output and told to terminate. *)
Definition sample_uses : list Use := [UseCollect; UseRequireRunning "stage"; UseSigterm].

Lemma child_calls_are_disciplined_witness :
  (∃ w, watched nothing_yet (calls (host (fst (run (lifetime 1501 sample_uses)
     (MkProcess no_child (MkLogged (MkSampleHost 0 None true) [])))))) = Some w ∧
   (snd (run (lifetime 1501 sample_uses)
     (MkProcess no_child (MkLogged (MkSampleHost 0 None true) []))) ≠ Unfinished → w_open w = [])) ∧
  snd (run (lifetime 1501 sample_uses)
     (MkProcess no_child (MkLogged (MkSampleHost 0 None true) []))) = Ok ().
Proof.
  split; [|vm_compute; reflexivity].
  assert (Hpipe : ∀ (x : SampleHost) r w, snd (os_pipe x) = Some (r, w) → (0 <= r)%Z ∧ (0 <= w)%Z ∧ r ≠ w)
    by (intros x r w [= <- <-]; lia).
  pose proof (child_calls_are_disciplined 1501 Hpipe sample_uses (MkSampleHost 0 None true)) as H.
  destruct (run (lifetime 1501 sample_uses) _) as [s r]. exact H.
Defined.
End Samples.
