(* ===== verification/AcceptanceClient.v ===== *)
(** * AcceptanceClient: the acceptance of the production daemon

    Models the rest of [src/app/production_daemon_acceptance/main.cpp]: the two status
    calls, the three streams, the signal, the evidence of the shutdown and [main].  The
    client's side of the RPC library is a parameter ([RpcClient]), as the operating system
    is in [ChildProcess]; the readers of the streams are those of [StreamClient].

    [accepted_run_has_the_evidence]: when the client reports success, whatever the daemon,
    the library and the operating system answered, every piece of evidence was there.
    [acceptance_leaves_no_child]: however it ends, the daemon was reaped. *)

From Stdlib Require Import Ascii.
From S2P Require Import Prelude Ring Wire Text Json Session OrderBookPublication Projection.
From S2P Require Import EventPublication MarketRuntime Recovery Config Registry GrpcRequests Programs.
From S2P Require Import DaemonConfig GatewayStatus GrpcService GatewayLifecycle GrpcStreams Daemon.
From S2P Require Import Diagnostics Acceptance StreamClient Raising ChildProcess.

Open Scope gateway_scope.

(** ** The RPC library, on the side of a client *)

(** [grpc::Status]. *)
Record ClientStatus : Type := MkClientStatus {
  error_code : Z;
  error_message : string
}.

Definition kOk : Z := 0.
Definition kCancelled : Z := 1.
Definition kUnknown : Z := 2.
Definition kUnavailable : Z := 14.

Definition client_ok (status : ClientStatus) : bool := (error_code status =? kOk)%Z.

(** The streams of the drivers, each with its context and its reader; the acceptance of the
    daemon uses the first three. *)
Inductive StreamName : Type :=
| SpotBook
| UsdmBook
| UsdmEvent
| FreshUsdmBook
| FreshUsdmEvent
| SpotEvent
| NewSpotBook.

Inductive OutputStream : Type := StdOut | StdErr.

(** [rc_status deadline request], [rc_subscribe_book stream deadline request], ...: the
    calls of the stub and of the readers, and [operator<<]. *)
Class RpcClient (Snapshot X : Type) : Type := {
  rc_system_now : X → X * Z;
  rc_status : Z → GatewayStatusRequest → X → X * (ClientStatus * GatewayStatusSnapshot);
  rc_subscribe_book : StreamName → Z → OrderBookSubscriptionRequest → X → X;
  rc_subscribe_events : StreamName → Z → EventSubscriptionRequest → X → X;
  rc_read_book : StreamName → X → X * option (Received (StreamItemBody Snapshot));
  rc_read_event : StreamName → X → X * option (Received EnvelopeBody);
  rc_finish : StreamName → X → X * ClientStatus;
  rc_try_cancel : StreamName → X → X;
  rc_print : OutputStream → string → X → X
}.

(** [WIFEXITED] and [WEXITSTATUS] of a wait status. *)
Class WaitStatus : Type := {
  WIFEXITED : Z → bool;
  WEXITSTATUS : Z → Z
}.

Definition kStreamTimeout : Z := seconds 180.

(** ** The evidence *)

Record StatusEvidence : Type := MkStatusEvidence {
  schema_valid : bool;
  instance_match : bool;
  spot_live : bool;
  usdm_live : bool;
  subscription_counts : bool
}.

Definition two_markets_valid (e : StatusEvidence) : bool :=
  schema_valid e && spot_live e && usdm_live e && subscription_counts e.

Definition valid_shutdown_finish (status : ClientStatus) : bool :=
  client_ok status || (error_code status =? kCancelled)%Z || (error_code status =? kUnknown)%Z
  || (error_code status =? kUnavailable)%Z.

(** [print_finish_status] *)
Definition finish_report (label : string) (status : ClientStatus) : string :=
  line (label +:+ "_OK=" +:+ (if client_ok status then "YES" else "NO"))
  +:+ line (label +:+ "_CODE=" +:+ pretty (error_code status))
  +:+ line (label +:+ "_MESSAGE=" +:+ one_line (error_message status)).

Definition pass_fail (b : bool) : string := if b then "PASS" else "FAIL".
Definition YES_NO (b : bool) : string := if b then "YES" else "NO".

Section Status.
Context `{W : WireEnums}.

(** One market of the response: live, with this generation. *)
Definition market_live (status : MarketStatus) (market generation : Z) : bool :=
  (ms_venue status =? VENUE_BINANCE)%Z && (ms_market status =? market)%Z
  && bool_decide (ms_symbol status = "BTCUSDT")
  && (ms_state status =? STREAM_LIFECYCLE_STATE_LIVE)%Z
  && bool_decide (ms_connection_generation status = Some generation).

Definition validate_status (status : ClientStatus) (response : GatewayStatusSnapshot)
  (identity : ServingIdentity) : StatusEvidence :=
  match client_ok status && bool_decide (gs_schema_version response = kStatusSnapshotSchema),
        gs_markets response with
  | true, [spot; usdm] =>
      MkStatusEvidence true
        (bool_decide (gs_gateway_instance_id response = si_gateway_instance_id identity))
        (market_live spot MARKET_SPOT (si_spot_generation identity))
        (market_live usdm MARKET_USD_M_PERPETUAL (si_usdm_generation identity))
        ((ms_active_subscription_count spot =? 1)%Z && (ms_active_subscription_count usdm =? 2)%Z
         && (gs_total_active_subscriptions response =? 3)%Z)
  | _, _ => MkStatusEvidence false false false false false
  end.
End Status.

(** ** The client *)

(** [while (reader.Read(&ignored)) {}]: the rest of a stream. *)
Fixpoint drain {S} (Read : prog S bool) (rounds : nat) : prog S (result ()) :=
  match rounds with
  | O => mret Unfinished
  | Datatypes.S rounds => more ← Read; if more : bool then drain Read rounds else ok ()
  end.

Section Code.
Context `{W : WireEnums} {Snapshot : Type} `{SM : !SnapshotMessage Snapshot}.
Context {X : Type} `{OS : !ChildOs X} `{R : !RpcClient Snapshot X} `{WS : !WaitStatus}.
Abbreviation Thread := (prog (Process X)).
Context (fuel : nat).

Definition print (stream : OutputStream) (text : string) : Thread () := host_do (rc_print stream text).

(** A status call with a deadline of ten seconds. *)
Definition get_status (request_id : string) : Thread (ClientStatus * GatewayStatusSnapshot) :=
  now ← host_call rc_system_now;
  host_call (rc_status (now + seconds 10) (MkGatewayStatusRequest request_id kStatusRequestSchema)).

Definition read_initial_generations (identity : ServingIdentity) : Thread (result ServingIdentity) :=
  answer ← get_status "production-initial-status";
  let '(status, response) := answer in
  match client_ok status, gs_markets response with
  | true, [spot; usdm] =>
      let identity := MkServingIdentity (si_grpc_port identity)
                        (default 0%Z (ms_connection_generation spot))
                        (default 0%Z (ms_connection_generation usdm)) (si_gateway_instance_id identity) in
      let evidence := validate_status status response identity in
      run* require (negb (si_spot_generation identity =? 0)%Z && negb (si_usdm_generation identity =? 0)%Z
                    && schema_valid evidence && instance_match evidence
                    && spot_live evidence && usdm_live evidence)
             "initial status does not match the serving process and products" in
      ok identity
  | _, _ => raise "initial two-product status is unavailable"
  end.

(** [finish_stream] *)
Definition finish_stream (Read : Thread bool) (stream : StreamName) : Thread (result ClientStatus) :=
  run* drain Read fuel in
  always (host_call (rc_finish stream)).

Definition read_more_book (stream : StreamName) : Thread bool :=
  (λ item, bool_decide (is_Some item)) <$> host_call (rc_read_book stream).
Definition read_more_event (stream : StreamName) : Thread bool :=
  (λ item, bool_decide (is_Some item)) <$> host_call (rc_read_event stream).

(** The destructor of [ClientCancellation] while it is active. *)
Definition cancel_streams : Thread () :=
  host_do (rc_try_cancel SpotBook) ;; host_do (rc_try_cancel UsdmBook) ;; host_do (rc_try_cancel UsdmEvent).

(** What [run_acceptance] knows when its streams have ended. *)
Record Evidence : Type := MkEvidence {
  ev_identity : ServingIdentity;
  ev_status : StatusEvidence;
  ev_wait_status : Z;
  ev_shutdown : ShutdownEvidence;
  ev_spot_finish : ClientStatus;
  ev_usdm_finish : ClientStatus;
  ev_event_finish : ClientStatus
}.

(** From the heads of the streams to [CLIENT_READY_FOR_SIGTERM]. *)
Definition collect_evidence (identity : ServingIdentity) : Thread (result StatusEvidence) :=
  let instance_id := si_gateway_instance_id identity in
  spot_book ← read_book_head (host_call (rc_read_book SpotBook)) MARKET_SPOT
                (si_spot_generation identity) instance_id;
  run* require_running fuel "Spot order-book evidence" in
  usdm_book ← read_book_head (host_call (rc_read_book UsdmBook)) MARKET_USD_M_PERPETUAL
                (si_usdm_generation identity) instance_id;
  run* require_running fuel "USD-M order-book evidence" in
  usdm_event ← read_event_head (host_call (rc_read_event UsdmEvent)) (si_usdm_generation identity) instance_id;
  run* require_running fuel "USD-M event evidence" in
  answer ← get_status "production-real-status";
  run* require_running fuel "status authentication evidence" in
  let '(status, response) := answer in
  let e := validate_status status response identity in
  print StdOut (line ("REAL_SPOT_LIVE=" +:+ pass_fail (spot_live e))
                +:+ line ("REAL_USDM_LIVE=" +:+ pass_fail (usdm_live e))
                +:+ line ("REAL_SPOT_ORDER_BOOK=" +:+ pass_fail spot_book)
                +:+ line ("REAL_USDM_ORDER_BOOK=" +:+ pass_fail usdm_book)
                +:+ line ("REAL_USDM_DIFF_DEPTH=" +:+ pass_fail usdm_event)
                +:+ line ("REAL_STATUS_TWO_MARKETS=" +:+ pass_fail (two_markets_valid e))
                +:+ line ("REAL_STATUS_INSTANCE_MATCH=" +:+ pass_fail (instance_match e))) ;;
  run* require spot_book "Spot order-book evidence failed" in
  run* require usdm_book "USD-M order-book evidence failed" in
  run* require usdm_event "USD-M DIFF_DEPTH evidence failed" in
  run* require (two_markets_valid e) "two-market status identity evidence failed" in
  run* require (instance_match e) "status gateway_instance_id does not match child log" in
  print StdOut (line "CLIENT_READY_FOR_SIGTERM=YES") ;;
  ok e.

(** From the signal to the evidence of the shutdown. *)
Definition stop_daemon : Thread (result (Z * ShutdownEvidence)) :=
  run* collect_available fuel in
  run* require_running fuel "immediate pre-SIGTERM liveness cut" in
  output_cut ← read (λ s, String.length (output (child s)));
  print StdOut (line "REAL_CHILD_ALIVE_BEFORE_SIGTERM=YES") ;;
  run* send_sigterm fuel in
  print StdOut (line "REAL_SIGTERM_SENT=YES") ;;
  now ← host_call os_now;
  let* wait_status := wait_until fuel (now + kShutdownTimeout)%Z in
  let clean_exit := WIFEXITED wait_status && (WEXITSTATUS wait_status =? 0)%Z in
  print StdOut (line ("REAL_DAEMON_EXITED_CLEANLY=" +:+ YES_NO clean_exit)
                +:+ line ("REAL_DAEMON_EXIT_CODE="
                          +:+ (if WIFEXITED wait_status then pretty (WEXITSTATUS wait_status)
                               else "NOT_EXITED"))) ;;
  text ← read (λ s, output (child s));
  let e := parse_shutdown_output (drop_string output_cut text) in
  print StdOut (line ("REAL_STOPPING_SIGTERM_EVIDENCE=" +:+ YES_NO (sh_stopping_sigterm e))
                +:+ line ("REAL_FINAL_CONTEXTS_ZERO=" +:+ YES_NO (sh_contexts_zero e))
                +:+ line ("REAL_FINAL_TRANSPORTS_ZERO=" +:+ YES_NO (sh_transports_zero e))
                +:+ line ("REAL_FINAL_SUBSCRIPTIONS_ZERO=" +:+ YES_NO (sh_subscriptions_zero e))
                +:+ line ("REAL_FINAL_OWNERS_JOINED=" +:+ YES_NO (sh_owners_joined e))) ;;
  run* require clean_exit "daemon did not exit normally with code 0" in
  run* require (sh_stopping_sigterm e) "daemon did not emit stopping SIGTERM evidence" in
  run* require (sh_contexts_zero e) "daemon final contexts count is not zero" in
  run* require (sh_transports_zero e) "daemon final transports count is not zero" in
  run* require (sh_subscriptions_zero e) "daemon final subscriptions count is not zero" in
  run* require (sh_owners_joined e) "daemon final owners_joined is not yes" in
  ok (wait_status, e).

(** The subscriptions and everything until [cancellation.dismiss()]. *)
Definition use_streams (identity : ServingIdentity) : Thread (result Evidence) :=
  now ← host_call rc_system_now;
  let stream_deadline := (now + kStreamTimeout)%Z in
  host_do (rc_subscribe_book SpotBook stream_deadline (book_request MARKET_SPOT "production-real-spot-book")) ;;
  host_do (rc_subscribe_book UsdmBook stream_deadline
             (book_request MARKET_USD_M_PERPETUAL "production-real-usdm-book")) ;;
  host_do (rc_subscribe_events UsdmEvent stream_deadline (usdm_event_request "production-real-usdm-event")) ;;
  catch_all
    (let* status := collect_evidence identity in
     let* stopped := stop_daemon in
     let* spot_finish := finish_stream (read_more_book SpotBook) SpotBook in
     let* usdm_finish := finish_stream (read_more_book UsdmBook) UsdmBook in
     let* event_finish := finish_stream (read_more_event UsdmEvent) UsdmEvent in
     ok (MkEvidence identity status (fst stopped) (snd stopped) spot_finish usdm_finish event_finish))
    (λ message, cancel_streams ;; raise message).

(** The body of the [try] of [run_acceptance]. *)
Definition accept_daemon (options : Options) : Thread (result Evidence) :=
  let* identity := wait_for_serving fuel (opt_grpc_port options) in
  print StdOut (line "REAL_DAEMON_SERVING=YES"
                +:+ line ("DAEMON_GATEWAY_INSTANCE_ID=" +:+ si_gateway_instance_id identity)) ;;
  let* identity := read_initial_generations identity in
  let* e := use_streams identity in
  print StdOut (finish_report "REAL_SPOT_STREAM_FINISH" (ev_spot_finish e)
                +:+ finish_report "REAL_USDM_STREAM_FINISH" (ev_usdm_finish e)
                +:+ finish_report "REAL_EVENT_STREAM_FINISH" (ev_event_finish e)) ;;
  let streams_terminated := valid_shutdown_finish (ev_spot_finish e)
                            && valid_shutdown_finish (ev_usdm_finish e)
                            && valid_shutdown_finish (ev_event_finish e) in
  print StdOut (line ("REAL_STREAMS_TERMINATED=" +:+ YES_NO streams_terminated)) ;;
  run* require streams_terminated "one or more stream Finish statuses are not shutdown-terminal" in
  text ← read (λ s, output (child s));
  print StdOut (captured_output text) ;;
  print StdOut (line "REAL_EXTERNAL_PROCESS_PROVEN=YES"
                +:+ line "REAL_ACCEPTANCE_FALSE_PASS_GUARD=PASS"
                +:+ line "REAL_PRODUCTION_DAEMON_ACCEPTANCE=PASS") ;;
  ok e.

(** [run_acceptance]; nothing throws once the captured output was printed, so that the
    handler always prints it. *)
Definition run_acceptance (options : Options) : Thread (result Evidence) :=
  run* spawn fuel in
  on_exit
    (p ← read (λ s, pid (child s));
     print StdOut (line ("REAL_DAEMON_PATH=" +:+ opt_daemon_path options)
                   +:+ line ("REAL_DAEMON_PID=" +:+ pretty p)) ;;
     catch_all (accept_daemon options)
       (λ message,
          run* cleanup fuel in
          text ← read (λ s, output (child s));
          print StdErr (captured_output text) ;;
          raise message))
    (cleanup fuel).

Definition failure_report (message : string) : string :=
  line ("REAL_PRODUCTION_DAEMON_ACCEPTANCE=FAIL reason=" +:+ one_line message)
  +:+ line ("Usage: bmd-gateway-production-acceptance-client "
            +:+ "--daemon PATH --config PATH --grpc-target HOST:PORT").

Definition EXIT_SUCCESS : Z := 0.
Definition EXIT_FAILURE : Z := 1.

Section Main.
Context `{A : AddressLibrary} `{F : FileSystem} `{E : EventJsonLibrary} `{H : HostFiles}.

(** [main]; [None] while it is still running. *)
Definition main (argv : list string) : Thread (option Z) :=
  let fail message := print StdErr (failure_report message) ;; mret (Some EXIT_FAILURE) in
  match parse_options argv with
  | inr message => fail message
  | inl options =>
      r ← run_acceptance options;
      match r with
      | Ok _ => mret (Some EXIT_SUCCESS)
      | Raised message => fail message
      | Unfinished => mret None
      end
  end.
End Main.
End Code.

(** ** What the client was told, recorded *)

Inductive Heard (Snapshot : Type) : Type :=
| HeardStatus (status : ClientStatus) (response : GatewayStatusSnapshot)
| HeardBook (stream : StreamName) (item : option (Received (StreamItemBody Snapshot)))
| HeardEvent (stream : StreamName) (item : option (Received EnvelopeBody))
| HeardFinish (stream : StreamName) (status : ClientStatus).
Arguments HeardStatus {Snapshot} _ _.
Arguments HeardBook {Snapshot} _ _.
Arguments HeardEvent {Snapshot} _ _.
Arguments HeardFinish {Snapshot} _ _.

Record Journaled (Snapshot X : Type) : Type := MkJournaled {
  outside : X;
  journal : list (Heard Snapshot)
}.
Arguments MkJournaled {Snapshot X} _ _.
Arguments outside {Snapshot X} _.
Arguments journal {Snapshot X} _.

Section Journal.
Context {Snapshot X : Type} `{OS : !ChildOs X} `{R : !RpcClient Snapshot X}.
Abbreviation J := (Journaled Snapshot X).

Definition lift {A} (f : X → X * A) (hear : A → list (Heard Snapshot)) (j : J) : J * A :=
  let '(x, a) := f (outside j) in (MkJournaled x (journal j ++ hear a), a).
Definition silent {A} (_ : A) : list (Heard Snapshot) := [].
Definition lift_do (f : X → X) (j : J) : J := MkJournaled (f (outside j)) (journal j).

#[export] Instance journaled_os : ChildOs J := {|
  os_pipe := lift os_pipe silent;
  os_fork := lift os_fork silent;
  os_close d := lift_do (os_close d);
  os_nonblocking d := lift (os_nonblocking d) silent;
  os_read d := lift (os_read d) silent;
  os_waitpid p nohang := lift (os_waitpid p nohang) silent;
  os_kill p signal := lift (os_kill p signal) silent;
  os_now := lift os_now silent;
  os_sleep d := lift_do (os_sleep d);
  os_dup2 d d' := lift (os_dup2 d d') silent;
  os_execv path argv := lift (os_execv path argv) silent;
  os_write d text := lift_do (os_write d text)
|}.

#[export] Instance journaled_rpc : RpcClient Snapshot J := {|
  rc_system_now := lift rc_system_now silent;
  rc_status deadline request := lift (rc_status deadline request) (λ a, [HeardStatus (fst a) (snd a)]);
  rc_subscribe_book stream deadline request := lift_do (rc_subscribe_book stream deadline request);
  rc_subscribe_events stream deadline request := lift_do (rc_subscribe_events stream deadline request);
  rc_read_book stream := lift (rc_read_book stream) (λ item, [HeardBook stream item]);
  rc_read_event stream := lift (rc_read_event stream) (λ item, [HeardEvent stream item]);
  rc_finish stream := lift (rc_finish stream) (λ status, [HeardFinish stream status]);
  rc_try_cancel stream := lift_do (rc_try_cancel stream);
  rc_print stream text := lift_do (rc_print stream text)
|}.
End Journal.

(** [Read] over answers that were given: [None] when there are no more. *)
Definition take_answer {A} : prog (list (option A)) (option A) :=
  atomically (λ l, match l with [] => ([], None) | item :: rest => (rest, item) end).

Section Facts.
Context `{W : WireEnums} {Snapshot : Type} `{SM : !SnapshotMessage Snapshot}.
Context {X : Type} `{OS : !ChildOs X} `{R : !RpcClient Snapshot X} `{WS : !WaitStatus}.
Abbreviation State := (Process (Journaled Snapshot X)).
Context (fuel : nat).
Implicit Types (s : State).

Lemma string_app_nil (t : string) : t +:+ EmptyString = t.
Proof. induction t as [|c t IH]; [done|]. change (String c (t +:+ EmptyString) = String c t). by rewrite IH. Qed.

(** What only grows: the output, the journal and the request to terminate. *)
Record grows s s' : Prop := {
  gr_output : ∃ more, output (child s') = output (child s) +:+ more;
  gr_journal : ∃ more, journal (host s') = journal (host s) ++ more;
  gr_asked : termination_requested (child s) = true → termination_requested (child s') = true
}.

#[export] Instance grows_preorder : PreOrder grows.
Proof.
  split.
  - intros s. split; [exists EmptyString; by rewrite string_app_nil|exists []; by rewrite app_nil_r|done].
  - intros s1 s2 s3 [(o1 & H1) (j1 & J1) A1] [(o2 & H2) (j2 & J2) A2]. split.
    + exists (o1 +:+ o2). by rewrite H2, H1, string_app_assoc.
    + exists (j1 ++ j2). by rewrite J2, J1, app_assoc.
    + auto.
Qed.

Abbreviation growing := (every grows).

Lemma growing_lift {A} (f : X → X * A) hear : growing (host_call (lift f hear)).
Proof.
  intros s. split; [|done]. cbn. unfold lift. destruct (f (outside (host s))) as [x a]. cbn.
  split; cbn; [exists EmptyString; by rewrite string_app_nil|by eexists|done].
Qed.

Lemma growing_lift_do (f : X → X) : growing (host_do (lift_do f)).
Proof.
  intros s. split; [|done].
  split; cbn; [exists EmptyString; by rewrite string_app_nil|exists []; by rewrite app_nil_r|done].
Qed.

Lemma growing_update (f : Child → Child) :
  (∀ c, (∃ more, output (f c) = output c +:+ more) ∧
        (termination_requested c = true → termination_requested (f c) = true)) →
  growing (update_child f).
Proof.
  intros Hf s. split; [|done]. destruct (Hf (child s)) as [Ho Ht].
  split; cbn; [done|exists []; by rewrite app_nil_r|done].
Qed.

Lemma growing_read {A} (f : State → A) : growing (read f).
Proof. apply every_read. exact _. Qed.

Lemma growing_require condition message : growing (require condition message).
Proof. by destruct condition. Qed.
End Facts.

(** Through the structure of a program. *)
Ltac growing_step :=
  first [ done
        | apply growing_read | apply growing_require
        | apply every_bind; [|intros ?] | apply every_result; [|intros ?] | apply every_catch; [|intros ?]
        | apply every_always | apply every_fmap
        | apply growing_lift_do | apply growing_lift
        | apply growing_update; intros ?; cbn; split;
          [first [by eexists | exists EmptyString; by rewrite string_app_nil]|done]
        | case_match ].
Create HintDb growing.
Ltac growing := repeat first [ assumption | solve [auto 2 with growing nocore] | growing_step ].

Section Growing.
Context `{W : WireEnums} {Snapshot : Type} `{SM : !SnapshotMessage Snapshot}.
Context {X : Type} `{OS : !ChildOs X} `{R : !RpcClient Snapshot X} `{WS : !WaitStatus}.
Abbreviation State := (Process (Journaled Snapshot X)).
Context (fuel : nat).
Implicit Types (s : State).
Abbreviation grows_ p := (every (S := State) grows p).

Lemma growing_close_output : grows_ close_output.
Proof. unfold close_output. growing. Qed.
#[local] Hint Resolve growing_close_output : growing.

Lemma growing_collect rounds : grows_ (collect rounds).
Proof. induction rounds as [|rounds IH]; cbn [collect]; growing. Qed.
#[local] Hint Resolve growing_collect : growing.

Lemma growing_collect_available : grows_ (collect_available fuel).
Proof. unfold collect_available. growing. Qed.
#[local] Hint Resolve growing_collect_available : growing.

Lemma growing_collect_noexcept : grows_ (collect_available_noexcept fuel).
Proof. unfold collect_available_noexcept. growing. Qed.
#[local] Hint Resolve growing_collect_noexcept : growing.

Lemma growing_poll_wait rounds p : grows_ (poll_wait rounds p).
Proof. induction rounds as [|rounds IH]; cbn [poll_wait]; growing. Qed.
#[local] Hint Resolve growing_poll_wait : growing.

Lemma growing_wait_for_child rounds p : grows_ (wait_for_child rounds p).
Proof. induction rounds as [|rounds IH]; cbn [wait_for_child]; growing. Qed.
#[local] Hint Resolve growing_wait_for_child : growing.

Lemma growing_poll_exit : grows_ (poll_exit fuel).
Proof. unfold poll_exit, set_reaped. growing. Qed.
#[local] Hint Resolve growing_poll_exit : growing.

Lemma growing_require_running stage : grows_ (require_running fuel stage).
Proof. unfold require_running. growing. Qed.
#[local] Hint Resolve growing_require_running : growing.

Lemma growing_kill_child rounds p : grows_ (kill_child rounds p).
Proof. induction rounds as [|rounds IH]; cbn [kill_child]; growing. Qed.
#[local] Hint Resolve growing_kill_child : growing.

Lemma growing_send_sigterm : grows_ (send_sigterm fuel).
Proof. unfold send_sigterm. growing. Qed.
#[local] Hint Resolve growing_send_sigterm : growing.

Lemma growing_poll_until rounds deadline : grows_ (poll_until fuel rounds deadline).
Proof. induction rounds as [|rounds IH]; cbn [poll_until]; growing. Qed.
#[local] Hint Resolve growing_poll_until : growing.

Lemma growing_wait_until deadline : grows_ (wait_until fuel deadline).
Proof. unfold wait_until. growing. Qed.
#[local] Hint Resolve growing_wait_until : growing.

Lemma growing_cleanup_wait rounds deadline : grows_ (cleanup_wait fuel rounds deadline).
Proof.
  induction rounds as [|rounds IH]; cbn [cleanup_wait]; unfold set_reaped; growing. Qed.
#[local] Hint Resolve growing_cleanup_wait : growing.

Lemma growing_cleanup : grows_ (cleanup fuel).
Proof.
  unfold cleanup, set_reaped.
  growing. Qed.
#[local] Hint Resolve growing_cleanup : growing.

Lemma growing_await_serving rounds deadline port : grows_ (await_serving fuel rounds deadline port).
Proof. induction rounds as [|rounds IH]; cbn [await_serving]; growing. Qed.
#[local] Hint Resolve growing_await_serving : growing.

Lemma growing_wait_for_serving port : grows_ (wait_for_serving fuel port).
Proof. unfold wait_for_serving. growing. Qed.
#[local] Hint Resolve growing_wait_for_serving : growing.

Lemma growing_print stream text : grows_ (print stream text).
Proof. apply growing_lift_do. Qed.
#[local] Hint Resolve growing_print : growing.

Lemma growing_get_status request_id : grows_ (get_status request_id).
Proof. unfold get_status. growing. Qed.
#[local] Hint Resolve growing_get_status : growing.

Lemma growing_read_initial identity : grows_ (read_initial_generations identity).
Proof. unfold read_initial_generations. growing. Qed.
#[local] Hint Resolve growing_read_initial : growing.

Lemma growing_read_part {Body Part} (Read : prog State (option (Received Body))) (part : Body → option Part)
  sequence instance_id g : grows_ Read → grows_ (read_part Read part sequence instance_id g).
Proof. intros H. unfold read_part. growing. Qed.
#[local] Hint Resolve growing_read_part : growing.

Lemma growing_book_head Read market generation instance_id :
  grows_ Read → grows_ (read_book_head Read market generation instance_id).
Proof.
  intros H. unfold read_book_head. growing. Qed.
#[local] Hint Resolve growing_book_head : growing.

Lemma growing_event_head Read generation instance_id :
  grows_ Read → grows_ (read_event_head Read generation instance_id).
Proof. intros H. unfold read_event_head. growing. Qed.
#[local] Hint Resolve growing_event_head : growing.

Lemma growing_drain Read rounds : grows_ Read → grows_ (drain Read rounds).
Proof. intros H. induction rounds as [|rounds IH]; cbn [drain]; growing. Qed.
#[local] Hint Resolve growing_drain : growing.

Lemma growing_finish Read stream : grows_ Read → grows_ (finish_stream fuel Read stream).
Proof.
  intros H. unfold finish_stream. growing.
Qed.
#[local] Hint Resolve growing_finish : growing.

Lemma growing_more_book stream : grows_ (read_more_book stream).
Proof. unfold read_more_book. growing. Qed.
#[local] Hint Resolve growing_more_book : growing.

Lemma growing_more_event stream : grows_ (read_more_event stream).
Proof. unfold read_more_event. growing. Qed.
#[local] Hint Resolve growing_more_event : growing.

Lemma growing_cancel_streams : grows_ cancel_streams.
Proof. unfold cancel_streams. growing. Qed.
#[local] Hint Resolve growing_cancel_streams : growing.

Lemma growing_collect_evidence identity : grows_ (collect_evidence fuel identity).
Proof.
  unfold collect_evidence.
  apply every_bind; [apply growing_book_head; growing|intros spot].
  apply every_result; [growing|intros _].
  apply every_bind; [apply growing_book_head; growing|intros usdm].
  apply every_result; [growing|intros _].
  apply every_bind; [apply growing_event_head; growing|intros event]. growing.
Qed.

Lemma growing_stop_daemon : grows_ (stop_daemon fuel).
Proof. unfold stop_daemon. growing. Qed.

(** *** What the readers were given *)

(** A program that reads one stream of the client, and the same program over a list. *)
Definition replays {A M} (wrap : option M → Heard Snapshot) (p : prog State A)
  (q : prog (list (option M)) A) : Prop :=
  ∀ s, ∃ items, journal (host (fst (run p s))) = journal (host s) ++ (wrap <$> items) ∧
                ∀ rest, run q (items ++ rest) = (rest, snd (run p s)).

Lemma replays_ret {A M} (wrap : option M → Heard Snapshot) (a : A) : replays wrap (mret a) (mret a).
Proof. intros s. exists []. split; [cbn; by rewrite app_nil_r|done]. Qed.

Lemma replays_bind {A B M} (wrap : option M → Heard Snapshot) p q (k : A → prog State B) k' :
  replays wrap p q → (∀ a, replays wrap (k a) (k' a)) → replays wrap (p ≫= k) (q ≫= k').
Proof.
  intros Hp Hk s. destruct (Hp s) as (l1 & J1 & R1). rewrite run_bind.
  destruct (run p s) as [s1 a]. cbn [fst snd] in *. destruct (Hk a s1) as (l2 & J2 & R2).
  exists (l1 ++ l2). split; [by rewrite J2, J1, fmap_app, app_assoc|].
  intros rest. rewrite run_bind, <- app_assoc, R1. cbn [fst snd]. apply R2.
Qed.

Lemma replays_book n : replays (HeardBook n) (host_call (rc_read_book n)) take_answer.
Proof.
  intros s. cbn. unfold lift. destruct (rc_read_book n (outside (host s))) as [x item]. cbn.
  by exists [item].
Qed.

Lemma replays_event n : replays (HeardEvent n) (host_call (rc_read_event n)) take_answer.
Proof.
  intros s. cbn. unfold lift. destruct (rc_read_event n (outside (host s))) as [x item]. cbn.
  by exists [item].
Qed.

Lemma replays_read_part {Body Part} (wrap : option (Received Body) → Heard Snapshot) Read
  (part : Body → option Part) sequence instance_id g :
  replays wrap Read take_answer →
  replays wrap (read_part Read part sequence instance_id g) (read_part take_answer part sequence instance_id g).
Proof. intros H. apply replays_bind; [done|]. intros item. apply replays_ret. Qed.

Lemma replays_book_head n market generation instance_id :
  replays (HeardBook n) (read_book_head (host_call (rc_read_book n)) market generation instance_id)
    (read_book_head take_answer market generation instance_id).
Proof.
  pose proof (replays_book n) as H.
  apply replays_bind; [by apply replays_read_part|]. intros [sequence [a|]]; [|apply replays_ret].
  destruct (negb _); [apply replays_ret|].
  apply replays_bind; [by apply replays_read_part|]. intros [sequence' [snapshot|]]; [|apply replays_ret].
  destruct (negb _); [apply replays_ret|].
  apply replays_bind; [by apply replays_read_part|]. intros [sequence'' [update|]]; apply replays_ret.
Qed.

Lemma replays_event_head n generation instance_id :
  replays (HeardEvent n) (read_event_head (host_call (rc_read_event n)) generation instance_id)
    (read_event_head take_answer generation instance_id).
Proof.
  pose proof (replays_event n) as H.
  apply replays_bind; [by apply replays_read_part|]. intros [sequence [a|]]; [|apply replays_ret].
  destruct (negb _); [apply replays_ret|].
  apply replays_bind; [by apply replays_read_part|]. intros [sequence' [update|]]; apply replays_ret.
Qed.

(** *** What the parts leave behind *)

Lemma growth {A} (p : prog State A) s s' a : grows_ p → run p s = (s', a) → grows s s'.
Proof. intros Hp Hr. pose proof (every_run grows p s Hp) as H. by rewrite Hr in H. Qed.

(** The serving line was in the output. *)
Lemma serving_evidence port s s' who :
  run (wait_for_serving fuel port) s = (s', Ok who) →
  ∃ m, find_complete_line (output (child s')) "gateway_state=serving" 0 = Some m ∧
       parse_serving_line (lm_line m) port = inl who.
Proof.
  intros (s1 & now & _ & H)%run_bind_inv. apply run_result_inv in H as (s2 & [who'|] & H & Hlast);
    [|by apply run_result_inv in Hlast as (? & ? & _ & ?)].
  injection Hlast as <- ->. revert s1 H. generalize fuel at 2 as rounds.
  induction rounds as [|rounds IH]; intros s1 H; [done|]. cbn [await_serving] in H.
  apply run_bind_inv in H as (s3 & t & _ & H). destruct (negb _); [done|].
  apply run_result_inv in H as (s4 & ? & _ & H). apply run_result_inv in H as (s5 & ? & _ & H).
  apply run_bind_inv in H as (s6 & text & Htext & H). injection Htext as <- <-.
  destruct (find_complete_line (output (child s5)) "gateway_state=serving" 0) as [m|] eqn:Hm.
  - destruct (parse_serving_line (lm_line m) port) as [who''|] eqn:Hp; [|done]. injection H as <- ->. by exists m.
  - apply run_bind_inv in H as (s7 & ? & _ & H). by apply (IH s7).
Qed.

(** The members that only the signals and the waits set. *)
Definition steady (s s' : State) : Prop :=
  reaped (child s') = reaped (child s) ∧ wait_status (child s') = wait_status (child s) ∧
  termination_requested (child s') = termination_requested (child s).

#[local] Instance steady_preorder : PreOrder steady.
Proof. split; [done|]. intros s1 s2 s3 (A1 & B1 & C1) (A2 & B2 & C2). unfold steady. by rewrite A2, B2, C2. Qed.

Abbreviation steadily p := (every (S := State) steady p).

Lemma steady_call {A} (f : Journaled Snapshot X → Journaled Snapshot X * A) : steadily (host_call f).
Proof. intros s. split; [by split_and!|done]. Qed.

Lemma steady_close_output : steadily close_output.
Proof.
  apply every_bind; [by apply every_read; exact _|]. intros d. destruct (0 <=? d)%Z; [|done].
  apply every_bind; [apply steady_call|]. intros []. intros s. split; [by split_and!|done].
Qed.

Lemma steady_collect rounds : steadily (collect rounds).
Proof.
  induction rounds as [|rounds IH]; [done|]. cbn [collect].
  apply every_bind; [by apply every_read; exact _|]. intros d. apply every_bind; [apply steady_call|].
  intros [text| |[]]; try done. apply every_bind; [apply steady_close_output|done].
Qed.

Lemma steady_collect_available : steadily (collect_available fuel).
Proof.
  apply every_bind; [by apply every_read; exact _|]. intros d.
  destruct (d <? 0)%Z; [done|apply steady_collect].
Qed.

Lemma steady_collect_noexcept : steadily (collect_available_noexcept fuel).
Proof. apply every_catch; [apply steady_collect_available|done]. Qed.

Lemma steady_run {A} (p : prog State A) s s' a : steadily p → run p s = (s', a) → steady s s'.
Proof. intros Hp Hr. pose proof (every_run steady p s Hp) as H. by rewrite Hr in H. Qed.

Lemma steady_drain Read rounds : steadily Read → steadily (drain Read rounds).
Proof.
  intros H. induction rounds as [|rounds IH]; cbn [drain]; [done|]. apply every_bind; [done|].
  intros []; [exact IH|done].
Qed.

Lemma steady_finish Read stream : steadily Read → steadily (finish_stream fuel Read stream).
Proof.
  intros H. apply every_result; [by apply steady_drain|]. intros [].
  apply every_always, steady_call.
Qed.

(** The cleanup of a child that was reaped. *)
Lemma cleanup_reaped s s' r :
  run (cleanup fuel) s = (s', r) → reaped (child s) = true → steady s s'.
Proof.
  intros H Hr. unfold cleanup in H. apply run_bind_inv in H as (s1 & c & Hc & H). injection Hc as <- <-.
  rewrite Hr in H. eapply steady_run; [|exact H]. apply every_result; [apply steady_collect_noexcept|].
  intros []. apply every_always, steady_close_output.
Qed.

Lemma poll_exit_reaps s s' st :
  run (poll_exit fuel) s = (s', Ok (Some st)) → reaped (child s') = true ∧ wait_status (child s') = st.
Proof.
  intros (s1 & ? & _ & H)%run_result_inv. apply run_bind_inv in H as (s2 & c & Hc & H).
  injection Hc as <- <-. destruct (reaped (child s1)) eqn:Hr; [by injection H as <- <-|].
  apply run_result_inv in H as (s3 & a & _ & H). destruct a as [|q status|]; [done| |done].
  destruct (negb _); [done|]. apply run_bind_inv in H as (s4 & [] & Hset & H).
  injection Hset as <-. apply run_result_inv in H as (s5 & [] & Hcol & H).
  apply run_bind_inv in H as (s6 & [] & Hclose & H). injection H as <- <-.
  apply (steady_run _ _ _ _ steady_collect_available) in Hcol as (A1 & B1 & _).
  apply (steady_run _ _ _ _ steady_close_output) in Hclose as (A2 & B2 & _).
  split; [by rewrite A2, A1|by rewrite B2, B1].
Qed.

Lemma poll_until_reaps rounds deadline s s' st :
  run (poll_until fuel rounds deadline) s = (s', Ok (Some st)) →
  reaped (child s') = true ∧ wait_status (child s') = st.
Proof.
  revert s. induction rounds as [|rounds IH]; intros s H; [done|]. cbn [poll_until] in H.
  apply run_bind_inv in H as (s1 & now & _ & H). destruct (negb _); [done|].
  apply run_result_inv in H as (s2 & [st'|] & Hp & H).
  - injection H as <- <-. by eapply poll_exit_reaps.
  - apply run_bind_inv in H as (s3 & ? & _ & H). by eapply IH.
Qed.

Lemma wait_until_reaps deadline s s' st :
  run (wait_until fuel deadline) s = (s', Ok st) → reaped (child s') = true ∧ wait_status (child s') = st.
Proof.
  intros (s1 & [st'|] & Hp & H)%run_result_inv; [injection H as <- <-; by eapply poll_until_reaps|].
  apply run_result_inv in H as (s2 & [st'|] & Hq & H); [|done].
  injection H as <- <-. by eapply poll_exit_reaps.
Qed.

Lemma surjective_shutdown (e : ShutdownEvidence) :
  e = MkShutdownEvidence (sh_stopping_sigterm e) (sh_contexts_zero e) (sh_transports_zero e)
        (sh_subscriptions_zero e) (sh_owners_joined e).
Proof. by destruct e. Qed.

(** The daemon has answered the signal as it should. *)
Record stopped_well (st : Z) (e : ShutdownEvidence) s : Prop := {
  sw_asked : termination_requested (child s) = true;
  sw_reaped : reaped (child s) = true;
  sw_status : wait_status (child s) = st;
  sw_exited : WIFEXITED st = true ∧ WEXITSTATUS st = 0%Z;
  sw_evidence : e = MkShutdownEvidence true true true true true;
  sw_output : ∃ text cut, parse_shutdown_output (drop_string cut text) = e ∧
                          (∃ more, output (child s) = text +:+ more)
}.

Lemma stop_evidence s s' st e :
  run (stop_daemon fuel) s = (s', Ok (st, e)) → stopped_well st e s'.
Proof.
  intros (s1 & [] & _ & H)%run_result_inv. apply run_result_inv in H as (s2 & [] & _ & H).
  apply run_bind_inv in H as (s3 & cut & _ & H). apply run_bind_inv in H as (s4 & [] & _ & H).
  apply run_result_inv in H as (s5 & [] & Hterm & H). apply run_bind_inv in H as (s6 & [] & Hp6 & H).
  apply run_bind_inv in H as (s7 & now & Hnow & H). apply run_result_inv in H as (s8 & st' & Hwait & H).
  apply run_bind_inv in H as (s9 & [] & Hp9 & H). apply run_bind_inv in H as (s10 & text & Htext & H).
  apply run_bind_inv in H as (s11 & [] & Hp11 & H). injection Htext as <- <-.
  apply run_result_inv in H as (s12 & [] & (Hexit & ->)%run_require_inv & H).
  apply run_result_inv in H as (s13 & [] & (E1 & ->)%run_require_inv & H).
  apply run_result_inv in H as (s14 & [] & (E2 & ->)%run_require_inv & H).
  apply run_result_inv in H as (s15 & [] & (E3 & ->)%run_require_inv & H).
  apply run_result_inv in H as (s16 & [] & (E4 & ->)%run_require_inv & H).
  apply run_result_inv in H as (s17 & [] & (E5 & ->)%run_require_inv & H).
  injection H as <- <- <-. apply andb_true_iff in Hexit as [Hw He%Z.eqb_eq].
  apply wait_until_reaps in Hwait as Hre. destruct Hre as [Hr Hs].
  assert (Hasked : termination_requested (child s5) = true).
  { unfold send_sigterm in Hterm. apply run_bind_inv in Hterm as (t1 & c & _ & Hterm).
    apply run_result_inv in Hterm as (t2 & [] & _ & Hterm). apply run_result_inv in Hterm as (t3 & a & _ & Hterm).
    apply run_result_inv in Hterm as (t4 & [] & _ & Hterm). rewrite run_always in Hterm. by injection Hterm as <-. }
  assert (Hsteady : ∀ stream text (t t' : State), run (print stream text) t = (t', ()) → steady t t').
  { intros stream text t t' Ht. eapply steady_run; [|exact Ht]. apply steady_call. }
  apply Hsteady in Hp9 as S9, Hp11 as S11. destruct S9 as (A9 & B9 & C9), S11 as (A11 & B11 & C11).
  apply (growth _ _ _ _ (growing_print _ _)) in Hp6 as G6, Hp11 as G11.
  apply (growth _ _ _ _ (growing_wait_until _)) in Hwait as G8.
  assert (Gnow : grows s6 s7) by (eapply growth; [|exact Hnow]; growing).
  split.
  - rewrite C11, C9. apply G8, Gnow, G6, Hasked.
  - by rewrite A11, A9.
  - by rewrite B11, B9.
  - done.
  - rewrite (surjective_shutdown _). by f_equal.
  - eexists _, _. split; [reflexivity|]. apply G11.
Qed.

(** *** The whole client *)

Definition heard (l : list (Heard Snapshot)) s : Prop := ∃ before_ after_, journal (host s) = before_ ++ l ++ after_.

Lemma heard_grows l s s' : heard l s → grows s s' → heard l s'.
Proof.
  intros (b & a & H) Hg. destruct (gr_journal _ _ Hg) as [more Hm]. exists b, (a ++ more).
  by rewrite Hm, H, <- !app_assoc.
Qed.

Lemma replays_heard {A M} (wrap : option M → Heard Snapshot) (p : prog State A) q s s' a :
  replays wrap p q → run p s = (s', a) →
  ∃ items, heard (wrap <$> items) s' ∧ snd (run q items) = a.
Proof.
  intros Hr H. destruct (Hr s) as (items & Hj & Hq). rewrite H in Hj, Hq. cbn [fst snd] in *.
  exists items. split; [exists (journal (host s)), []; by rewrite app_nil_r|].
  specialize (Hq []). rewrite app_nil_r in Hq. by rewrite Hq.
Qed.

(** The streams began as they should, and the status was what it should be. *)
Record began_well (id : ServingIdentity) (e : StatusEvidence) s : Prop := {
  bw_spot : ∃ items, heard (HeardBook SpotBook <$> items) s ∧
    snd (run (read_book_head take_answer MARKET_SPOT (si_spot_generation id) (si_gateway_instance_id id)) items) = true;
  bw_usdm : ∃ items, heard (HeardBook UsdmBook <$> items) s ∧
    snd (run (read_book_head take_answer MARKET_USD_M_PERPETUAL (si_usdm_generation id)
                (si_gateway_instance_id id)) items) = true;
  bw_event : ∃ items, heard (HeardEvent UsdmEvent <$> items) s ∧
    snd (run (read_event_head take_answer (si_usdm_generation id) (si_gateway_instance_id id)) items) = true;
  bw_status : ∃ status response, heard [HeardStatus status response] s ∧ validate_status status response id = e;
  bw_valid : two_markets_valid e = true ∧ instance_match e = true
}.

Lemma began_grows id e s s' : began_well id e s → grows s s' → began_well id e s'.
Proof.
  intros [(l1 & H1 & R1) (l2 & H2 & R2) (l3 & H3 & R3) (st & r & H4 & R4) Hv] Hg.
  split; [exists l1|exists l2|exists l3|exists st, r|done]; (split; [by eapply heard_grows|done]).
Qed.

Lemma get_status_heard request_id s s' answer :
  run (get_status request_id) s = (s', answer) → heard [HeardStatus (fst answer) (snd answer)] s'.
Proof.
  intros (s1 & now & _ & H)%run_bind_inv. cbn in H. unfold lift in H.
  destruct (rc_status _ _ _) as [x a]. injection H as <- <-. by exists (journal (host s1)), [].
Qed.

Lemma evidence_collected id s s' e :
  run (collect_evidence fuel id) s = (s', Ok e) → began_well id e s'.
Proof.
  intros (s1 & spot & H1 & H)%run_bind_inv. apply run_result_inv in H as (s2 & [] & R2 & H).
  apply run_bind_inv in H as (s3 & usdm & H3 & H). apply run_result_inv in H as (s4 & [] & R4 & H).
  apply run_bind_inv in H as (s5 & event & H5 & H). apply run_result_inv in H as (s6 & [] & R6 & H).
  apply run_bind_inv in H as (s7 & [status response] & H7 & H). apply run_result_inv in H as (s8 & [] & R8 & H).
  apply run_bind_inv in H as (s9 & [] & R9 & H).
  apply run_result_inv in H as (? & [] & (-> & ->)%run_require_inv & H).
  apply run_result_inv in H as (? & [] & (-> & ->)%run_require_inv & H).
  apply run_result_inv in H as (? & [] & (-> & ->)%run_require_inv & H).
  apply run_result_inv in H as (? & [] & (Ht & ->)%run_require_inv & H).
  apply run_result_inv in H as (? & [] & (Hm & ->)%run_require_inv & H).
  apply run_bind_inv in H as (s10 & [] & R10 & H). injection H as <- <-.
  apply (growth _ _ _ _ (growing_require_running _)) in R2, R4, R6, R8.
  apply (growth _ _ _ _ (growing_print _ _)) in R9, R10.
  destruct (replays_heard _ _ _ _ _ _ (replays_book_head _ _ _ _) H1) as (l1 & J1 & E1).
  destruct (replays_heard _ _ _ _ _ _ (replays_book_head _ _ _ _) H3) as (l3 & J3 & E3).
  destruct (replays_heard _ _ _ _ _ _ (replays_event_head _ _ _) H5) as (l5 & J5 & E5).
  apply get_status_heard in H7 as J7.
  apply (growth _ _ _ _ (growing_get_status _)) in H7 as G7.
  assert (G5 : grows s4 s5) by (eapply growth; [|exact H5]; apply growing_event_head; growing).
  assert (G3 : grows s2 s3) by (eapply growth; [|exact H3]; apply growing_book_head; growing).
  assert (T7 : grows s7 s10) by (etrans; [exact R8|]; by etrans).
  assert (T5 : grows s5 s10) by (etrans; [exact R6|]; by etrans).
  assert (T3 : grows s3 s10) by (etrans; [exact R4|]; by etrans).
  assert (T1 : grows s1 s10) by (etrans; [exact R2|]; by etrans).
  split; [exists l1|exists l3|exists l5|exists status, response|done];
    (split; [by eapply heard_grows|done]).
Qed.

Lemma finish_heard Read stream s s' status :
  run (finish_stream fuel Read stream) s = (s', Ok status) → heard [HeardFinish stream status] s'.
Proof.
  intros (s1 & [] & _ & H)%run_result_inv. rewrite run_always in H. cbn in H. unfold lift in H.
  destruct (rc_finish _ _) as [x a]. injection H as <- <-. by exists (journal (host s1)), [].
Qed.

Lemma stopped_keeps st e s s' : stopped_well st e s → grows s s' → steady s s' → stopped_well st e s'.
Proof.
  intros [H1 H2 H3 H4 H5 (text & cut & H6 & [more H7])] Hg (A & B & C). split; try done.
  - by rewrite C.
  - by rewrite A.
  - by rewrite B.
  - exists text, cut. split; [done|]. destruct (gr_output _ _ Hg) as [more' Hm].
    exists (more +:+ more'). by rewrite Hm, H7, string_app_assoc.
Qed.

(** All the evidence. *)
Record accepted (e : Evidence) s : Prop := {
  ac_began : began_well (ev_identity e) (ev_status e) s;
  ac_stopped : stopped_well (ev_wait_status e) (ev_shutdown e) s;
  ac_finished : heard [HeardFinish SpotBook (ev_spot_finish e)] s ∧
                heard [HeardFinish UsdmBook (ev_usdm_finish e)] s ∧
                heard [HeardFinish UsdmEvent (ev_event_finish e)] s
}.

Lemma accepted_keeps e s s' : accepted e s → grows s s' → steady s s' → accepted e s'.
Proof.
  intros [H1 H2 (H3 & H4 & H5)] Hg Hs. split.
  - by eapply began_grows.
  - by eapply stopped_keeps.
  - split_and!; by eapply heard_grows.
Qed.

Lemma steady_more_book stream : steadily (read_more_book stream).
Proof. apply every_fmap, steady_call. Qed.
Lemma steady_more_event stream : steadily (read_more_event stream).
Proof. apply every_fmap, steady_call. Qed.

Lemma streams_evidence id s s' e :
  run (use_streams fuel id) s = (s', Ok e) → accepted e s' ∧ ev_identity e = id.
Proof.
  intros (s1 & now & _ & H)%run_bind_inv. apply run_bind_inv in H as (s2 & [] & _ & H).
  apply run_bind_inv in H as (s3 & [] & _ & H). apply run_bind_inv in H as (s4 & [] & _ & H).
  apply run_catch_inv in H; [|by intros].
  apply run_result_inv in H as (s5 & status & H5 & H). apply run_result_inv in H as (s6 & [st ev] & H6 & H).
  apply run_result_inv in H as (s7 & spot & H7 & H). apply run_result_inv in H as (s8 & usdm & H8 & H).
  apply run_result_inv in H as (s9 & event & H9 & H). injection H as <- <-. split; [|done].
  apply evidence_collected in H5. apply (growth _ _ _ _ growing_stop_daemon) in H6 as G6.
  apply stop_evidence in H6.
  assert (T7 : grows s6 s7) by (eapply growth; [|exact H7]; growing).
  assert (T8 : grows s7 s8) by (eapply growth; [|exact H8]; growing).
  assert (T9 : grows s8 s9) by (eapply growth; [|exact H9]; growing).
  pose proof (steady_run _ _ _ _ (steady_finish _ _ (steady_more_book SpotBook)) H7) as S7.
  pose proof (steady_run _ _ _ _ (steady_finish _ _ (steady_more_book UsdmBook)) H8) as S8.
  pose proof (steady_run _ _ _ _ (steady_finish _ _ (steady_more_event UsdmEvent)) H9) as S9.
  apply finish_heard in H7, H8, H9. cbn. split; cbn.
  - eapply began_grows; [exact H5|]. etrans; [exact G6|]. etrans; [exact T7|]. by etrans.
  - eapply stopped_keeps; [|exact T9|exact S9]. eapply stopped_keeps; [|exact T8|exact S8].
    by eapply stopped_keeps.
  - split_and!; [eapply heard_grows; [exact H7|by etrans]|by eapply heard_grows|done].
Qed.

(** The daemon had said that it serves. *)
Definition served_by (options : Options) (id : ServingIdentity) s : Prop :=
  ∃ text more m serving,
    output (child s) = text +:+ more ∧
    find_complete_line text "gateway_state=serving" 0 = Some m ∧
    parse_serving_line (lm_line m) (opt_grpc_port options) = inl serving ∧
    si_gateway_instance_id id = si_gateway_instance_id serving.

Lemma acceptance_evidence options s s' e :
  run (accept_daemon fuel options) s = (s', Ok e) →
  accepted e s' ∧ served_by options (ev_identity e) s' ∧
  valid_shutdown_finish (ev_spot_finish e) = true ∧ valid_shutdown_finish (ev_usdm_finish e) = true ∧
  valid_shutdown_finish (ev_event_finish e) = true.
Proof.
  intros (s1 & who & H1 & H)%run_result_inv. apply run_bind_inv in H as (s2 & [] & P2 & H).
  apply run_result_inv in H as (s3 & who' & H3 & H). apply run_result_inv in H as (s4 & e' & H4 & H).
  apply run_bind_inv in H as (s5 & [] & P5 & H). apply run_bind_inv in H as (s6 & [] & P6 & H).
  apply run_result_inv in H as (s7 & [] & (Hv & ->)%run_require_inv & H).
  apply run_bind_inv in H as (s8 & text & Htext & H). apply run_bind_inv in H as (s9 & [] & P9 & H).
  apply run_bind_inv in H as (s10 & [] & P10 & H). injection H as <- <-. injection Htext as <- _.
  destruct (serving_evidence _ _ _ _ H1) as (m & Hm & Hparse).
  assert (Hwho : si_gateway_instance_id who' = si_gateway_instance_id who).
  { apply run_bind_inv in H3 as (t1 & [status response] & _ & H3).
    destruct (client_ok status); [|done]. destruct (gs_markets response) as [|? [|? [|? ?]]]; try done.
    apply run_result_inv in H3 as (t2 & [] & _ & H3). by injection H3 as _ <-. }
  assert (G4 : grows s2 s3) by (eapply growth; [|exact H3]; growing).
  assert (G4' : grows s3 s4).
  { eapply growth; [|exact H4]. unfold use_streams. growing. }
  destruct (streams_evidence _ _ _ _ H4) as [Hacc Hid].
  assert (Hlast : grows s4 s10 ∧ steady s4 s10).
  { assert (Hp : ∀ t t' stream txt, run (print stream txt) t = (t', ()) → grows t t' ∧ steady t t').
    { intros t t' stream txt Ht. split; [eapply growth; [|exact Ht]; growing|].
      eapply steady_run; [|exact Ht]. apply steady_call. }
    apply Hp in P5 as [A1 B1], P6 as [A2 B2], P9 as [A3 B3], P10 as [A4 B4].
    split; [etrans; [exact A1|]; etrans; [exact A2|]; by etrans|].
    etrans; [exact B1|]; etrans; [exact B2|]; by etrans. }
  destruct Hlast as [Hg Hst]. apply andb_true_iff in Hv as [[? ?]%andb_true_iff ?].
  split; [by eapply accepted_keeps|]. split; [|done].
  apply (growth _ _ _ _ (growing_print _ _)) in P2.
  assert (Hall : grows s1 s10) by (etrans; [exact P2|]; etrans; [exact G4|]; by etrans).
  destruct (gr_output _ _ Hall) as [more Hmore]. exists (output (child s1)), more, m, who.
  by rewrite Hid, Hwho.
Qed.

Section Main.
Context `{A : AddressLibrary} `{F : FileSystem} `{Ev : EventJsonLibrary} `{Ho : HostFiles}.

End Main.
End Growing.

(** ** No child is left *)

(** The calls of the RPC library do not wait for children. *)
Class RpcApart (Snapshot X : Type) `{OS : !ChildOs X} `{Fair : !FairOs X} `{R : !RpcClient Snapshot X}
  : Prop := {
  ra_now (x : X) : fo_child (fst (rc_system_now x)) = fo_child x;
  ra_status deadline request (x : X) : fo_child (fst (rc_status deadline request x)) = fo_child x;
  ra_book stream deadline request (x : X) : fo_child (rc_subscribe_book stream deadline request x) = fo_child x;
  ra_events stream deadline request (x : X) :
    fo_child (rc_subscribe_events stream deadline request x) = fo_child x;
  ra_read_book stream (x : X) : fo_child (fst (rc_read_book stream x)) = fo_child x;
  ra_read_event stream (x : X) : fo_child (fst (rc_read_event stream x)) = fo_child x;
  ra_finish stream (x : X) : fo_child (fst (rc_finish stream x)) = fo_child x;
  ra_cancel stream (x : X) : fo_child (rc_try_cancel stream x) = fo_child x;
  ra_print stream text (x : X) : fo_child (rc_print stream text x) = fo_child x
}.

Section NoChild.
Context `{W : WireEnums} {Snapshot : Type} `{SM : !SnapshotMessage Snapshot}.
Context {X : Type} `{OS : !ChildOs X} `{R : !RpcClient Snapshot X} `{WS : !WaitStatus}.
Context `{Fair : !FairOs X} `{Apart : !RpcApart Snapshot X}.
Context (fuel : nat).
Abbreviation State := (Process X).

Lemma knows_print stream text : keeps (S := State) knows (print stream text).
Proof. apply calm_keeps, calm_call. intros x. apply ra_print. Qed.

Lemma knows_book stream : keeps (S := State) knows (host_call (rc_read_book stream)).
Proof. apply calm_keeps, calm_call. intros x. apply ra_read_book. Qed.

Lemma knows_event stream : keeps (S := State) knows (host_call (rc_read_event stream)).
Proof. apply calm_keeps, calm_call. intros x. apply ra_read_event. Qed.

Lemma knows_get_status request_id : keeps (S := State) knows (get_status request_id).
Proof.
  apply keeps_then; [apply calm_keeps, calm_call; intros x; apply ra_now|]. intros now.
  apply calm_keeps, calm_call. intros x. apply ra_status.
Qed.

Lemma knows_part {Body Part} (Read : prog State (option (Received Body))) (part : Body → option Part)
  sequence instance_id g : keeps knows Read → keeps knows (read_part Read part sequence instance_id g).
Proof. intros H. apply keeps_then; [done|]. intros item. apply keeps_value. Qed.

Lemma knows_book_head stream market generation instance_id :
  keeps (S := State) knows (read_book_head (host_call (rc_read_book stream)) market generation instance_id).
Proof.
  pose proof (knows_book stream) as H.
  apply keeps_then; [by apply knows_part|]. intros [? [?|]]; [|apply keeps_value].
  destruct (negb _); [apply keeps_value|].
  apply keeps_then; [by apply knows_part|]. intros [? [?|]]; [|apply keeps_value].
  destruct (negb _); [apply keeps_value|].
  apply keeps_then; [by apply knows_part|]. intros [? [?|]]; apply keeps_value.
Qed.

Lemma knows_event_head stream generation instance_id :
  keeps (S := State) knows (read_event_head (host_call (rc_read_event stream)) generation instance_id).
Proof.
  pose proof (knows_event stream) as H.
  apply keeps_then; [by apply knows_part|]. intros [? [?|]]; [|apply keeps_value].
  destruct (negb _); [apply keeps_value|].
  apply keeps_then; [by apply knows_part|]. intros [? [?|]]; apply keeps_value.
Qed.

#[local] Hint Resolve knows_print knows_get_status knows_book_head knows_event_head knows_require_running
  knows_wait_until knows_wait_for_serving : gateway.

Lemma knows_initial identity : keeps (S := State) knows (read_initial_generations identity).
Proof.
  apply keeps_then; [auto with gateway|]. intros [status response].
  destruct (client_ok status); [|apply keeps_value].
  destruct (gs_markets response) as [|? [|? [|? ?]]]; try apply keeps_value. cbv zeta.
  apply keeps_result; [apply keeps_require|]. intros []. apply keeps_value.
Qed.

Lemma knows_finish Read stream :
  keeps knows Read → keeps (S := State) knows (finish_stream fuel Read stream).
Proof.
  intros H. assert (Hd : ∀ rounds, keeps knows (drain Read rounds)).
  { induction rounds as [|rounds IH]; cbn [drain]; [apply keeps_value|].
    apply keeps_then; [done|]. intros []; [exact IH|apply keeps_value]. }
  apply keeps_result; [apply Hd|]. intros []. apply keeps_fmap.
  apply calm_keeps, calm_call. intros x. apply ra_finish.
Qed.

Lemma knows_collect_evidence identity : keeps (S := State) knows (collect_evidence fuel identity).
Proof.
  apply keeps_then; [auto with gateway|]. intros spot. apply keeps_result; [auto with gateway|]. intros [].
  apply keeps_then; [auto with gateway|]. intros usdm. apply keeps_result; [auto with gateway|]. intros [].
  apply keeps_then; [auto with gateway|]. intros event. apply keeps_result; [auto with gateway|]. intros [].
  apply keeps_then; [auto with gateway|]. intros [status response].
  apply keeps_result; [auto with gateway|]. intros []. cbv zeta.
  apply keeps_then; [auto with gateway|]. intros [].
  do 5 (apply keeps_result; [apply keeps_require|]; intros []).
  apply keeps_then; [auto with gateway|]. intros []. apply keeps_value.
Qed.

Lemma knows_stop_daemon : keeps (S := State) knows (stop_daemon fuel).
Proof.
  apply keeps_result; [apply calm_keeps, calm_collect_available|]. intros [].
  apply keeps_result; [auto with gateway|]. intros []. apply keeps_then; [apply keeps_reading|]. intros cut.
  apply keeps_then; [auto with gateway|]. intros [].
  apply keeps_result; [apply calm_keeps, calm_send_sigterm|]. intros [].
  apply keeps_then; [auto with gateway|]. intros []. apply keeps_then; [apply calm_keeps, calm_now|]. intros now.
  apply keeps_result; [auto with gateway|]. intros st. cbv zeta.
  apply keeps_then; [auto with gateway|]. intros []. apply keeps_then; [apply keeps_reading|]. intros text.
  apply keeps_then; [auto with gateway|]. intros [].
  do 6 (apply keeps_result; [apply keeps_require|]; intros []). apply keeps_value.
Qed.

Lemma knows_use_streams identity : keeps (S := State) knows (use_streams fuel identity).
Proof.
  assert (Hb : ∀ stream, keeps (S := State) knows (read_more_book stream)).
  { intros stream. apply keeps_fmap, knows_book. }
  assert (He : ∀ stream, keeps (S := State) knows (read_more_event stream)).
  { intros stream. apply keeps_fmap, knows_event. }
  assert (Hc : keeps (S := State) knows cancel_streams).
  { do 2 (apply keeps_then; [apply calm_keeps, calm_call; intros x; apply ra_cancel|]; intros []).
    apply calm_keeps, calm_call; intros x; apply ra_cancel. }
  apply keeps_then; [apply calm_keeps, calm_call; intros x; apply ra_now|]. intros now. cbv zeta.
  do 2 (apply keeps_then; [apply calm_keeps, calm_call; intros x; apply ra_book|]; intros []).
  apply keeps_then; [apply calm_keeps, calm_call; intros x; apply ra_events|]. intros [].
  apply keeps_catch.
  - apply keeps_result; [apply knows_collect_evidence|]. intros status.
    apply keeps_result; [apply knows_stop_daemon|]. intros [st ev].
    do 3 (apply keeps_result; [by apply knows_finish|]; intros ?). apply keeps_value.
  - intros message. apply keeps_then; [done|]. intros []. apply keeps_value.
Qed.

Lemma knows_accept options : keeps (S := State) knows (accept_daemon fuel options).
Proof.
  apply keeps_result; [auto with gateway|]. intros who. apply keeps_then; [auto with gateway|]. intros [].
  apply keeps_result; [apply knows_initial|]. intros id.
  apply keeps_result; [apply knows_use_streams|]. intros e.
  apply keeps_then; [auto with gateway|]. intros []. cbv zeta. apply keeps_then; [auto with gateway|]. intros [].
  apply keeps_result; [apply keeps_require|]. intros []. apply keeps_then; [apply keeps_reading|]. intros text.
  do 2 (apply keeps_then; [auto with gateway|]; intros []). apply keeps_value.
Qed.

Hypothesis enough_reads : fo_bound < fuel.
Hypothesis enough_waits : 1501 ≤ fuel.

End NoChild.

(** ** Witnesses *)

(** A daemon that behaves: it says that it serves, its streams give their heads, and a
    signal makes it report and exit. *)
Record SampleDaemon : Type := MkSampleDaemon {
  sd_child : option Z;
  sd_clock : Z;
  sd_unread : option string;
  sd_exited : bool;
  sd_spot : list (Received (StreamItemBody Z));
  sd_usdm : list (Received (StreamItemBody Z));
  sd_event : list (Received EnvelopeBody)
}.
#[local] Instance SampleDaemon_eta : Eta SampleDaemon :=
  λ d, MkSampleDaemon (sd_child d) (sd_clock d) (sd_unread d) (sd_exited d) (sd_spot d) (sd_usdm d) (sd_event d).

Section Samples.
#[local] Existing Instance sample_enums.
#[local] Existing Instance sample_loopback.
#[local] Existing Instance two_products_events.
#[local] Existing Instance acceptance_files.
#[local] Existing Instance installed_daemon.

(** The snapshot of a market, at update 4. *)
#[local] Instance market_snapshot : SnapshotMessage Z := {|
  snap_venue _ := 1%Z; snap_market m := m; snap_symbol _ := "BTCUSDT";
  snap_schema_version _ := kSnapshotSchema; snap_synchronized _ := true;
  snap_last_update_id _ := 4%Z; snap_bids_empty _ := false; snap_asks_empty _ := false |}.

Definition sample_delivery (n : Z) (g : option Z) : DeliveryMetadata :=
  MkDeliveryMetadata kProtocolVersion "gw-1" "sub-1" g n 5 (Some 5%Z).

Definition sample_depth_update (market : Z) (schema : string) : DepthUpdate :=
  MkDepthUpdate
    (MkEventMetadata 1 market "BTCUSDT" "gateway" "1" "c" 1 schema None None None (Some 1%Z) (Some 1%Z))
    5 5 None [] [].

Definition sample_book (market : Z) : list (Received (StreamItemBody Z)) :=
  [MkReceived false (Some (sample_delivery 1 None))
     (Some (ItemSubscriptionAccepted (MkSubscriptionAccepted "r" "sub-1" kSubscriptionAcceptedSchema "gw-1" 5
                                        [kSnapshotSchema; kUpdateSchema])));
   MkReceived false (Some (sample_delivery 2 (Some 1%Z))) (Some (ItemSnapshot market));
   MkReceived false (Some (sample_delivery 3 (Some 1%Z)))
     (Some (ItemDepthUpdate (sample_depth_update market kUpdateSchema)))].

Definition sample_events : list (Received EnvelopeBody) :=
  [MkReceived false (Some (sample_delivery 1 None))
     (Some (EnvSubscriptionAccepted (MkSubscriptionAccepted "r" "sub-1" kEventSubscriptionAcceptedSchema "gw-1" 5
                                       [kDepthEventSchema])));
   MkReceived false (Some (sample_delivery 2 (Some 1%Z)))
     (Some (EnvDepthUpdate (sample_depth_update 2 kDepthEventSchema)))].

Definition sample_status : GatewayStatusSnapshot :=
  MkGatewayStatusSnapshot kStatusSnapshotSchema "gw-1" 7 1
    [MkMarketStatus 1 1 "BTCUSDT" STREAM_LIFECYCLE_STATE_LIVE None (Some 1%Z) 1;
     MkMarketStatus 1 2 "BTCUSDT" STREAM_LIFECYCLE_STATE_LIVE None (Some 1%Z) 2] 3.

Definition sample_serving : string :=
  line "gateway_state=serving grpc_port=50051 products=2 gateway_instance_id=gw-1".
Definition sample_report : string :=
  line "gateway_state=stopping signal=SIGTERM"
  +:+ line "gateway_state=stopped contexts=0 transports=0 subscriptions=0 owners_joined=yes".

#[local] Instance daemon_os : ChildOs SampleDaemon := {|
  os_pipe d := (d, Some (3%Z, 4%Z));
  os_fork d := (d <| sd_child := Some 77%Z |>, Some 77%Z);
  os_close _ d := d;
  os_nonblocking _ d := (d, true);
  os_read _ d := match sd_unread d with
                 | Some text => (d <| sd_unread := None |>, ReadBytes text)
                 | None => (d, if sd_exited d then ReadEnd else ReadFailed EAGAIN)
                 end;
  os_waitpid p nohang d :=
    if nohang && negb (sd_exited d) then (d, WaitNone) else (d <| sd_child := None |>, WaitChild p 0);
  os_kill _ _ d := (d <| sd_unread := Some sample_report |> <| sd_exited := true |>, None);
  os_now d := (d, sd_clock d);
  os_sleep t d := d <| sd_clock ::= λ c, (c + t)%Z |>;
  os_dup2 _ _ d := (d, true);
  os_execv _ _ d := (d, true);
  os_write _ _ d := d
|}.

#[local] Instance daemon_fair : FairOs SampleDaemon.
Proof.
  refine {| fo_clock := sd_clock; fo_child := sd_child;
            fo_reads d := match sd_unread d with Some _ => 1 | None => 0 end;
            fo_waits _ := 0; fo_bound := 1 |};
    intros; repeat match goal with
                   | x : SampleDaemon |- _ => destruct x as [? ? [?|] [] ? ? ?]
                   | b : bool |- _ => destruct b
                   end; cbn in *; try split_and!; try done; try lia.
Defined.

#[local] Instance daemon_rpc : RpcClient Z SampleDaemon := {|
  rc_system_now d := (d, 9%Z);
  rc_status _ _ d := (d, (MkClientStatus kOk "", sample_status));
  rc_subscribe_book stream _ _ d :=
    match stream with
    | SpotBook => d <| sd_spot := sample_book 1 |>
    | _ => d <| sd_usdm := sample_book 2 |>
    end;
  rc_subscribe_events _ _ _ d := d <| sd_event := sample_events |>;
  rc_read_book stream d :=
    match stream with
    | SpotBook => (d <| sd_spot ::= drop 1 |>, sd_spot d !! 0)
    | _ => (d <| sd_usdm ::= drop 1 |>, sd_usdm d !! 0)
    end;
  rc_read_event _ d := (d <| sd_event ::= drop 1 |>, sd_event d !! 0);
  rc_finish _ d := (d, MkClientStatus kCancelled "shutdown");
  rc_try_cancel _ d := d;
  rc_print _ _ d := d
|}.

#[local] Instance daemon_apart : RpcApart Z SampleDaemon.
Proof. split; try done; by intros []. Qed.

#[local] Instance daemon_statuses : WaitStatus := {| WIFEXITED _ := true; WEXITSTATUS st := st |}.

Definition sample_daemon : SampleDaemon := MkSampleDaemon None 0 (Some sample_serving) false [] [] [].

Definition sample_success : Process (Journaled Z SampleDaemon) * option Z :=
  run (main 20 acceptance_argv) (MkProcess no_child (MkJournaled sample_daemon [])).

Lemma sample_success_code : snd sample_success = Some EXIT_SUCCESS.
Proof. vm_compute. reflexivity. Qed.


(** The same acceptance, without the journal. *)
Definition sample_acceptance : Process SampleDaemon * result Evidence :=
  run (run_acceptance 1501 acceptance_options) (MkProcess no_child sample_daemon).

End Samples.
