(* ===== verification/Drivers.v ===== *)
(** * Drivers: the acceptance drivers of the Spot product

    Models the mains of [src/app/g4_spot_live], [g5_spot_recovery_live],
    [g6_spot_rotation_live], [g7_spot_grpc_live] and [g9_spot_events_live], with what they
    share.  The gateway a driver is built on is a parameter ([Gateway]): every call takes
    the world to the next and answers; the components behind it have their own files.  The
    client's side of the streams is the [RpcClient] of [AcceptanceClient].

    A gateway or a client inside a larger state ([Around]) is one as well and tells that state
    what was done: [DriverSafety] watches the drivers so, and [IntegrationDriver] keeps its
    consumers there. *)

From Stdlib Require Import Ascii.
From S2P Require Import Prelude Ring Wire Text Json Session OrderBookPublication Projection.
From S2P Require Import EventPublication MarketRuntime Recovery Config SpotProtocol UsdmProtocol Network.
From S2P Require Import Transport Registry GrpcRequests Programs GatewayStatus GrpcService GatewayLifecycle.
From S2P Require Import GrpcStreams Daemon Diagnostics Acceptance StreamClient Raising ChildProcess.
From S2P Require Import AcceptanceClient.

Open Scope gateway_scope.

(** ** The gateway a driver is built on *)

Inductive Product : Type :=
| SpotProduct
| UsdmProduct.

(** [gd_start age]: a runtime with its recovery, which rotates after this age when there is
    one, and its start; [gd_start_products]: that of both products; [gd_stop]: the stop of
    what was started; [gd_wait_within]: the wait for a generation, when it ends in time.  The
    runtime and the transport of the first driver have calls of their own. *)
Class Gateway (X : Type) `{L : ProjectionLibrary} : Type := {
  gd_fetch : Product → X → X * AsyncExchangeInfoGet.Result;
  gd_instance_id : X → X * string;
  gd_start : option Z → X → X * RecoveryStartResult;
  gd_start_products : X → X * (RecoveryStartResult * RecoveryStartResult);
  gd_stop : X → X;
  gd_wait_for_generation_live : Product → Z → X → X * RecoveryObservation;
  gd_wait_within : Z → Product → Z → X → X * option RecoveryObservation;
  gd_observe_recovery : Product → X → X * RecoveryObservation;
  gd_observe_runtime : Product → X → X * RuntimeObservation;
  gd_observe_events : Product → X → X * EventPublicationObservation;
  gd_request_recovery : Product → X → X * bool;
  gd_quiesce : X → X * option QuiescentAcceptanceCut;
  gd_capture : X → X * SnapshotResult;
  gd_this_thread : Z;
  gd_runtime_start : X → X * StartResult;
  gd_runtime_stop : X → X;
  gd_transport_start : X → X * TransportStartResult;
  gd_transport_stop : X → X;
  gd_observe_transport : X → X * TransportObservation;
  gd_server_start : string → X → X * bool;
  gd_server_shutdown : X → X;
  gd_admission_open : X → X * bool;
  gd_tracked_contexts : X → X * nat;
  gd_status_inflight : X → X * bool;
  gd_now : X → X * Z;
  gd_sleep : Z → X → X
}.

(** ** A gateway inside a larger state *)

Inductive GatewayEvent : Type :=
| BackStart (started : bool)
| BackStop
| FrontStart (started : bool)
| FrontStop
| StreamOpened (stream : StreamName)
| StreamRead (stream : StreamName)
| StreamFinished (stream : StreamName).

(** A state with a world in it, which is told what was done. *)
Class Around (S X : Type) : Type := {
  inside : S → X;
  put : X → S → S;
  note : GatewayEvent → S → S
}.

Definition recovery_started (r : RecoveryStartResult) : bool :=
  match r with RtStarted => true | _ => false end.

Section Around.
Context {S X : Type} `{!Around S X}.

Definition within {A} (told : A → list GatewayEvent) (f : X → X * A) (s : S) : S * A :=
  let '(x, a) := f (inside s) in (foldl (λ s e, note e s) (put x s) (told a), a).
Definition within_do (told : list GatewayEvent) (f : X → X) (s : S) : S :=
  foldl (λ s e, note e s) (put (f (inside s)) s) told.
Definition untold {A} (_ : A) : list GatewayEvent := [].

(** The runtime of the first driver is what is behind; its transport is what is in front. *)
Definition gateway_within `{L : ProjectionLibrary} `{G : !Gateway X} : Gateway S := {|
  gd_fetch product := within untold (gd_fetch product);
  gd_instance_id := within untold gd_instance_id;
  gd_start age := within (λ r, [BackStart (recovery_started r)]) (gd_start age);
  gd_start_products := within (λ _, [BackStart true]) gd_start_products;
  gd_stop := within_do [BackStop] gd_stop;
  gd_wait_for_generation_live product g := within untold (gd_wait_for_generation_live product g);
  gd_wait_within timeout product g := within untold (gd_wait_within timeout product g);
  gd_observe_recovery product := within untold (gd_observe_recovery product);
  gd_observe_runtime product := within untold (gd_observe_runtime product);
  gd_observe_events product := within untold (gd_observe_events product);
  gd_request_recovery product := within untold (gd_request_recovery product);
  gd_quiesce := within untold gd_quiesce;
  gd_capture := within untold gd_capture;
  gd_this_thread := gd_this_thread;
  gd_runtime_start :=
    within (λ r, [BackStart (match r with SrStarted => true | _ => false end)]) gd_runtime_start;
  gd_runtime_stop := within_do [BackStop] gd_runtime_stop;
  gd_transport_start :=
    within (λ r, [FrontStart (match r with TsStarted => true | _ => false end)]) gd_transport_start;
  gd_transport_stop := within_do [FrontStop] gd_transport_stop;
  gd_observe_transport := within untold gd_observe_transport;
  gd_server_start address := within (λ serving, [FrontStart serving]) (gd_server_start address);
  gd_server_shutdown := within_do [FrontStop] gd_server_shutdown;
  gd_admission_open := within untold gd_admission_open;
  gd_tracked_contexts := within untold gd_tracked_contexts;
  gd_status_inflight := within untold gd_status_inflight;
  gd_now := within untold gd_now;
  gd_sleep d := within_do [] (gd_sleep d)
|}.

Definition client_within {Snapshot} `{R : !RpcClient Snapshot X} : RpcClient Snapshot S := {|
  rc_system_now := within untold rc_system_now;
  rc_status deadline request := within untold (rc_status deadline request);
  rc_subscribe_book n deadline request := within_do [StreamOpened n] (rc_subscribe_book n deadline request);
  rc_subscribe_events n deadline request := within_do [StreamOpened n] (rc_subscribe_events n deadline request);
  rc_read_book n := within (λ _, [StreamRead n]) (rc_read_book n);
  rc_read_event n := within (λ _, [StreamRead n]) (rc_read_event n);
  rc_finish n := within (λ _, [StreamFinished n]) (rc_finish n);
  rc_try_cancel n := within_do [] (rc_try_cancel n);
  rc_print stream text := within_do [] (rc_print stream text)
|}.
End Around.

(** ** Texts *)

Definition projection_status (status : ProjectionStatus) : string :=
  match status with
  | AwaitingBaseline => "AwaitingBaseline"
  | PsAwaitingBridge => "AwaitingBridge"
  | Synchronized => "Synchronized"
  | PsNeedsResync => "NeedsResync"
  end.

Definition runtime_state (state : RuntimeState) : string :=
  match state with
  | RsConstructed => "Constructed" | RsBuffering => "Buffering" | RsAwaitingBridge => "AwaitingBridge"
  | RsLive => "Live" | RsNeedsResync => "NeedsResync" | RsFaulted => "Faulted"
  | RsStopping => "Stopping" | RsStopped => "Stopped"
  end.

(** [static_cast<unsigned>] of the states, and a [bool] on a stream. *)
Definition recovery_state_number (state : RecoveryState) : Z :=
  match state with
  | RyStarting => 0 | RyLive => 1 | RyRotating => 2 | RyBackoff => 3
  | RyRecovering => 4 | RyExhausted => 5 | RyStopping => 6 | RyStopped => 7
  end.
Definition runtime_state_number (state : RuntimeState) : Z :=
  match state with
  | RsConstructed => 0 | RsBuffering => 1 | RsAwaitingBridge => 2 | RsLive => 3
  | RsNeedsResync => 4 | RsFaulted => 5 | RsStopping => 6 | RsStopped => 7
  end.
Definition digit (b : bool) : string := if b then "1" else "0".

(** [print_network_error]; [product] is [" product=..."] in the two-market driver. *)
Definition network_error_report (product : string) (error : NetworkError) : string :=
  line ("NETWORK_ERROR" +:+ product +:+ " stage=" +:+ ne_stage error +:+ " message=" +:+ ne_message error
        +:+ match ne_http_status error with Some status => " http_status=" +:+ pretty status | None => "" end
        +:+ match ne_retry_after error with Some after_ => " retry_after=" +:+ after_ | None => "" end).

Definition lines_of (l : list string) : string := foldr (λ text rest, line text +:+ rest) EmptyString l.

Section Code.
Context `{W : WireEnums} `{L : ProjectionLibrary} `{N : NumericLibrary} `{Jl : JsonLibrary}.
Context {Snapshot : Type} `{SM : !SnapshotMessage Snapshot} `{SM' : !SnapshotMessage LocalOrderBookSnapshot}.
Context {X : Type} `{G : !Gateway X} `{R : !RpcClient Snapshot X}.
Abbreviation Thread := (prog X).
Context (fuel : nat).

Definition call {A} (f : X → X * A) : Thread A := atomically f.
Definition act (f : X → X) : Thread () := modify f.
Definition say (stream : OutputStream) (text : string) : Thread () := act (rc_print stream text).

(** [b && p] *)
Definition and_then (b : bool) (p : Thread bool) : Thread bool := if b then p else mret false.

(** [return EXIT_FAILURE] and [return EXIT_SUCCESS]. *)
Definition failed : Thread (result Z) := ok EXIT_FAILURE.
Definition passed : Thread (result Z) := ok EXIT_SUCCESS.

Definition print_network_error (error : NetworkError) : Thread () :=
  say StdErr (network_error_report "" error).

(** [print_network_error] when there is an error. *)
Definition print_terminal_error (error : option NetworkError) : Thread () :=
  match error with Some error => print_network_error error | None => mret () end.

(** The first lines of every main: the exchange information of Spot. *)
Definition fetch_metadata : Thread (option (ExchangeInfoResponse * SpotMetadata)) :=
  exchange_info ← call (gd_fetch SpotProduct);
  match exchange_info with
  | inr failure => print_network_error failure ;; mret None
  | inl response =>
      match parse_exchange_info (info_body response) "BTCUSDT" with
      | inr failure =>
          say StdErr (line ("EXCHANGE_INFO_PARSE=FAIL field=" +:+ pe_field failure
                            +:+ " message=" +:+ pe_message failure)) ;;
          mret None
      | inl metadata => mret (Some (response, metadata))
      end
  end.

(** [wait_for_later_real_update] *)
Fixpoint later_update (rounds : nat) (deadline initial : Z) : Thread (result bool) :=
  match rounds with
  | O => mret Unfinished
  | S rounds =>
      now ← call gd_now;
      if negb (now <? deadline)%Z then ok false else
      observation ← call (gd_observe_runtime SpotProduct);
      if negb (bool_decide (obs_state observation = RsLive)) then ok false else
      match obs_last_update_id observation with
      | Some id => if (initial <? id)%Z then ok true
                   else act (gd_sleep (milliseconds 25)) ;; later_update rounds deadline initial
      | None => act (gd_sleep (milliseconds 25)) ;; later_update rounds deadline initial
      end
  end.

Definition wait_for_later_real_update (initial : Z) : Thread (result bool) :=
  now ← call gd_now;
  later_update fuel (now + seconds 10)%Z initial.

Definition valid_owner_snapshot (r : SnapshotResult) : bool :=
  match r with
  | SnapCaptured captured =>
      let snapshot := captured_snapshot captured in
      snap_synchronized snapshot && negb (snap_last_update_id snapshot =? 0)%Z
      && bool_decide (snap_symbol snapshot = "BTCUSDT")
      && negb (snap_bids_empty snapshot) && negb (snap_asks_empty snapshot)
      && negb (captured_on_thread captured =? gd_this_thread)%Z
  | _ => false
  end.

(** A recovery that is live in this generation. *)
Definition live_in (observation : RecoveryObservation) (generation : Z) : bool :=
  bool_decide (ro_state observation = RyLive) && negb (ro_terminal observation)
  && (ro_connection_generation observation =? generation)%Z.

(** ** [g5_spot_recovery_live] and [g6_spot_rotation_live] *)

(** The generation the recovery was asked for. *)
Definition wait_live (generation : Z) : Thread RecoveryObservation :=
  call (gd_wait_for_generation_live SpotProduct generation).

(** [recovery.stop(); return EXIT_FAILURE] *)
Definition stop_and_fail : Thread (result Z) := act gd_stop ;; failed.

(** The cut of the acceptance: its transport has ended cleanly in generation two and the
    runtime is still live. *)
Definition clean_transport (transport : TransportObservation) (connection_id : string) : bool :=
  to_stopped transport && negb (to_running transport)
  && negb (bool_decide (is_Some (to_terminal_error transport)))
  && (to_connection_generation transport =? 2)%Z
  && bool_decide (to_connection_id transport = connection_id)
  && to_tls_verified transport && to_websocket_handshake transport && to_rest_depth_fetched transport
  && (0 <? to_depth_frame_count transport)%Z.

Definition clean_runtime (runtime : RuntimeObservation) : bool :=
  bool_decide (obs_state runtime = RsLive) && bool_decide (obs_projection_status runtime = Synchronized)
  && negb (bool_decide (is_Some (obs_fault_reason runtime))).

(** The part the two mains share at the end: a later update, the cut and the snapshot.
    [label] is the name of the check; the continuation is the report. *)
Definition finish_generation_two (label : string) (last_id : Z) (second : RecoveryObservation)
  (report : QuiescentAcceptanceCut → string) : Thread (result Z) :=
  let* post_live := wait_for_later_real_update last_id in
  final_cut ← (if post_live : bool then call gd_quiesce else mret None);
  match final_cut with
  | None => say StdErr (line (label +:+ "=FAIL")) ;; stop_and_fail
  | Some cut =>
      let final_transport := quiescent_transport cut in
      let final_runtime := quiescent_runtime cut in
      if negb (clean_transport final_transport (ro_connection_id second))
         || negb (clean_runtime final_runtime && bool_decide (is_Some (obs_last_update_id final_runtime)))
      then
        say StdErr (line (label +:+ "=FAIL")) ;;
        print_terminal_error (to_terminal_error final_transport) ;;
        stop_and_fail
      else
        snapshot ← call gd_capture;
        act gd_stop ;;
        if negb (valid_owner_snapshot snapshot) then
          say StdErr (line (label +:+ "=FAIL")) ;; failed
        else say StdOut (report cut) ;; passed
  end.

(** From the start to a later update of generation one; [k] continues with the initial
    observation. *)
Definition first_generation (start_label : string) (rotation : option Z) (tail_check : Thread bool)
  (k : RecoveryObservation → Thread (result Z)) : Thread (result Z) :=
  started ← call (gd_start rotation);
  match started with
  | RtStarted =>
      initial ← wait_live 1;
      if negb (live_in initial 1) then print_terminal_error (ro_terminal_error initial) ;; stop_and_fail else
      observation ← call (gd_observe_runtime SpotProduct);
      match obs_last_update_id observation with
      | None => stop_and_fail
      | Some id =>
          initial_snapshot ← call gd_capture;
          let* initial_post_live := wait_for_later_real_update id in
          checked ← (if valid_owner_snapshot initial_snapshot && initial_post_live then tail_check
                     else mret false);
          if negb checked then say StdErr (line "REAL_INITIAL_GENERATION=FAIL") ;; stop_and_fail
          else k initial
      end
  | _ => say StdErr (line (start_label +:+ "=FAIL")) ;; failed
  end.

Definition recovery_report (tls_verified : bool) (initial recovered : RecoveryObservation)
  (cut : QuiescentAcceptanceCut) : string :=
  let final_runtime := quiescent_runtime cut in
  lines_of ["EXCHANGE_INFO_FETCH=PASS"; "TLS_VERIFY=" +:+ pass_fail tls_verified;
            "REAL_INITIAL_GENERATION=PASS"; "REAL_INITIAL_GENERATION_ID=1";
            "REAL_INITIAL_CONNECTION_ID=" +:+ ro_connection_id initial;
            "REAL_INITIAL_POST_LIVE_UPDATE=PASS"; "REAL_INITIAL_OWNER_SNAPSHOT=PASS";
            "CONTROLLED_REAL_RECOVERY=PASS"; "REAL_RECOVERED_GENERATION=2";
            "REAL_RECOVERED_CONNECTION_ID=" +:+ ro_connection_id recovered;
            "REAL_CONNECTION_ID_CHANGED=YES"; "REAL_RECOVERY_BOOTSTRAP=PASS";
            "REAL_RECOVERY_FINAL_PROJECTION_STATUS=" +:+ projection_status (obs_projection_status final_runtime);
            "REAL_RECOVERY_FINAL_RUNTIME_STATE=" +:+ runtime_state (obs_state final_runtime);
            "REAL_POST_RECOVERY_UPDATE=PASS"; "FINAL_RECOVERED_TRANSPORT_STOPPED=YES";
            "FINAL_RECOVERED_TRANSPORT_TERMINAL_ERROR=NO";
            "FINAL_RUNTIME_BARRIER_STATE=" +:+ runtime_state (obs_state final_runtime);
            "FINAL_RUNTIME_BARRIER_PROJECTION_STATUS=" +:+ projection_status (obs_projection_status final_runtime);
            "FINAL_RUNTIME_BARRIER_FAULT=NONE"; "REAL_POST_RECOVERY_OWNER_SNAPSHOT=PASS";
            "MAX_ACTIVE_TRANSPORTS=" +:+ pretty (ro_max_active_transport_count recovered);
            "REAL_RATE_LIMIT_ABUSE_ATTEMPTED=NO"].

Definition recovery_main : Thread (result Z) :=
  metadata ← fetch_metadata;
  match metadata with
  | None => failed
  | Some (response, _) =>
      first_generation "G5_RECOVERY_START" None (call (gd_request_recovery SpotProduct)) (λ initial,
        recovered ← wait_live 2;
        if negb (live_in recovered 2) || bool_decide (ro_connection_id recovered = ro_connection_id initial)
        then print_terminal_error (ro_terminal_error recovered) ;; stop_and_fail else
        observation ← call (gd_observe_runtime SpotProduct);
        match obs_last_update_id observation with
        | None => stop_and_fail
        | Some recovered_at =>
            finish_generation_two "CONTROLLED_REAL_RECOVERY" recovered_at recovered
              (recovery_report (info_tls_verified response) initial recovered)
        end)
  end.

Definition rotation_report (tls_verified : bool) (initial rotated : RecoveryObservation)
  (rotation_cut : PlannedRotationCut) (cut : QuiescentAcceptanceCut) : string :=
  let final_runtime := quiescent_runtime cut in
  lines_of ["EXCHANGE_INFO_FETCH=PASS"; "TLS_VERIFY=" +:+ pass_fail tls_verified;
            "REAL_INITIAL_GENERATION=1"; "REAL_INITIAL_LIVE=PASS";
            "REAL_INITIAL_CONNECTION_ID=" +:+ ro_connection_id initial;
            "REAL_INITIAL_POST_LIVE_UPDATE=PASS"; "REAL_INITIAL_OWNER_SNAPSHOT=PASS";
            "REAL_PLANNED_ROTATION_TRIGGERED=YES"; "REAL_ROTATION_CAUSE=PlannedRotation";
            "REAL_OLD_GENERATION_STOPPED=YES"; "REAL_OLD_GENERATION_TERMINAL_ERROR=NO";
            "REAL_PRE_RESET_RUNTIME_STATE=" +:+ runtime_state (obs_state (cut_runtime rotation_cut));
            "REAL_PRE_RESET_PROJECTION_STATUS="
              +:+ projection_status (obs_projection_status (cut_runtime rotation_cut));
            "REAL_PRE_RESET_FAULT=NONE"; "REAL_ROTATED_GENERATION=2";
            "REAL_ROTATED_CONNECTION_ID=" +:+ ro_connection_id rotated;
            "REAL_CONNECTION_ID_CHANGED=YES"; "REAL_ROTATED_BOOTSTRAP=PASS"; "REAL_ROTATED_LIVE=PASS";
            "REAL_POST_ROTATION_UPDATE=PASS"; "REAL_POST_ROTATION_OWNER_SNAPSHOT=PASS";
            "REAL_PLANNED_ROTATION_COUNT=" +:+ pretty (ro_planned_rotation_count rotated);
            "REAL_PLANNED_ROTATION_RECOVERY_ATTEMPTS=" +:+ pretty (ro_consecutive_recovery_attempts rotated);
            "FINAL_ACCEPTANCE_TRANSPORT_STOPPED=YES"; "FINAL_ACCEPTANCE_TERMINAL_ERROR=NO";
            "FINAL_ACCEPTANCE_RUNTIME_STATE=" +:+ runtime_state (obs_state final_runtime);
            "FINAL_ACCEPTANCE_PROJECTION_STATUS=" +:+ projection_status (obs_projection_status final_runtime);
            "FINAL_ACCEPTANCE_FAULT=NONE"; "FINAL_ACCEPTANCE_CREATED_LATER_GENERATION=NO";
            "MAX_ACTIVE_TRANSPORTS=" +:+ pretty (ro_max_active_transport_count rotated);
            "REAL_RATE_LIMIT_ABUSE_ATTEMPTED=NO"].

Definition rotation_main : Thread (result Z) :=
  metadata ← fetch_metadata;
  match metadata with
  | None => failed
  | Some (response, _) =>
      first_generation "G6_ROTATION_START" (Some (seconds 5)) (mret true) (λ initial,
        rotated ← wait_live 2;
        match ro_last_planned_rotation_cut rotated,
              live_in rotated 2 && negb (bool_decide (ro_connection_id rotated = ro_connection_id initial))
              && (1 <=? ro_planned_rotation_count rotated)%Z
              && (ro_consecutive_recovery_attempts rotated =? 0)%nat with
        | Some rotation_cut, true =>
            let old_generation_clean :=
              (cut_generation rotation_cut =? 1)%Z && to_stopped (cut_transport rotation_cut)
              && negb (to_running (cut_transport rotation_cut))
              && negb (bool_decide (is_Some (to_terminal_error (cut_transport rotation_cut))))
              && clean_runtime (cut_runtime rotation_cut) in
            if negb old_generation_clean then
              say StdErr (line "REAL_OLD_GENERATION_CUT=FAIL") ;; stop_and_fail
            else
            observation ← call (gd_observe_runtime SpotProduct);
            match obs_last_update_id observation with
            | None => stop_and_fail
            | Some rotated_at =>
                finish_generation_two "REAL_PLANNED_ROTATION" rotated_at rotated
                  (rotation_report (info_tls_verified response) initial rotated rotation_cut)
            end
        | _, _ => print_terminal_error (ro_terminal_error rotated) ;; stop_and_fail
        end)
  end.

(** ** [g4_spot_live] *)

(** [DecimalScale::value] *)
Context (scale_value : DecimalScale → Z).

(** The observations before the first one. *)
Definition no_observation : RuntimeObservation :=
  MkRuntimeObservation RsConstructed AwaitingBaseline None None None None None None None 0 0 0 0
    no_thread no_thread no_thread 0 0 0 None 0 0 false false false.

Definition has_error (transport : TransportObservation) : bool :=
  bool_decide (is_Some (to_terminal_error transport)).

(** The loop until the runtime is live: the last observation, and whether it is. *)
Fixpoint bootstrap_wait (rounds : nat) (deadline : Z) (last : RuntimeObservation)
  : Thread (result (bool * RuntimeObservation)) :=
  match rounds with
  | O => mret Unfinished
  | S rounds =>
      now ← call gd_now;
      if negb (now <? deadline)%Z then ok (false, last) else
      runtime ← call (gd_observe_runtime SpotProduct);
      transport ← call gd_observe_transport;
      if has_error transport || bool_decide (obs_state runtime = RsFaulted)
         || bool_decide (obs_state runtime = RsNeedsResync)
      then ok (false, runtime)
      else if bool_decide (obs_state runtime = RsLive) then ok (true, runtime)
      else act (gd_sleep (milliseconds 25)) ;; bootstrap_wait rounds deadline runtime
  end.

(** The loop until an update later than the bootstrap is applied. *)
Fixpoint post_live_wait (rounds : nat) (deadline bootstrap_last_update_id : Z) : Thread (result bool) :=
  match rounds with
  | O => mret Unfinished
  | S rounds =>
      now ← call gd_now;
      if negb (now <? deadline)%Z then ok false else
      runtime ← call (gd_observe_runtime SpotProduct);
      transport ← call gd_observe_transport;
      if has_error transport || negb (bool_decide (obs_state runtime = RsLive)) then ok false
      else if match obs_last_update_id runtime with
              | Some id => (bootstrap_last_update_id <? id)%Z
              | None => false
              end then ok true
      else act (gd_sleep (milliseconds 25)) ;; post_live_wait rounds deadline bootstrap_last_update_id
  end.

(** The loop until the server has sent a ping. *)
Fixpoint ping_wait (rounds : nat) (deadline : Z) : Thread (result ()) :=
  match rounds with
  | O => mret Unfinished
  | S rounds =>
      now ← call gd_now;
      if negb (now <? deadline)%Z then ok () else
      transport ← call gd_observe_transport;
      if to_server_ping_observed transport || has_error transport then ok ()
      else act (gd_sleep (milliseconds 50)) ;; ping_wait rounds deadline
  end.

Definition bootstrap_failure (what : string) (runtime : RuntimeObservation) : string :=
  line ("REAL_BOOTSTRAP=FAIL" +:+ what +:+ " projection_status="
        +:+ projection_status (obs_projection_status runtime)
        +:+ " runtime_state=" +:+ runtime_state (obs_state runtime)).

(** [transport.stop(); runtime.stop(); return EXIT_FAILURE] and its end. *)
Definition runtime_stop_and_fail : Thread (result Z) := act gd_runtime_stop ;; failed.
Definition both_stop_and_fail : Thread (result Z) := act gd_transport_stop ;; runtime_stop_and_fail.

Definition metadata_report (spot : SpotMetadata) : string :=
  lines_of ["EXCHANGE_INFO_FETCH=PASS"; "BTCUSDT_EXISTS=YES"; "BTCUSDT_STATUS=TRADING";
            "BTCUSDT_SPOT_ALLOWED=YES"; "PRICE_FILTER_TICK_SIZE=" +:+ tick_size spot;
            "LOT_SIZE_STEP_SIZE=" +:+ step_size spot;
            "DERIVED_PRICE_SCALE=" +:+ pretty (scale_value (price_scale spot));
            "DERIVED_QUANTITY_SCALE=" +:+ pretty (scale_value (quantity_scale spot))].

Definition live_report (tls_verified : bool) (transport : TransportObservation)
  (runtime : RuntimeObservation) (snapshot : LocalOrderBookSnapshot) : string :=
  lines_of ["TLS_VERIFY=" +:+ pass_fail (tls_verified && to_tls_verified transport);
            "WS_HANDSHAKE=" +:+ pass_fail (to_websocket_handshake transport);
            "WS_STREAM=btcusdt@depth@100ms";
            "REAL_DEPTH_FRAMES_RECEIVED=" +:+ pretty (to_depth_frame_count transport);
            "CONNECTION_GENERATION=" +:+ pretty (to_connection_generation transport);
            "CONNECTION_ID=" +:+ to_connection_id transport;
            "REST_DEPTH_FETCH=" +:+ pass_fail (to_rest_depth_fetched transport);
            "REST_DEPTH_LIMIT=5000"; "REAL_BOOTSTRAP=PASS";
            "FINAL_PROJECTION_STATUS=" +:+ projection_status (obs_projection_status runtime);
            "FINAL_RUNTIME_STATE=" +:+ runtime_state (obs_state runtime);
            "POST_LIVE_REAL_UPDATE=PASS"; "REAL_OWNER_SNAPSHOT_CAPTURE=PASS";
            "OWNER_SNAPSHOT_LAST_UPDATE_ID=" +:+ pretty (snap_last_update_id snapshot);
            "SERVER_PING_OBSERVED=" +:+ YES_NO (to_server_ping_observed transport);
            "FINAL_TRANSPORT_TERMINAL_ERROR=NO"].

(** From the capture of the snapshot to the end. *)
Definition live_snapshot (tls_verified : bool) (transport : TransportObservation)
  (runtime : RuntimeObservation) : Thread (result Z) :=
  captured ← call gd_capture;
  match captured with
  | SnapCaptured captured =>
      let snapshot := captured_snapshot captured in
      if negb (snap_synchronized snapshot) || (snap_last_update_id snapshot =? 0)%Z
         || negb (bool_decide (snap_symbol snapshot = "BTCUSDT"))
         || snap_bids_empty snapshot || snap_asks_empty snapshot
      then say StdErr (line "REAL_OWNER_SNAPSHOT_CAPTURE=FAIL invalid_snapshot") ;; runtime_stop_and_fail
      else
        say StdOut (live_report tls_verified transport runtime snapshot) ;;
        act gd_runtime_stop ;; passed
  | _ => say StdErr (line "REAL_OWNER_SNAPSHOT_CAPTURE=FAIL") ;; runtime_stop_and_fail
  end.

(** From the transport that has started to the end. *)
Definition live_transport (tls_verified : bool) : Thread (result Z) :=
  now ← call gd_now;
  let* bootstrap := bootstrap_wait fuel (now + seconds 20)%Z no_observation in
  let '(live, runtime) := bootstrap in
  match obs_last_update_id runtime, live with
  | Some bootstrap_last_update_id, true =>
      now ← call gd_now;
      let* post_live_update := post_live_wait fuel (now + seconds 10)%Z bootstrap_last_update_id in
      if negb post_live_update then
        say StdErr (line "POST_LIVE_REAL_UPDATE=FAIL") ;; both_stop_and_fail
      else
      now ← call gd_now;
      run* ping_wait fuel (now + seconds 25)%Z in
      act gd_transport_stop ;;
      final_transport ← call gd_observe_transport;
      runtime ← call (gd_observe_runtime SpotProduct);
      if negb (live_acceptance_ready final_transport runtime) then
        print_terminal_error (to_terminal_error final_transport) ;;
        say StdErr (bootstrap_failure " final_transport_or_runtime" runtime) ;;
        runtime_stop_and_fail
      else live_snapshot tls_verified final_transport runtime
  | _, _ =>
      transport ← call gd_observe_transport;
      print_terminal_error (to_terminal_error transport) ;;
      say StdErr (bootstrap_failure "" runtime) ;;
      both_stop_and_fail
  end.

Definition live_main : Thread (result Z) :=
  metadata ← fetch_metadata;
  match metadata with
  | None => failed
  | Some (response, spot) =>
      say StdOut (metadata_report spot) ;;
      started ← call gd_runtime_start;
      match started with
      | SrStarted =>
          started ← call gd_transport_start;
          match started with
          | TsStarted => live_transport (info_tls_verified response)
          | _ =>
              observation ← call gd_observe_transport;
              print_terminal_error (to_terminal_error observation) ;;
              both_stop_and_fail
          end
      | _ => say StdErr (line "MARKET_RUNTIME_START=FAIL") ;; failed
      end
  end.

(** ** [g7_spot_grpc_live] *)

(** [canonical_item] *)
Definition canonical_item {Body} (item : Received Body) (gateway_instance_id subscription_id : string)
  (expected_sequence : Z) : bool :=
  match delivery_metadata_of item with
  | None => false
  | Some metadata =>
      negb (has_envelope_metadata item)
      && bool_decide (dm_protocol_version metadata = kProtocolVersion)
      && bool_decide (dm_gateway_instance_id metadata = gateway_instance_id)
      && bool_decide (dm_subscription_id metadata = subscription_id)
      && (dm_session_sequence metadata =? expected_sequence)%Z
      && negb (dm_publish_time_utc_ns metadata =? 0)%Z
  end.

(** The generation of a message, when it has one. *)
Definition generation_of {Body} (item : Received Body) : option Z :=
  delivery_metadata_of item ≫= dm_connection_generation.

Definition read_book : Thread (option (Received (StreamItemBody Snapshot))) :=
  call (rc_read_book SpotBook).

(** The three reads: the generations of the snapshot and of the update when all is valid. *)
Definition read_first_three (gateway_instance_id : string) (generation : Z)
  : Thread (option (Z * Z)) :=
  accepted ← read_book;
  match accepted with
  | Some accepted =>
      let subscription_id := default EmptyString (dm_subscription_id <$> delivery_metadata_of accepted) in
      match body_of accepted ≫= subscription_accepted with
      | Some a =>
          if negb (canonical_item accepted gateway_instance_id subscription_id 1
                   && negb (bool_decide (is_Some (generation_of accepted)))
                   && bool_decide (acc_schema_version a = kSubscriptionAcceptedSchema)
                   && bool_decide (acc_gateway_instance_id a = gateway_instance_id)
                   && bool_decide (acc_subscription_id a = subscription_id)
                   && bool_decide (length (negotiated_payload_schema_versions a) = 2))
          then mret None else
          item ← read_book;
          match item ≫= λ item, (λ s, (item, s)) <$> (body_of item ≫= snapshot_part) with
          | Some (item, snapshot) =>
              if negb (canonical_item item gateway_instance_id subscription_id 2
                       && bool_decide (generation_of item = Some generation)
                       && bool_decide (snap_schema_version snapshot = kSnapshotSchema)
                       && bool_decide (snap_symbol snapshot = "BTCUSDT")
                       && snap_synchronized snapshot && negb (snap_last_update_id snapshot =? 0)%Z
                       && negb (snap_bids_empty snapshot) && negb (snap_asks_empty snapshot))
              then mret None else
              item' ← read_book;
              match item' ≫= λ item, (λ u, (item, u)) <$> (body_of item ≫= depth_update) with
              | Some (item', update) =>
                  if negb (canonical_item item' gateway_instance_id subscription_id 3
                           && bool_decide (generation_of item' = Some generation)
                           && bool_decide (md_symbol (du_metadata update) = "BTCUSDT")
                           && bool_decide (md_schema_version (du_metadata update) = kUpdateSchema)
                           && (snap_last_update_id snapshot <? final_update_id update)%Z)
                  then mret None
                  else mret (Some (default 0%Z (generation_of item), default 0%Z (generation_of item')))
              | None => mret None
              end
          | None => mret None
          end
      | None => mret None
      end
  | None => mret None
  end.

Definition no_subscribers : Thread bool :=
  (λ o, (obs_resident_subscription_count o =? 0)%nat) <$> call (gd_observe_runtime SpotProduct).

(** [wait_for_subscriber_removal] *)
Fixpoint subscriber_removal (rounds : nat) (deadline : Z) : Thread (result bool) :=
  match rounds with
  | O => mret Unfinished
  | S rounds =>
      now ← call gd_now;
      if negb (now <? deadline)%Z then always no_subscribers else
      removed ← no_subscribers;
      if removed : bool then ok true
      else act (gd_sleep (milliseconds 10)) ;; subscriber_removal rounds deadline
  end.

Definition wait_for_subscriber_removal : Thread (result bool) :=
  now ← call gd_now;
  subscriber_removal fuel (now + seconds 5)%Z.

(** The rest of a stream that is cancelled, then its status. *)
Definition drain_book (stream : StreamName) : Thread (result ClientStatus) :=
  run* drain ((λ item, bool_decide (is_Some item)) <$> call (rc_read_book stream)) fuel in
  always (call (rc_finish stream)).

Definition drain_event (stream : StreamName) : Thread (result ClientStatus) :=
  run* drain ((λ item, bool_decide (is_Some item)) <$> call (rc_read_event stream)) fuel in
  always (call (rc_finish stream)).

(** [client_cancel_status] *)
Definition client_cancel_status (status : ClientStatus) : bool :=
  client_ok status || (error_code status =? kCancelled)%Z.

Definition grpc_report (tls_verified : bool) (initial : RecoveryObservation) (generations : Z * Z) : string :=
  lines_of ["EXCHANGE_INFO_FETCH=PASS"; "TLS_VERIFY=" +:+ pass_fail tls_verified; "REAL_G7_ACCEPTANCE=PASS";
            "REAL_INITIAL_GENERATION=" +:+ pretty (ro_connection_generation initial);
            "REAL_ACCEPTED_SEQUENCE=1"; "REAL_SNAPSHOT_SEQUENCE=2"; "REAL_FIRST_UPDATE_SEQUENCE=3";
            "REAL_SESSION_SEQUENCE_CONTIGUOUS=YES";
            "REAL_SNAPSHOT_GENERATION=" +:+ pretty (fst generations);
            "REAL_UPDATE_GENERATION=" +:+ pretty (snd generations);
            "REAL_POST_SNAPSHOT_UPDATE=PASS"; "REAL_CLIENT_DISCONNECT=PASS"; "REAL_SUBSCRIBER_REMOVED=YES";
            "REAL_GRPC_SHUTDOWN=PASS"; "REAL_GATEWAY_SHUTDOWN=PASS"; "REAL_SLOW_CLIENT_OVERFLOW_ATTEMPTED=NO";
            "REAL_RATE_LIMIT_ABUSE_ATTEMPTED=NO"].

(** From the recovery that is live to the end. *)
Definition serve_book (tls_verified : bool) (initial : RecoveryObservation) : Thread (result Z) :=
  gateway_instance_id ← call gd_instance_id;
  serving ← call (gd_server_start "127.0.0.1:0");
  if negb serving then say StdErr (line "G7_GRPC_START=FAIL") ;; stop_and_fail else
  now ← call rc_system_now;
  act (rc_subscribe_book SpotBook (now + seconds 45)%Z (book_request MARKET_SPOT "g7-real-acceptance")) ;;
  generations ← read_first_three gateway_instance_id (ro_connection_generation initial);
  act (rc_try_cancel SpotBook) ;;
  let* finish := drain_book SpotBook in
  let client_disconnected := client_cancel_status finish in
  let* subscriber_removed := wait_for_subscriber_removal in
  act gd_server_shutdown ;;
  admission_open ← call gd_admission_open;
  no_contexts ← and_then (negb admission_open) ((λ n, (n =? 0)%nat) <$> call gd_tracked_contexts);
  grpc_shutdown ← and_then no_contexts
                    (obs_publication_shutdown <$> call (gd_observe_runtime SpotProduct));
  act gd_stop ;;
  runtime ← call (gd_observe_runtime SpotProduct);
  let gateway_shutdown := bool_decide (obs_state runtime = RsStopped) in
  match generations, client_disconnected && subscriber_removed && grpc_shutdown && gateway_shutdown with
  | Some generations, true => say StdOut (grpc_report tls_verified initial generations) ;; passed
  | _, _ =>
      say StdErr (line ("REAL_G7_ACCEPTANCE=FAIL stream_valid="
                        +:+ digit (bool_decide (is_Some generations))
                        +:+ " client_disconnected=" +:+ digit client_disconnected
                        +:+ " subscriber_removed=" +:+ digit subscriber_removed
                        +:+ " grpc_shutdown=" +:+ digit grpc_shutdown
                        +:+ " gateway_shutdown=" +:+ digit gateway_shutdown)) ;;
      failed
  end.

(** From the metadata to the recovery that is live, of this driver and of the next. *)
Definition start_recovery (label : string) (k : RecoveryObservation → Thread (result Z)) : Thread (result Z) :=
  started ← call (gd_start (Some kPlannedRotationAge));
  match started with
  | RtStarted =>
      initial ← wait_live 1;
      if negb (live_in initial 1) then print_terminal_error (ro_terminal_error initial) ;; stop_and_fail
      else k initial
  | _ => say StdErr (line (label +:+ "_RECOVERY_START=FAIL")) ;; failed
  end.

Definition grpc_main : Thread (result Z) :=
  metadata ← fetch_metadata;
  match metadata with
  | None => failed
  | Some (response, _) => start_recovery "G7" (serve_book (info_tls_verified response))
  end.

(** ** [g9_spot_events_live] *)

Definition kRpcDeadline : Z := seconds 60.

(** A session and the status it finished with. *)
Abbreviation Session := (SpotEvents.SessionEvidence * ClientStatus)%type.

(** The loops that read a session while [more]. *)
Fixpoint read_session (rounds : nat) (more : SpotEvents.SessionEvidence → bool)
  (gateway_instance_id : string) (generation stream : Z) (e : SpotEvents.SessionEvidence)
  : Thread (result SpotEvents.SessionEvidence) :=
  match rounds with
  | O => mret Unfinished
  | S rounds =>
      if negb (more e) then ok e else
      item ← call (rc_read_event SpotEvent);
      match item with
      | Some item =>
          read_session rounds more gateway_instance_id generation stream
            (SpotEvents.accept_round gateway_instance_id generation stream e item)
      | None => ok e
      end
  end.

Definition subscribe_session (stream : Z) (request_id : string) : Thread () :=
  now ← call rc_system_now;
  act (rc_subscribe_events SpotEvent (now + kRpcDeadline)%Z (spot_event_request stream request_id)).

(** Fewer events than required, and all of them valid. *)
Definition fewer_than (required_events : nat) (e : SpotEvents.SessionEvidence) : bool :=
  SpotEvents.valid e && (SpotEvents.event_count e <? required_events)%nat.

(** [evidence.valid] at the end of [run_finite_session]. *)
Definition valid_session (required_events : nat) (s : Session) : bool :=
  let '(e, status) := s in
  SpotEvents.valid e && SpotEvents.accepted e && (required_events <=? SpotEvents.event_count e)%nat
  && negb (SpotEvents.crossed_generation e) && client_cancel_status status.

(** [run_finite_session], to its [valid]. *)
Definition run_finite_session (stream generation : Z) (required_events : nat)
  (gateway_instance_id request_id : string) : Thread (result bool) :=
  subscribe_session stream request_id ;;
  let* e := read_session fuel (fewer_than required_events) gateway_instance_id generation stream
              SpotEvents.no_evidence in
  act (rc_try_cancel SpotEvent) ;;
  let* status := drain_event SpotEvent in
  ok (valid_session required_events (e, status)).

Definition event_subscribers (expected : nat) : Thread bool :=
  (λ o, (obs_active_subscriptions o =? expected)%nat) <$> call (gd_observe_events SpotProduct).

(** [wait_for_event_subscribers]: the loop tests its deadline last. *)
Fixpoint await_event_subscribers (rounds : nat) (deadline : Z) (expected : nat) : Thread (result bool) :=
  match rounds with
  | O => mret Unfinished
  | S rounds =>
      there ← event_subscribers expected;
      if there : bool then ok true else
      act (gd_sleep (milliseconds 5)) ;;
      now ← call gd_now;
      if (now <? deadline)%Z then await_event_subscribers rounds deadline expected
      else always (event_subscribers expected)
  end.

Definition wait_for_event_subscribers (expected : nat) : Thread (result bool) :=
  now ← call gd_now;
  await_event_subscribers fuel (now + seconds 5)%Z expected.

(** The session of generation one that a controlled recovery ends: whether the recovery was
    requested, and whether the session ended as it must. *)
Definition recovered_session (gateway_instance_id : string) : Thread (result (bool * bool)) :=
  subscribe_session STREAM_AGG_TRADE "g9-recovery-generation-1" ;;
  let* old := read_session fuel (fewer_than 1) gateway_instance_id 1 STREAM_AGG_TRADE
                SpotEvents.no_evidence in
  controlled_requested ← and_then (SpotEvents.valid old && (1 <=? SpotEvents.event_count old)%nat)
                           (call (gd_request_recovery SpotProduct));
  let* old := read_session fuel
                (λ e, controlled_requested && SpotEvents.valid e && negb (SpotEvents.terminal e))
                gateway_instance_id 1 STREAM_AGG_TRADE old in
  let* status := drain_event SpotEvent in
  ok (controlled_requested,
      SpotEvents.valid old && SpotEvents.accepted old && SpotEvents.terminal old
      && bool_decide (SpotEvents.terminal_generation old = Some 1%Z)
      && negb (SpotEvents.crossed_generation old) && client_ok status).

(** What the report of a failure prints, and what decides. *)
Record EventsEvidence : Type := MkEventsEvidence {
  ee_depth : bool;
  ee_trade : bool;
  ee_ticker : bool;
  ee_controlled_requested : bool;
  ee_old_valid : bool;
  ee_generation_two : bool;
  ee_second : RecoveryObservation;
  ee_connection_changed : bool;
  ee_fresh : bool;
  ee_event_subscribers : nat;
  ee_grpc_contexts : nat
}.

Definition events_failure (e : EventsEvidence) : string :=
  line ("REAL_G9_ACCEPTANCE=FAIL depth=" +:+ digit (ee_depth e) +:+ " trade=" +:+ digit (ee_trade e)
        +:+ " ticker=" +:+ digit (ee_ticker e) +:+ " controlled=" +:+ digit (ee_controlled_requested e)
        +:+ " old=" +:+ digit (ee_old_valid e) +:+ " generation_two=" +:+ digit (ee_generation_two e)
        +:+ " second_state=" +:+ pretty (recovery_state_number (ro_state (ee_second e)))
        +:+ " second_generation=" +:+ pretty (ro_connection_generation (ee_second e))
        +:+ " second_terminal=" +:+ digit (ro_terminal (ee_second e))
        +:+ " connection_changed=" +:+ digit (ee_connection_changed e)
        +:+ " fresh=" +:+ digit (ee_generation_two e && ee_fresh e)
        +:+ " event_subscribers=" +:+ pretty (ee_event_subscribers e)
        +:+ " grpc_contexts=" +:+ pretty (ee_grpc_contexts e)).

Definition events_report (before_shutdown : RecoveryObservation)
  (event_subscribers order_book_subscribers grpc_contexts : nat) : string :=
  lines_of ["REAL_DIFF_DEPTH=PASS"; "REAL_AGG_TRADE=PASS"; "REAL_BOOK_TICKER=PASS";
            "REAL_CONTROLLED_RECOVERY=PASS"; "REAL_OLD_SESSION_CROSSED_GEN2=NO";
            "MAX_ACTIVE_TRANSPORTS=" +:+ pretty (ro_max_active_transport_count before_shutdown);
            "FINAL_TRANSPORT_ACTIVE=NO"; "FINAL_EVENT_SUBSCRIBERS=" +:+ pretty event_subscribers;
            "FINAL_ORDER_BOOK_SUBSCRIBERS=" +:+ pretty order_book_subscribers;
            "FINAL_GRPC_CONTEXTS=" +:+ pretty grpc_contexts; "FINAL_RUNTIME_STATE=Stopped"].

(** From the sessions that ended to the end of the driver. *)
Definition events_end (e : EventsEvidence) (valid_so_far : bool) : Thread (result Z) :=
  before_shutdown ← call (gd_observe_recovery SpotProduct);
  act gd_server_shutdown ;;
  contexts ← call gd_tracked_contexts;
  events ← call (gd_observe_events SpotProduct);
  runtime ← call (gd_observe_runtime SpotProduct);
  let order_book_subscribers := obs_resident_subscription_count runtime in
  act gd_stop ;;
  final_recovery ← call (gd_observe_recovery SpotProduct);
  final_runtime ← call (gd_observe_runtime SpotProduct);
  let e := MkEventsEvidence (ee_depth e) (ee_trade e) (ee_ticker e) (ee_controlled_requested e)
             (ee_old_valid e) (ee_generation_two e) (ee_second e) (ee_connection_changed e) (ee_fresh e)
             (obs_active_subscriptions events) contexts in
  if negb (valid_so_far && ee_depth e && ee_trade e && ee_ticker e && ee_controlled_requested e
           && ee_old_valid e && ee_generation_two e && ee_fresh e
           && (ro_max_active_transport_count before_shutdown <=? 1)%nat
           && (ro_active_transport_count final_recovery =? 0)%nat
           && (ee_grpc_contexts e =? 0)%nat && (ee_event_subscribers e =? 0)%nat
           && (order_book_subscribers =? 0)%nat && bool_decide (obs_state final_runtime = RsStopped))
  then
    say StdErr (events_failure e) ;;
    print_terminal_error (ro_terminal_error (ee_second e)) ;;
    failed
  else
    say StdOut (events_report before_shutdown (ee_event_subscribers e) order_book_subscribers
                  (ee_grpc_contexts e)) ;;
    passed.

(** From the recovery that is live to the end. *)
Definition serve_events (tls_verified : bool) (gateway_instance_id : string)
  (initial : RecoveryObservation) : Thread (result Z) :=
  serving ← call (gd_server_start "127.0.0.1:0");
  if negb serving then say StdErr (line "G9_GRPC_START=FAIL") ;; stop_and_fail else
  let* depth := run_finite_session STREAM_DIFF_DEPTH 1 2 gateway_instance_id "g9-depth" in
  let* trade := run_finite_session STREAM_AGG_TRADE 1 2 gateway_instance_id "g9-trade" in
  let* ticker := run_finite_session STREAM_BOOK_TICKER 1 2 gateway_instance_id "g9-ticker" in
  let* initial_subscribers_removed := wait_for_event_subscribers 0 in
  let* old := recovered_session gateway_instance_id in
  let '(controlled_requested, old_valid) := old in
  second ← wait_live 2;
  let connection_changed := negb (bool_decide (ro_connection_id second = ro_connection_id initial)) in
  let generation_two := live_in second 2 && connection_changed in
  let* fresh := (if generation_two
                 then run_finite_session STREAM_BOOK_TICKER 2 1 gateway_instance_id "g9-generation-2"
                 else ok true) in
  let* final_session_removed := wait_for_event_subscribers 0 in
  events_end (MkEventsEvidence depth trade ticker controlled_requested old_valid generation_two second
                connection_changed fresh 0 0)
    (tls_verified && initial_subscribers_removed && final_session_removed).

Definition events_main : Thread (result Z) :=
  metadata ← fetch_metadata;
  match metadata with
  | None => failed
  | Some (response, _) =>
      gateway_instance_id ← call gd_instance_id;
      start_recovery "G9" (serve_events (info_tls_verified response) gateway_instance_id)
  end.
End Code.
