(* ===== verification/TwoMarketDriver.v ===== *)
(** * TwoMarketDriver: the acceptance driver of the two products

    Models the main of [src/app/g11_multi_market_live] with its helpers: both products are
    started and must be live, a client subscribes to both order books and to the USD-M
    events, the USD-M recovery is asked for a new generation while Spot goes on, the USD-M
    streams are subscribed to anew, and all is stopped.  The gateway is the parameter
    [Gateway] of [Drivers], the client the [RpcClient] of [AcceptanceClient]; the readers
    of the streams are those of [StreamClient].  What holds of this main is with the other
    drivers' in [DriverSafety]. *)

From Stdlib Require Import Ascii.
From S2P Require Import Prelude Ring Wire Text Json Session OrderBookPublication Projection.
From S2P Require Import EventPublication MarketRuntime Recovery Config SpotProtocol UsdmProtocol Network.
From S2P Require Import Transport Registry GrpcRequests Programs GatewayStatus GrpcService GatewayLifecycle.
From S2P Require Import GrpcStreams Daemon Diagnostics Acceptance StreamClient Raising ChildProcess.
From S2P Require Import AcceptanceClient Drivers.

Open Scope gateway_scope.

Definition kStreamDeadline : Z := seconds 120.

Section Code.
Context `{W : WireEnums} `{L : ProjectionLibrary} `{N : NumericLibrary} `{Jl : JsonLibrary}.
Context {Snapshot : Type} `{SM : !SnapshotMessage Snapshot}.
Context {X : Type} `{G : !Gateway X} `{R : !RpcClient Snapshot X}.
Abbreviation Thread := (prog X).
Context (fuel : nat).

Definition print_product_error (product : string) (error : NetworkError) : Thread () :=
  say StdErr (network_error_report (" product=" +:+ product) error).

(** [print_recovery_error] *)
Definition print_recovery_error (product : string) (observation : RecoveryObservation) : Thread () :=
  match ro_terminal_error observation with
  | Some error => print_product_error product error
  | None => mret ()
  end.

(** The exchange information of one product; [label] starts the report of a parse failure. *)
Definition fetch_product (product : Product) (name label : string)
  (parse : string → SpotMetadata + ProtocolError) : Thread (option ExchangeInfoResponse) :=
  exchange_info ← call (gd_fetch product);
  match exchange_info with
  | inr failure => print_product_error name failure ;; mret None
  | inl response =>
      match parse (info_body response) with
      | inr failure =>
          say StdErr (line (label +:+ "_EXCHANGE_INFO_PARSE=FAIL field=" +:+ pe_field failure
                            +:+ " message=" +:+ pe_message failure)) ;;
          mret None
      | inl _ => mret (Some response)
      end
  end.

(** ** The client *)

Definition read_more (stream : StreamName) : Thread bool :=
  (λ item, bool_decide (is_Some item)) <$> call (rc_read_book stream).
Definition read_more_events (stream : StreamName) : Thread bool :=
  (λ item, bool_decide (is_Some item)) <$> call (rc_read_event stream).

(** [cancel_and_finish], of the two kinds of stream. *)
Definition cancel_and_finish (Read : Thread bool) (stream : StreamName) : Thread (result ClientStatus) :=
  act (rc_try_cancel stream) ;;
  run* drain Read fuel in
  always (call (rc_finish stream)).

Definition cancel_book (stream : StreamName) : Thread (result ClientStatus) :=
  cancel_and_finish (read_more stream) stream.
Definition cancel_events (stream : StreamName) : Thread (result ClientStatus) :=
  cancel_and_finish (read_more_events stream) stream.

(** [context.set_deadline(now + kStreamDeadline)] *)
Definition stream_deadline : Thread Z := (λ now, (now + kStreamDeadline)%Z) <$> call rc_system_now.

(** A reader that may still be reading. *)
Definition finished {A} (p : Thread (option A)) : Thread (result A) :=
  r ← p;
  mret (match r with Some a => Ok a | None => Unfinished end).

(** [run_fresh_usdm_order_book] *)
Definition run_fresh_usdm_order_book (gateway_instance_id : string)
  : Thread (result (OrderBookEvidence * bool)) :=
  deadline ← stream_deadline;
  act (rc_subscribe_book FreshUsdmBook deadline (book_request MARKET_USD_M_PERPETUAL "g11-usdm-book-g2")) ;;
  head ← read_order_book_head (call (rc_read_book FreshUsdmBook)) MARKET_USD_M_PERPETUAL 2
           gateway_instance_id no_order_book_evidence;
  let* status := cancel_book FreshUsdmBook in
  ok (fst head, snd head && client_cancel_status status).

(** [run_fresh_usdm_event] *)
Definition run_fresh_usdm_event (gateway_instance_id : string) : Thread (result (EventEvidence * bool)) :=
  deadline ← stream_deadline;
  act (rc_subscribe_events FreshUsdmEvent deadline (usdm_event_request "g11-usdm-event-g2")) ;;
  head ← read_usdm_event_head (call (rc_read_event FreshUsdmEvent)) 2 gateway_instance_id no_event_evidence;
  let* status := cancel_events FreshUsdmEvent in
  ok (fst head, snd head && client_cancel_status status).

(** [collect_status]: one market of the response is live with this generation and has this
    many subscriptions. *)
Definition market_counted (status : MarketStatus) (market generation subscriptions : Z) : bool :=
  market_live status market generation && (ms_active_subscription_count status =? subscriptions)%Z.

Definition collect_status (gateway_instance_id request_id : string)
  (spot_generation usdm_generation spot_subscriptions usdm_subscriptions : Z) : Thread bool :=
  now ← call rc_system_now;
  answer ← call (rc_status (now + seconds 10)%Z (MkGatewayStatusRequest request_id kStatusRequestSchema));
  let '(status, response) := answer in
  mret (client_ok status && bool_decide (gs_schema_version response = kStatusSnapshotSchema)
        && bool_decide (gs_gateway_instance_id response = gateway_instance_id)
        && match gs_markets response with
           | [spot; usdm] =>
               market_counted spot MARKET_SPOT spot_generation spot_subscriptions
               && market_counted usdm MARKET_USD_M_PERPETUAL usdm_generation usdm_subscriptions
           | _ => false
           end
        && (gs_total_active_subscriptions response =? u64_wrap (spot_subscriptions + usdm_subscriptions))%Z).

(** [wait_for]: the loop tests its deadline last. *)
Fixpoint await (rounds : nat) (predicate : Thread bool) (deadline : Z) : Thread (result bool) :=
  match rounds with
  | O => mret Unfinished
  | S rounds =>
      there ← predicate;
      if there : bool then ok true else
      act (gd_sleep (milliseconds 10)) ;;
      now ← call gd_now;
      if (now <? deadline)%Z then await rounds predicate deadline else always predicate
  end.

Definition wait_for (predicate : Thread bool) (timeout : Z) : Thread (result bool) :=
  now ← call gd_now;
  await fuel predicate (now + timeout)%Z.

(** [b && p] for what may not end. *)
Definition and_run (b : bool) (p : Thread (result bool)) : Thread (result bool) :=
  if b then p else ok false.

(** ** The main *)

Definition observe_recovery (product : Product) : Thread RecoveryObservation :=
  call (gd_observe_recovery product).
Definition observe_runtime (product : Product) : Thread RuntimeObservation :=
  call (gd_observe_runtime product).

(** No subscriber of the order book, or of the events. *)
Definition no_book_subscribers (product : Product) : Thread bool :=
  (λ o, (obs_resident_subscription_count o =? 0)%nat) <$> observe_runtime product.
Definition no_event_subscribers (product : Product) : Thread bool :=
  (λ o, (obs_active_subscriptions o =? 0)%nat) <$> call (gd_observe_events product).

Definition synchronized (o : RuntimeObservation) : bool :=
  bool_decide (obs_state o = RsLive) && bool_decide (obs_projection_status o = Synchronized).

(** The first generation of both products. *)
Definition initial_live (spot usdm : RecoveryObservation) (spot_runtime usdm_runtime : RuntimeObservation)
  : bool :=
  live_in spot 1 && live_in usdm 1 && synchronized spot_runtime && synchronized usdm_runtime
  && negb (obs_owner_thread_id spot_runtime =? no_thread)%Z
  && negb (obs_owner_thread_id usdm_runtime =? no_thread)%Z
  && negb (obs_owner_thread_id spot_runtime =? obs_owner_thread_id usdm_runtime)%Z
  && (ro_active_transport_count spot =? 1)%nat && (ro_active_transport_count usdm =? 1)%nat.

(** The three streams of generation one. *)
Record Streams : Type := MkStreams {
  spot_book : OrderBookEvidence;
  usdm_book : OrderBookEvidence;
  usdm_event : EventEvidence
}.

(** [initial_streams]; a head that fails leaves the streams after it unread. *)
Definition read_streams (gateway_instance_id : string) : Thread (Streams * bool) :=
  spot ← read_order_book_head (call (rc_read_book SpotBook)) MARKET_SPOT 1 gateway_instance_id
           no_order_book_evidence;
  if negb (snd spot) then mret (MkStreams (fst spot) no_order_book_evidence no_event_evidence, false) else
  usdm ← read_order_book_head (call (rc_read_book UsdmBook)) MARKET_USD_M_PERPETUAL 1 gateway_instance_id
           no_order_book_evidence;
  if negb (snd usdm) then mret (MkStreams (fst spot) (fst usdm) no_event_evidence, false) else
  event ← read_usdm_event_head (call (rc_read_event UsdmEvent)) 1 gateway_instance_id no_event_evidence;
  mret (MkStreams (fst spot) (fst usdm) (fst event),
        snd event && bool_decide (ss_subscription_id (ob_sequence (fst spot)) = "ob-1")
        && bool_decide (ss_subscription_id (ob_sequence (fst usdm)) = "ob-1")
        && bool_decide (ss_subscription_id (ev_sequence (fst event)) = "ev-1")).

(** What the main found of the recovery. *)
Record Recovered : Type := MkRecovered {
  recovery_requested : bool;
  recovery_window : bool;
  spot_continued : bool;
  old_book_cut : bool;
  old_book_status : ClientStatus;
  old_event_cut : bool;
  old_event_status : ClientStatus;
  usdm_recovered : RecoveryObservation;
  usdm_runtime_after : RuntimeObservation;
  spot_after : RecoveryObservation;
  spot_runtime_before : RuntimeObservation;
  spot_runtime_after : RuntimeObservation;
  isolation : bool
}.

(** A stream that must end at its cut: its [Finish], after a cancellation when it did not. *)
Definition finish_cut (cut : bool) (cancel : Thread (result ClientStatus)) (stream : StreamName)
  : Thread (result ClientStatus) :=
  if cut then always (call (rc_finish stream)) else cancel.

Definition in_recovery : Thread bool :=
  (λ o, bool_decide (ro_state o = RyBackoff) || bool_decide (ro_state o = RyRecovering))
    <$> observe_recovery UsdmProduct.

(** From the request of the recovery to [isolation]. *)
Definition recover_usdm (gateway_instance_id : string) (initial_status : bool) (streams : Streams)
  (usdm_initial : RecoveryObservation) : Thread (result Recovered) :=
  spot_before ← observe_recovery SpotProduct;
  spot_runtime_before ← observe_runtime SpotProduct;
  requested ← and_then (initial_status && bool_decide (is_Some (obs_last_update_id spot_runtime_before)))
                (call (gd_request_recovery UsdmProduct));
  let* window := and_run requested (wait_for in_recovery (seconds 10)) in
  spot_runtime_during ← observe_runtime SpotProduct;
  let spot_update_cut := default 0%Z (obs_last_update_id spot_runtime_during) in
  let* continued :=
    and_run (window && negb (spot_update_cut =? 0)%Z)
      (let* r := finished (read_spot_update_after (call (rc_read_book SpotBook)) fuel 1 spot_update_cut
                             gateway_instance_id (spot_book streams)) in ok (snd r)) in
  let* book_cut :=
    and_run requested
      (let* r := finished (read_order_book_recovery_cut (call (rc_read_book UsdmBook)) fuel
                             MARKET_USD_M_PERPETUAL 1 gateway_instance_id (usdm_book streams)) in
       ok (snd r)) in
  let* book_status := finish_cut book_cut (cancel_book UsdmBook) UsdmBook in
  let* event_cut :=
    and_run requested
      (let* r := finished (read_event_generation_cut (call (rc_read_event UsdmEvent)) fuel 1
                             gateway_instance_id (usdm_event streams)) in ok (snd r)) in
  let* event_status := finish_cut event_cut (cancel_events UsdmEvent) UsdmEvent in
  recovered ← (if requested then call (gd_wait_for_generation_live UsdmProduct 2)
               else observe_recovery UsdmProduct);
  spot_after ← observe_recovery SpotProduct;
  spot_runtime_after ← observe_runtime SpotProduct;
  usdm_runtime_after ← observe_runtime UsdmProduct;
  ok (MkRecovered requested window continued book_cut book_status event_cut event_status recovered
        usdm_runtime_after spot_after spot_runtime_before spot_runtime_after
        (window && continued && book_cut && client_ok book_status && event_cut && client_ok event_status
         && live_in recovered 2
         && negb (bool_decide (ro_connection_id recovered = ro_connection_id usdm_initial))
         && synchronized usdm_runtime_after
         && bool_decide (obs_current_projection_generation usdm_runtime_after = Some 2%Z)
         && bool_decide (ro_state spot_after = RyLive)
         && (ro_connection_generation spot_after =? ro_connection_generation spot_before)%Z
         && bool_decide (ro_connection_id spot_after = ro_connection_id spot_before)
         && (ro_active_transport_count spot_after =? 1)%nat
         && synchronized spot_runtime_after
         && (obs_reset_count spot_runtime_after =? obs_reset_count spot_runtime_before)%Z)).

(** What decides at the end, after the streams. *)
Record TwoMarketEvidence : Type := MkTwoMarketEvidence {
  initial_streams : bool;
  initial_status : bool;
  streams_of_one : Streams;
  recovered_state : Recovered;
  fresh_usdm : bool;
  fresh_removed : bool;
  recovered_status : bool;
  spot_cancel_status : ClientStatus;
  streams_removed : bool
}.

(** The predicates of the two waits for the streams to be gone. *)
Definition usdm_streams_gone : Thread bool :=
  book ← no_book_subscribers UsdmProduct;
  and_then book (no_event_subscribers UsdmProduct).

Definition all_streams_gone : Thread bool :=
  spot_book ← no_book_subscribers SpotProduct;
  usdm_book ← and_then spot_book (no_book_subscribers UsdmProduct);
  spot_events ← and_then usdm_book (no_event_subscribers SpotProduct);
  usdm_events ← and_then spot_events (no_event_subscribers UsdmProduct);
  and_then usdm_events ((λ n, (n =? 0)%nat) <$> call gd_tracked_contexts).

(** The USD-M streams of generation two, the status, and the end of the Spot stream. *)
Definition use_second_generation (gateway_instance_id : string) (streams_valid status_valid : bool)
  (streams : Streams) (recovered : Recovered) : Thread (result TwoMarketEvidence) :=
  let* fresh_book :=
    (if isolation recovered then run_fresh_usdm_order_book gateway_instance_id
     else ok (no_order_book_evidence, false)) in
  let* fresh_event :=
    (if isolation recovered && snd fresh_book then run_fresh_usdm_event gateway_instance_id
     else ok (no_event_evidence, false)) in
  let fresh := isolation recovered && snd fresh_book && snd fresh_event
               && bool_decide (ss_subscription_id (ob_sequence (fst fresh_book)) = "ob-2")
               && bool_decide (ss_subscription_id (ev_sequence (fst fresh_event)) = "ev-2") in
  let* removed :=
    and_run fresh (wait_for usdm_streams_gone (seconds 5)) in
  recovered_status ← and_then removed (collect_status gateway_instance_id "g11-status-g2" 1 2 1 0);
  let* cancel_status := cancel_book SpotBook in
  let* all_removed := wait_for all_streams_gone (seconds 5) in
  ok (MkTwoMarketEvidence streams_valid status_valid streams recovered fresh removed recovered_status
        cancel_status all_removed).

(** A product that has ended. *)
Definition clean_product (recovery : RecoveryObservation) (runtime : RuntimeObservation)
  (events : EventPublicationObservation) : bool :=
  bool_decide (ro_state recovery = RyStopped) && (ro_active_transport_count recovery =? 0)%nat
  && bool_decide (obs_state runtime = RsStopped) && obs_owner_joined runtime
  && (obs_resident_subscription_count runtime =? 0)%nat && (obs_active_subscriptions events =? 0)%nat.

(** [static_cast<unsigned>] of the status of the projection library. *)
Context (status_value : ProjectionStatus → Z).

Definition two_market_failure (e : TwoMarketEvidence) (transport_bound grpc_clean final_clean : bool)
  : string :=
  let r := recovered_state e in
  line ("REAL_G11_ACCEPTANCE=FAIL initial_streams=" +:+ digit (initial_streams e)
        +:+ " initial_status=" +:+ digit (initial_status e)
        +:+ " recovery_requested=" +:+ digit (recovery_requested r)
        +:+ " recovery_window=" +:+ digit (recovery_window r)
        +:+ " spot_continued=" +:+ digit (spot_continued r)
        +:+ " old_usdm_book_cut=" +:+ digit (old_book_cut r)
        +:+ " old_usdm_book_status=" +:+ pretty (error_code (old_book_status r))
        +:+ " old_usdm_event_cut=" +:+ digit (old_event_cut r)
        +:+ " old_usdm_event_status=" +:+ pretty (error_code (old_event_status r))
        +:+ " recovered_state=" +:+ pretty (recovery_state_number (ro_state (usdm_recovered r)))
        +:+ " recovered_generation=" +:+ pretty (ro_connection_generation (usdm_recovered r))
        +:+ " usdm_runtime_state=" +:+ pretty (runtime_state_number (obs_state (usdm_runtime_after r)))
        +:+ " usdm_projection_status="
        +:+ pretty (status_value (obs_projection_status (usdm_runtime_after r)))
        +:+ " usdm_projection_generation="
        +:+ pretty (default 0%Z (obs_current_projection_generation (usdm_runtime_after r)))
        +:+ " spot_generation=" +:+ pretty (ro_connection_generation (spot_after r))
        +:+ " spot_runtime_state=" +:+ pretty (runtime_state_number (obs_state (spot_runtime_after r)))
        +:+ " spot_reset_before=" +:+ pretty (obs_reset_count (spot_runtime_before r))
        +:+ " spot_reset_after=" +:+ pretty (obs_reset_count (spot_runtime_after r))
        +:+ " isolation=" +:+ digit (isolation r) +:+ " fresh_usdm=" +:+ digit (fresh_usdm e)
        +:+ " fresh_removed=" +:+ digit (fresh_removed e)
        +:+ " recovered_status=" +:+ digit (recovered_status e)
        +:+ " streams_removed=" +:+ digit (streams_removed e)
        +:+ " transport_bound=" +:+ digit transport_bound +:+ " grpc_clean=" +:+ digit grpc_clean
        +:+ " final_clean=" +:+ digit final_clean).

Definition two_market_report (e : TwoMarketEvidence) (spot usdm : RecoveryObservation) : string :=
  lines_of ["REAL_G11_ACCEPTANCE=PASS"; "REAL_SPOT_EXCHANGE_INFO_TLS=PASS";
            "REAL_USDM_EXCHANGE_INFO_TLS=PASS"; "REAL_SPOT_LIVE=PASS"; "REAL_USDM_LIVE=PASS";
            "REAL_SPOT_INITIAL_GENERATION=1"; "REAL_USDM_INITIAL_GENERATION=1";
            "REAL_PROJECTION_OWNER_COUNT=2"; "REAL_SPOT_ORDER_BOOK=PASS"; "REAL_USDM_ORDER_BOOK=PASS";
            "REAL_USDM_DIFF_DEPTH=PASS";
            "REAL_SPOT_ORDER_BOOK_ID=" +:+ ss_subscription_id (ob_sequence (spot_book (streams_of_one e)));
            "REAL_USDM_ORDER_BOOK_ID=ob-1"; "REAL_USDM_EVENT_ID=ev-1"; "REAL_NO_CROSS_PUBLICATION=YES";
            "REAL_INITIAL_STATUS_TWO_MARKETS=PASS"; "REAL_USDM_OLD_ORDER_BOOK_TERMINAL=PASS";
            "REAL_USDM_OLD_EVENT_TERMINAL=PASS"; "REAL_USDM_CONTROLLED_RECOVERY=PASS";
            "REAL_USDM_RECOVERED_GENERATION=2"; "REAL_USDM_FRESH_PROJECTION=UsdMPerpetual";
            "REAL_USDM_FRESH_ORDER_BOOK=PASS"; "REAL_USDM_FRESH_DIFF_DEPTH=PASS";
            "REAL_SPOT_UNAFFECTED_DURING_USDM_RECOVERY=PASS"; "REAL_SPOT_GENERATION_AFTER_USDM_RECOVERY=1";
            "REAL_SPOT_RESET_COUNT_UNCHANGED=YES"; "REAL_SPOT_EXISTING_CONSUMER_CONTINUED=YES";
            "REAL_RECOVERED_STATUS_TWO_MARKETS=PASS";
            "REAL_MAX_ACTIVE_TRANSPORTS_SPOT=" +:+ pretty (ro_max_active_transport_count spot);
            "REAL_MAX_ACTIVE_TRANSPORTS_USDM=" +:+ pretty (ro_max_active_transport_count usdm);
            "REAL_MAX_ACTIVE_TRANSPORTS_TOTAL=2"; "REAL_FINAL_ACTIVE_TRANSPORTS=0";
            "REAL_FINAL_G7_SUBSCRIBERS=0"; "REAL_FINAL_G9_SUBSCRIBERS=0"; "REAL_FINAL_TRACKED_CONTEXTS=0";
            "REAL_FINAL_STATUS_INFLIGHT=NO"; "REAL_FINAL_RECOVERIES_JOINED=YES";
            "REAL_FINAL_OWNERS_JOINED=YES"; "REAL_FINAL_GRPC_SHUTDOWN=PASS";
            "REAL_FINAL_CLEAN_SHUTDOWN=PASS"; "REAL_RATE_LIMIT_ABUSE_ATTEMPTED=NO"].

(** From the streams that ended to the end. *)
Definition two_market_end (tls_verified : bool) (e : TwoMarketEvidence) : Thread (result Z) :=
  spot ← observe_recovery SpotProduct;
  usdm ← observe_recovery UsdmProduct;
  let transport_bound :=
    (ro_active_transport_count spot =? 1)%nat && (ro_active_transport_count usdm =? 1)%nat
    && (ro_max_active_transport_count spot <=? 1)%nat && (ro_max_active_transport_count usdm <=? 1)%nat in
  act gd_server_shutdown ;;
  admission_open ← call gd_admission_open;
  no_contexts ← and_then (negb admission_open) ((λ n, (n =? 0)%nat) <$> call gd_tracked_contexts);
  grpc_clean ← and_then no_contexts (negb <$> call gd_status_inflight);
  act gd_stop ;;
  spot_recovery ← observe_recovery SpotProduct;
  usdm_recovery ← observe_recovery UsdmProduct;
  spot_runtime ← observe_runtime SpotProduct;
  usdm_runtime ← observe_runtime UsdmProduct;
  spot_events ← call (gd_observe_events SpotProduct);
  usdm_events ← call (gd_observe_events UsdmProduct);
  let final_clean := clean_product spot_recovery spot_runtime spot_events
                     && clean_product usdm_recovery usdm_runtime usdm_events in
  let r := recovered_state e in
  if negb (tls_verified && initial_streams e && initial_status e && recovery_requested r && isolation r
           && fresh_usdm e && fresh_removed e && recovered_status e
           && client_cancel_status (spot_cancel_status e) && streams_removed e && transport_bound
           && grpc_clean && final_clean)
  then say StdErr (two_market_failure e transport_bound grpc_clean final_clean) ;; failed
  else say StdOut (two_market_report e spot usdm) ;; passed.

(** From the products that are live. *)
Definition serve_two_markets (tls_verified : bool) (gateway_instance_id : string)
  (usdm_initial : RecoveryObservation) : Thread (result Z) :=
  serving ← call (gd_server_start "127.0.0.1:0");
  if negb serving then say StdErr (line "G11_GRPC_START=FAIL") ;; stop_and_fail else
  spot_book_deadline ← stream_deadline;
  usdm_book_deadline ← stream_deadline;
  usdm_event_deadline ← stream_deadline;
  act (rc_subscribe_book SpotBook spot_book_deadline (book_request MARKET_SPOT "g11-spot-book-g1")) ;;
  act (rc_subscribe_book UsdmBook usdm_book_deadline
         (book_request MARKET_USD_M_PERPETUAL "g11-usdm-book-g1")) ;;
  act (rc_subscribe_events UsdmEvent usdm_event_deadline (usdm_event_request "g11-usdm-event-g1")) ;;
  streams ← read_streams gateway_instance_id;
  let '(streams, streams_valid) := streams in
  status_valid ← and_then streams_valid (collect_status gateway_instance_id "g11-status-g1" 1 1 1 2);
  let* recovered := recover_usdm gateway_instance_id status_valid streams usdm_initial in
  (if isolation recovered then mret () else print_recovery_error "USD_M_PERPETUAL" (usdm_recovered recovered)) ;;
  let* e := use_second_generation gateway_instance_id streams_valid status_valid streams recovered in
  two_market_end tls_verified e.

Definition two_market_main : Thread (result Z) :=
  spot_response ← fetch_product SpotProduct "SPOT" "SPOT" (λ body, parse_exchange_info body "BTCUSDT");
  match spot_response with
  | None => failed
  | Some spot_response =>
  usdm_response ← fetch_product UsdmProduct "USD_M_PERPETUAL" "USDM"
                    (λ body, parse_usdm_exchange_info body "BTCUSDT");
  match usdm_response with
  | None => failed
  | Some usdm_response =>
  gateway_instance_id ← call gd_instance_id;
  starts ← call gd_start_products;
  match starts with
  | (RtStarted, RtStarted) =>
      spot_initial ← call (gd_wait_for_generation_live SpotProduct 1);
      usdm_initial ← call (gd_wait_for_generation_live UsdmProduct 1);
      spot_runtime ← observe_runtime SpotProduct;
      usdm_runtime ← observe_runtime UsdmProduct;
      if negb (initial_live spot_initial usdm_initial spot_runtime usdm_runtime) then
        print_recovery_error "SPOT" spot_initial ;;
        print_recovery_error "USD_M_PERPETUAL" usdm_initial ;;
        stop_and_fail
      else
        serve_two_markets (info_tls_verified spot_response && info_tls_verified usdm_response)
          gateway_instance_id usdm_initial
  | _ => say StdErr (line "G11_RUNTIME_START=FAIL") ;; stop_and_fail
  end
  end
  end.
End Code.
