(* ===== verification/IntegrationDriver.v ===== *)
(** * IntegrationDriver: the acceptance driver of recovery and rotation with a consumer

    Models the main of [src/app/g8_integration_live]: in each of two phases (a controlled
    recovery, a planned rotation) a consumer reads the order book of generation one until
    the service ends its stream, a second consumer that of generation two, and all is
    stopped.  A consumer ([StreamSession]) has a thread of its own, which reads and accepts
    ([drain_round]); the driver waits for what it has found.  What that thread has done by
    the time the driver looks is decided by the world: [another_round].

    The gateway is the parameter [Gateway] of [Drivers], the client the [RpcClient] of
    [AcceptanceClient]; the checks on a message are [StreamClient.Integration].
    [transport_count_is_not_checked] is about the result of a phase; what holds of the main
    is with the other drivers' in [DriverSafety]. *)

From Stdlib Require Import Ascii.
From S2P Require Import Prelude Ring Wire Text Json Session OrderBookPublication Projection.
From S2P Require Import EventPublication MarketRuntime Recovery Config SpotProtocol UsdmProtocol Network.
From S2P Require Import Transport Registry GrpcRequests Programs GatewayStatus GrpcService GatewayLifecycle.
From S2P Require Import GrpcStreams Daemon Diagnostics Acceptance StreamClient Raising ChildProcess.
From S2P Require Import AcceptanceClient Drivers.

Open Scope gateway_scope.

Definition kGenerationDeadline : Z := seconds 75.
Definition kConsumerDeadline : Z := seconds 45.

Inductive PhaseKind : Type :=
| ControlledRecovery
| PlannedRotation.

#[export] Instance PhaseKind_eq_dec : EqDecision PhaseKind.
Proof. solve_decision. Defined.

#[export] Instance StreamName_eq_dec : EqDecision StreamName.
Proof. solve_decision. Defined.

(** Whether the thread of a consumer has gone another round before the driver's next step. *)
Class Schedule (X : Type) : Type := { another_round : X → X * bool }.

(** [StreamSession]: the evidence, and [finished] and [status] of it. *)
Record StreamSession `{W : WireEnums} : Type := MkStreamSession {
  evidence : Integration.SessionEvidence;
  session_finished : bool;
  session_status : ClientStatus
}.

#[export] Instance StreamSession_eta `{W : WireEnums} : Eta StreamSession :=
  λ s, MkStreamSession _ (evidence s) (session_finished s) (session_status s).

Definition no_session `{W : WireEnums} : StreamSession :=
  MkStreamSession _ Integration.no_evidence false (MkClientStatus kOk EmptyString).

(** The world with the consumers of a phase: the first reads [SpotBook], the second
    [NewSpotBook]. *)
Record Consumers `{W : WireEnums} (X : Type) : Type := MkConsumers {
  around_them : X;
  sessions : StreamName → StreamSession
}.
Arguments MkConsumers {W X} _ _.
Arguments around_them {W X} _.
Arguments sessions {W X} _ _.

#[export] Instance consumers_around `{W : WireEnums} {X} : Around (Consumers X) X := {|
  inside := around_them;
  put x s := MkConsumers x (sessions s);
  note _ s := s
|}.
#[export] Instance consumers_gateway `{W : WireEnums} `{L : ProjectionLibrary} {X} `{G : !Gateway X}
  : Gateway (Consumers X) := gateway_within.
#[export] Instance consumers_client `{W : WireEnums} {Snapshot X} `{R : !RpcClient Snapshot X}
  : RpcClient Snapshot (Consumers X) := client_within.

(** [PhaseEvidence] *)
Record PhaseEvidence : Type := MkPhaseEvidence {
  passed_phase : bool;
  old_session_terminated : bool;
  old_session_contiguous : bool;
  old_session_crossed_rebootstrap : bool;
  new_session_sequence_reset : bool;
  connection_id_changed : bool;
  fresh_snapshot : bool;
  final_transport_active : bool;
  final_grpc_contexts : nat;
  final_subscribers : nat;
  final_runtime_state : RuntimeState;
  max_active_transports : nat;
  consecutive_recovery_attempts : nat;
  planned_rotation_count : Z
}.

#[export] Instance PhaseEvidence_eta : Eta PhaseEvidence :=
  λ e, MkPhaseEvidence (passed_phase e) (old_session_terminated e) (old_session_contiguous e)
    (old_session_crossed_rebootstrap e) (new_session_sequence_reset e) (connection_id_changed e)
    (fresh_snapshot e) (final_transport_active e) (final_grpc_contexts e) (final_subscribers e)
    (final_runtime_state e) (max_active_transports e) (consecutive_recovery_attempts e)
    (planned_rotation_count e).

Definition no_phase_evidence : PhaseEvidence :=
  MkPhaseEvidence false false false true false false false true 1 1 RsConstructed 0 0 0.

Section Code.
Context `{W : WireEnums} `{L : ProjectionLibrary} `{N : NumericLibrary} `{Jl : JsonLibrary}.
Context {Snapshot : Type} `{SM : !SnapshotMessage Snapshot}.
Context {X : Type} `{G : !Gateway X} `{R : !RpcClient Snapshot X} `{Sc : !Schedule X}.
Abbreviation Thread := (prog (Consumers X)).
Context (fuel : nat).

(** ** [StreamSession] *)

Definition session (n : StreamName) : Thread StreamSession := read (λ s, sessions s n).

Definition set_session (n : StreamName) (f : StreamSession → StreamSession) : Thread () :=
  modify (λ s, MkConsumers (around_them s)
                 (λ m, if decide (m = n) then f (sessions s n) else sessions s m)).

(** A round of [drain]: the next message is accepted, or the stream has ended. *)
Definition drain_round (n : StreamName) (gateway_instance_id : string) : Thread () :=
  item ← call (rc_read_book n);
  match item with
  | Some item =>
      set_session n (λ s, s <| evidence ::= λ e, Integration.accept_item gateway_instance_id e item |>)
  | None =>
      status ← call (rc_finish n);
      set_session n (λ s, s <| session_status := status |> <| session_finished := true |>)
  end.

(** The constructor. *)
Definition open_session (n : StreamName) (request_id : string) : Thread () :=
  now ← call rc_system_now;
  act (rc_subscribe_book n (now + kGenerationDeadline)%Z (book_request MARKET_SPOT request_id)) ;;
  set_session n (λ _, no_session).

(** [condition_.wait_for] with a predicate on what the thread has found. *)
Fixpoint session_wait (rounds : nat) (n : StreamName) (gateway_instance_id : string) (deadline : Z)
  (predicate : StreamSession → bool) : Thread (result bool) :=
  match rounds with
  | O => mret Unfinished
  | S rounds =>
      s ← session n;
      if predicate s then ok true else
      now ← call gd_now;
      if negb (now <? deadline)%Z then ok false else
      (if session_finished s then mret () else drain_round n gateway_instance_id) ;;
      session_wait rounds n gateway_instance_id deadline predicate
  end.

Definition wait_session (n : StreamName) (gateway_instance_id : string) (timeout : Z)
  (predicate : StreamSession → bool) : Thread (result bool) :=
  now ← call gd_now;
  session_wait fuel n gateway_instance_id (now + timeout)%Z predicate.

(** All of the head of a stream, in this generation. *)
Definition initial_in (generation : Z) (s : StreamSession) : bool :=
  let e := evidence s in
  Integration.accepted e && Integration.snapshot e && Integration.later_update e
  && bool_decide (Integration.snapshot_generation e = Some generation)
  && bool_decide (Integration.update_generation e = Some generation).

Definition wait_for_initial (n : StreamName) (gateway_instance_id : string) (generation : Z)
  : Thread (result bool) :=
  let* there := wait_session n gateway_instance_id kConsumerDeadline
                  (λ s, session_finished s || initial_in generation s) in
  s ← session n;
  ok (there && initial_in generation s).

Definition wait_for_terminal (n : StreamName) (gateway_instance_id : string) : Thread (result bool) :=
  let* there := wait_session n gateway_instance_id kConsumerDeadline
                  (λ s, Integration.terminal (evidence s) || session_finished s) in
  s ← session n;
  ok (there && Integration.terminal (evidence s)).

Definition wait_for_finish (n : StreamName) (gateway_instance_id : string) : Thread (result bool) :=
  wait_session n gateway_instance_id (seconds 5) session_finished.

(** [thread_.join()] *)
Fixpoint join (rounds : nat) (n : StreamName) (gateway_instance_id : string) : Thread (result ()) :=
  match rounds with
  | O => mret Unfinished
  | S rounds =>
      s ← session n;
      if session_finished s then ok ()
      else drain_round n gateway_instance_id ;; join rounds n gateway_instance_id
  end.

(** [cancel_and_join], and the destructor. *)
Definition cancel_and_join (n : StreamName) (gateway_instance_id : string) : Thread (result ()) :=
  act (rc_try_cancel n) ;;
  join fuel n gateway_instance_id.

(** [evidence()]: what the thread has found by then. *)
Fixpoint catch_up (rounds : nat) (n : StreamName) (gateway_instance_id : string)
  : Thread (result StreamSession) :=
  match rounds with
  | O => mret Unfinished
  | S rounds =>
      s ← session n;
      more ← call (λ s : Consumers X, within untold another_round s);
      if negb more || session_finished s then ok s
      else drain_round n gateway_instance_id ;; catch_up rounds n gateway_instance_id
  end.

(** ** A phase *)

(** [wait_for_generation]: a wait that takes too long is ended by the stop. *)
Definition wait_for_generation (generation : Z) : Thread (option RecoveryObservation) :=
  ready ← call (gd_wait_within kGenerationDeadline SpotProduct generation);
  observation ← match ready with
                | Some observation => mret observation
                | None => act gd_stop ;; wait_live generation
                end;
  if negb (live_in observation generation) then
    print_terminal_error (ro_terminal_error observation) ;; mret None
  else mret (Some observation).

Definition subscriber_count (expected : nat) : Thread bool :=
  (λ o, (obs_resident_subscription_count o =? expected)%nat) <$> call (gd_observe_runtime SpotProduct).

(** [wait_for_subscriber_count]: the loop tests its deadline last. *)
Fixpoint await_subscriber_count (rounds : nat) (deadline : Z) (expected : nat) : Thread (result bool) :=
  match rounds with
  | O => mret Unfinished
  | S rounds =>
      there ← subscriber_count expected;
      if there : bool then ok true else
      act (gd_sleep (milliseconds 5)) ;;
      now ← call gd_now;
      if (now <? deadline)%Z then await_subscriber_count rounds deadline expected
      else always (subscriber_count expected)
  end.

Definition wait_for_subscriber_count (expected : nat) : Thread (result bool) :=
  now ← call gd_now;
  await_subscriber_count fuel (now + seconds 5)%Z expected.

Definition clean_generation_two_cut (cut : QuiescentAcceptanceCut) (generation_two : RecoveryObservation)
  : bool :=
  clean_transport (quiescent_transport cut) (ro_connection_id generation_two)
  && clean_runtime (quiescent_runtime cut).

(** What the first consumer must have seen at its end. *)
Definition old_valid (kind : PhaseKind) (s : StreamSession) : bool :=
  let e := evidence s in
  let '(reason, action) := match kind with
    | ControlledRecovery => (CONSUMER_GAP_REASON_RESUME_NOT_AVAILABLE, RECOVERY_ACTION_REQUEST_NEW_SNAPSHOT)
    | PlannedRotation => (CONSUMER_GAP_REASON_CONNECTION_GENERATION_CHANGED, RECOVERY_ACTION_RESUBSCRIBE)
    end in
  Integration.canonical e && Integration.contiguous e && Integration.terminal e && session_finished s
  && client_ok (session_status s) && negb (Integration.payload_after_terminal e)
  && (Integration.terminal_reason e =? reason)%Z && (Integration.recovery_action e =? action)%Z
  && bool_decide (Integration.terminal_generation e = Some 1%Z)
  && bool_decide (Integration.snapshot_generation e = Some 1%Z)
  && bool_decide (Integration.update_generation e = Some 1%Z).

Definition new_valid (old new : StreamSession) : bool :=
  let e := evidence new in
  Integration.canonical e && Integration.contiguous e && Integration.accepted e && Integration.snapshot e
  && Integration.later_update e
  && negb (bool_decide (Integration.subscription_id e = Integration.subscription_id (evidence old)))
  && bool_decide (Integration.snapshot_generation e = Some 2%Z)
  && bool_decide (Integration.update_generation e = Some 2%Z)
  && (4 <=? Integration.expected_sequence e)%Z.

(** The assignments to [result] at the end of the phase. *)
Definition phase_result (kind : PhaseKind) (initial generation_two observation : RecoveryObservation)
  (old new_final : StreamSession) (final_cut : option QuiescentAcceptanceCut)
  (subscriber_removed : bool) (contexts subscribers : nat) (state : RuntimeState) : PhaseEvidence :=
  let o := evidence old in
  let n := evidence new_final in
  let clean_cut := match final_cut with
                   | Some cut => clean_generation_two_cut cut generation_two
                   | None => false
                   end in
  let active := negb clean_cut || negb (ro_active_transport_count observation =? 1)%nat in
  let active := match final_cut, clean_cut with
                | Some cut, true => to_running (quiescent_transport cut)
                | _, _ => active
                end in
  let r := MkPhaseEvidence false
    (Integration.terminal o && session_finished old)
    (Integration.contiguous o)
    (negb (bool_decide (Integration.snapshot_generation o = Some 1%Z))
     || negb (bool_decide (Integration.update_generation o = Some 1%Z))
     || negb (bool_decide (Integration.terminal_generation o = Some 1%Z))
     || Integration.payload_after_terminal o)
    (Integration.accepted n && Integration.contiguous n && session_finished new_final
     && (client_ok (session_status new_final) || (error_code (session_status new_final) =? kCancelled)%Z)
     && (4 <=? Integration.expected_sequence n)%Z)
    (negb (bool_decide (ro_connection_id generation_two = ro_connection_id initial)))
    (Integration.snapshot n && bool_decide (Integration.snapshot_generation n = Some 2%Z)
     && Integration.later_update n && bool_decide (Integration.update_generation n = Some 2%Z))
    active contexts subscribers state (ro_max_active_transport_count observation)
    (ro_consecutive_recovery_attempts observation) (ro_planned_rotation_count observation) in
  r <| passed_phase :=
         clean_cut && subscriber_removed && old_session_terminated r && old_session_contiguous r
         && negb (old_session_crossed_rebootstrap r) && new_session_sequence_reset r
         && connection_id_changed r && fresh_snapshot r && negb (final_transport_active r)
         && (final_grpc_contexts r =? 0)%nat && (final_subscribers r =? 0)%nat
         && bool_decide (final_runtime_state r = RsStopped) && (max_active_transports r <=? 1)%nat
         && (negb (bool_decide (kind = PlannedRotation))
             || ((1 <=? planned_rotation_count r)%Z && (consecutive_recovery_attempts r =? 0)%nat)) |>.

(** [recovery->stop(); result.final_runtime_state = ...; return result] *)
Definition stop_phase : Thread (result PhaseEvidence) :=
  act gd_stop ;;
  runtime ← call (gd_observe_runtime SpotProduct);
  ok (no_phase_evidence <| final_runtime_state := obs_state runtime |>).

Definition fail_phase (label : string) : Thread (result PhaseEvidence) :=
  say StdErr (line (label +:+ "=FAIL")) ;;
  act gd_server_shutdown ;;
  stop_phase.

Definition request_id (kind : PhaseKind) (generation : string) : string :=
  "g8-" +:+ (if decide (kind = ControlledRecovery) then "recovery" else "rotation")
  +:+ "-generation-" +:+ generation.

(** From the second consumer to the result. *)
Definition second_consumer (kind : PhaseKind) (gateway_instance_id : string)
  (initial generation_two : RecoveryObservation) (old : StreamSession) : Thread (result PhaseEvidence) :=
  open_session NewSpotBook (request_id kind "2") ;;
  on_exit
    (let* there := wait_for_initial NewSpotBook gateway_instance_id 2 in
     if negb there then fail_phase "G8_NEW_SESSION" else
     let* new_evidence := catch_up fuel NewSpotBook gateway_instance_id in
     if negb (new_valid old new_evidence) then fail_phase "G8_NEW_SESSION_EVIDENCE" else
     observation ← call (gd_observe_recovery SpotProduct);
     final_cut ← call gd_quiesce;
     run* cancel_and_join NewSpotBook gateway_instance_id in
     new_final ← session NewSpotBook;
     let* subscriber_removed := wait_for_subscriber_count 0 in
     act gd_server_shutdown ;;
     contexts ← call gd_tracked_contexts;
     runtime ← call (gd_observe_runtime SpotProduct);
     act gd_stop ;;
     final_runtime ← call (gd_observe_runtime SpotProduct);
     ok (phase_result kind initial generation_two observation old new_final final_cut subscriber_removed
           contexts (obs_resident_subscription_count runtime) (obs_state final_runtime)))
    (cancel_and_join NewSpotBook gateway_instance_id).

(** From the first consumer to the second. *)
Definition first_consumer (kind : PhaseKind) (gateway_instance_id : string) (initial : RecoveryObservation)
  : Thread (result PhaseEvidence) :=
  open_session SpotBook (request_id kind "1") ;;
  on_exit
    (let* there := wait_for_initial SpotBook gateway_instance_id 1 in
     if negb there then fail_phase "G8_INITIAL_CONSUMER" else
     refused ← and_then (bool_decide (kind = ControlledRecovery))
                 (negb <$> call (gd_request_recovery SpotProduct));
     if refused : bool then fail_phase "G8_CONTROLLED_RECOVERY_REQUEST" else
     let* terminal := wait_for_terminal SpotBook gateway_instance_id in
     if negb terminal then fail_phase "G8_OLD_SESSION_TERMINAL" else
     generation_two ← wait_for_generation 2;
     match generation_two with
     | None => fail_phase "G8_GENERATION_TWO"
     | Some generation_two =>
         let* finish := wait_for_finish SpotBook gateway_instance_id in
         if negb finish then fail_phase "G8_GENERATION_TWO" else
         let* old := catch_up fuel SpotBook gateway_instance_id in
         if negb (old_valid kind old) then fail_phase "G8_OLD_SESSION_EVIDENCE"
         else second_consumer kind gateway_instance_id initial generation_two old
     end)
    (cancel_and_join SpotBook gateway_instance_id).

(** [run_phase] *)
Definition run_phase (kind : PhaseKind) : Thread (result PhaseEvidence) :=
  started ← call (gd_start (match kind with
                            | PlannedRotation => Some (seconds 5)
                            | ControlledRecovery => None
                            end));
  match started with
  | RtStarted =>
      initial ← wait_for_generation 1;
      match initial with
      | None => stop_phase
      | Some initial =>
          gateway_instance_id ← call gd_instance_id;
          serving ← call (gd_server_start "127.0.0.1:0");
          if negb serving then say StdErr (line "G8_GRPC_START=FAIL") ;; stop_phase
          else first_consumer kind gateway_instance_id initial
      end
  | _ => say StdErr (line "G8_RECOVERY_START=FAIL") ;; ok no_phase_evidence
  end.

Definition integration_report (tls_verified : bool) (recovery rotation : PhaseEvidence) : string :=
  lines_of ["EXCHANGE_INFO_FETCH=PASS"; "TLS_VERIFY=" +:+ pass_fail tls_verified;
            "INITIAL_REAL_BOOTSTRAP=PASS"; "INITIAL_REAL_CONSUMER=PASS";
            "RECOVERY_OLD_SESSION_TERMINATED=PASS"; "RECOVERY_OLD_SESSION_CONTIGUOUS=YES";
            "RECOVERY_OLD_GENERATION=1"; "RECOVERY_NEW_GENERATION=2";
            "RECOVERY_TERMINAL_REASON=RESUME_NOT_AVAILABLE"; "RECOVERY_ACTION=REQUEST_NEW_SNAPSHOT";
            "RECOVERY_CONNECTION_ID_CHANGED=YES"; "RECOVERY_FRESH_SNAPSHOT=PASS";
            "RECOVERY_NEW_SESSION_SEQUENCE_RESET=YES"; "PLANNED_ROTATION_OLD_SESSION_TERMINATED=PASS";
            "PLANNED_ROTATION_OLD_SESSION_CONTIGUOUS=YES";
            "PLANNED_ROTATION_TERMINAL_REASON=CONNECTION_GENERATION_CHANGED";
            "PLANNED_ROTATION_RECOVERY_ACTION=RESUBSCRIBE";
            "PLANNED_ROTATION_RECOVERY_ATTEMPTS=" +:+ pretty (consecutive_recovery_attempts rotation);
            "PLANNED_ROTATION_NEW_GENERATION=2"; "PLANNED_ROTATION_CONNECTION_ID_CHANGED=YES";
            "PLANNED_ROTATION_FRESH_SNAPSHOT=PASS"; "PLANNED_ROTATION_NEW_SESSION_SEQUENCE_RESET=YES";
            "OLD_SESSION_CROSSED_REBOOTSTRAP=NO"; "ALL_SESSION_SEQUENCES_CONTIGUOUS=YES";
            "MAX_ACTIVE_TRANSPORTS="
              +:+ pretty (max_active_transports recovery `max` max_active_transports rotation)%nat;
            "FINAL_TRANSPORT_ACTIVE=NO"; "FINAL_GRPC_CONTEXTS=" +:+ pretty (final_grpc_contexts rotation);
            "FINAL_SUBSCRIBERS=" +:+ pretty (final_subscribers rotation); "FINAL_RUNTIME_STATE=Stopped";
            "GATEWAY_CONTRACTS_PROJECTION_BOUNDARY=PASS"; "REAL_RATE_LIMIT_ABUSE_ATTEMPTED=NO"].

Definition integration_main : Thread (result Z) :=
  metadata ← fetch_metadata;
  match metadata with
  | None => failed
  | Some (response, _) =>
      let* recovery := run_phase ControlledRecovery in
      if negb (passed_phase recovery) then say StdErr (line "REAL_RECOVERY_CONSUMER=FAIL") ;; failed else
      let* rotation := run_phase PlannedRotation in
      if negb (passed_phase rotation) then
        say StdErr (line "REAL_PLANNED_ROTATION_CONSUMER=FAIL") ;; failed
      else say StdOut (integration_report (info_tls_verified response) recovery rotation) ;; passed
  end.
End Code.

(** ** The result of a phase *)

(** The count of active transports has no part in the decision: a phase passes or fails
    the same whatever the recovery reported ([active_transport_count != 1U] sets a member
    that a clean cut then overwrites, and only a clean cut passes). *)
Theorem transport_count_is_not_checked `{W : WireEnums} `{L : ProjectionLibrary} kind initial
  generation_two observation old new_final final_cut removed contexts subscribers state count :
  passed_phase (phase_result kind initial generation_two
                  (observation <| ro_active_transport_count := count |>) old new_final final_cut removed
                  contexts subscribers state)
  = passed_phase (phase_result kind initial generation_two observation old new_final final_cut removed
                    contexts subscribers state).
Proof.
  unfold phase_result. destruct final_cut as [cut|]; [|done].
  by destruct (clean_generation_two_cut cut generation_two).
Qed.
