(* ===== verification/DriverSafety.v ===== *)
(** * DriverSafety: what the acceptance drivers leave behind

    The mains of [Drivers], [TwoMarketDriver] and [IntegrationDriver] over a world that is
    watched ([Watched]): what runs behind (the recovery, or the runtime), what serves in
    front (the server, or the transport), and the streams that are open.

    [drivers_leave_nothing_running]: a driver that ends has stopped both and finished every
    stream; it has read only streams that were open, subscribed only while the server
    served, and, but for the integration driver, stopped what is behind only after what is
    in front.  [drivers_end]: with clocks that go on and streams that end, every driver does
    end, and does so. *)

From Stdlib Require Import Ascii.
From S2P Require Import Prelude Ring Wire Text Json Session OrderBookPublication Projection.
From S2P Require Import EventPublication MarketRuntime Recovery Config SpotProtocol UsdmProtocol Network.
From S2P Require Import Transport Registry GrpcRequests Programs GatewayStatus GrpcService GatewayLifecycle.
From S2P Require Import GrpcStreams Daemon Diagnostics Acceptance StreamClient Raising ChildProcess.
From S2P Require Import AcceptanceClient Drivers TwoMarketDriver IntegrationDriver.

Open Scope gateway_scope.

(** ** The watch *)

Record Stage : Type := MkStage {
  back : bool;
  front : bool;
  opens : list StreamName;
  sound : bool;
  in_order : bool
}.

Definition idle : Stage := MkStage false false [] true true.

Definition is_open (n : StreamName) (v : Stage) : bool := bool_decide (n ∈ opens v).

Definition watch (v : Stage) (e : GatewayEvent) : Stage :=
  match e with
  | BackStart true =>
      MkStage true (front v) (opens v) (sound v) (in_order v && negb (back v) && negb (front v))
  | BackStop => MkStage false (front v) (opens v) (sound v) (in_order v && negb (front v))
  | FrontStart true => MkStage (back v) true (opens v) (sound v && negb (front v)) (in_order v && back v)
  | FrontStop => MkStage (back v) false (opens v) (sound v) (in_order v)
  | StreamOpened n =>
      MkStage (back v) (front v) (n :: opens v) (sound v && front v && negb (is_open n v)) (in_order v)
  | StreamRead n => MkStage (back v) (front v) (opens v) (sound v && is_open n v) (in_order v)
  | StreamFinished n =>
      MkStage (back v) (front v) (filter (λ m, m ≠ n) (opens v)) (sound v && is_open n v) (in_order v)
  | _ => v
  end.

(** A stream is no longer open. *)
Definition closed (n : StreamName) (v : Stage) : Stage := watch v (StreamFinished n).

Record Watched (X : Type) : Type := MkWatched {
  watched_world : X;
  stage : Stage
}.
Arguments MkWatched {X} _ _.
Arguments watched_world {X} _.
Arguments stage {X} _.

#[export] Instance watched_around {X} : Around (Watched X) X := {|
  inside := watched_world;
  put x s := MkWatched x (stage s);
  note e s := MkWatched (watched_world s) (watch (stage s) e)
|}.
#[export] Instance watched_gateway `{L : ProjectionLibrary} {X} `{G : !Gateway X} : Gateway (Watched X) :=
  gateway_within.
#[export] Instance watched_client {Snapshot X} `{R : !RpcClient Snapshot X} : RpcClient Snapshot (Watched X) :=
  client_within.
#[export] Instance watched_schedule {X} `{Sc : !Schedule X} : Schedule (Watched X) := {|
  another_round := within untold another_round
|}.

(** ** The drivers *)

Inductive Driver : Type :=
| SpotLive
| SpotRecovery
| SpotRotation
| SpotGrpc
| SpotIntegration
| SpotEventsLive
| TwoMarkets.

Section Code.
Context `{W : WireEnums} `{L : ProjectionLibrary} `{N : NumericLibrary} `{Jl : JsonLibrary}.
Context {Snapshot : Type} `{SM : !SnapshotMessage Snapshot} `{SM' : !SnapshotMessage LocalOrderBookSnapshot}.
Context {X : Type} `{G : !Gateway X} `{R : !RpcClient Snapshot X} `{Sc : !Schedule X}.
Context (scale_value : DecimalScale → Z) (status_value : ProjectionStatus → Z) (fuel : nat).

(** The main of a driver, from a world to the next and the exit code. *)
Definition run_driver (d : Driver) (x : X) : X * result Z :=
  match d with
  | SpotLive => run (live_main fuel scale_value) x
  | SpotRecovery => run (recovery_main fuel) x
  | SpotRotation => run (rotation_main fuel) x
  | SpotGrpc => run (grpc_main fuel) x
  | SpotIntegration =>
      let '(s, r) := run (integration_main fuel) (MkConsumers x (λ _, no_session)) in (around_them s, r)
  | SpotEventsLive => run (events_main fuel) x
  | TwoMarkets => run (two_market_main fuel status_value) x
  end.
End Code.

(** ** Programs that lead from one assertion to another *)

Section Steps.
Context {S : Type} (good : S → Prop).
Implicit Types (P Q : S → Prop).

Definition moves {A} P (p : prog S A) Q : Prop := runs P p (λ _, Q).

Definition steps {A} P (p : prog S (result A)) Q : Prop :=
  runs P p (λ r s, good s ∧ (∀ a, r = Ok a → Q s) ∧ ∀ m, r ≠ Raised m).

Lemma moves_ret {A} P (a : A) : moves P (mret a) P.
Proof. by apply runs_ret. Qed.

Lemma moves_bind {A B} P R Q (p : prog S A) (k : A → prog S B) :
  moves P p R → (∀ a, moves R (k a) Q) → moves P (p ≫= k) Q.
Proof. intros Hp Hk. exact (runs_bind _ _ (λ _, R) _ _ Hp Hk). Qed.

Lemma moves_fmap {A B} P Q (p : prog S A) (f : A → B) : moves P p Q → moves P (f <$> p) Q.
Proof. intros Hp. apply (moves_bind P Q); [done|]. intros a. apply moves_ret. Qed.

Lemma steps_bind {A B} P R Q (p : prog S A) (k : A → prog S (result B)) :
  moves P p R → (∀ a, steps R (k a) Q) → steps P (p ≫= k) Q.
Proof. intros Hp Hk. exact (runs_bind _ _ (λ _, R) _ _ Hp Hk). Qed.

Lemma steps_result {A B} P R Q (p : prog S (result A)) (k : A → prog S (result B)) :
  steps P p R → (∀ a, steps R (k a) Q) → steps P (bind_result p k) Q.
Proof.
  intros Hp Hk s Hs. unfold bind_result. rewrite run_bind. destruct (Hp s Hs) as (Hg & HR & Hm).
  destruct (run p s) as [s' [a|m|]]; cbn [fst snd] in *.
  - exact (Hk a s' (HR a eq_refl)).
  - by destruct (Hm m).
  - done.
Qed.

Lemma steps_ok {A} P (a : A) : (∀ s, P s → good s) → steps P (ok a) P.
Proof. intros Hg s Hs. cbn. split_and!; auto. Qed.

Lemma steps_unfinished {A} P Q : (∀ s, P s → good s) → steps P (mret (@Unfinished A)) Q.
Proof. intros Hg s Hs. cbn. split_and!; [auto|done|done]. Qed.

Lemma steps_always {A} P Q (p : prog S A) : (∀ s, Q s → good s) → moves P p Q → steps P (always p) Q.
Proof.
  intros Hg Hp s Hs. rewrite run_always. cbn. pose proof (Hp s Hs) as HQ. split_and!; [by apply Hg|done|done].
Qed.

Lemma steps_on_exit {A} P R Q (p : prog S (result A)) d :
  steps P p R → steps R d Q → steps P (on_exit p d) Q.
Proof.
  intros Hp Hd s Hs. unfold on_exit. rewrite run_bind. destruct (Hp s Hs) as (Hg & HR & Hm).
  destruct (run p s) as [s' [a|m|]]; cbn [fst snd] in *; [|by destruct (Hm m)|done].
  rewrite run_bind. destruct (Hd s' (HR a eq_refl)) as (Hg' & HQ & Hm').
  destruct (run d s') as [s'' [[]|m|]]; cbn [fst snd] in *.
  - split_and!; [done|intros ? _; by apply (HQ tt)|done].
  - by destruct (Hm' m).
  - done.
Qed.

Lemma steps_conseq {A} P P' Q Q' (p : prog S (result A)) :
  steps P' p Q' → (∀ s, P s → P' s) → (∀ s, Q' s → Q s) → steps P p Q.
Proof.
  intros Hp HP HQ s Hs. destruct (Hp s (HP s Hs)) as (Hg & HR & Hm). split_and!; [done| |done].
  intros a Ha. exact (HQ _ (HR a Ha)).
Qed.
End Steps.

Section Watching.
Context `{W : WireEnums} `{L : ProjectionLibrary} `{N : NumericLibrary} `{Jl : JsonLibrary}.
Context {Snapshot : Type} `{SM : !SnapshotMessage Snapshot} `{SM' : !SnapshotMessage LocalOrderBookSnapshot}.
Context {X : Type} `{G : !Gateway X} `{R : !RpcClient Snapshot X}.
Context (fuel : nat).
Abbreviation S := (Watched X).
Implicit Types (b f : bool) (o : list StreamName).

Definition at_stage (v : Stage) (s : S) : Prop := stage s = v.
Definition well (s : S) : Prop := sound (stage s) = true ∧ in_order (stage s) = true.

(** All was in order. *)
Definition calm (v : Stage) : Prop := sound v = true ∧ in_order v = true.

Abbreviation leads := (steps well).

Definition tells {A} (g : S → S * A) (told : A → list GatewayEvent) : Prop :=
  ∀ s, stage (fst (g s)) = foldl watch (stage s) (told (snd (g s))).

Lemma noted (s : S) l : stage (foldl (λ s e, note e s) s l) = foldl watch (stage s) l.
Proof. revert s. induction l as [|e l IH]; intros s; [done|]. apply IH. Qed.

Lemma tells_within {A} (g : X → X * A) told : tells (within told g) told.
Proof.
  intros s. unfold within. cbn. destruct (g (watched_world s)) as [x a]. cbn.
  exact (noted (MkWatched x (stage s)) _).
Qed.

Lemma at_well v s : calm v → at_stage v s → well s.
Proof. unfold at_stage, well. by intros ? ->. Qed.

(** A call, and what is told of it. *)
Lemma at_call {A B} v (g : S → S * A) told (k : A → prog S (result B)) Q :
  tells g told → (∀ a, leads (at_stage (foldl watch v (told a))) (k a) Q) →
  leads (at_stage v) (call g ≫= k) Q.
Proof.
  intros Hg Hk. apply (runs_bind _ _ (λ a, at_stage (foldl watch v (told a)))); [|exact Hk].
  apply runs_atomically. unfold at_stage. intros s Hs. by rewrite Hg, Hs.
Qed.

Lemma at_silent {A} v (g : S → S * A) : tells g untold → moves (at_stage v) (call g) (at_stage v).
Proof. intros Hg s Hs. unfold at_stage in *. rewrite <- Hs. exact (Hg s). Qed.

Lemma at_read {A} v n (g : X → X * A) :
  is_open n v = true → calm v →
  moves (at_stage v) (call (within (λ _, [StreamRead n]) g)) (at_stage v).
Proof.
  intros Hn [Hv _] s Hs. pose proof (tells_within g (λ _, [StreamRead n]) s) as H. unfold at_stage in *.
  rewrite Hs in H. cbn in H. rewrite Hn, Hv in H. etrans; [exact H|]. destruct v. by simpl in *; subst.
Qed.

Lemma at_act v told (g : X → X) :
  moves (at_stage v) (act (within_do told g)) (at_stage (foldl watch v told)).
Proof.
  intros s Hs. unfold at_stage in *. rewrite <- Hs. exact (noted (MkWatched _ (stage s)) told).
Qed.

Lemma at_and_then v c (p : prog S bool) :
  moves (at_stage v) p (at_stage v) → moves (at_stage v) (and_then c p) (at_stage v).
Proof. intros Hp. destruct c; [done|]. apply moves_ret. Qed.

Lemma at_and_run v c (p : prog S (result bool)) :
  calm v → leads (at_stage v) p (at_stage v) → leads (at_stage v) (and_run c p) (at_stage v).
Proof. intros Hv Hp. destruct c; [done|]. apply (steps_ok well (at_stage v)). intros s. by apply at_well. Qed.
End Watching.

(** What the structure of a driver asks for. *)
Create HintDb driver.
Ltac is_calm := first [assumption | solve [split; reflexivity]].
#[export] Hint Extern 1 (calm _) => is_calm : driver.
#[export] Hint Extern 1 (is_open _ _ = true) => first [assumption | reflexivity] : driver.

(** The stage, after what was told. *)
Ltac settle :=
  match goal with
  | |- steps _ (at_stage ?v) _ _ =>
      lazymatch v with
      | foldl _ _ _ => idtac
      | closed _ _ => idtac
      end;
      let v' := eval vm_compute in v in change v with v'
  | _ => idtac
  end.
Ltac stays :=
  repeat first
    [ eassumption | solve [eauto 5 with driver nocore]
    | apply moves_ret | apply moves_fmap | apply at_and_then
    | apply at_silent; apply tells_within
    | apply at_read; [solve [auto 1 with driver nocore]|is_calm]
    | apply at_act
    | lazymatch goal with |- moves _ (mbind _ _) _ => eapply moves_bind; [|intros ?] end
    | case_match ].
Ltac after_call a :=
  lazymatch goal with
  | |- steps _ (at_stage (foldl watch _ ?l)) _ _ =>
      match l with context [a] => destruct a | _ => idtac end
  end;
  settle; cbn [negb].
Ltac silent :=
  first [ solve [apply at_silent; apply tells_within]
        | solve [apply at_read; [solve [auto 1 with driver nocore]|is_calm]] ].
Ltac drive_step :=
  lazymatch goal with
  | |- steps ?good ?P (bind_result _ _) _ =>
      first
        [ eapply steps_result; [solve [auto 6 with driver nocore]|intros ?; settle]
        | apply (steps_result good P P); [solve [repeat drive_step]|intros ?] ]
  | |- steps _ _ (mbind _ (call _)) _ =>
      first
        [ eapply steps_bind; [silent|intros ?]
        | eapply at_call; [apply tells_within|let a := fresh "a" in intros a; after_call a] ]
  | |- steps ?good ?P (mbind _ _) _ =>
      first
        [ eapply steps_bind; [solve [stays]|intros ?; settle]
        | apply (steps_bind good P P); [solve [stays]|intros ?] ]
  | |- steps _ _ (and_run _ _) _ => apply at_and_run; [is_calm|]
  | |- steps _ _ (ok _) _ => apply steps_ok; intros ?; apply at_well; is_calm
  | |- steps _ _ (mret Unfinished) _ => apply steps_unfinished; intros ?; apply at_well; is_calm
  | |- steps _ _ (always _) _ => apply steps_always; [intros ?; apply at_well; is_calm|solve [stays]]
  | |- steps _ _ ?p _ => first [solve [auto 6 with driver nocore] | case_match]
  end.
Ltac drive := repeat drive_step.

Section Helpers.
Context `{W : WireEnums} `{L : ProjectionLibrary} `{N : NumericLibrary} `{Jl : JsonLibrary}.
Context {Snapshot : Type} `{SM : !SnapshotMessage Snapshot} `{SM' : !SnapshotMessage LocalOrderBookSnapshot}.
Context {X : Type} `{G : !Gateway X} `{R : !RpcClient Snapshot X}.
Context (fuel : nat).
Abbreviation S := (Watched X).
Abbreviation leads := (steps (well (X := X))).

Lemma at_say v stream text : moves (S := S) (at_stage v) (say stream text) (at_stage v).
Proof. apply at_act. Qed.
#[local] Hint Resolve at_say : driver.

Lemma at_network_error v error : moves (S := S) (at_stage v) (print_network_error error) (at_stage v).
Proof. apply at_say. Qed.
#[local] Hint Resolve at_network_error : driver.

Lemma at_terminal_error v error : moves (S := S) (at_stage v) (print_terminal_error error) (at_stage v).
Proof. unfold print_terminal_error. stays. Qed.
#[local] Hint Resolve at_terminal_error : driver.

Lemma at_fetch_metadata v : moves (S := S) (at_stage v) fetch_metadata (at_stage v).
Proof. unfold fetch_metadata. stays. Qed.
#[local] Hint Resolve at_fetch_metadata : driver.

Lemma at_later_update v rounds deadline initial :
  calm v → leads (at_stage v) (later_update rounds deadline initial) (at_stage v).
Proof. intros Hv. induction rounds as [|rounds IH]; cbn [later_update]; drive. Qed.
#[local] Hint Resolve at_later_update : driver.

Lemma at_wait_later v initial :
  calm v → leads (at_stage v) (wait_for_later_real_update fuel initial) (at_stage v).
Proof. intros Hv. unfold wait_for_later_real_update. drive. Qed.
#[local] Hint Resolve at_wait_later : driver.

Lemma at_bootstrap_wait v rounds deadline last :
  calm v → leads (at_stage v) (bootstrap_wait rounds deadline last) (at_stage v).
Proof. intros Hv. revert last. induction rounds as [|rounds IH]; intros last; cbn [bootstrap_wait]; drive. Qed.
#[local] Hint Resolve at_bootstrap_wait : driver.

Lemma at_post_live_wait v rounds deadline id :
  calm v → leads (at_stage v) (post_live_wait rounds deadline id) (at_stage v).
Proof. intros Hv. induction rounds as [|rounds IH]; cbn [post_live_wait]; drive. Qed.
#[local] Hint Resolve at_post_live_wait : driver.

Lemma at_ping_wait v rounds deadline :
  calm v → leads (at_stage v) (ping_wait rounds deadline) (at_stage v).
Proof. intros Hv. induction rounds as [|rounds IH]; cbn [ping_wait]; drive. Qed.
#[local] Hint Resolve at_ping_wait : driver.

Lemma at_no_subscribers v : moves (S := S) (at_stage v) no_subscribers (at_stage v).
Proof. unfold no_subscribers. stays. Qed.
#[local] Hint Resolve at_no_subscribers : driver.

Lemma at_subscriber_removal v rounds deadline :
  calm v → leads (at_stage v) (subscriber_removal rounds deadline) (at_stage v).
Proof. intros Hv. induction rounds as [|rounds IH]; cbn [subscriber_removal]; drive. Qed.
#[local] Hint Resolve at_subscriber_removal : driver.

Lemma at_wait_removal v :
  calm v → leads (at_stage v) (wait_for_subscriber_removal fuel) (at_stage v).
Proof. intros Hv. unfold wait_for_subscriber_removal. drive. Qed.
#[local] Hint Resolve at_wait_removal : driver.

Lemma at_event_subscribers v expected : moves (S := S) (at_stage v) (event_subscribers expected) (at_stage v).
Proof. unfold event_subscribers. stays. Qed.
#[local] Hint Resolve at_event_subscribers : driver.

Lemma at_await_events v rounds deadline expected :
  calm v → leads (at_stage v) (await_event_subscribers rounds deadline expected) (at_stage v).
Proof. intros Hv. induction rounds as [|rounds IH]; cbn [await_event_subscribers]; drive. Qed.
#[local] Hint Resolve at_await_events : driver.

Lemma at_wait_events v expected :
  calm v → leads (at_stage v) (wait_for_event_subscribers fuel expected) (at_stage v).
Proof. intros Hv. unfold wait_for_event_subscribers. drive. Qed.
#[local] Hint Resolve at_wait_events : driver.

Lemma at_first_three v instance_id generation :
  is_open SpotBook v = true → calm v →
  moves (S := S) (at_stage v) (read_first_three instance_id generation) (at_stage v).
Proof. intros Hn Hv. unfold read_first_three, read_book. stays. Qed.
#[local] Hint Resolve at_first_three : driver.

Lemma at_read_session v rounds more instance_id generation stream e :
  is_open SpotEvent v = true → calm v → leads (at_stage v) (read_session rounds more instance_id generation stream e) (at_stage v).
Proof. intros Hn Hv. revert e. induction rounds as [|rounds IH]; intros e; cbn [read_session]; drive. Qed.
#[local] Hint Resolve at_read_session : driver.

Lemma at_drain {A} v n (g : X → X * option A) rounds :
  is_open n v = true → calm v →
  leads (at_stage v)
    (drain ((λ item, bool_decide (is_Some item)) <$> call (within (λ _, [StreamRead n]) g)) rounds)
    (at_stage v).
Proof. intros Hn Hv. induction rounds as [|rounds IH]; cbn [drain]; drive. Qed.
#[local] Hint Resolve at_drain : driver.

Lemma closed_calm n v : is_open n v = true → calm v → calm (closed n v).
Proof. unfold calm. cbn. by intros -> [-> ->]. Qed.

Lemma at_finish n v :
  is_open n v = true → calm v →
  leads (at_stage v) (always (call (rc_finish n))) (at_stage (closed n v)).
Proof.
  intros Hn Hv. apply steps_always; [intros s; by apply at_well, closed_calm|].
  apply (runs_atomically (at_stage v)). unfold at_stage. intros s Hs.
  etrans; [apply (tells_within (rc_finish n) (λ _, [StreamFinished n]))|]. by rewrite Hs.
Qed.
#[local] Hint Resolve at_finish : driver.

Lemma at_drain_book n v :
  is_open n v = true → calm v → leads (at_stage v) (drain_book fuel n) (at_stage (closed n v)).
Proof. intros Hn Hv. apply (steps_result _ _ (at_stage v)); [by apply at_drain|]. intros _. by apply at_finish. Qed.

Lemma at_drain_event n v :
  is_open n v = true → calm v → leads (at_stage v) (drain_event fuel n) (at_stage (closed n v)).
Proof. intros Hn Hv. apply (steps_result _ _ (at_stage v)); [by apply at_drain|]. intros _. by apply at_finish. Qed.
#[local] Hint Resolve at_drain_book at_drain_event : driver.

(** ** The mains *)

(** The recovery runs; the server serves too; a stream is open as well. *)
Definition behind : Stage := MkStage true false [] true true.
Definition serving : Stage := MkStage true true [] true true.
Definition reading (n : StreamName) : Stage := MkStage true true [n] true true.

Lemma at_stop_and_fail : leads (at_stage behind) stop_and_fail (at_stage idle).
Proof. unfold stop_and_fail, failed. drive. Qed.
#[local] Hint Resolve at_stop_and_fail : driver.

Lemma at_wait_live v generation : moves (S := S) (at_stage v) (wait_live generation) (at_stage v).
Proof. unfold wait_live. stays. Qed.
#[local] Hint Resolve at_wait_live : driver.

Lemma at_first_generation label rotation tail_check k :
  moves (S := S) (at_stage behind) tail_check (at_stage behind) →
  (∀ initial, leads (at_stage behind) (k initial) (at_stage idle)) →
  leads (at_stage idle) (first_generation fuel label rotation tail_check k) (at_stage idle).
Proof. intros Hc Hk. unfold first_generation, failed. drive. Qed.

Lemma at_finish_two label last_id second report :
  leads (at_stage behind) (finish_generation_two fuel label last_id second report) (at_stage idle).
Proof. unfold finish_generation_two, failed, passed. drive. Qed.
#[local] Hint Resolve at_finish_two : driver.

Lemma at_recovery_main : leads (at_stage idle) (recovery_main fuel) (at_stage idle).
Proof.
  unfold recovery_main, failed. drive. apply at_first_generation; [stays|]. intros initial. drive.
Qed.

Lemma at_rotation_main : leads (at_stage idle) (rotation_main fuel) (at_stage idle).
Proof.
  unfold rotation_main, failed. drive. apply at_first_generation; [stays|]. intros initial. drive.
Qed.

Lemma at_live_main scale_value : leads (at_stage idle) (live_main fuel scale_value) (at_stage idle).
Proof.
  unfold live_main, live_transport, live_snapshot, both_stop_and_fail, runtime_stop_and_fail, failed, passed.
  drive.
Qed.

Lemma at_start_recovery label k :
  (∀ initial, leads (at_stage behind) (k initial) (at_stage idle)) →
  leads (at_stage idle) (start_recovery label k) (at_stage idle).
Proof. intros Hk. unfold start_recovery, failed. drive. Qed.

Lemma at_grpc_main : leads (at_stage idle) (grpc_main fuel) (at_stage idle).
Proof.
  unfold grpc_main, failed. drive. apply at_start_recovery. intros initial.
  unfold serve_book, failed, passed. drive.
Qed.

Lemma at_subscribe_session stream id :
  moves (S := S) (at_stage serving) (subscribe_session stream id) (at_stage (reading SpotEvent)).
Proof. unfold subscribe_session. stays. Qed.
#[local] Hint Resolve at_subscribe_session : driver.

Lemma at_finite_session stream generation required instance_id id :
  leads (at_stage serving) (run_finite_session fuel stream generation required instance_id id) (at_stage serving).
Proof. unfold run_finite_session. drive. Qed.
#[local] Hint Resolve at_finite_session : driver.

Lemma at_recovered_session instance_id :
  leads (at_stage serving) (recovered_session fuel instance_id) (at_stage serving).
Proof. unfold recovered_session. drive. Qed.
#[local] Hint Resolve at_recovered_session : driver.

Lemma at_events_main : leads (at_stage idle) (events_main fuel) (at_stage idle).
Proof.
  unfold events_main, failed. drive. apply at_start_recovery. intros initial.
  unfold serve_events. drive; unfold events_end, failed, passed; drive.
Qed.

(** *** The two products *)

Lemma at_product_error v product error :
  moves (S := S) (at_stage v) (print_product_error product error) (at_stage v).
Proof. apply at_say. Qed.
#[local] Hint Resolve at_product_error : driver.

Lemma at_recovery_error v product o :
  moves (S := S) (at_stage v) (print_recovery_error product o) (at_stage v).
Proof. unfold print_recovery_error. stays. Qed.
#[local] Hint Resolve at_recovery_error : driver.

Lemma at_fetch_product v product name label parse :
  moves (S := S) (at_stage v) (fetch_product product name label parse) (at_stage v).
Proof. unfold fetch_product. stays. Qed.
#[local] Hint Resolve at_fetch_product : driver.

Lemma at_stream_deadline v : moves (S := S) (at_stage v) stream_deadline (at_stage v).
Proof. unfold stream_deadline. stays. Qed.
#[local] Hint Resolve at_stream_deadline : driver.

Lemma at_cancel_book n v :
  is_open n v = true → calm v → leads (at_stage v) (cancel_book fuel n) (at_stage (closed n v)).
Proof.
  intros Hn Hv. unfold cancel_book, cancel_and_finish. apply (steps_bind _ _ (at_stage v)); [stays|intros _].
  by apply at_drain_book.
Qed.

Lemma at_cancel_events n v :
  is_open n v = true → calm v → leads (at_stage v) (cancel_events fuel n) (at_stage (closed n v)).
Proof.
  intros Hn Hv. unfold cancel_events, cancel_and_finish. apply (steps_bind _ _ (at_stage v)); [stays|intros _].
  by apply at_drain_event.
Qed.
#[local] Hint Resolve at_cancel_book at_cancel_events : driver.

Lemma at_finish_cut n v cut cancel :
  is_open n v = true → calm v → leads (at_stage v) cancel (at_stage (closed n v)) →
  leads (at_stage v) (finish_cut cut cancel n) (at_stage (closed n v)).
Proof. intros Hn Hv Hc. destruct cut; [by apply at_finish|done]. Qed.
#[local] Hint Resolve at_finish_cut : driver.

Lemma at_book_read n v :
  is_open n v = true → calm v →
  moves (S := S) (at_stage v) (call (rc_read_book n)) (at_stage v).
Proof. intros Hn Hv. by apply at_read. Qed.
Lemma at_event_read n v :
  is_open n v = true → calm v →
  moves (S := S) (at_stage v) (call (rc_read_event n)) (at_stage v).
Proof. intros Hn Hv. by apply at_read. Qed.
#[local] Hint Resolve at_book_read at_event_read : driver.

Lemma at_read_part {Body Part} v (Read : prog S (option (Received Body))) (part : Body → option Part)
  sequence instance_id g :
  moves (at_stage v) Read (at_stage v) →
  moves (at_stage v) (read_part Read part sequence instance_id g) (at_stage v).
Proof. intros H. unfold read_part. stays. Qed.
#[local] Hint Resolve at_read_part : driver.

Lemma at_order_book_head v (Read : prog S (option (Received (StreamItemBody Snapshot)))) market generation
  instance_id e :
  moves (at_stage v) Read (at_stage v) →
  moves (at_stage v) (read_order_book_head Read market generation instance_id e) (at_stage v).
Proof. intros H. unfold read_order_book_head. stays. Qed.

Lemma at_usdm_event_head v (Read : prog S (option (Received EnvelopeBody))) generation instance_id e :
  moves (at_stage v) Read (at_stage v) →
  moves (at_stage v) (read_usdm_event_head Read generation instance_id e) (at_stage v).
Proof. intros H. unfold read_usdm_event_head. stays. Qed.
#[local] Hint Resolve at_order_book_head at_usdm_event_head : driver.

Lemma at_spot_update v (Read : prog S (option (Received (StreamItemBody Snapshot)))) rounds generation cut
  instance_id e :
  moves (at_stage v) Read (at_stage v) →
  moves (at_stage v) (read_spot_update_after Read rounds generation cut instance_id e) (at_stage v).
Proof. intros H. revert e. induction rounds as [|rounds IH]; intros e; cbn [read_spot_update_after]; stays. Qed.

Lemma at_recovery_cut v (Read : prog S (option (Received (StreamItemBody Snapshot)))) rounds market generation
  instance_id e :
  moves (at_stage v) Read (at_stage v) →
  moves (at_stage v) (read_order_book_recovery_cut Read rounds market generation instance_id e) (at_stage v).
Proof.
  intros H. revert e. induction rounds as [|rounds IH]; intros e; cbn [read_order_book_recovery_cut]; stays.
Qed.

Lemma at_generation_cut v (Read : prog S (option (Received EnvelopeBody))) rounds generation instance_id e :
  moves (at_stage v) Read (at_stage v) →
  moves (at_stage v) (read_event_generation_cut Read rounds generation instance_id e) (at_stage v).
Proof.
  intros H. revert e. induction rounds as [|rounds IH]; intros e; cbn [read_event_generation_cut]; stays.
Qed.
#[local] Hint Resolve at_spot_update at_recovery_cut at_generation_cut : driver.

Lemma at_finished {A} v (p : prog S (option A)) :
  calm v → moves (at_stage v) p (at_stage v) → leads (at_stage v) (TwoMarketDriver.finished p) (at_stage v).
Proof.
  intros Hv Hp. apply (steps_bind _ _ (at_stage v)); [done|]. intros [a|].
  - apply (steps_ok well (at_stage v)). intros s. by apply at_well.
  - apply steps_unfinished. intros s. by apply at_well.
Qed.
#[local] Hint Resolve at_finished : driver.

Lemma at_collect_status v instance_id id g1 g2 n1 n2 :
  moves (S := S) (at_stage v) (collect_status instance_id id g1 g2 n1 n2) (at_stage v).
Proof. unfold collect_status. stays. Qed.
#[local] Hint Resolve at_collect_status : driver.

Lemma at_await v rounds predicate deadline :
  calm v → moves (S := S) (at_stage v) predicate (at_stage v) →
  leads (at_stage v) (await rounds predicate deadline) (at_stage v).
Proof. intros Hv Hp. induction rounds as [|rounds IH]; cbn [await]; drive. Qed.
#[local] Hint Resolve at_await : driver.

Lemma at_wait_for v predicate timeout :
  calm v → moves (S := S) (at_stage v) predicate (at_stage v) →
  leads (at_stage v) (wait_for fuel predicate timeout) (at_stage v).
Proof. intros Hv Hp. unfold wait_for. drive. Qed.
#[local] Hint Resolve at_wait_for : driver.

Lemma at_observe_recovery v product : moves (S := S) (at_stage v) (observe_recovery product) (at_stage v).
Proof. unfold observe_recovery. stays. Qed.
Lemma at_observe_runtime v product : moves (S := S) (at_stage v) (observe_runtime product) (at_stage v).
Proof. unfold observe_runtime. stays. Qed.
#[local] Hint Resolve at_observe_recovery at_observe_runtime : driver.

Lemma at_no_book v product : moves (S := S) (at_stage v) (no_book_subscribers product) (at_stage v).
Proof. unfold no_book_subscribers. stays. Qed.
Lemma at_no_events v product : moves (S := S) (at_stage v) (no_event_subscribers product) (at_stage v).
Proof. unfold no_event_subscribers. stays. Qed.
Lemma at_in_recovery v : moves (S := S) (at_stage v) in_recovery (at_stage v).
Proof. unfold in_recovery. stays. Qed.
#[local] Hint Resolve at_no_book at_no_events at_in_recovery : driver.

(** The Spot stream is open, and the first streams of USD-M. *)
Definition following : Stage := MkStage true true [SpotBook] true true.
Definition all_open : Stage := MkStage true true [UsdmEvent; UsdmBook; SpotBook] true true.

Lemma at_read_streams instance_id :
  moves (S := S) (at_stage all_open) (read_streams instance_id) (at_stage all_open).
Proof. unfold read_streams. stays. Qed.
#[local] Hint Resolve at_read_streams : driver.

Lemma at_recover_usdm instance_id valid streams initial :
  leads (at_stage all_open) (recover_usdm fuel instance_id valid streams initial) (at_stage following).
Proof.
  unfold recover_usdm. drive.
Qed.
#[local] Hint Resolve at_recover_usdm : driver.

Lemma at_fresh_book instance_id :
  leads (at_stage following) (run_fresh_usdm_order_book fuel instance_id) (at_stage following).
Proof. unfold run_fresh_usdm_order_book. drive. Qed.
Lemma at_fresh_event instance_id :
  leads (at_stage following) (run_fresh_usdm_event fuel instance_id) (at_stage following).
Proof. unfold run_fresh_usdm_event. drive. Qed.
#[local] Hint Resolve at_fresh_book at_fresh_event : driver.

Lemma at_usdm_gone v : moves (S := S) (at_stage v) usdm_streams_gone (at_stage v).
Proof. unfold usdm_streams_gone. stays. Qed.
Lemma at_all_gone v : moves (S := S) (at_stage v) all_streams_gone (at_stage v).
Proof. unfold all_streams_gone. stays. Qed.
#[local] Hint Resolve at_usdm_gone at_all_gone : driver.

Lemma at_second_generation instance_id streams_valid status_valid streams recovered :
  leads (at_stage following)
    (use_second_generation fuel instance_id streams_valid status_valid streams recovered) (at_stage serving).
Proof. unfold use_second_generation. drive. Qed.
#[local] Hint Resolve at_second_generation : driver.

Lemma at_two_market_end status_value tls_verified e :
  leads (at_stage serving) (two_market_end status_value tls_verified e) (at_stage idle).
Proof. unfold two_market_end, failed, passed. drive. Qed.
#[local] Hint Resolve at_two_market_end : driver.

Lemma at_two_market_main status_value : leads (at_stage idle) (two_market_main fuel status_value) (at_stage idle).
Proof. unfold two_market_main, serve_two_markets, failed. drive. Qed.
End Helpers.

(** ** The consumers *)

Section Consuming.
Context `{W : WireEnums} `{L : ProjectionLibrary} `{N : NumericLibrary} `{Jl : JsonLibrary}.
Context {Snapshot : Type} `{SM : !SnapshotMessage Snapshot}.
Context {X : Type} `{G : !Gateway X} `{R : !RpcClient Snapshot X} `{Sc : !Schedule X}.
Context (fuel : nat).
Abbreviation C := (Consumers (Watched X)).
Implicit Types (s : C) (b f : bool) (live : StreamName → bool).

Definition stage_of s : Stage := stage (around_them s).
Definition well_used s : Prop := sound (stage_of s) = true.

(** What is behind runs only when [b], the server serves as [f] says, and the streams that
    are open are those of the consumers of [live] whose thread has not finished. *)
Definition holds b f live s : Prop :=
  well_used s ∧ (b = false → back (stage_of s) = false) ∧ front (stage_of s) = f ∧
  ∀ m, m ∈ opens (stage_of s) ↔ live m = true ∧ session_finished (sessions s m) = false.

Abbreviation leads := (steps well_used).

Lemma holds_used b f live s : holds b f live s → well_used s.
Proof. by intros [H _]. Qed.

Lemma holds_live b f live live' s :
  (∀ m, live' m = true ∧ session_finished (sessions s m) = false ↔
        live m = true ∧ session_finished (sessions s m) = false) →
  holds b f live s → holds b f live' s.
Proof.
  intros H (Hw & Hb & Hf & Ho). split_and!; [done..|]. intros m. by rewrite H.
Qed.

(** What keeps the stage and the consumers. *)
Lemma consumers_same b f live s s' :
  stage_of s' = stage_of s → sessions s' = sessions s → holds b f live s → holds b f live s'.
Proof. unfold holds, well_used. by intros -> ->. Qed.

(** A call of the gateway from a phase. *)
Definition of_world {A} (told : A → list GatewayEvent) (g : X → X * A) : C → C * A :=
  within (S := C) told (within (S := Watched X) told g).

Lemma world_stage {A} told (g : X → X * A) s :
  stage_of (fst (of_world told g s)) = foldl watch (stage_of s) (told (snd (of_world told g s))) ∧
  sessions (fst (of_world told g s)) = sessions s.
Proof.
  unfold of_world, within at 1 3 5. cbn. pose proof (tells_within g told (around_them s)) as H.
  destruct (within told g (around_them s)) as [w a]. cbn in *.
  assert (Hn : ∀ l c, foldl (λ (c : C) e, note e c) c l = c) by (intros l; induction l; naive_solver).
  by rewrite Hn.
Qed.

Lemma h_silent {A} b f live (g : X → X * A) :
  moves (holds b f live) (call (of_world untold g)) (holds b f live).
Proof.
  intros s Hs. destruct (world_stage untold g s) as [H1 H2]. exact (consumers_same _ _ _ _ _ H1 H2 Hs).
Qed.

Lemma h_act b f live (g : X → X) :
  moves (holds b f live) (act (within_do (S := C) [] (within_do (S := Watched X) [] g))) (holds b f live).
Proof. intros s Hs. by apply (consumers_same _ _ _ s). Qed.

Lemma h_stop b f live : moves (holds b f live) (act gd_stop) (holds false f live).
Proof. intros s (Hw & _ & Hf & Ho). by split_and!. Qed.

Lemma h_shutdown b f live : moves (holds b f live) (act gd_server_shutdown) (holds b false live).
Proof. intros s (Hw & Hb & _ & Ho). by split_and!. Qed.

Lemma h_start {B} b f live age (k : RecoveryStartResult → prog C (result B)) Q :
  (∀ a, leads (holds (recovery_started a || b) f live) (k a) Q) →
  leads (holds b f live) (call (gd_start age) ≫= k) Q.
Proof.
  intros Hk. apply (runs_bind _ _ (λ a, holds (recovery_started a || b) f live)); [|exact Hk].
  apply runs_atomically. intros s (Hw & Hb & Hf & Ho).
  destruct (world_stage (λ r, [BackStart (recovery_started r)]) (gd_start age) s) as [H1 H2].
  change (gd_start age s) with (of_world (λ r, [BackStart (recovery_started r)]) (gd_start age) s).
  unfold holds, well_used. rewrite H1, H2. by destruct (recovery_started _).
Qed.

Lemma h_serve {B} b live address (k : bool → prog C (result B)) Q :
  (∀ a, leads (holds b a live) (k a) Q) →
  leads (holds b false live) (call (gd_server_start address) ≫= k) Q.
Proof.
  intros Hk. apply (runs_bind _ _ (λ a, holds b a live)); [|exact Hk].
  apply runs_atomically. intros s (Hw & Hb & Hf & Ho).
  destruct (world_stage (λ serving, [FrontStart serving]) (gd_server_start address) s) as [H1 H2].
  change (gd_server_start address s) with (of_world (λ serving, [FrontStart serving]) (gd_server_start address) s).
  unfold holds, well_used in *. rewrite H1, H2. destruct (snd _); cbn; [|by split_and!].
  by rewrite Hw, Hf.
Qed.

(** *** A consumer *)

Lemma h_session {B} b f live n (k : StreamSession → prog C (result B)) Q :
  (∀ c, steps well_used (λ s, holds b f live s ∧ sessions s n = c) (k c) Q) →
  leads (holds b f live) (session n ≫= k) Q.
Proof.
  intros Hk. apply (runs_bind _ _ (λ c s, holds b f live s ∧ sessions s n = c)); [|exact Hk].
  by apply runs_read.
Qed.

Lemma h_accept b f live n g :
  (∀ c, session_finished (g c) = session_finished c) →
  moves (holds b f live) (set_session n g) (holds b f live).
Proof.
  intros Hg s (Hw & Hb & Hf & Ho). split_and!; [done..|]. intros m. cbn.
  rewrite Ho. destruct (decide (m = n)) as [->|]; [by rewrite Hg|done].
Qed.

(** One more round of a thread that has not finished. *)
Lemma h_round b f live n instance_id :
  live n = true →
  moves (λ s, holds b f live s ∧ session_finished (sessions s n) = false)
    (drain_round n instance_id) (holds b f live).
Proof.
  intros Hn.
  apply (runs_bind _ _ (λ _ s, holds b f live s ∧ session_finished (sessions s n) = false)).
  - apply runs_atomically. intros s [(Hw & Hb & Hf & Ho) Hfin].
    change (rc_read_book n s) with (of_world (λ _, [StreamRead n]) (rc_read_book n) s).
    destruct (world_stage (λ _, [StreamRead n]) (rc_read_book n) s) as [H1 H2].
    unfold holds, well_used in *. rewrite H1, H2. cbn. split; [|done]. split_and!; [|done..].
    rewrite Hw. cbn. apply bool_decide_eq_true. by apply Ho.
  - intros [item|].
    + apply (runs_conseq _ (holds b f live) _ _ (λ _, holds b f live)); [by apply h_accept|tauto|done].
    + apply (runs_bind _ _ (λ _ s, well_used s ∧ (b = false → back (stage_of s) = false) ∧
                                    front (stage_of s) = f ∧
                                    ∀ m, m ∈ opens (stage_of s) ↔
                                         m ≠ n ∧ live m = true ∧ session_finished (sessions s m) = false)).
      * apply runs_atomically. intros s [(Hw & Hb & Hf & Ho) Hfin].
        change (rc_finish n s) with (of_world (λ _, [StreamFinished n]) (rc_finish n) s).
        destruct (world_stage (λ _, [StreamFinished n]) (rc_finish n) s) as [H1 H2].
        unfold well_used in *. rewrite H1, H2. cbn. split_and!; [|done..|].
        -- rewrite Hw. cbn. apply bool_decide_eq_true. by apply Ho.
        -- intros m. by rewrite list_elem_of_filter, Ho.
      * intros status s (Hw & Hb & Hf & Ho). split_and!; [done..|]. intros m. cbn. rewrite Ho.
        destruct (decide (m = n)) as [->|]; cbn; [|tauto]. split; [by intros [[]]|by intros [_ ?]].
Qed.

Lemma h_next b f live n instance_id c :
  live n = true → session_finished c = false →
  moves (λ s, holds b f live s ∧ sessions s n = c) (drain_round n instance_id) (holds b f live).
Proof.
  intros Hn Hc s [Hs H]. apply (h_round b f live n instance_id Hn). by rewrite H.
Qed.

Lemma h_wait rounds b f live n instance_id deadline predicate :
  live n = true →
  leads (holds b f live) (session_wait rounds n instance_id deadline predicate) (holds b f live).
Proof.
  intros Hn. induction rounds as [|rounds IH]; cbn [session_wait].
  { apply steps_unfinished, holds_used. }
  apply h_session. intros c. destruct (predicate c).
  { apply (steps_conseq _ _ (holds b f live) _ (holds b f live)); [|tauto|done].
    apply steps_ok, holds_used. }
  apply (steps_bind _ _ (λ s, holds b f live s ∧ sessions s n = c)).
  { intros s [Hs Hc]. destruct (world_stage untold gd_now s) as [H1 H2]. split.
    - exact (consumers_same _ _ _ _ _ H1 H2 Hs).
    - change (sessions (fst (of_world untold gd_now s)) n = c). by rewrite H2. }
  intros now. destruct (negb _).
  { apply (steps_conseq _ _ (holds b f live) _ (holds b f live)); [|tauto|done].
    apply steps_ok, holds_used. }
  apply (steps_bind _ _ (holds b f live)); [|done].
  destruct (session_finished c) eqn:Hc.
  - intros s [Hs _]. exact Hs.
  - by apply h_next.
Qed.

Lemma h_wait_session b f live n instance_id timeout predicate :
  live n = true →
  leads (holds b f live) (wait_session fuel n instance_id timeout predicate) (holds b f live).
Proof.
  intros Hn. unfold wait_session. apply (steps_bind _ _ (holds b f live)); [apply h_silent|]. intros now.
  by apply h_wait.
Qed.

(** The thread has been joined. *)
Lemma h_join rounds b f live n instance_id :
  live n = true →
  leads (holds b f live) (join rounds n instance_id)
    (λ s, holds b f live s ∧ session_finished (sessions s n) = true).
Proof.
  intros Hn. induction rounds as [|rounds IH]; cbn [join]; [apply steps_unfinished, holds_used|].
  apply h_session. intros c. destruct (session_finished c) eqn:Hc.
  - intros s [Hs H]. cbn. rewrite H. split_and!; [by apply (holds_used _ _ _ _ Hs)|done|done].
  - apply (steps_bind _ _ (holds b f live)); [by apply h_next|done].
Qed.

Lemma h_cancel_join b f live n instance_id :
  live n = true →
  leads (holds b f live) (cancel_and_join fuel n instance_id)
    (λ s, holds b f live s ∧ session_finished (sessions s n) = true).
Proof.
  intros Hn. unfold cancel_and_join. apply (steps_bind _ _ (holds b f live)); [apply h_act|].
  intros _. by apply h_join.
Qed.

Lemma h_keep b f live n instance_id :
  live n = true → leads (holds b f live) (cancel_and_join fuel n instance_id) (holds b f live).
Proof.
  intros Hn. eapply steps_conseq; [by apply h_cancel_join|done|]. by intros s [Hs _].
Qed.

(** Its stream is no longer open. *)
Lemma h_cancel b f live live' n instance_id :
  live n = true → (∀ m, live' m = live m && negb (bool_decide (m = n))) →
  leads (holds b f live) (cancel_and_join fuel n instance_id) (holds b f live').
Proof.
  intros Hn Hlive. eapply steps_conseq; [by apply h_cancel_join|done|].
  intros s [Hs H]. apply (holds_live _ _ live); [|done]. intros m. rewrite Hlive.
  destruct (bool_decide_reflect (m = n)) as [->|]; [|by rewrite andb_true_r].
  rewrite H. by split; intros [].
Qed.

Lemma h_catch_up rounds b f live n instance_id :
  live n = true →
  leads (holds b f live) (catch_up rounds n instance_id) (holds b f live).
Proof.
  intros Hn. induction rounds as [|rounds IH]; cbn [catch_up].
  { apply steps_unfinished, holds_used. }
  apply h_session. intros c.
  apply (steps_bind _ _ (λ s, holds b f live s ∧ sessions s n = c)).
  { intros s [Hs Hc]. destruct (world_stage untold another_round s) as [H1 H2]. split.
    - exact (consumers_same _ _ _ _ _ H1 H2 Hs).
    - change (sessions (fst (of_world untold another_round s)) n = c). by rewrite H2. }
  intros more. destruct (negb more || session_finished c) eqn:Hc.
  - apply (steps_conseq _ _ (holds b f live) _ (holds b f live)); [apply steps_ok, holds_used|tauto|done].
  - apply (steps_bind _ _ (holds b f live)); [|done]. apply orb_false_iff in Hc as [_ Hc].
    by apply h_next.
Qed.

Lemma h_open b live live' n id :
  live n = false → (∀ m, live' m = live m || bool_decide (m = n)) →
  moves (holds b true live) (open_session n id) (holds b true live').
Proof.
  intros Hn Hlive. unfold open_session.
  apply (moves_bind _ (holds b true live)); [apply h_silent|]. intros now.
  apply (moves_bind _ (λ s, well_used s ∧ (b = false → back (stage_of s) = false) ∧
                            front (stage_of s) = true ∧
                            ∀ m, m ∈ opens (stage_of s) ↔
                                 m = n ∨ live m = true ∧ session_finished (sessions s m) = false)).
  - intros s (Hw & Hb & Hf & Ho). cbn. unfold well_used in *. cbn. split_and!; [|done..|].
    + unfold stage_of in *. rewrite Hw, Hf. cbn. apply negb_true_iff, bool_decide_eq_false. intros H%Ho.
      destruct H. congruence.
    + intros m. unfold stage_of in *. cbn. by rewrite elem_of_cons, Ho.
  - intros _ s (Hw & Hb & Hf & Ho). split_and!; [done..|]. intros m. cbn. rewrite Ho, Hlive.
    destruct (decide (m = n)) as [->|]; cbn; 
      [rewrite (bool_decide_true (n = n)), orb_true_r by done; by split; [|left]|].
    rewrite (bool_decide_false (m = n)) by done. rewrite orb_false_r. tauto.
Qed.

(** *** The phases *)

Lemma h_say b f live stream text : moves (holds b f live) (say stream text) (holds b f live).
Proof. apply h_act. Qed.

Lemma h_terminal_error b f live error :
  moves (holds b f live) (print_terminal_error error) (holds b f live).
Proof. destruct error; [apply h_say|apply moves_ret]. Qed.

Lemma h_fetch b f live : moves (holds b f live) fetch_metadata (holds b f live).
Proof.
  unfold fetch_metadata. apply (moves_bind _ (holds b f live)); [apply h_silent|]. intros [response|failure].
  - destruct (parse_exchange_info _ _); [apply moves_ret|].
    apply (moves_bind _ (holds b f live)); [apply h_say|]. intros []. apply moves_ret.
  - apply (moves_bind _ (holds b f live)); [apply h_say|]. intros []. apply moves_ret.
Qed.

Definition nobody : StreamName → bool := λ _, false.
Definition only (n : StreamName) : StreamName → bool := λ m, bool_decide (m = n).
Definition both : StreamName → bool := λ m, bool_decide (m = SpotBook) || bool_decide (m = NewSpotBook).

(** After the wait for a generation the recovery may have been stopped. *)
Lemma h_generation f live generation :
  moves (holds true f live) (wait_for_generation generation) (holds true f live).
Proof.
  unfold wait_for_generation. apply (moves_bind _ (holds true f live)); [apply h_silent|]. intros ready.
  apply (moves_bind _ (holds true f live)).
  - destruct ready as [o|]; [apply moves_ret|].
    apply (moves_bind _ (holds true f live)); [|intros _; apply h_silent].
    intros s Hs. apply h_stop in Hs as (Hw & Hb & Hf & Ho). by split_and!.
  - intros o. destruct (negb _); [|apply moves_ret].
    apply (moves_bind _ (holds true f live)); [apply h_terminal_error|]. intros []. apply moves_ret.
Qed.

Lemma h_stop_phase b f live : leads (holds b f live) stop_phase (holds false f live).
Proof.
  apply (steps_bind _ _ (holds false f live)); [apply h_stop|intros _].
  apply (steps_bind _ _ (holds false f live)); [apply h_silent|intros r]. apply steps_ok, holds_used.
Qed.

Lemma h_fail_phase b f live label : leads (holds b f live) (fail_phase label) (holds false false live).
Proof.
  apply (steps_bind _ _ (holds b f live)); [apply h_say|intros _].
  apply (steps_bind _ _ (holds b false live)); [apply h_shutdown|intros _]. apply h_stop_phase.
Qed.

Lemma h_count b f live expected :
  moves (holds b f live) (subscriber_count expected) (holds b f live).
Proof. apply moves_fmap, h_silent. Qed.

Lemma h_await_count b f live rounds deadline expected :
  leads (holds b f live) (await_subscriber_count rounds deadline expected) (holds b f live).
Proof.
  induction rounds as [|rounds IH]; cbn [await_subscriber_count]; [apply steps_unfinished, holds_used|].
  apply (steps_bind _ _ (holds b f live)); [apply h_count|]. intros [].
  { apply steps_ok, holds_used. }
  apply (steps_bind _ _ (holds b f live)); [apply h_act|intros _].
  apply (steps_bind _ _ (holds b f live)); [apply h_silent|intros now].
  destruct (now <? deadline)%Z; [done|]. apply steps_always; [apply holds_used|apply h_count].
Qed.

Lemma h_wait_count b f live expected :
  leads (holds b f live) (wait_for_subscriber_count fuel expected) (holds b f live).
Proof.
  apply (steps_bind _ _ (holds b f live)); [apply h_silent|intros now]. apply h_await_count.
Qed.

Lemma h_wait_initial b f live n instance_id generation :
  live n = true →
  leads (holds b f live) (wait_for_initial fuel n instance_id generation) (holds b f live).
Proof.
  intros Hn. apply (steps_result _ _ (holds b f live)); [by apply h_wait_session|]. intros there.
  apply (steps_bind _ _ (holds b f live)); [by apply runs_read|]. intros c. apply steps_ok, holds_used.
Qed.

Lemma h_wait_terminal b f live n instance_id :
  live n = true →
  leads (holds b f live) (wait_for_terminal fuel n instance_id) (holds b f live).
Proof.
  intros Hn. apply (steps_result _ _ (holds b f live)); [by apply h_wait_session|]. intros there.
  apply (steps_bind _ _ (holds b f live)); [by apply runs_read|]. intros c. apply steps_ok, holds_used.
Qed.

Lemma h_second kind instance_id initial generation_two old :
  leads (holds true true (only SpotBook)) (second_consumer fuel kind instance_id initial generation_two old)
    (holds false false (only SpotBook)).
Proof.
  assert (Hfail : ∀ label, leads (holds true true both) (fail_phase label) (holds false false both)).
  { intros label. apply h_fail_phase. }
  apply (steps_bind _ _ (holds true true both)); [by apply h_open|intros _].
  apply (steps_on_exit _ _ (holds false false both)); [|by apply h_cancel; [|intros []]].
  apply (steps_result _ _ (holds true true both)); [by apply h_wait_initial|intros there].
  destruct (negb there); [apply Hfail|].
  apply (steps_result _ _ (holds true true both)); [by apply h_catch_up|intros new_evidence].
  destruct (negb _); [apply Hfail|].
  do 2 (apply (steps_bind _ _ (holds true true both)); [apply h_silent|intros ?]).
  apply (steps_result _ _ (holds true true both)); [by apply h_keep|intros _].
  apply (steps_bind _ _ (holds true true both)); [by apply runs_read|intros new_final].
  apply (steps_result _ _ (holds true true both)); [apply h_wait_count|intros removed].
  apply (steps_bind _ _ (holds true false both)); [apply h_shutdown|intros _].
  do 2 (apply (steps_bind _ _ (holds true false both)); [apply h_silent|intros ?]).
  apply (steps_bind _ _ (holds false false both)); [apply h_stop|intros _].
  apply (steps_bind _ _ (holds false false both)); [apply h_silent|intros ?].
  apply steps_ok, holds_used.
Qed.

Lemma h_first kind instance_id initial :
  leads (holds true true nobody) (first_consumer fuel kind instance_id initial) (holds false false nobody).
Proof.
  assert (Hfail : ∀ label, leads (holds true true (only SpotBook)) (fail_phase label)
                             (holds false false (only SpotBook))).
  { intros label. apply h_fail_phase. }
  apply (steps_bind _ _ (holds true true (only SpotBook))); [by apply h_open|intros _].
  apply (steps_on_exit _ _ (holds false false (only SpotBook))); [|by apply h_cancel; [|intros []]].
  apply (steps_result _ _ (holds true true (only SpotBook))); [by apply h_wait_initial|intros there].
  destruct (negb there); [apply Hfail|].
  apply (steps_bind _ _ (holds true true (only SpotBook))).
  { unfold and_then. destruct (bool_decide _); [apply moves_fmap, h_silent|apply moves_ret]. }
  intros refused. destruct refused; [apply Hfail|].
  apply (steps_result _ _ (holds true true (only SpotBook))); [by apply h_wait_terminal|intros terminal].
  destruct (negb terminal); [apply Hfail|].
  apply (steps_bind _ _ (holds true true (only SpotBook))); [apply h_generation|].
  intros [generation_two|]; [|apply Hfail].
  apply (steps_result _ _ (holds true true (only SpotBook))); [by apply h_wait_session|intros finish].
  destruct (negb finish); [apply Hfail|].
  apply (steps_result _ _ (holds true true (only SpotBook))); [by apply h_catch_up|intros old].
  destruct (negb _); [apply Hfail|]. apply h_second.
Qed.

Lemma h_phase kind :
  leads (holds false false nobody) (run_phase fuel kind) (holds false false nobody).
Proof.
  unfold run_phase. apply h_start. intros started.
  assert (Hno : leads (holds false false nobody)
                  (say StdErr (line "G8_RECOVERY_START=FAIL") ;; ok no_phase_evidence)
                  (holds false false nobody)).
  { apply (steps_bind _ _ (holds false false nobody)); [apply h_say|intros _]. apply steps_ok, holds_used. }
  destruct started; cbn [recovery_started orb]; try exact Hno.
  apply (steps_bind _ _ (holds true false nobody)); [apply h_generation|].
  intros [initial|]; [|apply h_stop_phase].
  apply (steps_bind _ _ (holds true false nobody)); [apply h_silent|intros instance_id].
  apply h_serve. intros []; cbn [negb]; [apply h_first|].
  apply (steps_bind _ _ (holds true false nobody)); [apply h_say|intros _]. apply h_stop_phase.
Qed.

Lemma h_main : leads (holds false false nobody) (integration_main fuel) (holds false false nobody).
Proof.
  assert (Hfailed : leads (holds false false nobody) failed (holds false false nobody))
    by apply steps_ok, holds_used.
  unfold integration_main. apply (steps_bind _ _ (holds false false nobody)); [apply h_fetch|].
  intros [[response spot]|]; [|done].
  apply (steps_result _ _ (holds false false nobody)); [apply h_phase|intros recovery].
  destruct (negb _).
  { apply (steps_bind _ _ (holds false false nobody)); [apply h_say|by intros _]. }
  apply (steps_result _ _ (holds false false nobody)); [apply h_phase|intros rotation].
  destruct (negb _); (apply (steps_bind _ _ (holds false false nobody)); [apply h_say|intros _]); [done|].
  apply steps_ok, holds_used.
Qed.
End Consuming.

(** ** The watch at the end *)

Section Drivers.
Context `{W : WireEnums} `{L : ProjectionLibrary} `{N : NumericLibrary} `{Jl : JsonLibrary}.
Context {Snapshot : Type} `{SM : !SnapshotMessage Snapshot} `{SM' : !SnapshotMessage LocalOrderBookSnapshot}.
Context {X : Type} `{G : !Gateway X} `{R : !RpcClient Snapshot X} `{Sc : !Schedule X}.
Context (scale_value : DecimalScale → Z) (status_value : ProjectionStatus → Z) (fuel : nat).

(** Nothing runs and no stream is open. *)
Definition all_ended (v : Stage) : Prop := back v = false ∧ front v = false ∧ opens v = [].

(** What a driver leaves, however long its loops were given. *)
Record left_well (d : Driver) (v : Stage) (r : result Z) : Prop := {
  lw_sound : sound v = true;
  lw_order : d ≠ SpotIntegration → in_order v = true;
  lw_ended : r ≠ Unfinished → all_ended v;
  lw_raised m : r ≠ Raised m
}.

Lemma main_left_well (p : prog (Watched X) (result Z)) d x :
  steps well (at_stage idle) p (at_stage idle) →
  left_well d (stage (fst (run p (MkWatched x idle)))) (snd (run p (MkWatched x idle))).
Proof.
  intros Hp. destruct (Hp (MkWatched x idle) eq_refl) as ([Hs Ho] & Hend & Hm). split; [done..| |done].
  intros Hr. destruct (snd _) as [a|m|]; [|by destruct (Hm m)|done].
  rewrite (Hend a eq_refl). by repeat split.
Qed.

(** However the world answers: a driver that ends has stopped what it started and finished
    its streams; it has subscribed only while the server served and read only what was open;
    but for the integration driver, the server was stopped before what is behind it. *)
Lemma drivers_leave_nothing_running d x :
  left_well d (stage (fst (run_driver (Snapshot := Snapshot) scale_value status_value fuel d (MkWatched x idle))))
    (snd (run_driver (Snapshot := Snapshot) scale_value status_value fuel d (MkWatched x idle))).
Proof.
  destruct d; cbn [run_driver].
  - apply main_left_well, at_live_main.
  - apply main_left_well, at_recovery_main.
  - apply main_left_well, at_rotation_main.
  - apply main_left_well, at_grpc_main.
  - assert (Hs : holds false false nobody (MkConsumers (MkWatched x idle) (λ _, no_session))).
    { split_and!; [done..|]. intros m. split; [by intros ?%elem_of_nil|by intros []]. }
    destruct (h_main (Snapshot := Snapshot) fuel _ Hs) as (Hw & Hend & Hm).
    destruct (run _ _) as [s r]. cbn [fst snd] in *. split; [done|done| |done].
    intros Hr. destruct r as [a|m|]; [|by destruct (Hm m)|done].
    destruct (Hend a eq_refl) as (_ & Hb & Hf & Ho). split_and!; [by apply Hb|done|].
    unfold stage_of in Ho. destruct (opens _) as [|n l]; [done|].
    by destruct (proj1 (Ho n) (list_elem_of_here _ _)).
  - apply main_left_well, at_events_main.
  - apply main_left_well, at_two_market_main.
Qed.
End Drivers.
