(* ===== verification/DriverProgress.v ===== *)
(** * DriverProgress: the acceptance drivers end

    [FairGateway]: the steady clock does not go back, goes on while the driver sleeps, and a
    stream has a bounded number of messages.  The loops of the drivers either sleep before
    a deadline or read: a thousand rounds (ten seconds of ten milliseconds, or five seconds
    of five) and one round for every message are enough.

    [drivers_end_and_leave_nothing]: every driver answers an exit code, with nothing left
    running and no stream open, as [DriverSafety] has it. *)

From Stdlib Require Import Ascii.
From S2P Require Import Prelude Ring Wire Text Json Session OrderBookPublication Projection.
From S2P Require Import EventPublication MarketRuntime Recovery Config SpotProtocol UsdmProtocol Network.
From S2P Require Import Transport Registry GrpcRequests Programs GatewayStatus GrpcService GatewayLifecycle.
From S2P Require Import GrpcStreams Daemon Diagnostics Acceptance StreamClient Raising ChildProcess.
From S2P Require Import AcceptanceClient Drivers TwoMarketDriver IntegrationDriver DriverSafety.
From S2P Require Routes Products.

Open Scope gateway_scope.

(** ** A world that goes on *)

Class FairGateway (Snapshot X : Type) `{L : ProjectionLibrary} `{G : !Gateway X}
  `{R : !RpcClient Snapshot X} `{Sc : !Schedule X} : Type := {
  fg_clock : X → Z;
  fg_left : StreamName → X → nat;
  fg_bound : nat;
  fg_left_bound n x : fg_left n x ≤ fg_bound;
  fg_now x : snd (gd_now x) = fg_clock (fst (gd_now x)) ∧ (fg_clock x <= fg_clock (fst (gd_now x)))%Z ∧
             ∀ n, fg_left n (fst (gd_now x)) ≤ fg_left n x;
  fg_sleep d x : (fg_clock x + d <= fg_clock (gd_sleep d x))%Z;
  fg_recovery product x : (fg_clock x <= fg_clock (fst (gd_observe_recovery product x)))%Z;
  fg_runtime product x : (fg_clock x <= fg_clock (fst (gd_observe_runtime product x)))%Z;
  fg_events product x : (fg_clock x <= fg_clock (fst (gd_observe_events product x)))%Z;
  fg_transport x : (fg_clock x <= fg_clock (fst (gd_observe_transport x)))%Z;
  fg_contexts x : (fg_clock x <= fg_clock (fst (gd_tracked_contexts x)))%Z;
  fg_read_book n x : match snd (rc_read_book n x) with
                     | Some _ => fg_left n (fst (rc_read_book n x)) < fg_left n x
                     | None => True
                     end;
  fg_read_event n x : match snd (rc_read_event n x) with
                      | Some _ => fg_left n (fst (rc_read_event n x)) < fg_left n x
                      | None => True
                      end;
  fg_round n x : fg_left n (fst (another_round x)) ≤ fg_left n x
}.

(** A state around a fair world is fair. *)
Section Around.
Context `{L : ProjectionLibrary} {Snapshot S X : Type} `{A : !Around S X}.
Context `{G : !Gateway X} `{R : !RpcClient Snapshot X} `{Sc : !Schedule X} `{F : !FairGateway Snapshot X}.
Context (Hput : ∀ x (s : S), inside (put x s) = x) (Hnote : ∀ e (s : S), inside (note e s) = inside s).

Definition schedule_within : Schedule S := {| another_round := within untold another_round |}.

Lemma inside_within {B} (told : B → list GatewayEvent) (f : X → X * B) (s : S) :
  inside (fst (within told f s)) = fst (f (inside s)) ∧ snd (within told f s) = snd (f (inside s)).
Proof.
  unfold within. destruct (f (inside s)) as [x b]. cbn. split; [|done].
  assert (H : ∀ l (s : S), inside (foldl (λ s e, note e s) s l) = inside s).
  { intros l. induction l as [|e l IH]; intros s'; [done|]. cbn. by rewrite IH, Hnote. }
  by rewrite H, Hput.
Qed.

Definition fair_within : @FairGateway Snapshot S L gateway_within client_within schedule_within.
Proof.
  refine {| fg_clock s := fg_clock (Snapshot := Snapshot) (inside s);
            fg_left n s := fg_left (Snapshot := Snapshot) n (inside s);
            fg_bound := fg_bound (Snapshot := Snapshot) (X := X) |}; intros; cbn.
  - apply fg_left_bound.
  - destruct (inside_within untold gd_now x) as [H1 H2]. rewrite H1, H2. apply fg_now.
  - unfold within_do. cbn. rewrite Hput. apply fg_sleep.
  - rewrite (proj1 (inside_within _ _ _)). apply fg_recovery.
  - rewrite (proj1 (inside_within _ _ _)). apply fg_runtime.
  - rewrite (proj1 (inside_within _ _ _)). apply fg_events.
  - rewrite (proj1 (inside_within _ _ _)). apply fg_transport.
  - rewrite (proj1 (inside_within _ _ _)). apply fg_contexts.
  - destruct (inside_within (λ _, [StreamRead n]) (rc_read_book n) x) as [H1 H2]. rewrite H1, H2.
    apply fg_read_book.
  - destruct (inside_within (λ _, [StreamRead n]) (rc_read_event n) x) as [H1 H2]. rewrite H1, H2.
    apply fg_read_event.
  - rewrite (proj1 (inside_within _ _ _)). apply fg_round.
Defined.
End Around.

(** ** Programs that end *)

Section Ends.
Context {S : Type}.
Implicit Types (P Q : S → Prop).

(** From a state of [P], it ends. *)
Definition ends_from {A} P (p : prog S (result A)) : Prop := runs P p (λ r _, r ≠ Unfinished).

Definition ends {A} (p : prog S (result A)) : Prop := ∀ P, ends_from P p.

Lemma ends_of {A} (p : prog S (result A)) : ends_from (λ _, True) p → ends p.
Proof. intros H P s _. by apply H. Qed.

Lemma ends_ok {A} (a : A) : ends (ok a).
Proof. intros P. by apply runs_ret. Qed.

Lemma ends_bind {A B} (p : prog S A) (k : A → prog S (result B)) : (∀ a, ends (k a)) → ends (p ≫= k).
Proof. intros Hk P s _. rewrite run_bind. by apply (Hk _ (λ _, True)). Qed.

Lemma ends_from_result {A B} P (p : prog S (result A)) (k : A → prog S (result B)) :
  ends_from P p → (∀ a, ends (k a)) → ends_from P (bind_result p k).
Proof.
  intros Hp Hk s Hs. unfold bind_result. rewrite run_bind. pose proof (Hp s Hs) as H.
  destruct (run p s) as [s' [a|m|]]; cbn [fst snd] in *; [by apply (Hk a (λ _, True))|done|done].
Qed.

Lemma ends_result {A B} (p : prog S (result A)) (k : A → prog S (result B)) :
  ends p → (∀ a, ends (k a)) → ends (bind_result p k).
Proof.
  intros Hp Hk P s Hs. unfold bind_result. rewrite run_bind. pose proof (Hp P s Hs) as H.
  destruct (run p s) as [s' [a|m|]]; cbn [fst snd] in *; [by apply (Hk a (λ _, True))|done|done].
Qed.

Lemma ends_always {A} (p : prog S A) : ends (always p).
Proof. intros P s _. by rewrite run_always. Qed.

Lemma ends_on_exit {A} (p : prog S (result A)) d : ends p → ends d → ends (on_exit p d).
Proof.
  intros Hp Hd P s Hs. unfold on_exit. rewrite run_bind. pose proof (Hp P s Hs) as H.
  destruct (run p s) as [s' r]; cbn [fst snd] in *.
  destruct r as [a|m|]; [| |done]; rewrite run_bind; pose proof (Hd (λ _, True) s' I) as H';
    destruct (run d s') as [s'' [[]|m'|]]; cbn [fst snd] in *; done.
Qed.

Lemma ends_from_bind {A B} P Q (p : prog S A) (k : A → prog S (result B)) :
  moves P p Q → (∀ a, ends_from Q (k a)) → ends_from P (p ≫= k).
Proof. apply (runs_bind P p (λ _, Q)). Qed.
End Ends.

Create HintDb ending.
#[export] Hint Resolve ends_ok ends_always : ending.
Ltac ending :=
  repeat first
    [ solve [auto 3 with ending nocore]
    | lazymatch goal with
      | |- ends (ok _) => apply ends_ok
      | |- ends (always _) => apply ends_always
      | |- ends (bind_result _ _) => apply ends_result; [|intros ?]
      | |- ends (mbind _ (call gd_now)) => fail
      | |- ends (mbind _ _) => apply ends_bind; intros ?
      | |- ends (on_exit _ _) => apply ends_on_exit
      end
    | lazymatch goal with |- ends (mbind _ _) => fail | _ => case_match end ].

Section Loops.
Context `{W : WireEnums} `{L : ProjectionLibrary} `{N : NumericLibrary} `{Jl : JsonLibrary}.
Context {Snapshot : Type} `{SM : !SnapshotMessage Snapshot} `{SM' : !SnapshotMessage LocalOrderBookSnapshot}.
Context {X : Type} `{G : !Gateway X} `{R : !RpcClient Snapshot X} `{Sc : !Schedule X}.
Context `{F : !FairGateway Snapshot X}.
Abbreviation clock := (fg_clock (Snapshot := Snapshot)).
Abbreviation bound := (fg_bound (Snapshot := Snapshot) (X := X)).
Abbreviation left := (fg_left (Snapshot := Snapshot)).

(** *** Loops that sleep before a deadline *)

(** The deadline is at most this many steps away. *)
Definition within_steps (deadline step : Z) (n : nat) (x : X) : Prop :=
  (deadline <= clock x + step * Z.of_nat n)%Z.

(** A call that the clock does not go back in. *)
Definition forward {A} (g : X → X * A) : Prop := ∀ x, (clock x <= clock (fst (g x)))%Z.

Lemma steps_call {A} deadline step n (g : X → X * A) :
  forward g → moves (within_steps deadline step n) (call g) (within_steps deadline step n).
Proof. intros Hg x Hx. unfold within_steps in *. specialize (Hg x). cbn. lia. Qed.

Lemma steps_fmap {A B} deadline step n (g : X → X * A) (f : A → B) :
  forward g → moves (within_steps deadline step n) (f <$> call g) (within_steps deadline step n).
Proof. intros Hg. by apply moves_fmap, steps_call. Qed.

Lemma steps_sleep deadline step n :
  (0 < step)%Z →
  moves (within_steps deadline step n) (act (gd_sleep step)) (within_steps deadline step (pred n)).
Proof.
  intros Hstep x Hx. unfold within_steps in *. pose proof (fg_sleep step x) as H. cbn. destruct n; cbn; lia.
Qed.

(** The test of a deadline: before it, there is a step left. *)
Lemma ends_test {B} deadline step n (k : Z → prog X (result B)) :
  (0 < step)%Z →
  (∀ now, (deadline <= now)%Z → ends (k now)) →
  (∀ now, (now < deadline)%Z → 1 ≤ n → ends_from (within_steps deadline step n) (k now)) →
  ends_from (within_steps deadline step n) (call gd_now ≫= k).
Proof.
  intros Hstep Hlate Hsoon x Hx. unfold call. rewrite run_bind. cbn.
  destruct (fg_now x) as (Hnow & Hle & _). unfold within_steps in *.
  destruct (decide (deadline <= snd (gd_now x))%Z) as [Hd|Hd]; [by apply (Hlate _ Hd (λ _, True))|].
  destruct n as [|n]; [lia|]. apply Hsoon; [lia|lia|]. unfold within_steps. lia.
Qed.

(** A loop that waits from now on. *)
Lemma ends_start {B} timeout step n (k : Z → prog X (result B)) :
  (timeout <= step * Z.of_nat n)%Z →
  (∀ now, ends_from (within_steps (now + timeout)%Z step n) (k now)) →
  ends (call gd_now ≫= k).
Proof.
  intros Ht Hk P x _. unfold call. rewrite run_bind. cbn. destruct (fg_now x) as (Hnow & _ & _).
  apply Hk. unfold within_steps. lia.
Qed.

Lemma forward_runtime product : forward (gd_observe_runtime product).
Proof. exact (fg_runtime product). Qed.
Lemma forward_recovery product : forward (gd_observe_recovery product).
Proof. exact (fg_recovery product). Qed.
Lemma forward_events product : forward (gd_observe_events product).
Proof. exact (fg_events product). Qed.
Lemma forward_transport : forward gd_observe_transport.
Proof. exact fg_transport. Qed.
Lemma forward_contexts : forward gd_tracked_contexts.
Proof. exact fg_contexts. Qed.
#[local] Hint Resolve forward_runtime forward_recovery forward_events forward_transport forward_contexts
  steps_call steps_fmap : ending.

(** Through the body of such a loop, to its next round. *)
Ltac awaits IH :=
  repeat first
    [ lazymatch goal with
      | |- ends_from _ (mbind _ (call gd_now)) =>
          apply ends_test; [done|intros ? ?; ending; lia|intros ? ? ?]
      | |- ends_from _ (mbind _ (act (gd_sleep _))) => eapply ends_from_bind; [by apply steps_sleep|intros ?]
      | |- ends_from _ (mbind _ _) => eapply ends_from_bind; [solve [auto 3 with ending nocore]|intros ?]
      end
    | solve [apply IH; lia]
    | solve [apply ends_ok]
    | solve [apply ends_always]
    | case_match ].

Lemma ends_later rounds deadline initial :
  1 ≤ rounds →
  ends_from (within_steps deadline (milliseconds 25) (pred rounds)) (later_update rounds deadline initial).
Proof. induction rounds as [|rounds IH]; intros Hr; [lia|]. cbn [later_update pred]. awaits IH. Qed.

Lemma ends_bootstrap rounds deadline last :
  1 ≤ rounds →
  ends_from (within_steps deadline (milliseconds 25) (pred rounds)) (bootstrap_wait rounds deadline last).
Proof. revert last. induction rounds as [|rounds IH]; intros last Hr; [lia|]. cbn [bootstrap_wait pred]. awaits IH. Qed.

Lemma ends_post_live rounds deadline id :
  1 ≤ rounds →
  ends_from (within_steps deadline (milliseconds 25) (pred rounds)) (post_live_wait rounds deadline id).
Proof. induction rounds as [|rounds IH]; intros Hr; [lia|]. cbn [post_live_wait pred]. awaits IH. Qed.

Lemma ends_ping rounds deadline :
  1 ≤ rounds →
  ends_from (within_steps deadline (milliseconds 50) (pred rounds)) (ping_wait rounds deadline).
Proof. induction rounds as [|rounds IH]; intros Hr; [lia|]. cbn [ping_wait pred]. awaits IH. Qed.

Lemma forward_no_subscribers deadline step n :
  moves (within_steps deadline step n) no_subscribers (within_steps deadline step n).
Proof. apply steps_fmap, forward_runtime. Qed.
Lemma forward_event_subscribers deadline step n expected :
  moves (within_steps deadline step n) (event_subscribers expected) (within_steps deadline step n).
Proof. apply steps_fmap, forward_events. Qed.
#[local] Hint Resolve forward_no_subscribers forward_event_subscribers : ending.

Lemma ends_removal rounds deadline :
  1 ≤ rounds →
  ends_from (within_steps deadline (milliseconds 10) (pred rounds)) (subscriber_removal rounds deadline).
Proof.
  induction rounds as [|rounds IH]; intros Hr; [lia|]. cbn [subscriber_removal pred]. awaits IH.
Qed.

Lemma ends_await_events rounds deadline expected :
  1 ≤ rounds →
  ends_from (within_steps deadline (milliseconds 5) (pred rounds))
    (await_event_subscribers rounds deadline expected).
Proof.
  induction rounds as [|rounds IH]; intros Hr; [lia|]. cbn [await_event_subscribers pred]. awaits IH.
Qed.

Lemma ends_await rounds predicate deadline :
  (∀ n, moves (within_steps deadline (milliseconds 10) n) predicate
          (within_steps deadline (milliseconds 10) n)) →
  1 ≤ rounds →
  ends_from (within_steps deadline (milliseconds 10) (pred rounds)) (await rounds predicate deadline).
Proof. intros Hp. induction rounds as [|rounds IH]; intros Hr; [lia|]. cbn [await pred]. awaits IH. Qed.

(** *** Loops that read *)

(** A stream with fewer messages left than this. *)
Definition fewer (n : StreamName) (k : nat) (x : X) : Prop := left n x < k.

Lemma ends_read_book {B} n k (next : option (Received (StreamItemBody Snapshot)) → prog X (result B)) :
  (∀ item, ends_from (fewer n k) (next (Some item))) → ends (next None) →
  ends_from (fewer n (S k)) (call (rc_read_book n) ≫= next).
Proof.
  intros Hs Hn x Hx. unfold call. rewrite run_bind. cbn. pose proof (fg_read_book n x) as H.
  destruct (rc_read_book n x) as [x' [item|]]; cbn [fst snd] in *; [|by apply (Hn (λ _, True))].
  apply Hs. unfold fewer in *. lia.
Qed.

Lemma ends_read_event {B} n k (next : option (Received EnvelopeBody) → prog X (result B)) :
  (∀ item, ends_from (fewer n k) (next (Some item))) → ends (next None) →
  ends_from (fewer n (S k)) (call (rc_read_event n) ≫= next).
Proof.
  intros Hs Hn x Hx. unfold call. rewrite run_bind. cbn. pose proof (fg_read_event n x) as H.
  destruct (rc_read_event n x) as [x' [item|]]; cbn [fst snd] in *; [|by apply (Hn (λ _, True))].
  apply Hs. unfold fewer in *. lia.
Qed.

(** Enough rounds for every message. *)
Lemma ends_enough {A} n rounds (p : prog X (result A)) :
  bound < rounds → ends_from (fewer n rounds) p → ends p.
Proof. intros Hr Hp P x _. apply Hp. unfold fewer. pose proof (fg_left_bound n x). lia. Qed.

Lemma ends_read_session rounds more instance_id generation stream e :
  ends_from (fewer SpotEvent rounds) (read_session rounds more instance_id generation stream e).
Proof.
  revert e. induction rounds as [|rounds IH]; intros e; [by intros x Hx%Nat.nlt_0_r|]. cbn [read_session].
  destruct (negb _); [apply ends_ok|]. by apply ends_read_event; [|apply ends_ok].
Qed.

Lemma ends_drain n (Read : prog X bool) rounds :
  (∀ k, runs (fewer n (S k)) Read (λ more x, more = true → fewer n k x)) →
  ends_from (fewer n rounds) (drain Read rounds).
Proof.
  intros Hread. induction rounds as [|rounds IH]; [by intros x Hx%Nat.nlt_0_r|]. cbn [drain].
  apply (runs_bind _ _ _ _ _ (Hread rounds)). intros [].
  - intros x Hx. by apply IH, Hx.
  - by apply runs_ret.
Qed.

Lemma fewer_book n k :
  runs (fewer n (S k)) ((λ item, bool_decide (is_Some item)) <$> call (rc_read_book n))
    (λ more x, more = true → fewer n k x).
Proof.
  intros x Hx. unfold fmap, prog_fmap. rewrite run_bind. cbn. pose proof (fg_read_book n x) as H.
  destruct (rc_read_book n x) as [x' [item|]]; cbn in *; [|done]. intros _. unfold fewer in *. lia.
Qed.

Lemma fewer_event n k :
  runs (fewer n (S k)) ((λ item, bool_decide (is_Some item)) <$> call (rc_read_event n))
    (λ more x, more = true → fewer n k x).
Proof.
  intros x Hx. unfold fmap, prog_fmap. rewrite run_bind. cbn. pose proof (fg_read_event n x) as H.
  destruct (rc_read_event n x) as [x' [item|]]; cbn in *; [|done]. intros _. unfold fewer in *. lia.
Qed.

(** The readers that go on until a notice. *)
Abbreviation answers P p := (runs P p (λ r _, r ≠ None)).

Lemma answers_book {B} n k (next : option (Received (StreamItemBody Snapshot)) → prog X (option B)) :
  (∀ item, answers (fewer n k) (next (Some item))) → answers (λ _, True) (next None) →
  answers (fewer n (S k)) (call (rc_read_book n) ≫= next).
Proof.
  intros Hs Hn x Hx. unfold call. rewrite run_bind. cbn. pose proof (fg_read_book n x) as H.
  destruct (rc_read_book n x) as [x' [item|]]; cbn [fst snd] in *; [|by apply Hn].
  apply Hs. unfold fewer in *. lia.
Qed.

Lemma answers_event {B} n k (next : option (Received EnvelopeBody) → prog X (option B)) :
  (∀ item, answers (fewer n k) (next (Some item))) → answers (λ _, True) (next None) →
  answers (fewer n (S k)) (call (rc_read_event n) ≫= next).
Proof.
  intros Hs Hn x Hx. unfold call. rewrite run_bind. cbn. pose proof (fg_read_event n x) as H.
  destruct (rc_read_event n x) as [x' [item|]]; cbn [fst snd] in *; [|by apply Hn].
  apply Hs. unfold fewer in *. lia.
Qed.

Lemma answers_spot_update n rounds generation cut instance_id e :
  answers (fewer n rounds)
    (read_spot_update_after (call (rc_read_book n)) rounds generation cut instance_id e).
Proof.
  revert e. induction rounds as [|rounds IH]; intros e; [by intros x Hx%Nat.nlt_0_r|].
  cbn [read_spot_update_after]. apply answers_book; [intros item|by apply runs_ret].
  repeat case_match; first [by apply runs_ret | apply IH].
Qed.

Lemma answers_recovery_cut n rounds market generation instance_id e :
  answers (fewer n rounds)
    (read_order_book_recovery_cut (call (rc_read_book n)) rounds market generation instance_id e).
Proof.
  revert e. induction rounds as [|rounds IH]; intros e; [by intros x Hx%Nat.nlt_0_r|].
  cbn [read_order_book_recovery_cut]. apply answers_book; [intros item|by apply runs_ret].
  repeat case_match; try first [by apply runs_ret | apply IH].
  apply (runs_bind _ _ (λ _ _, True)); [done|]. intros ?. by apply runs_ret.
Qed.

Lemma answers_generation_cut n rounds generation instance_id e :
  answers (fewer n rounds)
    (read_event_generation_cut (call (rc_read_event n)) rounds generation instance_id e).
Proof.
  revert e. induction rounds as [|rounds IH]; intros e; [by intros x Hx%Nat.nlt_0_r|].
  cbn [read_event_generation_cut]. apply answers_event; [intros item|by apply runs_ret].
  repeat case_match; try first [by apply runs_ret | apply IH].
  apply (runs_bind _ _ (λ _ _, True)); [done|]. intros ?. by apply runs_ret.
Qed.

Lemma ends_finished {A} n rounds (p : prog X (option A)) :
  bound < rounds → answers (fewer n rounds) p → ends (TwoMarketDriver.finished p).
Proof.
  intros Hr Hp. apply (ends_enough n rounds); [done|].
  apply (runs_bind _ _ (λ r _, r ≠ None)); [done|]. by intros [a|] x Hx.
Qed.

(** *** The mains *)

Context (scale_value : DecimalScale → Z) (fuel : nat).
Context (enough : 1000 < fuel) (enough_for_streams : bound < fuel).

Lemma ends_wait_later initial : ends (S := X) (wait_for_later_real_update fuel initial).
Proof.
  apply (ends_start (seconds 10) (milliseconds 25) (pred fuel)); [unfold seconds, milliseconds; lia|].
  intros now. apply ends_later. lia.
Qed.

Lemma ends_wait_removal : ends (S := X) (wait_for_subscriber_removal fuel).
Proof.
  apply (ends_start (seconds 5) (milliseconds 10) (pred fuel)); [unfold seconds, milliseconds; lia|].
  intros now. apply ends_removal. lia.
Qed.

Lemma ends_wait_events expected : ends (S := X) (wait_for_event_subscribers fuel expected).
Proof.
  apply (ends_start (seconds 5) (milliseconds 5) (pred fuel)); [unfold seconds, milliseconds; lia|].
  intros now. apply ends_await_events. lia.
Qed.

Lemma ends_session more instance_id generation stream e :
  ends (S := X) (read_session fuel more instance_id generation stream e).
Proof. apply (ends_enough SpotEvent fuel); [done|]. apply ends_read_session. Qed.

Lemma ends_drain_book n : ends (S := X) (drain_book fuel n).
Proof.
  apply ends_result; [|intros _; apply ends_always].
  apply (ends_enough n fuel); [done|]. apply ends_drain. intros k. apply fewer_book.
Qed.

Lemma ends_drain_event n : ends (S := X) (drain_event fuel n).
Proof.
  apply ends_result; [|intros _; apply ends_always].
  apply (ends_enough n fuel); [done|]. apply ends_drain. intros k. apply fewer_event.
Qed.
#[local] Hint Resolve ends_wait_later ends_wait_removal ends_wait_events ends_session ends_drain_book
  ends_drain_event : ending.

Ltac start timeout step :=
  apply (ends_start timeout step (pred fuel)); [unfold seconds, milliseconds; lia|intros ?].

Lemma ends_live_transport tls_verified : ends (S := X) (live_transport fuel tls_verified).
Proof.
  unfold live_transport, both_stop_and_fail, runtime_stop_and_fail, failed.
  start (seconds 20) (milliseconds 25). apply ends_from_result; [apply ends_bootstrap; lia|].
  intros [live runtime]. destruct (obs_last_update_id runtime) as [id|], live; ending.
  start (seconds 10) (milliseconds 25). apply ends_from_result; [apply ends_post_live; lia|]. intros post_live.
  destruct (negb _); ending.
  start (seconds 25) (milliseconds 50). apply ends_from_result; [apply ends_ping; lia|]. intros _.
  unfold live_snapshot, runtime_stop_and_fail, failed, passed. ending.
Qed.
#[local] Hint Resolve ends_live_transport : ending.

Lemma ends_live_main : ends (S := X) (live_main fuel scale_value).
Proof. unfold live_main, both_stop_and_fail, runtime_stop_and_fail, failed. ending. Qed.

Lemma ends_first_generation label rotation tail_check k :
  (∀ initial, ends (k initial)) → ends (S := X) (first_generation fuel label rotation tail_check k).
Proof. intros Hk. unfold first_generation, stop_and_fail, failed. ending. Qed.

Lemma ends_finish_two label last_id second report :
  ends (S := X) (finish_generation_two fuel label last_id second report).
Proof. unfold finish_generation_two, stop_and_fail, failed, passed. ending. Qed.
#[local] Hint Resolve ends_finish_two : ending.

Lemma ends_recovery_main : ends (S := X) (recovery_main fuel).
Proof.
  unfold recovery_main, failed. ending. apply ends_first_generation. intros initial.
  unfold stop_and_fail, failed. ending.
Qed.

Lemma ends_rotation_main : ends (S := X) (rotation_main fuel).
Proof.
  unfold rotation_main, failed. ending. apply ends_first_generation. intros initial.
  unfold stop_and_fail, failed. ending.
Qed.

Lemma ends_start_recovery label k :
  (∀ initial, ends (k initial)) → ends (S := X) (start_recovery label k).
Proof. intros Hk. unfold start_recovery, stop_and_fail, failed. ending. Qed.

Lemma ends_grpc_main : ends (S := X) (grpc_main fuel).
Proof.
  unfold grpc_main, failed. ending. apply ends_start_recovery. intros initial.
  unfold serve_book, stop_and_fail, failed, passed. ending.
Qed.

Lemma ends_finite_session stream generation required instance_id id :
  ends (S := X) (run_finite_session fuel stream generation required instance_id id).
Proof. unfold run_finite_session. ending. Qed.

Lemma ends_recovered_session instance_id : ends (S := X) (recovered_session fuel instance_id).
Proof. unfold recovered_session. ending. Qed.
#[local] Hint Resolve ends_finite_session ends_recovered_session : ending.

Lemma ends_events_main : ends (S := X) (events_main fuel).
Proof.
  unfold events_main, failed. ending. apply ends_start_recovery. intros initial.
  unfold serve_events, stop_and_fail, failed. ending; unfold events_end, failed, passed; ending.
Qed.

(** *** The two products *)

Lemma forward_predicate deadline step n :
  moves (within_steps deadline step n) in_recovery (within_steps deadline step n) ∧
  moves (within_steps deadline step n) usdm_streams_gone (within_steps deadline step n) ∧
  moves (within_steps deadline step n) all_streams_gone (within_steps deadline step n).
Proof.
  assert (Hand : ∀ c (p : prog X bool),
    moves (within_steps deadline step n) p (within_steps deadline step n) →
    moves (within_steps deadline step n) (and_then c p) (within_steps deadline step n)).
  { intros [] p Hp; [done|apply moves_ret]. }
  assert (Hbook : ∀ product, moves (within_steps deadline step n) (no_book_subscribers product)
                               (within_steps deadline step n)).
  { intros product. apply steps_fmap, forward_runtime. }
  assert (Hevents : ∀ product, moves (within_steps deadline step n) (no_event_subscribers product)
                                 (within_steps deadline step n)).
  { intros product. apply steps_fmap, forward_events. }
  split_and!.
  - apply steps_fmap, forward_recovery.
  - apply (moves_bind _ _ _ _ _ (Hbook UsdmProduct)). intros b. by apply Hand.
  - apply (moves_bind _ _ _ _ _ (Hbook SpotProduct)). intros b1.
    do 3 (eapply moves_bind; [by apply Hand|intros ?]). apply Hand, steps_fmap, forward_contexts.
Qed.

Lemma ends_wait_for predicate timeout :
  (timeout <= seconds 10)%Z →
  (∀ deadline n, moves (within_steps deadline (milliseconds 10) n) predicate
                   (within_steps deadline (milliseconds 10) n)) →
  ends (S := X) (wait_for fuel predicate timeout).
Proof.
  intros Ht Hp.
  apply (ends_start timeout (milliseconds 10) (pred fuel)); [unfold seconds, milliseconds in *; lia|].
  intros now. apply ends_await; [done|lia].
Qed.

Lemma ends_cancel_book n : ends (S := X) (cancel_book fuel n).
Proof. apply ends_bind. intros _. apply ends_drain_book. Qed.
Lemma ends_cancel_events n : ends (S := X) (cancel_events fuel n).
Proof. apply ends_bind. intros _. apply ends_drain_event. Qed.
Lemma ends_finish_cut cut cancel n : ends cancel → ends (finish_cut cut cancel n).
Proof. destruct cut; [intros _; apply ends_always|done]. Qed.
Lemma ends_and_run b (p : prog X (result bool)) : ends p → ends (and_run b p).
Proof. by destruct b; [|intros _; apply ends_ok]. Qed.
#[local] Hint Resolve ends_cancel_book ends_cancel_events ends_finish_cut : ending.

Lemma ends_read_on {A} b n (p : prog X (option (A * bool))) :
  answers (fewer n fuel) p → ends (and_run b (let* r := TwoMarketDriver.finished p in ok (snd r))).
Proof.
  intros Hp. apply ends_and_run, ends_result; [|intros r; apply ends_ok]. by apply (ends_finished n fuel).
Qed.

Lemma ends_recover_usdm instance_id valid streams initial :
  ends (S := X) (recover_usdm fuel instance_id valid streams initial).
Proof.
  unfold recover_usdm. do 3 (apply ends_bind; intros ?).
  apply ends_result; [apply ends_and_run, ends_wait_for; [done|intros d n; apply (forward_predicate d _ n)]|].
  intros window. apply ends_bind; intros during.
  apply ends_result; [apply (ends_read_on _ SpotBook), answers_spot_update|intros continued].
  apply ends_result; [apply (ends_read_on _ UsdmBook), answers_recovery_cut|intros book_cut].
  apply ends_result; [ending|intros book_status].
  apply ends_result; [apply (ends_read_on _ UsdmEvent), answers_generation_cut|intros event_cut]. ending.
Qed.

Lemma ends_second_generation instance_id streams_valid status_valid streams recovered :
  ends (S := X) (use_second_generation fuel instance_id streams_valid status_valid streams recovered).
Proof.
  unfold use_second_generation, run_fresh_usdm_order_book, run_fresh_usdm_event.
  do 2 (apply ends_result; [ending|intros ?]).
  apply ends_result; [apply ends_and_run, ends_wait_for; [done|intros d n; apply (forward_predicate d _ n)]|].
  intros removed. apply ends_bind; intros status. apply ends_result; [ending|intros cancelled].
  apply ends_result; [apply ends_wait_for; [done|intros d n; apply (forward_predicate d _ n)]|]. ending.
Qed.
#[local] Hint Resolve ends_recover_usdm ends_second_generation : ending.

Lemma ends_two_market_main status_value : ends (S := X) (two_market_main fuel status_value).
Proof.
  unfold two_market_main, serve_two_markets, two_market_end, stop_and_fail, failed, passed. ending.
Qed.
End Loops.

(** ** The consumers *)

Section Consuming.
Context `{W : WireEnums} `{L : ProjectionLibrary} `{N : NumericLibrary} `{Jl : JsonLibrary}.
Context {Snapshot : Type} `{SM : !SnapshotMessage Snapshot}.
Context {X : Type} `{G : !Gateway X} `{R : !RpcClient Snapshot X} `{Sc : !Schedule X}.
Context `{F : !FairGateway Snapshot X}.
Abbreviation C := (Consumers X).
Context (fuel : nat).
Implicit Types (s : C).

#[local] Instance consumers_schedule : Schedule C := schedule_within (S := C) (X := X).
#[local] Instance consumers_fair : FairGateway Snapshot C := fair_within (S := C) (X := X) (λ _ _, eq_refl) (λ _ _, eq_refl).
Abbreviation bound := (fg_bound (Snapshot := Snapshot) (X := X)).
Context (enough : 1000 < fuel) (enough_for_streams : bound + 1 < fuel).

(** The thread has finished, or its stream has fewer messages left. *)
Definition nearly (n : StreamName) (k : nat) s : Prop :=
  session_finished (sessions s n) = true ∨ fg_left (Snapshot := Snapshot) n s < k.

Lemma sessions_within {A} told (g : X → X * A) s :
  sessions (fst (within (S := C) told g s)) = sessions s.
Proof.
  unfold within. cbn. destruct (g (around_them s)) as [x a]. cbn.
  assert (H : ∀ l (c : C), sessions (foldl (λ (c : C) e, note e c) c l) = sessions c)
    by (intros l; induction l as [|e l IH]; intros c; [done|exact (IH c)]).
  by rewrite H.
Qed.

(** A round brings the end nearer. *)
Lemma nearer n instance_id k s :
  fg_left (Snapshot := Snapshot) n s < S k → nearly n k (fst (run (drain_round n instance_id) s)).
Proof.
  intros Hs. unfold drain_round, call. rewrite run_bind. cbn. pose proof (fg_read_book n s) as H.
  pose proof (sessions_within (λ _, [StreamRead n]) (rc_read_book n) s) as Hsame.
  change (within (λ _ : option _, [StreamRead n]) (rc_read_book n) s) with (rc_read_book n s) in *.
  destruct (rc_read_book n s) as [s' [item|]]; cbn [fst snd] in *.
  - right. cbn in *. lia.
  - left. cbn. by rewrite decide_True.
Qed.

Lemma ends_session_wait rounds n instance_id deadline predicate k :
  (∀ c, session_finished c = true → predicate c = true) → rounds = S k →
  ends_from (nearly n k) (session_wait rounds n instance_id deadline predicate).
Proof.
  intros Hp. revert k. induction rounds as [|rounds IH]; intros k Hk; [done|]. injection Hk as ->.
  cbn [session_wait].
  apply (runs_bind _ _ (λ c s, nearly n k s ∧ sessions s n = c)); [by apply runs_read|].
  intros c. destruct (predicate c) eqn:Hc; [by apply runs_ret|].
  destruct (session_finished c) eqn:Hfin; [by rewrite Hp in Hc|].
  apply (runs_bind _ _ (λ _ s, ∃ k', k = S k' ∧ fg_left (Snapshot := Snapshot) n s < k)).
  { apply runs_atomically. intros s [[Hs|Hs] <-]; [by rewrite Hs in Hfin|].
    destruct (fg_now (Snapshot := Snapshot) s) as (_ & _ & Hleft). specialize (Hleft n).
    destruct k as [|k]; [lia|]. exists k. split; [done|]. cbn in *. lia. }
  intros now. destruct (negb _); [by apply runs_ret|].
  intros s (k' & -> & Hs). rewrite run_bind. by apply (IH k' eq_refl), nearer.
Qed.

Lemma ends_join rounds n instance_id k :
  rounds = S k → ends_from (nearly n k) (join rounds n instance_id).
Proof.
  revert k. induction rounds as [|rounds IH]; intros k Hk; [done|]. injection Hk as ->. cbn [join].
  apply (runs_bind _ _ (λ c s, nearly n k s ∧ sessions s n = c)); [by apply runs_read|].
  intros c. destruct (session_finished c) eqn:Hfin; [by apply runs_ret|].
  intros s [[Hs|Hs] Hc]; [by rewrite Hc, Hfin in Hs|]. destruct k as [|k]; [lia|].
  rewrite run_bind. by apply (IH k eq_refl), nearer.
Qed.

Lemma ends_catch_up rounds n instance_id k :
  rounds = S k → ends_from (nearly n k) (catch_up rounds n instance_id).
Proof.
  revert k. induction rounds as [|rounds IH]; intros k Hk; [done|]. injection Hk as ->. cbn [catch_up].
  apply (runs_bind _ _ (λ c s, nearly n k s ∧ sessions s n = c)); [by apply runs_read|]. intros c.
  apply (runs_bind _ _ (λ _ s, session_finished c = true ∨ fg_left (Snapshot := Snapshot) n s < k)).
  { apply runs_atomically. intros s [[Hs|Hs] <-]; [by left|right].
    pose proof (fg_round (Snapshot := Snapshot) n s) as H. cbn in *. unfold schedule_within in H. cbn in *. lia. }
  intros more. destruct (negb more || session_finished c) eqn:Hc; [by apply runs_ret|].
  apply orb_false_iff in Hc as [_ Hc]. intros s [Hs|Hs]; [by rewrite Hs in Hc|].
  destruct k as [|k]; [lia|]. rewrite run_bind. by apply (IH k eq_refl), nearer.
Qed.

Lemma enough_near {A} n k (p : prog C (result A)) : bound < k → ends_from (nearly n k) p → ends p.
Proof.
  intros Hk Hp P s _. apply Hp. right. pose proof (fg_left_bound (Snapshot := Snapshot) n s) as H. cbn in *. lia.
Qed.

Lemma ends_wait_session n instance_id timeout predicate :
  (∀ c, session_finished c = true → predicate c = true) →
  ends (wait_session fuel n instance_id timeout predicate).
Proof.
  intros Hp. apply ends_bind. intros now. apply (enough_near n (pred fuel)); [lia|].
  apply ends_session_wait; [done|lia].
Qed.

Lemma ends_cancel n instance_id : ends (cancel_and_join fuel n instance_id).
Proof.
  apply ends_bind. intros _. apply (enough_near n (pred fuel)); [lia|]. apply ends_join. lia.
Qed.

Lemma ends_evidence n instance_id : ends (catch_up fuel n instance_id).
Proof. apply (enough_near n (pred fuel)); [lia|]. apply ends_catch_up. lia. Qed.

Lemma ends_wait_initial n instance_id generation : ends (wait_for_initial fuel n instance_id generation).
Proof. apply ends_result; [by apply ends_wait_session; intros c ->|intros there; ending]. Qed.

Lemma ends_wait_terminal n instance_id : ends (wait_for_terminal fuel n instance_id).
Proof. apply ends_result; [apply ends_wait_session; intros c ->; apply orb_true_r|intros there; ending]. Qed.

Lemma ends_wait_finish n instance_id : ends (wait_for_finish fuel n instance_id).
Proof. by apply ends_wait_session. Qed.

Lemma ends_await_count rounds deadline expected :
  1 ≤ rounds →
  ends_from (within_steps (Snapshot := Snapshot) (X := C) deadline (milliseconds 5) (pred rounds))
    (await_subscriber_count rounds deadline expected).
Proof.
  induction rounds as [|rounds IH]; intros Hr; [lia|]. cbn [await_subscriber_count pred].
  apply (ends_from_bind _ (within_steps (Snapshot := Snapshot) (X := C) deadline (milliseconds 5) rounds));
    [apply (steps_fmap (Snapshot := Snapshot)), forward_runtime|]. intros [].
  { apply ends_ok. }
  eapply ends_from_bind; [by apply (steps_sleep (Snapshot := Snapshot))|]. intros _.
  apply (ends_test (Snapshot := Snapshot)); [done| |].
  - intros now Hnow. destruct (now <? deadline)%Z eqn:E; [lia|apply ends_always].
  - intros now Hnow Hn. destruct (now <? deadline)%Z; [apply IH; lia|apply ends_always].
Qed.

Lemma ends_wait_count expected : ends (wait_for_subscriber_count fuel expected).
Proof.
  apply (ends_start (Snapshot := Snapshot) (seconds 5) (milliseconds 5) (pred fuel));
    [unfold seconds, milliseconds; lia|].
  intros now. apply ends_await_count. lia.
Qed.
#[local] Hint Resolve ends_cancel ends_evidence ends_wait_initial ends_wait_terminal ends_wait_finish
  ends_wait_count : ending.

Lemma ends_integration_main : ends (S := C) (integration_main (Snapshot := Snapshot) fuel).
Proof.
  assert (Hphase : ∀ kind, ends (S := C) (run_phase (Snapshot := Snapshot) fuel kind)).
  { intros kind. unfold run_phase, first_consumer, second_consumer, fail_phase, stop_phase. ending. }
  unfold integration_main, failed, passed. ending.
Qed.
End Consuming.

(** ** All drivers *)

Section Drivers.
Context `{W : WireEnums} `{L : ProjectionLibrary} `{N : NumericLibrary} `{Jl : JsonLibrary}.
Context {Snapshot : Type} `{SM : !SnapshotMessage Snapshot} `{SM' : !SnapshotMessage LocalOrderBookSnapshot}.
Context {X : Type} `{G : !Gateway X} `{R : !RpcClient Snapshot X} `{Sc : !Schedule X}.
Context `{F : !FairGateway Snapshot X}.

#[local] Instance watched_fair : FairGateway Snapshot (Watched X) :=
  fair_within (S := Watched X) (X := X) (λ _ _, eq_refl) (λ _ _, eq_refl).

(** C40: every acceptance driver, in a world whose clock goes on and whose streams end, comes
    to an exit code; then what it started is stopped (recovery or runtime, server or
    transport) and every stream it opened is finished.  Whatever the gateway and the streams
    answered on the way, it subscribed only while the server served and read only open
    streams, and, but for the integration driver, it started the server over a running
    gateway and stopped the gateway after the server. *)
Theorem drivers_end_and_leave_nothing scale_value status_value fuel d (x : X) :
  fg_bound (Snapshot := Snapshot) (X := X) + 1000 < fuel →
  let '(w, r) := run_driver (Snapshot := Snapshot) scale_value status_value fuel d (MkWatched x idle) in
  (∃ code, r = Ok code) ∧ all_ended (stage w) ∧ sound (stage w) = true ∧
  (d ≠ SpotIntegration → in_order (stage w) = true).
Proof.
  intros Hfuel.
  pose proof (drivers_leave_nothing_running (Snapshot := Snapshot) scale_value status_value fuel d x) as [Hs Ho He Hm].
  assert (Hne : snd (run_driver (Snapshot := Snapshot) scale_value status_value fuel d (MkWatched x idle)) ≠ Unfinished).
  { assert (H1 : 1000 < fuel) by lia.
    assert (H2 : fg_bound (Snapshot := Snapshot) (X := Watched X) < fuel) by (cbn; lia).
    destruct d; cbn [run_driver].
    - by apply (ends_live_main (Snapshot := Snapshot) scale_value fuel H1 H2 (λ _, True)).
    - by apply (ends_recovery_main (Snapshot := Snapshot) fuel H1 H2 (λ _, True)).
    - by apply (ends_rotation_main (Snapshot := Snapshot) fuel H1 H2 (λ _, True)).
    - by apply (ends_grpc_main (Snapshot := Snapshot) fuel H1 H2 (λ _, True)).
    - assert (H3 : fg_bound (Snapshot := Snapshot) (X := Watched X) + 1 < fuel) by (cbn; lia).
      pose proof (ends_integration_main (Snapshot := Snapshot) (X := Watched X) fuel H1 H3 (λ _, True)
                    (MkConsumers (MkWatched x idle) (λ _, no_session)) I) as H.
      destruct (run _ _) as [s r]. exact H.
    - by apply (ends_events_main (Snapshot := Snapshot) fuel H1 H2 (λ _, True)).
    - by apply (ends_two_market_main (Snapshot := Snapshot) fuel H1 H2 status_value (λ _, True)). }
  destruct (run_driver _ _ _ _ _) as [w r]. cbn [fst snd] in *. split_and!; [|by apply He|done|done].
  destruct r as [code|m|]; [by exists code|by destruct (Hm m)|done].
Qed.
End Drivers.

(** ** Witness: the driver of the RPC service passes *)

(** A gateway that answers as the driver expects: a clock, and how much of the stream was
    read. *)
Record SampleGateway : Type := MkSampleGateway {
  sg_clock : Z;
  sg_read : nat
}.

Section Samples.
#[local] Existing Instance sample_enums.
#[local] Existing Instance Routes.sample_numeric.
#[local] Existing Instance Products.sample_exchange.
#[local] Existing Instance SampleProjection.library.
#[local] Existing Instance market_snapshot.

#[local] Instance book_snapshot : SnapshotMessage LocalOrderBookSnapshot := {|
  snap_venue _ := 1%Z; snap_market _ := 1%Z; snap_symbol _ := "BTCUSDT";
  snap_schema_version _ := kSnapshotSchema; snap_synchronized _ := true;
  snap_last_update_id _ := 4%Z; snap_bids_empty _ := false; snap_asks_empty _ := false |}.

Definition sample_live : RecoveryObservation :=
  initial_recovery_observation <| ro_state := RyLive |> <| ro_connection_generation := 1%Z |>.
Definition sample_shut : RuntimeObservation :=
  no_observation <| obs_state := RsStopped |> <| obs_publication_shutdown := true |>.

Definition sample_transport_observation : TransportObservation :=
  MkTransportObservation true true false true true true true false 1 0 0 None DepthOnly "c" 1 None.

#[local] Instance sample_gateway : Gateway SampleGateway := {|
  gd_fetch _ g := (g, inl (MkExchangeInfoResponse "" true));
  gd_instance_id g := (g, "gw-1");
  gd_start _ g := (g, RtStarted);
  gd_start_products g := (g, (RtStarted, RtStarted));
  gd_stop g := g;
  gd_wait_for_generation_live _ _ g := (g, sample_live);
  gd_wait_within _ _ _ g := (g, Some sample_live);
  gd_observe_recovery _ g := (g, sample_live);
  gd_observe_runtime _ g := (g, sample_shut);
  gd_observe_events _ g := (g, MkEventPublicationObservation EsShutdown None 0);
  gd_request_recovery _ g := (g, true);
  gd_quiesce g := (g, None);
  gd_capture g := (g, SnapError SeStopped);
  gd_this_thread := 7;
  gd_runtime_start g := (g, SrStarted);
  gd_runtime_stop g := g;
  gd_transport_start g := (g, TsStarted);
  gd_transport_stop g := g;
  gd_observe_transport g := (g, sample_transport_observation);
  gd_server_start _ g := (g, true);
  gd_server_shutdown g := g;
  gd_admission_open g := (g, false);
  gd_tracked_contexts g := (g, 0);
  gd_status_inflight g := (g, false);
  gd_now g := (g, sg_clock g);
  gd_sleep d g := MkSampleGateway (sg_clock g + d) (sg_read g)
|}.

#[local] Instance sample_client : RpcClient Z SampleGateway := {|
  rc_system_now g := (g, 9%Z);
  rc_status _ _ g := (g, (MkClientStatus kOk "", sample_status));
  rc_subscribe_book _ _ _ g := g;
  rc_subscribe_events _ _ _ g := g;
  rc_read_book _ g :=
    match sample_book 1 !! sg_read g with
    | Some item => (MkSampleGateway (sg_clock g) (S (sg_read g)), Some item)
    | None => (g, None)
    end;
  rc_read_event _ g := (g, None);
  rc_finish _ g := (g, MkClientStatus kCancelled "cancelled");
  rc_try_cancel _ g := g;
  rc_print _ _ g := g
|}.

#[local] Instance sample_schedule : Schedule SampleGateway := {| another_round g := (g, false) |}.

(** Its streams have at most the three messages of the head. *)
#[local] Instance sample_fair : FairGateway Z SampleGateway.
Proof.
  refine {| fg_clock := sg_clock; fg_left _ g := 3 - sg_read g; fg_bound := 3 |};
    intros; cbn; try lia.
  - split_and!; [done|lia|done].
  - destruct (sg_read x) as [|[|[|k]]]; cbn; try lia; done.
Defined.

Definition sample_run (fuel : nat) : Watched SampleGateway * result Z :=
  run_driver (Snapshot := Z) (X := Watched SampleGateway) (λ z, z) (λ _, 0%Z) fuel SpotGrpc
    (MkWatched (MkSampleGateway 0 0) idle).

Lemma drivers_end_and_leave_nothing_witness :
  snd (sample_run 1004) = Ok EXIT_SUCCESS ∧ all_ended (stage (fst (sample_run 1004))).
Proof.
  split; [vm_compute; reflexivity|].
  assert (H : ∀ fuel, 1003 < fuel → all_ended (stage (fst (sample_run fuel)))).
  { intros fuel Hfuel.
    assert (Hb : fg_bound (Snapshot := Z) (X := SampleGateway) + 1000 < fuel) by (cbn; lia).
    pose proof (drivers_end_and_leave_nothing (Snapshot := Z) (X := SampleGateway) (λ z, z) (λ _, 0%Z) fuel SpotGrpc
                  (MkSampleGateway 0 0) Hb) as H.
    unfold sample_run. destruct (run_driver _ _ _ _ _) as [w r]. exact (proj1 (proj2 H)). }
  apply H. lia.
Defined.
End Samples.
