(* ===== verification/Performance.v ===== *)
(** * Performance: the measurement buffer of a product

    Models [src/src/performance/performance_baseline.hpp] and [.cpp], which a build with
    [BMD_GATEWAY_PERFORMANCE_BASELINE_ENABLED] links into the gateway: the times at which
    a market message passes the stages of its product, the deliveries to the
    subscribers, the counters of what could not be recorded, and the export as lines of
    JSON.  The monotonic clock may throw ([MonotonicClock]).  The calls that feed a
    buffer from the transport, the runtime and the channels are compiled out of the
    modelled components.

    [evidence_accounts_for_every_call]: whatever calls are made, with whatever tokens,
    the buffer holds the first messages and the first deliveries up to its capacity, in
    order, and counts the others. *)

From Stdlib Require Import Ascii.
From S2P Require Import Prelude Ring Wire Text Session OrderBookPublication Programs Projection.
From S2P Require Import EventPublication MarketRuntime Recovery Registry GrpcRequests.
From S2P Require Import GatewayLifecycle Diagnostics.

Open Scope gateway_scope.

Definition kDefaultTraceCapacity : nat := 128 * 128.
Definition kDefaultDeliveryCapacityPerKind : nat := 2 * (128 * 128).

Inductive Product : Type :=
| PdSpot
| PdUsdMPerpetual.

Inductive T3Disposition : Type :=
| TdUnobserved
| TdApplied
| TdIgnoredStale
| TdIgnoredDuplicate
| TdGapDetected
| TdRejectedWrongState
| TdAdapterFailure
| TdInternalFailure.

#[export] Instance T3Disposition_eq_dec : EqDecision T3Disposition.
Proof. solve_decision. Defined.

Inductive DeliveryKind : Type :=
| DkOrderBook
| DkEvent.

#[export] Instance DeliveryKind_eq_dec : EqDecision DeliveryKind.
Proof. solve_decision. Defined.

Record PerformanceBaselineLimits : Type := MkPerformanceBaselineLimits {
  trace_capacity : nat;
  delivery_capacity_per_kind : nat
}.

Definition default_limits : PerformanceBaselineLimits :=
  MkPerformanceBaselineLimits kDefaultTraceCapacity kDefaultDeliveryCapacityPerKind.

(** Tokens; [owner] is the address of a buffer. *)
Record TraceToken : Type := MkTraceToken {
  trace_owner : option Z;
  trace_row : Z;
  trace_id : Z
}.

Definition no_trace : TraceToken := MkTraceToken None 0 0.

Definition trace_valid (t : TraceToken) : bool :=
  match trace_owner t with Some _ => negb (trace_id t =? 0)%Z | None => false end.

Record DeliveryToken : Type := MkDeliveryToken {
  delivery_owner : option Z;
  delivery_kind : DeliveryKind;
  delivery_row : Z
}.

Definition no_delivery : DeliveryToken := MkDeliveryToken None DkOrderBook 0.

Definition delivery_valid (d : DeliveryToken) : bool :=
  match delivery_owner d with Some _ => true | None => false end.

Record TraceEvidence : Type := MkTraceEvidence {
  te_trace_id : Z;
  te_t0_ns : Z;
  te_t1_ns : Z;
  te_q_ns : Z;
  te_t2_ns : Z;
  te_t3_ns : Z;
  te_ingress_occupancy_q : nat;
  te_t3_disposition : T3Disposition;
  te_stage_mask : Z
}.
#[export] Instance TraceEvidence_eta : Eta TraceEvidence := λ e,
  MkTraceEvidence (te_trace_id e) (te_t0_ns e) (te_t1_ns e) (te_q_ns e) (te_t2_ns e)
    (te_t3_ns e) (te_ingress_occupancy_q e) (te_t3_disposition e) (te_stage_mask e).

Definition no_trace_evidence : TraceEvidence := MkTraceEvidence 0 0 0 0 0 0 0 TdUnobserved 0.

Record DeliveryEvidence : Type := MkDeliveryEvidence {
  de_trace_id : Z;
  de_subscriber_ordinal : Z;
  de_session_sequence : Z;
  de_t4_ns : Z;
  de_t5_ns : Z;
  de_queue_occupancy_t4 : nat;
  de_t5_observed : bool
}.
#[export] Instance DeliveryEvidence_eta : Eta DeliveryEvidence := λ e,
  MkDeliveryEvidence (de_trace_id e) (de_subscriber_ordinal e) (de_session_sequence e)
    (de_t4_ns e) (de_t5_ns e) (de_queue_occupancy_t4 e) (de_t5_observed e).

Definition no_delivery_evidence : DeliveryEvidence := MkDeliveryEvidence 0 0 0 0 0 0 false.

Record QueueEvidence : Type := MkQueueEvidence {
  ingress_max_occupancy : nat;
  ingress_full_count : Z;
  order_book_max_occupancy : nat;
  order_book_full_terminalization_count : Z;
  event_max_occupancy : nat;
  event_full_terminalization_count : Z
}.
#[export] Instance QueueEvidence_eta : Eta QueueEvidence := λ e,
  MkQueueEvidence (ingress_max_occupancy e) (ingress_full_count e) (order_book_max_occupancy e)
    (order_book_full_terminalization_count e) (event_max_occupancy e)
    (event_full_terminalization_count e).

(** The stages, as the bits of the mask. *)
Definition kT0 : Z := Z.shiftl 1 0.
Definition kT1 : Z := Z.shiftl 1 1.
Definition kQ : Z := Z.shiftl 1 2.
Definition kT2 : Z := Z.shiftl 1 3.
Definition kT3 : Z := Z.shiftl 1 4.

Definition observed (mask stage : Z) : bool := negb (Z.land mask stage =? 0)%Z.

Class MonotonicClock (C : Type) : Type := { monotonic_now : C → C * outcome Z }.

(** ** The buffer *)

Section Buffer.
Context {C : Type} `{MC : !MonotonicClock C}.

(** [self] is the address of the buffer. *)
Record ProductTraceBuffer : Type := MkProductTraceBuffer {
  self : Z;
  product : Product;
  clock : C;
  limits : PerformanceBaselineLimits;
  traces : list TraceEvidence;
  order_book_deliveries : list DeliveryEvidence;
  event_deliveries : list DeliveryEvidence;
  trace_count : nat;
  order_book_delivery_count : nat;
  event_delivery_count : nat;
  trace_storage_overflow : Z;
  order_book_delivery_overflow : Z;
  event_delivery_overflow : Z;
  clock_error_count : Z;
  queue_evidence : QueueEvidence
}.
#[export] Instance ProductTraceBuffer_eta : Eta ProductTraceBuffer := λ b,
  MkProductTraceBuffer (self b) (product b) (clock b) (limits b) (traces b)
    (order_book_deliveries b) (event_deliveries b) (trace_count b) (order_book_delivery_count b)
    (event_delivery_count b) (trace_storage_overflow b) (order_book_delivery_overflow b)
    (event_delivery_overflow b) (clock_error_count b) (queue_evidence b).
Implicit Types (b : ProductTraceBuffer).

(** The constructor; [set]: there is a clock. *)
Definition make_buffer (address : Z) (p : Product) (set : bool) (c : C)
  (l : PerformanceBaselineLimits) : option ProductTraceBuffer :=
  if negb set || bool_decide (trace_capacity l = 0) || bool_decide (delivery_capacity_per_kind l = 0)
     || (u32_max <? Z.of_nat (trace_capacity l))%Z
     || (u32_max <? Z.of_nat (delivery_capacity_per_kind l))%Z
  then None
  else Some (MkProductTraceBuffer address p c l (replicate (trace_capacity l) no_trace_evidence)
               (replicate (delivery_capacity_per_kind l) no_delivery_evidence)
               (replicate (delivery_capacity_per_kind l) no_delivery_evidence)
               0 0 0 0 0 0 0 (MkQueueEvidence 0 0 0 0 0 0)).

Definition sample_monotonic b : ProductTraceBuffer * Z :=
  let '(c, r) := monotonic_now (clock b) in
  let b := b <| clock := c |> in
  match r with
  | Returned t => (b, t)
  | Threw => (b <| clock_error_count ::= u64_succ |>, 0%Z)
  end.

Definition begin_trace (t0_ns t1_ns : Z) b : ProductTraceBuffer * TraceToken :=
  if bool_decide (trace_count b = length (traces b))
  then (b <| trace_storage_overflow ::= u64_succ |>, no_trace)
  else
    let row := trace_count b in
    let id := (Z.of_nat row + 1)%Z in
    (b <| trace_count := S row |>
       <| traces ::= <[row := MkTraceEvidence id t0_ns t1_ns 0 0 0 0 TdUnobserved (Z.lor kT0 kT1)]> |>,
     MkTraceToken (Some (self b)) (Z.of_nat row mod (u32_max + 1)) id).

(** The row of a token. *)
Definition resolve (t : TraceToken) b : option nat :=
  if negb (trace_valid t) || negb (bool_decide (trace_owner t = Some (self b)))
     || (Z.of_nat (length (traces b)) <=? trace_row t)%Z
  then None
  else
    let row := Z.to_nat (trace_row t) in
    match traces b !! row with
    | Some e => if (te_trace_id e =? trace_id t)%Z then Some row else None
    | None => None
    end.

(** Change the row of a token. *)
Definition change_trace (row : nat) (f : TraceEvidence → TraceEvidence) b : ProductTraceBuffer :=
  b <| traces ::= alter f row |>.

Definition record_q (t : TraceToken) (occupancy : nat) b : ProductTraceBuffer :=
  match resolve t b with
  | None => b
  | Some row =>
      let '(b, now) := sample_monotonic b in
      change_trace row (λ e, e <| te_q_ns := now |> <| te_ingress_occupancy_q := occupancy |>
                               <| te_stage_mask ::= λ m, Z.lor m kQ |>) b
        <| queue_evidence ::= λ q, q <| ingress_max_occupancy ::= Nat.max occupancy |> |>
  end.

Definition record_t2 (t : TraceToken) b : ProductTraceBuffer :=
  match resolve t b with
  | None => b
  | Some row =>
      let '(b, now) := sample_monotonic b in
      change_trace row (λ e, e <| te_t2_ns := now |> <| te_stage_mask ::= λ m, Z.lor m kT2 |>) b
  end.

Definition record_t3 (t : TraceToken) (disposition : T3Disposition) b : ProductTraceBuffer :=
  match resolve t b with
  | None => b
  | Some row =>
      let '(b, now) := sample_monotonic b in
      change_trace row (λ e, e <| te_t3_ns := now |> <| te_t3_disposition := disposition |>
                               <| te_stage_mask ::= λ m, Z.lor m kT3 |>) b
  end.

Definition deliveries (kind : DeliveryKind) b : list DeliveryEvidence :=
  match kind with DkOrderBook => order_book_deliveries b | DkEvent => event_deliveries b end.

Definition delivery_count (kind : DeliveryKind) b : nat :=
  match kind with DkOrderBook => order_book_delivery_count b | DkEvent => event_delivery_count b end.

(** Writes through [delivery_storage] and [delivery_size]. *)
Definition set_deliveries (kind : DeliveryKind) (f : list DeliveryEvidence → list DeliveryEvidence) b :=
  match kind with
  | DkOrderBook => b <| order_book_deliveries ::= f |>
  | DkEvent => b <| event_deliveries ::= f |>
  end.

Definition set_delivery_count (kind : DeliveryKind) (n : nat) b :=
  match kind with
  | DkOrderBook => b <| order_book_delivery_count := n |>
  | DkEvent => b <| event_delivery_count := n |>
  end.

Definition delivery_overflowed (kind : DeliveryKind) b :=
  match kind with
  | DkOrderBook => b <| order_book_delivery_overflow ::= u64_succ |>
  | DkEvent => b <| event_delivery_overflow ::= u64_succ |>
  end.

Definition raise_delivery_occupancy (kind : DeliveryKind) (occupancy : nat) b :=
  match kind with
  | DkOrderBook => b <| queue_evidence ::= λ q, q <| order_book_max_occupancy ::= Nat.max occupancy |> |>
  | DkEvent => b <| queue_evidence ::= λ q, q <| event_max_occupancy ::= Nat.max occupancy |> |>
  end.

Definition record_t4 (t : TraceToken) (kind : DeliveryKind) (subscriber_ordinal session_sequence : Z)
  (occupancy : nat) b : ProductTraceBuffer * DeliveryToken :=
  match resolve t b with
  | None => (b, no_delivery)
  | Some _ =>
      if bool_decide (delivery_count kind b = length (deliveries kind b))
      then (delivery_overflowed kind b, no_delivery)
      else
        let row := delivery_count kind b in
        let b := set_delivery_count kind (S row) b in
        let '(b, now) := sample_monotonic b in
        let b := set_deliveries kind <[row := MkDeliveryEvidence (trace_id t) subscriber_ordinal
                                                session_sequence now 0 occupancy false]> b in
        (raise_delivery_occupancy kind occupancy b,
         MkDeliveryToken (Some (self b)) kind (Z.of_nat row mod (u32_max + 1)))
  end.

Definition record_t5 (d : DeliveryToken) b : ProductTraceBuffer :=
  if negb (delivery_valid d) || negb (bool_decide (delivery_owner d = Some (self b))) then b else
  let row := Z.to_nat (delivery_row d) in
  if (Z.of_nat (length (deliveries (delivery_kind d) b)) <=? delivery_row d)%Z
     || match deliveries (delivery_kind d) b !! row with
        | Some e => (de_trace_id e =? 0)%Z
        | None => true
        end
  then b
  else
    let '(b, now) := sample_monotonic b in
    set_deliveries (delivery_kind d)
      (alter (λ e, e <| de_t5_ns := now |> <| de_t5_observed := true |>) row) b.

Definition record_ingress_full b : ProductTraceBuffer :=
  b <| queue_evidence ::= λ q, q <| ingress_full_count ::= u64_succ |> |>.

Definition record_delivery_full (kind : DeliveryKind) b : ProductTraceBuffer :=
  match kind with
  | DkOrderBook => b <| queue_evidence ::= λ q, q <| order_book_full_terminalization_count ::= u64_succ |> |>
  | DkEvent => b <| queue_evidence ::= λ q, q <| event_full_terminalization_count ::= u64_succ |> |>
  end.

(** [trace]; [None] is [std::out_of_range]. *)
Definition trace_at (index : nat) b : option TraceEvidence :=
  if bool_decide (trace_count b ≤ index) then None else traces b !! index.

Definition delivery_storage_overflow b : Z :=
  u64_wrap (order_book_delivery_overflow b + event_delivery_overflow b).

Definition evidence_valid b : bool :=
  (trace_storage_overflow b =? 0)%Z && (delivery_storage_overflow b =? 0)%Z
  && (clock_error_count b =? 0)%Z.
End Buffer.
Arguments ProductTraceBuffer : clear implicits.

(** ** The export *)

Definition product_text (p : Product) : string :=
  match p with PdSpot => "BINANCE/SPOT/BTCUSDT" | PdUsdMPerpetual => "BINANCE/USD_M_PERPETUAL/BTCUSDT" end.

Definition disposition_text (d : T3Disposition) : string :=
  match d with
  | TdUnobserved => "unobserved"
  | TdApplied => "applied"
  | TdIgnoredStale => "ignored_stale"
  | TdIgnoredDuplicate => "ignored_duplicate"
  | TdGapDetected => "gap_detected"
  | TdRejectedWrongState => "rejected_wrong_state"
  | TdAdapterFailure => "adapter_failure"
  | TdInternalFailure => "internal_failure"
  end.

Definition kind_text (k : DeliveryKind) : string :=
  match k with DkOrderBook => "order_book" | DkEvent => "event" end.

Definition missing_trace_stage (mask : Z) : string :=
  if negb (observed mask kT0) then "t0_not_observed"
  else if negb (observed mask kT1) then "transport_parse_not_completed"
  else if negb (observed mask kQ) then "runtime_enqueue_not_accepted"
  else if negb (observed mask kT2) then "owner_not_dequeued"
  else if negb (observed mask kT3) then "projection_not_completed_before_shutdown_or_reset"
  else "none".

Definition missing_event_delivery (delivery_count : nat) (delivery_evidence_lost : bool) : string :=
  if negb (bool_decide (delivery_count = 0)) then "none"
  else if delivery_evidence_lost then "no_recorded_delivery_or_delivery_storage_overflow"
  else "no_matching_subscriber".

Definition missing_book_delivery (trace : TraceEvidence) (delivery_count : nat)
  (delivery_evidence_lost : bool) : string :=
  if negb (bool_decide (delivery_count = 0)) then "none"
  else if negb (observed (te_stage_mask trace) kT3) then "projection_not_completed"
  else if negb (bool_decide (te_t3_disposition trace = TdApplied))
  then "projection_disposition_not_applied"
  else if delivery_evidence_lost then "no_recorded_delivery_or_delivery_storage_overflow"
  else "no_matching_subscriber".

(** Pieces of a line: a name and its value. *)
Definition quoted (text : string) : string := String quote (text +:+ String quote EmptyString).
Definition member (name value : string) : string := quoted name +:+ ":" +:+ value.
Definition text_member (name value : string) : string := member name (quoted value).
Definition count_member (name : string) (value : nat) : string :=
  member name (pretty (Z.of_nat value)).
Definition number_member (name : string) (value : Z) : string := member name (pretty value).

(** [write_optional_time] *)
Definition optional_time (name : string) (value : Z) (present : bool) : string :=
  member name (if present then pretty value else "null").

Definition json_line (members : list string) : string :=
  "{" +:+ String.concat "," members +:+ "}" +:+ String newline EmptyString.

Section Lines.
Context {C : Type} `{MC : !MonotonicClock C}.
Implicit Types (b : ProductTraceBuffer C).

Definition campaign_line b : string :=
  let q := queue_evidence b in
  json_line [text_member "record" "campaign";
    text_member "schema" "bmd-gateway-performance-baseline.v1";
    text_member "product" (product_text (product b));
    count_member "trace_capacity" (length (traces b));
    count_member "delivery_capacity_per_kind" (delivery_capacity_per_kind (limits b));
    count_member "trace_count" (trace_count b);
    number_member "trace_storage_overflow" (trace_storage_overflow b);
    number_member "delivery_storage_overflow" (delivery_storage_overflow b);
    number_member "clock_error_count" (clock_error_count b);
    member "evidence_valid" (if evidence_valid b then "true" else "false");
    count_member "ingress_max_occupancy" (ingress_max_occupancy q);
    number_member "ingress_full_count" (ingress_full_count q);
    count_member "order_book_max_occupancy" (order_book_max_occupancy q);
    number_member "order_book_full_terminalization_count" (order_book_full_terminalization_count q);
    count_member "event_max_occupancy" (event_max_occupancy q);
    number_member "event_full_terminalization_count" (event_full_terminalization_count q)].

(** [count_deliveries]: one counter per trace. *)
Definition count_delivery (counts : list nat) (e : DeliveryEvidence) : list nat :=
  if negb (de_trace_id e =? 0)%Z && (de_trace_id e <=? Z.of_nat (length counts))%Z
  then alter S (Z.to_nat (de_trace_id e - 1)) counts else counts.

Definition recorded (kind : DeliveryKind) b : list DeliveryEvidence :=
  take (delivery_count kind b) (deliveries kind b).

Definition delivery_counts (kind : DeliveryKind) b : list nat :=
  foldl count_delivery (replicate (trace_count b) 0) (recorded kind b).

Definition trace_line b (index : nat) (e : TraceEvidence) : string :=
  let mask := te_stage_mask e in
  let book_count := default 0 (delivery_counts DkOrderBook b !! index) in
  let event_count := default 0 (delivery_counts DkEvent b !! index) in
  json_line [text_member "record" "trace";
    text_member "product" (product_text (product b));
    number_member "trace_id" (te_trace_id e);
    optional_time "t0_ns" (te_t0_ns e) (observed mask kT0);
    optional_time "t1_ns" (te_t1_ns e) (observed mask kT1);
    optional_time "q_ns" (te_q_ns e) (observed mask kQ);
    optional_time "t2_ns" (te_t2_ns e) (observed mask kT2);
    optional_time "t3_ns" (te_t3_ns e) (observed mask kT3);
    text_member "t3_disposition" (disposition_text (te_t3_disposition e));
    count_member "ingress_occupancy_q" (te_ingress_occupancy_q e);
    count_member "book_delivery_count" book_count;
    count_member "event_delivery_count" event_count;
    text_member "missing_book_delivery_reason"
      (missing_book_delivery e book_count (negb (order_book_delivery_overflow b =? 0)%Z));
    text_member "missing_event_delivery_reason"
      (missing_event_delivery event_count (negb (event_delivery_overflow b =? 0)%Z));
    text_member "missing_stage_reason" (missing_trace_stage mask)].

Definition delivery_line (kind : DeliveryKind) b (e : DeliveryEvidence) : string :=
  json_line [text_member "record" "delivery";
    text_member "product" (product_text (product b));
    text_member "kind" (kind_text kind);
    number_member "trace_id" (de_trace_id e);
    number_member "subscriber_ordinal" (de_subscriber_ordinal e);
    number_member "session_sequence" (de_session_sequence e);
    number_member "t4_ns" (de_t4_ns e);
    optional_time "t5_ns" (de_t5_ns e) (de_t5_observed e);
    count_member "queue_occupancy_t4" (de_queue_occupancy_t4 e);
    text_member "missing_stage_reason"
      (if de_t5_observed e then "none" else "grpc_write_not_completed")].

Definition json_lines b : list string :=
  campaign_line b :: imap (trace_line b) (take (trace_count b) (traces b))
  ++ (delivery_line DkOrderBook b <$> recorded DkOrderBook b)
  ++ (delivery_line DkEvent b <$> recorded DkEvent b).

Definition write_json_lines b : string := String.concat EmptyString (json_lines b).
End Lines.

(** [ProductionGateway::write_performance_baseline]: the text, once the gateway is stopped,
    of the two products it is meant for; [good]: the stream accepted it. *)
Definition write_performance_baseline `{W : WireEnums} {C} (state : GatewayState) (products : list MarketKey)
  (buffer_of : MarketKey → ProductTraceBuffer C) (good : bool) : string * bool :=
  if negb (bool_decide (state = GwStopped)) then (EmptyString, false)
  else if negb (bool_decide (length products = 2)) then (EmptyString, false)
  else if bool_decide (spot_btcusdt_key ∈ products) && bool_decide (usdm_btcusdt_key ∈ products)
  then (write_json_lines (buffer_of spot_btcusdt_key)
        +:+ write_json_lines (buffer_of usdm_btcusdt_key), good)
  else (EmptyString, false).

(** [export_performance_baseline]: what is written to the error stream; [opened] and
    [flushed] are the answers of the file. *)
Definition export_performance_baseline (path : option string) (opened : bool)
  (written : bool) (flushed : bool) : string * bool :=
  match path with
  | None | Some EmptyString =>
      ("performance_baseline_export=skipped reason=output-not-set"
       +:+ String newline EmptyString, true)
  | Some path =>
      let failed := ("performance_baseline_export=failed path=" +:+ path
                     +:+ String newline EmptyString, false) in
      if negb opened || negb written then failed
      else if negb flushed then failed
      else ("performance_baseline_export=complete path=" +:+ path
            +:+ String newline EmptyString, true)
  end.

(** ** What a buffer holds *)

Section Accounting.
Context {C : Type} `{MC : !MonotonicClock C}.
Abbreviation Buffer := (ProductTraceBuffer C).
Implicit Types (b : Buffer) (t : TraceToken).

(** A call on the buffer, with any token. *)
Inductive BufferCall : Type :=
| CallBegin (t0_ns t1_ns : Z)
| CallQ (t : TraceToken) (occupancy : nat)
| CallT2 (t : TraceToken)
| CallT3 (t : TraceToken) (disposition : T3Disposition)
| CallT4 (t : TraceToken) (kind : DeliveryKind) (ordinal sequence : Z) (occupancy : nat)
| CallT5 (d : DeliveryToken)
| CallIngressFull
| CallDeliveryFull (kind : DeliveryKind).

Definition perform b (call : BufferCall) : Buffer :=
  match call with
  | CallBegin t0 t1 => fst (begin_trace t0 t1 b)
  | CallQ t occupancy => record_q t occupancy b
  | CallT2 t => record_t2 t b
  | CallT3 t disposition => record_t3 t disposition b
  | CallT4 t kind ordinal sequence occupancy => fst (record_t4 t kind ordinal sequence occupancy b)
  | CallT5 d => record_t5 d b
  | CallIngressFull => record_ingress_full b
  | CallDeliveryFull kind => record_delivery_full kind b
  end.

(** What the calls amount to, without a buffer: the messages that were begun, the stages
    they were seen at, and the deliveries of known messages, per kind. *)
Record Journal : Type := MkJournal {
  begun : list (Z * Z);
  stages : list (nat * Z);
  delivered : DeliveryKind → list (Z * Z * Z * nat)
}.

Definition empty_journal : Journal := MkJournal [] [] (λ _, []).

Context (address : Z) (l : PerformanceBaselineLimits).
Abbreviation capacity := (trace_capacity l).
Abbreviation delivery_capacity := (delivery_capacity_per_kind l).

(** The message a token stands for: it was issued by this buffer for a message it holds. *)
Definition known (j : Journal) t : option nat :=
  let row := Z.to_nat (trace_row t) in
  if bool_decide (trace_owner t = Some address) && (trace_id t =? Z.of_nat row + 1)%Z
     && bool_decide (row < Nat.min capacity (length (begun j)))
  then Some row else None.

Definition note_stage (stage : Z) t (j : Journal) : Journal :=
  match known j t with
  | Some row => MkJournal (begun j) ((row, stage) :: stages j) (delivered j)
  | None => j
  end.

Definition note (j : Journal) (call : BufferCall) : Journal :=
  match call with
  | CallBegin t0 t1 => MkJournal (begun j ++ [(t0, t1)]) (stages j) (delivered j)
  | CallQ t _ => note_stage kQ t j
  | CallT2 t => note_stage kT2 t j
  | CallT3 t _ => note_stage kT3 t j
  | CallT4 t kind ordinal sequence occupancy =>
      match known j t with
      | Some row =>
          MkJournal (begun j) (stages j) (λ k, if bool_decide (k = kind)
            then delivered j k ++ [(trace_id t, ordinal, sequence, occupancy)] else delivered j k)
      | None => j
      end
  | CallT5 _ | CallIngressFull | CallDeliveryFull _ => j
  end.

Definition journal (calls : list BufferCall) : Journal := foldl note empty_journal calls.

(** A row of the buffer against the journal. *)
Definition holds_message (j : Journal) (row : nat) (e : TraceEvidence) : Prop :=
  te_trace_id e = (Z.of_nat row + 1)%Z ∧
  begun j !! row = Some (te_t0_ns e, te_t1_ns e) ∧
  observed (te_stage_mask e) kT0 = true ∧ observed (te_stage_mask e) kT1 = true ∧
  ∀ stage, stage ∈ [kQ; kT2; kT3] →
    (observed (te_stage_mask e) stage = true ↔ (row, stage) ∈ stages j).

Definition delivery_of (e : DeliveryEvidence) : Z * Z * Z * nat :=
  (de_trace_id e, de_subscriber_ordinal e, de_session_sequence e, de_queue_occupancy_t4 e).

Definition overflow_of (kind : DeliveryKind) b : Z :=
  match kind with
  | DkOrderBook => order_book_delivery_overflow b
  | DkEvent => event_delivery_overflow b
  end.

(** What one kind of deliveries holds. *)
Record deliveries_kept (j : Journal) b (kind : DeliveryKind) : Prop := {
  dk_length : length (deliveries kind b) = delivery_capacity;
  dk_count : delivery_count kind b = Nat.min delivery_capacity (length (delivered j kind));
  dk_rows row e : row < delivery_count kind b → deliveries kind b !! row = Some e →
    delivered j kind !! row = Some (delivery_of e);
  dk_overflow : overflow_of kind b = u64_wrap (Z.of_nat (length (delivered j kind) - delivery_capacity))
}.

Record tracks (j : Journal) b : Prop := {
  tr_self : self b = address;
  tr_length : length (traces b) = capacity;
  tr_count : trace_count b = Nat.min capacity (length (begun j));
  tr_rows row e : row < trace_count b → traces b !! row = Some e → holds_message j row e;
  tr_blank row e : trace_count b ≤ row → traces b !! row = Some e → te_trace_id e = 0%Z;
  tr_stages row stage : (row, stage) ∈ stages j → row < trace_count b;
  tr_overflow : trace_storage_overflow b = u64_wrap (Z.of_nat (length (begun j) - capacity));
  tr_deliveries kind : deliveries_kept j b kind
}.

Lemma resolve_known j b t : tracks j b → resolve t b = known j t.
Proof.
  intros [Hself Hlen Hcount Hrows Hblank _ _ _]. unfold resolve, known. rewrite <- Hcount, Hself.
  set (row := Z.to_nat (trace_row t)).
  destruct (bool_decide_reflect (trace_owner t = Some address)) as [Ho|Ho]; cbn [negb andb orb].
  2: { by rewrite orb_true_r. }
  unfold trace_valid. rewrite Ho. cbn [negb]. rewrite orb_false_r.
  destruct (Z.eqb_spec (trace_id t) (Z.of_nat row + 1)) as [Hid|Hid]; cbn [negb andb orb].
  - rewrite Hid. replace (Z.of_nat row + 1 =? 0)%Z with false by (symmetry; apply Z.eqb_neq; lia).
    cbn [negb orb].
    destruct (Z.leb_spec (Z.of_nat (length (traces b))) (trace_row t)) as [Hl|Hl].
    { rewrite bool_decide_eq_false_2; [done|]. subst row. lia. }
    destruct (traces b !! row) as [e|] eqn:He.
    2: { apply lookup_ge_None in He. rewrite bool_decide_eq_false_2; [done|lia]. }
    destruct (bool_decide_reflect (row < trace_count b)) as [Hr|Hr].
    + destruct (Hrows row e Hr He) as [-> _]. by rewrite Z.eqb_refl.
    + rewrite (Hblank row e) by (lia || done).
      replace (0 =? Z.of_nat row + 1)%Z with false by (symmetry; apply Z.eqb_neq; lia). done.
  - destruct (Z.eqb_spec (trace_id t) 0) as [H0|H0]; [done|]. cbn [negb orb].
    destruct (Z.of_nat (length (traces b)) <=? trace_row t)%Z; [done|].
    destruct (traces b !! row) as [e|] eqn:He; [|done].
    destruct (Z.eqb_spec (te_trace_id e) (trace_id t)) as [He'|He']; [|done]. exfalso.
    destruct (decide (row < trace_count b)) as [Hr|Hr].
    + destruct (Hrows row e Hr He) as [Hi _]. congruence.
    + rewrite (Hblank row e) in He' by (lia || done). congruence.
Qed.

(** The clock is all that a reading touches. *)
Lemma sample_same b : ∃ c n,
  fst (sample_monotonic b) = b <| clock := c |> <| clock_error_count := n |>.
Proof.
  unfold sample_monotonic. destruct (monotonic_now (clock b)) as [c [t|]];
    [by exists c, (clock_error_count b)|by exists c, (u64_succ (clock_error_count b))].
Qed.

Lemma observed_lor mask stage stage' :
  stage ∈ [kQ; kT2; kT3] → stage' ∈ [kT0; kT1; kQ; kT2; kT3] →
  observed (Z.lor mask stage) stage' = observed mask stage' || bool_decide (stage' = stage).
Proof.
  intros Hs Hs'. unfold observed. rewrite Z.land_lor_distr_l.
  assert (Hk : (Z.land stage stage' =? 0)%Z = negb (bool_decide (stage' = stage))).
  { rewrite !elem_of_cons, elem_of_nil in Hs. rewrite !elem_of_cons, elem_of_nil in Hs'.
    destruct Hs as [->|[->|[->|[]]]], Hs' as [->|[->|[->|[->|[->|[]]]]]]; reflexivity. }
  destruct (Z.eqb_spec (Z.lor (Z.land mask stage') (Z.land stage stage')) 0) as [H|H].
  - apply Z.lor_eq_0_iff in H as [-> H2]. rewrite H2 in Hk. simpl in Hk. by destruct (bool_decide _).
  - destruct (Z.eqb_spec (Z.land mask stage') 0) as [H1|H1]; [|done]. cbn [negb orb].
    destruct (Z.eqb_spec (Z.land stage stage') 0) as [H2|H2]; [|by destruct (bool_decide _)].
    by rewrite H1, H2 in H.
Qed.

(** *** Every call keeps the buffer on the track of the journal *)

Lemma tracks_same j b b' :
  self b' = self b → traces b' = traces b → trace_count b' = trace_count b →
  trace_storage_overflow b' = trace_storage_overflow b →
  (∀ kind, deliveries_kept j b' kind) → tracks j b → tracks j b'.
Proof.
  intros H1 H2 H3 H4 H5 [? ? ? Hrows Hblank Hst ? _].
  constructor; rewrite ?H1, ?H2, ?H3, ?H4; auto.
Qed.

(** The clock and the counters of the queues are none of them. *)
Lemma tracks_aside j b c n q :
  tracks j b →
  tracks j (b <| clock := c |> <| clock_error_count := n |> <| queue_evidence := q |>).
Proof.
  intros Ht. apply (tracks_same j b); [done..| |done]. intros kind.
  destruct (tr_deliveries _ _ Ht kind). by destruct kind.
Qed.

Lemma tracks_stage j b t row stage f :
  stage ∈ [kQ; kT2; kT3] → resolve t b = Some row →
  (∀ e, te_trace_id (f e) = te_trace_id e ∧ te_t0_ns (f e) = te_t0_ns e ∧
        te_t1_ns (f e) = te_t1_ns e ∧ te_stage_mask (f e) = Z.lor (te_stage_mask e) stage) →
  tracks j b → tracks (note_stage stage t j) (change_trace row f b).
Proof.
  intros Hstage Hr Hf Ht. rewrite (resolve_known j b t Ht) in Hr. unfold note_stage. rewrite Hr.
  destruct Ht as [Hself Hlen Hcount Hrows Hblank Hst Hover Hdel].
  assert (Hrow : row < trace_count b).
  { rewrite Hcount. unfold known in Hr. case_match eqn:Hk; [|done]. injection Hr as <-.
    rewrite !andb_true_iff, !bool_decide_eq_true in Hk. tauto. }
  constructor; simpl; try done.
  - by rewrite length_alter.
  - intros row' e Hlt He. destruct (decide (row' = row)) as [->|Hne].
    + rewrite list_lookup_alter_eq in He. apply fmap_Some in He as (e0 & He0 & ->).
      destruct (Hrows row e0 Hlt He0) as (H1 & H2 & H3 & H4 & H5).
      destruct (Hf e0) as (F1 & F2 & F3 & F4). unfold holds_message. rewrite F1, F2, F3, F4.
      rewrite !(observed_lor _ _ _ Hstage) by (rewrite !elem_of_cons; auto).
      rewrite H3, H4. split_all; [done|done|done|done|]. intros stage' Hs'.
      rewrite (observed_lor _ _ _ Hstage) by (rewrite !elem_of_cons in *; tauto).
      cbn [stages]. rewrite elem_of_cons, orb_true_iff, bool_decide_eq_true, (H5 stage' Hs').
      split; [intros [?|<-]; auto|]. intros [[= ->]|?]; auto.
    + rewrite list_lookup_alter_ne in He by done.
      destruct (Hrows row' e Hlt He) as (H1 & H2 & H3 & H4 & H5).
      unfold holds_message. split_all; [done|done|done|done|]. intros stage' Hs'. cbn [stages].
      rewrite elem_of_cons, (H5 stage' Hs'). split; [auto|]. intros [[= -> _]|?]; done.
  - intros row' e Hlt He. destruct (decide (row' = row)) as [->|Hne].
    + rewrite list_lookup_alter_eq in He. apply fmap_Some in He as (e0 & He0 & ->).
      rewrite (proj1 (Hf e0)). by eapply Hblank.
    + rewrite list_lookup_alter_ne in He by done. by eapply Hblank.
  - intros row' stage' [[= -> ->]|Hin]%elem_of_cons; [done|by eapply Hst].
  - intros kind. by destruct (Hdel kind), kind.
Qed.

Lemma u64_succ_wrap n : u64_succ (u64_wrap (Z.of_nat n)) = u64_wrap (Z.of_nat (S n)).
Proof.
  unfold u64_succ, u64_wrap. rewrite Z.add_mod_idemp_l by done. f_equal. lia.
Qed.

Lemma tracks_begin j b (t0 t1 : Z) :
  tracks j b → tracks (note j (CallBegin t0 t1)) (fst (begin_trace t0 t1 b)).
Proof.
  intros [Hself Hlen Hcount Hrows Hblank Hst Hover Hdel]. unfold begin_trace.
  rewrite Hlen. case_bool_decide as Hfull; constructor; cbn; try done.
  - rewrite length_app. simpl. lia.
  - intros row e Hlt He. destruct (Hrows row e Hlt He) as (H1 & H2 & H).
    unfold holds_message. cbn [begun stages]. by rewrite (lookup_app_l_Some _ _ _ _ H2).
  - rewrite length_app, Hover. simpl.
    replace (length (begun j) + 1 - capacity) with (S (length (begun j) - capacity)) by lia.
    apply u64_succ_wrap.
  - intros kind. by destruct (Hdel kind), kind.
  - by rewrite length_insert.
  - rewrite length_app. simpl. lia.
  - intros row e Hlt He. assert (Hn : length (begun j) = trace_count b) by lia.
    destruct (decide (row = trace_count b)) as [->|Hne].
    + rewrite list_lookup_insert_eq in He by lia. injection He as <-.
      unfold holds_message. cbn [te_trace_id te_t0_ns te_t1_ns te_stage_mask begun stages].
      rewrite <- Hn, list_lookup_middle by done. split_all; [done|done|done|done|].
      intros stage Hs. split; [|intros Hin%Hst; lia].
      rewrite !elem_of_cons, elem_of_nil in Hs. by destruct Hs as [->|[->|[->|[]]]].
    + rewrite list_lookup_insert_ne in He by done.
      destruct (Hrows row e) as (H1 & H2 & H); [lia|done|].
      unfold holds_message. cbn [begun stages]. by rewrite (lookup_app_l_Some _ _ _ _ H2).
  - intros row e Hlt He. rewrite list_lookup_insert_ne in He by lia. apply (Hblank row e); [lia|done].
  - intros row stage Hin%Hst. lia.
  - rewrite length_app, Hover. simpl. f_equal. lia.
  - intros kind. by destruct (Hdel kind), kind.
Qed.

(** One kind after a delivery that found room, and after one that did not. *)
Lemma kept_room j b b' kind d e :
  deliveries_kept j b kind → delivery_count kind b ≠ length (deliveries kind b) →
  delivery_of e = d →
  deliveries kind b' = <[delivery_count kind b := e]> (deliveries kind b) →
  delivery_count kind b' = S (delivery_count kind b) →
  overflow_of kind b' = overflow_of kind b →
  deliveries_kept (MkJournal (begun j) (stages j)
    (λ k, if bool_decide (k = kind) then delivered j k ++ [d] else delivered j k)) b' kind.
Proof.
  intros [Hlen Hcount Hrows Hover] Hroom He H1 H2 H3.
  constructor; rewrite ?H1, ?H2, ?H3; cbn [delivered]; rewrite ?bool_decide_eq_true_2 by done.
  - by rewrite length_insert.
  - rewrite length_app. simpl. lia.
  - intros row e' Hlt He'. assert (Hn : length (delivered j kind) = delivery_count kind b) by lia.
    destruct (decide (row = delivery_count kind b)) as [->|Hne].
    + rewrite list_lookup_insert_eq in He' by lia. injection He' as <-.
      by rewrite <- Hn, list_lookup_middle, He.
    + rewrite list_lookup_insert_ne in He' by done.
      by rewrite (lookup_app_l_Some _ _ _ _ (Hrows row e' ltac:(lia) He')).
  - rewrite Hover, length_app. simpl. f_equal. lia.
Qed.

Lemma kept_full j b b' kind d :
  deliveries_kept j b kind → delivery_count kind b = length (deliveries kind b) →
  deliveries kind b' = deliveries kind b → delivery_count kind b' = delivery_count kind b →
  overflow_of kind b' = u64_succ (overflow_of kind b) →
  deliveries_kept (MkJournal (begun j) (stages j)
    (λ k, if bool_decide (k = kind) then delivered j k ++ [d] else delivered j k)) b' kind.
Proof.
  intros [Hlen Hcount Hrows Hover] Hfull H1 H2 H3.
  constructor; rewrite ?H1, ?H2, ?H3; cbn [delivered]; rewrite ?bool_decide_eq_true_2 by done.
  - done.
  - rewrite length_app. simpl. lia.
  - intros row e' Hlt He'. by rewrite (lookup_app_l_Some _ _ _ _ (Hrows row e' Hlt He')).
  - rewrite Hover, u64_succ_wrap, length_app. simpl. f_equal. lia.
Qed.

(** The other kind. *)
Lemma kept_other j b b' kind other d :
  other ≠ kind → deliveries_kept j b other →
  deliveries other b' = deliveries other b → delivery_count other b' = delivery_count other b →
  overflow_of other b' = overflow_of other b →
  deliveries_kept (MkJournal (begun j) (stages j)
    (λ k, if bool_decide (k = kind) then delivered j k ++ [d] else delivered j k)) b' other.
Proof.
  intros Hne [Hlen Hcount Hrows Hover] H1 H2 H3.
  constructor; rewrite ?H1, ?H2, ?H3; cbn [delivered]; by rewrite ?bool_decide_eq_false_2 by done.
Qed.

Lemma tracks_t4 j b t kind ordinal sequence occupancy :
  tracks j b →
  tracks (note j (CallT4 t kind ordinal sequence occupancy))
    (fst (record_t4 t kind ordinal sequence occupancy b)).
Proof.
  intros Ht. cbn [note]. unfold record_t4. rewrite (resolve_known j b t Ht).
  destruct (known j t) as [row|]; [|done].
  set (d := (trace_id t, ordinal, sequence, occupancy)).
  destruct (bool_decide_reflect (delivery_count kind b = length (deliveries kind b))) as [Hf|Hf].
  - assert (Hk : ∀ k, deliveries_kept (MkJournal (begun j) (stages j)
        (λ k, if bool_decide (k = kind) then delivered j k ++ [d] else delivered j k))
        (delivery_overflowed kind b) k).
    { intros k. destruct (decide (k = kind)) as [->|Hne].
      - apply (kept_full j b); [apply Ht|done|by destruct kind..].
      - apply (kept_other j b); [done|apply Ht|by destruct k, kind..]. }
    destruct Ht. by constructor; destruct kind.
  - destruct (sample_same (set_delivery_count kind (S (delivery_count kind b)) b)) as (c & n & Hs).
    destruct (sample_monotonic _) as [b1 now]. simpl in Hs. subst b1. cbn [fst].
    set (b' := raise_delivery_occupancy _ _ _).
    assert (Hk : ∀ k, deliveries_kept (MkJournal (begun j) (stages j)
        (λ k, if bool_decide (k = kind) then delivered j k ++ [d] else delivered j k)) b' k).
    { intros k. destruct (decide (k = kind)) as [->|Hne].
      - apply (kept_room j b b' kind d
          (MkDeliveryEvidence (trace_id t) ordinal sequence now 0 occupancy false));
          [apply Ht|done|by destruct kind..].
      - apply (kept_other j b); [done|apply Ht|by destruct k, kind..]. }
    destruct Ht. by constructor; destruct kind.
Qed.

Lemma tracks_t5 j b d : tracks j b → tracks j (record_t5 d b).
Proof.
  intros Ht. unfold record_t5. case_match; [done|]. case_match; [done|].
  destruct (sample_same b) as (c & n & Hs). destruct (sample_monotonic b) as [b1 now].
  cbn [fst] in Hs. subst b1.
  set (f := λ e : DeliveryEvidence, e <| de_t5_ns := now |> <| de_t5_observed := true |>).
  set (row := Z.to_nat (delivery_row d)).
  apply (tracks_same j b); [by destruct (delivery_kind d)..| |done].
  intros k. destruct (tr_deliveries _ _ Ht k) as [Hlen Hcount Hrows Hover].
  destruct (decide (k = delivery_kind d)) as [->|Hne].
  - assert (Hd : deliveries (delivery_kind d) (set_deliveries (delivery_kind d) (alter f row)
        (b <| clock := c |> <| clock_error_count := n |>)) = alter f row (deliveries (delivery_kind d) b))
      by (by destruct (delivery_kind d)).
    constructor; rewrite ?Hd.
    + by rewrite length_alter.
    + by destruct (delivery_kind d).
    + intros i e Hlt He. assert (Hlt' : i < delivery_count (delivery_kind d) b)
        by (by destruct (delivery_kind d)).
      destruct (decide (i = row)) as [->|Hi].
      * rewrite list_lookup_alter_eq in He. apply fmap_Some in He as (e0 & He0 & ->).
        exact (Hrows row e0 Hlt' He0).
      * rewrite list_lookup_alter_ne in He by done. exact (Hrows i e Hlt' He).
    + by destruct (delivery_kind d).
  - constructor; by destruct k, (delivery_kind d).
Qed.

(** A stage: a reading of the clock, the row of the token, and a queue counter. *)
Lemma tracks_record j b t stage f q :
  stage ∈ [kQ; kT2; kT3] →
  (∀ now e, te_trace_id (f now e) = te_trace_id e ∧ te_t0_ns (f now e) = te_t0_ns e ∧
            te_t1_ns (f now e) = te_t1_ns e ∧
            te_stage_mask (f now e) = Z.lor (te_stage_mask e) stage) →
  tracks j b →
  tracks (note_stage stage t j)
    match resolve t b with
    | None => b
    | Some row =>
        let '(b1, now) := sample_monotonic b in
        change_trace row (f now) b1 <| queue_evidence ::= q |>
    end.
Proof.
  intros Hs Hf Ht. destruct (resolve t b) as [row|] eqn:Hr.
  - destruct (sample_same b) as (c & n & H). destruct (sample_monotonic b) as [b1 now].
    simpl in H. subst b1.
    assert (H1 := tracks_stage j b t row stage (f now) Hs Hr (Hf now) Ht).
    exact (tracks_aside _ _ c n _ H1).
  - unfold note_stage. rewrite <- (resolve_known j b t Ht), Hr. done.
Qed.

Lemma tracks_perform j b call : tracks j b → tracks (note j call) (perform b call).
Proof.
  intros Ht. destruct call as [t0 t1|t occupancy|t|t disposition|t kind ordinal sequence occupancy|d| |kind].
  - by apply tracks_begin.
  - apply (tracks_record j b t kQ (λ now e, e <| te_q_ns := now |>
      <| te_ingress_occupancy_q := occupancy |> <| te_stage_mask ::= λ m, Z.lor m kQ |>)
      (λ q, q <| ingress_max_occupancy ::= Nat.max occupancy |>)); [by left|done|done].
  - exact (tracks_record j b t kT2 (λ now e, e <| te_t2_ns := now |>
      <| te_stage_mask ::= λ m, Z.lor m kT2 |>) id ltac:(by right; left) ltac:(done) Ht).
  - exact (tracks_record j b t kT3 (λ now e, e <| te_t3_ns := now |>
      <| te_t3_disposition := disposition |> <| te_stage_mask ::= λ m, Z.lor m kT3 |>)
      id ltac:(by right; right; left) ltac:(done) Ht).
  - by apply tracks_t4.
  - by apply tracks_t5.
  - exact (tracks_aside j b (clock b) (clock_error_count b) _ Ht).
  - destruct kind; exact (tracks_aside j b (clock b) (clock_error_count b) _ Ht).
Qed.

Lemma tracks_made p set c b :
  make_buffer address p set c l = Some b → tracks empty_journal b.
Proof.
  unfold make_buffer. case_match; [done|]. intros [= <-].
  constructor; simpl; rewrite ?length_replicate, ?Nat.min_0_r; try done.
  - lia.
  - intros row e _ [-> _]%lookup_replicate. done.
  - by intros row stage ?%elem_of_nil.
  - intros kind. constructor; destruct kind; simpl; rewrite ?length_replicate, ?Nat.min_0_r;
      (done || lia).
Qed.

Lemma tracks_calls p set c b calls :
  make_buffer address p set c l = Some b → tracks (journal calls) (foldl perform b calls).
Proof.
  intros Hb%tracks_made. unfold journal. revert Hb. generalize empty_journal.
  induction calls as [|call calls IH] in b |- *; intros j Hb; [done|].
  simpl. apply IH. by apply tracks_perform.
Qed.

(** *** The journal *)

Lemma journal_snoc calls call : journal (calls ++ [call]) = note (journal calls) call.
Proof. unfold journal. by rewrite foldl_app. Qed.

(** What is noted is bounded by the number of calls. *)
Lemma journal_bounded calls :
  length (begun (journal calls)) + length (delivered (journal calls) DkOrderBook)
  + length (delivered (journal calls) DkEvent) ≤ length calls.
Proof.
  induction calls as [|call calls IH] using rev_ind; [done|].
  rewrite journal_snoc, length_app. simpl length at 5.
  destruct call as [t0 t1|t occupancy|t|t disposition|t kind ordinal sequence occupancy|d| |kind];
    cbn [note]; unfold note_stage; try case_match; cbn [begun delivered]; try lia.
  - rewrite length_app. simpl. lia.
  - destruct kind; repeat (case_bool_decide; try done); rewrite length_app; simpl; lia.
Qed.

(** A delivery is always one of a message the buffer holds. *)
Lemma delivered_known calls kind d :
  d ∈ delivered (journal calls) kind →
  (1 <= d.1.1.1 <= Z.of_nat (Nat.min capacity (length (begun (journal calls)))))%Z.
Proof.
  induction calls as [|call calls IH] using rev_ind; [by intros ?%elem_of_nil|].
  rewrite journal_snoc.
  destruct call as [t0 t1|t occupancy|t|t disposition|t kind' ordinal sequence occupancy|d'| |kind'];
    cbn [note]; unfold note_stage; try case_match eqn:Hk; cbn [begun delivered]; try exact IH.
  - intros Hin%IH. rewrite length_app. simpl. lia.
  - case_bool_decide; [|exact IH]. intros [Hin|Hin]%elem_of_app; [by apply IH|].
    apply list_elem_of_singleton in Hin as ->. cbn [fst]. unfold known in Hk.
    destruct (_ && _ && _) eqn:Hc in Hk; [|done].
    rewrite !andb_true_iff, !bool_decide_eq_true, Z.eqb_eq in Hc. lia.
Qed.

(** *** The counters of the export *)

Lemma count_delivery_sum counts e :
  (1 <= de_trace_id e <= Z.of_nat (length counts))%Z →
  sum_list (count_delivery counts e) = S (sum_list counts) ∧
  length (count_delivery counts e) = length counts.
Proof.
  intros He. unfold count_delivery.
  replace (de_trace_id e =? 0)%Z with false by (symmetry; apply Z.eqb_neq; lia).
  replace (de_trace_id e <=? Z.of_nat (length counts))%Z with true by (symmetry; apply Z.leb_le; lia).
  cbn [negb andb]. rewrite length_alter. split; [|done].
  assert (Hlt : Z.to_nat (de_trace_id e - 1) < length counts) by lia. revert Hlt.
  generalize (Z.to_nat (de_trace_id e - 1)). clear He. intros n. revert n.
  induction counts as [|k counts IH]; intros [|n] Hn; simpl in Hn; try lia; [done|].
  change (k + sum_list (alter S n counts) = S (k + sum_list counts)). rewrite IH by lia. lia.
Qed.

Lemma deliveries_counted counts l' :
  Forall (λ e, (1 <= de_trace_id e <= Z.of_nat (length counts))%Z) l' →
  sum_list (foldl count_delivery counts l') = length l' + sum_list counts.
Proof.
  intros Hl. induction l' as [|e l' IH] in counts, Hl |- *; [done|].
  apply Forall_cons in Hl as [He Hl]. destruct (count_delivery_sum counts e He) as [Hs Hn].
  simpl. rewrite IH, Hs; [lia|]. by rewrite Hn.
Qed.

Lemma sum_list_zeros n : sum_list (replicate n 0) = 0.
Proof. by induction n. Qed.

Lemma elem_of_take_weaken {B} n (x : B) k : x ∈ take n k → x ∈ k.
Proof. intros H. rewrite <- (take_drop n k). apply elem_of_app. by left. Qed.

Lemma recorded_rows j b kind :
  tracks j b → delivery_of <$> recorded kind b = take delivery_capacity (delivered j kind).
Proof.
  intros Ht. destruct (tr_deliveries _ _ Ht kind) as [Hlen Hcount Hrows _].
  apply list_eq. intros i. unfold recorded. rewrite list_lookup_fmap.
  destruct (decide (i < delivery_count kind b)) as [Hi|Hi].
  - rewrite !lookup_take_lt by lia.
    destruct (lookup_lt_is_Some_2 (deliveries kind b) i) as [e He]; [lia|]. rewrite He. simpl.
    symmetry. by apply Hrows.
  - rewrite !lookup_ge_None_2; [done|rewrite length_take; lia|rewrite length_take; lia].
Qed.

(** Whatever calls are made on a measurement buffer, with whatever tokens, its rows
    are the first messages that were begun, in order and numbered from 1, each with its
    times and with exactly the stages it was seen at; its deliveries are the first ones
    of messages it holds, in order; all further ones are counted; the export assigns every
    delivery to one message; and the evidence is valid only if nothing was lost. *)
Theorem evidence_accounts_for_every_call p set c b0 calls :
  make_buffer address p set c l = Some b0 → (Z.of_nat (length calls) <= u64_max)%Z →
  let b := foldl perform b0 calls in
  let j := journal calls in
  trace_count b = Nat.min capacity (length (begun j)) ∧
  trace_storage_overflow b = Z.of_nat (length (begun j) - capacity) ∧
  (∀ row e, trace_at row b = Some e →
     te_trace_id e = (Z.of_nat row + 1)%Z ∧ begun j !! row = Some (te_t0_ns e, te_t1_ns e) ∧
     ∀ stage, stage ∈ [kQ; kT2; kT3] →
       (observed (te_stage_mask e) stage = true ↔ (row, stage) ∈ stages j)) ∧
  (∀ kind,
     delivery_of <$> recorded kind b = take delivery_capacity (delivered j kind) ∧
     overflow_of kind b = Z.of_nat (length (delivered j kind) - delivery_capacity) ∧
     sum_list (delivery_counts kind b) = length (recorded kind b)) ∧
  (evidence_valid b = true →
     trace_count b = length (begun j) ∧
     ∀ kind, length (recorded kind b) = length (delivered j kind)).
Proof.
  intros Hb0 Hsmall b j. pose proof (tracks_calls p set c b0 calls Hb0) as Ht. fold b j in Ht.
  pose proof (journal_bounded calls) as Hbound. fold j in Hbound.
  assert (Hd : ∀ kind, length (delivered j kind) ≤ length calls) by (intros []; lia).
  assert (Hw : ∀ n, n ≤ length calls → u64_wrap (Z.of_nat n) = Z.of_nat n).
  { intros n Hn. unfold u64_wrap, u64_max in *. apply Z.mod_small. lia. }
  assert (Hrec : ∀ kind, length (recorded kind b) = Nat.min delivery_capacity (length (delivered j kind))).
  { intros kind. destruct (tr_deliveries _ _ Ht kind) as [Hlen Hcount _ _].
    unfold recorded. rewrite length_take. lia. }
  assert (Hover : ∀ kind, overflow_of kind b = Z.of_nat (length (delivered j kind) - delivery_capacity)).
  { intros kind. rewrite (dk_overflow _ _ _ (tr_deliveries _ _ Ht kind)). apply Hw.
    specialize (Hd kind). lia. }
  split; [apply Ht|]. split; [rewrite (tr_overflow _ _ Ht); apply Hw; lia|]. split.
  { intros row e He. unfold trace_at in He. case_bool_decide; [done|].
    destruct (tr_rows _ _ Ht row e) as (H1 & H2 & _ & _ & H3); [lia|done|]. by split_all. }
  split.
  - intros kind. split; [|split; [apply Hover|]].
    + by apply (recorded_rows j b kind).
    + unfold delivery_counts. rewrite deliveries_counted; [rewrite sum_list_zeros; lia|].
      rewrite length_replicate. apply Forall_forall. intros e He.
      assert (Hin : delivery_of e ∈ delivered j kind).
      { apply (elem_of_take_weaken delivery_capacity).
        rewrite <- (recorded_rows j b kind Ht). by apply list_elem_of_fmap_2. }
      apply delivered_known in Hin. rewrite (tr_count _ _ Ht). exact Hin.
  - unfold evidence_valid, delivery_storage_overflow. rewrite !andb_true_iff, !Z.eqb_eq.
    intros [[H1 H2] _]. rewrite (tr_overflow _ _ Ht), Hw in H1 by lia.
    change (order_book_delivery_overflow b) with (overflow_of DkOrderBook b) in H2.
    change (event_delivery_overflow b) with (overflow_of DkEvent b) in H2.
    rewrite !Hover, <- Nat2Z.inj_add, Hw in H2 by lia.
    split; [rewrite (tr_count _ _ Ht); lia|]. intros kind. rewrite Hrec. destruct kind; lia.
Qed.
End Accounting.

(** ** Witness: a buffer for two messages and one delivery *)

Section Sample.

#[local] Instance sample_clock : MonotonicClock Z := {| monotonic_now c := ((c + 1)%Z, Returned c) |}.

Definition sample_buffer_limits : PerformanceBaselineLimits := MkPerformanceBaselineLimits 2 1.

Definition sample_buffer : ProductTraceBuffer Z :=
  MkProductTraceBuffer 77 PdSpot 100%Z sample_buffer_limits
    [no_trace_evidence; no_trace_evidence] [no_delivery_evidence] [no_delivery_evidence]
    0 0 0 0 0 0 0 (MkQueueEvidence 0 0 0 0 0 0).

Definition first_token : TraceToken := MkTraceToken (Some 77%Z) 0 1.

(** The third message and the second delivery do not fit; the stray token is of another
    buffer. *)
Definition sample_calls : list BufferCall :=
  [CallBegin 5 6; CallQ first_token 3; CallT2 (MkTraceToken (Some 78%Z) 0 1);
   CallT4 first_token DkOrderBook 1 1 4; CallT4 first_token DkOrderBook 1 2 4;
   CallBegin 7 8; CallBegin 9 9].

Definition sample_after : ProductTraceBuffer Z := foldl perform sample_buffer sample_calls.

Example sample_export : length (json_lines sample_after) = 4.
Proof. by vm_compute. Qed.

Lemma sample_made : make_buffer 77 PdSpot true 100%Z sample_buffer_limits = Some sample_buffer.
Proof. reflexivity. Qed.

Lemma evidence_accounts_for_every_call_witness :
  trace_count sample_after = 2 ∧ trace_storage_overflow sample_after = 1%Z ∧
  evidence_valid sample_after = false ∧
  delivery_of <$> recorded DkOrderBook sample_after = [(1%Z, 1%Z, 1%Z, 4)] ∧
  overflow_of DkOrderBook sample_after = 1%Z.
Proof.
  assert (Hn : (Z.of_nat (length sample_calls) <= u64_max)%Z) by (simpl; unfold u64_max; lia).
  destruct (evidence_accounts_for_every_call 77 sample_buffer_limits PdSpot true 100%Z sample_buffer
    sample_calls sample_made Hn) as (H1 & H2 & _ & H3 & _).
  destruct (H3 DkOrderBook) as (H4 & H5 & _).
  split; [exact H1|]. split; [exact H2|]. split; [by vm_compute|]. split; [exact H4|exact H5].
Defined.
End Sample.
