(* ===== verification/Synthetic.v ===== *)
(** * Synthetic: the demonstration host

    Models [src/src/g2/synthetic_spot_host.hpp] and [.cpp]: a host without a network that
    feeds one Spot projection.  It buffers updates until a snapshot is installed, replays
    them, applies live updates, makes snapshots and resets.  The projection and its
    adapter are the parameters of [Projection].

    [replay_applies_the_buffer]: a replay that returns has applied every buffered update
    once and in order, each to the projection the one before left, and has kept the
    buffer.  Module [Script] is the [main] of [src/app/g2_synthetic]:
    [success_has_applied_the_script]. *)

From S2P Require Import Prelude Ring Wire Text Session OrderBookPublication Programs Projection.
From S2P Require Import EventPublication MarketRuntime Recovery RecoveryProtocol Config SpotProtocol.
From S2P Require Import Registry GrpcRequests Metadata Routes UsdmProtocol GatewayStatus Products.
From S2P Require Daemon AcceptanceClient.

Open Scope gateway_scope.

Section Host.
Context `{L : ProjectionLibrary} `{N : NumericLibrary} `{PC : !ProjectionConstruction}.

Record SyntheticSpotHost : Type := MkSyntheticSpotHost {
  numeric_spec : NumericSpec;
  host_identity : ExpectedIdentity;
  projection : BookProjection;
  buffered_updates : list DepthUpdate;
  snapshot_context : SnapshotContext
}.
#[export] Instance SyntheticSpotHost_eta : Eta SyntheticSpotHost := λ h,
  MkSyntheticSpotHost (numeric_spec h) (host_identity h) (projection h) (buffered_updates h)
    (snapshot_context h).
Implicit Types (h : SyntheticSpotHost).

(** [make_numeric_spec]; [None] is [std::abort]. *)
Definition make_numeric_spec : option NumericSpec :=
  price_scale ← decimal_scale_create 2;
  quantity_scale ← decimal_scale_create 3;
  Some (MkNumericSpec price_scale quantity_scale).

Definition make_expected_identity : ExpectedIdentity := expected_identity "BTCUSDT" SpkSpot.

Definition make_snapshot_context : SnapshotContext :=
  MkSnapshotContext "gateway-g2-synthetic" "1.0.0" 1700000000123456000
    (Some 1700000000123456789%Z).

Definition make_host : option SyntheticSpotHost :=
  spec ← make_numeric_spec;
  Some (MkSyntheticSpotHost spec make_expected_identity (book_projection spec SpkSpot) []
          make_snapshot_context).

Definition receive_pre_snapshot (update : DepthUpdate) h : SyntheticSpotHost :=
  h <| buffered_updates ::= λ l, l ++ [update] |>.

Definition install_snapshot (snapshot : ExchangeDepthSnapshot) h
  : SyntheticSpotHost * outcome (InstallResult + AdapterError) :=
  match adapt_exchange_depth_snapshot snapshot (projection h) (host_identity h) with
  | Threw => (h, Threw)
  | Returned (inr error) => (h, Returned (inr error))
  | Returned (inl baseline) =>
      let '(p, r) := install_into baseline (projection h) in (h <| projection := p |>, r)
  end.

Definition apply_live_update (update : DepthUpdate) h
  : SyntheticSpotHost * outcome (ApplyResult + AdapterError) :=
  match adapt_depth_update update (projection h) (host_identity h) with
  | Threw => (h, Threw)
  | Returned (inr error) => (h, Returned (inr error))
  | Returned (inl batch) =>
      let '(p, r) := apply_to batch (projection h) in (h <| projection := p |>, r)
  end.

(** The loop of [replay_buffered_updates] over the updates that are left. *)
Fixpoint replay (updates : list DepthUpdate) (outcomes : list (ApplyResult + AdapterError)) h
  : SyntheticSpotHost * outcome (list (ApplyResult + AdapterError)) :=
  match updates with
  | [] => (h, Returned outcomes)
  | update :: rest =>
      match apply_live_update update h with
      | (h, Returned r) => replay rest (outcomes ++ [r]) h
      | (h, Threw) => (h, Threw)
      end
  end.

Definition replay_buffered_updates h := replay (buffered_updates h) [] h.

Definition make_snapshot h : outcome (LocalOrderBookSnapshot + AdapterError) :=
  make_local_order_book_snapshot (projection h) (host_identity h) (snapshot_context h) None.

(** [reset]; an exception would end the process. *)
Definition reset_host h : SyntheticSpotHost * outcome () :=
  match reset (projection h) with
  | (p, Returned _) => (h <| projection := p |> <| buffered_updates := [] |>, Returned ())
  | (p, Threw) => (h <| projection := p |>, Threw)
  end.

Definition buffered_update_count h : nat := length (buffered_updates h).

(** ** What a replay does *)

(** One live update after another, and what each answered. *)
Inductive applied : list DepthUpdate → list (ApplyResult + AdapterError) →
  SyntheticSpotHost → SyntheticSpotHost → Prop :=
| applied_none h : applied [] [] h h
| applied_next u us r rs h h1 h2 :
    apply_live_update u h = (h1, Returned r) → applied us rs h1 h2 →
    applied (u :: us) (r :: rs) h h2.

Lemma live_update_keeps u h h' r :
  apply_live_update u h = (h', r) →
  buffered_updates h' = buffered_updates h ∧ host_identity h' = host_identity h ∧
  numeric_spec h' = numeric_spec h.
Proof.
  unfold apply_live_update. intros H. repeat case_match; simplify_eq; done.
Qed.

Lemma replay_applied updates outcomes h h' rs :
  replay updates outcomes h = (h', Returned rs) ↔
  ∃ new, rs = outcomes ++ new ∧ applied updates new h h'.
Proof.
  revert outcomes h. induction updates as [|u us IH]; intros outcomes h; cbn [replay].
  - split.
    + intros [= <- <-]. exists []. split; [by rewrite app_nil_r|constructor].
    + intros (new & -> & H). inversion H; subst. by rewrite app_nil_r.
  - destruct (apply_live_update u h) as [h1 [r|]] eqn:Hu.
    + rewrite IH. split.
      * intros (new & -> & H). exists (r :: new). rewrite <- app_assoc. split; [done|].
        by eapply applied_next.
      * intros (new & -> & H). inversion H as [|? ? r' rs' ? h2 ? Hu' H']; subst.
        rewrite Hu in Hu'. injection Hu' as <- <-. exists rs'. by rewrite <- app_assoc.
    + split; [done|]. intros (new & _ & H). inversion H; congruence.
Qed.

Lemma applied_length us rs h h' : applied us rs h h' → length rs = length us.
Proof. by induction 1; simpl; f_equal. Qed.

Lemma applied_keeps us rs h h' :
  applied us rs h h' → buffered_updates h' = buffered_updates h.
Proof.
  induction 1 as [|u us r rs h h1 h2 Hu _ IH]; [done|]. rewrite IH.
  by destruct (live_update_keeps _ _ _ _ Hu).
Qed.

(** A replay that returns has applied every buffered update once and in order, each to the
    projection the one before left, answers once for each, and keeps the buffer. *)
Lemma replay_applies_the_buffer h h' rs :
  replay_buffered_updates h = (h', Returned rs) ↔ applied (buffered_updates h) rs h h'.
Proof.
  unfold replay_buffered_updates. rewrite replay_applied. split.
  - by intros (new & -> & H).
  - intros H. by exists rs.
Qed.

Lemma replay_keeps_the_buffer h h' rs :
  replay_buffered_updates h = (h', Returned rs) →
  length rs = buffered_update_count h ∧ buffered_updates h' = buffered_updates h.
Proof.
  rewrite replay_applies_the_buffer. intros H. split; [by eapply applied_length|by eapply applied_keeps].
Qed.
End Host.

(** ** The scripted run *)

Module Script.

(** What [main] reads of a result and of a snapshot. *)
Class ScriptReading `{L : ProjectionLibrary} : Type := {
  last_update_id_after : ApplyResult → Z;
  out_last_update_id : LocalOrderBookSnapshot → Z;
  out_synchronized : LocalOrderBookSnapshot → bool;
  out_bids : LocalOrderBookSnapshot → list PriceLevel;
  out_asks : LocalOrderBookSnapshot → list PriceLevel
}.

(** How the process ends: by [std::abort], which an exception nobody catches comes to as
    well, or with an exit code after what it printed. *)
Inductive Ending : Type :=
| Aborts
| Exits (output : string) (code : Z).

Section Run.
Context `{L : ProjectionLibrary} `{N : NumericLibrary} `{PC : !ProjectionConstruction}.
Context `{W : WireEnums} `{R : !ScriptReading}.

(** The local [make_snapshot] of the driver. *)
Definition script_snapshot : ExchangeDepthSnapshot :=
  MkExchangeDepthSnapshot VENUE_BINANCE MARKET_SPOT "BTCUSDT" "exchange-depth-snapshot.v1"
    "gateway-g2-synthetic" "1.0.0" "g2-snapshot-request-1" 100 (Some 1700000000001%Z)
    1700000000001000000 9000000000001 [MkPriceLevel "100.00" "2.500"]
    [MkPriceLevel "101.00" "3.000"].

Definition make_bridge : DepthUpdate :=
  MkDepthUpdate
    (MkEventMetadata VENUE_BINANCE MARKET_SPOT "BTCUSDT" "gateway-g2-synthetic" "1.0.0"
       "g2-connection-1" STREAM_DIFF_DEPTH "depth-update.v1" (Some 1700000000002%Z) None None
       (Some 1700000000002000000%Z) (Some 9000000000002%Z))
    101 101 None [MkPriceLevel "100.00" "4.500"] [].

Definition make_live_update : DepthUpdate :=
  let update := make_bridge in
  MkDepthUpdate (du_metadata update) 102 103 (previous_final_update_id update)
    (alter (λ bid, MkPriceLevel (level_price bid) "5.000") 0 (du_bids update))
    (du_asks update ++ [MkPriceLevel "102.00" "0.000"; MkPriceLevel "103.00" "2.000"]).

(** The outcomes of an update that was applied, and of the one update of the buffer. *)
Definition was_applied (r : ApplyResult + AdapterError) : bool :=
  match r with
  | inl a => bool_decide (apply_disposition a = Applied)
  | inr _ => false
  end.

Definition was_installed (r : InstallResult + AdapterError) : bool :=
  match r with
  | inl i => install_installed i
  | inr _ => false
  end.

Definition replayed_the_bridge (rs : list (ApplyResult + AdapterError)) (h : SyntheticSpotHost)
  : bool :=
  match rs with
  | [r] => was_applied r && bool_decide (status (projection h) = Synchronized)
  | _ => false
  end.

Definition applied_to_103 (r : ApplyResult + AdapterError) : bool :=
  was_applied r &&
  match r with
  | inl a => (last_update_id_after a =? 103)%Z
  | inr _ => false
  end.

(** The book after the run: the asks of the script are the one of the snapshot and the new
    one; the removed one was never there. *)
Definition expected_book (r : LocalOrderBookSnapshot + AdapterError) : bool :=
  match r with
  | inr _ => false
  | inl book =>
      (out_last_update_id book =? 103)%Z && out_synchronized book
      && bool_decide (length (out_bids book) = 1) && bool_decide (length (out_asks book) = 2)
      && bool_decide (level_quantity <$> out_bids book !! 0 = Some "5.000")
      && bool_decide (level_price <$> out_asks book !! 0 = Some "101.00")
      && bool_decide (level_price <$> out_asks book !! 1 = Some "103.00")
  end.

Definition script_report : string :=
  Daemon.line ("G2_SYNTHETIC_HOST=PASS venue=BINANCE market=SPOT symbol=BTCUSDT "
        +:+ "status=Synchronized last_update_id=103").

(** One checked step: an exception ends the process, a failed check leaves with a failure. *)
Definition checked {A} (r : outcome A) (passes : A → bool) (k : Ending) : Ending :=
  match r with
  | Threw => Aborts
  | Returned a => if passes a then k else Exits "" AcceptanceClient.EXIT_FAILURE
  end.

Definition script_main : Ending :=
  match make_host with
  | None => Aborts
  | Some h =>
      let h := receive_pre_snapshot make_bridge h in
      let '(h, installed) := install_snapshot script_snapshot h in
      checked installed was_installed
        (let '(h, replay) := replay_buffered_updates h in
         checked replay (λ rs, replayed_the_bridge rs h)
           (let '(h, live) := apply_live_update make_live_update h in
            checked live applied_to_103
              (checked (make_snapshot h) expected_book (Exits script_report AcceptanceClient.EXIT_SUCCESS))))
  end.

Lemma checked_success {A} (r : outcome A) passes k output :
  checked r passes k = Exits output AcceptanceClient.EXIT_SUCCESS →
  ∃ a, r = Returned a ∧ passes a = true ∧ k = Exits output AcceptanceClient.EXIT_SUCCESS.
Proof.
  destruct r as [a|]; simpl; [|done]. destruct (passes a) eqn:Ha; [|by intros [=]]. by exists a.
Qed.

Lemma applied_snoc us rs u r h h1 h2 :
  applied us rs h h1 → apply_live_update u h1 = (h2, Returned r) →
  applied (us ++ [u]) (rs ++ [r]) h h2.
Proof.
  induction 1 as [h|u' us r' rs h h1 h1' Hu' _ IH]; intros Hu; simpl.
  - by eapply applied_next, applied_none.
  - eapply applied_next; [done|by apply IH].
Qed.

Lemma was_applied_spec r : was_applied r = true → ∃ a, r = inl a ∧ apply_disposition a = Applied.
Proof. destruct r as [a|]; simpl; [|done]. intros ?%bool_decide_eq_true. by exists a. Qed.

Lemma replayed_the_bridge_spec rs h :
  replayed_the_bridge rs h = true →
  ∃ a, rs = [inl a] ∧ apply_disposition a = Applied ∧ status (projection h) = Synchronized.
Proof.
  destruct rs as [|r [|]]; simpl; [done| |done].
  intros [(a & -> & Ha)%was_applied_spec Hs%bool_decide_eq_true]%andb_true_iff. by exists a.
Qed.

Lemma applied_to_103_spec r :
  applied_to_103 r = true →
  ∃ a, r = inl a ∧ apply_disposition a = Applied ∧ last_update_id_after a = 103%Z.
Proof.
  intros [(a & -> & Ha)%was_applied_spec Hid%Z.eqb_eq]%andb_true_iff. by exists a.
Qed.

Lemma install_keeps snapshot h h' r :
  install_snapshot snapshot h = (h', r) → buffered_updates h' = buffered_updates h.
Proof. unfold install_snapshot. intros H. repeat case_match; simplify_eq; done. Qed.

Lemma made_buffer h update :
  make_host = Some h → buffered_updates (receive_pre_snapshot update h) = [update].
Proof. unfold make_host. destruct make_numeric_spec; simpl; [|done]. by intros [= <-]. Qed.

(** The run passes only when the projection it installed the baseline in has applied the
    bridge and then the live update, neither twice, was synchronized in between, and shows
    the book of the script. *)
Lemma success_has_applied_the_script output :
  script_main = Exits output AcceptanceClient.EXIT_SUCCESS →
  ∃ h i h1 a h2 b h3 book,
    make_host = Some h ∧
    install_snapshot script_snapshot (receive_pre_snapshot make_bridge h)
      = (h1, Returned (inl i)) ∧ install_installed i = true ∧
    applied [make_bridge] [inl a] h1 h2 ∧ status (projection h2) = Synchronized ∧
    applied [make_bridge; make_live_update] [inl a; inl b] h1 h3 ∧
    apply_disposition a = Applied ∧ apply_disposition b = Applied ∧
    last_update_id_after b = 103%Z ∧
    make_snapshot h3 = Returned (inl book) ∧ expected_book (inl book) = true.
Proof.
  unfold script_main. destruct make_host as [h|] eqn:Hh; [|done].
  destruct (install_snapshot _ _) as [h1 r1] eqn:Hi.
  intros ([i|] & -> & Hpi & H)%checked_success; [|done].
  destruct (replay_buffered_updates h1) as [h2 r2] eqn:Hr.
  apply checked_success in H as (rs & -> & (a & -> & Ha & Hs)%replayed_the_bridge_spec & H).
  destruct (apply_live_update make_live_update h2) as [h3 r3] eqn:Hl.
  apply checked_success in H as (r & -> & (b & -> & Hb & Hid)%applied_to_103_spec & H).
  apply checked_success in H as ([book|] & Hm & Hbook & _); [|done].
  apply replay_applies_the_buffer in Hr.
  rewrite (install_keeps _ _ _ _ Hi), (made_buffer _ _ Hh) in Hr.
  pose proof (applied_snoc _ _ _ _ _ _ _ Hr Hl) as Hall.
  exists h, i, h1, a, h2, b, h3, book. repeat split; assumption.
Qed.
End Run.

(** With the small projection of [SampleProjection], read as the book the script is to leave,
    the run passes; with one that reports another update id it fails. *)
Definition sample_reading (id : Z) : ScriptReading (L := SampleProjection.library) := {|
  last_update_id_after _ := 103;
  out_last_update_id _ := id;
  out_synchronized _ := true;
  out_bids _ := [MkPriceLevel "100.00" "5.000"];
  out_asks _ := [MkPriceLevel "101.00" "3.000"; MkPriceLevel "103.00" "2.000"]
|}.

Definition sample_run (id : Z) : Ending :=
  script_main (L := SampleProjection.library) (N := sample_numeric) (PC := sample_construction)
    (W := sample_enums) (R := sample_reading id).

Lemma sample_run_ends :
  sample_run 103 = Exits script_report AcceptanceClient.EXIT_SUCCESS ∧
  sample_run 102 = Exits "" AcceptanceClient.EXIT_FAILURE.
Proof. split; vm_compute; reflexivity. Qed.
End Script.
